(* ===== verification/_CoqProject ===== *)
-Q . S2P
Prelude.v
Str.v
Json.v
Rows.v
Condition.v
MissionDef.v
MissionSched.v
MissionStore.v
MissionRun.v
MissionFacts.v
MissionSafety.v
MissionLive.v
MissionExec.v
MissionThms.v
MissionReport.v
Session.v
PlanStore.v
WebAuth.v
Jail.v
ChatText.v
Bridge.v
Fts.v
SessionStore.v
SessionFacts.v
Search.v
HistoryScan.v
TimeBound.v
Memory.v
Turn.v
TurnGate.v
Transport.v
Events.v
Handler.v
AgentLog.v
Requests.v
RequestsLive.v
Follow.v
StreamJson.v
AgentCli.v
Codex.v
CodexFacts.v
CodexTurn.v
CodexThms.v
Omp.v
OmpChunks.v
OmpThms.v
SkillText.v
SkillFs.v
SkillsHub.v
SkillFacts.v
SkillTrash.v
SkillCases.v
Interact.v
Worktree.v
WorktreeFacts.v
WorktreeRetry.v
WorktreeList.v
WorktreeCases.v
OmpScan.v
Droid.v
DroidThms.v
DroidScan.v
Opencode.v
OpencodeThms.v
McpConfig.v
McpFacts.v
McpProbe.v
McpCases.v
Wire.v
WireFacts.v
Conn.v
ConnFacts.v
ConnSubs.v
Files.v
Bots.v
Prompts.v
PromptFacts.v
PromptText.v
SessionCalls.v
SessionGate.v
