(* ===== verification/Prelude.v ===== *)
(** * Damon agent core: verification library

    damon-agent-core is a daemon ([damond]) that runs coding agents for its
    clients.  This library models the parts that keep state and make
    decisions, as functions and step relations on explicit states, and proves
    what they guarantee.  Source files are named relative to src/src.

    ** The program and its model

    - A mission ([mission.rs], [mission.*] of [rpc.rs], mission tables of
      [store.rs]) runs a flow of input, agent, human and output nodes.  A flow
      is JSON text decoded and checked by [parse_definition]; edges carry
      conditions on the upstream output.  [MissionScheduler] settles the
      tasks, starts executors, takes completions and human answers and
      persists every change before it broadcasts it.
    - Sessions ([session.rs]) are live agent processes under a cap, each with a
      journal of the current turn, closed when idle.
    - A turn ([turn.start], [run_turn], [drive_turn] of [rpc.rs]) takes the
      session's busy flag and a slot, stores the user's message, puts the memory
      block in front of the prompt, collects the agent's events to a boundary
      and stores one row per artifact; the loss of its connection cancels it.
    - The store ([store.rs]) keeps sessions, messages with their full-text
      index, usage, projects, the prompt history, and what the history scan
      ([history_scan.rs], [session.rescan]) imported from the agents' own
      histories, with tombstones for what the user deleted.
    - Memory ledgers ([memory], [memory.*] of [rpc.rs]) hold facts that passed a
      scan, a capacity check and an approval.
    - Plan reviews ([store.rs], [plan.respond] of [rpc.rs]) are durable rows
      behind the plan asks of an agent.
    - The web gate ([api.rs], [store.rs], [device.*] of [rpc.rs], [config.rs])
      pairs devices, mints tickets and lets sockets in.
    - The file jail ([rpc.rs], [granted_roots] of [store.rs]) bounds what file
      calls reach: the session's directory and the roots the user granted.
    - The chat bridge ([channel.rs]) maps chats to sessions: turn lanes,
      permission asks, watches, commands, and the texts it sends.

    - Stream-json agents ([backend/streamjson.rs], [claude.rs], [qwen.rs]) are
      processes whose lines ([backend/transport.rs]) are frames; a parser and a
      dialect turn frames into the events of [backend/types.rs], and prompts,
      answers and control requests into frames.
    - Codex agents ([backend/codex.rs]) speak JSON-RPC: they answer the daemon's
      requests, make their own, and notify.
    - Omp and pi agents ([backend/omp.rs]) share one wire of commands and events,
      with dialogs, and chunks for frames too large; their transcripts on disk
      are listed for resuming.
    - Droid agents ([backend/droid.rs]) speak JSON-RPC in typed envelopes; theirs
      are listed too.
    - Opencode and mimo agents ([backend/opencode.rs]) are sessions of an HTTP
      server: requests one way, a stream of events with snapshots the other.
    - The skills hub ([skills_hub]) installs skills from repositories, imports
      the user's own, and links or copies them into the agents' skill
      directories; what it removes goes to a trash for five minutes.
    - A connection ([rpc.rs]) carries requests and answers, and the events of the
      sessions it subscribed to, behind a replay of what it missed, through one
      bounded queue.
    - Worktrees ([worktree.rs]) are git checkouts created, listed and removed by
      asking git, the file system and the store.
    - The MCP inventory ([mcp_inventory.rs]) reads the servers the agents are
      configured with from the agents' own files, shows them redacted, switches
      claude's, and probes a server on request.
    - Personas ([bots.rs]) and prompts ([prompts.rs]) are files the user edits
      with any tool; a persona is bound to a session, a prompt is a command of an
      agent.
    - Clients create, resume, restart, watch, close and delete sessions
      ([session.*] of [rpc.rs]): the directory is checked, grants and persona are
      looked up, the agent is launched, the row written, the client subscribed.

    They meet at the store (missions, plans, transcripts and memories are rows),
    at the session manager (a mission's executor and a chat's turn are
    sessions), at the turn, which writes transcript, usage and plan rows, reads
    the ledgers and collects what an agent session emits, and at the permission asks (a plan decision or a chat
    reply answers a session's ask).

    ** Files

    - Prelude: this header; tactics, hints, lists, results, sorting, traces.
    - Str, Json, Rows: Rust strings as lists of scalar values with byte
      lengths, [serde_json] values and the class [JsonText] of their text, SQL
      tables as lists of rows with [UPDATE ... WHERE].
    - Condition: the edge-condition grammar, [parse_condition] and
      [evaluate_condition].
    - MissionDef: node kinds, task states, [parse_definition],
      [validate_definition], [activated_edges], agent prompts and outputs.
    - MissionSched: [settle], [apply_completion], [apply_respond],
      [cancel_all], [derive_run_status] on the task list, with the [effect]s
      they have in program order.
    - MissionStore: the flow, run, task and inbox tables and every [Store]
      method on them; effects interpreted on the store.
    - MissionRun: [MissionScheduler::run] as the step relation [step] over
      [run_state] (tasks, executor tokens, channels, registry entry, store),
      with the start, respond and cancel arms of [rpc.rs].
    - MissionFacts, MissionSafety, MissionLive, MissionExec: facts on settled
      missions, the safety invariant [run_inv], the liveness invariant [live], the
      executors in flight and the shape of what is left to do.
    - MissionThms, MissionReport: the guarantees of the engine, and what the
      store says about a run from the outside.
    - Session: [EventJournal] and [SessionManager]; [mstep] interleaves where
      the code releases its lock.
    - PlanStore: [plan_reviews] rows; [plan_step] is the claim, relay, settle
      or revert protocol.
    - WebAuth: secret references, devices, tickets, [check_auth]; [web_micro]
      steps the handlers from one wait to the next, those that wait in flight.
    - Jail: paths, symbolic links and [canonicalize] over a finite file system,
      [resolve_jailed], [file_read], [file_write], grants, the directory gate.
    - ChatText: [chunk_fence_safe], [to_telegram_html], permission and
      question prompts and responses.
    - Bridge: [lane_step] and [ask_step] for lanes and asks, the watch
      registry, [session_for], the commands, [handle_message].
    - Fts: [fts_text], the query translation [fts5_query] and [like_snippet].
    - SessionStore: the record [Db] of the session tables and every [Store]
      method on them; SessionFacts: sequences of calls ([run_ops]), the
      invariant [db_inv] and the theorems; Search: [search_filtered].
    - HistoryScan: [scan_history] over what the backends discovered.
    - TimeBound: [parse_time_bound] and its grammar.
    - Memory: [scan], [check_write], the ledger table, the calls, the block.
    - Turn: [run_turn] and [drive_turn] on [Db] and the ledgers, the events of
      the agent an argument; TurnGate: [gate_step], the turns of all connections
      up to their claims, tokens, slots and guards.

    - Transport: [read_loop], chunks of bytes to frames; the map of requests in
      flight.  Events: the event model, and [view], what a turn reads of it.
    - Handler: handlers, a state monad that logs effects, and the relations they
      obey; AgentLog: those effects, and what a turn makes of them; Requests:
      calls that pause or wait for the agent as tasks, [live] a session with its
      tasks, and the classes [Keeps] and [Holds] of what all its runs keep;
      RequestsLive: tasks end with their agent.
    - StreamJson: the parser, the modules Claude and Qwen, the class [DialectLaws] between them and the
      session, and [run_world], the interleaved sessions of one backend.
    - AgentCli: command lines and transcript titles.
    - Codex: frames, calls and the handshake of [codex.rs] as handlers and tasks;
      CodexFacts, CodexTurn, CodexThms: relations its runs keep, frames to turns,
      the theorems with runs and witnesses.
    - Omp: frames, chunks, dialogs, commands and calls of [omp.rs]; OmpChunks: a
      frame in chunks; OmpThms: calls, choices, runs and witnesses; OmpScan: the
      listing.
    - Follow: books on a session's log and the relations its steps leave alone.
      Droid: [droid.rs]; DroidThms: its books, frames to turns, runs;
      DroidScan: the listing.
    - Opencode: [opencode.rs], a call a task that stops at its requests;
      OpencodeThms: snapshots, turns, where the reader dies.
    - SkillText: sanitized names, repository URLs and trees, front matter;
      SkillFs: a file system and the operations of [fsutil.rs] on it;
      SkillsHub: the registry, and [hub_step], one call of the hub;
      SkillFacts, SkillTrash: where an operation acts, the registry invariant
      [skills_ok], the trash; SkillCases: both on a small machine.
    - Interact: programs that ask a world questions, their runs and weakest
      preconditions; Worktree: the functions of [worktree.rs] as such programs,
      the answers of git, of the file system and of the store an argument;
      WorktreeFacts, WorktreeRetry, WorktreeList, WorktreeCases: what is asked
      before a checkout is added or removed, retries, the porcelain, runs.
    - McpConfig: the formats, redaction, the inventory and the switch of
      [mcp_inventory.rs]; McpFacts: what it shows and changes; McpProbe: the probe
      by bytes and by lines; McpCases: both by example.
    - Wire: events, items and errors as JSON, stored rows as events; WireFacts: a
      stored turn replayed.  Conn: [conn_step], all that interleaves around one
      connection; ConnFacts, ConnSubs: its invariants, theorems and runs.
    - Files: a file system with links and the operations of [std::fs] on it.
      Bots: the directory of a persona, saved and loaded.  Prompts: the
      library and its calls; PromptFacts, PromptText: where it writes, and what it
      reads back, with examples.
    - SessionCalls: session calls as programs of Interact; SessionGate: what an
      agent's launch follows, and dialogues.

    ** What the theorems show

    - Missions: [settle] ends in a stable state; a run of an acyclic flow never
      gets stuck; persist comes before broadcast; every task only moves along
      its state machine; executors in flight, executors ever started and retries
      stay in bounds; an answer is claimed and handed to the live run; the reported
      status is the tasks'; recovery closes orphaned runs; an inbox item has
      one winner; exclusion is downstream reachability; a cancelled run stays
      cancelled.  The parser yields well-formed definitions, and rendering a
      condition and parsing it back is the identity.
    - Sessions: the journal replays the current turn or nothing; creation
      respects the cap; the idle sweep closes exactly the idle sessions.
    - Turns: a session has one turn at a time and its flag is up just then; a
      lost connection cancels what it started; the collector hears what it
      should, and the transcript grows by exactly its artifacts; a turn ends
      just when its stream, timeout or connection ends it.
    - Store: the tables agree after any calls; append, fork, delete and
      retention do what they say to every table; a search returns just the
      matching messages within its bounds; a query becomes a well-formed FTS5
      expression of its terms; a second history scan changes nothing.
    - Time bounds: the parser accepts a grammar and counts days right.
    - Memory: entries passed the scan, which finds every credential; ledgers
      stay under their cap without approvals; pending entries and foreign
      ledgers never reach a prompt.
    - Agents: frames are a function of the bytes, however they are cut; requests
      in flight never hang on a dead process; every turn ends at most once, the
      agent gets only answers it asked for; what a turn collects is what the
      frames say, for codex too, where no call hangs on a dead agent, tool calls
      end as they began, and turns run under the mode chosen when they were called
      for; for omp and
      pi, where chunks in any order are the frame they carry and nested ones end; for
      droid, whose answers match its requests and whose turns end as they started; for
      opencode, where growing snapshots are told once;
      subagents end after they start; a command line says what the
      configuration does.
    - Skills: the registry stays well formed; an operation touches one name, and
      never the original of a managed import; what is restored in time is what
      was uninstalled.
    - Connections: a replay comes before what is live, what is live comes in order
      and once, a request is answered once at most; a stored turn replays as its
      agent showed it.
    - Session calls: they launch an agent only in a directory that passed the gate,
      with the grants of the project asked for, in the session's own when there is
      one.  (Missions launch theirs elsewhere, through no gate.)
    - Personas and prompts: a saved persona loads as it was saved; prompts are
      written in the library's roots only, and one that was created reads back.
    - Worktrees: a checkout is added only after every check passed; a retry
      finds the row it wrote; the listing git prints reads back as it was.
    - MCP: what is shown does not depend on the secrets in the files, but for the
      query of a URL without a path; the switch
      is a compare and set; a probe reads lines.
    - Plans: one open revision per plan, no approval without a matching
      intent; a claim excludes every other.
    - Web: an unapproved device has no ticket and no socket, while no request of a
      device overlaps its revocation; the gate fails closed; a pairing key works
      once.
    - Files: reads and writes stay inside the jail where links resolve and
      parent components do not follow missing names; grants add their directory
      to their scope and are revoked exactly.
    - Chat: turns of a conversation are first in, first out and lose nothing;
      only the requester's reply allows a tool run of its own turn, and only an
      admitted member's one of a watched session; chunks carry the reply;
      markup is well-formed; choices and answers agree; conversations and
      watches survive a restart within their bounds.
    - Theorems about races and dead ends ([cyclic_flow_stalls],
      [answer_lost_on_full_channel], [resume_race_exceeds_cap],
      [revoke_race_mints_unstamped_ticket], [revoked_ticket_still_opens],
      [revoked_socket_stays], [late_request_waits_out], [chunk_fence_diverges],
      [parallel_asks_denied], [read_escapes_behind_missing_name],
      [failed_discovery_hides_sessions], [approvals_cross_the_cap],
      [overtaken_removal_leaks_turn], [tool_row_loses_call],
      [resubscription_hears_nothing], [late_result_ends_next_turn],
      [unbound_restart_closes], [content_read_as_front_matter] and others) pin
      down what the code does not guarantee.

    ** Fuel and widths

    [settle_loop] has one unit of fuel per task and one more: a pass that
    changes anything moves a task forward for good.  [exclude_closure] has one
    per edge and one more.  [chunk_fence_safe] has one per byte and one more,
    enough when fences are short; [walk] counts the symbolic links the kernel
    follows, and [within_limit] is the paths that need no more; [inline_loop] one per character and one
    more; [tokens] one per character, [secret_loop] one per character and one
    more; [feed] one per byte of a chunk; [on_frame] of Omp one per byte its chunks hold; the
    probe one per byte and one more.  Each bound is proved to suffice.  [u32] counters wrap ([as_u32]),
    [u64] and [i64] JSON integers keep their ranges, floats in JSON are
    [m * 2^e].

    ** Parameters

    Code outside the repository is a parameter: JSON text ([JsonText]),
    SHA-256, UTF-8 encoding where bytes are compared, the SipHash of plan
    contents, fresh UUIDs and random draws, clocks, hash-map iteration orders,
    the answers and events of agents and of the daemon as a client sees it, what
    backends discover, git and [gh], the network, base64 and the JSON of bytes, TOML, Unicode lower case, SQLite's FTS5 match, rank and
    snippet, its SUM of floats and its reading of dates.  A theorem that needs a law of one states it as a hypothesis and has
    a witness with a concrete function.

    ** Not modelled

    Process and network input/output (spawning agents, the zcode backend, starting the opencode server,
    channel adapters, relay, HTTP framework, downloads, the subprocess runner of
    [worktree.rs]), one-shot sessions of
    [streamjson.rs], which no agent uses, other programs' files, static assets and the
    command lines; the remaining calls of [rpc.rs]; the catalog of slash commands and the file index; backup and migrations of
    the store; of the skills hub discovery, listing, the activity log, the text
    of the registry file and failures to write it.  In a turn, store errors other than a missing session are not
    modelled, rows of one turn are stored at one instant, and a session keeps
    its live instance while a turn runs.
    On a connection the dispatch of a request is its end only, with any result. *)

From stdpp Require Export base tactics list gmap strings.
From Stdlib Require Export ZArith NArith Lia ZifyBool ZifyN Sorted.

#[global] Set Default Goal Selector "!".

(** ** Automation *)

Create HintDb damon.
Create Rewrite HintDb damon.

(** Splits every boolean or option match the goal is stuck on, keeping the
    equation, and discharges the contradictory branches. *)
Ltac split_matches :=
  repeat (case_match; simplify_eq/=; try done).

(** Turns [Is_true]-free boolean hypotheses into propositions. *)
Ltac bools :=
  repeat match goal with
  | H : _ && _ = true |- _ => apply andb_true_iff in H as [? ?]
  | H : _ || _ = false |- _ => apply orb_false_iff in H as [? ?]
  | H : negb _ = true |- _ => apply negb_true_iff in H
  | H : negb _ = false |- _ => apply negb_false_iff in H
  | H : bool_decide _ = true |- _ => apply bool_decide_eq_true in H
  | H : bool_decide _ = false |- _ => apply bool_decide_eq_false in H
  end.

(** ** Traces: reflexive-transitive closure of a step relation *)

Section Star.
Context {S : Type} (step : S -> S -> Prop).

Inductive star : S -> S -> Prop :=
| star_refl s : star s s
| star_step s t u : step s t -> star t u -> star s u.

Lemma star_invariant (P : S -> Prop) s t :
  (forall a b, P a -> step a b -> P b) -> star s t -> P s -> P t.
Proof. intros Hpres; induction 1; eauto. Qed.

Lemma star_trans_steps s t u : star s t -> star t u -> star s u.
Proof. induction 1; eauto using star_step. Qed.

Lemma star_one s t : step s t -> star s t.
Proof. intros H; eapply star_step; [exact H | apply star_refl]. Qed.
End Star.

#[export] Hint Resolve star_refl star_one : damon.

(** ** Lists *)

Section ListFacts.
Context {A : Type}.
Implicit Types l : list A.

(** [Vec::iter().find] *)
Definition find_first (p : A -> bool) (l : list A) : option A :=
  head (List.filter p l).

Lemma find_first_Some p l a :
  find_first p l = Some a -> a ∈ l /\ p a = true.
Proof.
  unfold find_first; intros H.
  destruct (List.filter p l) as [|b r] eqn:E; simplify_eq/=.
  assert (In a (List.filter p l)) as Hin by (rewrite E; left; done).
  apply filter_In in Hin as [? ?]. by rewrite list_elem_of_In.
Qed.

Lemma find_first_None p l :
  find_first p l = None -> forall a, a ∈ l -> p a = false.
Proof.
  unfold find_first; intros H a Ha.
  destruct (List.filter p l) as [|b r] eqn:E; simplify_eq/=.
  destruct (p a) eqn:Hp; [|done].
  assert (In a (List.filter p l)) as Hin by (apply filter_In; rewrite <-list_elem_of_In; done).
  rewrite E in Hin; done.
Qed.

Lemma find_first_None_iff p l : find_first p l = None <-> forall a, a ∈ l -> p a = false.
Proof.
  split; [apply find_first_None|]. intros H. destruct (find_first p l) as [a|] eqn:E; [|done].
  apply find_first_Some in E as [Ha E]. by rewrite (H a Ha) in E.
Qed.

Lemma find_first_cons p a l :
  find_first p (a :: l) = if p a then Some a else find_first p l.
Proof. unfold find_first; simpl. by destruct (p a). Qed.

Lemma existsb_elem p l : existsb p l = true <-> exists a, a ∈ l /\ p a = true.
Proof. rewrite existsb_exists. by setoid_rewrite list_elem_of_In. Qed.

Lemma existsb_elem_false p l :
  existsb p l = false <-> forall a, a ∈ l -> p a = false.
Proof.
  split.
  - intros H a Ha. destruct (p a) eqn:E; [|done].
    assert (existsb p l = true) by (apply existsb_elem; eauto). congruence.
  - intros H. destruct (existsb p l) eqn:E; [|done].
    apply existsb_elem in E as (a & Ha & Hp). rewrite H in Hp; done.
Qed.

Lemma forallb_elem p l : forallb p l = true <-> forall a, a ∈ l -> p a = true.
Proof. rewrite forallb_forall. by setoid_rewrite list_elem_of_In. Qed.

Lemma forallb_elem_false p l :
  forallb p l = false -> exists a, a ∈ l /\ p a = false.
Proof.
  induction l as [|x l IH]; simpl; [done|].
  destruct (p x) eqn:E; simpl; intros H.
  - destruct (IH H) as (a & ? & ?). exists a. split; [by right|done].
  - exists x. split; [by left|done].
Qed.

Lemma forallb_map {B} (f : B -> A) p (k : list B) :
  forallb p (map f k) = forallb (fun b => p (f b)) k.
Proof. induction k as [|b k IH]; simpl; [done|]. by rewrite IH. Qed.

Lemma existsb_map {B} (f : B -> A) p (k : list B) :
  existsb p (map f k) = existsb (fun b => p (f b)) k.
Proof. induction k as [|b k IH]; simpl; [done|]. by rewrite IH. Qed.

Lemma elem_filter p l a : a ∈ List.filter p l <-> a ∈ l /\ p a = true.
Proof. rewrite !list_elem_of_In. apply filter_In. Qed.

Lemma filter_and p q l : List.filter p (List.filter q l) = List.filter (fun a => q a && p a) l.
Proof.
  induction l as [|a l IH]; [done|]. cbn [List.filter]. destruct (q a); cbn [List.filter andb]; [|done].
  destruct (p a); by rewrite IH.
Qed.

Lemma filter_ext_elem p q l : (forall a, a ∈ l -> p a = q a) -> List.filter p l = List.filter q l.
Proof. intros H. apply filter_ext_in. intros a Ha. apply H. by apply list_elem_of_In. Qed.

(** Split a list at every element satisfying [p]; always non-empty. *)
Fixpoint split_on (p : A -> bool) (l : list A) : list (list A) :=
  match l with
  | [] => [[]]
  | a :: r =>
      if p a then [] :: split_on p r
      else match split_on p r with
           | [] => [[a]]
           | w :: ws => (a :: w) :: ws
           end
  end.

Lemma split_on_nonempty p l : split_on p l <> [].
Proof. destruct l; simpl; [done|]. by repeat case_match. Qed.

Lemma split_on_none p l w :
  w ∈ split_on p l -> forall a, a ∈ w -> p a = false.
Proof.
  revert w; induction l as [|x l IH]; simpl; intros w Hw a Ha.
  - apply list_elem_of_singleton in Hw; subst. by apply not_elem_of_nil in Ha.
  - destruct (p x) eqn:Hx.
    + apply elem_of_cons in Hw as [->|Hw]; [by apply not_elem_of_nil in Ha|eauto].
    + destruct (split_on p l) as [|w' ws] eqn:E; [by apply split_on_nonempty in E|].
      apply elem_of_cons in Hw as [->|Hw].
      * apply elem_of_cons in Ha as [->|Ha]; [done|]. eapply (IH w'); [by left|done].
      * eapply (IH w); [by right|done].
Qed.
End ListFacts.

(** Index of the first element satisfying [p]. *)
Fixpoint find_index {A} (p : A -> bool) (l : list A) : option nat :=
  match l with
  | [] => None
  | a :: r => if p a then Some 0 else S <$> find_index p r
  end.

Lemma find_index_Some {A} (p : A -> bool) l i :
  find_index p l = Some i ->
  exists a, l !! i = Some a /\ p a = true /\
            forall j b, j < i -> l !! j = Some b -> p b = false.
Proof.
  revert i; induction l as [|x l IH]; simpl; intros i H; [done|].
  destruct (p x) eqn:E; simplify_eq/=.
  - exists x; repeat split; [done|]. intros; lia.
  - apply fmap_Some in H as (k & Hk & ->).
    destruct (IH _ Hk) as (a & ? & ? & Hlt). exists a; repeat split; [done..|].
    intros [|j] b Hj Hb; simplify_eq/=; [done|]. eapply Hlt; [|done]; lia.
Qed.

Lemma find_index_None {A} (p : A -> bool) l :
  find_index p l = None -> forall a, a ∈ l -> p a = false.
Proof.
  induction l as [|x l IH]; simpl; intros H a Ha; [by apply not_elem_of_nil in Ha|].
  destruct (p x) eqn:E; [done|]. apply fmap_None in H.
  apply elem_of_cons in Ha as [->|Ha]; eauto.
Qed.

(** Number of elements satisfying a boolean predicate. *)
Definition count {A} (p : A -> bool) (l : list A) : nat := length (List.filter p l).

Lemma count_cons {A} (p : A -> bool) a l :
  count p (a :: l) = (if p a then 1 else 0) + count p l.
Proof. unfold count; simpl. by destruct (p a). Qed.

Lemma count_le_length {A} (p : A -> bool) l : count p l <= length l.
Proof. unfold count. apply List.filter_length_le. Qed.

Lemma count_app {A} (p : A -> bool) l k : count p (l ++ k) = count p l + count p k.
Proof. unfold count. by rewrite List.filter_app, length_app. Qed.

Lemma count_insert {A} (p : A -> bool) l i (a b : A) :
  l !! i = Some a ->
  count p (<[i := b]> l) + (if p a then 1 else 0) = count p l + (if p b then 1 else 0).
Proof.
  revert i; induction l as [|x l IH]; intros [|i] H; simplify_eq/=;
    rewrite !count_cons.
  - lia.
  - specialize (IH _ H). lia.
Qed.

Lemma count_zero {A} (p : A -> bool) l :
  count p l = 0 <-> forall a, a ∈ l -> p a = false.
Proof.
  induction l as [|x l IH].
  - split; [|done]. intros _ a Ha. by apply not_elem_of_nil in Ha.
  - rewrite count_cons. split.
    + intros H a Ha. apply elem_of_cons in Ha as [->|Ha].
      * destruct (p x); [lia|done].
      * apply IH; [lia|done].
    + intros H. rewrite (H x) by (by left). apply IH. intros; apply H; by right.
Qed.

Lemma count_Forall2_le {A} (p : A -> bool) l k :
  Forall2 (fun a b => p b = true -> p a = true) l k -> count p k <= count p l.
Proof.
  induction 1 as [|a b l k Hab _ IH]; [done|]. rewrite !count_cons.
  destruct (p b); [rewrite Hab by done|destruct (p a)]; lia.
Qed.

(** Integer sum of a measure over a list. *)
Definition zsum {A} (f : A -> Z) (l : list A) : Z := fold_right Z.add 0%Z (map f l).

Lemma zsum_insert {A} (f : A -> Z) l i a b :
  l !! i = Some a -> zsum f (<[i := b]> l) = (zsum f l - f a + f b)%Z.
Proof.
  revert i; induction l as [|x l IH]; intros [|i] H; simplify_eq/=; unfold zsum in *; simpl in *.
  - lia.
  - rewrite (IH _ H). lia.
Qed.

Lemma zsum_Forall2_le {A} (f : A -> Z) l k :
  Forall2 (fun a b => (f a <= f b)%Z) l k -> (zsum f l <= zsum f k)%Z.
Proof. induction 1; unfold zsum in *; simpl in *; lia. Qed.

Lemma zsum_le_count {A} (f : A -> Z) (p : A -> bool) c l :
  (0 <= c)%Z -> Forall (fun a => (f a <= if p a then c else 0)%Z) l ->
  (zsum f l <= c * Z.of_nat (count p l))%Z.
Proof.
  intros Hc. induction 1 as [|a l Ha _ IH]; [unfold zsum, count; simpl; lia|].
  rewrite count_cons. unfold zsum in *. simpl. destruct (p a); lia.
Qed.

Lemma split_on_cons_sep {A} (p : A -> bool) (w : list A) a s :
  (forall x, x ∈ w -> p x = false) -> p a = true ->
  split_on p (w ++ a :: s) = w :: split_on p s.
Proof.
  intros Hw Ha. induction w as [|x w IH]; simpl; [by rewrite Ha|].
  rewrite (Hw x) by (by left). rewrite IH; [done|]. intros y Hy; apply Hw; by right.
Qed.

Lemma split_on_no_sep {A} (p : A -> bool) (w : list A) :
  (forall x, x ∈ w -> p x = false) -> split_on p w = [w].
Proof.
  intros Hw. induction w as [|x w IH]; simpl; [done|].
  rewrite (Hw x) by (by left). rewrite IH; [done|]. intros y Hy; apply Hw; by right.
Qed.

Lemma find_index_app {A} (p : A -> bool) (w : list A) a s :
  (forall x, x ∈ w -> p x = false) -> p a = true ->
  find_index p (w ++ a :: s) = Some (length w).
Proof.
  intros Hw Ha. induction w as [|x w IH]; simpl; [by rewrite Ha|].
  rewrite (Hw x) by (by left). rewrite IH; [done|]. intros y Hy; apply Hw; by right.
Qed.

(** ** Fallible code: [Result<A, E>] and its [?] operator *)

Inductive result (A E : Type) :=
| Ok (a : A)
| Err (e : E).
Arguments Ok {A E} a.
Arguments Err {A E} e.

Notation "'let?' x ':=' e 'in' k" :=
  (match e with Ok x => k | Err err => Err err end)
  (at level 10, x pattern, e at level 100, k at level 200).

(** [Option::ok_or] / [Context::context] *)
Definition ok_or {A E} (o : option A) (e : E) : result A E :=
  match o with Some a => Ok a | None => Err e end.

(** [bail!] when the condition holds. *)
Definition bail_if {E} (b : bool) (e : E) : result unit E := if b then Err e else Ok tt.

(** A [for] loop whose body may return early, collecting its results. *)
Fixpoint map_result {A B E} (f : A -> result B E) (l : list A) : result (list B) E :=
  match l with
  | [] => Ok []
  | a :: r => let? b := f a in let? bs := map_result f r in Ok (b :: bs)
  end.

Fixpoint iter_result {A E} (f : A -> result unit E) (l : list A) : result unit E :=
  match l with
  | [] => Ok tt
  | a :: r => let? _ := f a in iter_result f r
  end.

Lemma iter_result_Ok {A E} (f : A -> result unit E) l :
  iter_result f l = Ok tt <-> forall a, a ∈ l -> f a = Ok tt.
Proof.
  induction l as [|a l IH]; simpl.
  - split; [|done]. intros _ a Ha. by apply not_elem_of_nil in Ha.
  - split.
    + destruct (f a) as [[]|] eqn:E1; [|done]. intros H b Hb.
      apply elem_of_cons in Hb as [->|Hb]; [done|]. by apply IH.
    + intros H. rewrite (H a) by (by left). apply IH. intros b Hb; apply H; by right.
Qed.

Lemma map_result_Ok {A B E} (f : A -> result B E) l k :
  map_result f l = Ok k <-> Forall2 (fun a b => f a = Ok b) l k.
Proof.
  revert k; induction l as [|a l IH]; intros k; simpl.
  - split; [intros [= <-]; constructor|]. by inversion 1.
  - split.
    + destruct (f a) as [b|] eqn:E1; [|done].
      destruct (map_result f l) as [bs|] eqn:E2; [|done].
      intros [= <-]. constructor; [done|]. by apply IH.
    + inversion 1 as [|? ? ? ? Hb Hr]; subst. rewrite Hb.
      apply IH in Hr. by rewrite Hr.
Qed.

Lemma bail_if_Ok {E} b (e : E) : bail_if b e = Ok tt <-> b = false.
Proof. by destruct b. Qed.

(** Positions whose element satisfies [p], in order. *)
Fixpoint indices_from {A} (p : A -> bool) (i : nat) (l : list A) : list nat :=
  match l with
  | [] => []
  | a :: r => if p a then i :: indices_from p (S i) r else indices_from p (S i) r
  end.

Definition indices_where {A} (p : A -> bool) (l : list A) : list nat := indices_from p 0 l.

Lemma indices_from_elem {A} (p : A -> bool) i l j :
  j ∈ indices_from p i l <-> i <= j /\ exists a, l !! (j - i) = Some a /\ p a = true.
Proof.
  revert i; induction l as [|a l IH]; intros i; simpl.
  - split; [intros H; by apply not_elem_of_nil in H|intros (_ & ? & ? & _); done].
  - assert (j ∈ indices_from p (S i) l <->
            i <= j /\ j <> i /\ exists b, (a :: l) !! (j - i) = Some b /\ p b = true) as Htl.
    { rewrite IH. split.
      - intros [Hle Hex]. split; [lia|]. split; [lia|].
        by replace (j - i) with (S (j - S i)) by lia.
      - intros (Hle & Hne & Hex). split; [lia|].
        by replace (j - i) with (S (j - S i)) in Hex by lia. }
    destruct (p a) eqn:E; rewrite ?elem_of_cons, Htl; split.
    + intros [->|(? & ? & ?)]; [|done]. split; [lia|]. rewrite Nat.sub_diag. by exists a.
    + intros [? ?]. destruct (decide (j = i)); auto.
    + intros (? & ? & ?); done.
    + intros [Hle (b & Hb & Hp)]. split; [done|]. split; [|eauto].
      intros ->. rewrite Nat.sub_diag in Hb. simplify_eq/=. congruence.
Qed.

Lemma indices_where_elem {A} (p : A -> bool) l j :
  j ∈ indices_where p l <-> exists a, l !! j = Some a /\ p a = true.
Proof.
  unfold indices_where. rewrite indices_from_elem, Nat.sub_0_r.
  split; [by intros [_ ?]|]. intros ?; split; [lia|done].
Qed.

(** ** Sorting by a boolean order ([ORDER BY], [sort_by]) *)

Section Sorting.
Context {A : Type} (leb : A -> A -> bool).

Fixpoint insert_sorted (a : A) (l : list A) : list A :=
  match l with
  | [] => [a]
  | b :: r => if leb a b then a :: l else b :: insert_sorted a r
  end.

(** Stable: equal keys keep their order. *)
Fixpoint sort_by (l : list A) : list A :=
  match l with
  | [] => []
  | a :: r => insert_sorted a (sort_by r)
  end.

Lemma insert_sorted_perm a l : insert_sorted a l ≡ₚ a :: l.
Proof.
  induction l as [|b l IH]; simpl; [done|]. destruct (leb a b); [done|].
  by rewrite IH, Permutation_swap.
Qed.

Lemma sort_by_perm l : sort_by l ≡ₚ l.
Proof. induction l as [|a l IH]; simpl; [done|]. by rewrite insert_sorted_perm, IH. Qed.

Lemma sort_by_elem a l : a ∈ sort_by l <-> a ∈ l.
Proof. by rewrite sort_by_perm. Qed.

Hypothesis leb_total : forall a b, leb a b = true \/ leb b a = true.
Hypothesis leb_trans : forall a b c, leb a b = true -> leb b c = true -> leb a c = true.

Lemma insert_sorted_sorted a l :
  StronglySorted (fun x y => leb x y = true) l ->
  StronglySorted (fun x y => leb x y = true) (insert_sorted a l).
Proof using leb_total leb_trans.
  induction 1 as [|b l Hl IH Hb]; simpl; [by repeat constructor|].
  destruct (leb a b) eqn:E.
  - constructor; [by constructor|]. constructor; [done|].
    eapply Forall_impl; [exact Hb|]. intros c Hc. by eapply leb_trans.
  - constructor; [done|]. rewrite insert_sorted_perm. constructor; [|done].
    destruct (leb_total a b); congruence.
Qed.

Lemma sort_by_sorted l : StronglySorted (fun x y => leb x y = true) (sort_by l).
Proof using leb_total leb_trans.
  induction l as [|a l IH]; simpl; [constructor|]. by apply insert_sorted_sorted.
Qed.
End Sorting.
