(* ===== verification/Str.v ===== *)
(** * Str: Rust's [str] and [char] as lists of Unicode scalar values

    A Rust string is modelled by its sequence of [char]s (scalar values as
    [N]); [utf8_len] gives back the byte lengths the code measures.  The
    functions below are the standard-library methods the sources call, under
    the names of [core::str] and [core::char]. *)

From S2P Require Import Prelude.

Abbreviation rchar := N (only parsing).
Abbreviation rstr := (list N) (only parsing).

(** ** Literals

    [str "..."] decodes the UTF-8 bytes of a Rocq string literal. *)

Fixpoint bytes_of (s : string) : list N :=
  match s with
  | EmptyString => []
  | String a r => Ascii.N_of_ascii a :: bytes_of r
  end.

Fixpoint utf8_decode (l : list N) : rstr :=
  match l with
  | [] => []
  | b0 :: l0 =>
      if (b0 <? 128)%N then b0 :: utf8_decode l0
      else match l0 with
      | [] => [65533%N]
      | b1 :: l1 =>
          if (b0 <? 224)%N
          then ((b0 - 192) * 64 + (b1 - 128))%N :: utf8_decode l1
          else match l1 with
          | [] => [65533%N]
          | b2 :: l2 =>
              if (b0 <? 240)%N
              then ((b0 - 224) * 4096 + (b1 - 128) * 64 + (b2 - 128))%N :: utf8_decode l2
              else match l2 with
              | [] => [65533%N]
              | b3 :: l3 =>
                  ((b0 - 240) * 262144 + (b1 - 128) * 4096 + (b2 - 128) * 64 + (b3 - 128))%N
                    :: utf8_decode l3
              end
          end
      end
  end.

Definition str (s : string) : rstr := utf8_decode (bytes_of s).
#[global] Arguments str : simpl never.

(** ** [char] *)

Definition c_nl : rchar := 10%N.
Definition c_cr : rchar := 13%N.
Definition c_space : rchar := 32%N.
Definition c_quote : rchar := 34%N.

Definition is_whitespace (c : rchar) : bool :=
  ((9 <=? c) && (c <=? 13))%N || (c =? 32)%N || (c =? 133)%N || (c =? 160)%N
  || (c =? 5760)%N || ((8192 <=? c) && (c <=? 8202))%N || (c =? 8232)%N
  || (c =? 8233)%N || (c =? 8239)%N || (c =? 8287)%N || (c =? 12288)%N.

Definition is_ascii_lowercase (c : rchar) : bool := ((97 <=? c) && (c <=? 122))%N.
Definition is_ascii_uppercase (c : rchar) : bool := ((65 <=? c) && (c <=? 90))%N.
Definition is_ascii_digit (c : rchar) : bool := ((48 <=? c) && (c <=? 57))%N.
Definition is_ascii_alphabetic (c : rchar) : bool :=
  is_ascii_lowercase c || is_ascii_uppercase c.
Definition is_ascii_alphanumeric (c : rchar) : bool :=
  is_ascii_alphabetic c || is_ascii_digit c.
Definition to_ascii_lowercase (c : rchar) : rchar :=
  if is_ascii_uppercase c then (c + 32)%N else c.

(** ** [str] *)

Definition str_eqb (a b : rstr) : bool := bool_decide (a = b).

Definition eq_ignore_ascii_case (a b : rstr) : bool :=
  str_eqb (map to_ascii_lowercase a) (map to_ascii_lowercase b).

Fixpoint trim_start (s : rstr) : rstr :=
  match s with
  | [] => []
  | c :: r => if is_whitespace c then trim_start r else s
  end.

Definition trim_end (s : rstr) : rstr := reverse (trim_start (reverse s)).
Definition trim (s : rstr) : rstr := trim_end (trim_start s).

Definition is_empty {A} (s : list A) : bool :=
  match s with [] => true | _ => false end.

(** [str::split_whitespace]: the non-empty pieces between whitespace. *)
Definition split_whitespace (s : rstr) : list rstr :=
  List.filter (fun w => negb (is_empty w)) (split_on is_whitespace s).

(** [str::lines]: split at line feeds, a final empty piece is dropped, and a
    carriage return before a line feed belongs to the terminator. *)
Definition strip_cr (s : rstr) : rstr :=
  match last s with
  | Some 13%N => take (length s - 1) s
  | _ => s
  end.

Fixpoint lines_go (ps : list rstr) : list rstr :=
  match ps with
  | [] => []
  | [p] => if is_empty p then [] else [p]
  | p :: r => strip_cr p :: lines_go r
  end.

Definition lines (s : rstr) : list rstr := lines_go (split_on (N.eqb c_nl) s).

(** [str::find] for a character and for a pattern string; positions count
    characters. *)
Definition find_char (c : rchar) (s : rstr) : option nat := find_index (N.eqb c) s.

Definition split_once (c : rchar) (s : rstr) : option (rstr * rstr) :=
  match find_char c s with Some i => Some (take i s, drop (S i) s) | None => None end.

Fixpoint starts_with (p s : rstr) : bool :=
  match p, s with
  | [], _ => true
  | a :: p', b :: s' => (a =? b)%N && starts_with p' s'
  | _ :: _, [] => false
  end.

Definition strip_prefix (p s : rstr) : option rstr :=
  if starts_with p s then Some (drop (length p) s) else None.

Definition ends_with (p s : rstr) : bool := starts_with (reverse p) (reverse s).

Definition strip_suffix (p s : rstr) : option rstr :=
  if ends_with p s then Some (take (length s - length p) s) else None.

Fixpoint find_str (p s : rstr) : option nat :=
  if starts_with p s then Some 0
  else match s with
       | [] => None
       | _ :: r => S <$> find_str p r
       end.

Definition contains (p s : rstr) : bool :=
  match find_str p s with Some _ => true | None => false end.

(** [slice.join(sep)] *)
Fixpoint join {A} (sep : list A) (l : list (list A)) : list A :=
  match l with
  | [] => []
  | [s] => s
  | s :: r => s ++ sep ++ join sep r
  end.

(** Byte length of the UTF-8 encoding. *)
Definition char_len_utf8 (c : rchar) : nat :=
  if (c <? 128)%N then 1 else if (c <? 2048)%N then 2
  else if (c <? 65536)%N then 3 else 4.

Fixpoint utf8_len (s : rstr) : nat :=
  match s with
  | [] => 0
  | c :: r => char_len_utf8 c + utf8_len r
  end.

(** Decimal rendering of an unsigned integer ([format!("{n}")]). *)
Fixpoint dec_go (fuel : nat) (n : N) (acc : rstr) : rstr :=
  match fuel with
  | 0 => acc
  | S f =>
      let acc' := (48 + n mod 10)%N :: acc in
      if (n <? 10)%N then acc' else dec_go f (n / 10)%N acc'
  end.

Definition dec (n : N) : rstr := dec_go (S (N.to_nat (N.log2 n))) n [].

(** [parse::<u64>], and [parse::<usize>] on the 64-bit targets. *)
Fixpoint digits_value (acc : Z) (s : rstr) : Z :=
  match s with [] => acc | c :: s => digits_value (acc * 10 + (Z.of_N c - 48)) s end.

Definition parse_u64 (s : rstr) : option Z :=
  let s := default s (strip_prefix (str "+") s) in
  if is_empty s || negb (forallb is_ascii_digit s) then None
  else if (digits_value 0 s <? 2 ^ 64)%Z then Some (digits_value 0 s) else None.

(** ** Facts *)

Lemma is_empty_nil {A} (l : list A) : is_empty l = true <-> l = [].
Proof. by destruct l. Qed.

Lemma str_eqb_eq a b : str_eqb a b = true <-> a = b.
Proof. unfold str_eqb. by rewrite bool_decide_eq_true. Qed.

Lemma str_eqb_neq a b : str_eqb a b = false <-> a <> b.
Proof. unfold str_eqb. by rewrite bool_decide_eq_false. Qed.

Lemma str_eqb_refl a : str_eqb a a = true.
Proof. by apply str_eqb_eq. Qed.

#[export] Hint Rewrite str_eqb_refl : damon.

Lemma char_len_utf8_bounds c : 1 <= char_len_utf8 c <= 4.
Proof. unfold char_len_utf8. repeat case_match; lia. Qed.

Lemma utf8_len_app s t : utf8_len (s ++ t) = utf8_len s + utf8_len t.
Proof. induction s as [|c s IH]; simpl; lia. Qed.

Lemma utf8_len_ge s : length s <= utf8_len s.
Proof. induction s as [|c s IH]; simpl; [lia|]. pose proof (char_len_utf8_bounds c); lia. Qed.

Lemma utf8_len_zero s : utf8_len s = 0 <-> s = [].
Proof.
  split; [|by intros ->]. intros H.
  pose proof (utf8_len_ge s). destruct s; simpl in *; [done|lia].
Qed.

Lemma starts_with_app p s : starts_with p (p ++ s) = true.
Proof. induction p as [|a p IH]; simpl; [done|]. by rewrite N.eqb_refl. Qed.

Lemma starts_with_spec p s : starts_with p s = true <-> exists r, s = p ++ r.
Proof.
  split.
  - revert s; induction p as [|a p IH]; intros s H; [by exists s|].
    destruct s as [|b s]; simpl in H; [done|]. bools.
    apply N.eqb_eq in H as ->. destruct (IH s) as [r ->]; [done|]. by exists r.
  - intros [r ->]. apply starts_with_app.
Qed.

Lemma strip_prefix_app p s : strip_prefix p (p ++ s) = Some s.
Proof. unfold strip_prefix. by rewrite starts_with_app, drop_app_length. Qed.

Lemma strip_prefix_spec p s r : strip_prefix p s = Some r <-> s = p ++ r.
Proof.
  unfold strip_prefix. split.
  - case_match eqn:E; [|done]. intros [= <-].
    apply starts_with_spec in E as [t ->]. by rewrite drop_app_length.
  - intros ->. rewrite starts_with_app. f_equal. by rewrite drop_app_length.
Qed.

Lemma contains_spec p s : contains p s = true <-> exists a b, s = a ++ p ++ b.
Proof.
  unfold contains. split.
  - intros H. case_match eqn:E; [|done]. clear H.
    revert n E; induction s as [|c s IH]; intros n E; simpl in E.
    + destruct (starts_with p []) eqn:F; [|done].
      apply starts_with_spec in F as [r Hr]. by exists [], r.
    + destruct (starts_with p (c :: s)) eqn:F.
      * apply starts_with_spec in F as [r Hr]. by exists [], r.
      * apply fmap_Some in E as (k & Hk & ->).
        destruct (IH _ Hk) as (a & b & ->). by exists (c :: a), b.
  - intros (a & b & ->). induction a as [|c a IH]; simpl.
    + destruct (p ++ b) as [|x l] eqn:E; simpl.
      * destruct p; done.
      * rewrite <-E, starts_with_app. done.
    + destruct (starts_with p (c :: a ++ p ++ b)); [done|].
      destruct (find_str p (a ++ p ++ b)); done.
Qed.

Lemma contains_infix p a s b : contains p s = true -> contains p (a ++ s ++ b) = true.
Proof. rewrite !contains_spec. intros (x & y & ->). exists (a ++ x), (y ++ b). by rewrite <-!app_assoc. Qed.

Lemma contains_self p : contains p p = true.
Proof. apply contains_spec. exists [], []. by rewrite app_nil_r. Qed.

Lemma trim_start_head s c r : trim_start s = c :: r -> is_whitespace c = false.
Proof.
  induction s as [|x s IH]; simpl; [done|].
  destruct (is_whitespace x) eqn:E; [done|]. intros [= -> ->]; done.
Qed.

Lemma trim_start_suffix s : exists p, s = p ++ trim_start s /\ forallb is_whitespace p = true.
Proof.
  induction s as [|c s (p & IH & Hp)]; simpl; [by exists []|].
  destruct (is_whitespace c) eqn:E.
  - exists (c :: p). simpl. rewrite E. split; [by f_equal|done].
  - by exists [].
Qed.

Lemma trim_start_id s :
  (forall c r, s = c :: r -> is_whitespace c = false) -> trim_start s = s.
Proof. destruct s as [|c r]; simpl; [done|]. intros H. by rewrite (H c r). Qed.

(** Text with no whitespace is its own trim. *)
Lemma trim_no_space s : forallb (fun c => negb (is_whitespace c)) s = true -> trim s = s.
Proof.
  intros H. rewrite forallb_elem in H.
  assert (forall t, (forall c, c ∈ t -> c ∈ s) -> trim_start t = t) as Hid.
  { intros t Ht. apply trim_start_id. intros c r ->.
    apply negb_true_iff, H, Ht. by left. }
  unfold trim, trim_end. rewrite (Hid s) by done.
  rewrite Hid; [by rewrite reverse_involutive|].
  intros c Hc. by apply elem_of_reverse.
Qed.

Lemma split_whitespace_token s w :
  w ∈ split_whitespace s -> w <> [] /\ forall c, c ∈ w -> is_whitespace c = false.
Proof.
  unfold split_whitespace. rewrite list_elem_of_In, filter_In, <-list_elem_of_In.
  intros [Hw Hne]. split; [by destruct w|]. eauto using split_on_none.
Qed.

(** Words: non-empty, without whitespace. *)
Definition word (w : rstr) : Prop := w <> [] /\ forall c, c ∈ w -> is_whitespace c = false.

Lemma split_whitespace_cons w a s :
  word w -> is_whitespace a = true ->
  split_whitespace (w ++ a :: s) = w :: split_whitespace s.
Proof.
  intros [Hne Hw] Ha. unfold split_whitespace.
  rewrite split_on_cons_sep by done. simpl. by destruct w.
Qed.

Lemma split_whitespace_word w : word w -> split_whitespace w = [w].
Proof.
  intros [Hne Hw]. unfold split_whitespace.
  rewrite split_on_no_sep by done. simpl. by destruct w.
Qed.

Lemma word_trim w : (forall c, c ∈ w -> is_whitespace c = false) -> trim w = w.
Proof.
  intros H. apply trim_no_space, forallb_elem. intros c Hc. by rewrite H.
Qed.

Lemma find_str_here p s : find_str p (p ++ s) = Some 0.
Proof.
  pose proof (starts_with_app p s) as H.
  destruct (p ++ s) as [|c r]; simpl; by rewrite H.
Qed.

(** A pattern whose first character is absent from [w] is found past [w]. *)
Lemma find_str_skip a p w s :
  a ∉ w -> find_str (a :: p) (w ++ s) = Nat.add (length w) <$> find_str (a :: p) s.
Proof.
  intros Hw. induction w as [|c w IH].
  - change ([] ++ s) with s. change (length []) with 0. destruct (find_str (a :: p) s); done.
  - apply not_elem_of_cons in Hw as [Hac Hw].
    assert (find_str (a :: p) ((c :: w) ++ s) = S <$> find_str (a :: p) (w ++ s)) as ->.
    { simpl. destruct (a =? c)%N eqn:E; [by apply N.eqb_eq in E|done]. }
    rewrite IH by done. destruct (find_str (a :: p) s); done.
Qed.

Lemma find_str_absent p s : contains p s = false -> find_str p s = None.
Proof. unfold contains. by destruct (find_str p s). Qed.

Lemma drop_app_exact {A} (l k : list A) n : n = length l -> drop n (l ++ k) = k.
Proof. intros ->. apply drop_app_length. Qed.

Lemma take_app_exact {A} (l k : list A) n : n = length l -> take n (l ++ k) = l.
Proof. intros ->. apply take_app_length. Qed.

Lemma eq_ignore_case_elem a b c :
  eq_ignore_ascii_case a b = true -> c ∈ a -> to_ascii_lowercase c ∈ map to_ascii_lowercase b.
Proof.
  unfold eq_ignore_ascii_case. intros H Hc. apply str_eqb_eq in H as <-.
  apply list_elem_of_In, in_map. by apply list_elem_of_In.
Qed.

Lemma join_cons2 {A} (sep : list A) x y r :
  join sep (x :: y :: r) = x ++ sep ++ join sep (y :: r).
Proof. done. Qed.

(** [tokenizes t toks]: [t] splits into [toks], also in front of more text. *)
Definition tokenizes (t : rstr) (toks : list rstr) : Prop :=
  split_whitespace t = toks /\
  forall s, split_whitespace (t ++ c_space :: s) = toks ++ split_whitespace s.

Lemma tokenizes_word w : word w -> tokenizes w [w].
Proof.
  intros Hw. split; [by apply split_whitespace_word|].
  intros s. by rewrite split_whitespace_cons.
Qed.

Lemma tokenizes_join kw ts tss :
  word kw -> ts <> [] -> Forall2 tokenizes ts tss ->
  tokenizes (join (c_space :: kw ++ [c_space]) ts) (join [kw] tss).
Proof.
  intros Hkw Hne H. induction H as [|t toks ts tss Ht Hts IH]; [done|].
  destruct Hts as [|t' toks' ts tss Ht' Hts]; [done|].
  destruct IH as [IH1 IH2]; [done|]. destruct Ht as [Ht1 Ht2].
  rewrite !join_cons2. split.
  - cbn [app]. rewrite Ht2, <-app_assoc. cbn [app].
    by rewrite split_whitespace_cons, IH1.
  - intros s. rewrite <-!app_assoc. cbn [app].
    rewrite Ht2, <-app_assoc. cbn [app].
    by rewrite split_whitespace_cons, IH2.
Qed.

Lemma trim_start_elem c s : c ∈ s -> is_whitespace c = false -> c ∈ trim_start s.
Proof.
  induction s as [|x s IH]; simpl; intros Hc Hw; [done|].
  destruct (is_whitespace x) eqn:E; [|done].
  apply elem_of_cons in Hc as [->|Hc]; [congruence|auto].
Qed.

Lemma trim_elem c s : c ∈ s -> is_whitespace c = false -> c ∈ trim s.
Proof.
  intros Hc Hw. unfold trim, trim_end. apply elem_of_reverse, trim_start_elem; [|done].
  by apply elem_of_reverse, trim_start_elem.
Qed.

Lemma join_elem (sep : rstr) w l c : w ∈ l -> c ∈ w -> c ∈ join sep l.
Proof.
  induction l as [|x l IH]; intros Hw Hc; [by apply not_elem_of_nil in Hw|].
  apply elem_of_cons in Hw as [->|Hw].
  - destruct l; [done|]. rewrite join_cons2. apply elem_of_app. by left.
  - destruct l; [by apply not_elem_of_nil in Hw|].
    rewrite join_cons2, !elem_of_app. auto.
Qed.

Lemma split_on_join (p : rchar -> bool) a (ws : list rstr) :
  p a = true -> ws <> [] -> Forall (fun w => forall x, x ∈ w -> p x = false) ws ->
  split_on p (join [a] ws) = ws.
Proof.
  intros Ha Hne H. induction H as [|w ws Hw Hws IH]; [done|].
  destruct ws as [|w' ws]; [by apply split_on_no_sep|].
  rewrite join_cons2. cbn [app]. rewrite split_on_cons_sep by done.
  by rewrite IH.
Qed.

Lemma strip_cr_word w : word w -> strip_cr w = w.
Proof.
  intros [_ Hw]. unfold strip_cr. destruct (last w) as [c|] eqn:E; [|done].
  apply last_Some_elem_of in E. specialize (Hw c E).
  assert (c <> 13%N) by (intros ->; done).
  repeat (case_match; try done).
Qed.

Lemma lines_join ws : Forall word ws -> lines (join [c_nl] ws) = ws.
Proof.
  intros H. destruct ws as [|w0 ws0]; [done|].
  unfold lines. rewrite split_on_join; [|done|done|].
  - induction H as [|w ws Hw Hws IH]; [done|].
    destruct ws as [|w' ws]; simpl.
    + destruct Hw as [Hne _]. by destruct w.
    + rewrite strip_cr_word by done. f_equal. apply IH.
  - eapply Forall_impl; [exact H|]. intros w [_ Hw] x Hx.
    apply N.eqb_neq. intros <-. by specialize (Hw _ Hx).
Qed.

(** Byte order of UTF-8 text, which is scalar-value order. *)
Fixpoint str_leb (a b : rstr) : bool :=
  match a, b with
  | [], _ => true
  | _ :: _, [] => false
  | x :: a', y :: b' => (x <? y)%N || ((x =? y)%N && str_leb a' b')
  end.

Lemma str_leb_total a b : str_leb a b = true \/ str_leb b a = true.
Proof.
  revert b; induction a as [|x a IH]; intros [|y b]; simpl; auto.
  destruct (IH b) as [H|H]; rewrite H;
    destruct (N.lt_trichotomy x y) as [?|[->|?]]; lia.
Qed.

Lemma str_leb_trans a b c : str_leb a b = true -> str_leb b c = true -> str_leb a c = true.
Proof.
  revert b c; induction a as [|x a IH]; intros [|y b] [|z c]; simpl; try done.
  rewrite !orb_true_iff, !andb_true_iff, !N.ltb_lt, !N.eqb_eq.
  intros [H1|[-> H1]] [H2|[-> H2]]; [left; lia|by left|by left|right; eauto].
Qed.

Lemma str_leb_antisym a b : str_leb a b = true -> str_leb b a = true -> a = b.
Proof.
  revert b; induction a as [|x a IH]; intros [|y b]; simpl; try done.
  rewrite !orb_true_iff, !andb_true_iff, !N.ltb_lt, !N.eqb_eq.
  intros [H1|[-> H1]] [H2|[E H2]]; [lia|lia|lia|]. f_equal. by apply IH.
Qed.

(** ** Lines and byte limits *)

(** [trim_start_matches(c)] *)
Fixpoint trim_start_char (c : rchar) (s : rstr) : rstr :=
  match s with
  | [] => []
  | x :: r => if (x =? c)%N then trim_start_char c r else s
  end.

(** [split_inclusive('\n')]: every piece keeps its line feed. *)
Fixpoint split_inclusive (s : rstr) : list rstr :=
  match s with
  | [] => []
  | c :: r =>
      if (c =? c_nl)%N then [c] :: split_inclusive r
      else match split_inclusive r with
           | [] => [[c]]
           | l :: ls => (c :: l) :: ls
           end
  end.

(** [floor_char_boundary(n)], counted in characters: the longest prefix of at
    most [n] bytes. *)
Fixpoint floor_chars (n : nat) (s : rstr) : nat :=
  match s with
  | [] => 0
  | c :: r => if char_len_utf8 c <=? n then S (floor_chars (n - char_len_utf8 c) r) else 0
  end.

(** The text before the first line feed, and the text after it. *)
Fixpoint first_line (s : rstr) : rstr :=
  match s with
  | [] => []
  | c :: r => if (c =? c_nl)%N then [] else c :: first_line r
  end.

Fixpoint after_newline (s : rstr) : rstr :=
  match s with
  | [] => []
  | c :: r => if (c =? c_nl)%N then r else after_newline r
  end.

(** Induction over the lines of a text. *)
Lemma lines_ind (P : rstr -> Prop) :
  P [] -> (forall b, b <> [] -> c_nl ∉ b -> P b) ->
  (forall b s, c_nl ∉ b -> P s -> P (b ++ c_nl :: s)) -> forall s, P s.
Proof.
  intros H0 H1 H2 s. induction s as [s IH] using (induction_ltof1 _ (@length rchar)). unfold ltof in IH.
  destruct (decide (c_nl ∈ s)) as [Hin|Hni].
  - apply list_elem_of_split_l in Hin as (b & t & -> & Hb).
    apply H2; [done|]. apply IH. rewrite length_app. simpl. lia.
  - destruct s as [|c s]; [done|]. by apply H1.
Qed.

Lemma split_inclusive_last b : b <> [] -> c_nl ∉ b -> split_inclusive b = [b].
Proof.
  induction b as [|c b IH]; intros Hne Hb; [done|]. apply not_elem_of_cons in Hb as [Hc Hb].
  simpl. destruct (N.eqb_spec c c_nl); [done|].
  destruct b as [|c' b]; [done|]. by rewrite IH.
Qed.

Lemma split_inclusive_line b s :
  c_nl ∉ b -> split_inclusive (b ++ c_nl :: s) = (b ++ [c_nl]) :: split_inclusive s.
Proof.
  induction b as [|c b IH]; intros Hb; [done|]. apply not_elem_of_cons in Hb as [Hc Hb].
  simpl. destruct (N.eqb_spec c c_nl); [done|]. by rewrite IH.
Qed.

Lemma split_inclusive_concat s : concat (split_inclusive s) = s.
Proof.
  induction s as [|b Hne Hb|b s Hb IH] using lines_ind; [done| |].
  - rewrite split_inclusive_last by done. apply app_nil_r.
  - rewrite split_inclusive_line by done. simpl. by rewrite IH, <-app_assoc.
Qed.

Lemma split_inclusive_nonempty s l : l ∈ split_inclusive s -> l <> [].
Proof.
  induction s as [|b Hne Hb|b s Hb IH] using lines_ind.
  - intros H. by apply not_elem_of_nil in H.
  - rewrite split_inclusive_last by done. by intros ->%list_elem_of_singleton.
  - rewrite split_inclusive_line by done. intros [->|H]%elem_of_cons; [by destruct b|auto].
Qed.

Lemma concat_take_prefix {A} (ls : list (list A)) k :
  take (length (concat (take k ls))) (concat ls) = concat (take k ls).
Proof. rewrite <-(take_drop k ls) at 2. rewrite concat_app. by apply take_app_exact. Qed.

(** Cutting a text at the end of one of its lines cuts the list of lines. *)
Lemma split_inclusive_take s k :
  split_inclusive (concat (take k (split_inclusive s))) = take k (split_inclusive s).
Proof.
  revert k; induction s as [|b Hne Hb|b s Hb IH] using lines_ind; intros k; [simpl; by rewrite take_nil| |].
  - rewrite (split_inclusive_last b) by done. destruct k as [|k]; [done|]. simpl.
    rewrite take_nil. cbn [concat]. rewrite app_nil_r. by apply split_inclusive_last.
  - rewrite (split_inclusive_line b s) by done. destruct k as [|k]; [done|]. simpl.
    rewrite <-app_assoc. cbn [app]. by rewrite split_inclusive_line, IH.
Qed.

Lemma floor_chars_le n s : utf8_len (take (floor_chars n s) s) <= n.
Proof.
  revert n; induction s as [|c s IH]; intros n; simpl; [lia|].
  destruct (Nat.leb_spec (char_len_utf8 c) n); simpl; [|lia].
  specialize (IH (n - char_len_utf8 c)). lia.
Qed.

(** A boundary is at most three bytes short of the limit. *)
Lemma floor_chars_ge n s : n < utf8_len s -> n < utf8_len (take (floor_chars n s) s) + 4.
Proof.
  revert n; induction s as [|c s IH]; intros n; simpl; [lia|]. intros H.
  pose proof (char_len_utf8_bounds c).
  destruct (Nat.leb_spec (char_len_utf8 c) n); simpl; [|lia].
  specialize (IH (n - char_len_utf8 c)). lia.
Qed.

Lemma utf8_len_take n s : utf8_len (take n s) <= utf8_len s.
Proof. rewrite <-(take_drop n s) at 2. rewrite utf8_len_app. lia. Qed.

Lemma utf8_len_take_drop n s : utf8_len (take n s) + utf8_len (drop n s) = utf8_len s.
Proof. rewrite <-(take_drop n s) at 3. by rewrite utf8_len_app. Qed.

Lemma trim_start_nl b : trim_start (b ++ [c_nl]) = if is_empty (trim_start b) then [] else trim_start b ++ [c_nl].
Proof. induction b as [|c b IH]; [done|]. simpl. destruct (is_whitespace c); [done|]. done. Qed.

(** A line feed at the end does not survive trimming. *)
Lemma trim_nl b : trim (b ++ [c_nl]) = trim b.
Proof.
  unfold trim, trim_end. rewrite trim_start_nl.
  destruct (trim_start b) as [|c s] eqn:E; [done|]. cbn [is_empty].
  by rewrite reverse_snoc.
Qed.

Lemma trim_infix s : exists p q, s = p ++ trim s ++ q.
Proof.
  unfold trim, trim_end. destruct (trim_start_suffix s) as (p & Hp & _).
  destruct (trim_start_suffix (reverse (trim_start s))) as (q & Hq & _).
  exists p, (reverse q). rewrite <-reverse_app, <-Hq, reverse_involutive. done.
Qed.

Lemma trim_elem_of c s : c ∈ trim s -> c ∈ s.
Proof. destruct (trim_infix s) as (p & q & H). rewrite H at 2. rewrite !elem_of_app. auto. Qed.

Lemma utf8_len_trim s : utf8_len (trim s) <= utf8_len s.
Proof. destruct (trim_infix s) as (p & q & H). rewrite H at 2. rewrite !utf8_len_app. lia. Qed.

Lemma trim_start_char_suffix c s : exists n, s = replicate n c ++ trim_start_char c s.
Proof.
  induction s as [|x s [n IH]]; [by exists 0|]. simpl.
  destruct (N.eqb_spec x c) as [->|]; [|by exists 0]. exists (S n). simpl. by f_equal.
Qed.

Lemma first_line_app b s : c_nl ∉ b -> first_line (b ++ s) = b ++ first_line s.
Proof.
  induction b as [|c b IH]; [done|]. intros [Hc Hb]%not_elem_of_cons. simpl.
  destruct (N.eqb_spec c c_nl); [done|]. by rewrite IH.
Qed.

Lemma after_newline_line b s : c_nl ∉ b -> after_newline (b ++ c_nl :: s) = s.
Proof.
  induction b as [|c b IH]; [done|]. intros [Hc Hb]%not_elem_of_cons. simpl.
  destruct (N.eqb_spec c c_nl); [done|]. by apply IH.
Qed.

(** ** Decimals *)

Lemma digits_value_app a s t : digits_value a (s ++ t) = digits_value (digits_value a s) t.
Proof. revert a. induction s as [|c s IH]; intros a; [done|]. apply IH. Qed.

(** The digits written in front. *)
Lemma dec_go_spec fuel n acc : (n < 10 ^ N.of_nat fuel)%N -> 0 < fuel ->
  exists ds, dec_go fuel n acc = ds ++ acc /\ ds <> [] /\ forallb is_ascii_digit ds = true /\ digits_value 0 ds = Z.of_N n.
Proof.
  revert n acc. induction fuel as [|fuel IH]; intros n acc Hn Hf; [lia|]. cbn [dec_go].
  assert (is_ascii_digit (48 + n mod 10)%N = true) as Hd.
  { unfold is_ascii_digit. pose proof (N.mod_upper_bound n 10). lia. }
  destruct (N.ltb_spec n 10) as [Hlt|Hge].
  - exists [(48 + n mod 10)%N]. split; [done|]. split; [done|]. split; [cbn; by rewrite Hd|]. cbn. rewrite N.mod_small by done. lia.
  - assert (n / 10 < 10 ^ N.of_nat fuel)%N as Hq.
    { apply N.Div0.div_lt_upper_bound. by rewrite Nat2N.inj_succ, N.pow_succ_r' in Hn. }
    destruct fuel as [|fuel]; [cbn in Hn; lia|].
    destruct (IH (n / 10)%N ((48 + n mod 10)%N :: acc) Hq ltac:(lia)) as (ds & -> & Hne & Hds & Hv).
    exists (ds ++ [(48 + n mod 10)%N]). split; [by rewrite <-app_assoc|]. split; [by destruct ds|].
    split; [by rewrite forallb_app, Hds; cbn; rewrite Hd|].
    rewrite digits_value_app, Hv. cbn [digits_value]. pose proof (N.div_mod n 10 ltac:(done)). lia.
Qed.

(** Reading a decimal gives the number back. *)
Lemma parse_dec n : (n < 2 ^ 64)%N -> parse_u64 (dec n) = Some (Z.of_N n).
Proof.
  intros Hn. unfold dec. destruct (dec_go_spec (S (N.to_nat (N.log2 n))) n []) as (ds & -> & Hne & Hds & Hv).
  - rewrite Nat2N.inj_succ, N2Nat.id. destruct (decide (n = 0%N)) as [->|Hn0]; [cbn; lia|].
    pose proof (N.log2_spec n ltac:(lia)) as [_ Hl]. eapply N.lt_le_trans; [exact Hl|]. apply N.pow_le_mono_l. lia.
  - lia.
  - rewrite app_nil_r. unfold parse_u64. destruct ds as [|c ds]; [done|]. pose proof Hds as Hc. cbn [forallb] in Hc.
    apply andb_true_iff in Hc as [Hc _].
    assert (strip_prefix (str "+") (c :: ds) = None) as ->.
    { unfold strip_prefix. change (str "+") with [43%N]. cbn [starts_with]. unfold is_ascii_digit in Hc.
      destruct (N.eqb_spec 43 c) as [<-|]; [done|]. by destruct (43 =? c)%N eqn:E; [apply N.eqb_eq in E|]. }
    cbn [from_option id]. rewrite Hds. cbn [is_empty negb orb]. rewrite Hv.
    assert ((Z.of_N n <? 2 ^ 64)%Z = true) as -> by lia. done.
Qed.
