(* ===== verification/Json.v ===== *)
(** * Json: the [serde_json::Value] data the daemon passes around

    The value type and its accessors, as the sources use them.  Objects keep
    insertion order (the crate is built with [preserve_order]): replacing an
    existing key keeps its position.  Rendering and parsing JSON text is the
    crate's business and stays a parameter, the class [JsonText]. *)

From S2P Require Import Prelude Str.

(** A number is a [u64]/[i64] integer or a finite binary64 [m * 2^e]. *)
Inductive number :=
| NInt (z : Z)
| NFloat (m e : Z).

Inductive json :=
| JNull
| JBool (b : bool)
| JNum (n : number)
| JStr (s : rstr)
| JArr (l : list json)
| JObj (kvs : list (rstr * json)).

#[export] Instance number_eq_dec : EqDecision number.
Proof. solve_decision. Defined.

(** ** Accessors *)

Fixpoint assoc {A} (k : rstr) (kvs : list (rstr * A)) : option A :=
  match kvs with
  | [] => None
  | (k', v) :: r => if str_eqb k k' then Some v else assoc k r
  end.

(** [Map::insert]: replace in place, else append. *)
Fixpoint assoc_insert {A} (k : rstr) (v : A) (kvs : list (rstr * A)) : list (rstr * A) :=
  match kvs with
  | [] => [(k, v)]
  | (k', v') :: r => if str_eqb k k' then (k', v) :: r else (k', v') :: assoc_insert k v r
  end.

(** [Value::get] with a string key. *)
Definition get (v : json) (k : rstr) : option json :=
  match v with JObj kvs => assoc k kvs | _ => None end.

(** [v["k"]]: a missing key or a non-object reads as [Null]. *)
Definition idx (v : json) (k : string) : json := default JNull (get v (str k)).

Definition as_str (v : json) : option rstr := match v with JStr s => Some s | _ => None end.
Definition as_bool (v : json) : option bool := match v with JBool b => Some b | _ => None end.
Definition as_array (v : json) : option (list json) :=
  match v with JArr l => Some l | _ => None end.
Definition as_object (v : json) : option (list (rstr * json)) :=
  match v with JObj kvs => Some kvs | _ => None end.
Definition is_null (v : json) : bool := match v with JNull => true | _ => false end.

(** [as_u64]: integers in the unsigned 64-bit range only. *)
Definition as_u64 (v : json) : option Z :=
  match v with
  | JNum (NInt z) => if ((0 <=? z) && (z <? 2 ^ 64))%Z then Some z else None
  | _ => None
  end.

Definition jint (z : Z) : json := JNum (NInt z).
Definition jstr (s : string) : json := JStr (str s).

Notation "v '.[' k ]" := (idx v k) (at level 1, left associativity, format "v .[ k ]").

(** ** The JSON text interface (crate [serde_json]) *)

Class JsonText := {
  to_string : json -> rstr;
  to_string_pretty : json -> rstr;
  from_str : rstr -> option json
}.

(** ** Facts *)

Lemma assoc_insert_eq {A} k (v : A) kvs : assoc k (assoc_insert k v kvs) = Some v.
Proof.
  induction kvs as [|[k' v'] r IH]; simpl.
  - by rewrite str_eqb_refl.
  - destruct (str_eqb k k') eqn:E; simpl; rewrite E; done.
Qed.

Lemma assoc_insert_ne {A} k k' (v : A) kvs :
  k <> k' -> assoc k' (assoc_insert k v kvs) = assoc k' kvs.
Proof.
  intros Hne. induction kvs as [|[k'' v''] r IH]; simpl.
  - apply not_eq_sym, str_eqb_neq in Hne. by rewrite Hne.
  - destruct (str_eqb k k'') eqn:E; simpl.
    + apply str_eqb_eq in E; subst k''.
      apply not_eq_sym, str_eqb_neq in Hne. by rewrite Hne.
    + by rewrite IH.
Qed.

Lemma assoc_elem {A} k (v : A) kvs : assoc k kvs = Some v -> (k, v) ∈ kvs.
Proof.
  induction kvs as [|[k' v'] r IH]; simpl; [done|].
  destruct (str_eqb k k') eqn:E; intros H; simplify_eq.
  - apply str_eqb_eq in E; subst. by left.
  - right. auto.
Qed.

Lemma assoc_None {A} k (kvs : list (rstr * A)) :
  assoc k kvs = None <-> k ∉ kvs.*1.
Proof.
  induction kvs as [|[k' v'] r IH]; simpl.
  - split; [intros _ H; by apply not_elem_of_nil in H|done].
  - rewrite not_elem_of_cons, <-IH. destruct (str_eqb k k') eqn:E.
    + apply str_eqb_eq in E; subst. split; [done|intros [? _]; done].
    + apply str_eqb_neq in E. tauto.
Qed.
