(* ===== verification/Rows.v ===== *)
(** * Rows: SQL tables as lists of rows

    [UPDATE ... WHERE] as a map over the rows of a table, [COALESCE], and what
    updates do to lookups, keys and counts; shared by the store models. *)

From S2P Require Import Prelude Str.

(** [UPDATE ... WHERE p]: rewrite the matching rows. *)
Definition update_where {A} (p : A -> bool) (f : A -> A) (l : list A) : list A :=
  map (fun r => if p r then f r else r) l.

(** [COALESCE(a, b)] *)
Definition coalesce {A} (a b : option A) : option A :=
  match a with Some _ => a | None => b end.

Lemma find_first_update {A} (p q : A -> bool) (f : A -> A) l :
  (forall r, p (f r) = p r) ->
  find_first p (update_where q f l) = (fun r => if q r then f r else r) <$> find_first p l.
Proof.
  intros Hp. induction l as [|r l IH]; [done|]. cbn [update_where map].
  rewrite !find_first_cons. change (map _ l) with (update_where q f l).
  assert (p (if q r then f r else r) = p r) as -> by (by destruct (q r)).
  destruct (p r); [done|]. apply IH.
Qed.

Lemma update_where_length {A} (q : A -> bool) (f : A -> A) l :
  length (update_where q f l) = length l.
Proof. apply length_map. Qed.

Lemma update_where_elem {A} (q : A -> bool) (f : A -> A) l r :
  r ∈ update_where q f l <-> exists r0, r0 ∈ l /\ r = if q r0 then f r0 else r0.
Proof.
  unfold update_where. rewrite list_elem_of_In, in_map_iff.
  setoid_rewrite list_elem_of_In. split.
  - intros (r0 & <- & ?). by exists r0.
  - intros (r0 & ? & ->). by exists r0.
Qed.

Lemma update_where_keys {A B} (k : A -> B) p f l :
  (forall r, k (f r) = k r) -> map k (update_where p f l) = map k l.
Proof.
  intros Hk. unfold update_where. rewrite map_map. apply map_ext. intros r. by destruct (p r).
Qed.

(** A row replaced by one with the same key. *)
Lemma update_where_map {A B} (k : A -> B) p f l :
  (forall r, p r = true -> k (f r) = k r) -> map k (update_where p f l) = map k l.
Proof. intros Hk. unfold update_where. rewrite map_map. apply map_ext. intros r. destruct (p r) eqn:E; [by apply Hk|done]. Qed.

Lemma update_where_twice {A} (p q : A -> bool) (f : A -> A) l :
  (forall r, q r = true -> p (f r) = true -> f (f r) = f r) ->
  update_where p f (update_where q f l) = update_where (fun r => q r || p r) f l.
Proof.
  intros H1. unfold update_where. rewrite map_map. apply map_ext. intros r.
  destruct (q r) eqn:Eq; simpl; [|done].
  destruct (p (f r)) eqn:Ep; [by apply H1|done].
Qed.

Lemma update_where_ext {A} (p q : A -> bool) (f : A -> A) l :
  (forall r, p r = q r) -> update_where p f l = update_where q f l.
Proof. intros H. unfold update_where. apply map_ext. intros r. by rewrite H. Qed.

Lemma update_where_false {A} (f : A -> A) l : update_where (fun _ => false) f l = l.
Proof. unfold update_where. by rewrite map_id. Qed.

Lemma count_update_unique {A} (p : A -> bool) (key : A -> nat) (f : A -> A) (a : A) l :
  NoDup (map key l) -> a ∈ l -> p a = true -> (forall b, p (f b) = false) ->
  S (count p (update_where (fun b => key b =? key a) f l)) = count p l.
Proof.
  intros Hnd Ha Hp Hf. induction l as [|b l IH]; [by apply not_elem_of_nil in Ha|].
  cbn [map] in Hnd. apply NoDup_cons in Hnd as [Hni Hnd].
  change (update_where (fun b => key b =? key a) f (b :: l))
    with ((if key b =? key a then f b else b) :: update_where (fun b => key b =? key a) f l).
  rewrite !count_cons. apply elem_of_cons in Ha as [->|Ha].
  - rewrite Nat.eqb_refl, Hf, Hp.
    assert (update_where (fun x => key x =? key b) f l = l) as ->; [|lia].
    unfold update_where. rewrite <-(map_id l) at 2. apply map_ext_in. intros x Hx.
    destruct (Nat.eqb_spec (key x) (key b)) as [He|]; [|done]. exfalso. apply Hni.
    rewrite <-He. by apply list_elem_of_In, in_map.
  - assert (key b <> key a) as Hne.
    { intros He. apply Hni. rewrite He. by apply list_elem_of_In, in_map, list_elem_of_In. }
    apply Nat.eqb_neq in Hne. rewrite Hne. rewrite <-(IH Hnd Ha). lia.
Qed.

Lemma head_sort_max {A} (key : A -> Z) l a :
  head (sort_by (fun x y => (key y <=? key x)%Z) l) = Some a -> a ∈ l /\ forall b, b ∈ l -> (key b <= key a)%Z.
Proof.
  intros H. pose proof (sort_by_sorted (fun x y => (key y <=? key x)%Z)
    ltac:(intros; lia) ltac:(intros; lia) l) as Hs.
  assert (forall b, b ∈ sort_by (fun x y => (key y <=? key x)%Z) l <-> b ∈ l) as He
    by (intros; apply sort_by_elem).
  destruct (sort_by _ l) as [|x r]; simplify_eq/=. split; [apply He; by left|].
  intros b Hb. apply He in Hb. apply StronglySorted_inv in Hs as [_ Hs].
  rewrite Forall_forall in Hs. apply elem_of_cons in Hb as [->|Hb]; [lia|].
  specialize (Hs b Hb). lia.
Qed.

(** ** Tables sorted by a key *)

Lemma sorted_snoc (l : list Z) z : StronglySorted Z.lt l -> (forall x, x ∈ l -> (x < z)%Z) -> StronglySorted Z.lt (l ++ [z]).
Proof.
  induction l as [|x l IH]; intros H Hz; cbn [app]; [by repeat constructor|].
  apply StronglySorted_inv in H as [H1 H2]. constructor.
  - apply IH; [done|]. intros y Hy. apply Hz. by right.
  - apply Forall_app. split; [done|]. constructor; [|done]. apply Hz. by left.
Qed.

Lemma sorted_filter {A} (key : A -> Z) (p : A -> bool) l :
  StronglySorted Z.lt (map key l) -> StronglySorted Z.lt (map key (List.filter p l)).
Proof.
  induction l as [|a l IH]; [done|]. cbn [map List.filter]. intros [H1 H2]%StronglySorted_inv.
  destruct (p a); [|by apply IH]. cbn [map]. constructor; [by apply IH|].
  rewrite Forall_forall in *. intros x Hx. apply H2. apply list_elem_of_fmap in Hx as (y & -> & Hy).
  apply list_elem_of_fmap. exists y. split; [done|]. by apply elem_filter in Hy as [].
Qed.

Lemma sort_sorted {A} (key : A -> Z) l :
  StronglySorted Z.lt (map key l) -> sort_by (fun a b => (key a <=? key b)%Z) l = l.
Proof.
  induction l as [|a l IH]; [done|]. cbn [map sort_by]. intros [H1 H2]%StronglySorted_inv. rewrite IH by done.
  destruct l as [|b l]; [done|]. cbn [insert_sorted]. rewrite Forall_forall in H2.
  specialize (H2 (key b) ltac:(by left)). assert ((key a <=? key b)%Z = true) as -> by lia. done.
Qed.

Lemma insert_last {A} (leb : A -> A -> bool) a l : (forall b, b ∈ l -> leb a b = false) -> insert_sorted leb a l = l ++ [a].
Proof.
  induction l as [|b l IH]; intros H; [done|]. cbn [insert_sorted app]. rewrite H by (by left).
  f_equal. apply IH. intros x Hx. apply H. by right.
Qed.

Lemma sort_reversed {A} (key : A -> Z) l :
  StronglySorted Z.lt (map key l) -> sort_by (fun a b => (key b <=? key a)%Z) l = reverse l.
Proof.
  induction l as [|a l IH]; [done|]. cbn [map sort_by]. intros [H1 H2]%StronglySorted_inv. rewrite IH by done.
  rewrite reverse_cons. apply insert_last. intros b Hb. rewrite Forall_forall in H2.
  assert (key a < key b)%Z by (apply H2, list_elem_of_fmap; exists b; split; [done|by apply elem_of_reverse]). lia.
Qed.
