(* ===== verification/Condition.v ===== *)
(** * Condition: the edge-condition grammar of [mission.rs]

    [parse_clause], [parse_condition], [clause_matches],
    [evaluate_condition], [is_default_condition], [is_valid_condition]. *)

From S2P Require Import Prelude Str Json.

Definition DEFAULT_CONDITION : rstr := str "default".

Record ParsedClause := { c_key : rstr; c_negate : bool; c_value : rstr }.

#[export] Instance ParsedClause_eq_dec : EqDecision ParsedClause.
Proof. solve_decision. Defined.

Record ParsedExpression := { groups : list (list ParsedClause) }.

Definition is_default_condition (condition : option rstr) : bool :=
  match condition with
  | None => true
  | Some c =>
      let t := trim c in
      is_empty t || eq_ignore_ascii_case t DEFAULT_CONDITION
  end.

Definition key_start (c : rchar) : bool := is_ascii_alphabetic c || (c =? 95)%N.
Definition key_char (c : rchar) : bool :=
  is_ascii_alphanumeric c || (c =? 95)%N || (c =? 46)%N.

Definition key_ok (key : rstr) : bool :=
  match key with
  | [] => false
  | c :: _ => key_start c && forallb key_char key
  end.

Definition value_ok (value : rstr) : bool :=
  negb (is_empty value) && negb (existsb is_whitespace value).

Definition parse_clause (raw : rstr) : option ParsedClause :=
  let raw := trim raw in
  let eq := find_char 61%N raw in
  let neq := find_str (str "!=") raw in
  let parts :=
    match neq, eq with
    | Some n, Some e =>
        if n + 1 =? e
        then Some (trim_end (take n raw), true, drop (e + 1) raw)
        else None
    | Some _, None => None
    | None, Some e => Some (trim_end (take e raw), false, drop (e + 1) raw)
    | None, None => None
    end in
  '(key, negate, rest) ← parts;
  if negb (key_ok key) then None
  else
    let value := trim rest in
    if negb (value_ok value) then None
    else Some {| c_key := key; c_negate := negate; c_value := value |}.

(** The token scan: [or] opens a new part, [and] is skipped, anything else is
    pushed on the last part. *)
Fixpoint scan_tokens (tokens : list rstr) (done : list (list rstr)) (cur : list rstr)
  : list (list rstr) :=
  match tokens with
  | [] => done ++ [cur]
  | token :: rest =>
      if eq_ignore_ascii_case token (str "or") then scan_tokens rest (done ++ [cur]) []
      else if eq_ignore_ascii_case token (str "and") then scan_tokens rest done cur
      else scan_tokens rest done (cur ++ [token])
  end.

Definition parse_group (part : list rstr) : option (list ParsedClause) :=
  if is_empty part then None
  else
    let group := omap parse_clause part in
    if length group =? length part then Some group else None.

Definition parse_condition (condition : rstr) : option ParsedExpression :=
  let or_parts := scan_tokens (split_whitespace condition) [] [] in
  groups ← mapM parse_group or_parts;
  if negb (is_empty groups) then Some {| groups := groups |} else None.

(** Top-level keys first, then the [settings.] prefix, then the bare key in
    the run settings. *)
Definition resolve_value (context settings : json) (key : rstr) : option json :=
  match get context key with
  | Some v => Some v
  | None =>
      match strip_prefix (str "settings.") key with
      | Some rest => get settings rest
      | None => get settings key
      end
  end.

Section Evaluate.
Context `{JT : JsonText}.

Definition clause_matches (clause : ParsedClause) (context settings : json) : bool :=
  match resolve_value context settings (c_key clause) with
  | None => false
  | Some raw =>
      if is_null raw then false
      else
        let equals :=
          match raw with
          | JStr s => str_eqb s (c_value clause)
          | other => str_eqb (to_string other) (c_value clause)
          end in
        xorb (c_negate clause) equals
  end.

Definition evaluate_condition (condition : rstr) (context settings : json) : bool :=
  if is_default_condition (Some condition) then false
  else match parse_condition condition with
       | None => false
       | Some parsed =>
           existsb (forallb (fun c => clause_matches c context settings)) (groups parsed)
       end.
End Evaluate.

Definition is_valid_condition (condition : option rstr) : bool :=
  match condition with
  | None => true
  | Some c =>
      if is_default_condition (Some c) then true
      else match parse_condition c with Some _ => true | None => false end
  end.

(** ** The written form of an expression *)

Definition render_clause (c : ParsedClause) : rstr :=
  c_key c ++ (if c_negate c then str "!=" else str "=") ++ c_value c.

Definition render_group (g : list ParsedClause) : rstr :=
  join (str " and ") (map render_clause g).

Definition render_expression (e : ParsedExpression) : rstr :=
  join (str " or ") (map render_group (groups e)).

(** What a clause must look like for its written form to be read back. *)
Definition clause_wf (c : ParsedClause) : bool :=
  key_ok (c_key c) && value_ok (c_value c)
  && (c_negate c || negb (contains (str "!=") (c_value c))).

Definition expression_wf (e : ParsedExpression) : bool :=
  negb (is_empty (groups e))
  && forallb (fun g => negb (is_empty g) && forallb clause_wf g) (groups e).

Example parse_ex1 :
  parse_condition (str "status=ok OR risk!=high and n=1")
  = Some {| groups :=
      [[ {| c_key := str "status"; c_negate := false; c_value := str "ok" |} ];
       [ {| c_key := str "risk"; c_negate := true; c_value := str "high" |};
         {| c_key := str "n"; c_negate := false; c_value := str "1" |} ]] |}.
Proof. vm_compute. reflexivity. Qed.

Example parse_ex2 : parse_condition (str "a=1 or") = None.
Proof. vm_compute. reflexivity. Qed.
Example parse_ex3 : parse_condition (str "a=1 and") <> None.
Proof. vm_compute. done. Qed.
Example parse_ex4 : parse_clause (str "a=b!=c") = None.
Proof. vm_compute. reflexivity. Qed.

(** ** Facts *)

Lemma key_char_not_space c : key_char c = true -> is_whitespace c = false /\ c <> 61%N /\ c <> 33%N.
Proof.
  unfold key_char, is_ascii_alphanumeric, is_ascii_alphabetic, is_ascii_lowercase,
    is_ascii_uppercase, is_ascii_digit, is_whitespace. lia.
Qed.

Lemma key_ok_chars k c : key_ok k = true -> c ∈ k -> key_char c = true.
Proof.
  destruct k as [|x k]; [done|]. simpl. intros H Hc. bools.
  apply elem_of_cons in Hc as [->|Hc]; [done|]. by eapply forallb_elem.
Qed.

Lemma value_ok_word v : value_ok v = true -> word v.
Proof.
  unfold value_ok. intros H. bools. split; [by destruct v|].
  intros c Hc. by eapply existsb_elem_false.
Qed.

Lemma forallb_elem_ws w :
  forallb (fun c => negb (is_whitespace c)) w = true ->
  forall c, c ∈ w -> is_whitespace c = false.
Proof. rewrite forallb_elem. intros H c Hc. by apply negb_true_iff, H. Qed.

Lemma value_ok_wf v : word v -> value_ok v = true.
Proof.
  intros [Hne Hw]. unfold value_ok.
  assert (existsb is_whitespace v = false) as -> by (by apply existsb_elem_false).
  by destruct v.
Qed.

Lemma clause_wf_inv c :
  clause_wf c = true ->
  key_ok (c_key c) = true /\ value_ok (c_value c) = true /\
  (c_negate c = true \/ contains (str "!=") (c_value c) = false).
Proof.
  unfold clause_wf. rewrite !andb_true_iff, orb_true_iff, negb_true_iff. tauto.
Qed.

Lemma render_clause_word c : clause_wf c = true -> word (render_clause c).
Proof.
  intros (Hk & Hval & _)%clause_wf_inv. unfold render_clause.
  apply value_ok_word in Hval as [Hne Hv]. split.
  - intros Heq. apply app_nil in Heq as [_ Heq]. by destruct (c_negate c).
  - intros x. rewrite !elem_of_app. intros [Hx|[Hx|Hx]]; [|destruct (c_negate c)|auto].
    + eapply key_char_not_space, key_ok_chars; done.
    + revert x Hx. by apply forallb_elem_ws.
    + revert x Hx. by apply forallb_elem_ws.
Qed.

(** A rendered clause is never one of the two keywords: it holds an [=]. *)
Lemma render_clause_not_keyword c kw :
  61%N ∉ map to_ascii_lowercase kw -> eq_ignore_ascii_case (render_clause c) kw = false.
Proof.
  intros Hkw. destruct (eq_ignore_ascii_case (render_clause c) kw) eqn:E; [|done].
  destruct Hkw. apply (eq_ignore_case_elem _ _ 61%N E).
  unfold render_clause. rewrite !elem_of_app. right; left.
  destruct (c_negate c); [right|]; by left.
Qed.

(** The common tail of [parse_clause]: a good key and a good value are kept. *)
Lemma clause_finish k n v :
  key_ok k = true -> value_ok v = true ->
  (if negb (key_ok (trim_end k)) then None
   else if negb (value_ok (trim v)) then None
   else Some {| c_key := trim_end k; c_negate := n; c_value := trim v |})
  = Some {| c_key := k; c_negate := n; c_value := v |}.
Proof.
  intros Hk Hv.
  assert (trim_end k = k) as ->.
  { unfold trim_end. rewrite trim_start_id; [by rewrite reverse_involutive|].
    intros c r Hr. eapply key_char_not_space, key_ok_chars; [done|].
    apply elem_of_reverse. rewrite Hr. by left. }
  rewrite (word_trim v) by (by apply value_ok_word in Hv as [_ ?]).
  by rewrite Hk, Hv.
Qed.

Lemma parse_render_clause c : clause_wf c = true -> parse_clause (render_clause c) = Some c.
Proof.
  intros Hwf. pose proof (render_clause_word c Hwf) as Hword.
  apply clause_wf_inv in Hwf as (Hk & Hv & Hneg).
  apply value_ok_word in Hv as Hvw.
  destruct c as [k n v]; simpl in *.
  assert (forall x, x ∈ k -> is_whitespace x = false /\ x <> 61%N /\ x <> 33%N) as Hchars
    by (intros x Hx; eapply key_char_not_space, key_ok_chars; done).
  assert (forall x, x ∈ k -> (61 =? x)%N = false) as Heq
    by (intros x Hx; specialize (Hchars x Hx); lia).
  assert (33%N ∉ k) as Hbang by (intros Hx; by destruct (Hchars _ Hx) as (? & ? & ?)).
  unfold parse_clause. rewrite word_trim by apply Hword.
  unfold render_clause. cbn [c_key c_negate c_value].
  change (str "!=") with [33%N; 61%N] in *. change (str "=") with [61%N].
  destruct n; cbn [app].
  - rewrite (find_str_skip 33%N [61%N]) by done. simpl.
    unfold find_char.
    assert (find_index (N.eqb 61) (k ++ 33%N :: 61%N :: v) = Some (length k + 1)) as ->.
    { replace (k ++ 33%N :: 61%N :: v) with ((k ++ [33%N]) ++ 61%N :: v)
        by (by rewrite <-app_assoc).
      rewrite find_index_app; [by rewrite length_app| |done].
      intros x Hx. apply elem_of_app in Hx as [Hx|Hx]; [auto|].
      by apply list_elem_of_singleton in Hx as ->. }
    simpl. replace (length k + 0) with (length k) by lia. rewrite Nat.eqb_refl.
    simpl. rewrite take_app_length.
    replace (k ++ 33%N :: 61%N :: v) with ((k ++ [33%N; 61%N]) ++ v) by (by rewrite <-app_assoc).
    rewrite drop_app_exact by (rewrite length_app; simpl; lia).
    apply clause_finish; done.
  - assert (find_str [33%N; 61%N] (k ++ 61%N :: v) = None) as ->.
    { destruct Hneg as [Hneg|Hneg]; [done|].
      rewrite find_str_skip by done. simpl. by rewrite (find_str_absent _ _ Hneg). }
    unfold find_char. rewrite find_index_app by done. simpl.
    rewrite take_app_length.
    replace (k ++ 61%N :: v) with ((k ++ [61%N]) ++ v) by (by rewrite <-app_assoc).
    rewrite drop_app_exact by (rewrite length_app; simpl; lia).
    apply clause_finish; done.
Qed.

Definition group_tokens (g : list ParsedClause) : list rstr :=
  join [str "and"] (map (fun c => [render_clause c]) g).

Lemma group_tokenizes g :
  g <> [] -> forallb clause_wf g = true -> tokenizes (render_group g) (group_tokens g).
Proof.
  intros Hne Hwf. rewrite forallb_elem in Hwf.
  apply (tokenizes_join (str "and")).
  - split; [done|]. by apply forallb_elem_ws.
  - by destruct g.
  - apply Forall2_fmap_2, Forall_Forall2_diag, Forall_forall. intros c Hc.
    by apply tokenizes_word, render_clause_word, Hwf.
Qed.

Lemma expression_tokenizes e :
  expression_wf e = true ->
  tokenizes (render_expression e) (join [str "or"] (map group_tokens (groups e))).
Proof.
  unfold expression_wf. rewrite andb_true_iff, forallb_elem, negb_true_iff.
  intros [Hne Hgs]. apply (tokenizes_join (str "or")).
  - split; [done|]. by apply forallb_elem_ws.
  - by destruct (groups e).
  - apply Forall2_fmap_2, Forall_Forall2_diag, Forall_forall. intros g Hg.
    specialize (Hgs g Hg). apply andb_true_iff in Hgs as [Hgne Hg2].
    apply group_tokenizes; [by destruct g|done].
Qed.

Lemma scan_group g rest parts cur :
  g <> [] ->
  scan_tokens (group_tokens g ++ rest) parts cur
  = scan_tokens rest parts (cur ++ map render_clause g).
Proof.
  intros Hne. revert cur. induction g as [|c g IH]; intros cur; [done|].
  assert (forall r, scan_tokens (render_clause c :: r) parts cur
                    = scan_tokens r parts (cur ++ [render_clause c])) as Hstep.
  { intros r. simpl. rewrite !render_clause_not_keyword; [done| |];
      apply (bool_decide_unpack _); vm_compute; done. }
  destruct g as [|c' g]; [apply Hstep|].
  change (group_tokens (c :: c' :: g))
    with (render_clause c :: str "and" :: group_tokens (c' :: g)).
  rewrite <-!app_comm_cons, Hstep.
  etrans; [by apply IH|]. by rewrite <-app_assoc.
Qed.

Lemma scan_groups gs parts :
  gs <> [] -> Forall (fun g => g <> []) gs ->
  scan_tokens (join [str "or"] (map group_tokens gs)) parts []
  = parts ++ map (map render_clause) gs.
Proof.
  intros Hne Hgs. revert parts. induction Hgs as [|g gs Hg Hgs IH]; intros parts; [done|].
  destruct gs as [|g' gs].
  - simpl. rewrite <-(app_nil_r (group_tokens g)), scan_group by done. done.
  - change (join [str "or"] (map group_tokens (g :: g' :: gs)))
      with (group_tokens g ++ str "or" :: join [str "or"] (map group_tokens (g' :: gs))).
    rewrite scan_group by done.
    etrans; [by apply IH|]. simpl. by rewrite <-app_assoc.
Qed.

Lemma parse_group_render g :
  g <> [] -> forallb clause_wf g = true -> parse_group (map render_clause g) = Some g.
Proof.
  intros Hne Hwf. unfold parse_group.
  assert (omap parse_clause (map render_clause g) = g) as ->.
  { clear Hne. induction g as [|c g IH]; [done|].
    simpl in Hwf. bools.
    change (omap parse_clause (map render_clause (c :: g)))
      with (match parse_clause (render_clause c) with
            | Some c' => c' :: omap parse_clause (map render_clause g)
            | None => omap parse_clause (map render_clause g)
            end).
    by rewrite parse_render_clause, IH. }
  rewrite length_map, Nat.eqb_refl. by destruct g.
Qed.

Lemma render_expression_not_default e :
  expression_wf e = true -> is_default_condition (Some (render_expression e)) = false.
Proof.
  intros Hwf. apply orb_false_iff.
  assert (61%N ∈ trim (render_expression e)) as Hin.
  { unfold expression_wf in Hwf. rewrite andb_true_iff, forallb_elem, negb_true_iff in Hwf.
    destruct Hwf as [Hne Hgs]. destruct (groups e) as [|g gs] eqn:Eg; [done|].
    specialize (Hgs g ltac:(by left)). apply andb_true_iff in Hgs as [Hg _].
    destruct g as [|c g]; [done|]. apply trim_elem; [|done].
    unfold render_expression. rewrite Eg.
    apply (join_elem _ (render_group (c :: g))); [by left|].
    apply (join_elem _ (render_clause c)); [by left|].
    unfold render_clause. rewrite !elem_of_app. right; left.
    destruct (c_negate c); [right|]; by left. }
  split.
  { destruct (trim (render_expression e)); [by apply not_elem_of_nil in Hin|done]. }
  destruct (eq_ignore_ascii_case _ _) eqn:E; [|done].
  apply (eq_ignore_case_elem _ _ 61%N) in E; [|done].
  assert (61%N ∉ map to_ascii_lowercase DEFAULT_CONDITION)
    by (apply (bool_decide_unpack _); vm_compute; done). done.
Qed.

(** The truth of one clause, on the resolved value. *)
Definition clause_holds `{JT : JsonText} (context settings : json) (c : ParsedClause) : Prop :=
  exists v, resolve_value context settings (c_key c) = Some v /\ v <> JNull /\
    let text := match v with JStr s => s | other => to_string other end in
    if c_negate c then text <> c_value c else text = c_value c.

Lemma clause_matches_spec `{JT : JsonText} c context settings :
  clause_matches c context settings = true <-> clause_holds context settings c.
Proof.
  unfold clause_matches, clause_holds.
  destruct (resolve_value context settings (c_key c)) as [v|]; [|split; [done|by intros (? & ? & _)]].
  assert (forall t, xorb (c_negate c) (str_eqb t (c_value c)) = true
                    <-> if c_negate c then t <> c_value c else t = c_value c) as Hx.
  { intros t. destruct (str_eqb t (c_value c)) eqn:E;
      [apply str_eqb_eq in E|apply str_eqb_neq in E]; destruct (c_negate c); simpl; split; done. }
  split.
  - destruct (is_null v) eqn:En; [done|]. intros H. exists v. split; [done|]. split; [by intros ->|].
    destruct v; by apply Hx.
  - intros (v' & [= <-] & Hnn & H). destruct (is_null v) eqn:En; [by destruct v|].
    destruct v; by apply Hx.
Qed.

Lemma parse_condition_render (e : ParsedExpression) :
  expression_wf e = true -> parse_condition (render_expression e) = Some e.
Proof.
  intros Hwf. unfold parse_condition.
  destruct (expression_tokenizes e Hwf) as [-> _].
  unfold expression_wf in Hwf. rewrite andb_true_iff, forallb_elem, negb_true_iff in Hwf.
  destruct Hwf as [Hne Hgs].
  rewrite scan_groups; cycle 1.
  { by destruct (groups e). }
  { apply Forall_forall. intros g Hg Hnil; subst. by specialize (Hgs [] Hg). }
  assert (mapM parse_group ([] ++ map (map render_clause) (groups e)) = Some (groups e)) as ->.
  { clear Hne. simpl. induction (groups e) as [|g gs IH]; simpl; [done|].
    pose proof (Hgs g ltac:(by left)) as Hg. apply andb_true_iff in Hg as [Hgne Hgwf].
    rewrite parse_group_render by (by destruct g || done). simpl.
    rewrite IH; [done|]. intros g' Hg'; apply Hgs; by right. }
  simpl. rewrite Hne. by destruct e.
Qed.

(** ** Properties *)

(** An expression written out with [key=value] / [key!=value] clauses,
    [ and ] and [ or ] parses back to exactly itself, [and] binding tighter
    than [or]; the only clauses excluded are those whose value holds the
    text [!=] under a plain [=]. *)
Theorem parse_condition_roundtrip (e : ParsedExpression) :
  expression_wf e = true -> parse_condition (render_expression e) = Some e.
Proof. apply parse_condition_render. Qed.

Definition demo_text : JsonText := {|
  to_string v := match v with JNum (NInt z) => dec (Z.to_N z) | JStr s => s | _ => str "?" end;
  to_string_pretty v := str "{}";
  from_str s := Some (JStr s)
|}.

Definition demo_expression : ParsedExpression := {| groups :=
  [[ {| c_key := str "status"; c_negate := false; c_value := str "ok" |};
     {| c_key := str "risk"; c_negate := true; c_value := str "high" |} ];
   [ {| c_key := str "n"; c_negate := false; c_value := str "1" |} ]] |}.

Lemma parse_condition_roundtrip_witness :
  expression_wf demo_expression = true
  /\ parse_condition (render_expression demo_expression) = Some demo_expression.
Proof.
  split; [reflexivity|]. apply (parse_condition_roundtrip demo_expression). reflexivity.
Defined.

(** Evaluating a written expression means exactly "some [or]-branch has
    all its clauses true", where a clause is true only on a key that resolves
    (context first, then the run settings) to a non-null value: a missing key
    satisfies neither [=] nor [!=]. *)
Theorem evaluate_condition_spec `{JT : JsonText} (e : ParsedExpression) (context settings : json) :
  expression_wf e = true ->
  (evaluate_condition (render_expression e) context settings = true <->
   exists g, g ∈ groups e /\ forall c, c ∈ g -> clause_holds context settings c).
Proof.
  intros Hwf. unfold evaluate_condition.
  rewrite render_expression_not_default, parse_condition_render by done.
  rewrite existsb_elem. split; intros (g & Hg & H); exists g; split; try done.
  - rewrite forallb_elem in H. intros c Hc. by apply clause_matches_spec, H.
  - apply forallb_elem. intros c Hc. by apply clause_matches_spec, H.
Qed.

Lemma evaluate_condition_spec_witness :
  expression_wf demo_expression = true /\
  (@evaluate_condition demo_text (render_expression demo_expression)
     (JObj [(str "n", jint 1)]) JNull = true <->
   exists g, g ∈ groups demo_expression /\
     forall c, c ∈ g -> @clause_holds demo_text (JObj [(str "n", jint 1)]) JNull c).
Proof.
  split; [reflexivity|].
  apply (@evaluate_condition_spec demo_text demo_expression). reflexivity.
Defined.

(** A plain [=] clause whose value holds [!=] is rejected as malformed,
    whatever the key: the operator search looks at the first [!=] even when
    an [=] stands before it. *)
Theorem parse_clause_rejects_bang_value (k v : rstr) :
  key_ok k = true -> value_ok v = true -> contains (str "!=") v = true ->
  parse_clause (k ++ str "=" ++ v) = None.
Proof.
  intros Hk Hv Hc. change (str "!=") with [33%N; 61%N] in *. change (str "=") with [61%N].
  apply value_ok_word in Hv as [Hvne Hvw].
  assert (forall x, x ∈ k -> is_whitespace x = false /\ x <> 61%N /\ x <> 33%N) as Hchars
    by (intros x Hx; eapply key_char_not_space, key_ok_chars; done).
  assert (33%N ∉ k) as Hbang by (intros Hx; by destruct (Hchars _ Hx) as (? & ? & ?)).
  unfold parse_clause. rewrite word_trim; cycle 1.
  { intros x. rewrite !elem_of_app, list_elem_of_singleton. intros [Hx|[->|Hx]]; [|done|auto].
    by apply Hchars. }
  change (str "!=") with [33%N; 61%N]. cbn [app]. unfold find_char.
  rewrite find_str_skip, find_index_app by
    (done || (intros x Hx; specialize (Hchars x Hx); lia)).
  unfold contains in Hc. simpl. destruct (find_str [33%N; 61%N] v) as [n|]; [|done]. simpl.
  destruct (_ =? _) eqn:E; [|done]. apply Nat.eqb_eq in E. lia.
Qed.

Lemma parse_clause_rejects_bang_value_witness :
  key_ok (str "a") = true /\ parse_clause (str "a" ++ str "=" ++ str "b!=c") = None.
Proof.
  split; [reflexivity|]. apply (parse_clause_rejects_bang_value (str "a") (str "b!=c")); reflexivity.
Defined.
