(* ===== verification/MissionDef.v ===== *)
(** * MissionDef: the flow definition of [mission.rs]

    Node kinds and task states, the JSON decoder [parse_definition] with the
    structural checks of [validate_definition], edge-group activation, and the
    agent prompt/output conversions. *)

From S2P Require Import Prelude Str Json Condition.

Inductive MissionNodeKind := Input | Agent | Human | Output.

#[export] Instance MissionNodeKind_eq_dec : EqDecision MissionNodeKind.
Proof. solve_decision. Defined.

Module NodeKind.
Definition as_str (k : MissionNodeKind) : rstr :=
  match k with
  | Input => str "input"
  | Agent => str "agent"
  | Human => str "human"
  | Output => str "output"
  end.

Definition parse (s : rstr) : option MissionNodeKind :=
  if str_eqb s (str "input") then Some Input
  else if str_eqb s (str "agent") then Some Agent
  else if str_eqb s (str "human") then Some Human
  else if str_eqb s (str "output") then Some Output
  else None.
End NodeKind.

Inductive MissionTaskStatus :=
| Queued | Running | WaitingHuman | Succeeded | Failed | Cancelled | Excluded.

#[export] Instance MissionTaskStatus_eq_dec : EqDecision MissionTaskStatus.
Proof. solve_decision. Defined.

Module TaskStatus.
Definition as_str (s : MissionTaskStatus) : rstr :=
  match s with
  | Queued => str "queued"
  | Running => str "running"
  | WaitingHuman => str "waiting_human"
  | Succeeded => str "succeeded"
  | Failed => str "failed"
  | Cancelled => str "cancelled"
  | Excluded => str "excluded"
  end.

Definition parse (s : rstr) : option MissionTaskStatus :=
  if str_eqb s (str "queued") then Some Queued
  else if str_eqb s (str "running") then Some Running
  else if str_eqb s (str "waiting_human") then Some WaitingHuman
  else if str_eqb s (str "succeeded") then Some Succeeded
  else if str_eqb s (str "failed") then Some Failed
  else if str_eqb s (str "cancelled") then Some Cancelled
  else if str_eqb s (str "excluded") then Some Excluded
  else None.

Definition is_terminal (s : MissionTaskStatus) : bool :=
  match s with Queued | Running | WaitingHuman => false | _ => true end.
End TaskStatus.

Record MissionNode := {
  n_id : rstr;
  n_kind : MissionNodeKind;
  n_title : rstr;
  n_prompt : option rstr;
  n_value : option json;
  n_backend : option rstr;
  n_cwd : option rstr;
  n_read_only : bool;
  n_artifact : option rstr;
  n_allowed_tools : list rstr
}.

Record MissionEdge := { e_from : rstr; e_to : rstr; e_condition : option rstr }.

(** [concurrency] and [retries] are [u32]. *)
Record MissionSettings := { concurrency : Z; retries : Z }.

Record MissionDefinition := {
  nodes : list MissionNode;
  edges : list MissionEdge;
  settings : MissionSettings
}.

(** The [bail!]/[context] errors, with the data their messages carry. *)
Inductive DefError :=
| NodesNotArray | NodeIdRequired | NodeKindRequired | UnknownNodeKind
| NoNodes | DuplicateNode (id : rstr)
| EdgesNotArray | EdgeFromRequired | EdgeToRequired
| EdgeUnknownNode (from to : rstr)
| MalformedCondition (c from to : rstr)
| NoInputNode
| AgentNeedsPrompt (id : rstr) | AgentNeedsBackend (id : rstr)
| ReadOnlyNeedsTools (id : rstr)
| InputNeedsValue (id : rstr)
| InputHasIncoming (id : rstr) | NodeNoIncoming (id : rstr).

Definition as_u32 (z : Z) : Z := (z mod 2 ^ 32)%Z.

Definition parse_node (n : json) : result MissionNode DefError :=
  let? id := ok_or (as_str n.["id"]) NodeIdRequired in
  let? k := ok_or (as_str n.["kind"]) NodeKindRequired in
  let? kind := ok_or (NodeKind.parse k) UnknownNodeKind in
  Ok {|
    n_title := default id (as_str n.["title"]);
    n_id := id;
    n_kind := kind;
    n_prompt := as_str n.["prompt"];
    n_value := get n (str "value");
    n_backend := as_str n.["backend"];
    n_cwd := as_str n.["cwd"];
    n_read_only := default false (as_bool n.["readOnly"]);
    n_artifact := as_str n.["artifact"];
    n_allowed_tools := omap as_str (default [] (as_array n.["allowedTools"]))
  |}.

(** The [HashSet::insert] loop: the first id seen twice. *)
Fixpoint first_duplicate (seen ids : list rstr) : option rstr :=
  match ids with
  | [] => None
  | i :: r => if existsb (str_eqb i) seen then Some i else first_duplicate (i :: seen) r
  end.

Definition parse_edge (ids : list rstr) (e : json) : result MissionEdge DefError :=
  let? from := ok_or (as_str e.["from"]) EdgeFromRequired in
  let? to := ok_or (as_str e.["to"]) EdgeToRequired in
  let? _ := bail_if (negb (existsb (str_eqb from) ids) || negb (existsb (str_eqb to) ids))
              (EdgeUnknownNode from to) in
  let condition := as_str e.["condition"] in
  let? _ := match condition with
            | Some c => bail_if (negb (is_valid_condition (Some c))) (MalformedCondition c from to)
            | None => Ok tt
            end in
  Ok {| e_from := from; e_to := to; e_condition := condition |}.

Definition blank (o : option rstr) : bool := is_empty (trim (default [] o)).

Definition check_node (n : MissionNode) : result unit DefError :=
  match n_kind n with
  | Agent =>
      let? _ := bail_if (blank (n_prompt n)) (AgentNeedsPrompt (n_id n)) in
      let? _ := bail_if (blank (n_backend n)) (AgentNeedsBackend (n_id n)) in
      bail_if (n_read_only n && is_empty (n_allowed_tools n)) (ReadOnlyNeedsTools (n_id n))
  | Input =>
      match n_value n with None => Err (InputNeedsValue (n_id n)) | Some _ => Ok tt end
  | Human | Output => Ok tt
  end.

Definition incoming_count (def : MissionDefinition) (id : rstr) : nat :=
  count (fun e => str_eqb (e_to e) id) (edges def).

(** Root rule: inputs have no incoming edge, everything else has one. *)
Definition check_root (def : MissionDefinition) (n : MissionNode) : result unit DefError :=
  let incoming := incoming_count def (n_id n) in
  match n_kind n with
  | Input => bail_if (0 <? incoming) (InputHasIncoming (n_id n))
  | _ => bail_if (incoming =? 0) (NodeNoIncoming (n_id n))
  end.

Definition validate_definition (def : MissionDefinition) : result unit DefError :=
  let inputs := count (fun n => bool_decide (n_kind n = Input)) (nodes def) in
  let? _ := bail_if (inputs =? 0) NoInputNode in
  let? _ := iter_result check_node (nodes def) in
  iter_result (check_root def) (nodes def).

Definition parse_settings (settings : json) : MissionSettings := {|
  concurrency := as_u32 (Z.max (default 2%Z (as_u64 settings.["concurrency"])) 1);
  retries := as_u32 (default 0%Z (as_u64 settings.["retries"]))
|}.

Definition parse_definition (v : json) : result MissionDefinition DefError :=
  let? ns := ok_or (as_array v.["nodes"]) NodesNotArray in
  let? nodes := map_result parse_node ns in
  let? _ := bail_if (is_empty nodes) NoNodes in
  let ids := map n_id nodes in
  let? _ := match first_duplicate [] ids with
            | Some i => Err (DuplicateNode i)
            | None => Ok tt
            end in
  let? es := ok_or (as_array v.["edges"]) EdgesNotArray in
  let? edges := map_result (parse_edge ids) es in
  let definition := {| nodes := nodes; edges := edges;
                       settings := parse_settings v.["settings"] |} in
  let? _ := validate_definition definition in
  Ok definition.

(** ** Edge activation *)

Definition output_context (output : json) : json :=
  match as_object output with
  | Some m => JObj (assoc_insert (str "output") output m)
  | None => JObj [(str "value", output); (str "output", output)]
  end.

Section Activation.
Context `{JT : JsonText}.

Definition edge_is_default (e : MissionEdge) : bool := is_default_condition (e_condition e).

Definition edge_matches (context settings : json) (e : MissionEdge) : bool :=
  negb (edge_is_default e)
  && evaluate_condition (default [] (e_condition e)) context settings.

Definition activated_edges (edges : list MissionEdge) (output settings : json) : list nat :=
  let context := output_context output in
  let explicit := indices_where (edge_matches context settings) edges in
  if is_empty explicit then indices_where edge_is_default edges else explicit.

(** ** Prompt assembly and agent output *)

Definition build_agent_prompt (prompt : rstr) (upstream : json) : rstr :=
  prompt ++ [c_nl; c_nl]
  ++ str "Context from earlier steps (JSON):" ++ [c_nl] ++ to_string_pretty upstream
  ++ [c_nl; c_nl]
  ++ str "When you finish, emit one `key=value` line per result key "
  ++ str "(e.g. `status=ok`, `risk=low`) so the next step can branch on "
  ++ str "your results. Keep each value a single token.".
End Activation.

Definition assistant_text (data : json) : option rstr :=
  match data.["content"] with
  | JStr t => Some t
  | JArr items =>
      let parts := omap (fun item =>
        match item.["type"] with
        | JStr ty => if str_eqb ty (str "text") then as_str item.["text"] else None
        | _ => None
        end) items in
      if is_empty parts then None else Some (join [c_nl] parts)
  | _ => None
  end.

(** One whitespace-free token of an output line. *)
Definition parse_pair (pair : rstr) : option (rstr * rstr) :=
  eq ← find_char 61%N pair;
  let key := trim (take eq pair) in
  let value := trim (drop (eq + 1) pair) in
  if negb (is_empty key) && negb (is_empty value)
     && negb (existsb (N.eqb c_space) key)
     && match key with c :: _ => key_start c | [] => false end
  then Some (key, value) else None.

Definition output_pairs (text : rstr) : list (rstr * rstr) :=
  omap parse_pair (flat_map split_whitespace (lines text)).

Definition parse_agent_output (text : rstr) : json :=
  let m := fold_left (fun m '(k, v) => assoc_insert k (JStr v) m) (output_pairs text) [] in
  if is_empty m then JObj [(str "output", JStr text)] else JObj m.

(** ** Well-formed definitions *)

(** What each kind of node must carry. *)
Definition node_ok (n : MissionNode) : Prop :=
  match n_kind n with
  | Agent => blank (n_prompt n) = false /\ blank (n_backend n) = false /\
             (n_read_only n = true -> n_allowed_tools n <> [])
  | Input => n_value n <> None
  | Human | Output => True
  end.

(** Exactly the input nodes are roots. *)
Definition root_ok (def : MissionDefinition) (n : MissionNode) : Prop :=
  n_kind n = Input <-> forall e, e ∈ edges def -> e_to e <> n_id n.

Record structure_ok (def : MissionDefinition) : Prop := {
  so_input : exists n, n ∈ nodes def /\ n_kind n = Input;
  so_nodes : forall n, n ∈ nodes def -> node_ok n;
  so_roots : forall n, n ∈ nodes def -> root_ok def n
}.

Record definition_wf (def : MissionDefinition) : Prop := {
  wf_unique : NoDup (map n_id (nodes def));
  wf_edges : forall e, e ∈ edges def ->
    e_from e ∈ map n_id (nodes def) /\ e_to e ∈ map n_id (nodes def) /\
    is_valid_condition (e_condition e) = true;
  wf_structure : structure_ok def;
  wf_u32 : (0 <= concurrency (settings def) < 2 ^ 32)%Z /\
           (0 <= retries (settings def) < 2 ^ 32)%Z
}.

Lemma check_node_Ok n : check_node n = Ok tt <-> node_ok n.
Proof.
  unfold check_node, node_ok. destruct (n_kind n); [|..|done|done].
  - by destruct (n_value n).
  - destruct (blank (n_prompt n)); simpl; [by split; [|intros [? _]]|].
    destruct (blank (n_backend n)); simpl; [by split; [|intros (_ & ? & _)]|].
    rewrite bail_if_Ok, andb_false_iff.
    destruct (n_read_only n), (n_allowed_tools n); simpl; naive_solver.
Qed.

Lemma incoming_count_zero def id :
  incoming_count def id = 0 <-> forall e, e ∈ edges def -> e_to e <> id.
Proof.
  unfold incoming_count. rewrite count_zero.
  split; intros H e He; by apply str_eqb_neq, H.
Qed.

Lemma check_root_Ok def n : check_root def n = Ok tt <-> root_ok def n.
Proof.
  unfold check_root, root_ok. rewrite <-incoming_count_zero.
  destruct (n_kind n); rewrite bail_if_Ok.
  - rewrite Nat.ltb_ge. split; [intros; split; [lia|done]|]. intros [H _]; specialize (H eq_refl); lia.
  - rewrite Nat.eqb_neq. split; [by intros H; split|]. intros [_ H] H0; by specialize (H H0).
  - rewrite Nat.eqb_neq. split; [by intros H; split|]. intros [_ H] H0; by specialize (H H0).
  - rewrite Nat.eqb_neq. split; [by intros H; split|]. intros [_ H] H0; by specialize (H H0).
Qed.

Lemma validate_definition_Ok def : validate_definition def = Ok tt <-> structure_ok def.
Proof.
  unfold validate_definition.
  assert (bail_if (count (fun n => bool_decide (n_kind n = Input)) (nodes def) =? 0) NoInputNode
          = Ok tt <-> exists n, n ∈ nodes def /\ n_kind n = Input) as Hin.
  { rewrite bail_if_Ok, Nat.eqb_neq, count_zero. split.
    - intros H. destruct (existsb (fun n => bool_decide (n_kind n = Input)) (nodes def)) eqn:E.
      + apply existsb_elem in E as (n & Hn & Hk). bools. eauto.
      + destruct H. by apply existsb_elem_false.
    - intros (n & Hn & Hk) H. specialize (H n Hn). by rewrite bool_decide_eq_false in H. }
  split.
  - intros H. destruct (bail_if _ _) as [[]|]; [|done].
    destruct (iter_result check_node _) as [[]|] eqn:E; [|done].
    rewrite iter_result_Ok in E, H. split; [by apply Hin| |].
    + intros n Hn. by apply check_node_Ok, E.
    + intros n Hn. by apply check_root_Ok, H.
  - intros [Hi Hn Hr]. rewrite (proj2 Hin Hi).
    assert (iter_result check_node (nodes def) = Ok tt) as ->
      by (apply iter_result_Ok; intros; by apply check_node_Ok, Hn).
    apply iter_result_Ok. intros; by apply check_root_Ok, Hr.
Qed.

Lemma first_duplicate_None seen ids :
  first_duplicate seen ids = None <-> NoDup ids /\ forall i, i ∈ ids -> i ∉ seen.
Proof.
  revert seen; induction ids as [|i ids IH]; intros seen; simpl.
  - split; [|done]. split; [constructor|]. intros i Hi; by apply not_elem_of_nil in Hi.
  - assert (existsb (str_eqb i) seen = true <-> i ∈ seen) as Hs.
    { rewrite existsb_elem. split; [|intros; exists i; by rewrite str_eqb_refl].
      by intros (a & ? & ->%str_eqb_eq). }
    destruct (existsb (str_eqb i) seen).
    + split; [done|]. intros [_ H]. exfalso. apply (H i); [by left|by apply Hs].
    + rewrite IH, NoDup_cons. split.
      * intros [Hnd Hni]. repeat split; [|done|].
        -- intros Hi. apply (Hni i Hi). by left.
        -- intros j Hj Hjs. apply elem_of_cons in Hj as [->|Hj]; [by apply Hs in Hjs|].
           apply (Hni j Hj). by right.
      * intros [[Hi Hnd] Hni]. split; [done|]. intros j Hj.
        rewrite not_elem_of_cons. split; [by intros ->|]. apply Hni. by right.
Qed.

Lemma parse_edge_Ok ids j e :
  parse_edge ids j = Ok e ->
  e_from e ∈ ids /\ e_to e ∈ ids /\ is_valid_condition (e_condition e) = true.
Proof.
  unfold parse_edge. intros H.
  destruct (ok_or (as_str j.["from"]) _) as [from|]; [|done].
  destruct (ok_or (as_str j.["to"]) _) as [to|]; [|done].
  destruct (bail_if _ _) as [[]|] eqn:E; [|done].
  rewrite bail_if_Ok, orb_false_iff, !negb_false_iff, !existsb_elem in E.
  destruct E as [(a & ? & ->%str_eqb_eq) (b & ? & ->%str_eqb_eq)].
  destruct (as_str j.["condition"]) as [c|]; simplify_eq/=; [|done].
  destruct (bail_if _ _) as [[]|] eqn:E2; simplify_eq/=.
  by rewrite bail_if_Ok, negb_false_iff in E2.
Qed.

Lemma as_u32_range z : (0 <= as_u32 z < 2 ^ 32)%Z.
Proof. unfold as_u32. apply Z.mod_pos_bound. lia. Qed.

Lemma parse_definition_wf v d : parse_definition v = Ok d -> definition_wf d.
Proof.
  unfold parse_definition. intros H.
  destruct (ok_or (as_array v.["nodes"]) _) as [ns|]; [|done].
  destruct (map_result parse_node ns) as [nds|]; [|done].
  destruct (bail_if _ _) as [[]|]; [|done].
  destruct (first_duplicate [] _) eqn:Edup; [done|].
  destruct (ok_or (as_array v.["edges"]) _) as [es|]; [|done].
  destruct (map_result (parse_edge _) es) as [eds|] eqn:Ee; [|done].
  destruct (validate_definition _) as [[]|] eqn:Ev; [|done].
  injection H as <-. apply first_duplicate_None in Edup as [Hnd _].
  apply map_result_Ok in Ee. apply validate_definition_Ok in Ev.
  split; [done| |done|split; apply as_u32_range].
  intros e He. simpl in He. apply list_elem_of_lookup in He as [i He].
  destruct (Forall2_lookup_r _ _ _ _ _ Ee He) as (j & _ & Hj).
  by eapply parse_edge_Ok.
Qed.

Lemma activated_edges_elem `{JT : JsonText} es output settings i :
  i ∈ activated_edges es output settings <->
  exists e, es !! i = Some e /\
    (edge_matches (output_context output) settings e = true \/
     (edge_is_default e = true /\
      forall x, x ∈ es -> edge_matches (output_context output) settings x = false)).
Proof.
  unfold activated_edges.
  destruct (indices_where _ es) as [|k ks] eqn:E; simpl.
  - assert (forall x, x ∈ es -> edge_matches (output_context output) settings x = false) as Hno.
    { intros x Hx. destruct (edge_matches _ _ x) eqn:Em; [|done].
      apply list_elem_of_lookup in Hx as [j Hj].
      assert (j ∈ ([] : list nat)) as Hj0 by (rewrite <-E; apply indices_where_elem; eauto).
      by apply not_elem_of_nil in Hj0. }
    rewrite indices_where_elem. split.
    + intros (e & He & Hd). exists e. auto.
    + intros (e & He & [Hm|[Hd _]]); exists e; [|done].
      rewrite Hno in Hm; [done|]. by eapply list_elem_of_lookup_2.
  - rewrite <-E, indices_where_elem. split.
    + intros (e & He & Hm). exists e. auto.
    + intros (e & He & [Hm|[_ Hno]]); [by exists e|].
      assert (k ∈ indices_where (edge_matches (output_context output) settings) es) as Hk
        by (rewrite E; by left).
      apply indices_where_elem in Hk as (x & Hx & Hxm).
      rewrite Hno in Hxm; [done|]. by eapply list_elem_of_lookup_2.
Qed.

(** ** Agent output *)

Definition render_pair (kv : rstr * rstr) : rstr := kv.1 ++ str "=" ++ kv.2.

(** Keys the condition grammar can name, values that are single tokens. *)
Definition pair_wf (kv : rstr * rstr) : Prop := key_ok kv.1 = true /\ word kv.2.

Lemma render_pair_word kv : pair_wf kv -> word (render_pair kv).
Proof.
  intros [Hk [Hne Hv]]. unfold render_pair. change (str "=") with [61%N]. split.
  - intros H. by apply app_nil in H as [_ H].
  - intros x. rewrite !elem_of_app, list_elem_of_singleton. intros [Hx|[->|Hx]]; [|done|auto].
    eapply key_char_not_space, key_ok_chars; done.
Qed.

Lemma parse_pair_render kv : pair_wf kv -> parse_pair (render_pair kv) = Some kv.
Proof.
  destruct kv as [k v]. intros [Hk [Hne Hv]]; simpl in *.
  unfold parse_pair, render_pair. cbn [fst snd]. change (str "=") with [61%N]. cbn [app].
  assert (forall x, x ∈ k -> is_whitespace x = false /\ x <> 61%N) as Hc
    by (intros x Hx; split; eapply key_char_not_space, key_ok_chars; done).
  unfold find_char. rewrite find_index_app; [|intros x Hx; destruct (Hc x Hx); lia|done].
  simpl. rewrite take_app_length.
  replace (k ++ 61%N :: v) with ((k ++ [61%N]) ++ v) by (by rewrite <-app_assoc).
  rewrite drop_app_exact by (rewrite length_app; simpl; lia).
  rewrite !word_trim by (intros x Hx; first [by apply Hv | by apply Hc]).
  assert (existsb (N.eqb c_space) k = false) as ->.
  { apply existsb_elem_false. intros x Hx. apply N.eqb_neq. intros <-. by destruct (Hc _ Hx). }
  destruct k as [|c k]; [done|]. simpl in Hk. bools.
  destruct v as [|x v]; [done|]. simpl. by rewrite H.
Qed.

Lemma output_pairs_render kvs :
  Forall pair_wf kvs -> output_pairs (join [c_nl] (map render_pair kvs)) = kvs.
Proof.
  intros H. unfold output_pairs. rewrite lines_join.
  - induction H as [|kv kvs Hkv Hkvs IH]; [done|]. cbn [map flat_map].
    rewrite split_whitespace_word by (by apply render_pair_word). cbn [app].
    change (omap parse_pair (render_pair kv :: flat_map split_whitespace (map render_pair kvs)))
      with (match parse_pair (render_pair kv) with
            | Some y => y :: omap parse_pair (flat_map split_whitespace (map render_pair kvs))
            | None => omap parse_pair (flat_map split_whitespace (map render_pair kvs))
            end).
    by rewrite parse_pair_render, IH.
  - apply Forall_fmap. eapply Forall_impl; [exact H|]. apply render_pair_word.
Qed.

Definition insert_pairs (kvs : list (rstr * rstr)) (m : list (rstr * json)) : list (rstr * json) :=
  fold_left (fun m '(k, v) => assoc_insert k (JStr v) m) kvs m.

Lemma insert_pairs_lookup kvs m k :
  assoc k (insert_pairs kvs m) =
  match assoc k (reverse kvs) with Some v => Some (JStr v) | None => assoc k m end.
Proof.
  unfold insert_pairs. induction kvs as [|[k' v'] kvs IH] using rev_ind; [done|].
  rewrite fold_left_app, reverse_app. simpl. destruct (str_eqb k k') eqn:E.
  - apply str_eqb_eq in E as ->. by rewrite assoc_insert_eq.
  - apply str_eqb_neq in E. by rewrite assoc_insert_ne.
Qed.

Lemma parse_agent_output_render kvs :
  kvs <> [] -> Forall pair_wf kvs ->
  parse_agent_output (join [c_nl] (map render_pair kvs)) = JObj (insert_pairs kvs []).
Proof.
  intros Hne Hwf. unfold parse_agent_output. rewrite output_pairs_render by done.
  change (fold_left _ kvs []) with (insert_pairs kvs []).
  destruct (insert_pairs kvs []) eqn:E; [|done].
  destruct kvs as [|[k v] kvs] using rev_ind; [done|].
  assert (assoc k (insert_pairs (kvs ++ [(k, v)]) []) = Some (JStr v)) as H.
  { rewrite insert_pairs_lookup, reverse_app. simpl. by rewrite str_eqb_refl. }
  rewrite E in H. done.
Qed.

(** Only the last binding of a key counts. *)
Lemma parse_agent_output_get kvs k v :
  Forall pair_wf kvs -> assoc k (reverse kvs) = Some v ->
  get (parse_agent_output (join [c_nl] (map render_pair kvs))) k = Some (JStr v).
Proof.
  intros Hwf Hk. rewrite parse_agent_output_render; [|by intros ->|done].
  simpl. by rewrite insert_pairs_lookup, Hk.
Qed.

(** ** Properties *)

Definition demo_json : json :=
  let node id kind rest := JObj ((str "id", JStr (str id)) :: (str "kind", jstr kind) :: rest) in
  let edge a b rest := JObj ((str "from", jstr a) :: (str "to", jstr b) :: rest) in
  JObj [
    (str "nodes", JArr [
       node "in" "input" [(str "value", jint 7)];
       node "work" "agent" [(str "prompt", jstr "do it"); (str "backend", jstr "claude")];
       node "gate" "human" [];
       node "out" "output" [] ]);
    (str "edges", JArr [
       edge "in" "work" [];
       edge "work" "gate" [(str "condition", jstr "risk=high")];
       edge "work" "out" [];
       edge "gate" "out" [] ]);
    (str "settings", JObj [(str "concurrency", jint 3); (str "retries", jint 2)])
  ].

(** C34: whatever [parse_definition] accepts is well-formed: unique node ids,
    every edge between known nodes with a parsable (or default) condition, at
    least one input, exactly the inputs being roots, agents with prompt and
    backend, read-only agents with an allow-list, settings in [u32]. *)
Theorem parse_definition_sound (v : json) (d : MissionDefinition) :
  parse_definition v = Ok d -> definition_wf d.
Proof. apply parse_definition_wf. Qed.

Definition parsed (v : json) : MissionDefinition :=
  match parse_definition v with
  | Ok d => d
  | Err _ => {| nodes := []; edges := []; settings := parse_settings JNull |}
  end.

Lemma parse_definition_sound_witness :
  parse_definition demo_json = Ok (parsed demo_json) /\ definition_wf (parsed demo_json).
Proof.
  split; [vm_compute; reflexivity|].
  apply (parse_definition_sound demo_json). vm_compute. reflexivity.
Defined.

(** [validate_definition] accepts exactly the definitions satisfying the
    declarative root and content rules, and so reports an error on any other. *)
Theorem validate_definition_iff (def : MissionDefinition) :
  validate_definition def = Ok tt <-> structure_ok def.
Proof. apply validate_definition_Ok. Qed.

(** An edge group activates its matching conditional edges; its default
    edges fire exactly when no conditional edge matched. *)
Theorem activated_edges_spec `{JT : JsonText} (es : list MissionEdge) (output settings : json) (i : nat) :
  i ∈ activated_edges es output settings <->
  exists e, es !! i = Some e /\
    (edge_matches (output_context output) settings e = true \/
     (edge_is_default e = true /\
      forall x, x ∈ es -> edge_matches (output_context output) settings x = false)).
Proof. apply activated_edges_elem. Qed.

(** The agent output contract closes the loop: when the final message is
    one [key=value] line per pair, a downstream edge [key=value] is true for
    the last value written under that key and [key!=value] is false. *)
Theorem agent_output_drives_conditions `{JT : JsonText}
  (kvs : list (rstr * rstr)) (k v : rstr) (settings : json) (neg : bool) :
  Forall pair_wf kvs -> assoc k (reverse kvs) = Some v -> k <> str "output" ->
  clause_matches {| c_key := k; c_negate := neg; c_value := v |}
    (output_context (parse_agent_output (join [c_nl] (map render_pair kvs)))) settings
  = negb neg.
Proof.
  intros Hwf Hk Hout. unfold clause_matches. cbn [c_key c_negate c_value].
  pose proof (parse_agent_output_get kvs k v Hwf Hk) as Hget.
  destruct (parse_agent_output _) as [| | | | |m]; try done.
  unfold resolve_value, output_context. simpl in *.
  rewrite assoc_insert_ne, Hget by done. simpl. rewrite str_eqb_refl. by destruct neg.
Qed.

Lemma agent_output_drives_conditions_witness :
  @clause_matches demo_text {| c_key := str "status"; c_negate := false; c_value := str "ok" |}
    (output_context (parse_agent_output
       (join [c_nl] (map render_pair [(str "status", str "bad"); (str "status", str "ok")]))))
    JNull = true.
Proof.
  apply (@agent_output_drives_conditions demo_text
           [(str "status", str "bad"); (str "status", str "ok")] (str "status") (str "ok") JNull false).
  - repeat constructor; first [done | by apply forallb_elem_ws].
  - reflexivity.
  - apply (bool_decide_unpack _). vm_compute. exact I.
Defined.
