(* ===== verification/MissionSched.v ===== *)
(** * MissionSched: the convergence scheduler of [mission.rs]

    [MissionScheduler::settle], [apply_completion], [apply_respond],
    [cancel_all], [finish_run] and [derive_run_status] as functions on the
    in-memory task list.  What the scheduler does to the outside (a store
    write, an inbox row, a progress broadcast) is the list of [effect]s it
    returns, in program order; MissionStore interprets the store writes. *)

From S2P Require Import Prelude Str Json Condition MissionDef.

(** ** Data *)

Record MissionTaskState := {
  t_node : rstr;
  t_status : MissionTaskStatus;
  t_attempt : Z;
  t_output : option json;
  t_error : option rstr
}.

(** [store::MissionTaskTransition] *)
Record MissionTaskTransition := {
  tr_status : rstr;
  tr_attempt : Z;
  tr_output : option rstr;
  tr_error : option rstr;
  tr_stamp_started : bool;
  tr_stamp_ended : bool
}.

Record MissionAgentRequest := {
  rq_backend : rstr;
  rq_cwd : option rstr;
  rq_prompt : rstr;
  rq_allowed_tools : list rstr;
  rq_read_only : bool
}.

(** A broadcast event carries the node, the status and the attempt; [id] is the
    task it reports, kept for the statements about traces. *)
Inductive effect :=
| EPersist (node : rstr) (tr : MissionTaskTransition)
| EInbox (node : rstr)
| EBroadcast (node : option MissionNode) (id : rstr) (status : MissionTaskStatus) (attempt : Z)
| EMarkEnded
| EMarkCancelled.

Inductive MissionDecision := Approve | Feedback | Exclude.

Record MissionCommand := {
  cmd_node : rstr;
  cmd_decision : rstr;
  cmd_feedback : option rstr
}.

Definition set_status (t : MissionTaskState) (s : MissionTaskStatus) : MissionTaskState :=
  {| t_node := t_node t; t_status := s; t_attempt := t_attempt t;
     t_output := t_output t; t_error := t_error t |}.

Definition set_output (t : MissionTaskState) (o : json) : MissionTaskState :=
  {| t_node := t_node t; t_status := t_status t; t_attempt := t_attempt t;
     t_output := Some o; t_error := t_error t |}.

Definition set_error (t : MissionTaskState) (e : option rstr) : MissionTaskState :=
  {| t_node := t_node t; t_status := t_status t; t_attempt := t_attempt t;
     t_output := t_output t; t_error := e |}.

(** [t.attempt += 1] on a [u32]. *)
Definition bump_attempt (t : MissionTaskState) : MissionTaskState :=
  {| t_node := t_node t; t_status := t_status t; t_attempt := as_u32 (t_attempt t + 1);
     t_output := t_output t; t_error := t_error t |}.

(** The transition row for the state [t] is in. *)
Definition transition (t : MissionTaskState) (output error : option rstr) (started ended : bool)
  : MissionTaskTransition := {|
  tr_status := TaskStatus.as_str (t_status t);
  tr_attempt := t_attempt t;
  tr_output := output;
  tr_error := error;
  tr_stamp_started := started;
  tr_stamp_ended := ended |}.

(** The four states that need no more work, as the scheduler matches them. *)
Definition resolved (s : MissionTaskStatus) : bool :=
  match s with Succeeded | Failed | Cancelled | Excluded => true | _ => false end.

Definition all_terminal (tasks : list MissionTaskState) : bool :=
  forallb (fun t => resolved (t_status t)) tasks.

Definition find_task (tasks : list MissionTaskState) (id : rstr) : option MissionTaskState :=
  find_first (fun t => str_eqb (t_node t) id) tasks.

Definition find_index_task (tasks : list MissionTaskState) (id : rstr) : option nat :=
  find_index (fun t => str_eqb (t_node t) id) tasks.

(** The [statuses] snapshot: a map collected from the rows (a later row of the
    same id would win), with [Queued] for an unknown id. *)
Definition status_of (tasks : list MissionTaskState) (id : rstr) : MissionTaskStatus :=
  match find_first (fun t => str_eqb (t_node t) id) (reverse tasks) with
  | Some t => t_status t
  | None => Queued
  end.

Definition running_count (tasks : list MissionTaskState) : nat :=
  count (fun t => bool_decide (t_status t = Running)) tasks.

Definition broadcast_of (node : option MissionNode) (t : MissionTaskState) : effect :=
  EBroadcast node (t_node t) (t_status t) (t_attempt t).

Section Scheduler.
Context `{JT : JsonText}.
Variable def : MissionDefinition.

Definition find_node (id : rstr) : option MissionNode :=
  find_first (fun n => str_eqb (n_id n) id) (nodes def).

Definition max_running : nat :=
  Nat.min (Nat.max (Z.to_nat (concurrency (settings def))) 1) 64.

Definition settings_value : json :=
  JObj [(str "concurrency", jint (concurrency (settings def)));
        (str "retries", jint (retries (settings def)))].

(** ** [settle] *)

(** The [(from, to)] pairs an edge of a succeeded source activates. *)
Definition edge_activated (tasks : list MissionTaskState) (e : MissionEdge) : bool :=
  match find_first (fun t => bool_decide (t_status t = Succeeded) && str_eqb (t_node t) (e_from e)) tasks with
  | None => false
  | Some src =>
      let from_edges := List.filter (fun x => str_eqb (e_from x) (e_from e)) (edges def) in
      let hit i := match from_edges !! i with
                   | Some x => str_eqb (e_to x) (e_to e)
                   | None => false
                   end in
      existsb hit (activated_edges from_edges (default JNull (t_output src)) settings_value)
  end.

Definition activated_pairs (tasks : list MissionTaskState) : list (rstr * rstr) :=
  map (fun e => (e_from e, e_to e)) (List.filter (edge_activated tasks) (edges def)).

Definition incoming (id : rstr) : list MissionEdge :=
  List.filter (fun e => str_eqb (e_to e) id) (edges def).

(** Outputs of the succeeded upstream nodes, keyed by node id. *)
Definition upstream_outputs (tasks : list MissionTaskState) (inc : list MissionEdge) : json :=
  JObj (fold_left (fun m e =>
    match find_task tasks (e_from e) with
    | Some src =>
        match t_status src, t_output src with
        | Succeeded, Some o => assoc_insert (e_from e) o m
        | _, _ => m
        end
    | None => m
    end) inc []).

Inductive action :=
| Skip
| Transit (t' : MissionTaskState) (tr : MissionTaskTransition) (inbox : bool)
    (spawn : option MissionAgentRequest).

Definition agent_request (n : MissionNode) (upstream : json) : MissionAgentRequest := {|
  rq_backend := default [] (n_backend n);
  rq_cwd := n_cwd n;
  rq_prompt := build_agent_prompt (default (n_title n) (n_prompt n)) upstream;
  rq_allowed_tools := n_allowed_tools n;
  rq_read_only := n_read_only n |}.

(** What happens to one activated queued task, by node kind. *)
Definition activate (tasks : list MissionTaskState) (t : MissionTaskState) : action :=
  let succeed value :=
    let t' := set_output (set_status t Succeeded) value in
    Transit t' (transition t' (Some (to_string value)) None true true) false None in
  match find_node (t_node t) with
  | None => Skip
  | Some n =>
      match n_kind n with
      | Input => succeed (default JNull (n_value n))
      | Output => succeed (upstream_outputs tasks (incoming (t_node t)))
      | Human =>
          let t' := set_status t WaitingHuman in
          Transit t' (transition t' None None true false) true None
      | Agent =>
          if max_running <=? running_count tasks then Skip
          else
            let t' := set_status t Running in
            Transit t' (transition t' None None true false) false
              (Some (agent_request n (upstream_outputs tasks (incoming (t_node t)))))
      end
  end.

(** The per-node decision: [statuses] and [activated] are the snapshots taken
    at the start of the pass, [tasks] the live list. *)
Definition node_action (statuses : rstr -> MissionTaskStatus) (activated : list (rstr * rstr))
  (tasks : list MissionTaskState) (t : MissionTaskState) : action :=
  let inc := incoming (t_node t) in
  if existsb (fun e => negb (resolved (statuses (e_from e)))) inc then Skip
  else
    let any_activated :=
      is_empty inc
      || existsb (fun e => bool_decide ((e_from e, e_to e) ∈ activated)) inc in
    if negb any_activated
    then
      let t' := set_status t Cancelled in
      Transit t' (transition t' None None false true) false None
    else activate tasks t.

Record pass := {
  p_tasks : list MissionTaskState;
  p_effects : list effect;
  p_spawns : list (rstr * MissionAgentRequest);
  p_changed : bool
}.

Definition visit (statuses : rstr -> MissionTaskStatus) (activated : list (rstr * rstr))
  (p : pass) (idx : nat) : pass :=
  match p_tasks p !! idx with
  | None => p
  | Some t =>
      if negb (bool_decide (t_status t = Queued)) then p
      else match node_action statuses activated (p_tasks p) t with
      | Skip => p
      | Transit t' tr inbox spawn => {|
          p_tasks := <[idx := t']> (p_tasks p);
          p_effects := p_effects p ++ [EPersist (t_node t) tr]
            ++ (if inbox then [EInbox (t_node t)] else [])
            ++ [broadcast_of (find_node (t_node t)) t'];
          p_spawns := p_spawns p ++
            match spawn with Some rq => [(t_node t, rq)] | None => [] end;
          p_changed := true |}
      end
  end.

(** One pass over all tasks. *)
Definition settle_pass (p : pass) : pass :=
  let start := {| p_tasks := p_tasks p; p_effects := p_effects p;
                  p_spawns := p_spawns p; p_changed := false |} in
  fold_left (visit (status_of (p_tasks p)) (activated_pairs (p_tasks p)))
    (seq 0 (length (p_tasks p))) start.

(** The outer [loop]: passes until one changes nothing. *)
Fixpoint settle_loop (fuel : nat) (p : pass) : option pass :=
  match fuel with
  | 0 => None
  | S f =>
      let p' := settle_pass p in
      if p_changed p' then settle_loop f p' else Some p'
  end.

Definition pass_of (tasks : list MissionTaskState) : pass :=
  {| p_tasks := tasks; p_effects := []; p_spawns := []; p_changed := false |}.

Definition settle (tasks : list MissionTaskState) : option pass :=
  settle_loop (S (length tasks)) (pass_of tasks).

(** ** Completions, human answers, cancellation *)

Definition retry_budget : Z := Z.min (retries (settings def)) 10.

Definition apply_completion (tokens : gmap rstr Z) (cancelled : bool)
  (tasks : list MissionTaskState) (id : rstr) (token : Z) (outcome : result json rstr)
  : list MissionTaskState * list effect :=
  if negb (bool_decide (tokens !! id = Some token)) then (tasks, [])
  else if cancelled then (tasks, [])
  else match find_index_task tasks id with
  | None => (tasks, [])
  | Some idx =>
      match tasks !! idx with
      | None => (tasks, [])
      | Some t =>
          if negb (bool_decide (t_status t = Running)) then (tasks, [])
          else match find_node id with
          | None => (tasks, [])
          | Some n =>
              let '(t', tr) :=
                match outcome with
                | Ok output =>
                    let t' := set_error (set_output (set_status t Succeeded) output) None in
                    (t', transition t' (Some (to_string output)) None false true)
                | Err err =>
                    let t1 := set_error t (Some err) in
                    if (t_attempt t <=? retry_budget)%Z then
                      let t' := set_status (bump_attempt t1) Queued in
                      (t', transition t' None (Some err) false false)
                    else
                      let t' := set_status t1 Failed in
                      (t', transition t' None (Some err) false true)
                end in
              (<[idx := t']> tasks, [EPersist id tr; broadcast_of (Some n) t'])
          end
      end
  end.

Definition parse_decision (s : rstr) : option MissionDecision :=
  if str_eqb s (str "approve") then Some Approve
  else if str_eqb s (str "feedback") then Some Feedback
  else if str_eqb s (str "exclude") then Some Exclude
  else None.

(** One sweep of the [excludeBranch] closure over the edge list. *)
Fixpoint grow (es : list MissionEdge) (excluded : list rstr) : list rstr :=
  match es with
  | [] => excluded
  | e :: r =>
      if existsb (str_eqb (e_from e)) excluded && negb (existsb (str_eqb (e_to e)) excluded)
      then grow r (e_to e :: excluded)
      else grow r excluded
  end.

Fixpoint exclude_closure (fuel : nat) (excluded : list rstr) : option (list rstr) :=
  match fuel with
  | 0 => None
  | S f =>
      let excluded' := grow (edges def) excluded in
      if length excluded' =? length excluded then Some excluded'
      else exclude_closure f excluded'
  end.

(** The sweep's fuel: every growing round adds at least one edge target. *)
Definition exclude_branch (id : rstr) : list rstr :=
  default [] (exclude_closure (S (length (edges def))) [id]).

Definition excludable (excluded : list rstr) (t : MissionTaskState) : bool :=
  existsb (str_eqb (t_node t)) excluded
  && match t_status t with Excluded | Succeeded => false | _ => true end.

Definition exclude_task (excluded : list rstr) (t : MissionTaskState)
  : MissionTaskState * list effect :=
  if excludable excluded t then
    let t' := set_status t Excluded in
    (t', [EPersist (t_node t) (transition t' None None false true)])
  else (t, []).

(** [tokens.entry(id).and_modify(|_| {}).or_insert(0)] for each excluded task. *)
Definition exclude_tokens (excluded : list rstr) (tasks : list MissionTaskState)
  (tokens : gmap rstr Z) : gmap rstr Z :=
  fold_left (fun m t =>
    if excludable excluded t
    then match m !! t_node t with Some _ => m | None => <[t_node t := 0%Z]> m end
    else m) tasks tokens.

Record respond_result := {
  r_tasks : list MissionTaskState;
  r_tokens : gmap rstr Z;
  r_effects : list effect
}.

Definition apply_respond (tokens : gmap rstr Z) (tasks : list MissionTaskState)
  (id decision : rstr) (feedback : option rstr) : respond_result :=
  let unchanged := {| r_tasks := tasks; r_tokens := tokens; r_effects := [] |} in
  match parse_decision decision with
  | None => unchanged
  | Some d =>
      match find_index_task tasks id with
      | None => unchanged
      | Some idx =>
          match tasks !! idx, find_node id with
          | Some t, Some n =>
              let finish t' tr := {|
                r_tasks := <[idx := t']> tasks; r_tokens := tokens;
                r_effects := [EPersist id tr; broadcast_of (Some n) t'] |} in
              match d with
              | Approve =>
                  if negb (bool_decide (t_status t = WaitingHuman)) then unchanged
                  else
                    let t' := set_output (set_status t Succeeded)
                                (JObj [(str "approved", JBool true)]) in
                    finish t' (transition t' feedback None false true)
              | Feedback =>
                  if negb (bool_decide (t_status t = WaitingHuman)) then unchanged
                  else
                    let t' := set_status (bump_attempt t) Queued in
                    finish t' (transition t' None feedback false false)
              | Exclude =>
                  match t_status t with
                  | WaitingHuman | Failed | Queued =>
                      let excluded := exclude_branch id in
                      let swept := map (exclude_task excluded) tasks in
                      let tasks' := map fst swept in
                      {| r_tasks := tasks';
                         r_tokens := exclude_tokens excluded tasks tokens;
                         r_effects := concat (map snd swept) ++
                           match find_task tasks' id with
                           | Some t' => [broadcast_of (Some n) t']
                           | None => []
                           end |}
                  | _ => unchanged
                  end
              end
          | _, _ => unchanged
          end
      end
  end.

Definition cancel_task (t : MissionTaskState) : MissionTaskState * list effect :=
  if resolved (t_status t) then (t, [])
  else
    let t' := set_status t Cancelled in
    (t', [EPersist (t_node t) (transition t' None None false true)]).

(** Poison every in-flight token, then settle the rows. *)
Definition cancel_all (tokens : gmap rstr Z) (token_seq : Z) (tasks : list MissionTaskState)
  : gmap rstr Z * Z * list MissionTaskState * list effect :=
  let poison := (token_seq + 1)%Z in
  let swept := map cancel_task tasks in
  ((fun _ => poison) <$> tokens, poison, map fst swept, concat (map snd swept)).

Definition finish_run (cancelled : bool) : list effect :=
  if cancelled then [EMarkCancelled] else [EMarkEnded].
End Scheduler.

(** ** Derived run status *)

Inductive RunStatus := RInterrupted | RCancelled | RRunning | RFailed | RSucceeded.

Definition run_status_str (s : RunStatus) : rstr :=
  match s with
  | RInterrupted => str "interrupted"
  | RCancelled => str "cancelled"
  | RRunning => str "running"
  | RFailed => str "failed"
  | RSucceeded => str "succeeded"
  end.

(** One persisted row: (node_id, status, attempt, output, error). *)
Record MissionTaskRow := {
  row_node : rstr; row_status : rstr; row_attempt : Z;
  row_output : option rstr; row_error : option rstr
}.

Definition terminal_str (s : rstr) : bool :=
  existsb (str_eqb s) [str "succeeded"; str "failed"; str "cancelled"; str "excluded"].

Definition derive_run_status (tasks : list MissionTaskRow) (interrupted ended cancelled : bool)
  : RunStatus :=
  if interrupted then RInterrupted
  else if cancelled then RCancelled
  else if forallb (fun t => terminal_str (row_status t)) tasks then
    if negb ended then RRunning
    else if existsb (fun t => str_eqb (row_status t) (str "failed")
                              || str_eqb (row_status t) (str "excluded")) tasks
    then RFailed
    else RSucceeded
  else RRunning.

(** [load_tasks]: an unknown status word reads as [Cancelled], unparsable
    output as none. *)
Definition load_task `{JT : JsonText} (r : MissionTaskRow) : MissionTaskState := {|
  t_node := row_node r;
  t_status := default Cancelled (TaskStatus.parse (row_status r));
  t_attempt := row_attempt r;
  t_output := row_output r ≫= from_str;
  t_error := row_error r |}.

Definition load_tasks `{JT : JsonText} (rows : list MissionTaskRow) : list MissionTaskState :=
  map load_task rows.

(** ** Facts: one visit *)

Section SettleFacts.
Context `{JT : JsonText}.
Variable def : MissionDefinition.
Implicit Types (p : pass) (ts : list MissionTaskState).

Definition queued_count ts : nat := count (fun t => bool_decide (t_status t = Queued)) ts.

(** Every transition out of [Queued] keeps the row's identity and attempt. *)
Lemma node_action_shape st ac ts t t' tr ib sp :
  t_status t = Queued ->
  node_action def st ac ts t = Transit t' tr ib sp ->
  t_node t' = t_node t /\ t_attempt t' = t_attempt t /\ t_status t' <> Queued /\
  tr_status tr = TaskStatus.as_str (t_status t') /\ tr_attempt tr = t_attempt t' /\
  (t_status t' = Running -> is_Some sp /\ running_count ts < max_running def) /\
  (is_Some sp -> t_status t' = Running) /\
  (ib = true <-> t_status t' = WaitingHuman).
Proof.
  intros Hq. unfold node_action, activate.
  case_match; [done|]. case_match; [intros [= <- <- <- <-]; simpl; naive_solver|].
  destruct (find_node def (t_node t)) as [n|]; [|done].
  destruct (n_kind n); [..|intros [= <- <- <- <-]; simpl; naive_solver].
  - intros [= <- <- <- <-]; simpl; naive_solver.
  - case_match eqn:E; [done|]. apply Nat.leb_gt in E.
    intros [= <- <- <- <-]; simpl. naive_solver eauto.
  - intros [= <- <- <- <-]; simpl; naive_solver.
Qed.

Variant visited (st : rstr -> MissionTaskStatus) (ac : list (rstr * rstr)) p idx : pass -> Prop :=
| visit_skip : visited st ac p idx p
| visit_transit t t' tr ib sp :
    p_tasks p !! idx = Some t -> t_status t = Queued ->
    node_action def st ac (p_tasks p) t = Transit t' tr ib sp ->
    visited st ac p idx {|
      p_tasks := <[idx := t']> (p_tasks p);
      p_effects := p_effects p ++ [EPersist (t_node t) tr]
        ++ (if ib : bool then [EInbox (t_node t)] else [])
        ++ [broadcast_of (find_node def (t_node t)) t'];
      p_spawns := p_spawns p ++ match sp with Some rq => [(t_node t, rq)] | None => [] end;
      p_changed := true |}.

Lemma visit_visited st ac p idx : visited st ac p idx (visit def st ac p idx).
Proof.
  unfold visit. destruct (p_tasks p !! idx) as [t|] eqn:Et; [|constructor].
  destruct (bool_decide (t_status t = Queued)) eqn:Eq; simpl; [|constructor].
  bools. destruct (node_action _ _ _ _ _) as [|t' tr ib sp] eqn:Ea; [constructor|].
  by econstructor.
Qed.

Definition with_changed p b : pass :=
  {| p_tasks := p_tasks p; p_effects := p_effects p; p_spawns := p_spawns p; p_changed := b |}.

Lemma settle_pass_eq p :
  settle_pass def p = fold_left (visit def (status_of (p_tasks p)) (activated_pairs def (p_tasks p)))
    (seq 0 (length (p_tasks p))) (with_changed p false).
Proof. done. Qed.

Lemma fold_visit_ind (P : pass -> Prop) st ac l p :
  (forall q i q', P q -> visited st ac q i q' -> P q') ->
  P p -> P (fold_left (visit def st ac) l p).
Proof.
  intros Hv. revert p; induction l as [|i l IH]; intros p Hp; simpl; [done|].
  apply IH. eapply Hv; [exact Hp|apply visit_visited].
Qed.

(** Whatever every visit preserves, [settle] preserves. *)
Lemma settle_loop_ind (P : pass -> Prop) fuel p p' :
  (forall q b, P q -> P (with_changed q b)) ->
  (forall st ac q i q', P q -> visited st ac q i q' -> P q') ->
  P p -> settle_loop def fuel p = Some p' -> P p'.
Proof.
  intros Hc Hv. revert p; induction fuel as [|f IH]; intros p Hp; simpl; [done|].
  assert (P (settle_pass def p)) as Hp'.
  { rewrite settle_pass_eq. apply fold_visit_ind; [|by apply Hc]. intros; by eapply Hv. }
  destruct (p_changed (settle_pass def p)); [by apply IH|]. by intros [= <-].
Qed.

Lemma settle_ind (P : pass -> Prop) ts p :
  (forall q b, P q -> P (with_changed q b)) ->
  (forall st ac q i q', P q -> visited st ac q i q' -> P q') ->
  P (pass_of ts) -> settle def ts = Some p -> P p.
Proof. intros ? ? ?. by eapply settle_loop_ind. Qed.

Lemma insert_nodes ts idx t t' :
  ts !! idx = Some t -> t_node t' = t_node t ->
  map t_node (<[idx := t']> ts) = map t_node ts.
Proof.
  intros Ht Hn. change (t_node <$> <[idx := t']> ts = t_node <$> ts).
  rewrite list_fmap_insert, Hn, list_insert_id; [done|]. by rewrite list_lookup_fmap, Ht.
Qed.

(** ** Termination of [settle] *)

Lemma visited_queued st ac p i p' :
  visited st ac p i p' ->
  queued_count (p_tasks p') <= queued_count (p_tasks p) /\
  length (p_tasks p') = length (p_tasks p) /\
  (p_changed p' = true -> p_changed p = true \/ queued_count (p_tasks p') < queued_count (p_tasks p)).
Proof.
  intros [|t t' tr ib sp Ht Hq Ha]; [by auto|]. simpl.
  apply node_action_shape in Ha as (_ & _ & Hnq & _); [|done].
  pose proof (count_insert (fun t => bool_decide (t_status t = Queued)) _ _ _ t' Ht) as Hc.
  simpl in Hc. rewrite bool_decide_eq_true_2, bool_decide_eq_false_2 in Hc by done.
  unfold queued_count. rewrite length_insert. split; [|split]; [lia|done|right; lia].
Qed.

Lemma settle_pass_queued p :
  length (p_tasks (settle_pass def p)) = length (p_tasks p) /\
  (p_changed (settle_pass def p) = true ->
   queued_count (p_tasks (settle_pass def p)) < queued_count (p_tasks p)).
Proof.
  rewrite settle_pass_eq.
  set (Inv := fun q => length (p_tasks q) = length (p_tasks p) /\
    queued_count (p_tasks q) <= queued_count (p_tasks p) /\
    (p_changed q = true -> queued_count (p_tasks q) < queued_count (p_tasks p))).
  assert (Inv (fold_left (visit def (status_of (p_tasks p)) (activated_pairs def (p_tasks p)))
    (seq 0 (length (p_tasks p))) (with_changed p false))) as (? & _ & ?); [|done].
  apply fold_visit_ind; [|split; [done|split; [done|done]]].
  intros q i q' (Hlen & Hle & Hch) Hv.
  apply visited_queued in Hv as (Hq & Hl & Hc). split; [congruence|]. split; [lia|].
  intros H. destruct (Hc H) as [H'|H']; [specialize (Hch H')|]; lia.
Qed.

Lemma settle_loop_total fuel p :
  queued_count (p_tasks p) < fuel -> exists p', settle_loop def fuel p = Some p' /\ p_changed p' = false.
Proof.
  revert p; induction fuel as [|f IH]; intros p Hf; [lia|]. simpl.
  destruct (settle_pass_queued p) as [_ Hq].
  destruct (p_changed (settle_pass def p)) eqn:E; [|by eauto].
  apply IH. specialize (Hq eq_refl). lia.
Qed.

Lemma settle_terminates ts : exists p, settle def ts = Some p /\ p_changed p = false.
Proof. apply settle_loop_total. pose proof (count_le_length (fun t => bool_decide (t_status t = Queued)) ts). unfold queued_count; simpl. lia. Qed.

(** The last pass of [settle] was one that changed nothing. *)
Lemma settle_loop_last fuel p p' :
  settle_loop def fuel p = Some p' -> p_changed p' = false /\ exists q, settle_pass def q = p'.
Proof.
  revert p; induction fuel as [|f IH]; intros p; simpl; [done|].
  destruct (p_changed (settle_pass def p)) eqn:E; [apply IH|]. intros [= <-]. eauto.
Qed.

Lemma fold_visit_unchanged st ac l p :
  p_changed (fold_left (visit def st ac) l p) = false ->
  fold_left (visit def st ac) l p = p /\ forall i, i ∈ l -> visit def st ac p i = p.
Proof.
  revert p; induction l as [|i l IH]; intros p H; simpl in *.
  - split; [done|]. intros i Hi; by apply not_elem_of_nil in Hi.
  - destruct (IH _ H) as [Heq Hl]. rewrite Heq in H.
    assert (visit def st ac p i = p) as Hsk
      by (revert H; by destruct (visit_visited st ac p i)).
    rewrite Hsk in *. split; [done|]. intros j Hj. apply elem_of_cons in Hj as [->|Hj]; eauto.
Qed.

(** At the end of [settle] no queued task can move. *)
Lemma settle_stable ts p t :
  settle def ts = Some p -> t ∈ p_tasks p -> t_status t = Queued ->
  node_action def (status_of (p_tasks p)) (activated_pairs def (p_tasks p)) (p_tasks p) t = Skip.
Proof.
  intros Hs Ht Hq. apply settle_loop_last in Hs as (Hch & q & Hpass).
  rewrite settle_pass_eq in Hpass. rewrite <-Hpass in Hch.
  apply fold_visit_unchanged in Hch as [Heq Hall]. rewrite Heq in Hpass.
  assert (p_tasks p = p_tasks q) as Hpq by (by rewrite <-Hpass). rewrite Hpq in *.
  apply list_elem_of_lookup in Ht as [i Hi].
  assert (i ∈ seq 0 (length (p_tasks q))) as Hin.
  { apply elem_of_seq. apply lookup_lt_Some in Hi. lia. }
  specialize (Hall i Hin). unfold visit in Hall. simpl in Hall. rewrite Hi in Hall.
  rewrite bool_decide_eq_true_2 in Hall by done. simpl in Hall.
  destruct (node_action _ _ _ _ _); [done|]. apply (f_equal p_changed) in Hall. done.
Qed.

(** ** What [settle] keeps *)

Lemma settle_nodes ts p : settle def ts = Some p -> map t_node (p_tasks p) = map t_node ts.
Proof.
  apply (settle_ind (fun p => map t_node (p_tasks p) = map t_node ts)); [done| |done].
  intros st ac q i q' Hq [|t t' tr ib sp Ht Hst Ha]; [done|]. simpl.
  apply node_action_shape in Ha as (Hn & _); [|done]. by rewrite insert_nodes with (t := t).
Qed.

(** Tasks outside [Queued] are not touched; attempts never move. *)
Lemma settle_pointwise ts p i t :
  settle def ts = Some p -> ts !! i = Some t ->
  exists t', p_tasks p !! i = Some t' /\ t_node t' = t_node t /\ t_attempt t' = t_attempt t /\
    (t_status t <> Queued -> t' = t).
Proof.
  intros Hs Ht. revert Hs.
  apply (settle_ind (fun p => exists t', p_tasks p !! i = Some t' /\ t_node t' = t_node t /\
    t_attempt t' = t_attempt t /\ (t_status t <> Queued -> t' = t))); [done| |simpl; by exists t].
  intros st ac q j q' (t1 & Hq1 & Hn1 & Ha1 & Hk1) [|t0 t' tr ib sp Ht0 Hst Ha]; [by exists t1|]. simpl.
  apply node_action_shape in Ha as (Hn & Hat & _); [|done].
  destruct (decide (j = i)) as [->|Hne].
  - assert (t0 = t1) as -> by congruence.
    exists t'. rewrite list_lookup_insert_eq by (by apply lookup_lt_Some in Ht0).
    repeat split; [congruence..|]. intros H. specialize (Hk1 H); congruence.
  - exists t1. by rewrite list_lookup_insert_ne.
Qed.

Lemma settle_running_bound ts p :
  settle def ts = Some p -> running_count ts <= max_running def ->
  running_count (p_tasks p) <= max_running def.
Proof.
  intros Hs Hb. revert Hs.
  apply (settle_ind (fun p => running_count (p_tasks p) <= max_running def)); [done| |done].
  intros st ac q i q' Hq [|t t' tr ib sp Ht Hst Ha]; [done|]. simpl.
  apply node_action_shape in Ha as (_ & _ & _ & _ & _ & Hr & _); [|done].
  pose proof (count_insert (fun t => bool_decide (t_status t = Running)) _ _ _ t' Ht) as Hc.
  simpl in Hc. rewrite (bool_decide_eq_false_2 (t_status t = Running)) in Hc by congruence.
  unfold running_count in *. destruct (decide (t_status t' = Running)) as [Hrun|Hrun].
  - rewrite bool_decide_eq_true_2 in Hc by done. destruct (Hr Hrun) as [_ Hlt]. lia.
  - rewrite bool_decide_eq_false_2 in Hc by done. lia.
Qed.
End SettleFacts.

(** ** The task state machine

    The life of one task, independent of the scheduling around it. *)

Section TaskMachine.
Context `{JT : JsonText}.
Variable def : MissionDefinition.

Definition node_kind (id : rstr) : option MissionNodeKind := n_kind <$> find_node def id.

Inductive task_step : MissionTaskState -> MissionTaskState -> Prop :=
| ts_settle t t' :
    t_status t = Queued -> t_node t' = t_node t -> t_attempt t' = t_attempt t ->
    t_status t' <> Queued -> t_status t' <> Failed -> t_status t' <> Excluded ->
    (t_status t' = Running -> node_kind (t_node t) = Some Agent) ->
    (t_status t' = WaitingHuman -> node_kind (t_node t) = Some Human) ->
    task_step t t'
| ts_finished t t' :
    t_status t = Running -> t_node t' = t_node t -> t_attempt t' = t_attempt t ->
    t_status t' = Succeeded \/ (t_status t' = Failed /\ (retry_budget def < t_attempt t)%Z) ->
    task_step t t'
| ts_retry t t' :
    t_status t = Running -> t_node t' = t_node t -> (t_attempt t <= retry_budget def)%Z ->
    t_status t' = Queued -> t_attempt t' = as_u32 (t_attempt t + 1) -> task_step t t'
| ts_approved t t' :
    t_status t = WaitingHuman -> t_node t' = t_node t -> t_attempt t' = t_attempt t ->
    t_status t' = Succeeded -> task_step t t'
| ts_feedback t t' :
    t_status t = WaitingHuman -> t_node t' = t_node t ->
    t_status t' = Queued -> t_attempt t' = as_u32 (t_attempt t + 1) -> task_step t t'
| ts_excluded t :
    t_status t <> Succeeded -> t_status t <> Excluded -> task_step t (set_status t Excluded)
| ts_cancelled t :
    resolved (t_status t) = false -> task_step t (set_status t Cancelled).

(** [b] is [a] or may follow it: success and exclusion are final, the other
    terminal states can only become an exclusion. *)
Definition status_le (a b : MissionTaskStatus) : Prop :=
  a = b \/ match a with
           | Succeeded | Excluded => False
           | Failed | Cancelled => b = Excluded
           | _ => True
           end.

#[global] Instance status_le_preorder : PreOrder status_le.
Proof.
  split; [by left|]. intros a b c [->|H1] [->|H2]; [by left|by right|by right|].
  right. destruct a, b; try done; by subst.
Qed.

Lemma task_step_status t t' : task_step t t' -> status_le (t_status t) (t_status t').
Proof.
  destruct 1 as [t t' H ? ? ? ? ? ? ?|t t' H|t t' H|t t' H|t t' H|t H1 H2|t H];
    try (right; rewrite H; done).
  - right. simpl. by destruct (t_status t).
  - right. simpl. by destruct (t_status t).
Qed.

Lemma task_star_node t t' : star task_step t t' -> t_node t' = t_node t.
Proof. induction 1 as [|s u v Hs _ IH]; [done|]. rewrite IH. by destruct Hs. Qed.

Lemma task_star_status t t' : star task_step t t' -> status_le (t_status t) (t_status t').
Proof.
  induction 1 as [|s u v Hs _ IH]; [done|]. etrans; [by apply task_step_status|done].
Qed.

(** What holds of every task of a run. *)
Record task_ok (t : MissionTaskState) : Prop := {
  ok_running : t_status t = Running -> node_kind (t_node t) = Some Agent;
  ok_waiting : t_status t = WaitingHuman -> node_kind (t_node t) = Some Human;
  ok_attempt : node_kind (t_node t) = Some Agent ->
    (1 <= t_attempt t <= retry_budget def + 1)%Z
}.

Lemma task_step_ok t t' :
  (0 <= retries (settings def))%Z -> task_ok t -> task_step t t' -> task_ok t'.
Proof.
  intros Hret [Hr Hw Ha] Hs.
  assert (0 <= retry_budget def <= 10)%Z as Hbud by (unfold retry_budget; lia).
  assert (forall z, (0 <= z <= 10)%Z -> as_u32 (z + 1) = z + 1)%Z as Hu32
    by (intros z Hz; unfold as_u32; apply Z.mod_small; lia).
  destruct Hs as [t t' H Hn Hat ? ? ? Hr' Hw'|t t' H Hn Hat Ho|t t' H Hn Hle Hq Hat
    |t t' H Hn Hat Hs'|t t' H Hn Hq Hat|t H1 H2|t H]; split; simpl; rewrite ?Hn, ?Hat;
    try done; try congruence; try (intros Hx; destruct Ho as [Ho|[Ho _]]; congruence).
  - intros Hk. rewrite Hu32; [specialize (Ha Hk)|specialize (Ha Hk)]; lia.
  - intros Hk. specialize (Hw H). congruence.
Qed.

Lemma task_star_ok t t' :
  (0 <= retries (settings def))%Z -> task_ok t -> star task_step t t' -> task_ok t'.
Proof. intros Hret Hok Hs. eapply star_invariant; [|exact Hs|exact Hok]. eauto using task_step_ok. Qed.

(** Pointwise moves of a task list. *)
Definition moves : list MissionTaskState -> list MissionTaskState -> Prop :=
  Forall2 (star task_step).

Lemma moves_refl ts : moves ts ts.
Proof. apply Forall2_same_length_lookup_2; [done|]. intros i x y Hx Hy. simplify_eq. constructor. Qed.

Lemma moves_trans ts1 ts2 ts3 : moves ts1 ts2 -> moves ts2 ts3 -> moves ts1 ts3.
Proof.
  intros H1. revert ts3. induction H1 as [|x y l k Hxy Hlk IH]; intros ts3 H2;
    inversion H2; subst; constructor; [by eapply star_trans_steps|by apply IH].
Qed.

Lemma moves_insert ts i t t' :
  ts !! i = Some t -> star task_step t t' -> moves ts (<[i := t']> ts).
Proof.
  intros Ht Hs. apply Forall2_same_length_lookup_2; [by rewrite length_insert|].
  intros j x y Hx Hy. destruct (decide (i = j)) as [->|Hne].
  - rewrite list_lookup_insert_eq in Hy by (by apply lookup_lt_Some in Ht). congruence.
  - rewrite list_lookup_insert_ne in Hy by done. simplify_eq. constructor.
Qed.

Lemma moves_map (f : MissionTaskState -> MissionTaskState) ts :
  (forall t, star task_step t (f t)) -> moves ts (map f ts).
Proof. intros Hf. induction ts as [|t ts IH]; simpl; constructor; auto. Qed.

Lemma moves_nodes ts ts' : moves ts ts' -> map t_node ts' = map t_node ts.
Proof.
  induction 1 as [|t t' ts ts' Ht _ IH]; simpl; [done|]. by rewrite IH, (task_star_node t t').
Qed.

Lemma moves_elem ts ts' t' :
  moves ts ts' -> t' ∈ ts' -> exists t, t ∈ ts /\ star task_step t t'.
Proof.
  intros H Ht. apply list_elem_of_lookup in Ht as [i Hi].
  destruct (Forall2_lookup_r _ _ _ _ _ H Hi) as (t & Ht & ?).
  exists t. split; [by eapply list_elem_of_lookup_2|done].
Qed.

(** ** Every scheduler operation moves tasks along the machine *)

Lemma activate_step st ac ts t t' tr ib sp :
  t_status t = Queued -> node_action def st ac ts t = Transit t' tr ib sp -> task_step t t'.
Proof.
  intros Hq. unfold node_action, activate.
  case_match; [done|]. case_match.
  { intros [= <- <- <- <-]. by apply ts_settle. }
  destruct (find_node def (t_node t)) as [n|] eqn:En; [|done].
  assert (node_kind (t_node t) = Some (n_kind n)) as Hk by (unfold node_kind; by rewrite En).
  destruct (n_kind n); [..|intros [= <- <- <- <-]; by apply ts_settle].
  - intros [= <- <- <- <-]; by apply ts_settle.
  - case_match; [done|]. intros [= <- <- <- <-]; by apply ts_settle.
  - intros [= <- <- <- <-]; by apply ts_settle.
Qed.

Lemma settle_moves ts p : settle def ts = Some p -> moves ts (p_tasks p).
Proof.
  apply (settle_ind def (fun p => moves ts (p_tasks p))); [done| |apply moves_refl].
  intros st ac q i q' Hq [|t t' tr ib sp Ht Hst Ha]; [done|]. simpl.
  eapply moves_trans; [exact Hq|]. eapply moves_insert; [done|].
  apply star_one. by eapply activate_step.
Qed.

(** What every operation but [settle] does to a task: nothing, or one step
    that starts no work and asks nobody. *)
Definition quiet_step (t t' : MissionTaskState) : Prop :=
  t' = t \/ (task_step t t' /\ t_status t' <> Running /\ t_status t' <> WaitingHuman).

Definition quiet : list MissionTaskState -> list MissionTaskState -> Prop := Forall2 quiet_step.

Lemma quiet_refl ts : quiet ts ts.
Proof. induction ts; constructor; [by left|done]. Qed.

Lemma quiet_insert ts i t t' :
  ts !! i = Some t -> task_step t t' -> t_status t' <> Running -> t_status t' <> WaitingHuman ->
  quiet ts (<[i := t']> ts).
Proof.
  intros Ht Hs Hr Hw. apply Forall2_same_length_lookup_2; [by rewrite length_insert|].
  intros j x y Hx Hy. destruct (decide (i = j)) as [->|Hne].
  - rewrite list_lookup_insert_eq in Hy by (by apply lookup_lt_Some in Ht).
    simplify_eq. by right.
  - rewrite list_lookup_insert_ne in Hy by done. simplify_eq. by left.
Qed.

Lemma quiet_map (f : MissionTaskState -> MissionTaskState) ts :
  (forall t, quiet_step t (f t)) -> quiet ts (map f ts).
Proof. intros Hf. induction ts as [|t ts IH]; simpl; constructor; auto. Qed.

Lemma quiet_moves ts ts' : quiet ts ts' -> moves ts ts'.
Proof.
  intros H. eapply Forall2_impl; [exact H|]. intros t t' [->|[Hs _]]; [constructor|by apply star_one].
Qed.

Lemma completion_quiet tokens c ts id tok o :
  quiet ts (apply_completion def tokens c ts id tok o).1.
Proof.
  unfold apply_completion. repeat (case_match; try apply quiet_refl).
  all: simplify_eq/=; bools; (eapply quiet_insert; [done| |done|done]).
  - by apply ts_finished; auto.
  - apply ts_retry; try done. by apply Z.leb_le.
  - apply ts_finished; try done. right. split; [done|]. by apply Z.leb_gt.
Qed.

Lemma exclude_quiet ex ts : quiet ts (map fst (map (exclude_task ex) ts)).
Proof.
  rewrite map_map. apply quiet_map. intros u. unfold exclude_task, excludable.
  destruct (existsb _ _); simpl; [|by left].
  destruct (t_status u) eqn:Eu; simpl; first [by left|right];
    (split; [apply ts_excluded; congruence|done]).
Qed.

Lemma respond_quiet tokens ts id d fb :
  quiet ts (r_tasks (apply_respond def tokens ts id d fb)).
Proof.
  unfold apply_respond.
  destruct (parse_decision d) as [dec|]; [|apply quiet_refl].
  destruct (find_index_task ts id) as [i|]; [|apply quiet_refl].
  destruct (ts !! i) as [t|] eqn:Ht; [|apply quiet_refl].
  destruct (find_node def id); [|apply quiet_refl].
  destruct dec; simpl.
  - case_bool_decide; simpl; [|apply quiet_refl]. eapply quiet_insert; [done| |done|done].
    by apply ts_approved.
  - case_bool_decide; simpl; [|apply quiet_refl]. eapply quiet_insert; [done| |done|done].
    by apply ts_feedback.
  - destruct (t_status t); simpl; first [apply quiet_refl | apply exclude_quiet].
Qed.

Lemma cancel_quiet ts : quiet ts (map fst (map cancel_task ts)).
Proof.
  rewrite map_map. apply quiet_map. intros t. unfold cancel_task.
  destruct (resolved (t_status t)) eqn:E; simpl; [by left|].
  right. split; [by apply ts_cancelled|by split].
Qed.
End TaskMachine.
