(* ===== verification/MissionStore.v ===== *)
(** * MissionStore: the mission tables of [store.rs]

    Each table is the list of its rows in insertion order and each [Store]
    method the function its SQL statement denotes; [now] is what
    [datetime('now')] reads.  A method whose statement can violate a key
    constraint returns a [result]. *)

From S2P Require Import Prelude Str Json Rows MissionDef MissionSched.

(** ** Rows *)

Record flow_row := { fl_id : rstr; fl_version : Z; fl_name : rstr; fl_definition : rstr }.

Record run_row := {
  ru_id : rstr; ru_flow : rstr; ru_version : Z; ru_snapshot : rstr;
  ru_interrupted : bool; ru_created : rstr; ru_ended : option rstr; ru_cancelled : bool
}.

Record task_row := {
  ta_id : rstr; ta_run : rstr; ta_node : rstr; ta_status : rstr; ta_attempt : Z;
  ta_output : option rstr; ta_error : option rstr;
  ta_started : option rstr; ta_ended : option rstr
}.

Record inbox_row := {
  ib_id : nat; ib_task : rstr; ib_run : rstr; ib_node : rstr; ib_status : rstr;
  ib_decision : option rstr; ib_feedback : option rstr;
  ib_created : rstr; ib_resolved : option rstr
}.

Record mission_store := {
  ms_flows : list flow_row;
  ms_runs : list run_row;
  ms_tasks : list task_row;
  ms_inbox : list inbox_row;
  ms_inbox_seq : nat
}.

Inductive sql_error := PrimaryKeyViolation.

Definition with_flows st f := {| ms_flows := f; ms_runs := ms_runs st; ms_tasks := ms_tasks st;
  ms_inbox := ms_inbox st; ms_inbox_seq := ms_inbox_seq st |}.
Definition with_runs st r := {| ms_flows := ms_flows st; ms_runs := r; ms_tasks := ms_tasks st;
  ms_inbox := ms_inbox st; ms_inbox_seq := ms_inbox_seq st |}.
Definition with_tasks st t := {| ms_flows := ms_flows st; ms_runs := ms_runs st; ms_tasks := t;
  ms_inbox := ms_inbox st; ms_inbox_seq := ms_inbox_seq st |}.
Definition with_inbox st i := {| ms_flows := ms_flows st; ms_runs := ms_runs st;
  ms_tasks := ms_tasks st; ms_inbox := i; ms_inbox_seq := ms_inbox_seq st |}.

(** [format!("{run_id}:{node_id}")] *)
Definition task_id (run node : rstr) : rstr := run ++ str ":" ++ node.

(** ** Flows *)

Definition max_version (flow : rstr) (l : list flow_row) : Z :=
  fold_left Z.max (map fl_version (List.filter (fun r => str_eqb (fl_id r) flow) l)) 0%Z.

Definition create_mission_flow (st : mission_store) (flow name definition : rstr)
  : mission_store * Z :=
  let next := (max_version flow (ms_flows st) + 1)%Z in
  (with_flows st (ms_flows st ++
     [{| fl_id := flow; fl_version := next; fl_name := name; fl_definition := definition |}]),
   next).

Definition latest_mission_flow (st : mission_store) (flow : rstr) : option (Z * rstr * rstr) :=
  let rows := sort_by (fun a b => (fl_version b <=? fl_version a)%Z)
                (List.filter (fun r => str_eqb (fl_id r) flow) (ms_flows st)) in
  (fun r => (fl_version r, fl_name r, fl_definition r)) <$> head rows.

(** ** Runs *)

Definition create_mission_run (now : rstr) (st : mission_store)
  (run flow : rstr) (version : Z) (snapshot : rstr) : result mission_store sql_error :=
  if existsb (fun r => str_eqb (ru_id r) run) (ms_runs st) then Err PrimaryKeyViolation
  else Ok (with_runs st (ms_runs st ++
    [{| ru_id := run; ru_flow := flow; ru_version := version; ru_snapshot := snapshot;
        ru_interrupted := false; ru_created := now; ru_ended := None; ru_cancelled := false |}])).

Definition mission_run (st : mission_store) (run : rstr)
  : option (rstr * rstr * Z * bool * bool * bool) :=
  (fun r => (ru_snapshot r, ru_flow r, ru_version r, ru_interrupted r,
             bool_decide (is_Some (ru_ended r)), ru_cancelled r)) <$>
  find_first (fun r => str_eqb (ru_id r) run) (ms_runs st).

(** [ORDER BY created_at DESC, run_id DESC] *)
Definition run_newest_first (a b : run_row) : bool :=
  if str_eqb (ru_created a) (ru_created b) then str_leb (ru_id b) (ru_id a)
  else str_leb (ru_created b) (ru_created a).

Definition mission_runs_list (st : mission_store) : list run_row :=
  sort_by run_newest_first (ms_runs st).

Definition update_run (run : rstr) (f : run_row -> run_row) (st : mission_store) : mission_store :=
  with_runs st (update_where (fun r => str_eqb (ru_id r) run) f (ms_runs st)).

Definition set_interrupted (r : run_row) : run_row := {|
  ru_id := ru_id r; ru_flow := ru_flow r; ru_version := ru_version r;
  ru_snapshot := ru_snapshot r; ru_interrupted := true; ru_created := ru_created r;
  ru_ended := ru_ended r; ru_cancelled := ru_cancelled r |}.

Definition set_ended (now : rstr) (r : run_row) : run_row := {|
  ru_id := ru_id r; ru_flow := ru_flow r; ru_version := ru_version r;
  ru_snapshot := ru_snapshot r; ru_interrupted := ru_interrupted r; ru_created := ru_created r;
  ru_ended := Some now; ru_cancelled := ru_cancelled r |}.

Definition set_run_cancelled (now : rstr) (r : run_row) : run_row := {|
  ru_id := ru_id r; ru_flow := ru_flow r; ru_version := ru_version r;
  ru_snapshot := ru_snapshot r; ru_interrupted := ru_interrupted r; ru_created := ru_created r;
  ru_ended := coalesce (ru_ended r) (Some now); ru_cancelled := true |}.

Definition mark_mission_interrupted (st : mission_store) (run : rstr) : mission_store :=
  update_run run set_interrupted st.

Definition mark_mission_ended (now : rstr) (st : mission_store) (run : rstr) : mission_store :=
  update_run run (set_ended now) st.

Definition mark_mission_run_cancelled (now : rstr) (st : mission_store) (run : rstr)
  : mission_store := update_run run (set_run_cancelled now) st.

(** ** Tasks *)

(** [INSERT OR IGNORE] with the column defaults. *)
Definition insert_mission_task (st : mission_store) (run node : rstr) : mission_store :=
  let id := task_id run node in
  if existsb (fun r => str_eqb (ta_id r) id) (ms_tasks st) then st
  else with_tasks st (ms_tasks st ++
    [{| ta_id := id; ta_run := run; ta_node := node; ta_status := str "queued";
        ta_attempt := 1%Z; ta_output := None; ta_error := None;
        ta_started := None; ta_ended := None |}]).

Definition row_of (r : task_row) : MissionTaskRow := {|
  row_node := ta_node r; row_status := ta_status r; row_attempt := ta_attempt r;
  row_output := ta_output r; row_error := ta_error r |}.

Definition mission_tasks (st : mission_store) (run : rstr) : list MissionTaskRow :=
  map row_of (sort_by (fun a b => str_leb (ta_node a) (ta_node b))
    (List.filter (fun r => str_eqb (ta_run r) run) (ms_tasks st))).

Definition apply_transition (now : rstr) (tr : MissionTaskTransition) (r : task_row) : task_row := {|
  ta_id := ta_id r; ta_run := ta_run r; ta_node := ta_node r;
  ta_status := tr_status tr;
  ta_attempt := tr_attempt tr;
  ta_output := coalesce (tr_output tr) (ta_output r);
  ta_error := coalesce (tr_error tr) (ta_error r);
  ta_started := if tr_stamp_started tr then Some now else ta_started r;
  ta_ended := if tr_stamp_ended tr then Some now else ta_ended r |}.

Definition set_mission_task_status (now : rstr) (st : mission_store) (run node : rstr)
  (tr : MissionTaskTransition) : mission_store :=
  with_tasks st (update_where (fun r => str_eqb (ta_id r) (task_id run node))
    (apply_transition now tr) (ms_tasks st)).

(** ** Inbox *)

Definition insert_mission_inbox (now : rstr) (st : mission_store) (run node : rstr)
  : mission_store :=
  let id := S (ms_inbox_seq st) in
  {| ms_flows := ms_flows st; ms_runs := ms_runs st; ms_tasks := ms_tasks st;
     ms_inbox := ms_inbox st ++
       [{| ib_id := id; ib_task := task_id run node; ib_run := run; ib_node := node;
           ib_status := str "pending"; ib_decision := None; ib_feedback := None;
           ib_created := now; ib_resolved := None |}];
     ms_inbox_seq := id |}.

Definition pending_for (task : rstr) (r : inbox_row) : bool :=
  str_eqb (ib_task r) task && str_eqb (ib_status r) (str "pending").

Definition resolve_row (now decision : rstr) (feedback : option rstr) (r : inbox_row) : inbox_row := {|
  ib_id := ib_id r; ib_task := ib_task r; ib_run := ib_run r; ib_node := ib_node r;
  ib_status := str "resolved"; ib_decision := Some decision; ib_feedback := feedback;
  ib_created := ib_created r; ib_resolved := Some now |}.

(** The update's sub-select picks the lowest pending id; the flag is [n > 0]. *)
Definition resolve_mission_inbox (now : rstr) (st : mission_store)
  (run node decision : rstr) (feedback : option rstr) : mission_store * bool :=
  let task := task_id run node in
  let rows := sort_by (fun a b => ib_id a <=? ib_id b)
                (List.filter (pending_for task) (ms_inbox st)) in
  match head rows with
  | None => (st, false)
  | Some picked =>
      let hit r := ib_id r =? ib_id picked in
      (with_inbox st (update_where hit (resolve_row now decision feedback) (ms_inbox st)),
       existsb hit (ms_inbox st))
  end.

Definition mission_inbox_for_run (st : mission_store) (run : rstr) : list inbox_row :=
  sort_by (fun a b => str_leb (ib_created a) (ib_created b))
    (List.filter (fun r => str_eqb (ib_run r) run) (ms_inbox st)).

(** ** Boot recovery *)

Definition unfinished (s : rstr) : bool :=
  existsb (str_eqb s) [str "queued"; str "running"; str "waiting_human"].

Definition cancel_row (now : rstr) (r : task_row) : task_row := {|
  ta_id := ta_id r; ta_run := ta_run r; ta_node := ta_node r;
  ta_status := str "cancelled"; ta_attempt := ta_attempt r;
  ta_output := ta_output r; ta_error := ta_error r;
  ta_started := ta_started r; ta_ended := Some now |}.

Definition close_row (now : rstr) (r : inbox_row) : inbox_row := {|
  ib_id := ib_id r; ib_task := ib_task r; ib_run := ib_run r; ib_node := ib_node r;
  ib_status := str "resolved"; ib_decision := Some (str "cancelled");
  ib_feedback := ib_feedback r; ib_created := ib_created r; ib_resolved := Some now |}.

Definition orphaned (st : mission_store) (r : run_row) : bool :=
  negb (bool_decide (is_Some (ru_ended r))) && negb (ru_interrupted r)
  && existsb (fun t => str_eqb (ta_run t) (ru_id r) && unfinished (ta_status t)) (ms_tasks st).

Definition recover_run (now : rstr) (st : mission_store) (run : rstr) : mission_store :=
  let st1 := update_run run set_interrupted st in
  let st2 := with_tasks st1 (update_where
    (fun t => str_eqb (ta_run t) run && unfinished (ta_status t)) (cancel_row now) (ms_tasks st1)) in
  with_inbox st2 (update_where
    (fun i => str_eqb (ib_run i) run && str_eqb (ib_status i) (str "pending"))
    (close_row now) (ms_inbox st2)).

Definition recover_interrupted_mission_runs (now : rstr) (live : list rstr) (st : mission_store)
  : mission_store * list rstr :=
  let runs := List.filter (fun id => negb (existsb (str_eqb id) live))
                (map ru_id (List.filter (orphaned st) (ms_runs st))) in
  (fold_left (recover_run now) runs st, runs).

(** ** The scheduler's effects on the store *)

Definition apply_effect (now run : rstr) (st : mission_store) (e : effect) : mission_store :=
  match e with
  | EPersist node tr => set_mission_task_status now st run node tr
  | EInbox node => insert_mission_inbox now st run node
  | EBroadcast _ _ _ _ => st
  | EMarkEnded => mark_mission_ended now st run
  | EMarkCancelled => mark_mission_run_cancelled now st run
  end.

Definition apply_effects (now run : rstr) (es : list effect) (st : mission_store) : mission_store :=
  fold_left (apply_effect now run) es st.

(** Status and attempt of the stored row of one task. *)
Definition stored (run : rstr) (st : mission_store) (node : rstr) : option (rstr * Z) :=
  (fun r => (ta_status r, ta_attempt r)) <$>
  find_first (fun r => str_eqb (ta_id r) (task_id run node)) (ms_tasks st).

(** Every broadcast of the trace reports exactly what the store holds then. *)
Fixpoint honest (now run : rstr) (es : list effect) (st : mission_store) : Prop :=
  match es with
  | [] => True
  | e :: r =>
      match e with
      | EBroadcast _ node s a => stored run st node = Some (TaskStatus.as_str s, a)
      | _ => True
      end /\ honest now run r (apply_effect now run st e)
  end.

(** The rows of a run mirror the scheduler's task list. *)
Definition mirrors (run : rstr) (st : mission_store) (tasks : list MissionTaskState) : Prop :=
  forall t, t ∈ tasks ->
    stored run st (t_node t) = Some (TaskStatus.as_str (t_status t), t_attempt t).

(** ** Facts: row updates *)

Lemma task_id_inj run n n' : task_id run n = task_id run n' -> n = n'.
Proof. unfold task_id. intros H. apply app_inv_head in H. by apply app_inv_head in H. Qed.

Lemma stored_other_tables run st st' n :
  ms_tasks st' = ms_tasks st -> stored run st' n = stored run st n.
Proof. unfold stored. by intros ->. Qed.

Lemma stored_set now run st node tr n :
  stored run (set_mission_task_status now st run node tr) n =
  if decide (n = node)
  then (fun _ => (tr_status tr, tr_attempt tr)) <$> stored run st n
  else stored run st n.
Proof.
  unfold stored, set_mission_task_status. simpl.
  rewrite find_first_update by done. rewrite <-!option_fmap_compose.
  destruct (find_first _ (ms_tasks st)) as [r|] eqn:E; simpl; [|by case_decide].
  apply find_first_Some in E as [_ Hid]. apply str_eqb_eq in Hid.
  case_decide as Hn; subst.
  - by rewrite Hid, str_eqb_refl.
  - rewrite Hid. assert (str_eqb (task_id run n) (task_id run node) = false) as ->; [|done].
    apply str_eqb_neq. intros H. by apply Hn, (task_id_inj run).
Qed.

Lemma honest_app now run es1 es2 st :
  honest now run (es1 ++ es2) st <->
  honest now run es1 st /\ honest now run es2 (apply_effects now run es1 st).
Proof.
  revert st; induction es1 as [|e es1 IH]; intros st; simpl; [tauto|]. rewrite IH. tauto.
Qed.

Lemma apply_effects_app now run es1 es2 st :
  apply_effects now run (es1 ++ es2) st = apply_effects now run es2 (apply_effects now run es1 st).
Proof. apply fold_left_app. Qed.

Lemma stored_apply_silent now run st n e :
  match e with EPersist _ _ => False | _ => True end ->
  stored run (apply_effect now run st e) n = stored run st n.
Proof. by destruct e. Qed.

(** ** Facts: the mirror *)

Section Mirror.
Variables (now run : rstr).

Lemma nodes_lookup_inj (ts : list MissionTaskState) i j t u :
  NoDup (map t_node ts) -> ts !! i = Some t -> ts !! j = Some u ->
  t_node t = t_node u -> i = j.
Proof.
  intros Hnd Ht Hu Heq. apply (NoDup_lookup (map t_node ts) i j (t_node u)); [done| |].
  - change ((t_node <$> ts) !! i = Some (t_node u)). by rewrite list_lookup_fmap, Ht, <-Heq.
  - change ((t_node <$> ts) !! j = Some (t_node u)). by rewrite list_lookup_fmap, Hu.
Qed.

Lemma mirrors_persist st ts i t t' tr :
  mirrors run st ts -> NoDup (map t_node ts) -> ts !! i = Some t -> t_node t' = t_node t ->
  tr_status tr = TaskStatus.as_str (t_status t') -> tr_attempt tr = t_attempt t' ->
  mirrors run (set_mission_task_status now st run (t_node t) tr) (<[i := t']> ts) /\
  stored run (set_mission_task_status now st run (t_node t) tr) (t_node t)
  = Some (TaskStatus.as_str (t_status t'), t_attempt t').
Proof.
  intros Hm Hnd Ht Hn Hs Ha.
  assert (stored run (set_mission_task_status now st run (t_node t) tr) (t_node t)
    = Some (TaskStatus.as_str (t_status t'), t_attempt t')) as Hst.
  { rewrite stored_set, decide_True by done.
    rewrite (Hm t) by (by eapply list_elem_of_lookup_2). simpl. by rewrite Hs, Ha. }
  split; [|done]. intros u Hu. apply list_elem_of_lookup in Hu as [j Hj].
  destruct (decide (j = i)) as [->|Hne].
  - rewrite list_lookup_insert_eq in Hj by (by apply lookup_lt_Some in Ht).
    injection Hj as <-. by rewrite Hn.
  - rewrite list_lookup_insert_ne in Hj by done.
    rewrite stored_set, decide_False; [apply Hm; by eapply list_elem_of_lookup_2|].
    intros Heq. apply Hne. by eapply nodes_lookup_inj.
Qed.

(** A task changed with its own persist and broadcast. *)
Lemma mirrors_transit st ts i t t' tr (ib : bool) n :
  mirrors run st ts -> NoDup (map t_node ts) -> ts !! i = Some t -> t_node t' = t_node t ->
  tr_status tr = TaskStatus.as_str (t_status t') -> tr_attempt tr = t_attempt t' ->
  let es := [EPersist (t_node t) tr] ++ (if ib then [EInbox (t_node t)] else [])
            ++ [broadcast_of n t'] in
  honest now run es st /\ mirrors run (apply_effects now run es st) (<[i := t']> ts).
Proof.
  intros Hm Hnd Ht Hn Hs Ha es.
  destruct (mirrors_persist st ts i t t' tr Hm Hnd Ht Hn Hs Ha) as [Hm' Hst].
  rewrite <-Hn in Hst at 2. subst es. destruct ib; simpl; (split; [|exact Hm']);
    repeat (split; [exact I|]); (split; [exact Hst|exact I]).
Qed.

Lemma settle_mirrors `{JT : JsonText} def st ts p :
  mirrors run st ts -> NoDup (map t_node ts) -> settle def ts = Some p ->
  honest now run (p_effects p) st /\
  mirrors run (apply_effects now run (p_effects p) st) (p_tasks p).
Proof.
  intros Hm Hnd Hs.
  enough (honest now run (p_effects p) st /\
    mirrors run (apply_effects now run (p_effects p) st) (p_tasks p) /\
    NoDup (map t_node (p_tasks p))) as (? & ? & _) by done.
  revert Hs. apply (settle_ind def (fun p => honest now run (p_effects p) st /\
    mirrors run (apply_effects now run (p_effects p) st) (p_tasks p) /\
    NoDup (map t_node (p_tasks p)))); [done| |done].
  intros sts ac q i q' (Hh & Hmq & Hndq) [|t t' tr ib sp Ht Hst Ha]; [done|]. simpl.
  apply node_action_shape in Ha as (Hn & _ & _ & Hts & Hta & _); [|done].
  rewrite honest_app, apply_effects_app.
  destruct (mirrors_transit (apply_effects now run (p_effects q) st) (p_tasks q) i t t' tr ib
    (find_node def (t_node t)) Hmq Hndq Ht Hn Hts Hta) as [Hh' Hm'].
  split; [done|]. split; [done|]. by erewrite insert_nodes.
Qed.

(** A sweep rewrites each task at most once, with its persist. *)
Definition sweep_ok (f : MissionTaskState -> MissionTaskState * list effect) : Prop :=
  forall t, t_node (f t).1 = t_node t /\
    ((f t = (t, [])) \/
     exists tr, (f t).2 = [EPersist (t_node t) tr] /\
       tr_status tr = TaskStatus.as_str (t_status (f t).1) /\ tr_attempt tr = t_attempt (f t).1).

Lemma sweep_mirrors f st ts :
  sweep_ok f -> mirrors run st ts -> NoDup (map t_node ts) ->
  let es := concat (map snd (map f ts)) in
  honest now run es st /\ mirrors run (apply_effects now run es st) (map fst (map f ts)) /\
  forall n, n ∉ map t_node ts -> stored run (apply_effects now run es st) n = stored run st n.
Proof.
  intros Hf. revert st; induction ts as [|t ts IH]; intros st Hm Hnd; simpl.
  - split; [done|]. split; [|done]. intros u Hu; by apply not_elem_of_nil in Hu.
  - simpl in Hnd. apply NoDup_cons in Hnd as [Hni Hnd].
    destruct (Hf t) as [Hn Hft].
    set (st1 := apply_effects now run (f t).2 st).
    assert (stored run st1 (t_node t) = Some (TaskStatus.as_str (t_status (f t).1), t_attempt (f t).1)
      /\ (forall n, n <> t_node t -> stored run st1 n = stored run st n)
      /\ honest now run (f t).2 st) as (Hst & Hoth & Hh1).
    { subst st1. destruct Hft as [-> | (tr & -> & Hs & Ha)].
      - split; [|done]. apply Hm. by left.
      - simpl. rewrite stored_set, decide_True, (Hm t) by (done || by left).
        simpl. rewrite Hs, Ha. split; [done|]. split; [|done].
        intros n Hne. by rewrite stored_set, decide_False. }
    assert (mirrors run st1 ts) as Hm1.
    { intros u Hu. rewrite Hoth; [apply Hm; by right|]. intros Heq. apply Hni.
      rewrite <-Heq. apply list_elem_of_In, in_map. by apply list_elem_of_In. }
    destruct (IH st1 Hm1 Hnd) as (Hh & Hm2 & Hout).
    rewrite honest_app, apply_effects_app. split; [done|]. split.
    + intros u Hu. apply elem_of_cons in Hu as [->|Hu]; [|by apply Hm2].
      rewrite Hn. fold st1. by rewrite Hout.
    + intros n Hnn. apply not_elem_of_cons in Hnn as [Hne Hnn].
      fold st1. rewrite Hout by done. by apply Hoth.
Qed.

Lemma cancel_task_sweep : sweep_ok cancel_task.
Proof.
  intros t. unfold cancel_task. destruct (resolved (t_status t)); simpl; [by auto|].
  split; [done|]. right. by eexists.
Qed.

Lemma exclude_task_sweep ex : sweep_ok (exclude_task ex).
Proof.
  intros t. unfold exclude_task. destruct (excludable ex t); simpl; [|by auto].
  split; [done|]. right. by eexists.
Qed.
End Mirror.
