(* ===== verification/MissionRun.v ===== *)
(** * MissionRun: one mission run as a state machine

    [MissionScheduler::run] of [mission.rs] as a step relation over the
    scheduler's variables, the executors in flight, the completion and command
    channels, the registry entry of the run and the store; together with
    [MissionRegistry] and the [mission.start] / [mission.respond] /
    [mission.cancel] arms of [rpc.rs].  A loop iteration up to its [select!]
    is one step; executors, answers and cancellation interleave between
    iterations. *)

From S2P Require Import Prelude Str Json Rows MissionDef MissionSched MissionStore.

(** ** The registry *)

(** [commands] is an [mpsc] channel of capacity 16 whose receiver the
    scheduler owns; [ch_open] tells whether it is still alive. *)
Record MissionRunChannels := {
  ch_cancelled : bool;
  ch_commands : list MissionCommand;
  ch_open : bool
}.

Definition COMMAND_CAP : nat := 16.

Module Registry.
Definition register (run : rstr) (reg : gmap rstr MissionRunChannels)
  : gmap rstr MissionRunChannels :=
  <[run := {| ch_cancelled := false; ch_commands := []; ch_open := true |}]> reg.

Definition finish (run : rstr) (reg : gmap rstr MissionRunChannels)
  : gmap rstr MissionRunChannels := delete run reg.

Definition cancel_chan (c : MissionRunChannels) : MissionRunChannels :=
  {| ch_cancelled := true; ch_commands := ch_commands c; ch_open := ch_open c |}.

Definition cancel (run : rstr) (reg : gmap rstr MissionRunChannels)
  : gmap rstr MissionRunChannels * bool :=
  match reg !! run with
  | Some c => (<[run := cancel_chan c]> reg, true)
  | None => (reg, false)
  end.

(** [try_send]: refused when the receiver is gone or the channel is full. *)
Definition try_send (c : MissionRunChannels) (cmd : MissionCommand)
  : option MissionRunChannels :=
  if negb (ch_open c) then None
  else if COMMAND_CAP <=? length (ch_commands c) then None
  else Some {| ch_cancelled := ch_cancelled c;
               ch_commands := ch_commands c ++ [cmd]; ch_open := ch_open c |}.

Definition send_command (run : rstr) (cmd : MissionCommand) (reg : gmap rstr MissionRunChannels)
  : gmap rstr MissionRunChannels * bool :=
  match reg !! run ≫= fun c => try_send c cmd with
  | Some c' => (<[run := c']> reg, true)
  | None => (reg, false)
  end.

(** [mission.watch] only needs the entry to exist. *)
Definition events_sender (run : rstr) (reg : gmap rstr MissionRunChannels) : bool :=
  bool_decide (is_Some (reg !! run)).

Definition live_run_ids (reg : gmap rstr MissionRunChannels) : list rstr :=
  (map_to_list reg).*1.
End Registry.

(** ** The run *)

Inductive control := Top | Waiting | Done.

#[export] Instance control_eq_dec : EqDecision control.
Proof. solve_decision. Defined.

Record run_state := {
  rs_tasks : list MissionTaskState;
  rs_tokens : gmap rstr Z;
  rs_token_seq : Z;
  rs_inflight : list (rstr * Z);
  rs_completions : list (rstr * Z * result json rstr);
  rs_chan : MissionRunChannels;
  rs_store : mission_store;
  rs_pc : control
}.

Definition set_chan (c : MissionRunChannels) (s : run_state) : run_state := {|
  rs_tasks := rs_tasks s; rs_tokens := rs_tokens s; rs_token_seq := rs_token_seq s;
  rs_inflight := rs_inflight s; rs_completions := rs_completions s;
  rs_chan := c; rs_store := rs_store s; rs_pc := rs_pc s |}.

Definition set_commands (l : list MissionCommand) (c : MissionRunChannels) : MissionRunChannels :=
  {| ch_cancelled := ch_cancelled c; ch_commands := l; ch_open := ch_open c |}.

Definition close_chan (c : MissionRunChannels) : MissionRunChannels :=
  {| ch_cancelled := ch_cancelled c; ch_commands := ch_commands c; ch_open := false |}.

Section Run.
Context `{JT : JsonText}.
Variables (def : MissionDefinition) (run : rstr) (now : rstr).

(** New task list, tokens and effects after one scheduler call. *)
Definition commit (s : run_state) (ts : list MissionTaskState) (tokens : gmap rstr Z)
  (es : list effect) : run_state := {|
  rs_tasks := ts; rs_tokens := tokens; rs_token_seq := rs_token_seq s;
  rs_inflight := rs_inflight s; rs_completions := rs_completions s;
  rs_chan := rs_chan s; rs_store := apply_effects now run es (rs_store s); rs_pc := rs_pc s |}.

Definition set_pc (pc : control) (s : run_state) : run_state := {|
  rs_tasks := rs_tasks s; rs_tokens := rs_tokens s; rs_token_seq := rs_token_seq s;
  rs_inflight := rs_inflight s; rs_completions := rs_completions s;
  rs_chan := rs_chan s; rs_store := rs_store s; rs_pc := pc |}.

Definition respond (s : run_state) (c : MissionCommand) : run_state :=
  let r := apply_respond def (rs_tokens s) (rs_tasks s)
             (cmd_node c) (cmd_decision c) (cmd_feedback c) in
  commit s (r_tasks r) (r_tokens r) (r_effects r).

Definition complete (s : run_state) (c : rstr * Z * result json rstr) : run_state :=
  let '(id, token, outcome) := c in
  let '(ts, es) := apply_completion def (rs_tokens s) (ch_cancelled (rs_chan s))
                     (rs_tasks s) id token outcome in
  commit s ts (rs_tokens s) es.

(** [self.token_seq += 1; self.tokens.insert(id, token); tokio::spawn(...)]. *)
Definition spawn (s : run_state) (sp : rstr * MissionAgentRequest) : run_state :=
  let token := (rs_token_seq s + 1)%Z in {|
  rs_tasks := rs_tasks s; rs_tokens := <[sp.1 := token]> (rs_tokens s); rs_token_seq := token;
  rs_inflight := rs_inflight s ++ [(sp.1, token)]; rs_completions := rs_completions s;
  rs_chan := rs_chan s; rs_store := rs_store s; rs_pc := rs_pc s |}.

(** The run returns: its effects land, and the command receiver is dropped. *)
Definition finish_state (s : run_state) : run_state :=
  let s' := commit s (rs_tasks s) (rs_tokens s) (finish_run (ch_cancelled (rs_chan s))) in
  set_pc Done (set_chan (close_chan (rs_chan s')) s').

(** The cancelled arm: poison the tokens, settle the rows, finish. *)
Definition cancel_state (s : run_state) : run_state :=
  let '(tokens, seq, ts, es) := cancel_all (rs_tokens s) (rs_token_seq s) (rs_tasks s) in
  finish_state {|
    rs_tasks := ts; rs_tokens := tokens; rs_token_seq := seq;
    rs_inflight := rs_inflight s; rs_completions := rs_completions s;
    rs_chan := rs_chan s; rs_store := apply_effects now run es (rs_store s);
    rs_pc := rs_pc s |}.

(** One loop iteration up to the [select!]. *)
Definition iterate (s : run_state) : option run_state :=
  if ch_cancelled (rs_chan s) then Some (cancel_state s)
  else
    let cmds := ch_commands (rs_chan s) in
    let s1 := fold_left respond cmds (set_chan (set_commands [] (rs_chan s)) s) in
    p ← settle def (rs_tasks s1);
    let s2 := commit s1 (p_tasks p) (rs_tokens s1) (p_effects p) in
    Some (if all_terminal (p_tasks p) then finish_state s2
          else set_pc Waiting (fold_left spawn (p_spawns p) s2)).

Inductive step : run_state -> run_state -> Prop :=
| step_iterate s s' :
    rs_pc s = Top -> iterate s = Some s' -> step s s'
| step_completion s c rest :
    rs_pc s = Waiting -> rs_completions s = c :: rest ->
    step s (set_pc Top (complete {|
      rs_tasks := rs_tasks s; rs_tokens := rs_tokens s; rs_token_seq := rs_token_seq s;
      rs_inflight := rs_inflight s; rs_completions := rest;
      rs_chan := rs_chan s; rs_store := rs_store s; rs_pc := rs_pc s |} c))
| step_command s c rest :
    rs_pc s = Waiting -> ch_commands (rs_chan s) = c :: rest ->
    step s (set_pc Top (respond (set_chan (set_commands rest (rs_chan s)) s) c))
| step_wake_cancelled s :
    rs_pc s = Waiting -> ch_cancelled (rs_chan s) = true -> step s (set_pc Top s)
| step_executor s i id token outcome :
    rs_inflight s !! i = Some (id, token) ->
    step s {|
      rs_tasks := rs_tasks s; rs_tokens := rs_tokens s; rs_token_seq := rs_token_seq s;
      rs_inflight := delete i (rs_inflight s);
      rs_completions := rs_completions s ++ [(id, token, outcome)];
      rs_chan := rs_chan s; rs_store := rs_store s; rs_pc := rs_pc s |}
| step_answer s id decision feedback st' :
    resolve_mission_inbox now (rs_store s) run id decision feedback = (st', true) ->
    is_Some (parse_decision decision) ->
    step s {|
      rs_tasks := rs_tasks s; rs_tokens := rs_tokens s; rs_token_seq := rs_token_seq s;
      rs_inflight := rs_inflight s; rs_completions := rs_completions s;
      rs_chan := default (rs_chan s)
        (Registry.try_send (rs_chan s)
           {| cmd_node := id; cmd_decision := decision; cmd_feedback := feedback |});
      rs_store := st'; rs_pc := rs_pc s |}
| step_cancel s : step s (set_chan (Registry.cancel_chan (rs_chan s)) s).

(** [mission.start]: register, insert the run and one queued row per node,
    and hand the loaded rows to a fresh scheduler. *)
Definition start_store (st : mission_store) (flow : rstr) (version : Z) (snapshot : rstr)
  : result mission_store sql_error :=
  let? st1 := create_mission_run now st run flow version snapshot in
  Ok (fold_left (fun st n => insert_mission_task st run (n_id n)) (nodes def) st1).

Definition start_state (st : mission_store) : run_state := {|
  rs_tasks := load_tasks (mission_tasks st run);
  rs_tokens := ∅; rs_token_seq := 0; rs_inflight := []; rs_completions := [];
  rs_chan := {| ch_cancelled := false; ch_commands := []; ch_open := true |};
  rs_store := st; rs_pc := Top |}.
End Run.

(** ** The RPC arms *)

(** The capability gate of [mission.start]: a registered backend for every
    agent node, and one that enforces an allow-list for read-only nodes. *)
Inductive start_refusal :=
| BackendUnavailable (backend node : rstr)
| NotSupported (backend node : rstr).

Definition check_backend (tool_allowlist : rstr -> option bool) (n : MissionNode)
  : result unit start_refusal :=
  match n_kind n with
  | Agent =>
      let backend := default [] (n_backend n) in
      match tool_allowlist backend with
      | Some cap =>
          if negb (n_read_only n) || cap then Ok tt else Err (NotSupported backend (n_id n))
      | None => Err (BackendUnavailable backend (n_id n))
      end
  | _ => Ok tt
  end.

Definition check_backends (tool_allowlist : rstr -> option bool) (def : MissionDefinition)
  : result unit start_refusal := iter_result (check_backend tool_allowlist) (nodes def).

Inductive respond_error := BadDecision | EmptyFeedback | NotPending.

(** [mission.respond]: validate, claim the inbox row, then hand the command
    to the run; the answer tells whether the run took it. *)
Definition mission_respond (now run node decision : rstr) (feedback : option rstr)
  (st : mission_store) (reg : gmap rstr MissionRunChannels)
  : mission_store * gmap rstr MissionRunChannels * result bool respond_error :=
  if negb (bool_decide (is_Some (parse_decision decision))) then (st, reg, Err BadDecision)
  else if str_eqb decision (str "feedback") && blank feedback then (st, reg, Err EmptyFeedback)
  else
    let '(st', won) := resolve_mission_inbox now st run node decision feedback in
    if negb won then (st', reg, Err NotPending)
    else
      let '(reg', live) := Registry.send_command run
        {| cmd_node := node; cmd_decision := decision; cmd_feedback := feedback |} reg in
      (st', reg', Ok live).
