(* ===== verification/MissionFacts.v ===== *)
(** * MissionFacts: what a settled mission looks like

    Facts about the scheduler functions of MissionSched that do not involve
    the run loop: the [excludeBranch] closure is downstream reachability, a
    settled acyclic mission is finished or waits for somebody, and
    [derive_run_status] against the rows. *)

From S2P Require Import Prelude Str Json Rows Condition MissionDef MissionSched.

(** ** [excludeBranch] *)

Section Exclude.
Variable def : MissionDefinition.

Definition edge_step (a b : rstr) : Prop :=
  exists e, e ∈ edges def /\ e_from e = a /\ e_to e = b.

(** [b] is [a] or downstream of it. *)
Definition downstream : rstr -> rstr -> Prop := star edge_step.

Lemma mem_elem (x : rstr) l : existsb (str_eqb x) l = true <-> x ∈ l.
Proof.
  rewrite existsb_elem. split.
  - intros (a & Ha & H). by apply str_eqb_eq in H as ->.
  - intros H. exists x. split; [done|]. apply str_eqb_refl.
Qed.

Lemma mem_elem_false (x : rstr) l : existsb (str_eqb x) l = false <-> x ∉ l.
Proof. rewrite <-not_true_iff_false, mem_elem. done. Qed.

Lemma grow_length es ex : length ex <= length (grow es ex).
Proof.
  revert ex; induction es as [|e es IH]; intros ex; simpl; [done|].
  case_match; [|apply IH]. etrans; [|apply IH]. simpl; lia.
Qed.

Lemma grow_subset es ex x : x ∈ ex -> x ∈ grow es ex.
Proof.
  revert ex; induction es as [|e es IH]; intros ex H; simpl; [done|].
  case_match; apply IH; [by right|done].
Qed.

Lemma grow_nodup es ex : NoDup ex -> NoDup (grow es ex).
Proof.
  revert ex; induction es as [|e es IH]; intros ex H; simpl; [done|].
  case_match eqn:E; apply IH; [|done]. bools. constructor; [|done]. by apply mem_elem_false.
Qed.

(** Everything the sweep adds is reached by an edge of the sweep. *)
Lemma grow_elem es ex x :
  (forall e, e ∈ es -> e ∈ edges def) -> x ∈ grow es ex ->
  (exists r, r ∈ ex /\ downstream r x) /\ (x ∈ ex \/ x ∈ map e_to es).
Proof.
  revert ex; induction es as [|e es IH]; intros ex Hes Hx; simpl in *.
  - split; [|by left]. exists x. split; [done|constructor].
  - assert (forall e', e' ∈ es -> e' ∈ edges def) as Hes' by (intros; apply Hes; by right).
    case_match eqn:E.
    + bools. apply mem_elem in H as Hf.
      destruct (IH _ Hes' Hx) as [(r & Hr & Hd) Hor]. split.
      * apply elem_of_cons in Hr as [->|Hr]; [|by eauto].
        exists (e_from e). split; [done|]. eapply star_step; [|done].
        exists e. split; [apply Hes; by left|done].
      * destruct Hor as [Hor|Hor]; [|right; by right].
        apply elem_of_cons in Hor as [->|Hor]; [right; by left|by left].
    + destruct (IH _ Hes' Hx) as [? [?|?]]; (split; [done|]); [by left|right; by right].
Qed.

(** A sweep that adds nothing leaves a set closed under the swept edges. *)
Lemma grow_fixpoint es ex :
  length (grow es ex) = length ex ->
  grow es ex = ex /\ forall e, e ∈ es -> e_from e ∈ ex -> e_to e ∈ ex.
Proof.
  revert ex; induction es as [|e es IH]; intros ex H; simpl in *.
  - split; [done|]. intros e He; by apply not_elem_of_nil in He.
  - case_match eqn:E.
    + pose proof (grow_length es (e_to e :: ex)) as Hl. simpl in Hl. lia.
    + destruct (IH _ H) as [-> Hc]. split; [done|]. intros e' He' Hf.
      apply elem_of_cons in He' as [->|He']; [|by eapply Hc].
      apply mem_elem in Hf. rewrite Hf in E. simpl in E. bools. by apply mem_elem.
Qed.

Lemma closure_spec fuel id ex :
  NoDup ex -> (forall x, x ∈ ex -> downstream id x /\ x ∈ id :: map e_to (edges def)) ->
  S (length (edges def)) < fuel + length ex -> id ∈ ex ->
  exists l, exclude_closure def fuel ex = Some l /\ forall x, x ∈ l <-> downstream id x.
Proof.
  revert ex; induction fuel as [|f IH]; intros ex Hnd Hin Hf Hid; simpl in *.
  { assert (length ex <= length (id :: map e_to (edges def))) as Hle.
    { apply submseteq_length, NoDup_submseteq; [done|]. intros x Hx; by apply Hin. }
    simpl in Hle. rewrite length_map in Hle. lia. }
  pose proof (grow_length (edges def) ex) as Hge.
  destruct (Nat.eqb_spec (length (grow (edges def) ex)) (length ex)) as [Heq|Hne].
  - destruct (grow_fixpoint _ _ Heq) as [-> Hc]. exists ex. split; [done|].
    intros x. split; [by apply Hin|]. intros Hd.
    eapply (star_invariant edge_step (fun y => y ∈ ex)); [|exact Hd|done].
    intros a b Ha (e & He & <- & <-). by apply Hc.
  - apply IH; [by apply grow_nodup| |lia|by apply grow_subset].
    intros x Hx. apply grow_elem in Hx as [(r & Hr & Hd) Hor]; [|done].
    destruct (Hin r Hr) as [Hdr _]. split; [by eapply star_trans_steps|].
    destruct Hor as [Hor|Hor]; [by apply Hin|by right].
Qed.

Lemma exclude_branch_downstream id x : x ∈ exclude_branch def id <-> downstream id x.
Proof.
  unfold exclude_branch.
  destruct (closure_spec (S (length (edges def))) id [id]) as (l & -> & Hl).
  - apply NoDup_singleton.
  - intros y Hy. apply list_elem_of_singleton in Hy as ->. split; [constructor|by left].
  - simpl. lia.
  - by left.
  - simpl. apply Hl.
Qed.
End Exclude.

(** ** Progress of a settled mission *)

Section Progress.
Context `{JT : JsonText}.
Variable def : MissionDefinition.
Implicit Types ts : list MissionTaskState.

(** A flow without cycles, by a rank that grows along every edge. *)
Definition acyclic : Prop :=
  exists rank : rstr -> nat, forall e, e ∈ edges def -> rank (e_from e) < rank (e_to e).

(** One task per node: what [mission.start] creates. *)
Definition covers ts : Prop :=
  NoDup (map t_node ts) /\ forall id, id ∈ map t_node ts <-> id ∈ map n_id (nodes def).

Lemma covers_elem ts id :
  covers ts -> id ∈ map n_id (nodes def) -> exists t, t ∈ ts /\ t_node t = id.
Proof.
  intros [_ Hc] Hid. apply Hc in Hid. apply list_elem_of_In, in_map_iff in Hid as (t & <- & Ht).
  exists t. by rewrite list_elem_of_In.
Qed.

Lemma status_of_elem ts t :
  NoDup (map t_node ts) -> t ∈ ts -> status_of ts (t_node t) = t_status t.
Proof.
  intros Hnd Ht. unfold status_of.
  destruct (find_first _ (reverse ts)) as [u|] eqn:E.
  - apply find_first_Some in E as [Hu Hn]. apply str_eqb_eq in Hn.
    rewrite elem_of_reverse in Hu.
    apply list_elem_of_lookup in Ht as [i Hi]. apply list_elem_of_lookup in Hu as [j Hj].
    assert (i = j) as -> by
      (eapply (NoDup_lookup (t_node <$> ts)); [done|by rewrite list_lookup_fmap, Hi|];
       rewrite list_lookup_fmap, Hj; simpl; by rewrite Hn).
    congruence.
  - apply (find_first_None _ _) with (a := t) in E; [|by rewrite elem_of_reverse].
    by rewrite str_eqb_refl in E.
Qed.

Lemma find_node_elem id : id ∈ map n_id (nodes def) -> is_Some (find_node def id).
Proof.
  intros Hid. apply list_elem_of_In, in_map_iff in Hid as (n & <- & Hn).
  unfold find_node. destruct (find_first _ _) eqn:E; [by eexists|].
  apply (find_first_None _ _) with (a := n) in E; [|by rewrite list_elem_of_In].
  by rewrite str_eqb_refl in E.
Qed.

(** A queued task whose upstream tasks are all resolved can move, unless it
    is an agent and all execution slots are taken. *)
Lemma ready_moves ts t :
  covers ts -> t ∈ ts -> t_status t = Queued ->
  (forall e, e ∈ incoming def (t_node t) -> resolved (status_of ts (e_from e)) = true) ->
  running_count ts < max_running def ->
  node_action def (status_of ts) (activated_pairs def ts) ts t <> Skip.
Proof.
  intros [Hnd Hcov] Ht Hq Hup Hrun. unfold node_action.
  assert (existsb (fun e => negb (resolved (status_of ts (e_from e)))) (incoming def (t_node t))
          = false) as ->.
  { apply existsb_elem_false. intros e He. by rewrite (Hup e He). }
  case_match; [done|]. unfold activate.
  destruct (find_node_elem (t_node t)) as [n ->].
  { apply Hcov, list_elem_of_In, in_map, list_elem_of_In, Ht. }
  destruct (n_kind n); try done.
  destruct (Nat.leb_spec (max_running def) (running_count ts)); [lia|done].
Qed.

Lemma incoming_elem e id : e ∈ incoming def id <-> e ∈ edges def /\ e_to e = id.
Proof.
  unfold incoming. rewrite list_elem_of_In, filter_In, <-list_elem_of_In, str_eqb_eq. done.
Qed.

(** Every queued task of an acyclic flow has a queued task upstream of it (or
    is one) whose own sources are all past [Queued]. *)
Lemma minimal_queued (rank : rstr -> nat) ts t :
  (forall e, e ∈ edges def -> rank (e_from e) < rank (e_to e)) ->
  definition_wf def -> covers ts -> t ∈ ts -> t_status t = Queued ->
  exists u, u ∈ ts /\ t_status u = Queued /\
    forall e, e ∈ incoming def (t_node u) -> status_of ts (e_from e) <> Queued.
Proof.
  intros Hrank Hwf Hcov. remember (rank (t_node t)) as k eqn:Hk.
  revert t Hk. induction k as [k IH] using lt_wf_ind. intros t -> Ht Hq.
  destruct (forallb (fun e => negb (bool_decide (status_of ts (e_from e) = Queued)))
              (incoming def (t_node t))) eqn:E.
  - exists t. split; [done|]. split; [done|]. intros e He. rewrite forallb_elem in E.
    specialize (E e He). by bools.
  - apply forallb_elem_false in E as (e & He & Hs). bools.
    apply incoming_elem in He as [He Hto].
    destruct (covers_elem ts (e_from e) Hcov) as (u & Hu & Hn);
      [by eapply wf_edges|].
    apply (IH (rank (t_node u))) with (t := u); [|done|done|].
    + rewrite Hn, <-Hto. by apply Hrank.
    + rewrite <-Hs, <-Hn. symmetry. apply status_of_elem; [apply Hcov|done].
Qed.

Lemma settled_waits ts p :
  definition_wf def -> acyclic -> covers (p_tasks p) ->
  settle def ts = Some p -> all_terminal (p_tasks p) = false ->
  exists t, t ∈ p_tasks p /\ (t_status t = Running \/ t_status t = WaitingHuman).
Proof.
  intros Hwf [rank Hrank] Hcov Hs Hterm.
  destruct (forallb (fun t => negb (bool_decide (t_status t = Running))
      && negb (bool_decide (t_status t = WaitingHuman))) (p_tasks p)) eqn:E.
  2:{ apply forallb_elem_false in E as (t & Ht & Hb). exists t. split; [done|].
      destruct (t_status t); auto; done. }
  exfalso. rewrite forallb_elem in E.
  apply forallb_elem_false in Hterm as (t & Ht & Hr).
  assert (t_status t = Queued) as Hq by (specialize (E t Ht); by destruct (t_status t)).
  destruct (minimal_queued rank (p_tasks p) t Hrank Hwf Hcov Ht Hq) as (u & Hu & Huq & Hup).
  pose proof (settle_stable def ts p u Hs Hu Huq) as Hskip.
  revert Hskip. apply ready_moves; [done|done|done| |].
  - intros e He. specialize (Hup e He). apply incoming_elem in He as [He _].
    destruct (covers_elem (p_tasks p) (e_from e) Hcov) as (v & Hv & Hn);
      [by eapply wf_edges|].
    rewrite <-Hn, (status_of_elem (p_tasks p) v) in * by (apply Hcov || done).
    specialize (E v Hv). by destruct (t_status v).
  - assert (running_count (p_tasks p) = 0) as ->; [|unfold max_running; lia].
    apply count_zero. intros v Hv. specialize (E v Hv). by destruct (t_status v).
Qed.
End Progress.
