(* ===== verification/MissionSafety.v ===== *)
(** * MissionSafety: what every reachable state of a mission run satisfies

    Safety invariants of the step relation of MissionRun: the store mirrors
    the scheduler's tasks and every broadcast is preceded by its persist, the
    concurrency and retry bounds, the number of executors ever started, and
    that every task only moves along the task state machine. *)

From S2P Require Import Prelude Str Json Rows Condition MissionDef MissionSched MissionStore MissionRun.
From S2P Require Import MissionFacts.

(** ** The operations against the store *)

Section Operations.
Context `{JT : JsonText}.
Variables (def : MissionDefinition) (run now : rstr).
Implicit Types (ts : list MissionTaskState) (st : mission_store).

(** The effects of an operation that turns [ts] into [ts'] keep the mirror. *)
Definition faithful st ts (ts' : list MissionTaskState) (es : list effect) : Prop :=
  honest now run es st /\ mirrors run (apply_effects now run es st) ts'.

Lemma faithful_none st ts : mirrors run st ts -> faithful st ts ts [].
Proof. by split. Qed.

Lemma find_index_task_Some ts id i t :
  find_index_task ts id = Some i -> ts !! i = Some t -> t_node t = id.
Proof.
  intros H Ht. apply find_index_Some in H as (u & Hu & Hn & _). simplify_eq.
  by apply str_eqb_eq in Hn.
Qed.

(** One task replaced, with its persist and its broadcast. *)
Lemma faithful_one st ts i t t' tr n :
  mirrors run st ts -> NoDup (map t_node ts) -> ts !! i = Some t -> t_node t' = t_node t ->
  tr_status tr = TaskStatus.as_str (t_status t') -> tr_attempt tr = t_attempt t' ->
  faithful st ts (<[i := t']> ts) [EPersist (t_node t) tr; broadcast_of n t'].
Proof.
  intros Hm Hnd Ht Hn Hs Ha. exact (mirrors_transit now run st ts i t t' tr false n Hm Hnd Ht Hn Hs Ha).
Qed.

Lemma completion_faithful st ts tokens c id tok o :
  mirrors run st ts -> NoDup (map t_node ts) ->
  let r := apply_completion def tokens c ts id tok o in faithful st ts r.1 r.2.
Proof.
  intros Hm Hnd. unfold apply_completion.
  destruct (negb (bool_decide (tokens !! id = Some tok))); [by apply faithful_none|].
  destruct c; [by apply faithful_none|].
  destruct (find_index_task ts id) as [i|] eqn:Ei; [|by apply faithful_none].
  destruct (ts !! i) as [t|] eqn:Ht; [|by apply faithful_none].
  destruct (negb _); [by apply faithful_none|].
  destruct (find_node def id) as [n|]; [|by apply faithful_none].
  pose proof (find_index_task_Some ts id i t Ei Ht) as <-.
  destruct o; [|destruct (t_attempt t <=? retry_budget def)%Z]; simpl; by eapply faithful_one.
Qed.

Lemma respond_faithful st ts tokens id d fb :
  mirrors run st ts -> NoDup (map t_node ts) ->
  let r := apply_respond def tokens ts id d fb in faithful st ts (r_tasks r) (r_effects r).
Proof.
  intros Hm Hnd. unfold apply_respond.
  destruct (parse_decision d) as [dec|]; [|by apply faithful_none].
  destruct (find_index_task ts id) as [i|] eqn:Ei; [|by apply faithful_none].
  destruct (ts !! i) as [t|] eqn:Ht; [|by apply faithful_none].
  destruct (find_node def id) as [n|]; [|by apply faithful_none].
  pose proof (find_index_task_Some ts id i t Ei Ht) as <-.
  assert (faithful st ts (map fst (map (exclude_task (exclude_branch def (t_node t))) ts))
    (concat (map snd (map (exclude_task (exclude_branch def (t_node t))) ts)) ++
     match find_task (map fst (map (exclude_task (exclude_branch def (t_node t))) ts)) (t_node t) with
     | Some t' => [broadcast_of (Some n) t'] | None => [] end)) as Hex.
  { destruct (sweep_mirrors now run _ st ts
      (exclude_task_sweep (exclude_branch def (t_node t))) Hm Hnd) as (Hh & Hm' & _).
    unfold faithful. rewrite honest_app, apply_effects_app.
    destruct (find_task _ _) as [u|] eqn:Eu; [|by split; [split|]].
    apply find_first_Some in Eu as [Hu Hn]. apply str_eqb_eq in Hn.
    split; [split; [exact Hh|]|exact Hm']. simpl. split; [|done]. by apply Hm'. }
  destruct dec; simpl.
  - case_bool_decide; simpl; [|by apply faithful_none]. by eapply faithful_one.
  - case_bool_decide; simpl; [|by apply faithful_none]. by eapply faithful_one.
  - destruct (t_status t); simpl; first [by apply faithful_none|exact Hex].
Qed.

Lemma cancel_faithful st ts :
  mirrors run st ts -> NoDup (map t_node ts) ->
  faithful st ts (map fst (map cancel_task ts)) (concat (map snd (map cancel_task ts))).
Proof.
  intros Hm Hnd. by destruct (sweep_mirrors now run _ st ts cancel_task_sweep Hm Hnd) as (? & ? & _).
Qed.
End Operations.

(** ** Executors started *)

Section Launches.
Context `{JT : JsonText}.
Variable def : MissionDefinition.

Definition is_agent (t : MissionTaskState) : bool := bool_decide (node_kind def (t_node t) = Some Agent).

(** An agent task at attempt [a] has used [a] executors, or [a - 1] while it
    waits for the next one. *)
Definition launches (t : MissionTaskState) : Z :=
  if is_agent t
  then t_attempt t - (if bool_decide (t_status t = Queued) then 1 else 0)
  else 0.

Lemma task_step_launches t t' :
  (0 <= retries (settings def))%Z -> task_ok def t -> task_step def t t' ->
  t_status t' <> Running -> (launches t <= launches t')%Z.
Proof.
  intros Hret [_ Hw Ha] Hs Hnr. unfold launches, is_agent.
  assert (0 <= retry_budget def <= 10)%Z as Hbud by (unfold retry_budget; lia).
  destruct Hs as [t t' H Hn Hat ? ? ? _ _|t t' H Hn Hat Ho|t t' H Hn Hle Hq Hat
    |t t' H Hn Hat Hs'|t t' H Hn Hq Hat|t H1 H2|t H]; simpl in *; rewrite ?Hn, ?Hat;
    case_bool_decide as Hk; try lia; repeat case_bool_decide; try congruence; try lia.
  - destruct Ho as [Ho|[Ho _]]; congruence.
  - unfold as_u32. specialize (Ha Hk). rewrite Z.mod_small; lia.
  - specialize (Hw H). congruence.
Qed.

Lemma quiet_launches ts ts' :
  (0 <= retries (settings def))%Z -> Forall (task_ok def) ts -> quiet def ts ts' ->
  (zsum launches ts <= zsum launches ts')%Z.
Proof.
  intros Hret Hok Hq. apply zsum_Forall2_le. induction Hq as [|t t' ts ts' Ht _ IH]; [done|].
  apply Forall_cons in Hok as [Hokt Hok]. constructor; [|auto].
  destruct Ht as [->|(Hs & Hr & _)]; [done|]. by apply task_step_launches.
Qed.

Lemma quiet_running ts ts' : quiet def ts ts' -> running_count ts' <= running_count ts.
Proof.
  intros H. apply count_Forall2_le. eapply Forall2_impl; [exact H|].
  intros t t' [->|(_ & Hr & _)]; [done|]. by rewrite bool_decide_eq_false_2.
Qed.

Lemma visited_launches st ac q i q' :
  visited def st ac q i q' ->
  (zsum launches (p_tasks q) + Z.of_nat (length (p_spawns q'))
   <= zsum launches (p_tasks q') + Z.of_nat (length (p_spawns q)))%Z.
Proof.
  intros [|t t' tr ib sp Ht Hst Ha]; [done|]. simpl. rewrite (zsum_insert _ _ _ t), length_app by done.
  pose proof (activate_step def _ _ _ _ _ _ _ _ Hst Ha) as Hstep.
  apply node_action_shape in Ha as (Hn & Hat & Hnq & _ & _ & _ & Hsp & _); [|done].
  unfold launches, is_agent. rewrite Hn, Hat, (bool_decide_eq_true_2 (t_status t = Queued)) by done.
  rewrite (bool_decide_eq_false_2 (t_status t' = Queued)) by done.
  destruct sp as [rq|]; simpl; [|case_bool_decide; lia].
  rewrite bool_decide_eq_true_2; [lia|].
  assert (t_status t' = Running) as Hr by (apply Hsp; by eexists).
  destruct Hstep as [? ? ? ? ? ? ? ? Hk _| | | | | |]; simpl in *; try congruence.
  by apply Hk.
Qed.

Lemma settle_launches ts p :
  settle def ts = Some p ->
  (zsum launches ts + Z.of_nat (length (p_spawns p)) <= zsum launches (p_tasks p))%Z.
Proof.
  apply (settle_ind def (fun p => (zsum launches ts + Z.of_nat (length (p_spawns p))
    <= zsum launches (p_tasks p))%Z)); [done| |simpl; lia].
  intros st ac q i q' Hq Hv. apply visited_launches in Hv. lia.
Qed.

Lemma launches_bound ts :
  (0 <= retries (settings def))%Z -> Forall (task_ok def) ts ->
  (zsum launches ts <= (retry_budget def + 1) * Z.of_nat (count is_agent ts))%Z.
Proof.
  intros Hret Hok. apply zsum_le_count; [unfold retry_budget; lia|].
  eapply Forall_impl; [exact Hok|]. intros t [_ _ Ha]. unfold launches, is_agent in *.
  case_bool_decide as Hk; [|done]. specialize (Ha Hk). case_bool_decide; lia.
Qed.
End Launches.

(** ** The safety invariant *)

Section Invariant.
Context `{JT : JsonText}.
Variables (def : MissionDefinition) (run : rstr).
Hypothesis def_wf : definition_wf def.

(** A step at some wall-clock time. *)
Definition run_step (s s' : run_state) : Prop := exists now, step def run now s s'.

(** Tasks, tokens and pc moved without starting an executor. *)
Record run_inv (s : run_state) : Prop := {
  ri_covers : covers def (rs_tasks s);
  ri_mirrors : mirrors run (rs_store s) (rs_tasks s);
  ri_tasks : Forall (task_ok def) (rs_tasks s);
  ri_running : running_count (rs_tasks s) <= max_running def;
  ri_launches : rs_pc s <> Done -> (0 <= rs_token_seq s <= zsum (launches def) (rs_tasks s))%Z;
  ri_done : rs_pc s = Done -> all_terminal (rs_tasks s) = true /\ ch_open (rs_chan s) = false
}.

Lemma retries_nonneg : (0 <= retries (settings def))%Z.
Proof. by destruct def_wf as [_ _ _ [_ [? _]]]. Qed.

Lemma covers_moves ts ts' : covers def ts -> map t_node ts' = map t_node ts -> covers def ts'.
Proof. unfold covers. by intros H ->. Qed.

Lemma moves_ok ts ts' : moves def ts ts' -> Forall (task_ok def) ts -> Forall (task_ok def) ts'.
Proof.
  induction 1 as [|t t' ts ts' Ht _ IH]; [done|]. intros Hok.
  apply Forall_cons in Hok as [? ?]. constructor; [|auto].
  eapply task_star_ok; [apply retries_nonneg|done|done].
Qed.

(** A quiet operation committed with faithful effects keeps the invariant. *)
Lemma commit_inv now s ts tokens es :
  run_inv s -> rs_pc s <> Done -> quiet def (rs_tasks s) ts ->
  faithful run now (rs_store s) (rs_tasks s) ts es ->
  run_inv (commit run now s ts tokens es) /\
  moves def (rs_tasks s) ts.
Proof.
  intros [Hc Hm Ht Hr Hl _] Hpc Hq [_ Hm']. pose proof (quiet_moves _ _ _ Hq) as Hmv.
  split; [|done]. split; simpl; [|done| | | |done].
  - eapply covers_moves; [exact Hc|]. by eapply moves_nodes.
  - by eapply moves_ok.
  - pose proof (quiet_running def _ _ Hq). lia.
  - intros _. pose proof (quiet_launches def _ _ retries_nonneg Ht Hq). specialize (Hl Hpc). lia.
Qed.

Lemma inv_frame s s' :
  rs_tasks s' = rs_tasks s -> rs_token_seq s' = rs_token_seq s ->
  ms_tasks (rs_store s') = ms_tasks (rs_store s) ->
  (rs_pc s <> Done /\ rs_pc s' <> Done \/
   rs_pc s' = rs_pc s /\ ch_open (rs_chan s') = ch_open (rs_chan s)) ->
  run_inv s -> run_inv s'.
Proof.
  intros Ht Hs Hst Hpc [Hc Hm Hok Hr Hl Hd]. split; rewrite ?Ht, ?Hs; try done.
  - intros t Hin. rewrite (stored_other_tables _ (rs_store s)) by done. by apply Hm.
  - destruct Hpc as [[? ?]|[-> _]]; auto.
  - destruct Hpc as [[? ?]|[-> ->]]; [done|]. done.
Qed.

Lemma respond_inv now s c :
  run_inv s -> rs_pc s <> Done ->
  run_inv (respond def run now s c) /\ rs_pc (respond def run now s c) = rs_pc s /\
  moves def (rs_tasks s) (rs_tasks (respond def run now s c)).
Proof.
  intros Hi Hpc. unfold respond.
  destruct (commit_inv now s _
    (r_tokens (apply_respond def (rs_tokens s) (rs_tasks s) (cmd_node c) (cmd_decision c) (cmd_feedback c)))
    _ Hi Hpc (respond_quiet def (rs_tokens s) (rs_tasks s) (cmd_node c) (cmd_decision c) (cmd_feedback c))
    (respond_faithful def run now (rs_store s) (rs_tasks s) (rs_tokens s) _ _ _
      (ri_mirrors _ Hi) (proj1 (ri_covers _ Hi)))) as [H1 H2].
  by split.
Qed.

Lemma complete_inv now s c :
  run_inv s -> rs_pc s <> Done ->
  run_inv (complete def run now s c) /\ rs_pc (complete def run now s c) = rs_pc s /\
  moves def (rs_tasks s) (rs_tasks (complete def run now s c)).
Proof.
  intros Hi Hpc. destruct c as [[id tok] o]. unfold complete.
  pose proof (completion_faithful def run now (rs_store s) (rs_tasks s) (rs_tokens s)
    (ch_cancelled (rs_chan s)) id tok o (ri_mirrors _ Hi) (proj1 (ri_covers _ Hi))) as Hf.
  pose proof (completion_quiet def (rs_tokens s) (ch_cancelled (rs_chan s)) (rs_tasks s) id tok o) as Hq.
  destruct (apply_completion _ _ _ _ _ _ _) as [ts es]. cbn [fst snd] in *.
  destruct (commit_inv now s ts (rs_tokens s) es Hi Hpc Hq Hf). by split.
Qed.

Lemma drain_inv now cs s :
  run_inv s -> rs_pc s <> Done ->
  let s' := fold_left (respond def run now) cs s in
  run_inv s' /\ rs_pc s' = rs_pc s /\ moves def (rs_tasks s) (rs_tasks s').
Proof.
  revert s; induction cs as [|c cs IH]; intros s Hi Hpc; simpl.
  - split; [done|]. split; [done|apply moves_refl].
  - destruct (respond_inv now s c Hi Hpc) as (H1 & H2 & H3).
    destruct (IH _ H1) as (H4 & H5 & H6); [by rewrite H2|].
    split; [done|]. split; [congruence|]. by eapply moves_trans.
Qed.

Lemma spawn_fold_tasks l s :
  let s' := fold_left spawn l s in
  rs_tasks s' = rs_tasks s /\ rs_store s' = rs_store s /\ rs_pc s' = rs_pc s /\
  rs_chan s' = rs_chan s /\ rs_completions s' = rs_completions s /\
  rs_token_seq s' = (rs_token_seq s + Z.of_nat (length l))%Z.
Proof.
  revert s; induction l as [|x l IH]; intros s; simpl.
  - repeat split; lia.
  - destruct (IH (spawn s x)) as (-> & -> & -> & -> & -> & ->). repeat split; simpl; lia.
Qed.

(** Marking the run finished touches no task row. *)
Lemma finish_inv now s :
  run_inv s -> rs_pc s <> Done -> all_terminal (rs_tasks s) = true ->
  run_inv (finish_state run now s) /\ rs_tasks (finish_state run now s) = rs_tasks s.
Proof.
  intros [Hc Hm Hok Hr Hl _] Hpc Hall. split; [|done]. split; simpl; try done.
  intros t Hin. rewrite (stored_other_tables _ (rs_store s)); [by apply Hm|].
  unfold finish_run. by destruct (ch_cancelled _).
Qed.

Lemma cancelled_all_terminal ts : all_terminal (map fst (map cancel_task ts)) = true.
Proof.
  apply forallb_elem. intros t Ht. apply list_elem_of_In in Ht.
  apply in_map_iff in Ht as (u & <- & Hu). apply in_map_iff in Hu as (v & <- & _).
  unfold cancel_task. by destruct (resolved (t_status v)) eqn:E.
Qed.

Lemma cancel_state_inv now s :
  run_inv s -> rs_pc s <> Done ->
  run_inv (cancel_state run now s) /\ moves def (rs_tasks s) (rs_tasks (cancel_state run now s)).
Proof.
  intros [Hc Hm Hok Hr Hl _] Hpc.
  destruct (cancel_faithful run now (rs_store s) (rs_tasks s) Hm (proj1 Hc)) as [_ Hm'].
  pose proof (cancel_quiet def (rs_tasks s)) as Hq. pose proof (quiet_moves _ _ _ Hq) as Hmv.
  split; [|done]. unfold cancel_state, cancel_all. split; simpl; try done.
  - eapply covers_moves; [exact Hc|]. by eapply moves_nodes.
  - intros t Hin. rewrite (stored_other_tables _
      (apply_effects now run (concat (map snd (map cancel_task (rs_tasks s)))) (rs_store s))).
    + by apply Hm'.
    + unfold finish_run. by destruct (ch_cancelled _).
  - by eapply moves_ok.
  - pose proof (quiet_running def _ _ Hq). lia.
  - intros _. split; [apply cancelled_all_terminal|done].
Qed.

Lemma iterate_inv now s s' :
  run_inv s -> rs_pc s <> Done -> iterate def run now s = Some s' ->
  run_inv s' /\ moves def (rs_tasks s) (rs_tasks s').
Proof.
  intros Hi Hpc. unfold iterate. destruct (ch_cancelled (rs_chan s)).
  { intros [= <-]. by apply cancel_state_inv. }
  set (s0 := set_chan (set_commands [] (rs_chan s)) s).
  assert (run_inv s0) as Hi0 by (apply (inv_frame s); auto).
  destruct (drain_inv now (ch_commands (rs_chan s)) s0 Hi0 Hpc) as (Hi1 & Hpc1 & Hmv1).
  destruct (fold_left (respond def run now) _ s0) as [ts1 tk1 sq1 if1 co1 ch1 st1 pc1] eqn:E1.
  simpl in *. subst pc1.
  destruct (settle def ts1) as [p|] eqn:Es; simpl; [|done].
  destruct Hi1 as [Hc Hm Hok Hr Hl _]. simpl in *.
  pose proof (settle_moves def _ _ Es) as Hmv2.
  pose proof (settle_mirrors now run def st1 ts1 p Hm (proj1 Hc) Es) as [_ Hm2].
  pose proof (settle_launches def _ _ Es) as Hl2.
  assert (forall pc ch, pc <> Done -> (pc <> Done -> ch_open ch = ch_open ch1) ->
    run_inv {| rs_tasks := p_tasks p; rs_tokens := tk1; rs_token_seq := sq1;
      rs_inflight := if1; rs_completions := co1; rs_chan := ch;
      rs_store := apply_effects now run (p_effects p) st1; rs_pc := pc |}) as Hi2.
  { intros pc ch Hne _. split; simpl; try done.
    - eapply covers_moves; [exact Hc|]. by eapply moves_nodes.
    - by eapply moves_ok.
    - by eapply settle_running_bound.
    - intros _. specialize (Hl Hpc). lia. }
  intros [= <-]. destruct (all_terminal (p_tasks p)) eqn:Eall.
  - destruct (finish_inv now (commit run now {| rs_tasks := ts1; rs_tokens := tk1;
      rs_token_seq := sq1; rs_inflight := if1; rs_completions := co1; rs_chan := ch1;
      rs_store := st1; rs_pc := rs_pc s0 |} (p_tasks p) tk1 (p_effects p))) as [Hf _];
      [by apply Hi2|done|done|].
    split; [exact Hf|]. by eapply moves_trans.
  - match goal with |- run_inv (set_pc _ (fold_left spawn ?l ?s2)) /\ _ =>
      destruct (spawn_fold_tasks l s2) as (Ht & Hst & _ & _ & _ & Hsq) end.
    split; [|simpl; rewrite Ht; by eapply moves_trans].
    destruct (Hi2 Waiting ch1) as [Hc2 Hm3 Hok2 Hr2 _ _]; [done|done|]. simpl in *.
    split; simpl; rewrite ?Ht, ?Hst, ?Hsq; try done.
    intros _. simpl. specialize (Hl Hpc). lia.
Qed.

Lemma try_send_open c cmd c' :
  Registry.try_send c cmd = Some c' ->
  ch_open c' = ch_open c /\ ch_cancelled c' = ch_cancelled c /\
  ch_commands c' = ch_commands c ++ [cmd].
Proof. unfold Registry.try_send. destruct (negb _); [done|]. case_match; [done|]. by intros [= <-]. Qed.

Lemma resolve_inbox_tasks now st node d fb :
  ms_tasks (resolve_mission_inbox now st run node d fb).1 = ms_tasks st.
Proof. unfold resolve_mission_inbox. by destruct (head _). Qed.

Lemma run_step_inv s s' :
  run_inv s -> run_step s s' -> run_inv s' /\ moves def (rs_tasks s) (rs_tasks s').
Proof.
  intros Hi [now Hs].
  destruct Hs as [s s' Hpc Hit|s c rest Hpc Hc|s c rest Hpc Hc|s Hpc Hc|s i id tok o Hif
    |s id d fb st' Hres Hd|s].
  - apply (iterate_inv now); [done|congruence|done].
  - match goal with |- context [complete def run now ?x c] =>
      destruct (complete_inv now x c) as (H1 & H2 & H3);
        [by apply (inv_frame s); auto|simpl; congruence|] end.
    split; [|done]. eapply inv_frame; [..|exact H1]; try done. left. simpl in *. by rewrite H2, Hpc.
  - match goal with |- context [respond def run now ?x c] =>
      destruct (respond_inv now x c) as (H1 & H2 & H3);
        [by apply (inv_frame s); auto|simpl; congruence|] end.
    split; [|done]. eapply inv_frame; [..|exact H1]; try done. left. simpl in *. by rewrite Hpc.
  - split; [|apply moves_refl]. apply (inv_frame s); [done..| |done]. left. by rewrite Hpc.
  - split; [|apply moves_refl]. apply (inv_frame s); auto.
  - split; [|apply moves_refl]. apply (inv_frame s); simpl; try done.
    + pose proof (resolve_inbox_tasks now (rs_store s) id d fb) as H. by rewrite Hres in H.
    + right. split; [done|]. destruct (Registry.try_send _ _) eqn:E; [|done].
      simpl. by destruct (try_send_open _ _ _ E) as [-> _].
  - split; [|apply moves_refl]. apply (inv_frame s); auto.
Qed.

Lemma run_reach_inv s s' :
  run_inv s -> star run_step s s' -> run_inv s' /\ moves def (rs_tasks s) (rs_tasks s').
Proof.
  intros Hi Hs. revert Hi. induction Hs as [s|s t u Hst _ IH]; intros Hi.
  - split; [done|apply moves_refl].
  - destruct (run_step_inv s t Hi Hst) as [Hi' Hm']. destruct (IH Hi') as [? ?].
    split; [done|]. by eapply moves_trans.
Qed.
End Invariant.

(** ** The start of a run *)

Section Start.
Context `{JT : JsonText}.
Variables (def : MissionDefinition) (run now : rstr).
Hypothesis def_wf : definition_wf def.

Definition fresh_row (node : rstr) : task_row := {|
  ta_id := task_id run node; ta_run := run; ta_node := node; ta_status := str "queued";
  ta_attempt := 1%Z; ta_output := None; ta_error := None; ta_started := None; ta_ended := None |}.

Definition fresh_task (node : rstr) : MissionTaskState := {|
  t_node := node; t_status := Queued; t_attempt := 1%Z; t_output := None; t_error := None |}.

(** No row belongs to the new run (its id is a fresh uuid). *)
Definition unused (st : mission_store) : Prop :=
  forall r, r ∈ ms_tasks st -> ta_run r <> run /\ forall node, ta_id r <> task_id run node.

Lemma insert_tasks_rows ns st :
  NoDup (map n_id ns) -> (forall r n, r ∈ ms_tasks st -> n ∈ ns -> ta_id r <> task_id run (n_id n)) ->
  ms_tasks (fold_left (fun st n => insert_mission_task st run (n_id n)) ns st)
  = ms_tasks st ++ map fresh_row (map n_id ns).
Proof.
  revert st; induction ns as [|n ns IH]; intros st Hnd Hf; simpl; [by rewrite app_nil_r|].
  simpl in Hnd. apply NoDup_cons in Hnd as [Hni Hnd].
  assert (insert_mission_task st run (n_id n) = with_tasks st (ms_tasks st ++ [fresh_row (n_id n)])) as ->.
  { unfold insert_mission_task. assert (existsb _ (ms_tasks st) = false) as ->; [|done].
    apply existsb_elem_false. intros r Hr. apply str_eqb_neq. apply Hf; [done|by left]. }
  rewrite IH; [simpl; by rewrite <-app_assoc|done|].
  intros r n' Hr Hn'. simpl in Hr. apply elem_of_app in Hr as [Hr|Hr].
  - apply Hf; [done|by right].
  - apply list_elem_of_singleton in Hr as ->. simpl. intros Heq. apply task_id_inj in Heq.
    apply Hni. rewrite Heq. apply list_elem_of_In, in_map, list_elem_of_In, Hn'.
Qed.

Lemma start_store_rows st st' flow version snapshot :
  unused st -> start_store def run now st flow version snapshot = Ok st' ->
  ms_tasks st' = ms_tasks st ++ map fresh_row (map n_id (nodes def)).
Proof.
  intros Hun. unfold start_store, create_mission_run. destruct (existsb _ (ms_runs st)); [done|].
  intros [= <-]. rewrite insert_tasks_rows; [done|by destruct def_wf|].
  intros r n Hr _. by apply Hun.
Qed.

Lemma filter_fresh ids :
  List.filter (fun r => str_eqb (ta_run r) run) (map fresh_row ids) = map fresh_row ids.
Proof. induction ids as [|i ids IH]; simpl; [done|]. by rewrite str_eqb_refl, IH. Qed.

Lemma start_tasks_perm st ids :
  unused st -> forall st', ms_tasks st' = ms_tasks st ++ map fresh_row ids ->
  load_tasks (mission_tasks st' run) ≡ₚ map fresh_task ids.
Proof.
  intros Hun st' Hrows. unfold load_tasks, mission_tasks.
  rewrite sort_by_perm, Hrows, List.filter_app, filter_fresh.
  assert (List.filter (fun r => str_eqb (ta_run r) run) (ms_tasks st) = []) as ->.
  { assert (count (fun r => str_eqb (ta_run r) run) (ms_tasks st) = 0) as Hc.
    { apply count_zero. intros r Hr. apply str_eqb_neq. by apply Hun. }
    by apply nil_length_inv. }
  cbn [app]. rewrite !map_map. by erewrite map_ext.
Qed.

Lemma stored_fresh st st' ids id :
  unused st -> ms_tasks st' = ms_tasks st ++ map fresh_row ids -> id ∈ ids ->
  stored run st' id = Some (str "queued", 1%Z).
Proof.
  intros Hun Hrows Hid. unfold stored. rewrite Hrows.
  destruct (find_first _ _) as [r|] eqn:E.
  - apply find_first_Some in E as [Hr Hi]. apply str_eqb_eq in Hi.
    apply elem_of_app in Hr as [Hr|Hr]; [destruct (Hun r Hr) as [_ H]; by destruct (H id)|].
    apply list_elem_of_In, in_map_iff in Hr as (j & <- & _). done.
  - apply (find_first_None _ _) with (a := fresh_row id) in E;
      [simpl in E; by rewrite str_eqb_refl in E|].
    apply elem_of_app. right. apply list_elem_of_In, in_map, list_elem_of_In, Hid.
Qed.

Lemma start_inv st st' flow version snapshot :
  unused st -> start_store def run now st flow version snapshot = Ok st' ->
  run_inv def run (start_state run st') /\
  Forall (fun t => t_status t = Queued /\ t_attempt t = 1%Z) (rs_tasks (start_state run st')).
Proof.
  intros Hun Hst. pose proof (start_store_rows _ _ _ _ _ Hun Hst) as Hrows.
  pose proof (start_tasks_perm st (map n_id (nodes def)) Hun st' Hrows) as Hp.
  assert (map t_node (map fresh_task (map n_id (nodes def))) = map n_id (nodes def)) as Hid.
  { rewrite map_map. simpl. apply map_id. }
  assert (Permutation (map t_node (rs_tasks (start_state run st'))) (map n_id (nodes def))) as Hpn.
  { simpl. by rewrite Hp, Hid. }
  assert (forall t, t ∈ rs_tasks (start_state run st') ->
    t = fresh_task (t_node t) /\ t_node t ∈ map n_id (nodes def)) as Hall.
  { simpl. intros t Ht. rewrite Hp in Ht.
    apply list_elem_of_In, in_map_iff in Ht as (i & <- & Hi). by rewrite list_elem_of_In. }
  split; [|apply Forall_forall; intros t Ht; by destruct (Hall t Ht) as [-> _]].
  destruct def_wf as [Hnd _ _ [_ Hret]]. split.
  - split; [by rewrite Hpn|]. intros id. by rewrite Hpn.
  - intros t Ht. destruct (Hall t Ht) as [-> Hin]. simpl. by eapply stored_fresh.
  - apply Forall_forall. intros t Ht. destruct (Hall t Ht) as [-> _].
    split; simpl; try done. unfold retry_budget. lia.
  - assert (running_count (rs_tasks (start_state run st')) = 0) as ->; [|lia].
    apply count_zero. intros t Ht. by destruct (Hall t Ht) as [-> _].
  - intros _. change (rs_token_seq (start_state run st')) with 0%Z. split; [done|].
    assert (Forall (fun t => (0 <= launches def t)%Z) (rs_tasks (start_state run st'))) as H.
    { apply Forall_forall. intros t Ht. destruct (Hall t Ht) as [-> _].
      unfold launches. simpl. case_match; lia. }
    clear -H. induction H; unfold zsum in *; simpl in *; lia.
  - done.
Qed.
End Start.
