(* ===== verification/MissionLive.v ===== *)
(** * MissionLive: a mission run never loses its way forward

    Liveness facts about the step relation of MissionRun: a running task has
    its executor in flight (or its completion queued) under the current token,
    a task waiting for a human has a pending inbox item (or its answer queued),
    so a run of an acyclic flow that is not finished can always advance. *)

From S2P Require Import Prelude Str Json Rows Condition MissionDef MissionSched MissionStore MissionRun.
From S2P Require Import MissionFacts MissionSafety.

(** ** The inbox under the scheduler's effects *)

(** Ids are unique and below the sequence. *)
Definition inbox_wf (st : mission_store) : Prop :=
  NoDup (map ib_id (ms_inbox st)) /\ forall r, r ∈ ms_inbox st -> ib_id r <= ms_inbox_seq st.

Definition pending (run : rstr) (st : mission_store) (node : rstr) : Prop :=
  exists r, r ∈ ms_inbox st /\ pending_for (task_id run node) r = true.

Lemma apply_effect_inbox_wf now run st e : inbox_wf st -> inbox_wf (apply_effect now run st e).
Proof.
  intros [Hnd Hle]. destruct e; simpl; try done. split; simpl.
  - rewrite map_app. apply NoDup_app. split; [done|]. split; [|apply NoDup_singleton].
    intros i Hi Hs. apply list_elem_of_singleton in Hs as ->.
    apply list_elem_of_In, in_map_iff in Hi as (r & Hr & Hin).
    apply list_elem_of_In, Hle in Hin. simpl in *. lia.
  - intros r Hr. apply elem_of_app in Hr as [Hr|Hr].
    + specialize (Hle r Hr). simpl. lia.
    + apply list_elem_of_singleton in Hr as ->. simpl. lia.
Qed.

Lemma apply_effects_inbox_wf now run es st : inbox_wf st -> inbox_wf (apply_effects now run es st).
Proof. revert st; induction es; intros st H; simpl; [done|]. by apply IHes, apply_effect_inbox_wf. Qed.

Lemma apply_effect_pending now run st e node :
  pending run st node -> pending run (apply_effect now run st e) node.
Proof.
  intros (r & Hr & Hp). exists r. split; [|done]. destruct e; simpl; try done.
  apply elem_of_app. by left.
Qed.

Lemma apply_effects_pending now run es st node :
  pending run st node -> pending run (apply_effects now run es st) node.
Proof. revert st; induction es; intros st H; simpl; [done|]. by apply IHes, apply_effect_pending. Qed.

Lemma einbox_pending now run st node : pending run (insert_mission_inbox now st run node) node.
Proof.
  eexists. split; [apply elem_of_app; right; by apply list_elem_of_singleton|].
  unfold pending_for. simpl. by rewrite !str_eqb_refl.
Qed.

(** Answering a node closes one pending row of that node and no other. *)
Lemma resolve_pending now run st node d fb st' won n :
  inbox_wf st -> resolve_mission_inbox now st run node d fb = (st', won) ->
  inbox_wf st' /\ (n <> node -> pending run st n -> pending run st' n) /\
  (won = true <-> pending run st node).
Proof.
  intros [Hnd Hle]. unfold resolve_mission_inbox.
  set (rows := sort_by _ _).
  assert (forall r, r ∈ rows <-> r ∈ ms_inbox st /\ pending_for (task_id run node) r = true) as Hrows.
  { intros r. subst rows. rewrite sort_by_elem, !list_elem_of_In, filter_In. done. }
  destruct (head rows) as [pk|] eqn:Eh.
  - assert (pk ∈ rows) as Hpk by (destruct rows; simplify_eq/=; by left).
    apply Hrows in Hpk as [Hpk Hpf].
    intros [= <- <-]. split; [|split].
    + split; simpl.
      * unfold update_where. rewrite map_map. erewrite map_ext; [exact Hnd|].
        intros r. by destruct (_ =? _).
      * intros r Hr. apply update_where_elem in Hr as (r0 & Hr0 & ->).
        specialize (Hle r0 Hr0). by destruct (_ =? _).
    + intros Hne (r & Hr & Hp). exists r. split; [|done].
      simpl. apply update_where_elem. exists r. split; [done|].
      destruct (Nat.eqb_spec (ib_id r) (ib_id pk)) as [Heq|]; [|done].
      assert (r = pk) as ->.
      { apply list_elem_of_lookup in Hr as [i Hi]. apply list_elem_of_lookup in Hpk as [j Hj].
        assert (i = j) as ->; [|congruence].
        eapply (NoDup_lookup (ib_id <$> ms_inbox st)); [done|by rewrite list_lookup_fmap, Hi|].
        rewrite list_lookup_fmap, Hj. simpl. by rewrite Heq. }
      unfold pending_for in *. bools.
      repeat match goal with H : str_eqb _ _ = true |- _ => apply str_eqb_eq in H end.
      exfalso. apply Hne. apply (task_id_inj run). congruence.
    + split; [|intros _].
      * intros _. by exists pk.
      * apply existsb_elem. exists pk. split; [done|]. apply Nat.eqb_refl.
  - intros [= <- <-]. split; [done|]. split; [done|]. split; [done|].
    intros (r & Hr & Hp). destruct rows as [|x rows']; [|done].
    assert (r ∈ ([] : list inbox_row)) as H by (by apply Hrows). by apply not_elem_of_nil in H.
Qed.

(** An accepted answer changes the row it claims. *)
Lemma resolve_claims now st run node d fb st' :
  resolve_mission_inbox now st run node d fb = (st', true) ->
  exists r, r ∈ ms_inbox st /\ r ∉ ms_inbox st'.
Proof.
  unfold resolve_mission_inbox. set (rows := sort_by _ _).
  destruct (head rows) as [pk|] eqn:Eh; [|done]. intros [= <- _].
  assert (pk ∈ rows) as Hpk by (destruct rows; simplify_eq/=; by left).
  subst rows. rewrite sort_by_elem, list_elem_of_In, filter_In, <-list_elem_of_In in Hpk.
  destruct Hpk as [Hpk Hpf]. exists pk. split; [done|]. intros H.
  apply update_where_elem in H as (r & _ & Hr).
  destruct (Nat.eqb_spec (ib_id r) (ib_id pk)) as [_|Hne]; [|congruence].
  unfold pending_for in Hpf. rewrite Hr in Hpf. by bools.
Qed.

(** Which row an accepted answer claims: the oldest pending one of the node,
    and no other row changes. *)
Lemma resolve_claims_oldest now st run node d fb st' :
  inbox_wf st -> resolve_mission_inbox now st run node d fb = (st', true) ->
  exists before r after, ms_inbox st = before ++ r :: after /\
    st' = with_inbox st (before ++ resolve_row now d fb r :: after) /\
    pending_for (task_id run node) r = true /\
    forall q, q ∈ ms_inbox st -> pending_for (task_id run node) q = true -> ib_id r <= ib_id q.
Proof.
  intros [Hnd _]. unfold resolve_mission_inbox. set (leb := fun a b => ib_id a <=? ib_id b).
  set (rows := sort_by leb _). destruct (head rows) as [pk|] eqn:Eh; [|done]. intros [= <- _].
  assert (forall r, r ∈ rows <-> r ∈ ms_inbox st /\ pending_for (task_id run node) r = true) as Hrows.
  { intros r. subst rows. rewrite sort_by_elem, !list_elem_of_In, filter_In. done. }
  assert (pk ∈ rows) as Hpk by (destruct rows; simplify_eq/=; by left).
  apply Hrows in Hpk as [Hin Hpf]. apply list_elem_of_split in Hin as (before & after & Hsp).
  exists before, pk, after. split; [done|]. split; [|split; [done|]].
  - f_equal. rewrite Hsp in *. unfold update_where. rewrite map_app in *. simpl in *.
    rewrite Nat.eqb_refl. apply NoDup_app in Hnd as (_ & Hd & [Hni _]%NoDup_cons).
    assert (forall l, (forall i, i ∈ map ib_id l -> i <> ib_id pk) ->
      map (fun r => if ib_id r =? ib_id pk then resolve_row now d fb r else r) l = l) as Hid.
    { intros l Hl. induction l as [|r l IH]; simpl; [done|]. simpl in Hl.
      destruct (Nat.eqb_spec (ib_id r) (ib_id pk)) as [He|_]; [by destruct (Hl (ib_id r)); [left|]|].
      f_equal. apply IH. intros i Hi. apply Hl. by right. }
    rewrite !Hid; [done|..].
    + intros i Hi ->. done.
    + intros i Hi ->. apply (Hd (ib_id pk) Hi). by left.
  - intros q Hq Hqp. assert (q ∈ rows) as Hqr by by apply Hrows.
    pose proof (sort_by_sorted leb) as Hs. specialize (Hs ltac:(intros a b; unfold leb; destruct (Nat.leb_spec (ib_id a) (ib_id b)); [by left|right; apply Nat.leb_le; lia])).
    specialize (Hs ltac:(intros a b c; unfold leb; rewrite !Nat.leb_le; lia)).
    specialize (Hs (List.filter (pending_for (task_id run node)) (ms_inbox st))). fold rows in Hs.
    destruct rows as [|x rows]; [done|]. injection Eh as ->.
    apply elem_of_cons in Hqr as [->|Hqr]; [done|].
    apply StronglySorted_inv in Hs as [_ Hs]. rewrite List.Forall_forall in Hs.
    apply Nat.leb_le, (Hs q), list_elem_of_In, Hqr.
Qed.

Definition no_inbox (e : effect) : Prop := match e with EInbox _ => False | _ => True end.

Lemma no_inbox_same now run es st :
  Forall no_inbox es -> ms_inbox (apply_effects now run es st) = ms_inbox st.
Proof.
  intros H. revert st. induction H as [|e es He _ IH]; intros st; simpl; [done|].
  rewrite IH. by destruct e.
Qed.

Lemma no_inbox_pending now run es st node :
  Forall no_inbox es -> pending run (apply_effects now run es st) node <-> pending run st node.
Proof. intros H. unfold pending. by rewrite no_inbox_same. Qed.

Lemma no_inbox_sweep f ts : sweep_ok f -> Forall no_inbox (concat (map snd (map f ts))).
Proof.
  intros Hf. induction ts as [|t ts IH]; simpl; [constructor|]. apply Forall_app. split; [|done].
  destruct (Hf t) as [_ [->|(tr & -> & _)]]; simpl; [constructor|by repeat constructor].
Qed.

(** ** Operations: who waits for what *)

Section LiveOps.
Context `{JT : JsonText}.
Variables (def : MissionDefinition).
Implicit Types ts : list MissionTaskState.

Lemma find_index_task_elem ts id : id ∈ map t_node ts -> is_Some (find_index_task ts id).
Proof.
  intros Hid. apply list_elem_of_In, in_map_iff in Hid as (t & <- & Ht).
  unfold find_index_task. destruct (find_index _ ts) eqn:E; [by eexists|].
  apply (find_index_None _ _) with (a := t) in E; [|by apply list_elem_of_In].
  by rewrite str_eqb_refl in E.
Qed.

Lemma insert_other ts i t t' u :
  NoDup (map t_node ts) -> ts !! i = Some t -> t_node t' = t_node t ->
  u ∈ <[i := t']> ts -> t_node u = t_node t -> u = t'.
Proof.
  intros Hnd Ht Hn Hu Heq. apply list_elem_of_lookup in Hu as [j Hj].
  destruct (decide (i = j)) as [->|Hne].
  - rewrite list_lookup_insert_eq in Hj by (by apply lookup_lt_Some in Ht). congruence.
  - rewrite list_lookup_insert_ne in Hj by done. destruct Hne. by eapply nodes_lookup_inj.
Qed.

(** An answer with a known decision ends the wait of its node. *)
Lemma respond_ends_wait ts tokens id d fb t :
  covers def ts -> is_Some (parse_decision d) ->
  t ∈ r_tasks (apply_respond def tokens ts id d fb) -> t_node t = id -> t_status t <> WaitingHuman.
Proof.
  intros [Hnd Hcov] [dec Hd] Hin Hn Hw.
  pose proof (respond_quiet def tokens ts id d fb) as Hq.
  apply list_elem_of_lookup in Hin as [j Hj].
  destruct (Forall2_lookup_r _ _ _ _ _ Hq Hj) as (t0 & Ht0 & [->|(_ & _ & H)]); [|done].
  assert (id ∈ map t_node ts) as Hid.
  { rewrite <-Hn. apply list_elem_of_In, in_map, list_elem_of_In. by eapply list_elem_of_lookup_2. }
  revert Hj. unfold apply_respond. rewrite Hd.
  destruct (find_index_task_elem ts id Hid) as [i Hi]. rewrite Hi.
  destruct (find_index_Some _ _ _ Hi) as (u & Hu & Hun & _). apply str_eqb_eq in Hun.
  assert (i = j) as -> by (eapply nodes_lookup_inj; [done|done|done|congruence]).
  assert (u = t0) as -> by congruence.
  rewrite Hu. destruct (find_node_elem def id) as [n ->]; [by apply Hcov|].
  assert (j < length ts) as Hlt by (by apply lookup_lt_Some in Hu).
  destruct dec; simpl; rewrite Hw; simpl.
  - rewrite list_lookup_insert_eq by done. intros [= H]. by rewrite <-H in Hw.
  - rewrite list_lookup_insert_eq by done. intros [= H]. by rewrite <-H in Hw.
  - intros Hj.
    assert ((fst <$> (exclude_task (exclude_branch def id) <$> ts)) !! j = Some t0) as H by exact Hj.
    rewrite !list_lookup_fmap, Hu in H. simpl in H. injection H as H.
    unfold exclude_task, excludable in H. rewrite Hn in H.
    assert (existsb (str_eqb id) (exclude_branch def id) = true) as Hmem
      by (apply mem_elem, exclude_branch_downstream; constructor).
    rewrite Hmem, Hw in H. simpl in H. by rewrite <-H in Hw.
Qed.

Lemma respond_no_inbox ts tokens id d fb :
  Forall no_inbox (r_effects (apply_respond def tokens ts id d fb)).
Proof.
  unfold apply_respond. destruct (parse_decision d) as [dec|]; [|constructor].
  destruct (find_index_task ts id) as [i|]; [|constructor].
  destruct (ts !! i) as [t|]; [|constructor]. destruct (find_node def id); [|constructor].
  destruct dec; simpl.
  - case_bool_decide; simpl; by repeat constructor.
  - case_bool_decide; simpl; by repeat constructor.
  - assert (forall (o : option MissionTaskState) n, Forall no_inbox
      match o with Some t' => [broadcast_of n t'] | None => [] end) as Ho
      by (intros [u|] n; by repeat constructor).
    destruct (t_status t); simpl; try constructor;
      (apply Forall_app; split; [apply no_inbox_sweep, exclude_task_sweep|apply Ho]).
Qed.

Lemma exclude_tokens_keep (ex : list rstr) ts (tokens : gmap rstr Z) (id : rstr) (tok : Z) :
  tokens !! id = Some tok -> exclude_tokens ex ts tokens !! id = Some tok.
Proof.
  unfold exclude_tokens. revert tokens; induction ts as [|t ts IH]; intros tokens H; simpl; [done|].
  apply IH. destruct (excludable ex t); [|done]. destruct (tokens !! t_node t) eqn:E; [done|].
  rewrite lookup_insert_ne; [done|]. congruence.
Qed.

Lemma respond_tokens_keep ts (tokens : gmap rstr Z) (id d : rstr) fb (n : rstr) (tok : Z) :
  tokens !! n = Some tok -> r_tokens (apply_respond def tokens ts id d fb) !! n = Some tok.
Proof.
  intros H. unfold apply_respond. destruct (parse_decision d) as [dec|]; [|done].
  destruct (find_index_task ts id) as [i|]; [|done].
  destruct (ts !! i) as [t|]; [|done]. destruct (find_node def id); [|done].
  destruct dec; simpl; [by case_bool_decide..|].
  destruct (t_status t); simpl; try done; by apply exclude_tokens_keep.
Qed.

Lemma completion_no_inbox ts tokens c id tok o :
  Forall no_inbox (apply_completion def tokens c ts id tok o).2.
Proof.
  unfold apply_completion. repeat (case_match; try constructor).
  all: simplify_eq/=; by repeat constructor.
Qed.

(** Under the current token, a completion ends the run of its task. *)
Lemma completion_ends_run ts (tokens : gmap rstr Z) (id : rstr) (tok : Z) o t :
  covers def ts -> tokens !! id = Some tok ->
  t ∈ (apply_completion def tokens false ts id tok o).1 -> t_node t = id -> t_status t <> Running.
Proof.
  intros [Hnd Hcov] Htok Hin Hn Hr.
  pose proof (completion_quiet def tokens false ts id tok o) as Hq.
  apply list_elem_of_lookup in Hin as [j Hj].
  destruct (Forall2_lookup_r _ _ _ _ _ Hq Hj) as (t0 & Ht0 & [->|(_ & H & _)]); [|done].
  assert (id ∈ map t_node ts) as Hid.
  { rewrite <-Hn. apply list_elem_of_In, in_map, list_elem_of_In. by eapply list_elem_of_lookup_2. }
  revert Hj. unfold apply_completion. rewrite bool_decide_eq_true_2 by done. simpl.
  destruct (find_index_task_elem ts id Hid) as [i Hi]. rewrite Hi.
  destruct (find_index_Some _ _ _ Hi) as (u & Hu & Hun & _). apply str_eqb_eq in Hun.
  assert (i = j) as -> by (eapply nodes_lookup_inj; [done|done|done|congruence]).
  assert (u = t0) as -> by congruence. rewrite Hu, (bool_decide_eq_true_2 (t_status t0 = Running)) by done.
  destruct (find_node_elem def id) as [n ->]; [by apply Hcov|]. simpl.
  assert (j < length ts) as Hlt by (by apply lookup_lt_Some in Hu).
  destruct o; [|destruct (t_attempt t0 <=? retry_budget def)%Z]; simpl;
    rewrite list_lookup_insert_eq by done; intros [= H]; by rewrite <-H in Hr.
Qed.

(** [settle] on a pass: who runs was running or got an executor, who waits
    was waiting or got an inbox item. *)
Lemma settle_origin now run st ts p :
  settle def ts = Some p -> forall t, t ∈ p_tasks p ->
  (t_status t = Running -> t ∈ ts \/ t_node t ∈ (p_spawns p).*1) /\
  (t_status t = WaitingHuman -> t ∈ ts \/ pending run (apply_effects now run (p_effects p) st) (t_node t)).
Proof.
  apply (settle_ind def (fun p => forall t, t ∈ p_tasks p ->
    (t_status t = Running -> t ∈ ts \/ t_node t ∈ (p_spawns p).*1) /\
    (t_status t = WaitingHuman ->
       t ∈ ts \/ pending run (apply_effects now run (p_effects p) st) (t_node t))));
    [done| |simpl; auto].
  intros sts ac q i q' Hq [|t t' tr ib sp Ht Hst Ha]; [done|].
  apply node_action_shape in Ha as (Hn & _ & _ & _ & _ & Hr & _ & Hib); [|done].
  intros u Hu. simpl in Hu. cbn [p_tasks p_spawns p_effects].
  rewrite fmap_app, apply_effects_app.
  apply list_elem_of_lookup in Hu as [j Hj]. destruct (decide (i = j)) as [->|Hne].
  - rewrite list_lookup_insert_eq in Hj by (by apply lookup_lt_Some in Ht). injection Hj as <-.
    split; intros Hs; right.
    + destruct (Hr Hs) as [[rq ->] _]. apply elem_of_app. right. simpl. rewrite Hn. by left.
    + apply Hib in Hs as ->. simpl. rewrite Hn. apply einbox_pending.
  - rewrite list_lookup_insert_ne in Hj by done.
    destruct (Hq u) as [H1 H2]; [by eapply list_elem_of_lookup_2|].
    split; intros Hs.
    + destruct (H1 Hs) as [?|?]; [by left|right]. apply elem_of_app. by left.
    + destruct (H2 Hs) as [?|?]; [by left|right]. by apply apply_effects_pending.
Qed.
End LiveOps.

(** ** The liveness invariant *)

Section LiveInv.
Context `{JT : JsonText}.
Variables (def : MissionDefinition) (run : rstr).
Hypothesis def_wf : definition_wf def.

(** An executor of the task is running, or has reported, under the token the
    scheduler will accept. *)
Definition has_executor (s : run_state) (id : rstr) : Prop :=
  exists tok, rs_tokens s !! id = Some tok /\
    ((id, tok) ∈ rs_inflight s \/ exists o, (id, tok, o) ∈ rs_completions s).

Definition answered (cs : list MissionCommand) (id : rstr) : Prop :=
  exists c, c ∈ cs /\ cmd_node c = id.

(** [cs] are the commands still to be processed. *)
Record live_inv (cs : list MissionCommand) (s : run_state) : Prop := {
  li_cmds : Forall (fun c => is_Some (parse_decision (cmd_decision c))) cs;
  li_inbox : inbox_wf (rs_store s);
  li_running : ch_cancelled (rs_chan s) = false ->
    forall t, t ∈ rs_tasks s -> t_status t = Running -> has_executor s (t_node t);
  li_waiting : forall t, t ∈ rs_tasks s -> t_status t = WaitingHuman ->
    pending run (rs_store s) (t_node t) \/ answered cs (t_node t)
}.

(** The state between two steps. *)
Record live (s : run_state) : Prop := {
  lv_safe : run_inv def run s;
  lv_live : live_inv (ch_commands (rs_chan s)) s;
  lv_open : rs_pc s <> Done -> ch_open (rs_chan s) = true;
  lv_settled : rs_pc s = Waiting ->
    all_terminal (rs_tasks s) = false /\ exists ts p, settle def ts = Some p /\ p_tasks p = rs_tasks s
}.

Lemma quiet_elem ts ts' t' :
  quiet def ts ts' -> t' ∈ ts' -> t_status t' = Running \/ t_status t' = WaitingHuman -> t' ∈ ts.
Proof.
  intros Hq Hin Hs. apply list_elem_of_lookup in Hin as [j Hj].
  destruct (Forall2_lookup_r _ _ _ _ _ Hq Hj) as (t & Ht & [->|(_ & ? & ?)]).
  - by eapply list_elem_of_lookup_2.
  - by destruct Hs.
Qed.

Lemma respond_live now c cs s :
  run_inv def run s -> live_inv (c :: cs) s -> live_inv cs (respond def run now s c).
Proof.
  intros Hi [Hcmd Hib Hrun Hw]. apply Forall_cons in Hcmd as [Hd Hcmd].
  pose proof (respond_quiet def (rs_tokens s) (rs_tasks s) (cmd_node c) (cmd_decision c) (cmd_feedback c)) as Hq.
  unfold respond. split; simpl; [done|by apply apply_effects_inbox_wf| |].
  - intros Hc t Ht Hr. destruct (Hrun Hc t) as (tok & Htok & Hex); [|done|].
    + eapply quiet_elem; eauto.
    + exists tok. split; [|done]. by apply respond_tokens_keep.
  - intros t Ht Hr. rewrite no_inbox_pending by apply respond_no_inbox.
    destruct (Hw t) as [?|(c' & Hc' & Hn)]; [|done|by left|].
    + eapply quiet_elem; eauto.
    + apply elem_of_cons in Hc' as [->|Hc']; [|right; by exists c'].
      exfalso. by eapply (respond_ends_wait def); [apply Hi|exact Hd|exact Ht| |].
Qed.

Lemma complete_live now cs s c rest :
  run_inv def run s -> live_inv cs s -> rs_completions s = c :: rest ->
  live_inv cs (complete def run now {|
      rs_tasks := rs_tasks s; rs_tokens := rs_tokens s; rs_token_seq := rs_token_seq s;
      rs_inflight := rs_inflight s; rs_completions := rest;
      rs_chan := rs_chan s; rs_store := rs_store s; rs_pc := rs_pc s |} c).
Proof.
  intros Hi [Hcmd Hib Hrun Hw] Hco. destruct c as [[id tok] o]. unfold complete. simpl.
  pose proof (completion_quiet def (rs_tokens s) (ch_cancelled (rs_chan s)) (rs_tasks s) id tok o) as Hq.
  pose proof (completion_no_inbox def (rs_tasks s) (rs_tokens s) (ch_cancelled (rs_chan s)) id tok o) as Hno.
  pose proof (completion_ends_run def (rs_tasks s) (rs_tokens s) id tok o) as Hend.
  destruct (apply_completion _ _ _ _ _ _ _) as [ts es] eqn:E. cbn [fst snd] in *.
  split; simpl; [done|by apply apply_effects_inbox_wf| |].
  - intros Hc t Ht Hr. destruct (Hrun Hc t) as (tok' & Htok & Hex); [by eapply quiet_elem; eauto|done|].
    exists tok'. split; [done|]. destruct Hex as [?|[o' Ho']]; [by left|].
    rewrite Hco in Ho'. apply elem_of_cons in Ho' as [Heq|?]; [|right; by exists o'].
    injection Heq as Hid <- <-. rewrite Hc in E. rewrite Hid in Htok. exfalso.
    eapply (Hend t); try done; [apply Hi|]. by rewrite E.
  - intros t Ht Hr. rewrite no_inbox_pending by done.
    apply Hw; [|done]. eapply quiet_elem; eauto.
Qed.

Lemma spawn_executor s x id : id = x.1 \/ has_executor s id -> has_executor (spawn s x) id.
Proof.
  intros H. unfold has_executor. simpl. destruct (decide (id = x.1)) as [->|Hne].
  - exists (rs_token_seq s + 1)%Z. rewrite lookup_insert_eq. split; [done|].
    left. apply elem_of_app. right. by apply list_elem_of_singleton.
  - destruct H as [H|(tok & Htok & Hex)]; [done|].
    exists tok. rewrite lookup_insert_ne by done. split; [done|].
    destruct Hex as [?|?]; [left|by right]. apply elem_of_app. by left.
Qed.

Lemma spawn_fold_executor l s id :
  id ∈ l.*1 \/ has_executor s id -> has_executor (fold_left spawn l s) id.
Proof.
  revert s; induction l as [|x l IH]; intros s H; simpl.
  - destruct H as [H|H]; [by apply not_elem_of_nil in H|done].
  - apply IH. simpl in H. rewrite elem_of_cons in H.
    destruct H as [[H|H]|H]; [right|by left|right]; apply spawn_executor; auto.
Qed.

Lemma drain_live now cs s :
  run_inv def run s -> rs_pc s <> Done -> live_inv cs s ->
  live_inv [] (fold_left (respond def run now) cs s).
Proof.
  revert s; induction cs as [|c cs IH]; intros s Hi Hpc Hl; simpl; [done|].
  destruct (respond_inv def run def_wf now s c Hi Hpc) as (Hi' & Hpc' & _).
  apply IH; [done|by rewrite Hpc'|]. by apply respond_live.
Qed.

Lemma drain_chan now cs s : rs_chan (fold_left (respond def run now) cs s) = rs_chan s.
Proof. revert s; induction cs as [|c cs IH]; intros s; simpl; [done|]. by rewrite IH. Qed.

Lemma terminal_not_live ts t :
  all_terminal ts = true -> t ∈ ts -> t_status t <> Running /\ t_status t <> WaitingHuman.
Proof.
  unfold all_terminal. rewrite forallb_elem. intros H Ht. specialize (H t Ht).
  by destruct (t_status t).
Qed.

(** A finished run has nothing live left. *)
Lemma terminal_live_inv cs s :
  Forall (fun c => is_Some (parse_decision (cmd_decision c))) cs -> inbox_wf (rs_store s) ->
  all_terminal (rs_tasks s) = true -> live_inv cs s.
Proof.
  intros Hc Hib Hall. split; [done|done| |]; intros; exfalso.
  - by destruct (terminal_not_live (rs_tasks s) t).
  - by destruct (terminal_not_live (rs_tasks s) t).
Qed.

Lemma iterate_live now s s' :
  live s -> rs_pc s = Top -> iterate def run now s = Some s' -> live s'.
Proof.
  intros [Hi Hl Ho _] Hpc Hit.
  assert (rs_pc s <> Done) as Hne by congruence.
  destruct (iterate_inv def run def_wf now s s' Hi Hne Hit) as [Hi' _].
  revert Hit. unfold iterate. destruct (ch_cancelled (rs_chan s)) eqn:Ecan.
  { intros [= <-]. split; [done| |done|done].
    apply terminal_live_inv; [apply Hl| |by apply Hi'].
    simpl. do 2 apply apply_effects_inbox_wf. apply Hl. }
  set (s0 := set_chan (set_commands [] (rs_chan s)) s).
  assert (live_inv [] (fold_left (respond def run now) (ch_commands (rs_chan s)) s0)) as Hl1.
  { apply drain_live; [by apply (inv_frame def run s); auto|done|].
    destruct Hl as [H1 H2 H3 H4]. by split. }
  pose proof (drain_chan now (ch_commands (rs_chan s)) s0) as Hch.
  destruct (fold_left (respond def run now) _ s0) as [ts1 tk1 sq1 if1 co1 ch1 st1 pc1] eqn:E1.
  simpl in Hch. subst ch1. simpl. destruct (settle def ts1) as [p|] eqn:Es; simpl; [|done].
  destruct Hl1 as [_ Hib Hrun Hw]. simpl in *.
  pose proof (settle_origin def now run st1 ts1 p Es) as Horig.
  intros [= <-]. destruct (all_terminal (p_tasks p)) eqn:Eall.
  - split; [done| |done|done]. apply terminal_live_inv; simpl; [done| |done].
    by do 2 apply apply_effects_inbox_wf.
  - match goal with |- live (set_pc _ (fold_left spawn ?l ?s2)) =>
      destruct (spawn_fold_tasks l s2) as (Ht & Hst & _ & Hchn & _ & _) end.
    split; simpl; rewrite ?Ht, ?Hst, ?Hchn; [done| |auto|].
    + split; simpl; rewrite ?Ht, ?Hst, ?Hchn; simpl; [constructor|by apply apply_effects_inbox_wf| |].
      * intros _ t Hin Hr.
        assert (forall x, has_executor x (t_node t) -> has_executor (set_pc Waiting x) (t_node t)) as Hpcx
          by done.
        apply Hpcx, spawn_fold_executor. destruct (Horig t Hin) as [[Hin'|?] _]; [done| |by left].
        right. by destruct (Hrun Ecan t Hin' Hr) as (tok & ? & ?); exists tok.
      * intros t Hin Hr. destruct (Horig t Hin) as [_ [Hin'|?]]; [done| |by left].
        destruct (Hw t Hin' Hr) as [?|?]; [left|by right]. by apply apply_effects_pending.
    + intros _. simpl. split; [done|]. by exists ts1, p.
Qed.

(** The command channel has room. *)
Definition roomy (s : run_state) : Prop := length (ch_commands (rs_chan s)) < COMMAND_CAP.

(** A step at which no answer is lost to a full channel: either there is room,
    or the step claims no inbox row, so it is not an answer. *)
Definition fair_step (s s' : run_state) : Prop :=
  run_step def run s s' /\
  (roomy s \/ forall r, r ∈ ms_inbox (rs_store s) -> r ∈ ms_inbox (rs_store s')).

Lemma answer_live now s id d fb st' :
  live s -> roomy s ->
  resolve_mission_inbox now (rs_store s) run id d fb = (st', true) -> is_Some (parse_decision d) ->
  let ch := default (rs_chan s) (Registry.try_send (rs_chan s)
              {| cmd_node := id; cmd_decision := d; cmd_feedback := fb |}) in
  live_inv (ch_commands ch) {|
      rs_tasks := rs_tasks s; rs_tokens := rs_tokens s; rs_token_seq := rs_token_seq s;
      rs_inflight := rs_inflight s; rs_completions := rs_completions s;
      rs_chan := ch; rs_store := st'; rs_pc := rs_pc s |} /\
  ch_open ch = ch_open (rs_chan s).
Proof.
  intros [Hi Hl Ho _] Hroom Hres Hd ch.
  assert (ch_open ch = ch_open (rs_chan s) /\ ch_cancelled ch = ch_cancelled (rs_chan s)) as [Hop Hcan].
  { subst ch. destruct (Registry.try_send _ _) as [c|] eqn:E; simpl; [|done].
    by destruct (try_send_open _ _ _ E) as (? & ? & _). }
  split; [|exact Hop].
  destruct Hl as [Hcmd Hib Hrun Hw].
  assert (ch_open (rs_chan s) = true ->
    ch_commands ch = ch_commands (rs_chan s) ++
      [{| cmd_node := id; cmd_decision := d; cmd_feedback := fb |}]) as Hopen.
  { intros H. subst ch. unfold Registry.try_send, roomy in *. rewrite H. cbn [negb].
    destruct (Nat.leb_spec COMMAND_CAP (length (ch_commands (rs_chan s)))); [lia|done]. }
  assert (rs_pc s = Done -> ch_commands ch = ch_commands (rs_chan s)) as Hclosed.
  { intros H. destruct (ri_done _ _ _ Hi H) as [_ Hc]. subst ch.
    unfold Registry.try_send. by rewrite Hc. }
  assert (inbox_wf st') as Hib' by (by eapply (resolve_pending now run _ id d fb st' true id)).
  destruct (decide (rs_pc s = Done)) as [Hdone|Hnd].
  - destruct (ri_done _ _ _ Hi Hdone) as [Hall _]. apply terminal_live_inv; [|done|done].
    by rewrite Hclosed.
  - rewrite (Hopen (Ho Hnd)). split; simpl; [|done| |].
    + apply Forall_app. split; [done|]. by repeat constructor.
    + rewrite Hcan. exact Hrun.
    + intros t Ht Hs. destruct (decide (t_node t = id)) as [Heq|Hne].
      * right. eexists. split; [apply elem_of_app; right; by apply list_elem_of_singleton|done].
      * destruct (Hw t Ht Hs) as [?|(c & Hc & Hn)]; [left|right].
        -- destruct (resolve_pending now run _ id d fb st' true (t_node t) Hib Hres) as (_ & Hk & _).
           by apply Hk.
        -- exists c. split; [|done]. apply elem_of_app. by left.
Qed.

Lemma fair_step_live s s' : live s -> fair_step s s' -> live s'.
Proof.
  intros Hlv [[now Hs] Hroom].
  assert (run_inv def run s') as Hi'
    by (eapply run_step_inv; [done|apply Hlv|by exists now]).
  destruct Hs as [s s' Hpc Hit|s c rest Hpc Hc|s c rest Hpc Hc|s Hpc Hc|s i id tok o Hif
    |s id d fb st' Hres Hd|s].
  - by apply (iterate_live now s).
  - destruct Hlv as [Hi Hl Ho _]. split; [done| | |done].
    + pose proof (complete_live now _ s c rest Hi Hl Hc) as [H1 H2 H3 H4].
      destruct c as [[id tok] o]. simpl in *.
      destruct (apply_completion _ _ _ _ _ _ _) as [ts es]. by split.
    + intros _. destruct c as [[id tok] o]. simpl.
      destruct (apply_completion _ _ _ _ _ _ _) as [ts es]. apply Ho. congruence.
  - destruct Hlv as [Hi Hl Ho _]. split; [done| | |done].
    + rewrite Hc in Hl. simpl.
      assert (live_inv (c :: rest) (set_chan (set_commands rest (rs_chan s)) s)) as Hl'
        by (destruct Hl; by split).
      assert (run_inv def run (set_chan (set_commands rest (rs_chan s)) s)) as Hi1
        by (apply (inv_frame def run s); auto).
      destruct (respond_live now c rest _ Hi1 Hl') as [H1 H2 H3 H4]. by split.
    + intros _. simpl. apply Ho. congruence.
  - destruct Hlv as [Hi Hl Ho _]. split; [done| | |done].
    + destruct Hl. by split.
    + intros _. simpl. apply Ho. congruence.
  - destruct Hlv as [Hi Hl Ho Hst]. split; [done| |done|done]. simpl.
    destruct Hl as [H1 H2 H3 H4]. split; try done. simpl. intros Hc t Ht Hr.
    destruct (H3 Hc t Ht Hr) as (tok' & Htok & Hex). exists tok'. split; [done|]. simpl.
    destruct Hex as [Hin|[o' Ho']]; [|right; exists o'; apply elem_of_app; by left].
    apply list_elem_of_lookup in Hin as [j Hj]. destruct (decide (j = i)) as [->|Hne].
    + right. exists o. rewrite Hif in Hj. injection Hj as -> ->.
      apply elem_of_app. right. by apply list_elem_of_singleton.
    + left. apply list_elem_of_lookup. destruct (decide (j < i)).
      * exists j. by rewrite list_lookup_delete_lt.
      * exists (j - 1). rewrite list_lookup_delete_ge by lia. by replace (S (j - 1)) with j by lia.
  - assert (roomy s) as Hr.
    { destruct Hroom as [|Hkeep]; [done|]. destruct (resolve_claims _ _ _ _ _ _ _ Hres) as (r & Hr & Hn).
      by destruct (Hn (Hkeep r Hr)). }
    destruct (answer_live now s id d fb st' Hlv Hr Hres Hd) as [Hl Hop].
    destruct Hlv as [Hi _ Ho Hst]. split; [done|exact Hl| |exact Hst]. simpl. rewrite Hop. exact Ho.
  - destruct Hlv as [Hi Hl Ho Hst]. split; [done| |done|done]. destruct Hl. by split.
Qed.

Lemma fair_reach_live s s' : live s -> star fair_step s s' -> live s'.
Proof. intros Hl Hs. revert Hl. induction Hs; eauto using fair_step_live. Qed.

(** A live waiting run of an acyclic flow is waiting for something real. *)
Lemma live_waits s :
  acyclic def -> live s -> rs_pc s = Waiting -> ch_cancelled (rs_chan s) = false ->
  exists t, t ∈ rs_tasks s /\
    (t_status t = Running /\ has_executor s (t_node t) \/
     t_status t = WaitingHuman /\
       (pending run (rs_store s) (t_node t) \/ answered (ch_commands (rs_chan s)) (t_node t))).
Proof.
  intros Hac [Hi Hl _ Hst] Hpc Hc. destruct (Hst Hpc) as [Hterm (ts & p & Hset & Heq)].
  rewrite <-Heq in Hterm.
  destruct (settled_waits def ts p def_wf Hac) as (t & Ht & Hor); [|done|done|].
  - rewrite Heq. apply Hi.
  - rewrite Heq in Ht. exists t. split; [done|]. destruct Hor as [Hs|Hs].
    + left. split; [done|]. by apply Hl.
    + right. split; [done|]. by apply Hl.
Qed.

Lemma start_live now st st' flow version snapshot :
  unused run st -> inbox_wf st -> start_store def run now st flow version snapshot = Ok st' ->
  live (start_state run st').
Proof.
  intros Hun Hib Hst. destruct (start_inv def run now def_wf _ _ _ _ _ Hun Hst) as [Hi Hq].
  rewrite Forall_forall in Hq.
  assert (ms_inbox st' = ms_inbox st /\ ms_inbox_seq st' = ms_inbox_seq st) as [H1 H2].
  { revert Hst. unfold start_store, create_mission_run. destruct (existsb _ _); [done|].
    intros [= <-]. generalize (nodes def). intros ns.
    match goal with |- context [fold_left _ ns ?x] =>
      assert (ms_inbox x = ms_inbox st /\ ms_inbox_seq x = ms_inbox_seq st) as H by done;
      revert H; generalize x end.
    induction ns as [|n ns IH]; intros x H; simpl; [done|]. apply IH.
    unfold insert_mission_task. by destruct (existsb _ _). }
  split; [exact Hi| |done|done]. split; simpl.
  - constructor.
  - unfold inbox_wf in *. by rewrite H1, H2.
  - intros _ t Ht Hs. destruct (Hq t Ht). congruence.
  - intros t Ht Hs. destruct (Hq t Ht). congruence.
Qed.
End LiveInv.
