(* ===== verification/MissionExec.v ===== *)
(** * MissionExec: the executors of a mission run

    Who is in flight, as against which task says it is running.  An executor
    belongs to a running task until it reports, although a human may exclude a
    whole branch at any time: below a node that is not resolved nothing has
    ever been started (the shape of a flow under execution, stated over the
    statuses), so an exclusion never takes a running task away from its
    executor, and the slots the scheduler counts are the executors there are. *)

From S2P Require Import Prelude Str Json Rows Condition MissionDef MissionSched MissionStore MissionRun.
From S2P Require Import MissionFacts MissionSafety MissionLive.

(** ** The shape of a flow under execution *)

Section Shape.
Context `{JT : JsonText}.
Variable def : MissionDefinition.
Implicit Types (f g : rstr -> MissionTaskStatus) (ts : list MissionTaskState).

(** [x] is strictly downstream of [u]. *)
Definition below (u x : rstr) : Prop :=
  exists e, e ∈ edges def /\ e_from e = u /\ downstream def (e_to e) x.

(** Below an unresolved node everything is queued or excluded; below an
    excluded one everything is over; only agents fail. *)
Record in_order f : Prop := {
  io_below : forall u x, resolved (f u) = false -> below u x -> f x = Queued \/ f x = Excluded;
  io_closed : forall e, e ∈ edges def -> f (e_from e) = Excluded ->
    f (e_to e) = Excluded \/ f (e_to e) = Succeeded;
  io_failed : forall x, f x = Failed -> node_kind def x = Some Agent
}.

Lemma downstream_last u x :
  downstream def u x -> u = x \/ exists e, e ∈ edges def /\ e_to e = x /\ downstream def u (e_from e).
Proof.
  induction 1 as [u|u v x (e & He & <- & <-) _ IH]; [by left|]. right.
  destruct IH as [<-|(e' & He' & Hx & Hd)].
  - exists e. split; [done|]. split; [done|constructor].
  - exists e'. split; [done|]. split; [done|]. eapply star_step; [|exact Hd]. by exists e.
Qed.

Lemma below_last u x :
  below u x -> exists e, e ∈ edges def /\ e_to e = x /\ (e_from e = u \/ below u (e_from e)).
Proof.
  intros (e & He & Hu & [<-|(e' & He' & Hx & Hd)]%downstream_last).
  - exists e. auto.
  - exists e'. split; [done|]. split; [done|]. right. by exists e.
Qed.

Lemma downstream_below u x : downstream def u x -> u = x \/ below u x.
Proof. intros H. destruct H as [|? ? ? (e & He & <- & <-) Hd]; [by left|right]. by exists e. Qed.

(** A queued node whose sources are all resolved has nothing unresolved above it. *)
Lemma ready_above f x :
  in_order f -> f x = Queued ->
  (forall e, e ∈ edges def -> e_to e = x -> resolved (f (e_from e)) = true) ->
  forall u, resolved (f u) = false -> ~ below u x.
Proof.
  intros [Hb Hc _] Hx Hup u Hu (e & He & Hex & Hor)%below_last. specialize (Hup e He Hex).
  destruct Hor as [<-|Hor]; [congruence|].
  destruct (Hb u (e_from e) Hu Hor) as [Hq|Hq]; [by rewrite Hq in Hup|].
  destruct (Hc e He Hq) as [Hy|Hy]; rewrite Hex in Hy; congruence.
Qed.

Lemma started_above f x :
  in_order f -> f x <> Queued -> f x <> Excluded ->
  forall u, resolved (f u) = false -> ~ below u x.
Proof. intros [Hb _ _] H1 H2 u Hu Hx. by destruct (Hb u x Hu Hx). Qed.

(** One unresolved node with nothing unresolved above it moves on. *)
Lemma in_order_update f g x :
  in_order f -> (forall y, y <> x -> g y = f y) -> resolved (f x) = false ->
  (forall u, resolved (f u) = false -> ~ below u x) ->
  g x <> Excluded -> (g x = Failed -> node_kind def x = Some Agent) -> in_order g.
Proof.
  intros Ho Hsame Hx Hup Hex Hfail. destruct Ho as [Hb Hc Hf].
  assert (forall u, resolved (g u) = false -> resolved (f u) = false) as Hun.
  { intros u. destruct (decide (u = x)) as [->|Hne]; [done|by rewrite Hsame]. }
  split.
  - intros u y Hu%Hun Hy. destruct (decide (y = x)) as [->|Hne]; [by destruct (Hup u Hu)|].
    rewrite Hsame by done. by apply (Hb u).
  - intros e He Hs. destruct (decide (e_from e = x)) as [Heq|Hne]; [by rewrite Heq in Hs|].
    rewrite Hsame in Hs by done. destruct (Hc e He Hs) as [H|H].
    all: destruct (decide (e_to e = x)) as [Hx'|Hne']; [rewrite Hx' in H; by rewrite H in Hx|].
    all: rewrite Hsame by done; auto.
  - intros y. destruct (decide (y = x)) as [->|Hne]; [done|]. rewrite Hsame by done. apply Hf.
Qed.

(** Excluding an unresolved node and everything downstream of it. *)
Lemma in_order_exclude f g x :
  in_order f -> resolved (f x) = false ->
  (forall y, downstream def x y -> f y <> Succeeded -> g y = Excluded) ->
  (forall y, g y = f y \/ g y = Excluded /\ downstream def x y) -> in_order g.
Proof.
  intros Ho Hx Hin Hout. destruct Ho as [Hb Hc Hf]. split.
  - intros u y Hu Hy. destruct (Hout u) as [Heq|[Heq _]]; [|by rewrite Heq in Hu].
    rewrite Heq in Hu. destruct (Hout y) as [->|[-> _]]; [by apply (Hb u)|by right].
  - intros e He Hs.
    assert (f (e_to e) = Excluded \/ f (e_to e) = Succeeded \/ downstream def x (e_to e)) as H.
    { destruct (Hout (e_from e)) as [Heq|[_ Hd]]; [rewrite Heq in Hs; destruct (Hc e He Hs); auto|].
      right. right. eapply star_trans_steps; [exact Hd|]. apply star_one. by exists e. }
    destruct (Hout (e_to e)) as [Heq|[Heq _]]; [|by left].
    destruct H as [H|[H|H]]; rewrite ?Heq; auto.
    destruct (decide (f (e_to e) = Succeeded)) as [|Hne]; [by right|].
    left. rewrite <-Heq. by apply Hin.
  - intros y. destruct (Hout y) as [->|[-> _]]; [apply Hf|done].
Qed.

(** ** The statuses of a task list *)

Lemma status_of_unknown ts x : x ∉ map t_node ts -> status_of ts x = Queued.
Proof.
  intros H. unfold status_of. destruct (find_first _ _) as [t|] eqn:E; [|done].
  apply find_first_Some in E as [Ht Hn]. apply str_eqb_eq in Hn. subst x.
  rewrite elem_of_reverse in Ht. destruct H. by apply list_elem_of_In, in_map, list_elem_of_In.
Qed.

Lemma status_of_known ts x :
  NoDup (map t_node ts) -> status_of ts x <> Queued -> exists t, t ∈ ts /\ t_node t = x /\ t_status t = status_of ts x.
Proof.
  intros Hnd Hs. destruct (decide (x ∈ map t_node ts)) as [Hin|Hni]; [|by rewrite status_of_unknown in Hs].
  apply list_elem_of_In, in_map_iff in Hin as (t & <- & Ht). apply list_elem_of_In in Ht.
  exists t. by rewrite status_of_elem.
Qed.

Lemma status_of_insert ts i t t' y :
  NoDup (map t_node ts) -> ts !! i = Some t -> t_node t' = t_node t ->
  status_of (<[i := t']> ts) y = if decide (y = t_node t) then t_status t' else status_of ts y.
Proof.
  intros Hnd Ht Hn. pose proof (insert_nodes ts i t t' Ht Hn) as Hnodes.
  assert (NoDup (map t_node (<[i := t']> ts))) as Hnd' by (by rewrite Hnodes).
  destruct (decide (y = t_node t)) as [->|Hne].
  - rewrite <-Hn. apply status_of_elem; [done|]. apply list_elem_of_lookup. exists i.
    apply list_lookup_insert_eq. by apply lookup_lt_Some in Ht.
  - destruct (decide (y ∈ map t_node ts)) as [Hin|Hni].
    + apply list_elem_of_In, in_map_iff in Hin as (u & <- & Hu). apply list_elem_of_In in Hu.
      rewrite (status_of_elem ts u) by done. apply status_of_elem; [done|].
      apply list_elem_of_lookup in Hu as [j Hj]. apply list_elem_of_lookup. exists j.
      rewrite list_lookup_insert_ne; [done|]. intros ->. congruence.
    + rewrite !status_of_unknown; [done..|by rewrite Hnodes].
Qed.

Lemma in_order_insert ts i t t' :
  NoDup (map t_node ts) -> ts !! i = Some t -> t_node t' = t_node t ->
  in_order (status_of ts) -> resolved (t_status t) = false ->
  (forall u, resolved (status_of ts u) = false -> ~ below u (t_node t)) ->
  t_status t' <> Excluded -> (t_status t' = Failed -> node_kind def (t_node t) = Some Agent) ->
  in_order (status_of (<[i := t']> ts)).
Proof.
  intros Hnd Ht Hn Ho Hr Hup Hex Hf.
  assert (t ∈ ts) as Hin by (by eapply list_elem_of_lookup_2).
  assert (status_of (<[i := t']> ts) (t_node t) = t_status t') as Ht'
    by (rewrite (status_of_insert ts i t t') by done; by rewrite decide_True).
  apply (in_order_update (status_of ts) _ (t_node t)); rewrite ?Ht'; try done.
  - intros y Hy. rewrite (status_of_insert ts i t t') by done. by rewrite decide_False.
  - by rewrite status_of_elem.
Qed.
End Shape.

(** ** The operations *)

Section ExecOps.
Context `{JT : JsonText}.
Variable def : MissionDefinition.
Hypothesis def_wf : definition_wf def.
Implicit Types ts : list MissionTaskState.

(** Every running task stays as it is, [except] one node. *)
Definition keeps_running (except : rstr -> Prop) ts ts' : Prop :=
  forall t, t ∈ ts -> t_status t = Running -> ~ except (t_node t) -> t ∈ ts'.

Lemma insert_keeps_running ts i t t' (P : rstr -> Prop) :
  ts !! i = Some t -> (t_status t = Running -> P (t_node t)) -> keeps_running P ts (<[i := t']> ts).
Proof.
  intros Ht Hp u Hu Hr Hn. apply list_elem_of_lookup in Hu as [j Hj]. apply list_elem_of_lookup. exists j.
  rewrite list_lookup_insert_ne; [done|]. intros ->. simplify_eq. auto.
Qed.

Lemma exclude_task_shape ex t :
  t_node (exclude_task ex t).1 = t_node t /\
  t_status (exclude_task ex t).1 = if excludable ex t then Excluded else t_status t.
Proof. unfold exclude_task. by destruct (excludable ex t). Qed.

Lemma exclude_nodes ex ts : map t_node (map fst (map (exclude_task ex) ts)) = map t_node ts.
Proof. rewrite !map_map. apply map_ext. intros t. apply exclude_task_shape. Qed.

Lemma exclude_status ex ts t :
  NoDup (map t_node ts) -> t ∈ ts ->
  status_of (map fst (map (exclude_task ex) ts)) (t_node t)
  = if excludable ex t then Excluded else status_of ts (t_node t).
Proof.
  intros Hnd Ht. destruct (exclude_task_shape ex t) as [Hn Hs].
  rewrite <-Hn at 1. rewrite status_of_elem, Hs, status_of_elem by
    (done || (by rewrite exclude_nodes) ||
     (rewrite map_map; apply list_elem_of_In, (in_map (fun u => (exclude_task ex u).1)), list_elem_of_In, Ht)).
  done.
Qed.

Lemma exclude_keeps_running ts id :
  covers def ts -> in_order def (status_of ts) -> id ∈ map t_node ts ->
  resolved (status_of ts id) = false -> status_of ts id <> Running ->
  in_order def (status_of (map fst (map (exclude_task (exclude_branch def id)) ts))) /\
  keeps_running (fun _ => False) ts (map fst (map (exclude_task (exclude_branch def id)) ts)).
Proof.
  intros [Hnd Hcov] Ho Hmem Hid Hrun. set (ts' := map fst _).
  assert (map t_node ts' = map t_node ts) as Hnodes by apply exclude_nodes.
  split.
  - apply (in_order_exclude def (status_of ts) _ id); [done|done| |].
    + intros y Hy Hns. destruct (decide (y ∈ map t_node ts)) as [Hin|Hni].
      * apply list_elem_of_In, in_map_iff in Hin as (t & <- & Ht). apply list_elem_of_In in Ht.
        subst ts'. rewrite exclude_status by done. unfold excludable.
        rewrite (status_of_elem ts t) in * by done.
        assert (existsb (str_eqb (t_node t)) (exclude_branch def id) = true) as ->
          by (by apply mem_elem, exclude_branch_downstream).
        by destruct (t_status t).
      * exfalso. apply downstream_last in Hy as [<-|(e & He & <- & _)].
        -- done.
        -- apply Hni, Hcov. by eapply wf_edges.
    + intros y. destruct (decide (y ∈ map t_node ts)) as [Hin|Hni].
      * apply list_elem_of_In, in_map_iff in Hin as (t & <- & Ht). apply list_elem_of_In in Ht.
        subst ts'. rewrite exclude_status by done. destruct (excludable _ t) eqn:E; [right|by left].
        split; [done|]. unfold excludable in E. bools.
        by apply exclude_branch_downstream, mem_elem.
      * left. by rewrite !status_of_unknown by (by rewrite ?Hnodes).
  - intros t Ht Hr _.
    assert (excludable (exclude_branch def id) t = false) as E.
    { unfold excludable. destruct (existsb _ _) eqn:E; [|done].
      apply mem_elem, exclude_branch_downstream, downstream_below in E as [->|Hb].
      - by rewrite status_of_elem in Hrun.
      - destruct (io_below def _ Ho _ _ Hid Hb) as [H|H]; rewrite status_of_elem in H by done; congruence. }
    subst ts'. rewrite map_map. apply list_elem_of_In, in_map_iff. exists t.
    split; [|by apply list_elem_of_In]. unfold exclude_task. by rewrite E.
Qed.

(** Nothing changed. *)
Local Ltac unmoved := by (split; [done|intros ? ? ? ?]).

Lemma respond_in_order ts tokens id d fb :
  covers def ts -> in_order def (status_of ts) -> node_kind def id = Some Human ->
  in_order def (status_of (r_tasks (apply_respond def tokens ts id d fb))) /\
  keeps_running (fun _ => False) ts (r_tasks (apply_respond def tokens ts id d fb)).
Proof.
  intros Hcov Ho Hk. unfold apply_respond.
  destruct (parse_decision d) as [dec|]; [|unmoved].
  destruct (find_index_task ts id) as [i|] eqn:Ei; [|unmoved].
  destruct (ts !! i) as [t|] eqn:Ht; [|unmoved]. destruct (find_node def id); [|unmoved].
  pose proof (find_index_task_Some ts id i t Ei Ht) as <-.
  assert (t ∈ ts) as Hin by (by eapply list_elem_of_lookup_2).
  pose proof (status_of_elem ts t (proj1 Hcov) Hin) as Hst.
  assert (forall t', t_node t' = t_node t -> t_status t = WaitingHuman ->
    t_status t' = Succeeded \/ t_status t' = Queued ->
    in_order def (status_of (<[i := t']> ts)) /\ keeps_running (fun _ => False) ts (<[i := t']> ts)) as Hone.
  { intros t' Hn Hw Hs. split; [|apply (insert_keeps_running ts i t); [done|congruence]].
    apply (in_order_insert def ts i t); try done; try (by apply Hcov); rewrite ?Hw; try done.
    - apply (started_above def (status_of ts)); [done|congruence..].
    - by destruct Hs as [->| ->].
    - by destruct Hs as [->| ->]. }
  destruct dec; simpl.
  - case_bool_decide; simpl; [|unmoved]. apply Hone; auto.
  - case_bool_decide; simpl; [|unmoved]. apply Hone; auto.
  - assert (t_node t ∈ map t_node ts) as Hmem by (by apply list_elem_of_In, in_map, list_elem_of_In).
    pose proof (io_failed def _ Ho (t_node t)) as Hf. rewrite Hst in Hf.
    destruct (t_status t) eqn:Es; simpl; try unmoved;
      try (apply exclude_keeps_running; rewrite ?Hst; done).
    specialize (Hf eq_refl). congruence.
Qed.

Lemma completion_in_order ts tokens c id tok o :
  covers def ts -> Forall (task_ok def) ts -> in_order def (status_of ts) ->
  in_order def (status_of (apply_completion def tokens c ts id tok o).1) /\
  keeps_running (fun x => x = id) ts (apply_completion def tokens c ts id tok o).1.
Proof.
  intros [Hnd _] Hok Ho. unfold apply_completion.
  destruct (negb (bool_decide (tokens !! id = Some tok))); [unmoved|].
  destruct c; [unmoved|].
  destruct (find_index_task ts id) as [i|] eqn:Ei; [|unmoved].
  destruct (ts !! i) as [t|] eqn:Ht; [|unmoved].
  case_bool_decide as Hr; simpl; [|unmoved]. destruct (find_node def id); [|unmoved].
  pose proof (find_index_task_Some ts id i t Ei Ht) as <-.
  assert (t ∈ ts) as Hin by (by eapply list_elem_of_lookup_2).
  pose proof (status_of_elem ts t Hnd Hin) as Hst.
  assert (node_kind def (t_node t) = Some Agent) as Hk.
  { rewrite Forall_forall in Hok. by apply (Hok t Hin). }
  assert (forall t', t_node t' = t_node t -> t_status t' <> Excluded ->
    in_order def (status_of (<[i := t']> ts)) /\ keeps_running (fun x => x = t_node t) ts (<[i := t']> ts))
    as Hone.
  { intros t' Hn Hs. split; [|by apply (insert_keeps_running ts i t)].
    apply (in_order_insert def ts i t); try done; [by rewrite Hr|].
    apply (started_above def (status_of ts)); [done|congruence..]. }
  destruct o; [|destruct (t_attempt t <=? retry_budget def)%Z]; simpl; by apply Hone.
Qed.

(** ** [settle] *)

(** What one pass knows: its snapshot resolves nothing that is not resolved. *)
Definition pass_inv (st : rstr -> MissionTaskStatus) (p : pass) : Prop :=
  covers def (p_tasks p) /\ in_order def (status_of (p_tasks p)) /\
  (forall x, resolved (st x) = true -> resolved (status_of (p_tasks p) x) = true).

Lemma node_action_over st ac ts t t' tr ib sp :
  node_action def st ac ts t = Transit t' tr ib sp ->
  t_status t' <> Excluded /\ t_status t' <> Failed /\
  (ib = true -> node_kind def (t_node t) = Some Human).
Proof.
  unfold node_action, activate, node_kind. case_match; [done|]. case_match; [by intros [= <- _ <- _]|].
  destruct (find_node def (t_node t)) as [n|]; [|done].
  destruct (n_kind n) eqn:E; try case_match; try done; intros [= <- _ <- _]; simpl; by rewrite ?E.
Qed.

Lemma visited_in_order st ac q i q' :
  pass_inv st q -> visited def st ac q i q' -> pass_inv st q'.
Proof.
  intros (Hcov & Ho & Hst) [|t t' tr ib sp Ht Hq Ha]; [done|].
  pose proof (node_action_over _ _ _ _ _ _ _ _ Ha) as (Hex & Hf & _).
  assert (forall e, e ∈ edges def -> e_to e = t_node t -> resolved (st (e_from e)) = true) as Hup.
  { intros e He Het. unfold node_action in Ha.
    destruct (existsb _ (incoming def (t_node t))) eqn:E; [done|].
    apply existsb_elem_false with (a := e) in E; [by apply negb_false_iff in E|].
    by apply incoming_elem. }
  apply node_action_shape in Ha as (Hn & _ & Hnq & _); [|done].
  pose proof (proj1 Hcov) as Hnd.
  assert (t ∈ p_tasks q) as Hin by (by eapply list_elem_of_lookup_2).
  pose proof (status_of_elem _ t Hnd Hin) as Hs. rewrite Hq in Hs.
  split; simpl; [|split].
  - eapply (covers_moves def); [exact Hcov|]. by eapply insert_nodes.
  - apply (in_order_insert def _ i t); try done; [by rewrite Hq|].
    apply (ready_above def (status_of (p_tasks q))); [done|done|]. intros e He Het. by apply Hst, Hup.
  - intros x Hx. rewrite (status_of_insert _ i t t') by done.
    specialize (Hst x Hx). destruct (decide (x = t_node t)) as [->|]; [|done].
    by rewrite Hs in Hst.
Qed.

Lemma settle_in_order ts p :
  covers def ts -> in_order def (status_of ts) -> settle def ts = Some p ->
  in_order def (status_of (p_tasks p)).
Proof.
  intros Hcov Ho. unfold settle. generalize (S (length ts)). intros fuel.
  assert (covers def (p_tasks (pass_of ts)) /\ in_order def (status_of (p_tasks (pass_of ts)))) as H by done.
  revert H. generalize (pass_of ts). clear -def_wf.
  induction fuel as [|k IH]; intros q [Hcov Ho]; simpl; [done|].
  assert (pass_inv (status_of (p_tasks q)) (settle_pass def q)) as (H1 & H2 & _).
  { rewrite settle_pass_eq. apply fold_visit_ind; [|by split]. intros; by eapply visited_in_order. }
  destruct (p_changed _); [by apply IH|]. by intros [= <-].
Qed.

Lemma nodes_elem_inj ts t u : NoDup (map t_node ts) -> t ∈ ts -> u ∈ ts -> t_node t = t_node u -> t = u.
Proof.
  intros Hnd [i Hi]%list_elem_of_lookup [j Hj]%list_elem_of_lookup Hn.
  assert (i = j) as -> by (by eapply nodes_lookup_inj). congruence.
Qed.

(** [settle] starts executors of distinct tasks, each of which it turned to
    running, and takes no running task away. *)
Definition spawns_fresh ts (p : pass) : Prop :=
  map t_node (p_tasks p) = map t_node ts /\ keeps_running (fun _ => False) ts (p_tasks p) /\
  NoDup (p_spawns p).*1 /\
  forall id, id ∈ (p_spawns p).*1 ->
    (exists t, t ∈ p_tasks p /\ t_node t = id /\ t_status t = Running) /\
    forall t, t ∈ ts -> t_node t = id -> t_status t <> Running.

Lemma visited_spawns st ac ts q i q' :
  NoDup (map t_node ts) -> spawns_fresh ts q -> visited def st ac q i q' -> spawns_fresh ts q'.
Proof.
  intros Hnd (Hnodes & Hkeep & Hsp & Hids) [|t t' tr ib sp Ht Hq Ha]; [done|].
  apply node_action_shape in Ha as (Hn & _ & Hnq & _ & _ & _ & Hrun & _); [|done].
  assert (NoDup (map t_node (p_tasks q))) as Hndq by (by rewrite Hnodes).
  assert (t ∈ p_tasks q) as Hin by (by eapply list_elem_of_lookup_2).
  assert (forall u, u ∈ p_tasks q -> t_status u = Running -> u ∈ <[i := t']> (p_tasks q)) as Hstay.
  { intros u Hu Hr. apply list_elem_of_lookup in Hu as [j Hj]. apply list_elem_of_lookup. exists j.
    rewrite list_lookup_insert_ne; [done|]. intros ->. congruence. }
  assert (forall id, id ∈ (p_spawns q).*1 -> id <> t_node t) as Hother.
  { intros id Hid ->. destruct (Hids _ Hid) as [(u & Hu & Hun & Hr) _].
    assert (u = t) as -> by (by eapply nodes_elem_inj). congruence. }
  split; simpl; [by erewrite insert_nodes|]. split; [|].
  { intros u Hu Hr Hx. apply Hstay; [|done]. by apply Hkeep. }
  assert (forall id, id ∈ (p_spawns q).*1 ->
    (exists u, u ∈ <[i := t']> (p_tasks q) /\ t_node u = id /\ t_status u = Running) /\
    forall u, u ∈ ts -> t_node u = id -> t_status u <> Running) as Hids'.
  { intros id Hid. destruct (Hids id Hid) as [(u & Hu & Hun & Hr) Hno]. split; [|done]. exists u. auto. }
  destruct sp as [rq|]; [|by rewrite app_nil_r].
  rewrite fmap_app. simpl. split.
  - apply NoDup_app. split; [done|]. split; [|apply NoDup_singleton].
    intros id Hid Hs. apply list_elem_of_singleton in Hs as ->. by destruct (Hother _ Hid).
  - intros id [Hid|Hid]%elem_of_app; [by apply Hids'|]. apply list_elem_of_singleton in Hid as ->. split.
    + exists t'. split; [|split; [done|by apply Hrun; eexists]].
      apply list_elem_of_lookup. exists i. apply list_lookup_insert_eq. by apply lookup_lt_Some in Ht.
    + intros u Hu Hun Hr. assert (u ∈ p_tasks q) as Hu' by (apply Hkeep; auto).
      assert (u = t) as -> by (by eapply nodes_elem_inj). congruence.
Qed.

Lemma settle_spawns ts p :
  NoDup (map t_node ts) -> settle def ts = Some p -> spawns_fresh ts p.
Proof.
  intros Hnd. apply (settle_ind def (spawns_fresh ts)); [done| |].
  - intros; by eapply visited_spawns.
  - split; [done|]. split; [by intros ? ? ? ?|]. split; [constructor|]. intros id Hid. by apply not_elem_of_nil in Hid.
Qed.

Lemma settle_asks ts p node :
  settle def ts = Some p -> EInbox node ∈ p_effects p -> node_kind def node = Some Human.
Proof.
  apply (settle_ind def (fun p => EInbox node ∈ p_effects p -> node_kind def node = Some Human)); [done| |].
  - intros st ac q i q' Hq [|t t' tr ib sp Ht Hst Ha]; [done|]. simpl.
    apply node_action_over in Ha as (_ & _ & Hib). rewrite elem_of_app, elem_of_cons, elem_of_app.
    intros [?|[Hin|[Hin|Hin]]]; [by apply Hq|done|..].
    + destruct ib; [|by apply not_elem_of_nil in Hin]. apply list_elem_of_singleton in Hin.
      injection Hin as ->. by apply Hib.
    + by apply list_elem_of_singleton in Hin.
  - intros H. by apply not_elem_of_nil in H.
Qed.
End ExecOps.

(** ** The executors of a run *)

(** Answering opens no inbox row. *)
Lemma resolve_pending_back now run st node d fb st' won n :
  resolve_mission_inbox now st run node d fb = (st', won) -> pending run st' n -> pending run st n.
Proof.
  unfold resolve_mission_inbox. destruct (head _) as [pk|]; intros [= <- _]; [|done].
  intros (r & Hr & Hp). apply update_where_elem in Hr as (r0 & Hr0 & ->). exists r0. split; [done|].
  destruct (ib_id r0 =? ib_id pk); [|done]. unfold pending_for in *. by bools.
Qed.

Section ExecInv.
Context `{JT : JsonText}.
Variables (def : MissionDefinition) (run : rstr).
Hypothesis def_wf : definition_wf def.

(** The executors started and not yet accounted for: at work, or reported. *)
Definition executors (s : run_state) : list (rstr * Z) := rs_inflight s ++ (rs_completions s).*1.

Record exec_inv (cs : list MissionCommand) (s : run_state) : Prop := {
  xi_order : rs_pc s <> Done -> in_order def (status_of (rs_tasks s));
  xi_asked : forall node, pending run (rs_store s) node -> node_kind def node = Some Human;
  xi_cmds : Forall (fun c => node_kind def (cmd_node c) = Some Human) cs;
  xi_once : rs_pc s <> Done -> NoDup (executors s).*1;
  xi_own : rs_pc s <> Done -> forall id, id ∈ (executors s).*1 ->
    exists t, t ∈ rs_tasks s /\ t_node t = id /\ t_status t = Running;
  xi_bound : length (executors s) <= max_running def
}.

(** One running task per executor, so no more executors than running tasks. *)
Lemma executors_running ids ts :
  NoDup ids -> (forall id, id ∈ ids -> exists t, t ∈ ts /\ t_node t = id /\ t_status t = Running) ->
  length ids <= running_count ts.
Proof.
  intros Hnd Hown. unfold running_count, count.
  rewrite <-(length_map t_node). apply submseteq_length, NoDup_submseteq; [done|].
  intros id (t & Ht & <- & Hr)%Hown. apply list_elem_of_In, in_map, filter_In.
  split; [by apply list_elem_of_In|by apply bool_decide_eq_true_2].
Qed.

Lemma exec_bound s :
  run_inv def run s -> NoDup (executors s).*1 ->
  (forall id, id ∈ (executors s).*1 ->
    exists t, t ∈ rs_tasks s /\ t_node t = id /\ t_status t = Running) ->
  length (executors s) <= max_running def.
Proof.
  intros Hi Hnd Hown. pose proof (executors_running _ _ Hnd Hown) as H. rewrite length_fmap in H.
  pose proof (ri_running _ _ _ Hi). lia.
Qed.

Lemma own_keep ts ts' (P : rstr -> Prop) (ids ids' : list rstr) :
  keeps_running P ts ts' -> (forall id, id ∈ ids' -> id ∈ ids /\ ~ P id) ->
  (forall id, id ∈ ids -> exists t, t ∈ ts /\ t_node t = id /\ t_status t = Running) ->
  forall id, id ∈ ids' -> exists t, t ∈ ts' /\ t_node t = id /\ t_status t = Running.
Proof.
  intros Hk Hids Hown id Hid. destruct (Hids id Hid) as [Hin Hn].
  destruct (Hown id Hin) as (t & Ht & <- & Hr). exists t. auto.
Qed.

Lemma respond_exec now c cs s :
  run_inv def run s -> rs_pc s <> Done -> exec_inv (c :: cs) s -> exec_inv cs (respond def run now s c).
Proof.
  intros Hi Hpc [Ho Hask Hc Hnd Hown Hb]. apply Forall_cons in Hc as [Hk Hc].
  destruct (respond_in_order def def_wf (rs_tasks s) (rs_tokens s) (cmd_node c) (cmd_decision c)
    (cmd_feedback c) (ri_covers _ _ _ Hi) (Ho Hpc) Hk) as [Ho' Hkeep].
  unfold respond. split; simpl; try done.
  - intros node. rewrite no_inbox_pending by apply respond_no_inbox. apply Hask.
  - intros _. eapply own_keep; [exact Hkeep| |by apply Hown]. intros id Hid. by split; [|intros []].
Qed.

Lemma drain_exec now cs s :
  run_inv def run s -> rs_pc s <> Done -> exec_inv cs s ->
  exec_inv [] (fold_left (respond def run now) cs s).
Proof.
  revert s; induction cs as [|c cs IH]; intros s Hi Hpc Hx; simpl; [done|].
  destruct (respond_inv def run def_wf now s c Hi Hpc) as (Hi' & Hpc' & _).
  apply IH; [done|by rewrite Hpc'|]. by apply respond_exec.
Qed.

(** A report leaves with its executor. *)
Lemma complete_exec now cs s c rest :
  run_inv def run s -> rs_pc s <> Done -> exec_inv cs s -> rs_completions s = c :: rest ->
  exec_inv cs (complete def run now {|
      rs_tasks := rs_tasks s; rs_tokens := rs_tokens s; rs_token_seq := rs_token_seq s;
      rs_inflight := rs_inflight s; rs_completions := rest;
      rs_chan := rs_chan s; rs_store := rs_store s; rs_pc := rs_pc s |} c).
Proof.
  intros Hi Hpc [Ho Hask Hc Hnd Hown Hb] Hco. destruct c as [[id tok] o]. unfold complete. simpl.
  destruct (completion_in_order def (rs_tasks s) (rs_tokens s) (ch_cancelled (rs_chan s)) id tok o
    (ri_covers _ _ _ Hi) (ri_tasks _ _ _ Hi) (Ho Hpc)) as [Ho' Hkeep].
  pose proof (completion_no_inbox def (rs_tasks s) (rs_tokens s) (ch_cancelled (rs_chan s)) id tok o) as Hno.
  destruct (apply_completion _ _ _ _ _ _ _) as [ts es]. cbn [fst snd] in *.
  assert (executors s ≡ₚ (id, tok) :: rs_inflight s ++ rest.*1) as Hp.
  { unfold executors. rewrite Hco. simpl. by rewrite Permutation_middle. }
  specialize (Hnd Hpc). specialize (Hown Hpc). rewrite Hp in Hnd. simpl in Hnd.
  apply NoDup_cons in Hnd as [Hni Hnd].
  split; unfold executors; simpl; try done.
  - intros node. rewrite no_inbox_pending by done. apply Hask.
  - intros _. eapply own_keep; [exact Hkeep| |exact Hown]. intros x Hx. split.
    + rewrite Hp. simpl. by right.
    + by intros ->.
  - rewrite Hp in Hb. simpl in Hb. lia.
Qed.

Lemma spawn_fold_inflight l s :
  map fst (rs_inflight (fold_left spawn l s)) = map fst (rs_inflight s) ++ map fst l /\
  length (rs_inflight (fold_left spawn l s)) = length (rs_inflight s) + length l.
Proof.
  revert s; induction l as [|x l IH]; intros s; simpl; [by rewrite app_nil_r|].
  destruct (IH (spawn s x)) as [-> ->]. simpl. rewrite map_app, length_app, <-app_assoc. simpl.
  split; [done|lia].
Qed.

(** A finished run starts nothing any more: only the bound remains. *)
Lemma finished_exec cs s :
  rs_pc s = Done -> (forall node, pending run (rs_store s) node -> node_kind def node = Some Human) ->
  Forall (fun c => node_kind def (cmd_node c) = Some Human) cs ->
  length (executors s) <= max_running def -> exec_inv cs s.
Proof. intros Hd ? ? ?. split; try done; intros Hn; by destruct Hn. Qed.

Lemma effects_asked now es st :
  (forall node, pending run st node -> node_kind def node = Some Human) ->
  (forall node, EInbox node ∈ es -> node_kind def node = Some Human) ->
  forall node, pending run (apply_effects now run es st) node -> node_kind def node = Some Human.
Proof.
  revert st; induction es as [|e es IH]; intros st Hst Hes; simpl; [done|].
  apply IH; [|intros node Hn; apply Hes; by right].
  intros node (r & Hr & Hp). destruct e as [| m | | |]; simpl in Hr; try (apply Hst; by exists r).
  apply elem_of_app in Hr as [Hr|Hr]; [apply Hst; by exists r|].
  apply list_elem_of_singleton in Hr as ->. unfold pending_for in Hp. simpl in Hp. bools.
  apply str_eqb_eq in H. apply task_id_inj in H as ->. apply Hes. by left.
Qed.

Lemma finish_no_inbox b : forall node, EInbox node ∈ finish_run b -> node_kind def node = Some Human.
Proof. intros node Hn. destruct b; by apply list_elem_of_singleton in Hn. Qed.

Lemma cancel_no_inbox ts node :
  EInbox node ∈ concat (map snd (map cancel_task ts)) -> node_kind def node = Some Human.
Proof.
  intros Hin. exfalso. pose proof (no_inbox_sweep cancel_task ts cancel_task_sweep) as H.
  rewrite Forall_forall in H. exact (H _ Hin).
Qed.

Lemma iterate_exec now s s' :
  run_inv def run s -> rs_pc s = Top -> exec_inv (ch_commands (rs_chan s)) s ->
  iterate def run now s = Some s' -> exec_inv (ch_commands (rs_chan s')) s'.
Proof.
  intros Hi Hpc Hx Hit. assert (rs_pc s <> Done) as Hne by congruence.
  destruct (iterate_inv def run def_wf now s s' Hi Hne Hit) as [Hi' _].
  revert Hit. unfold iterate. destruct (ch_cancelled (rs_chan s)) eqn:Ecan.
  { intros [= <-]. apply finished_exec; [done| |apply Hx|apply Hx]. simpl.
    apply effects_asked; [|apply finish_no_inbox]. apply effects_asked; [apply Hx|apply cancel_no_inbox]. }
  set (s0 := set_chan (set_commands [] (rs_chan s)) s).
  assert (run_inv def run s0) as Hi0 by (apply (inv_frame def run s); auto).
  assert (exec_inv (ch_commands (rs_chan s)) s0) as Hx0 by (destruct Hx; by split).
  pose proof (drain_exec now _ s0 Hi0 Hne Hx0) as Hx1.
  destruct (drain_inv def run def_wf now (ch_commands (rs_chan s)) s0 Hi0 Hne) as (Hi1 & Hpc1 & _).
  pose proof (drain_chan def run now (ch_commands (rs_chan s)) s0) as Hch.
  destruct (fold_left (respond def run now) _ s0) as [ts1 tk1 sq1 if1 co1 ch1 st1 pc1] eqn:E1.
  simpl in Hch, Hpc1. subst ch1 pc1. simpl. destruct (settle def ts1) as [p|] eqn:Es; simpl; [|done].
  pose proof (ri_covers _ _ _ Hi1) as Hcov1. destruct Hx1 as [Ho Hask _ Hnd Hown Hb].
  specialize (Ho Hne). specialize (Hnd Hne). specialize (Hown Hne). simpl in *.
  assert (forall node, pending run (apply_effects now run (p_effects p) st1) node ->
    node_kind def node = Some Human) as Hask'
    by (apply effects_asked; [done|intros node; by apply settle_asks with ts1]).
  intros [= <-]. destruct (all_terminal (p_tasks p)) eqn:Eall.
  { apply finished_exec; simpl; [done| |constructor|done]. apply effects_asked; [done|apply finish_no_inbox]. }
  destruct (settle_spawns def ts1 p (proj1 Hcov1) Es) as (_ & Hkeep & Hsn & Hsf).
  match type of Hi' with run_inv _ _ (set_pc _ (fold_left spawn ?l ?s2)) =>
    destruct (spawn_fold_tasks l s2) as (Ht & Hst & _ & Hchn & Hco & _);
    destruct (spawn_fold_inflight l s2) as [Hif _] end.
  set (s2 := fold_left spawn _ _) in *. simpl in Ht, Hst, Hchn, Hco, Hif.
  assert ((executors (set_pc Waiting s2)).*1
    ≡ₚ (p_spawns p).*1 ++ (if1 ++ co1.*1).*1) as Hp.
  { unfold executors. simpl. rewrite !fmap_app. change (fst <$> rs_inflight s2) with (map fst (rs_inflight s2)).
    rewrite Hif, Hco, <-app_assoc. apply Permutation_app_swap_app. }
  unfold executors in Hnd, Hown. simpl in Hnd, Hown.
  assert (NoDup (executors (set_pc Waiting s2)).*1) as Hnd'.
  { rewrite Hp. apply NoDup_app. split; [done|]. split; [|done]. intros id Hid Hold.
    destruct (Hsf id Hid) as [_ Hno]. destruct (Hown id Hold) as (t & Htin & Hn & Hr). by apply (Hno t). }
  assert (forall id, id ∈ (executors (set_pc Waiting s2)).*1 ->
    exists t, t ∈ rs_tasks (set_pc Waiting s2) /\ t_node t = id /\ t_status t = Running) as Hown'.
  { intros id. rewrite Hp. simpl. rewrite Ht. intros [Hid|Hid]%elem_of_app; [by apply Hsf|].
    eapply own_keep; [exact Hkeep| |exact Hown|exact Hid]. intros x Hin. by split; [|intros []]. }
  split; [|  |  |done|done|by apply exec_bound].
  - intros _. simpl. rewrite Ht. by apply (settle_in_order def ts1).
  - simpl. by rewrite Hst.
  - simpl. rewrite Hchn. constructor.
Qed.

Lemma executors_reported s i e o :
  rs_inflight s !! i = Some e ->
  delete i (rs_inflight s) ++ (rs_completions s ++ [(e, o)]).*1 ≡ₚ executors s.
Proof.
  intros He. unfold executors. rewrite fmap_app. simpl.
  rewrite (Permutation_app_comm (rs_completions s).*1). simpl.
  rewrite <-Permutation_middle, app_comm_cons. f_equiv. symmetry. by apply delete_Permutation.
Qed.

Lemma run_step_exec s s' :
  run_inv def run s -> inbox_wf (rs_store s) -> exec_inv (ch_commands (rs_chan s)) s ->
  run_step def run s s' -> exec_inv (ch_commands (rs_chan s')) s'.
Proof.
  intros Hi Hib Hx [now Hs].
  destruct Hs as [s s' Hpc Hit|s c rest Hpc Hc|s c rest Hpc Hc|s Hpc Hc|s i id tok o Hif
    |s id d fb st' Hres Hd|s].
  - by apply (iterate_exec now s).
  - assert (rs_pc s <> Done) as Hne by congruence.
    destruct (complete_exec now _ s c rest Hi Hne Hx Hc) as [H1 H2 H3 H4 H5 H6].
    destruct c as [[id tok] o]. simpl in *.
    destruct (apply_completion _ _ _ _ _ _ _) as [ts es]. by split; auto.
  - assert (rs_pc s <> Done) as Hne by congruence. rewrite Hc in Hx.
    assert (run_inv def run (set_chan (set_commands rest (rs_chan s)) s)) as Hi1
      by (apply (inv_frame def run s); auto).
    assert (exec_inv (c :: rest) (set_chan (set_commands rest (rs_chan s)) s)) as Hx1 by (destruct Hx; by split).
    destruct (respond_exec now c rest _ Hi1 Hne Hx1) as [H1 H2 H3 H4 H5 H6]. by split; auto.
  - assert (rs_pc s <> Done) as Hne by congruence. destruct Hx as [H1 H2 H3 H4 H5 H6]. by split; auto.
  - destruct Hx as [H1 H2 H3 H4 H5 H6]. pose proof (executors_reported s i (id, tok) o Hif) as Hp.
    match type of Hp with ?l ≡ₚ _ => set (ex := l) in * end.
    split; try done; change (executors _) with ex.
    + intros Hne. rewrite Hp. by apply H4.
    + intros Hne x. rewrite Hp. by apply H5.
    + by rewrite Hp.
  - destruct Hx as [H1 H2 H3 H4 H5 H6].
    assert (forall node, pending run st' node -> pending run (rs_store s) node) as Hback.
    { intros node. by apply (resolve_pending_back now run (rs_store s) id d fb st' true). }
    split; simpl; try done; [intros node Hn; by apply H2, Hback|].
    destruct (Registry.try_send _ _) as [c|] eqn:E; simpl; [|done].
    destruct (try_send_open _ _ _ E) as (_ & _ & ->). apply Forall_app. split; [done|].
    repeat constructor. apply H2. by apply (resolve_pending now run _ id d fb st' true id Hib Hres).
  - destruct Hx as [H1 H2 H3 H4 H5 H6]. by split.
Qed.

Lemma drain_inbox_wf now cs s :
  inbox_wf (rs_store s) -> inbox_wf (rs_store (fold_left (respond def run now) cs s)).
Proof.
  revert s; induction cs as [|c cs IH]; intros s H; simpl; [done|].
  apply IH. simpl. by apply apply_effects_inbox_wf.
Qed.

Lemma run_step_inbox_wf s s' : inbox_wf (rs_store s) -> run_step def run s s' -> inbox_wf (rs_store s').
Proof.
  intros Hib [now Hs]. destruct Hs as [s s' Hpc Hit|s [[id tok] o] rest Hpc Hc|s c rest Hpc Hc|s Hpc Hc
    |s i id tok o Hif|s id d fb st' Hres Hd|s]; simpl; try done.
  - revert Hit. unfold iterate. destruct (ch_cancelled _).
    { intros [= <-]. simpl. by do 2 apply apply_effects_inbox_wf. }
    pose proof (drain_inbox_wf now (ch_commands (rs_chan s)) (set_chan (set_commands [] (rs_chan s)) s) Hib) as H.
    destruct (settle def _) as [p|]; simpl; [|done]. intros [= <-].
    destruct (all_terminal _); simpl; [by do 2 apply apply_effects_inbox_wf|].
    match goal with |- context [fold_left spawn ?l ?x] =>
      destruct (spawn_fold_tasks l x) as (_ & -> & _) end.
    simpl. by apply apply_effects_inbox_wf.
  - destruct (apply_completion _ _ _ _ _ _ _) as [ts es]. simpl. by apply apply_effects_inbox_wf.
  - by apply apply_effects_inbox_wf.
  - by apply (resolve_pending now run _ id d fb st' true id Hib Hres).
Qed.

(** ** Executors ever started *)

(** [launched n s s']: on the way from [s] to [s'], [n] executors were started
    ([rs_inflight] grows by one entry per executor spawned). *)
Inductive launched : nat -> run_state -> run_state -> Prop :=
| launched_refl s : launched 0 s s
| launched_step n s t u :
    run_step def run s t -> launched n t u ->
    launched (length (rs_inflight t) - length (rs_inflight s) + n) s u.

Lemma launched_star n s s' : launched n s s' -> star (run_step def run) s s'.
Proof. induction 1; [constructor|by eapply star_step]. Qed.

Lemma star_launched s s' : star (run_step def run) s s' -> exists n, launched n s s'.
Proof. induction 1 as [s|s t u Hst _ [n IH]]; eexists; [constructor|by econstructor]. Qed.

(** A step starts no more executors than it draws tokens. *)
Lemma step_launches s t :
  run_step def run s t ->
  (Z.of_nat (length (rs_inflight t)) - Z.of_nat (length (rs_inflight s)) <= 0 /\
   rs_token_seq s <= rs_token_seq t)%Z /\ (rs_pc s = Done -> rs_pc t = Done)
  \/ (rs_pc s <> Done /\ rs_pc t <> Done /\
      0 <= rs_token_seq t - rs_token_seq s /\
      Z.of_nat (length (rs_inflight t)) - Z.of_nat (length (rs_inflight s))
        <= rs_token_seq t - rs_token_seq s)%Z.
Proof.
  intros [now Hs]. destruct Hs as [s s' Hpc Hit|s [[id tok] o] rest Hpc Hc|s c rest Hpc Hc|s Hpc Hc
    |s i id tok o Hif|s id d fb st' Hres Hd|s]; simpl; try (left; split; [split; lia|congruence]).
  - revert Hit. unfold iterate. destruct (ch_cancelled _).
    { intros [= <-]. left. simpl. split; [split; lia|done]. }
    set (s0 := set_chan _ s).
    assert (forall cs x, rs_inflight (fold_left (respond def run now) cs x) = rs_inflight x /\
      rs_token_seq (fold_left (respond def run now) cs x) = rs_token_seq x) as Hdr.
    { induction cs as [|c cs IH]; intros x; simpl; [done|]. by destruct (IH (respond def run now x c)) as [-> ->]. }
    destruct (Hdr (ch_commands (rs_chan s)) s0) as [Hif Hsq].
    destruct (settle def _) as [p|]; simpl; [|done]. intros [= <-]. destruct (all_terminal _); simpl.
    + left. rewrite Hif, Hsq. split; [simpl; split; lia|congruence].
    + right. split; [congruence|]. split; [done|].
      match goal with |- context [fold_left spawn ?l ?x] =>
        destruct (spawn_fold_tasks l x) as (_ & _ & _ & _ & _ & ->);
        destruct (spawn_fold_inflight l x) as [_ ->] end.
      simpl. rewrite Hif, Hsq. simpl. split; lia.
  - destruct (apply_completion _ _ _ _ _ _ _) as [ts es]. simpl. left; split; [split; lia|congruence].
  - left. rewrite length_delete by (by eexists). split; [split; lia|done].
Qed.

Lemma moves_agents ts ts' : moves def ts ts' -> count (is_agent def) ts' = count (is_agent def) ts.
Proof.
  assert (forall l, count (is_agent def) l
    = count (fun id => bool_decide (node_kind def id = Some Agent)) (map t_node l)) as H.
  { intros l. induction l as [|t l IH]; [done|]. cbn [map]. rewrite !count_cons, IH. done. }
  intros Hm. by rewrite (H ts'), (H ts), (moves_nodes def ts ts' Hm).
Qed.

Lemma launched_bound n s u :
  run_inv def run s -> launched n s u ->
  (rs_pc s = Done -> n = 0) /\
  (rs_pc s <> Done -> (Z.of_nat n + rs_token_seq s
     <= (retry_budget def + 1) * Z.of_nat (count (is_agent def) (rs_tasks s)))%Z).
Proof.
  intros Hi Hl. revert Hi. induction Hl as [s|n s t u Hst Hl IH]; intros Hi.
  - split; [done|]. intros Hne. pose proof (ri_launches _ _ _ Hi Hne).
    pose proof (launches_bound def (rs_tasks s) (retries_nonneg def def_wf) (ri_tasks _ _ _ Hi)). lia.
  - destruct (run_step_inv def run def_wf s t Hi Hst) as [Hi' Hm].
    destruct (IH Hi') as [Hdone Hnot]. pose proof (moves_agents _ _ Hm) as Hag. rewrite Hag in Hnot.
    destruct (step_launches s t Hst) as [[[Hg Hq] Hd]|(Hs & Ht & Hq & Hg)].
    + split; [intros H; specialize (Hd H); specialize (Hdone Hd); lia|].
      intros Hne. destruct (decide (rs_pc t = Done)) as [Hpt|Hpt].
      * rewrite (Hdone Hpt). pose proof (ri_launches _ _ _ Hi Hne).
        pose proof (launches_bound def (rs_tasks s) (retries_nonneg def def_wf) (ri_tasks _ _ _ Hi)). lia.
      * specialize (Hnot Hpt). lia.
    + split; [done|]. intros _. specialize (Hnot Ht). lia.
Qed.

Lemma run_reach_exec s s' :
  run_inv def run s -> inbox_wf (rs_store s) -> exec_inv (ch_commands (rs_chan s)) s ->
  star (run_step def run) s s' -> exec_inv (ch_commands (rs_chan s')) s'.
Proof.
  intros Hi Hib Hx Hs. revert Hi Hib Hx. induction Hs as [s|s t u Hst _ IH]; intros Hi Hib Hx; [done|].
  apply IH; [by apply (run_step_inv def run def_wf s t Hi Hst)|by eapply run_step_inbox_wf|by eapply run_step_exec].
Qed.

(** At the start nothing runs and nobody was asked. *)
Lemma start_exec s :
  Forall (fun t => t_status t = Queued /\ t_attempt t = 1%Z) (rs_tasks s) ->
  rs_inflight s = [] -> rs_completions s = [] -> ch_commands (rs_chan s) = [] ->
  (forall node, ~ pending run (rs_store s) node) -> NoDup (map t_node (rs_tasks s)) ->
  exec_inv (ch_commands (rs_chan s)) s.
Proof.
  intros Hq Hif Hco Hcmd Hask Hnd.
  assert (forall x, status_of (rs_tasks s) x = Queued) as Hall.
  { intros x. destruct (decide (status_of (rs_tasks s) x = Queued)) as [|Hne]; [done|].
    destruct (status_of_known _ x Hnd Hne) as (t & Ht & _ & Hs). rewrite Forall_forall in Hq.
    destruct (Hq t Ht). congruence. }
  assert (executors s = []) as He by (unfold executors; by rewrite Hif, Hco).
  split; rewrite ?He, ?Hcmd; simpl.
  - intros _. split; intros; rewrite Hall in *; auto; done.
  - intros node Hn. by destruct (Hask node).
  - constructor.
  - intros _. constructor.
  - intros _ id Hid. by apply not_elem_of_nil in Hid.
  - unfold max_running. lia.
Qed.
End ExecInv.
