(* ===== verification/MissionThms.v ===== *)
(** * MissionThms: what the mission engine guarantees

    The properties of the engine as a whole, over every reachable state of a
    run of a parsed definition, each with a concrete run as witness. *)

From S2P Require Import Prelude Str Json Rows Condition MissionDef MissionSched MissionStore MissionRun.
From S2P Require Import MissionFacts MissionSafety MissionLive MissionExec.

(** ** A concrete run *)

Definition empty_store : mission_store :=
  {| ms_flows := []; ms_runs := []; ms_tasks := []; ms_inbox := []; ms_inbox_seq := 0 |}.

Definition demo_def : MissionDefinition := parsed demo_json.
Definition demo_now : rstr := str "2026-01-01".
Definition demo_run : rstr := str "run".

Definition demo_start : mission_store :=
  match start_store demo_def demo_run demo_now empty_store (str "flow") 1 (str "{}") with
  | Ok st => st
  | Err _ => empty_store
  end.

Definition demo_s0 : run_state := @start_state demo_text demo_run demo_start.

(** After the first iteration: the input is done, the agent is running. *)
Definition demo_s1 : run_state :=
  default demo_s0 (@iterate demo_text demo_def demo_run demo_now demo_s0).

(** Its executor reports [risk=high], and the scheduler settles again. *)
Definition demo_s2 : run_state := {|
  rs_tasks := rs_tasks demo_s1; rs_tokens := rs_tokens demo_s1; rs_token_seq := rs_token_seq demo_s1;
  rs_inflight := delete 0 (rs_inflight demo_s1);
  rs_completions := rs_completions demo_s1 ++
    [(str "work", 1%Z, Ok (JObj [(str "risk", JStr (str "high"))]))];
  rs_chan := rs_chan demo_s1; rs_store := rs_store demo_s1; rs_pc := rs_pc demo_s1 |}.

Example demo_statuses :
  map (fun t => (t_node t, t_status t)) (rs_tasks demo_s1)
  = [(str "gate", Queued); (str "in", Succeeded); (str "out", Queued); (str "work", Running)]
  /\ rs_inflight demo_s1 = [(str "work", 1%Z)] /\ rs_pc demo_s1 = Waiting.
Proof. vm_compute. done. Qed.

(** ** The scheduler *)

Section SchedulerProps.
Context `{JT : JsonText}.
Variable def : MissionDefinition.

(** C1: [settle] always terminates, on any flow and any task list, and stops
    only when no queued task can move any more. *)
Theorem settle_total (ts : list MissionTaskState) :
  exists p, settle def ts = Some p /\
    forall t, t ∈ p_tasks p -> t_status t = Queued ->
      node_action def (status_of (p_tasks p)) (activated_pairs def (p_tasks p)) (p_tasks p) t = Skip.
Proof.
  destruct (settle_terminates def ts) as (p & Hp & _). exists p. split; [done|].
  intros t Ht Hq. by eapply settle_stable.
Qed.

(** A completion is applied exactly when it carries the task's current
    token, the run is not cancelled and the task is running: success stores
    the output, a failure within the retry budget queues the next attempt,
    a failure beyond it is final; otherwise nothing changes. *)
Theorem apply_completion_spec (tokens : gmap rstr Z) (cancelled : bool)
  (ts : list MissionTaskState) (i : nat) (t : MissionTaskState) (token : Z) (o : result json rstr) :
  covers def ts -> ts !! i = Some t ->
  let r := apply_completion def tokens cancelled ts (t_node t) token o in
  if bool_decide (tokens !! t_node t = Some token) && negb cancelled
     && bool_decide (t_status t = Running)
  then r.1 = <[i :=
         match o with
         | Ok out => {| t_node := t_node t; t_status := Succeeded; t_attempt := t_attempt t;
                        t_output := Some out; t_error := None |}
         | Err e =>
             if bool_decide (t_attempt t <= Z.min (retries (settings def)) 10)%Z
             then {| t_node := t_node t; t_status := Queued; t_attempt := as_u32 (t_attempt t + 1);
                     t_output := t_output t; t_error := Some e |}
             else {| t_node := t_node t; t_status := Failed; t_attempt := t_attempt t;
                     t_output := t_output t; t_error := Some e |}
         end]> ts
  else r = (ts, []).
Proof.
  intros [Hnd Hcov] Ht. simpl. unfold apply_completion.
  destruct (bool_decide (tokens !! t_node t = Some token)); [|done].
  destruct cancelled; [done|]. cbn [negb andb].
  assert (t_node t ∈ map t_node ts) as Hid
    by (apply list_elem_of_In, in_map, list_elem_of_In; by eapply list_elem_of_lookup_2).
  destruct (find_index_task_elem ts (t_node t) Hid) as [j Hj]. rewrite Hj.
  destruct (find_index_Some _ _ _ Hj) as (u & Hu & Hun & _). apply str_eqb_eq in Hun.
  assert (j = i) as -> by (by eapply nodes_lookup_inj).
  rewrite Ht. destruct (bool_decide (t_status t = Running)); [|done]. cbn [negb].
  destruct (find_node_elem def (t_node t)) as [n ->]; [by apply Hcov|].
  destruct o as [out|e]; [done|]. unfold retry_budget.
  destruct (Z.leb_spec (t_attempt t) (Z.min (retries (settings def)) 10));
    [rewrite bool_decide_eq_true_2 by done|rewrite bool_decide_eq_false_2 by lia]; done.
Qed.
End SchedulerProps.

Lemma demo_covers : covers demo_def (rs_tasks demo_s1).
Proof.
  split; [apply (bool_decide_unpack _); vm_compute; exact I|].
  assert (Permutation (map t_node (rs_tasks demo_s1)) (map n_id (nodes demo_def))) as H
    by (apply (bool_decide_unpack _); vm_compute; exact I).
  intros id. by rewrite H.
Qed.

(** The running agent fails once: the retry budget of the demo flow is 2. *)
Definition demo_work : MissionTaskState := {|
  t_node := str "work"; t_status := Running; t_attempt := 1; t_output := None; t_error := None |}.

Definition demo_retry : MissionTaskState := {|
  t_node := str "work"; t_status := Queued; t_attempt := 2; t_output := None;
  t_error := Some (str "boom") |}.

Lemma demo_work_at : rs_tasks demo_s1 !! 3 = Some demo_work.
Proof. vm_compute. reflexivity. Qed.

Lemma apply_completion_spec_witness :
  (@apply_completion demo_text demo_def (rs_tokens demo_s1) false (rs_tasks demo_s1)
    (str "work") 1 (Err (str "boom"))).1 = <[3 := demo_retry]> (rs_tasks demo_s1).
Proof.
  pose proof (@apply_completion_spec demo_text demo_def (rs_tokens demo_s1) false (rs_tasks demo_s1) 3
    demo_work 1 (Err (str "boom")) demo_covers demo_work_at) as H.
  cbv zeta in H.
  assert (bool_decide (rs_tokens demo_s1 !! t_node demo_work = Some 1%Z) && negb false
    && bool_decide (t_status demo_work = Running) = true) as Hc by (vm_compute; reflexivity).
  rewrite Hc in H. exact H.
Defined.

(** ** Runs *)

(** [s0] is the state [mission.start] hands to the scheduler: a parsed
    definition and the rows it inserted under an unused run id. *)
Definition started `{JT : JsonText} (def : MissionDefinition) (run : rstr) (s0 : run_state) : Prop :=
  exists v now st st' flow version snapshot,
    parse_definition v = Ok def /\ unused run st /\ inbox_wf st /\
    start_store def run now st flow version snapshot = Ok st' /\ s0 = start_state run st'.

Section StartedFacts.
Context `{JT : JsonText}.
Variables (def : MissionDefinition) (run : rstr) (s0 : run_state).
Hypothesis Hstart : started def run s0.

Lemma started_wf : definition_wf def.
Proof. destruct Hstart as (v & _ & _ & _ & _ & _ & _ & Hv & _). by eapply parse_definition_wf. Qed.

Lemma started_inv : run_inv def run s0.
Proof.
  pose proof started_wf as Hwf.
  destruct Hstart as (v & now & st & st' & fl & ver & sn & _ & Hun & _ & Hst & ->).
  by eapply (start_inv def run now Hwf).
Qed.

Lemma started_live : live def run s0.
Proof.
  pose proof started_wf as Hwf.
  destruct Hstart as (v & now & st & st' & fl & ver & sn & _ & Hun & Hib & Hst & ->).
  by eapply (start_live def run Hwf now).
Qed.

Lemma started_inbox : inbox_wf (rs_store s0).
Proof. apply (li_inbox _ _ _ (lv_live _ _ _ started_live)). Qed.

Lemma started_top : rs_pc s0 = Top /\ rs_token_seq s0 = 0%Z.
Proof. destruct Hstart as (v & now & st & st' & fl & ver & sn & _ & _ & _ & _ & ->). done. Qed.

Lemma started_exec :
  (forall node, ~ pending run (rs_store s0) node) -> exec_inv def run (ch_commands (rs_chan s0)) s0.
Proof.
  intros Hask. pose proof started_wf as Hwf. pose proof (proj1 (ri_covers _ _ _ started_inv)) as Hnd.
  destruct Hstart as (v & now & st & st' & fl & ver & sn & _ & Hun & _ & Hst & ->).
  apply start_exec; try done. by eapply (start_inv def run now Hwf).
Qed.

Lemma reached_inv s : star (run_step def run) s0 s -> run_inv def run s.
Proof. intros Hs. eapply run_reach_inv; [apply started_wf|apply started_inv|exact Hs]. Qed.
End StartedFacts.

Lemma demo_started : @started demo_text demo_def demo_run demo_s0.
Proof.
  exists demo_json, demo_now, empty_store, demo_start, (str "flow"), 1%Z, (str "{}").
  split; [vm_compute; reflexivity|].
  split; [intros r Hr; by apply not_elem_of_nil in Hr|].
  split; [split; [constructor|intros r Hr; by apply not_elem_of_nil in Hr]|].
  split; [vm_compute; reflexivity|done].
Qed.

Lemma demo_iterate : @iterate demo_text demo_def demo_run demo_now demo_s0 = Some demo_s1.
Proof. vm_compute. reflexivity. Qed.

Lemma demo_step1 : @run_step demo_text demo_def demo_run demo_s0 demo_s1.
Proof. exists demo_now. apply step_iterate; [done|apply demo_iterate]. Qed.

(** The executor of [work] reports. *)
Lemma demo_step2 : @run_step demo_text demo_def demo_run demo_s1 demo_s2.
Proof.
  exists demo_now.
  apply (@step_executor demo_text demo_def demo_run demo_now demo_s1 0 (str "work") 1%Z
    (Ok (JObj [(str "risk", JStr (str "high"))]))).
  vm_compute. reflexivity.
Qed.

(** C3: what is stored is what the scheduler believes: in every reachable
    state of a run, the row of each task holds its status and attempt; every
    status broadcast of the operations that can run there is made after the
    write it reports, with the same status and attempt. *)
Theorem run_persists_before_broadcast `{JT : JsonText} (def : MissionDefinition) (run : rstr)
  (s0 s : run_state) :
  started def run s0 -> star (run_step def run) s0 s ->
  mirrors run (rs_store s) (rs_tasks s) /\
  forall now,
    (forall p, settle def (rs_tasks s) = Some p -> honest now run (p_effects p) (rs_store s)) /\
    (forall id tok o, honest now run
       (apply_completion def (rs_tokens s) (ch_cancelled (rs_chan s)) (rs_tasks s) id tok o).2
       (rs_store s)) /\
    (forall id d fb, honest now run
       (r_effects (apply_respond def (rs_tokens s) (rs_tasks s) id d fb)) (rs_store s)).
Proof.
  intros Hst Hs. pose proof (reached_inv def run s0 Hst s Hs) as Hi.
  pose proof (ri_mirrors _ _ _ Hi) as Hm. destruct (ri_covers _ _ _ Hi) as [Hnd _].
  split; [done|]. intros now. split; [|split].
  - intros p Hp. by apply (settle_mirrors now run def (rs_store s) (rs_tasks s) p).
  - intros id tok o. by apply completion_faithful.
  - intros id d fb. by apply respond_faithful.
Qed.

Lemma run_persists_before_broadcast_witness :
  @started demo_text demo_def demo_run demo_s0 /\
  mirrors demo_run (rs_store demo_s1) (rs_tasks demo_s1).
Proof.
  split; [apply demo_started|].
  exact (proj1 (@run_persists_before_broadcast demo_text demo_def demo_run demo_s0 demo_s1 demo_started
    (star_one _ _ _ demo_step1))).
Defined.

(** C5: bounds of every reachable state of a run under a fresh id (nothing in
    the inbox is the run's yet): at most [concurrency] (clamped to 1..64)
    executors are in flight, those that have reported and are not yet processed
    included; while the run is not finished they belong to distinct tasks, each
    of them running, whatever was excluded meanwhile; at most as many tasks
    are running; no agent task is past attempt [min(retries, 10) + 1]; and the
    executors started since the start of the run, one per growth of the list
    of those in flight, are at most that many per agent node, in total. *)
Theorem run_bounds `{JT : JsonText} (def : MissionDefinition) (run : rstr) (s0 s : run_state) :
  started def run s0 -> (forall node, ~ pending run (rs_store s0) node) ->
  star (run_step def run) s0 s ->
  let slots := Nat.min (Nat.max (Z.to_nat (concurrency (settings def))) 1) 64 in
  let attempts := (Z.min (retries (settings def)) 10 + 1)%Z in
  length (executors s) <= slots /\ running_count (rs_tasks s) <= slots /\
  (rs_pc s <> Done -> NoDup (executors s).*1 /\ forall id, id ∈ (executors s).*1 ->
     exists t, t ∈ rs_tasks s /\ t_node t = id /\ t_status t = Running) /\
  (forall t, t ∈ rs_tasks s -> node_kind def (t_node t) = Some Agent ->
     (1 <= t_attempt t <= attempts)%Z) /\
  (forall n, launched def run n s0 s ->
     (Z.of_nat n <= attempts * Z.of_nat (count (is_agent def) (rs_tasks s)))%Z) /\
  (rs_pc s <> Done ->
     (rs_token_seq s <= attempts * Z.of_nat (count (is_agent def) (rs_tasks s)))%Z).
Proof.
  intros Hst Hask Hs. pose proof (started_wf def run s0 Hst) as Hwf.
  pose proof (started_inv def run s0 Hst) as Hi0.
  destruct (run_reach_inv def run Hwf s0 s Hi0 Hs) as [[_ _ Hok Hr Hl _] Hm].
  destruct (run_reach_exec def run Hwf s0 s Hi0 (started_inbox def run s0 Hst)
    (started_exec def run s0 Hst Hask) Hs) as [_ _ _ Hnd Hown Hb].
  split; [done|]. split; [done|]. split; [auto|]. split; [|split].
  - rewrite Forall_forall in Hok. intros t Ht. by apply Hok.
  - intros n Hn. destruct (launched_bound def run Hwf n s0 s Hi0 Hn) as [Hd Hnd0].
    rewrite (moves_agents def _ _ Hm). destruct (started_top def run s0 Hst) as [Hpc Hseq].
    rewrite Hpc, Hseq in Hnd0. specialize (Hnd0 ltac:(done)). unfold retry_budget in Hnd0. lia.
  - intros Hpc. pose proof (launches_bound def (rs_tasks s) (retries_nonneg def Hwf) Hok).
    specialize (Hl Hpc). unfold retry_budget in *. lia.
Qed.

Lemma run_bounds_witness :
  (rs_inflight demo_s1 = [(str "work", 1%Z)] /\ @launched demo_text demo_def demo_run 1 demo_s0 demo_s1) /\
  length (executors demo_s1) <=
    Nat.min (Nat.max (Z.to_nat (concurrency (settings demo_def))) 1) 64.
Proof.
  split.
  - split; [vm_compute; reflexivity|].
    assert (length (rs_inflight demo_s1) - length (rs_inflight demo_s0) + 0 = 1) as <-
      by (vm_compute; reflexivity).
    eapply launched_step; [exact demo_step1|constructor].
  - refine (proj1 (@run_bounds demo_text demo_def demo_run demo_s0 demo_s1 demo_started _
      (star_one _ _ _ demo_step1))).
    intros node (r & Hr & _). revert Hr. vm_compute. intros Hr. inversion Hr.
Defined.

(** C4: refinement: whatever happens to a run (executor reports, answers,
    cancellation, in any order), each of its tasks only moves along the task
    state machine [task_step]; so a succeeded or excluded task keeps its
    status for ever and a failed or cancelled one can only become excluded. *)
Theorem run_refines_task_machine `{JT : JsonText} (def : MissionDefinition) (run : rstr)
  (s0 s s' : run_state) :
  started def run s0 -> star (run_step def run) s0 s -> star (run_step def run) s s' ->
  Forall2 (fun t t' => star (task_step def) t t' /\ t_node t' = t_node t /\
                       status_le (t_status t) (t_status t')) (rs_tasks s) (rs_tasks s').
Proof.
  intros Hst Hs Hs'. pose proof (reached_inv def run s0 Hst s Hs) as Hi.
  destruct (run_reach_inv def run (started_wf def run s0 Hst) s s' Hi Hs') as [_ Hm].
  eapply Forall2_impl; [exact Hm|]. intros t t' H.
  split; [done|]. split; [by eapply task_star_node|by eapply task_star_status].
Qed.

Lemma run_refines_task_machine_witness :
  Forall2 (fun t t' => star (@task_step demo_def) t t' /\ t_node t' = t_node t /\
                       status_le (t_status t) (t_status t')) (rs_tasks demo_s0) (rs_tasks demo_s2).
Proof.
  apply (@run_refines_task_machine demo_text demo_def demo_run demo_s0 demo_s0 demo_s2 demo_started).
  - apply star_refl.
  - eapply star_step; [apply demo_step1|]. apply star_one, demo_step2.
Defined.

(** C2: a run of an acyclic flow never gets stuck: while it waits (and is not
    cancelled), some running task has its executor in flight or its report
    queued under the token the scheduler accepts, or some task waits for a
    human who has a pending inbox item or whose answer is queued.  (Answers
    that meet a full command channel are excluded: those are dropped.) *)
Theorem run_never_stuck `{JT : JsonText} (def : MissionDefinition) (run : rstr) (s0 s : run_state) :
  acyclic def -> started def run s0 -> star (fair_step def run) s0 s ->
  rs_pc s = Waiting -> ch_cancelled (rs_chan s) = false ->
  exists t, t ∈ rs_tasks s /\
    (t_status t = Running /\ has_executor s (t_node t) \/
     t_status t = WaitingHuman /\
       (pending run (rs_store s) (t_node t) \/ answered (ch_commands (rs_chan s)) (t_node t))).
Proof.
  intros Hac Hst Hs. pose proof (started_wf def run s0 Hst) as Hwf.
  apply (live_waits def run Hwf); [done|].
  by apply (fair_reach_live def run Hwf s0 s (started_live def run s0 Hst)).
Qed.

Definition demo_rank (id : rstr) : nat :=
  default 0 (find_index (str_eqb id) [str "in"; str "work"; str "gate"; str "out"]).

Lemma demo_acyclic : acyclic demo_def.
Proof.
  exists demo_rank. apply Forall_forall.
  apply (bool_decide_unpack _). vm_compute. exact I.
Qed.

Lemma run_never_stuck_witness :
  exists t, t ∈ rs_tasks demo_s1 /\
    (t_status t = Running /\ has_executor demo_s1 (t_node t) \/
     t_status t = WaitingHuman /\ (pending demo_run (rs_store demo_s1) (t_node t) \/
       answered (ch_commands (rs_chan demo_s1)) (t_node t))).
Proof.
  apply (@run_never_stuck demo_text demo_def demo_run demo_s0 demo_s1 demo_acyclic demo_started).
  - apply star_one. split; [apply demo_step1|]. left. apply Nat.ltb_lt. vm_compute. reflexivity.
  - vm_compute. reflexivity.
  - vm_compute. reflexivity.
Defined.

(** A run that returned left nothing behind: all its tasks are terminal,
    in memory and in the store, and its command channel is closed. *)
Theorem done_run_is_terminal `{JT : JsonText} (def : MissionDefinition) (run : rstr)
  (s0 s : run_state) :
  started def run s0 -> star (run_step def run) s0 s -> rs_pc s = Done ->
  ch_open (rs_chan s) = false /\
  forall t, t ∈ rs_tasks s -> TaskStatus.is_terminal (t_status t) = true /\
    exists a, stored run (rs_store s) (t_node t) = Some (TaskStatus.as_str (t_status t), a).
Proof.
  intros Hst Hs Hpc. destruct (reached_inv def run s0 Hst s Hs) as [_ Hm _ _ _ Hd].
  destruct (Hd Hpc) as [Hall Hop]. split; [done|]. intros t Ht. split.
  - unfold all_terminal in Hall. rewrite forallb_elem in Hall. specialize (Hall t Ht).
    by destruct (t_status t).
  - exists (t_attempt t). by apply Hm.
Qed.

(** Cancelled before its first iteration. *)
Definition demo_cancelled : run_state := set_chan (Registry.cancel_chan (rs_chan demo_s0)) demo_s0.
Definition demo_done : run_state := cancel_state demo_run demo_now demo_cancelled.

Lemma demo_reach_done : star (@run_step demo_text demo_def demo_run) demo_s0 demo_done.
Proof.
  eapply star_step; [exists demo_now; apply step_cancel|].
  apply star_one. exists demo_now. apply step_iterate; [reflexivity|]. vm_compute. reflexivity.
Qed.

Lemma done_run_is_terminal_witness :
  rs_pc demo_done = Done /\ ch_open (rs_chan demo_done) = false.
Proof.
  split; [reflexivity|].
  exact (proj1 (@done_run_is_terminal demo_text demo_def demo_run demo_s0 demo_done demo_started
    demo_reach_done eq_refl)).
Defined.

(** ** Exclusion, cancellation *)

(** Excluding a node that waits, failed or is still queued excludes
    exactly it and every node reachable downstream of it that has not
    succeeded; no other task changes. *)
Theorem exclude_spec (def : MissionDefinition) (tokens : gmap rstr Z) (ts : list MissionTaskState)
  (i : nat) (t : MissionTaskState) (fb : option rstr) :
  covers def ts -> ts !! i = Some t ->
  t_status t = WaitingHuman \/ t_status t = Failed \/ t_status t = Queued ->
  Forall2 (fun u u' =>
      (t_status u' = Excluded <->
         t_status u = Excluded \/ (downstream def (t_node t) (t_node u) /\ t_status u <> Succeeded)) /\
      (t_status u' <> Excluded -> u' = u))
    ts (r_tasks (apply_respond def tokens ts (t_node t) (str "exclude") fb)).
Proof.
  intros [Hnd Hcov] Ht Hs.
  assert (r_tasks (apply_respond def tokens ts (t_node t) (str "exclude") fb)
    = map (fun u => (exclude_task (exclude_branch def (t_node t)) u).1) ts) as ->.
  { unfold apply_respond. change (parse_decision (str "exclude")) with (Some Exclude).
    assert (t_node t ∈ map t_node ts) as Hid
      by (apply list_elem_of_In, in_map, list_elem_of_In; by eapply list_elem_of_lookup_2).
    destruct (find_index_task_elem ts (t_node t) Hid) as [j Hj]. rewrite Hj.
    destruct (find_index_Some _ _ _ Hj) as (u & Hu & Hun & _). apply str_eqb_eq in Hun.
    assert (j = i) as -> by (by eapply nodes_lookup_inj). rewrite Ht.
    destruct (find_node_elem def (t_node t)) as [n ->]; [by apply Hcov|].
    destruct Hs as [-> | [-> | ->]]; cbn [r_tasks]; by rewrite map_map. }
  clear. induction ts as [|u ts IH]; simpl; constructor; [|done].
  unfold exclude_task, excludable.
  destruct (existsb (str_eqb (t_node u)) (exclude_branch def (t_node t))) eqn:E.
  - apply mem_elem, exclude_branch_downstream in E.
    destruct (t_status u) eqn:Es; simpl; rewrite ?Es; naive_solver.
  - apply mem_elem_false in E. rewrite exclude_branch_downstream in E. simpl. naive_solver.
Qed.

Lemma exclude_spec_witness :
  Forall2 (fun u u' =>
      (t_status u' = Excluded <-> t_status u = Excluded \/
         (downstream demo_def (str "gate") (t_node u) /\ t_status u <> Succeeded)) /\
      (t_status u' <> Excluded -> u' = u))
    (rs_tasks demo_s1) (r_tasks (apply_respond demo_def ∅ (rs_tasks demo_s1) (str "gate") (str "exclude") None)).
Proof.
  apply (exclude_spec demo_def ∅ (rs_tasks demo_s1) 0
    {| t_node := str "gate"; t_status := Queued; t_attempt := 1; t_output := None; t_error := None |} None).
  - apply demo_covers.
  - vm_compute. reflexivity.
  - by right; right.
Defined.

(** Cancellation: every unresolved task becomes cancelled, resolved ones
    keep their result, and the report of any executor started before is stale
    afterwards: applying it changes nothing, even if it reaches the scheduler. *)
Theorem cancel_is_final `{JT : JsonText} (def : MissionDefinition) (tokens : gmap rstr Z) (seq : Z)
  (ts : list MissionTaskState) :
  let '(tokens', seq', ts', es) := cancel_all tokens seq ts in
  all_terminal ts' = true /\
  (forall i t, ts !! i = Some t -> resolved (t_status t) = true -> ts' !! i = Some t) /\
  (forall id tok o c, (tok <= seq)%Z -> apply_completion def tokens' c ts' id tok o = (ts', [])).
Proof.
  unfold cancel_all. split; [apply cancelled_all_terminal|]. split.
  - intros i t Ht Hr. change ((fst <$> (cancel_task <$> ts)) !! i = Some t).
    rewrite !list_lookup_fmap, Ht. simpl. unfold cancel_task. by rewrite Hr.
  - intros id tok o c Htok. unfold apply_completion.
    rewrite bool_decide_eq_false_2; [done|]. rewrite lookup_fmap.
    destruct (tokens !! id); simpl; [|done]. intros [= ?]. lia.
Qed.

(** ** Starting and answering *)

(** The start gate: a definition is started only if every agent node
    names a registered backend, and read-only agents one that enforces tool
    allow-lists; the error names the first offending node. *)
Theorem check_backends_spec (caps : rstr -> option bool) (def : MissionDefinition) :
  (check_backends caps def = Ok tt <->
   forall n, n ∈ nodes def -> n_kind n = Agent ->
     exists c, caps (default [] (n_backend n)) = Some c /\ (n_read_only n = true -> c = true)) /\
  (forall e, check_backends caps def = Err e ->
   exists before n after, nodes def = before ++ n :: after /\ n_kind n = Agent /\
     (forall m, m ∈ before -> check_backend caps m = Ok tt) /\
     match e with
     | BackendUnavailable b id => caps b = None /\ id = n_id n /\ b = default [] (n_backend n)
     | NotSupported b id => caps b = Some false /\ n_read_only n = true /\ id = n_id n
                            /\ b = default [] (n_backend n)
     end).
Proof.
  split.
  - unfold check_backends. rewrite iter_result_Ok. split.
    + intros H n Hn Hk. specialize (H n Hn). unfold check_backend in H. rewrite Hk in H.
      destruct (caps _) as [c|]; [|done]. exists c. split; [done|].
      intros Hro. rewrite Hro in H. by destruct c.
    + intros H n Hn. unfold check_backend. destruct (n_kind n) eqn:Hk; try done.
      destruct (H n Hn Hk) as (c & -> & Hro).
      destruct (n_read_only n); [by rewrite Hro|done].
  - unfold check_backends. induction (nodes def) as [|n ns IH]; intros e H; simpl in H; [done|].
    destruct (check_backend caps n) as [[]|e'] eqn:E.
    + destruct (IH e H) as (b & m & a & -> & Hk & Hb & He). exists (n :: b), m, a.
      split; [done|]. split; [done|]. split; [|done].
      intros x Hx. apply elem_of_cons in Hx as [->|Hx]; auto.
    + injection H as <-. exists [], n, ns. split; [done|]. unfold check_backend in E.
      destruct (n_kind n); try done. split; [done|].
      split; [intros m Hm; by apply not_elem_of_nil in Hm|].
      destruct (caps _) as [c|] eqn:Ec.
      * destruct (n_read_only n), c; simplify_eq/=; done.
      * by injection E as <-.
Qed.

Lemma send_command_spec (run : rstr) (cmd : MissionCommand) (reg : gmap rstr MissionRunChannels) :
  let '(reg', live) := Registry.send_command run cmd reg in
  match reg !! run with
  | Some c =>
      (live = true <-> ch_open c = true /\ length (ch_commands c) < 16) /\
      reg' = if live then <[run := {| ch_cancelled := ch_cancelled c;
               ch_commands := ch_commands c ++ [cmd]; ch_open := ch_open c |}]> reg else reg
  | None => live = false /\ reg' = reg
  end.
Proof.
  unfold Registry.send_command. destruct (reg !! run) as [c|]; simpl; [|done].
  unfold Registry.try_send. destruct (ch_open c); cbn [negb]; [|naive_solver].
  change 16 with COMMAND_CAP.
  destruct (Nat.leb_spec COMMAND_CAP (length (ch_commands c))); (split; [|done]);
    split; first [done|intros [_ ?]; lia|intros _; split; [done|lia]].
Qed.

Lemma parse_decision_known (decision : rstr) :
  decision ∈ [str "approve"; str "feedback"; str "exclude"] <-> is_Some (parse_decision decision).
Proof.
  rewrite !elem_of_cons, elem_of_nil. unfold parse_decision. split.
  - intros [->|[->|[->|[]]]]; by eexists.
  - intros Hd.
    destruct (str_eqb decision (str "approve")) eqn:E1; [left; by apply str_eqb_eq|right].
    destruct (str_eqb decision (str "feedback")) eqn:E2; [left; by apply str_eqb_eq|right].
    destruct (str_eqb decision (str "exclude")) eqn:E3; [left; by apply str_eqb_eq|right].
    by destruct Hd.
Qed.

Lemma pending_for_asked (task : rstr) q :
  pending_for task q = true <-> ib_task q = task /\ ib_status q = str "pending".
Proof. unfold pending_for. by rewrite andb_true_iff, !str_eqb_eq. Qed.

Lemma resolve_pending_none (now : rstr) st (run node d : rstr) fb st' :
  resolve_mission_inbox now st run node d fb = (st', false) ->
  st' = st /\ forall q, q ∈ ms_inbox st -> pending_for (task_id run node) q = false.
Proof.
  unfold resolve_mission_inbox. destruct (sort_by _ _) as [|pk rows] eqn:Eh; simpl.
  - intros [= <-]. split; [done|]. intros q Hq. destruct (pending_for _ q) eqn:E; [|done].
    assert (q ∈ sort_by (fun a b => ib_id a <=? ib_id b)
      (List.filter (pending_for (task_id run node)) (ms_inbox st))) as H
      by (apply sort_by_elem, list_elem_of_In, filter_In; by rewrite <-list_elem_of_In).
    rewrite Eh in H. by apply not_elem_of_nil in H.
  - intros [= _ Hx]. exfalso. revert Hx. apply not_false_iff_true, existsb_elem. exists pk.
    split; [|apply Nat.eqb_refl].
    assert (pk ∈ pk :: rows) as Hpk by (by left). rewrite <-Eh in Hpk.
    apply sort_by_elem, list_elem_of_In, filter_In in Hpk as [? _]. by apply list_elem_of_In.
Qed.

(** C33: [mission.respond] on every branch.  It refuses an unknown decision, an
    empty feedback and a node nobody is asked about, each exactly then and
    changing nothing.  Otherwise it claims the oldest pending inbox row of the
    node, and that row alone, writing the decision, the feedback and the time;
    and it answers whether the run took the command, which is when the run is
    registered, its receiver open and fewer than 16 commands are queued: then
    the command is queued last, otherwise no channel changes. *)
Theorem mission_respond_spec (now run node decision : rstr) (fb : option rstr)
  (st : mission_store) (reg : gmap rstr MissionRunChannels) :
  inbox_wf st ->
  let '(st', reg', r) := mission_respond now run node decision fb st reg in
  let known := decision ∈ [str "approve"; str "feedback"; str "exclude"] in
  let cmd := {| cmd_node := node; cmd_decision := decision; cmd_feedback := fb |} in
  let asked q := ib_task q = task_id run node /\ ib_status q = str "pending" in
  match r with
  | Ok live =>
      known /\ ~ (decision = str "feedback" /\ blank fb = true) /\
      (exists before row after, ms_inbox st = before ++ row :: after /\ asked row /\
         (forall q, q ∈ ms_inbox st -> asked q -> ib_id row <= ib_id q) /\
         st' = with_inbox st (before ++ {|
           ib_id := ib_id row; ib_task := ib_task row; ib_run := ib_run row; ib_node := ib_node row;
           ib_status := str "resolved"; ib_decision := Some decision; ib_feedback := fb;
           ib_created := ib_created row; ib_resolved := Some now |} :: after)) /\
      match reg !! run with
      | Some c =>
          (live = true <-> ch_open c = true /\ length (ch_commands c) < 16) /\
          reg' = if live then <[run := {| ch_cancelled := ch_cancelled c;
                   ch_commands := ch_commands c ++ [cmd]; ch_open := ch_open c |}]> reg else reg
      | None => live = false /\ reg' = reg
      end
  | Err e =>
      st' = st /\ reg' = reg /\
      match e with
      | BadDecision => ~ known
      | EmptyFeedback => decision = str "feedback" /\ blank fb = true
      | NotPending => known /\ forall q, q ∈ ms_inbox st -> ~ asked q
      end
  end.
Proof.
  intros Hwf. unfold mission_respond.
  destruct (parse_decision decision) as [d|] eqn:Ed; simpl.
  2:{ split; [done|]. split; [done|]. rewrite parse_decision_known, Ed. by intros [? ?]. }
  assert (decision ∈ [str "approve"; str "feedback"; str "exclude"]) as Hk
    by (rewrite parse_decision_known, Ed; by eexists).
  destruct (str_eqb decision (str "feedback") && blank fb) eqn:Eb.
  { bools. apply str_eqb_eq in H. done. }
  destruct (resolve_mission_inbox now st run node decision fb) as [st' won] eqn:Er.
  destruct won; simpl.
  - destruct (resolve_claims_oldest now st run node decision fb st' Hwf Er)
      as (before & row & after & Hsp & -> & Hp & Hold).
    set (cmd := {| cmd_node := node; cmd_decision := decision; cmd_feedback := fb |}).
    pose proof (send_command_spec run cmd reg) as Hsend.
    destruct (Registry.send_command run cmd reg) as [reg' live].
    split; [done|]. split; [intros [-> Hb]; by rewrite str_eqb_refl, Hb in Eb|]. split; [|exact Hsend].
    exists before, row, after. split; [done|]. split; [by apply pending_for_asked|]. split; [|done].
    intros q Hq Ha. apply Hold; [done|by apply pending_for_asked].
  - destruct (resolve_pending_none now st run node decision fb st' Er) as [-> Hno].
    split; [done|]. split; [done|]. split; [done|]. intros q Hq Ha. apply pending_for_asked in Ha.
    by rewrite Hno in Ha.
Qed.

Definition demo_asked_store : mission_store :=
  insert_mission_inbox demo_now empty_store demo_run (str "gate").

Definition demo_chan : MissionRunChannels :=
  {| ch_cancelled := false; ch_commands := []; ch_open := true |}.

(** The answer reaches the registered run. *)
Lemma mission_respond_spec_witness :
  exists st' reg', mission_respond demo_now demo_run (str "gate") (str "approve") None demo_asked_store
    (Registry.register demo_run ∅) = (st', reg', Ok true) /\
  reg' !! demo_run = Some {| ch_cancelled := false; ch_open := true; ch_commands :=
    [{| cmd_node := str "gate"; cmd_decision := str "approve"; cmd_feedback := None |}] |}.
Proof.
  assert (inbox_wf demo_asked_store) as Hwf.
  { split; [apply (bool_decide_unpack _); vm_compute; exact I|].
    intros r Hr. apply list_elem_of_singleton in Hr as ->. vm_compute. lia. }
  pose proof (mission_respond_spec demo_now demo_run (str "gate") (str "approve") None
    demo_asked_store (Registry.register demo_run ∅) Hwf) as H.
  assert ((mission_respond demo_now demo_run (str "gate") (str "approve") None demo_asked_store
    (Registry.register demo_run ∅)).2 = Ok true) as Hr by (vm_compute; reflexivity).
  destruct (mission_respond _ _ _ _ _ _ _) as [[st' reg'] r]. simpl in Hr. subst r.
  destruct H as (_ & _ & _ & H). unfold Registry.register in H at 1.
  rewrite lookup_insert_eq in H. destruct H as [_ ->]. eexists _, _. split; [done|].
  by rewrite lookup_insert_eq.
Defined.

(** ** Where the engine falls short *)

Definition cyclic_json : json :=
  let node id kind := JObj [(str "id", JStr (str id)); (str "kind", jstr kind); (str "value", jint 1)] in
  let edge a b := JObj [(str "from", jstr a); (str "to", jstr b)] in
  JObj [
    (str "nodes", JArr [node "in" "input"; node "a" "human"; node "b" "human"; node "out" "output"]);
    (str "edges", JArr [edge "in" "a"; edge "b" "a"; edge "a" "b"; edge "b" "out"]);
    (str "settings", JObj []) ].

(** A cyclic flow is accepted as a definition although the engine runs
    DAGs: the run then waits for ever, with unfinished tasks but nothing in
    flight, nobody asked and nothing queued. *)
Theorem cyclic_flow_stalls :
  exists d st, parse_definition cyclic_json = Ok d /\
    start_store d demo_run demo_now empty_store (str "flow") 1 (str "{}") = Ok st /\
    exists s, @iterate demo_text d demo_run demo_now (@start_state demo_text demo_run st) = Some s /\
      rs_pc s = Waiting /\ all_terminal (rs_tasks s) = false /\
      rs_inflight s = [] /\ rs_completions s = [] /\ ch_commands (rs_chan s) = [] /\
      ms_inbox (rs_store s) = [] /\
      Forall (fun t => t_status t <> Running /\ t_status t <> WaitingHuman) (rs_tasks s).
Proof.
  exists (parsed cyclic_json). eexists. split; [vm_compute; reflexivity|].
  split; [vm_compute; reflexivity|]. eexists. split; [vm_compute; reflexivity|].
  repeat (split; [vm_compute; reflexivity|]). vm_compute. by repeat constructor.
Qed.

Definition full_channel : MissionRunChannels := {|
  ch_cancelled := false; ch_open := true;
  ch_commands := repeat {| cmd_node := str "other"; cmd_decision := str "approve";
                           cmd_feedback := None |} COMMAND_CAP |}.

(** An answer that meets a full command channel is lost: the inbox item
    is claimed, the run never gets the command, and a second answer is refused
    because nothing is pending any more. *)
Theorem answer_lost_on_full_channel :
  let st := insert_mission_inbox demo_now empty_store demo_run (str "gate") in
  let reg : gmap rstr MissionRunChannels := {[ demo_run := full_channel ]} in
  let ask := mission_respond demo_now demo_run (str "gate") (str "approve") None in
  let '(st1, reg1, r1) := ask st reg in
  let '(st2, reg2, r2) := ask st1 reg1 in
  r1 = Ok false /\ reg1 = reg /\ r2 = Err NotPending.
Proof. vm_compute. done. Qed.
