(* ===== verification/MissionReport.v ===== *)
(** * MissionReport: what the store says about a run

    The persisted rows from the outside: the run status derived from them, the
    boot recovery of orphaned runs, the versions of a flow, the inbox. *)

From S2P Require Import Prelude Str Json Rows Condition MissionDef MissionSched MissionStore MissionRun.
From S2P Require Import MissionFacts MissionSafety MissionLive MissionThms.

(** ** Status words *)

Lemma task_status_parse s : TaskStatus.parse (TaskStatus.as_str s) = Some s.
Proof. by destruct s. Qed.

Lemma task_status_inj a b : TaskStatus.as_str a = TaskStatus.as_str b -> a = b.
Proof. intros H. apply (f_equal TaskStatus.parse) in H. rewrite !task_status_parse in H. congruence. Qed.

Lemma terminal_str_spec s : terminal_str (TaskStatus.as_str s) = resolved s.
Proof. by destruct s. Qed.

Lemma failed_str_spec s :
  str_eqb (TaskStatus.as_str s) (str "failed") || str_eqb (TaskStatus.as_str s) (str "excluded")
  = bool_decide (s = Failed \/ s = Excluded).
Proof. by destruct s. Qed.

Lemma unfinished_spec s : unfinished (TaskStatus.as_str s) = negb (resolved s).
Proof. by destruct s. Qed.

(** The status of a run whose rows hold the statuses [l]. *)
Definition report (l : list MissionTaskStatus) (interrupted ended cancelled : bool) : RunStatus :=
  if interrupted then RInterrupted
  else if cancelled then RCancelled
  else if ended && forallb resolved l then
    if existsb (fun s => bool_decide (s = Failed \/ s = Excluded)) l then RFailed else RSucceeded
  else RRunning.

(** Rows and statuses say the same, whatever their order. *)
Definition agree (rows : list MissionTaskRow) (l : list MissionTaskStatus) : Prop :=
  (forall r, r ∈ rows -> exists s, s ∈ l /\ row_status r = TaskStatus.as_str s) /\
  (forall s, s ∈ l -> exists r, r ∈ rows /\ row_status r = TaskStatus.as_str s).

Lemma agree_forallb (p : rstr -> bool) (q : MissionTaskStatus -> bool) rows l :
  (forall s, p (TaskStatus.as_str s) = q s) -> agree rows l ->
  forallb (fun r => p (row_status r)) rows = forallb q l.
Proof.
  intros Hpq [H1 H2]. apply eq_true_iff_eq. rewrite !forallb_elem. split.
  - intros H s Hs. destruct (H2 s Hs) as (r & Hr & Heq). rewrite <-Hpq, <-Heq. by apply H.
  - intros H r Hr. destruct (H1 r Hr) as (s & Hs & ->). rewrite Hpq. by apply H.
Qed.

Lemma agree_existsb (p : rstr -> bool) (q : MissionTaskStatus -> bool) rows l :
  (forall s, p (TaskStatus.as_str s) = q s) -> agree rows l ->
  existsb (fun r => p (row_status r)) rows = existsb q l.
Proof.
  intros Hpq [H1 H2]. apply eq_true_iff_eq. rewrite !existsb_elem. split.
  - intros (r & Hr & Hp). destruct (H1 r Hr) as (s & Hs & Heq). exists s.
    by rewrite <-Hpq, <-Heq.
  - intros (s & Hs & Hq). destruct (H2 s Hs) as (r & Hr & Heq). exists r. by rewrite Heq, Hpq.
Qed.

Lemma derive_report rows l i e c :
  agree rows l -> derive_run_status rows i e c = report l i e c.
Proof.
  intros H. unfold derive_run_status, report. destruct i; [done|]. destruct c; [done|].
  rewrite (agree_forallb terminal_str resolved rows l terminal_str_spec H).
  rewrite (agree_existsb (fun s => str_eqb s (str "failed") || str_eqb s (str "excluded")) _ rows l
    failed_str_spec H).
  destruct e; simpl; by destruct (forallb resolved l).
Qed.

(** ** The rows of a reachable run *)

Definition row_key (r : task_row) : rstr * rstr * rstr := (ta_id r, ta_run r, ta_node r).

Lemma apply_effect_keys now run st e :
  map row_key (ms_tasks (apply_effect now run st e)) = map row_key (ms_tasks st).
Proof. destruct e; simpl; try done. by apply update_where_keys. Qed.

Lemma apply_effects_keys now run es st :
  map row_key (ms_tasks (apply_effects now run es st)) = map row_key (ms_tasks st).
Proof.
  revert st; induction es as [|e es IH]; intros st; simpl; [done|]. by rewrite IH, apply_effect_keys.
Qed.

(** The row of the run itself. *)
Definition run_row_of (run : rstr) (st : mission_store) : option run_row :=
  find_first (fun r => str_eqb (ru_id r) run) (ms_runs st).

Definition run_open (r : run_row) : Prop :=
  ru_interrupted r = false /\ ru_ended r = None /\ ru_cancelled r = false.

Definition run_closed (r : run_row) : Prop :=
  ru_interrupted r = false /\ is_Some (ru_ended r).

Definition no_mark (e : effect) : Prop :=
  match e with EMarkEnded | EMarkCancelled => False | _ => True end.

Lemma no_mark_runs now run es st :
  Forall no_mark es -> ms_runs (apply_effects now run es st) = ms_runs st.
Proof.
  intros H. revert st. induction H as [|e es He _ IH]; intros st; simpl; [done|].
  rewrite IH. by destruct e.
Qed.

Lemma finish_run_row now run c st r :
  run_row_of run st = Some r ->
  exists r', run_row_of run (apply_effects now run (finish_run c) st) = Some r' /\
    ru_interrupted r' = ru_interrupted r /\ is_Some (ru_ended r') /\
    ru_cancelled r' = (c || ru_cancelled r).
Proof.
  unfold run_row_of. intros Hr.
  pose proof (proj2 (find_first_Some _ _ _ Hr)) as Hid. simpl in Hid.
  destruct c; simpl; rewrite find_first_update by done; rewrite Hr; simpl; rewrite Hid;
    eexists; (split; [done|]); simpl; repeat split.
  - by destruct (ru_ended r).
  - done.
Qed.

Lemma no_mark_sweep f ts : sweep_ok f -> Forall no_mark (concat (map snd (map f ts))).
Proof.
  intros Hf. induction ts as [|t ts IH]; simpl; [constructor|]. apply Forall_app. split; [|done].
  destruct (Hf t) as [_ [->|(tr & -> & _)]]; simpl; [constructor|by repeat constructor].
Qed.

Section Rows.
Context `{JT : JsonText}.
Variables (def : MissionDefinition) (run : rstr).

Lemma settle_no_mark ts p : settle def ts = Some p -> Forall no_mark (p_effects p).
Proof.
  apply (settle_ind def (fun p => Forall no_mark (p_effects p))); [done| |constructor].
  intros st ac q i q' Hq [|t t' tr ib sp Ht Hst Ha]; [done|]. simpl.
  apply Forall_app. split; [done|]. constructor; [done|].
  apply Forall_app. split; [by destruct ib; repeat constructor|by repeat constructor].
Qed.

Lemma respond_no_mark ts tokens id d fb :
  Forall no_mark (r_effects (apply_respond def tokens ts id d fb)).
Proof.
  unfold apply_respond. destruct (parse_decision d) as [dec|]; [|constructor].
  destruct (find_index_task ts id) as [i|]; [|constructor].
  destruct (ts !! i) as [t|]; [|constructor]. destruct (find_node def id); [|constructor].
  destruct dec; simpl.
  - case_bool_decide; simpl; by repeat constructor.
  - case_bool_decide; simpl; by repeat constructor.
  - assert (forall (o : option MissionTaskState) n, Forall no_mark
      match o with Some t' => [broadcast_of n t'] | None => [] end) as Ho
      by (intros [u|] n; by repeat constructor).
    destruct (t_status t); simpl; try constructor;
      (apply Forall_app; split; [apply no_mark_sweep, exclude_task_sweep|apply Ho]).
Qed.

Lemma completion_no_mark ts tokens c id tok o :
  Forall no_mark (apply_completion def tokens c ts id tok o).2.
Proof.
  unfold apply_completion. repeat (case_match; try constructor).
  all: simplify_eq/=; by repeat constructor.
Qed.

(** [K] are the keys of the task rows: no operation adds or moves a row. *)
Record rows_inv (K : list (rstr * rstr * rstr)) (s : run_state) : Prop := {
  rw_keys : map row_key (ms_tasks (rs_store s)) = K;
  rw_run : exists r, run_row_of run (rs_store s) = Some r /\
    ru_interrupted r = false /\
    if bool_decide (rs_pc s = Done) then is_Some (ru_ended r)
    else ru_ended r = None /\ ru_cancelled r = false
}.

Lemma rows_frame K s s' :
  ms_tasks (rs_store s') = ms_tasks (rs_store s) -> ms_runs (rs_store s') = ms_runs (rs_store s) ->
  (rs_pc s = Done <-> rs_pc s' = Done) -> rows_inv K s -> rows_inv K s'.
Proof.
  intros Ht Hr Hpc [Hk Hrow]. split; [by rewrite Ht|]. unfold run_row_of in *.
  rewrite Hr, <-(bool_decide_ext _ _ Hpc). exact Hrow.
Qed.

(** Effects without a mark, then a move that is not to [Done]. *)
Lemma rows_commit K now s s' es :
  Forall no_mark es -> rs_store s' = apply_effects now run es (rs_store s) ->
  (rs_pc s = Done <-> rs_pc s' = Done) -> rows_inv K s -> rows_inv K s'.
Proof.
  intros Hes Hst Hpc [Hk Hrow]. split; [by rewrite Hst, apply_effects_keys|].
  unfold run_row_of in *. rewrite Hst, no_mark_runs, <-(bool_decide_ext _ _ Hpc) by done. exact Hrow.
Qed.

Lemma rows_respond K now s c : rows_inv K s -> rows_inv K (respond def run now s c).
Proof.
  intros H. by eapply (rows_commit K now s); [apply respond_no_mark|..|exact H].
Qed.

Lemma rows_drain K now cs s : rows_inv K s -> rows_inv K (fold_left (respond def run now) cs s).
Proof. revert s; induction cs as [|c cs IH]; intros s H; simpl; [done|]. by apply IH, rows_respond. Qed.

Lemma rows_complete K now s c : rows_inv K s -> rows_inv K (complete def run now s c).
Proof.
  intros H. destruct c as [[id tok] o]. unfold complete.
  pose proof (completion_no_mark (rs_tasks s) (rs_tokens s) (ch_cancelled (rs_chan s)) id tok o) as Hno.
  destruct (apply_completion _ _ _ _ _ _ _) as [ts es]. by eapply rows_commit.
Qed.

Lemma rows_finish K now s : rs_pc s <> Done -> rows_inv K s -> rows_inv K (finish_state run now s).
Proof.
  intros Hpc [Hk (r & Hr & Hi & _)]. split; [simpl; by rewrite apply_effects_keys|].
  destruct (finish_run_row now run (ch_cancelled (rs_chan s)) (rs_store s) r Hr) as (r' & Hr' & Hi' & He & _).
  exists r'. split; [exact Hr'|]. split; [congruence|]. exact He.
Qed.

Lemma rows_iterate K now s s' :
  rs_pc s = Top -> rows_inv K s -> iterate def run now s = Some s' -> rows_inv K s'.
Proof.
  intros Hpc Hi. unfold iterate. destruct (ch_cancelled (rs_chan s)).
  { intros [= <-]. unfold cancel_state, cancel_all. apply rows_finish; [simpl; congruence|].
    eapply rows_commit; [apply (no_mark_sweep _ (rs_tasks s) cancel_task_sweep)|done|done|exact Hi]. }
  set (s0 := set_chan (set_commands [] (rs_chan s)) s).
  assert (rows_inv K (fold_left (respond def run now) (ch_commands (rs_chan s)) s0)) as Hi1
    by (by apply rows_drain, (rows_frame K s)).
  assert (forall cs x, rs_pc (fold_left (respond def run now) cs x) = rs_pc x) as Hdr
    by (induction cs as [|c cs IH]; intros x; simpl; [done|by rewrite IH]).
  specialize (Hdr (ch_commands (rs_chan s)) s0).
  destruct (fold_left (respond def run now) _ s0) as [ts1 tk1 sq1 if1 co1 ch1 st1 pc1] eqn:E1.
  simpl in *. subst pc1. destruct (settle def ts1) as [p|] eqn:Es; simpl; [|done].
  assert (rows_inv K {| rs_tasks := p_tasks p; rs_tokens := tk1; rs_token_seq := sq1;
      rs_inflight := if1; rs_completions := co1; rs_chan := ch1;
      rs_store := apply_effects now run (p_effects p) st1; rs_pc := rs_pc s |}) as Hi2.
  { match type of Hi1 with rows_inv _ ?a => match goal with |- rows_inv _ ?b =>
      by apply (rows_commit K now a b (p_effects p) (settle_no_mark ts1 p Es)) end end. }
  intros [= <-]. destruct (all_terminal (p_tasks p)).
  - apply rows_finish; [simpl; congruence|exact Hi2].
  - match goal with |- rows_inv K (set_pc _ (fold_left spawn ?l ?s2)) =>
      destruct (spawn_fold_tasks l s2) as (_ & Hst & _) end.
    eapply rows_frame; [..|exact Hi2]; simpl; rewrite ?Hst; [done|done|]. by rewrite Hpc.
Qed.

Lemma rows_step K s s' : rows_inv K s -> run_step def run s s' -> rows_inv K s'.
Proof.
  intros Hi [now Hs].
  destruct Hs as [s s' Hpc Hit|s c rest Hpc Hc|s c rest Hpc Hc|s Hpc Hc|s i id tok o Hif
    |s id d fb st' Hres Hd|s].
  - by eapply rows_iterate.
  - match goal with |- context [complete def run now ?x c] =>
      assert (rows_inv K (complete def run now x c)) as H
        by (by apply rows_complete, (rows_frame K s)) end.
    eapply rows_frame; [..|exact H]; [done|done|]. destruct c as [[id tok] o]. simpl.
    destruct (apply_completion _ _ _ _ _ _ _). simpl. by rewrite Hpc.
  - match goal with |- context [respond def run now ?x c] =>
      assert (rows_inv K (respond def run now x c)) as H
        by (by apply rows_respond, (rows_frame K s)) end.
    eapply rows_frame; [..|exact H]; [done|done|]. simpl. by rewrite Hpc.
  - apply (rows_frame K s); [done|done| |done]. simpl. by rewrite Hpc.
  - by apply (rows_frame K s).
  - apply (rows_frame K s); [| |done|done]; simpl.
    + pose proof (resolve_inbox_tasks run now (rs_store s) id d fb) as H. by rewrite Hres in H.
    + revert Hres. unfold resolve_mission_inbox. destruct (head _); intros [= <- _]; done.
  - by apply (rows_frame K s).
Qed.

Lemma rows_reach K s s' : rows_inv K s -> star (run_step def run) s s' -> rows_inv K s'.
Proof. intros Hi Hs. revert Hi. induction Hs; eauto using rows_step. Qed.
End Rows.

(** ** The status of a reachable run *)

Lemma row_unique (l : list task_row) K1 K2 id r r' :
  map row_key l = K1 ++ K2 -> (forall k, k ∈ K1 -> k.1.1 <> id) -> NoDup (map (fun k => k.1.1) K2) ->
  r ∈ l -> r' ∈ l -> ta_id r = id -> ta_id r' = id -> r = r'.
Proof.
  intros Hl H1 H2 Hr Hr' Hid Hid'.
  apply map_eq_app in Hl as (l1 & l2 & -> & Hl1 & Hl2).
  assert (forall x, x ∈ l1 ++ l2 -> ta_id x = id -> x ∈ l2) as Hx.
  { intros x Hx Hxid. apply elem_of_app in Hx as [Hx|Hx]; [|done]. exfalso.
    apply (H1 (row_key x)); [|done]. rewrite <-Hl1. apply list_elem_of_In, in_map, list_elem_of_In, Hx. }
  apply Hx in Hr; [|done]. apply Hx in Hr'; [|done].
  rewrite <-Hl2, map_map in H2.
  apply list_elem_of_lookup in Hr as [i Hi]. apply list_elem_of_lookup in Hr' as [j Hj].
  assert (i = j) as ->; [|congruence].
  apply (NoDup_lookup (map (fun x => (row_key x).1.1) l2) i j id); [done| |].
  - change (((fun x => (row_key x).1.1) <$> l2) !! i = Some id). rewrite list_lookup_fmap, Hi.
    simpl. by rewrite Hid.
  - change (((fun x => (row_key x).1.1) <$> l2) !! j = Some id). rewrite list_lookup_fmap, Hj.
    simpl. by rewrite Hid'.
Qed.

Section Status.
Context `{JT : JsonText}.
Variables (def : MissionDefinition) (run : rstr).

Definition fresh_key (node : rstr) : rstr * rstr * rstr := (task_id run node, run, node).

(** The rows of the run are those of its tasks. *)
Lemma rows_agree K1 s :
  covers def (rs_tasks s) -> mirrors run (rs_store s) (rs_tasks s) -> NoDup (map n_id (nodes def)) ->
  (forall k, k ∈ K1 -> k.1.2 <> run /\ forall n, k.1.1 <> task_id run n) ->
  map row_key (ms_tasks (rs_store s)) = K1 ++ map fresh_key (map n_id (nodes def)) ->
  agree (mission_tasks (rs_store s) run) (map t_status (rs_tasks s)).
Proof.
  intros [Hnd Hcov] Hm Hids HK1 HK.
  assert (NoDup (map (fun k : rstr * rstr * rstr => k.1.1) (map fresh_key (map n_id (nodes def))))) as HK2.
  { rewrite map_map. apply NoDup_fmap_2; [|done]. intros a b H. by apply task_id_inj in H. }
  assert (forall r, r ∈ mission_tasks (rs_store s) run <->
    exists x, x ∈ ms_tasks (rs_store s) /\ ta_run x = run /\ r = row_of x) as Hrows.
  { intros r. unfold mission_tasks. rewrite list_elem_of_In, in_map_iff.
    setoid_rewrite <-list_elem_of_In. setoid_rewrite sort_by_elem.
    setoid_rewrite list_elem_of_In. setoid_rewrite filter_In. setoid_rewrite str_eqb_eq.
    split; [intros (x & <- & ? & ?); by exists x|intros (x & ? & ? & ->); by exists x]. }
  assert (forall x t, x ∈ ms_tasks (rs_store s) -> t ∈ rs_tasks s -> ta_id x = task_id run (t_node t) ->
    ta_status x = TaskStatus.as_str (t_status t)) as Hrow.
  { intros x t Hx Ht Hid. specialize (Hm t Ht). unfold stored in Hm.
    destruct (find_first _ _) as [y|] eqn:E; [|done]. injection Hm as Hs _.
    apply find_first_Some in E as [Hy Hyid]. apply str_eqb_eq in Hyid.
    rewrite (row_unique (ms_tasks (rs_store s)) K1 _ (task_id run (t_node t)) x y HK); [done|..|done];
      try done. intros k Hk. by apply HK1. }
  split.
  - intros r Hr. apply Hrows in Hr as (x & Hx & Hxr & ->).
    assert (row_key x ∈ K1 ++ map fresh_key (map n_id (nodes def))) as Hkx
      by (rewrite <-HK; by apply list_elem_of_In, in_map, list_elem_of_In).
    apply elem_of_app in Hkx as [Hkx|Hkx]; [by destruct (HK1 _ Hkx)|].
    apply list_elem_of_In, in_map_iff in Hkx as (n & Hn & Hin).
    apply list_elem_of_In, Hcov, list_elem_of_In, in_map_iff in Hin as (t & <- & Ht).
    apply list_elem_of_In in Ht. injection Hn as Hid _ _. exists (t_status t). split.
    + by apply list_elem_of_In, in_map, list_elem_of_In.
    + by apply Hrow.
  - intros st Hst. apply list_elem_of_In, in_map_iff in Hst as (t & <- & Ht).
    apply list_elem_of_In in Ht. specialize (Hm t Ht). unfold stored in Hm.
    destruct (find_first _ _) as [y|] eqn:E; [|done]. injection Hm as Hs _.
    apply find_first_Some in E as [Hy Hyid]. apply str_eqb_eq in Hyid.
    exists (row_of y). split; [|done]. apply Hrows. exists y. split; [done|]. split; [|done].
    assert (row_key y ∈ K1 ++ map fresh_key (map n_id (nodes def))) as Hky
      by (rewrite <-HK; by apply list_elem_of_In, in_map, list_elem_of_In).
    apply elem_of_app in Hky as [Hky|Hky].
    + destruct (HK1 _ Hky) as [_ H]. by destruct (H (t_node t)).
    + apply list_elem_of_In, in_map_iff in Hky as (n & Hn & _). by injection Hn.
Qed.

Lemma start_rows st st' now flow version snapshot :
  definition_wf def -> unused run st -> start_store def run now st flow version snapshot = Ok st' ->
  exists K1, (forall k, k ∈ K1 -> k.1.2 <> run /\ forall n, k.1.1 <> task_id run n) /\
    rows_inv run (K1 ++ map fresh_key (map n_id (nodes def))) (start_state run st').
Proof.
  intros Hwf Hun Hst. exists (map row_key (ms_tasks st)). split.
  { intros k Hk. apply list_elem_of_In, in_map_iff in Hk as (r & <- & Hr).
    apply list_elem_of_In in Hr. by apply Hun. }
  split.
  - change (rs_store (start_state run st')) with st'.
    rewrite (start_store_rows def run now Hwf st st' flow version snapshot Hun Hst), map_app.
    by rewrite (map_map (fresh_row run)).
  - change (rs_store (start_state run st')) with st'. revert Hst. unfold start_store, create_mission_run.
    destruct (existsb _ (ms_runs st)) eqn:E; [done|]. intros [= <-].
    assert (forall ns x, ms_runs (fold_left (fun st n => insert_mission_task st run (n_id n)) ns x)
      = ms_runs x) as Hruns.
    { induction ns as [|n ns IH]; intros x; simpl; [done|]. rewrite IH.
      unfold insert_mission_task. cbv zeta. by destruct (existsb _ (ms_tasks x)). }
    unfold run_row_of. rewrite Hruns. cbn [ms_runs with_runs].
    unfold find_first. rewrite List.filter_app.
    assert (List.filter (fun r => str_eqb (ru_id r) run) (ms_runs st) = []) as ->.
    { apply nil_length_inv. apply count_zero. by apply existsb_elem_false. }
    simpl. rewrite str_eqb_refl. simpl. by eexists.
Qed.
End Status.

(** The status reported for a reachable run is exact: [running] until the
    scheduler has returned; afterwards [cancelled] if the run was finished as
    cancelled, else [failed] exactly when a task failed or was excluded, else
    [succeeded]. *)
Theorem reported_status `{JT : JsonText} (def : MissionDefinition) (run : rstr) (s0 s : run_state) :
  started def run s0 -> star (run_step def run) s0 s ->
  exists snap flow ver e c,
    mission_run (rs_store s) run = Some (snap, flow, ver, false, e, c) /\
    derive_run_status (mission_tasks (rs_store s) run) false e c =
      if bool_decide (rs_pc s = Done) then
        if c then RCancelled
        else if existsb (fun t => bool_decide (t_status t = Failed \/ t_status t = Excluded)) (rs_tasks s)
        then RFailed else RSucceeded
      else RRunning.
Proof.
  intros Hst Hs. pose proof (reached_inv def run s0 Hst s Hs) as Hi.
  pose proof (started_wf def run s0 Hst) as Hwf.
  destruct Hst as (v & now & st & st' & fl & ver & sn & _ & Hun & _ & Hstart & ->).
  destruct (start_rows def run st st' now fl ver sn Hwf Hun Hstart) as (K1 & HK1 & Hrows).
  pose proof (rows_reach def run _ _ _ Hrows Hs) as [HK (r & Hr & Hint & Hrow)].
  exists (ru_snapshot r), (ru_flow r), (ru_version r), (bool_decide (is_Some (ru_ended r))), (ru_cancelled r).
  split; [unfold mission_run; unfold run_row_of in Hr; rewrite Hr; simpl; by rewrite Hint|].
  rewrite (derive_report _ _ _ _ _ (rows_agree def run K1 s (ri_covers _ _ _ Hi) (ri_mirrors _ _ _ Hi)
    (wf_unique _ Hwf) HK1 HK)).
  unfold report. destruct (bool_decide (rs_pc s = Done)) eqn:Epc.
  - bools. destruct (ri_done _ _ _ Hi Epc) as [Hall _].
    destruct (ru_cancelled r); [done|]. rewrite bool_decide_eq_true_2 by done.
    rewrite forallb_map. unfold all_terminal in Hall. rewrite Hall. cbn [andb]. by rewrite existsb_map.
  - destruct Hrow as [He Hc]. by rewrite Hc, He.
Qed.

Lemma reported_status_witness :
  exists snap flow ver e c,
    mission_run (rs_store demo_done) demo_run = Some (snap, flow, ver, false, e, c) /\
    derive_run_status (mission_tasks (rs_store demo_done) demo_run) false e c =
      if bool_decide (rs_pc demo_done = Done) then
        if c then RCancelled
        else if existsb (fun t => bool_decide (t_status t = Failed \/ t_status t = Excluded))
                  (rs_tasks demo_done)
        then RFailed else RSucceeded
      else RRunning.
Proof. exact (@reported_status demo_text demo_def demo_run demo_s0 demo_done demo_started demo_reach_done). Defined.

(** ** Boot recovery *)

Definition in_runs (ids : list rstr) (run : rstr) : bool := existsb (str_eqb run) ids.

(** The whole recovery as three updates. *)
Lemma recover_fold now ids st :
  let st' := fold_left (recover_run now) ids st in
  ms_tasks st' = update_where (fun t => in_runs ids (ta_run t) && unfinished (ta_status t))
                   (cancel_row now) (ms_tasks st) /\
  ms_inbox st' = update_where (fun i => in_runs ids (ib_run i) && str_eqb (ib_status i) (str "pending"))
                   (close_row now) (ms_inbox st) /\
  ms_runs st' = update_where (fun r => in_runs ids (ru_id r)) set_interrupted (ms_runs st).
Proof.
  revert st; induction ids as [|id ids IH]; intros st; cbn [fold_left].
  - cbn [in_runs existsb andb]. by rewrite !update_where_false.
  - destruct (IH (recover_run now st id)) as (-> & -> & ->).
    unfold recover_run, update_run. cbn [ms_tasks ms_inbox ms_runs with_tasks with_inbox with_runs].
    rewrite !update_where_twice by
      (intros r H1 H2; cbn in *; rewrite ?andb_false_r in H2; done).
    split; [|split]; apply update_where_ext; intros r; unfold in_runs; cbn [existsb].
    + by destruct (str_eqb (ta_run r) id), (existsb _ ids), (unfinished _).
    + by destruct (str_eqb (ib_run r) id), (existsb _ ids), (str_eqb (ib_status r) _).
    + done.
Qed.

(** Boot recovery: it picks exactly the runs that are neither live, ended
    nor already interrupted and still have an unfinished task; afterwards none
    of their tasks is unfinished, none of their inbox items is pending, they
    report [interrupted], and the rows of every other run are untouched. *)
Theorem recovery_spec (now : rstr) (live : list rstr) (st : mission_store) :
  let '(st', ids) := recover_interrupted_mission_runs now live st in
  (forall id, id ∈ ids <->
     exists r, r ∈ ms_runs st /\ ru_id r = id /\ id ∉ live /\
       ru_ended r = None /\ ru_interrupted r = false /\
       exists t, t ∈ ms_tasks st /\ ta_run t = id /\ unfinished (ta_status t) = true) /\
  (forall t, t ∈ ms_tasks st' -> ta_run t ∈ ids -> unfinished (ta_status t) = false) /\
  (forall i, i ∈ ms_inbox st' -> ib_run i ∈ ids -> ib_status i <> str "pending") /\
  (forall r, r ∈ ms_runs st' -> ru_id r ∈ ids -> forall rows e c,
     derive_run_status rows (ru_interrupted r) e c = RInterrupted) /\
  (forall t, t ∈ ms_tasks st -> ta_run t ∉ ids -> t ∈ ms_tasks st') /\
  (forall i, i ∈ ms_inbox st -> ib_run i ∉ ids -> i ∈ ms_inbox st').
Proof.
  unfold recover_interrupted_mission_runs.
  set (ids := List.filter _ _).
  destruct (recover_fold now ids st) as (Ht & Hi & Hr). cbv zeta in *.
  split; [|split; [|split; [|split; [|split]]]].
  - intros id. subst ids. rewrite list_elem_of_In, filter_In, in_map_iff.
    setoid_rewrite filter_In. setoid_rewrite <-list_elem_of_In. unfold orphaned.
    rewrite negb_true_iff, mem_elem_false. split.
    + intros [(r & <- & Hr1 & Ho) Hl]. bools. apply existsb_elem in H0 as (t & Hin & Hb). bools.
      apply str_eqb_eq in H0. exists r. repeat split; try done; [|by exists t].
      destruct (ru_ended r); [|done]. by destruct H.
    + intros (r & Hr1 & <- & Hl & He & Hint & t & Hin & Htr & Hu). split; [|done].
      exists r. split; [done|]. split; [done|]. rewrite He, Hint. simpl.
      apply existsb_elem. exists t. by rewrite Htr, str_eqb_refl, Hu.
  - rewrite Ht. intros t Hin Hid. apply update_where_elem in Hin as (t0 & _ & ->).
    destruct (in_runs ids (ta_run t0) && unfinished (ta_status t0)) eqn:E; [done|].
    apply mem_elem in Hid. unfold in_runs in E. by rewrite Hid in E.
  - rewrite Hi. intros i Hin Hid. apply update_where_elem in Hin as (i0 & _ & ->).
    destruct (in_runs ids (ib_run i0) && str_eqb (ib_status i0) (str "pending")) eqn:E; [done|].
    apply mem_elem in Hid. unfold in_runs in E. rewrite Hid in E. by apply str_eqb_neq.
  - rewrite Hr. intros r Hin Hid rows e c. apply update_where_elem in Hin as (r0 & _ & ->).
    destruct (in_runs ids (ru_id r0)) eqn:E; [done|].
    apply mem_elem in Hid. unfold in_runs in E. by rewrite Hid in E.
  - rewrite Ht. intros t Hin Hid. apply update_where_elem. exists t. split; [done|].
    apply mem_elem_false in Hid. unfold in_runs. by rewrite Hid.
  - rewrite Hi. intros i Hin Hid. apply update_where_elem. exists i. split; [done|].
    apply mem_elem_false in Hid. unfold in_runs. by rewrite Hid.
Qed.

(** ** Flow versions *)

Lemma max_version_le flow l r : r ∈ l -> fl_id r = flow -> (fl_version r <= max_version flow l)%Z.
Proof.
  intros Hr Hf. unfold max_version.
  assert (forall vs a, (a <= fold_left Z.max vs a)%Z /\ forall v, v ∈ vs -> (v <= fold_left Z.max vs a)%Z) as H.
  { induction vs as [|v vs IH]; intros a; simpl.
    - split; [lia|]. intros w Hw. by apply not_elem_of_nil in Hw.
    - destruct (IH (Z.max a v)) as [H1 H2]. split; [lia|]. intros w Hw.
      apply elem_of_cons in Hw as [->|Hw]; [lia|auto]. }
  apply H. apply list_elem_of_In, in_map, filter_In. split; [by apply list_elem_of_In|].
  by apply str_eqb_eq.
Qed.

(** A created flow version is the one read back as latest, its number is
    above every version the flow had, and other flows still read the same. *)
Theorem flow_version_roundtrip (st : mission_store) (flow name definition : rstr) :
  let '(st', v) := create_mission_flow st flow name definition in
  latest_mission_flow st' flow = Some (v, name, definition) /\
  (forall r, r ∈ ms_flows st -> fl_id r = flow -> (fl_version r < v)%Z) /\
  (forall other, other <> flow -> latest_mission_flow st' other = latest_mission_flow st other).
Proof.
  unfold create_mission_flow. split; [|split].
  - unfold latest_mission_flow. cbn [ms_flows with_flows]. rewrite List.filter_app. simpl.
    rewrite str_eqb_refl.
    set (new := {| fl_id := flow |}).
    set (old := List.filter _ (ms_flows st)).
    destruct (head (sort_by (fun a b => (fl_version b <=? fl_version a)%Z) (old ++ [new]))) as [a|] eqn:E.
    + apply (head_sort_max fl_version) in E as [Ha Hmax].
      assert (a = new) as ->; [|done].
      apply elem_of_app in Ha as [Ha|Ha]; [|by apply list_elem_of_singleton in Ha].
      specialize (Hmax new). assert (fl_version new <= fl_version a)%Z as Hle
        by (apply Hmax, elem_of_app; right; by left).
      subst old. apply list_elem_of_In, filter_In in Ha as [Ha Hid]. apply str_eqb_eq in Hid.
      pose proof (max_version_le flow (ms_flows st) a (proj2 (list_elem_of_In _ _) Ha) Hid).
      subst new. simpl in Hle. lia.
    + exfalso. assert (new ∈ sort_by (fun a b => (fl_version b <=? fl_version a)%Z) (old ++ [new])) as H
        by (apply sort_by_elem, elem_of_app; right; by left).
      destruct (sort_by _ _); [by apply not_elem_of_nil in H|done].
  - intros r Hr Hid. pose proof (max_version_le flow (ms_flows st) r Hr Hid). lia.
  - intros other Hne. unfold latest_mission_flow. cbn [ms_flows with_flows].
    rewrite List.filter_app. simpl.
    assert (str_eqb flow other = false) as -> by (apply str_eqb_neq; congruence).
    by rewrite app_nil_r.
Qed.

(** ** Human answers *)

Definition pending_count (run : rstr) (st : mission_store) (node : rstr) : nat :=
  count (pending_for (task_id run node)) (ms_inbox st).

(** One answer wins: an answer is accepted exactly while the node has a
    pending item, and uses up exactly one, so of any number of concurrent
    answers at most as many win as there are pending items. *)
Theorem inbox_single_winner (now : rstr) (st st' : mission_store) (run node decision : rstr)
  (feedback : option rstr) (won : bool) :
  inbox_wf st -> resolve_mission_inbox now st run node decision feedback = (st', won) ->
  pending_count run st' node + (if won then 1 else 0) = pending_count run st node /\
  (won = false -> st' = st /\ pending_count run st node = 0) /\
  inbox_wf st'.
Proof.
  intros Hwf Hres.
  destruct (resolve_pending now run st node decision feedback st' won node Hwf Hres) as (Hwf' & _ & Hwon).
  revert Hres. unfold resolve_mission_inbox, pending_count.
  destruct (head _) as [pk|] eqn:E.
  - intros [= <- <-].
    assert (pk ∈ sort_by (fun a b => ib_id a <=? ib_id b)
      (List.filter (pending_for (task_id run node)) (ms_inbox st))) as Hpk
      by (destruct (sort_by _ _); simplify_eq/=; by left).
    apply sort_by_elem, list_elem_of_In, filter_In in Hpk as [Hin Hp].
    apply list_elem_of_In in Hin.
    assert (existsb (fun r => ib_id r =? ib_id pk) (ms_inbox st) = true) as Hx.
    { apply existsb_elem. exists pk. split; [done|]. apply Nat.eqb_refl. }
    rewrite Hx in *. split; [|by split].
    cbn [ms_inbox with_inbox].
    rewrite <-(count_update_unique (pending_for (task_id run node)) ib_id
      (resolve_row now decision feedback) pk (ms_inbox st)); [lia|apply Hwf|done|done|].
    intros b. unfold pending_for. simpl. apply andb_false_r.
  - intros [= <- <-]. split; [lia|]. split; [|done]. intros _. split; [done|].
    apply count_zero. intros r Hr. destruct (pending_for _ r) eqn:Hp; [|done].
    assert (false = true) as [=]. apply Hwon. by exists r.
Qed.

Lemma demo_asked_ok : inbox_wf demo_asked_store.
Proof.
  split; [apply (bool_decide_unpack _); vm_compute; exact I|].
  intros r Hr. apply list_elem_of_singleton in Hr as ->. vm_compute. lia.
Qed.

Lemma inbox_single_winner_witness :
  let r1 := resolve_mission_inbox demo_now demo_asked_store demo_run (str "gate") (str "approve") None in
  pending_count demo_run r1.1 (str "gate") + 1 = pending_count demo_run demo_asked_store (str "gate").
Proof.
  intros r1. apply (inbox_single_winner demo_now demo_asked_store r1.1 demo_run (str "gate")
    (str "approve") None true demo_asked_ok). vm_compute. reflexivity.
Defined.
