(* ===== verification/Session.v ===== *)
(** * Session: live sessions of the daemon ([session.rs])

    The per-turn event journal against its specification, and the
    [SessionManager]: creation and resumption under the session cap, as steps
    that interleave at the points where the code releases its lock, closing,
    and the idle sweep.  Backend clients and sessions are trait objects: a
    client is known by its provider id, a session by the values it reports. *)

From S2P Require Import Prelude Str Json.

(** ** The event journal *)

(** [StreamEventKind]; the payloads the journal never looks at are kept in
    their serialized form. *)
Inductive StreamEventKind :=
| ThreadStarted (native_handle : rstr)
| TurnStarted
| TurnCompleted (usage : option json)
| TurnFailed (error : rstr) (code : option rstr)
| TurnCanceled (reason : rstr)
| ModeChanged (mode : option rstr)
| ModelChanged (model : rstr)
| Timeline (item : json)
| PermissionRequested (request : json)
| PermissionResolved (request_id : rstr)
| AttentionRequired (reason : json)
| Subagent (event : json).

Record StreamEvent := { ev_turn : option rstr; ev_kind : StreamEventKind }.

Definition is_turn_boundary (ev : StreamEvent) : bool :=
  match ev_kind ev with
  | TurnCompleted _ | TurnFailed _ _ | TurnCanceled _ => true
  | _ => false
  end.

Record JournalState := { j_events : list StreamEvent; j_shed : bool }.

Definition JOURNAL_CAP : nat := 2048.
#[global] Arguments JOURNAL_CAP : simpl never.

Module Journal.
Definition new : JournalState := {| j_events := []; j_shed := false |}.

Definition record (j : JournalState) (ev : StreamEvent) : JournalState :=
  if is_turn_boundary ev then {| j_events := []; j_shed := false |}
  else
    let full := JOURNAL_CAP <=? length (j_events j) in
    {| j_events := (if full then tail (j_events j) else j_events j) ++ [ev];
       j_shed := if full then true else j_shed j |}.

(** The resident subscriber lagged behind the broadcast channel. *)
Definition lagged (j : JournalState) : JournalState := {| j_events := []; j_shed := true |}.

Definition snapshot_current_turn (j : JournalState) : list StreamEvent :=
  if j_shed j then [] else j_events j.
End Journal.

(** What the journal's subscriber receives. *)
Inductive received := REvent (ev : StreamEvent) | RLagged.

Definition journal_receive (j : JournalState) (r : received) : JournalState :=
  match r with
  | REvent ev => Journal.record j ev
  | RLagged => Journal.lagged j
  end.

Definition journal_run (rs : list received) : JournalState :=
  fold_left journal_receive rs Journal.new.

(** The events after the last turn boundary; [None] once one was missed. *)
Definition turn_step (acc : option (list StreamEvent)) (r : received) : option (list StreamEvent) :=
  match r with
  | RLagged => None
  | REvent ev => if is_turn_boundary ev then Some [] else (fun l => l ++ [ev]) <$> acc
  end.

Definition current_turn (rs : list received) : option (list StreamEvent) :=
  fold_left turn_step rs (Some []).

Lemma record_length j ev :
  length (j_events j) <= JOURNAL_CAP -> length (j_events (Journal.record j ev)) <= JOURNAL_CAP.
Proof.
  intros H. unfold Journal.record. destruct (is_turn_boundary ev); cbn [j_events length]; [lia|].
  rewrite length_app. destruct (Nat.leb_spec JOURNAL_CAP (length (j_events j))) as [Hc|Hc]; cbn [length].
  - assert (0 < JOURNAL_CAP) by (unfold JOURNAL_CAP; lia). destruct (j_events j); cbn [length tail] in *; lia.
  - lia.
Qed.

Lemma journal_run_inv rs :
  let j := journal_run rs in
  length (j_events j) <= JOURNAL_CAP /\
  match current_turn rs with
  | Some l => if JOURNAL_CAP <? length l then j_shed j = true
              else j_shed j = false /\ j_events j = l
  | None => j_shed j = true
  end.
Proof.
  unfold journal_run, current_turn.
  induction rs as [|r rs IH] using rev_ind; [by vm_compute; split; [lia|]|].
  rewrite !fold_left_app. cbn [fold_left]. cbv zeta in *.
  set (j := fold_left journal_receive rs Journal.new) in *.
  set (acc := fold_left turn_step rs (Some [])) in *.
  destruct IH as [Hlen IH]. destruct r as [ev|]; cbn [journal_receive turn_step]; [|split; [cbn; lia|done]].
  split; [by apply record_length|]. unfold Journal.record.
  destruct (is_turn_boundary ev) eqn:Eb; [done|].
  destruct acc as [l|]; cbn [fmap option_fmap option_map j_shed j_events].
  - rewrite length_app. cbn [length].
    destruct (Nat.ltb_spec JOURNAL_CAP (length l)) as [Hl|Hl].
    + destruct (Nat.ltb_spec JOURNAL_CAP (length l + 1)); [|lia]. rewrite IH. by destruct (_ <=? _).
    + destruct IH as [Hs ->]. destruct (Nat.leb_spec JOURNAL_CAP (length l)) as [Hc|Hc].
      * destruct (Nat.ltb_spec JOURNAL_CAP (length l + 1)); [done|lia].
      * destruct (Nat.ltb_spec JOURNAL_CAP (length l + 1)); [lia|done].
  - rewrite IH. by destruct (_ <=? _).
Qed.

(** The journal replays exactly the current turn: the events since the
    last turn boundary, in order, or nothing at all once the turn outgrew the
    buffer or an event of it was missed; it never replays a partial turn and
    never holds more than its capacity. *)
Theorem journal_replays_current_turn (rs : list received) :
  Journal.snapshot_current_turn (journal_run rs) =
    match current_turn rs with
    | Some l => if length l <=? JOURNAL_CAP then l else []
    | None => []
    end /\
  length (j_events (journal_run rs)) <= JOURNAL_CAP.
Proof.
  destruct (journal_run_inv rs) as [Hlen H]. cbv zeta in *. split; [|done].
  unfold Journal.snapshot_current_turn. destruct (current_turn rs) as [l|]; [|by rewrite H].
  destruct (Nat.ltb_spec JOURNAL_CAP (length l)), (Nat.leb_spec (length l) JOURNAL_CAP); try lia.
  - by rewrite H.
  - by destruct H as [-> ->].
Qed.

(** ** The session manager *)

Record PersistenceHandle := {
  h_provider : rstr; h_native_handle : rstr; h_metadata : json
}.

(** The atomics and the backend's idle clock are what they read now; [m_age]
    is the time since creation in nanoseconds. *)
Record ManagedSession := {
  m_id : rstr;
  m_provider : rstr;
  m_handle : option PersistenceHandle;
  m_busy : bool;
  m_ever_used : bool;
  m_age : Z;
  m_idle_secs : Z;
  m_persona : option (rstr * option rstr)
}.

Record manager := {
  g_clients : gset rstr;
  g_sessions : gmap rstr ManagedSession;
  g_default : option rstr;
  g_max_sessions : option nat
}.

Inductive session_error := BackendUnavailable (id : option rstr) | SessionLimit (cap : nat).

Definition with_sessions (g : manager) (s : gmap rstr ManagedSession) : manager := {|
  g_clients := g_clients g; g_sessions := s;
  g_default := g_default g; g_max_sessions := g_max_sessions g |}.

(** A resolved backend of the catalog: id, detected, and whether a client
    can be made for it. *)
Record ResolvedBackend := { rb_id : rstr; rb_detected : bool; rb_client : bool }.

Definition detected_clients (resolved : list ResolvedBackend) : gset rstr :=
  fold_left (fun acc r =>
    if negb (rb_detected r) then acc
    else if rb_client r then {[ rb_id r ]} ∪ acc else acc) resolved ∅.

Definition from_config (resolved : list ResolvedBackend) (default_backend : option rstr)
  (max_sessions : option nat) : manager := {|
  g_clients := detected_clients resolved; g_sessions := ∅;
  g_default := default_backend; g_max_sessions := max_sessions |}.

Definition refresh (g : manager) (resolved : list ResolvedBackend) (default_backend : option rstr)
  (max_sessions : option nat) : manager := {|
  g_clients := detected_clients resolved; g_sessions := g_sessions g;
  g_default := default_backend; g_max_sessions := max_sessions |}.

Definition set_clients (g : manager) (clients : gset rstr) : manager := {|
  g_clients := clients; g_sessions := g_sessions g;
  g_default := g_default g; g_max_sessions := g_max_sessions g |}.

Definition insert_client (g : manager) (id : rstr) : manager := set_clients g ({[ id ]} ∪ g_clients g).

Definition live_count (g : manager) : nat := size (g_sessions g).

Definition busy_ids (g : manager) : gset rstr :=
  dom (filter (fun p : rstr * ManagedSession => m_busy p.2 = true) (g_sessions g)).

Definition available_backends (g : manager) : list rstr := sort_by str_leb (elements (g_clients g)).

Definition status_row (m : ManagedSession) : rstr * rstr * bool * Z :=
  (m_id m, m_provider m, m_busy m, m_idle_secs m).

Definition live_status (g : manager) : list (rstr * rstr * bool * Z) :=
  sort_by (fun a b => str_leb a.1.1.1 b.1.1.1) (map status_row ((map_to_list (g_sessions g)).*2)).

(** The first client in the map's (arbitrary) order is the last resort. *)
Definition resolve_provider (g : manager) (requested : option rstr) : result rstr session_error :=
  match requested with
  | Some id =>
      if bool_decide (id ∈ g_clients g) then Ok id else Err (BackendUnavailable (Some id))
  | None =>
      match g_default g with
      | Some d =>
          if bool_decide (d ∈ g_clients g) then Ok d
          else ok_or (head (elements (g_clients g))) (BackendUnavailable None)
      | None => ok_or (head (elements (g_clients g))) (BackendUnavailable None)
      end
  end.

Definition at_cap (g : manager) : option nat :=
  match g_max_sessions g with
  | Some cap => if cap <=? live_count g then Some cap else None
  | None => None
  end.

(** [create] up to the spawn of the backend session. *)
Definition create_check (g : manager) (backend : option rstr) : result rstr session_error :=
  match at_cap g with
  | Some cap => Err (SessionLimit cap)
  | None => resolve_provider g backend
  end.

(** [create] once the backend session exists: insert it, or close the orphan. *)
Definition create_insert (g : manager) (m : ManagedSession) : manager * result unit session_error :=
  match at_cap g with
  | Some cap =>
      if negb (bool_decide (is_Some (g_sessions g !! m_id m))) then (g, Err (SessionLimit cap))
      else (with_sessions g (<[m_id m := m]> (g_sessions g)), Ok tt)
  | None => (with_sessions g (<[m_id m := m]> (g_sessions g)), Ok tt)
  end.

(** [resume] up to the resumption of the backend session. *)
Definition resume_check (g : manager) (sid : rstr) (h : PersistenceHandle) : result unit session_error :=
  if negb (bool_decide (h_provider h ∈ g_clients g)) then Err (BackendUnavailable (Some (h_provider h)))
  else
    let already_live := bool_decide (is_Some (g_sessions g !! sid)) in
    match at_cap g with
    | Some cap => if negb already_live then Err (SessionLimit cap) else Ok tt
    | None => Ok tt
    end.

Definition resume_insert (g : manager) (m : ManagedSession) : manager :=
  with_sessions g (<[m_id m := m]> (g_sessions g)).

Definition get_session (g : manager) (sid : rstr) : option ManagedSession := g_sessions g !! sid.

Definition detach (g : manager) (sid : rstr) : manager * option ManagedSession :=
  (with_sessions g (delete sid (g_sessions g)), g_sessions g !! sid).

(** The session closed is returned. *)
Definition close (g : manager) (sid : rstr) : manager * option ManagedSession := detach g sid.

Definition shutdown (g : manager) : manager * list ManagedSession :=
  (with_sessions g ∅, (map_to_list (g_sessions g)).*2).

(** ** Interleaving

    [create] and [resume] release the lock between their check and their
    insert, while the backend process starts. *)

Inductive pending_op := PCreate (provider : rstr) | PResume (sid : rstr) (h : PersistenceHandle).

Record mstate := { s_mgr : manager; s_pending : list pending_op }.

Inductive mstep : mstate -> mstate -> Prop :=
| ms_begin_create g ps backend provider :
    create_check g backend = Ok provider ->
    mstep {| s_mgr := g; s_pending := ps |} {| s_mgr := g; s_pending := PCreate provider :: ps |}
| ms_end_create g ps1 ps2 provider m :
    m_provider m = provider ->
    mstep {| s_mgr := g; s_pending := ps1 ++ PCreate provider :: ps2 |}
          {| s_mgr := (create_insert g m).1; s_pending := ps1 ++ ps2 |}
| ms_begin_resume g ps sid h :
    resume_check g sid h = Ok tt ->
    mstep {| s_mgr := g; s_pending := ps |} {| s_mgr := g; s_pending := PResume sid h :: ps |}
| ms_end_resume g ps1 ps2 sid h m :
    m_id m = sid -> m_provider m = h_provider h -> m_handle m = Some h ->
    mstep {| s_mgr := g; s_pending := ps1 ++ PResume sid h :: ps2 |}
          {| s_mgr := resume_insert g m; s_pending := ps1 ++ ps2 |}
| ms_backend_failed g ps1 ps2 p :
    mstep {| s_mgr := g; s_pending := ps1 ++ p :: ps2 |} {| s_mgr := g; s_pending := ps1 ++ ps2 |}
| ms_close g ps sid :
    mstep {| s_mgr := g; s_pending := ps |} {| s_mgr := (close g sid).1; s_pending := ps |}
| ms_touch g ps sid m m' :
    g_sessions g !! sid = Some m -> m_id m' = m_id m -> m_provider m' = m_provider m ->
    mstep {| s_mgr := g; s_pending := ps |}
          {| s_mgr := with_sessions g (<[sid := m']> (g_sessions g)); s_pending := ps |}
| ms_refresh g ps resolved d cap :
    mstep {| s_mgr := g; s_pending := ps |} {| s_mgr := refresh g resolved d cap; s_pending := ps |}.

(** ** The idle sweep *)

Definition NANOS : Z := 1000000000.
Definition FRESH_SESSION_GRACE : Z := 60 * NANOS.

Definition fresh (m : ManagedSession) : bool :=
  negb (m_ever_used m) && (m_age m <? FRESH_SESSION_GRACE)%Z.

Definition idle_time (m : ManagedSession) : Z := (m_idle_secs m * NANOS)%Z.

(** One session of the sweep: the delay so far and the ids to close. *)
Definition reap_visit (max_idle : Z) (acc : Z * list rstr) (e : rstr * ManagedSession)
  : Z * list rstr :=
  let '(nearest, to_close) := acc in
  let '(id, m) := e in
  if m_busy m then acc
  else if fresh m then (Z.min nearest (FRESH_SESSION_GRACE - m_age m), to_close)
  else if (max_idle <=? idle_time m)%Z then (nearest, to_close ++ [id])
  else (Z.min nearest (max_idle - idle_time m), to_close).

(** The closes follow the scan without the lock: what may happen in between is
    covered by [ms_close] among the other steps. *)
Definition reap_idle (g : manager) (max_idle : Z) : manager * Z :=
  let '(nearest, to_close) :=
    fold_left (reap_visit max_idle) (map_to_list (g_sessions g)) (max_idle, []) in
  (fold_left (fun g id => (close g id).1) to_close g, Z.max nearest NANOS).

(** ** Facts *)

Lemma at_cap_None g cap : at_cap g = None -> g_max_sessions g = Some cap -> live_count g < cap.
Proof.
  unfold at_cap. intros H Hc. rewrite Hc in H.
  destruct (Nat.leb_spec cap (live_count g)); [done|lia].
Qed.

Lemma create_insert_size g m cap :
  g_max_sessions g = Some cap ->
  live_count (create_insert g m).1 <= Nat.max cap (live_count g) /\
  g_max_sessions (create_insert g m).1 = Some cap.
Proof.
  intros Hc. unfold create_insert, live_count. destruct (at_cap g) as [c|] eqn:E.
  - case_bool_decide as Hs; simpl; [|by split; [lia|]]. split; [|done].
    destruct Hs as [x Hx]. rewrite map_size_insert_Some; [lia|by eexists].
  - simpl. split; [|done]. pose proof (at_cap_None g cap E Hc). unfold live_count in *.
    rewrite map_size_insert. destruct (g_sessions g !! m_id m); simpl; lia.
Qed.

(** The sweep as a whole. *)
Definition reapable (max_idle : Z) (m : ManagedSession) : bool :=
  negb (m_busy m) && negb (fresh m) && (max_idle <=? idle_time m)%Z.

(** When an idle session the sweep leaves alone becomes due. *)
Definition due_in (max_idle : Z) (m : ManagedSession) : Z :=
  if fresh m then FRESH_SESSION_GRACE - m_age m else max_idle - idle_time m.

Lemma reap_scan max_idle es n0 c0 :
  let r := fold_left (reap_visit max_idle) es (n0, c0) in
  r.2 = c0 ++ (List.filter (fun e => reapable max_idle e.2) es).*1 /\
  (r.1 <= n0)%Z /\
  forall e, e ∈ es -> m_busy e.2 = false -> reapable max_idle e.2 = false ->
    (r.1 <= due_in max_idle e.2)%Z.
Proof.
  revert n0 c0; induction es as [|[id m] es IH]; intros n0 c0; cbn [fold_left].
  - cbn. rewrite app_nil_r. split; [done|]. split; [lia|]. intros e He; by apply not_elem_of_nil in He.
  - cbn [reap_visit List.filter]. cbn [snd]. unfold reapable at 1 3.
    destruct (m_busy m) eqn:Eb; [|destruct (fresh m) eqn:Ef;
      [|destruct (max_idle <=? idle_time m)%Z eqn:Ei]]; cbn [negb andb].
    + destruct (IH n0 c0) as (H1 & H2 & H3). split; [done|]. split; [done|].
      intros e He Hb Hr. apply elem_of_cons in He as [->|He]; [cbn in Hb; congruence|auto].
    + destruct (IH (Z.min n0 (FRESH_SESSION_GRACE - m_age m)) c0) as (H1 & H2 & H3).
      split; [done|]. split; [lia|]. intros e He Hb Hr.
      apply elem_of_cons in He as [->|He]; [|auto]. unfold due_in. cbn [snd]. rewrite Ef. lia.
    + destruct (IH n0 (c0 ++ [id])) as (H1 & H2 & H3). split; [by rewrite H1, <-app_assoc|].
      split; [done|]. intros e He Hb Hr. apply elem_of_cons in He as [->|He]; [|auto].
      unfold reapable in Hr. cbn [snd] in *. by rewrite Eb, Ef, Ei in Hr.
    + destruct (IH (Z.min n0 (max_idle - idle_time m)) c0) as (H1 & H2 & H3).
      split; [done|]. split; [lia|]. intros e He Hb Hr.
      apply elem_of_cons in He as [->|He]; [|auto]. unfold due_in. cbn [snd]. rewrite Ef. lia.
Qed.

Lemma close_fold ids g :
  let g' := fold_left (fun g id => (close g id).1) ids g in
  forall id, g_sessions g' !! id = if bool_decide (id ∈ ids) then None else g_sessions g !! id.
Proof.
  cbv zeta. revert g; induction ids as [|i ids IH]; intros g id; cbn [fold_left].
  - by rewrite bool_decide_eq_false_2 by (apply not_elem_of_nil).
  - rewrite IH. cbn [close detach fst g_sessions with_sessions].
    destruct (decide (i = id)) as [->|Hne].
    + rewrite lookup_delete_eq, (bool_decide_eq_true_2 (id ∈ id :: ids)) by (by left).
      by destruct (bool_decide _).
    + rewrite lookup_delete_ne by done.
      rewrite (bool_decide_ext (id ∈ i :: ids) (id ∈ ids)); [done|].
      rewrite elem_of_cons. naive_solver.
Qed.

(** Creations respect the cap: whatever interleaves between the check and
    the insert of a creation, no step raises the number of live sessions above
    the cap, as long as no resume is under way. *)
Theorem create_respects_cap (s s' : mstate) (cap : nat) :
  mstep s s' -> (forall sid h, PResume sid h ∉ s_pending s) ->
  g_max_sessions (s_mgr s) = Some cap -> g_max_sessions (s_mgr s') = Some cap ->
  live_count (s_mgr s') <= Nat.max cap (live_count (s_mgr s)).
Proof.
  destruct 1 as [g ps b p Hc|g ps1 ps2 p m Hm|g ps sid h Hc|g ps1 ps2 sid h m Hm Hp Hh
    |g ps1 ps2 p|g ps sid|g ps sid m m' Hm Hi Hpr|g ps rs d c]; cbn [s_mgr s_pending];
    intros Hnr Hcap Hcap'.
  - lia.
  - by apply create_insert_size.
  - lia.
  - exfalso. apply (Hnr sid h). apply elem_of_app. right. by left.
  - lia.
  - unfold live_count. simpl. rewrite map_size_delete. destruct (g_sessions g !! sid); simpl; lia.
  - unfold live_count. simpl. rewrite map_size_insert, Hm. simpl. lia.
  - unfold live_count. simpl. lia.
Qed.

(** The idle sweep closes exactly the sessions that are idle long enough,
    not in a turn and past their creation grace; every other session survives
    unchanged, the next sweep is due no later than the first of them becomes
    idle enough (or after the one-second minimum). *)
Theorem reap_idle_spec (g : manager) (max_idle : Z) :
  let '(g', delay) := reap_idle g max_idle in
  (forall id, g_sessions g' !! id =
     match g_sessions g !! id with
     | Some m => if reapable max_idle m then None else Some m
     | None => None
     end) /\
  (forall id m, g_sessions g' !! id = Some m -> m_busy m = false ->
     (delay <= Z.max NANOS (due_in max_idle m))%Z) /\
  (NANOS <= delay <= Z.max NANOS max_idle)%Z.
Proof.
  unfold reap_idle.
  destruct (reap_scan max_idle (map_to_list (g_sessions g)) max_idle []) as (H1 & H2 & H3).
  destruct (fold_left _ _ (max_idle, [])) as [nearest to_close]. cbn [fst snd app] in *.
  pose proof (close_fold to_close g) as Hcl. cbv zeta in Hcl.
  assert (forall id, g_sessions (fold_left (fun g id => (close g id).1) to_close g) !! id =
     match g_sessions g !! id with
     | Some m => if reapable max_idle m then None else Some m
     | None => None
     end) as Hl.
  { intros id. rewrite Hcl. assert (id ∈ to_close <->
      exists m, g_sessions g !! id = Some m /\ reapable max_idle m = true) as Hin.
    { rewrite H1, list_elem_of_fmap. setoid_rewrite list_elem_of_In. setoid_rewrite filter_In.
      setoid_rewrite <-list_elem_of_In. split.
      - intros ([i m] & -> & Hm & Hr). exists m. split; [by apply elem_of_map_to_list|done].
      - intros (m & Hm & Hr). exists (id, m). split; [done|]. by rewrite elem_of_map_to_list. }
    case_bool_decide as Hb.
    - apply Hin in Hb as (m & -> & Hr). by rewrite Hr.
    - destruct (g_sessions g !! id) as [m|]; [|done].
      destruct (reapable max_idle m) eqn:Er; [|done]. exfalso. apply Hb, Hin. by exists m. }
  split; [done|]. split; [|lia]. intros id m Hm Hb. rewrite Hl in Hm.
  destruct (g_sessions g !! id) as [m0|] eqn:E; [|done].
  destruct (reapable max_idle m0) eqn:Er; [done|]. injection Hm as ->.
  specialize (H3 (id, m)). rewrite elem_of_map_to_list in H3. specialize (H3 E Hb Er). cbn in H3. lia.
Qed.

(** ** Where the cap is not kept *)

Definition demo_handle : PersistenceHandle :=
  {| h_provider := str "claude"; h_native_handle := str "h"; h_metadata := JNull |}.

Definition demo_session (id : rstr) : ManagedSession := {|
  m_id := id; m_provider := str "claude"; m_handle := Some demo_handle; m_busy := false;
  m_ever_used := false; m_age := 0; m_idle_secs := 0; m_persona := None |}.

Definition demo_mgr : manager := {|
  g_clients := {[ str "claude" ]}; g_sessions := ∅; g_default := None; g_max_sessions := Some 1 |}.

(** Two resumes that interleave exceed the cap: each checks before the
    other inserts, and the insert of a resume checks nothing. *)
Theorem resume_race_exceeds_cap :
  exists s, star mstep {| s_mgr := demo_mgr; s_pending := [] |} s /\
    s_pending s = [] /\ g_max_sessions (s_mgr s) = Some 1 /\ live_count (s_mgr s) = 2.
Proof.
  eexists. split.
  - eapply star_step; [apply (ms_begin_resume demo_mgr [] (str "a") demo_handle); vm_compute; reflexivity|].
    eapply star_step; [apply (ms_begin_resume demo_mgr _ (str "b") demo_handle); vm_compute; reflexivity|].
    eapply star_step; [apply (ms_end_resume demo_mgr [] _ (str "b") demo_handle (demo_session (str "b"))); done|].
    eapply star_step; [|apply star_refl].
    apply (ms_end_resume _ [] _ (str "a") demo_handle (demo_session (str "a"))); done.
  - split; [done|]. split; [done|]. vm_compute. done.
Qed.

Lemma create_respects_cap_witness :
  live_count (create_insert demo_mgr (demo_session (str "a"))).1 <= Nat.max 1 0.
Proof.
  apply (create_respects_cap {| s_mgr := demo_mgr; s_pending := [] ++ PCreate (str "claude") :: [] |}
    {| s_mgr := (create_insert demo_mgr (demo_session (str "a"))).1; s_pending := [] ++ [] |} 1).
  - by apply ms_end_create.
  - intros sid h H. by apply list_elem_of_singleton in H.
  - reflexivity.
  - vm_compute. reflexivity.
Defined.
