(* ===== verification/PlanStore.v ===== *)
(** * PlanStore: plan reviews ([store.rs], [plan.respond] of [rpc.rs])

    The durable review rows behind plan permission asks: revisions of a plan
    supersede each other, a decision is claimed by compare-and-set before it
    is relayed to the agent, then settled or reverted, and the end of a turn
    expires what is still open.  The protocol around the rows (claims in
    flight between submit and settle) is a step relation. *)

From S2P Require Import Prelude Str Json Rows.

(** ** Data *)

(** The values of the [status] column. *)
Inductive PlanStatus :=
| AwaitingReview | Submitting | Approved | ChangesRequested
| Deferred | PlanCancelled | Expired | Superseded.

#[export] Instance PlanStatus_eq_dec : EqDecision PlanStatus.
Proof. solve_decision. Defined.

Definition plan_status_str (s : PlanStatus) : rstr :=
  match s with
  | AwaitingReview => str "awaiting_review"
  | Submitting => str "submitting"
  | Approved => str "approved"
  | ChangesRequested => str "changes_requested"
  | Deferred => str "deferred"
  | PlanCancelled => str "cancelled"
  | Expired => str "expired"
  | Superseded => str "superseded"
  end.

(** A stored row; [decision] is the intent's JSON text. *)
Record PlanRow := {
  p_plan : rstr; p_session : rstr; p_request : rstr; p_revision : Z;
  p_title : rstr; p_content : rstr; p_hash : rstr; p_complete : bool;
  p_status : PlanStatus; p_decision : option rstr;
  p_intent_at : option Z; p_applied_at : option Z;
  p_created : Z; p_updated : Z; p_superseded_by : option Z
}.

Inductive PlanSubmit :=
| Claimed (session request : rstr) (previous : PlanStatus)
| Conflict (row : PlanRow)
| NotFound
| Incomplete
| FeedbackRequired.

Inductive PlanDecision := DApprove | DRequestChanges | DDefer.

#[export] Instance PlanDecision_eq_dec : EqDecision PlanDecision.
Proof. solve_decision. Defined.

Definition parse_plan_decision (s : rstr) : option PlanDecision :=
  if str_eqb s (str "approve") then Some DApprove
  else if str_eqb s (str "request_changes") then Some DRequestChanges
  else if str_eqb s (str "defer") then Some DDefer
  else None.

Definition plan_decision_str (d : PlanDecision) : rstr :=
  match d with
  | DApprove => str "approve" | DRequestChanges => str "request_changes" | DDefer => str "defer"
  end.

(** [awaiting_review, changes_requested, deferred]: a re-ask chains on it. *)
Definition chains (s : PlanStatus) : bool :=
  match s with AwaitingReview | ChangesRequested | Deferred => true | _ => false end.

(** The statuses a new revision supersedes. *)
Definition supersedable (s : PlanStatus) : bool :=
  match s with AwaitingReview | Submitting | Deferred | ChangesRequested => true | _ => false end.

Definition claimable (s : PlanStatus) : bool :=
  match s with AwaitingReview | Deferred => true | _ => false end.

(** Open at the end of a turn. *)
Definition expirable (s : PlanStatus) : bool :=
  match s with AwaitingReview | Submitting | Deferred => true | _ => false end.

Definition at_revision (plan : rstr) (revision : Z) (r : PlanRow) : bool :=
  str_eqb (p_plan r) plan && (p_revision r =? revision)%Z.

Definition set_plan_status (s : PlanStatus) (now : Z) (r : PlanRow) : PlanRow := {|
  p_plan := p_plan r; p_session := p_session r; p_request := p_request r;
  p_revision := p_revision r; p_title := p_title r; p_content := p_content r; p_hash := p_hash r;
  p_complete := p_complete r; p_status := s; p_decision := p_decision r;
  p_intent_at := p_intent_at r; p_applied_at := p_applied_at r;
  p_created := p_created r; p_updated := now; p_superseded_by := p_superseded_by r |}.

Definition supersede (by_rev now : Z) (r : PlanRow) : PlanRow := {|
  p_plan := p_plan r; p_session := p_session r; p_request := p_request r;
  p_revision := p_revision r; p_title := p_title r; p_content := p_content r; p_hash := p_hash r;
  p_complete := p_complete r; p_status := Superseded; p_decision := p_decision r;
  p_intent_at := p_intent_at r; p_applied_at := p_applied_at r;
  p_created := p_created r; p_updated := now; p_superseded_by := Some by_rev |}.

Definition claim_row (intent : rstr) (now : Z) (r : PlanRow) : PlanRow := {|
  p_plan := p_plan r; p_session := p_session r; p_request := p_request r;
  p_revision := p_revision r; p_title := p_title r; p_content := p_content r; p_hash := p_hash r;
  p_complete := p_complete r; p_status := Submitting; p_decision := Some intent;
  p_intent_at := Some now; p_applied_at := p_applied_at r;
  p_created := p_created r; p_updated := now; p_superseded_by := p_superseded_by r |}.

Definition settle_row (s : PlanStatus) (now : Z) (r : PlanRow) : PlanRow := {|
  p_plan := p_plan r; p_session := p_session r; p_request := p_request r;
  p_revision := p_revision r; p_title := p_title r; p_content := p_content r; p_hash := p_hash r;
  p_complete := p_complete r; p_status := s; p_decision := p_decision r;
  p_intent_at := p_intent_at r; p_applied_at := Some now;
  p_created := p_created r; p_updated := now; p_superseded_by := p_superseded_by r |}.

Section Plans.
Context `{JT : JsonText}.
(** SipHash of the standard library. *)
Variable plan_content_hash : rstr -> rstr.

(** [ORDER BY created_at DESC, revision DESC] *)
Definition newest_first (a b : PlanRow) : bool :=
  if (p_created a =? p_created b)%Z then (p_revision b <=? p_revision a)%Z
  else (p_created b <=? p_created a)%Z.

Definition latest_plan (rows : list PlanRow) (session : rstr) : option PlanRow :=
  head (sort_by newest_first (List.filter (fun r => str_eqb (p_session r) session) rows)).

Definition fresh_plan_row (plan session request : rstr) (revision : Z) (title content : rstr)
  (complete : bool) (now : Z) : PlanRow := {|
  p_plan := plan; p_session := session; p_request := request; p_revision := revision;
  p_title := title; p_content := content; p_hash := plan_content_hash content;
  p_complete := complete; p_status := AwaitingReview; p_decision := None;
  p_intent_at := None; p_applied_at := None; p_created := now; p_updated := now;
  p_superseded_by := None |}.

(** [uuid] is what [Uuid::new_v4] would give a fresh chain.  The insert is
    the only statement a key could refuse; see [record_plan_no_conflict]. *)
Definition record_plan (uuid : rstr) (now : Z) (rows : list PlanRow)
  (session request title content : rstr) (complete : bool) : list PlanRow * PlanRow :=
  let '(rows1, plan, revision) :=
    match latest_plan rows session with
    | Some l =>
        if chains (p_status l) then
          let next := (p_revision l + 1)%Z in
          (update_where (fun r => str_eqb (p_plan r) (p_plan l) && supersedable (p_status r))
             (supersede next now) rows, p_plan l, next)
        else (rows, uuid, 1%Z)
    | None => (rows, uuid, 1%Z)
    end in
  let row := fresh_plan_row plan session request revision title content complete now in
  (rows1 ++ [row], row).

Definition plan_row (rows : list PlanRow) (plan : rstr) (revision : Z) : option PlanRow :=
  find_first (at_revision plan revision) rows.

Definition open_plan_for_request (rows : list PlanRow) (request : rstr) : option PlanRow :=
  head (sort_by (fun a b => (p_created b <=? p_created a)%Z)
    (List.filter (fun r => str_eqb (p_request r) request && claimable (p_status r)) rows)).

Definition plan_reviews (rows : list PlanRow) (session : rstr) : list PlanRow :=
  sort_by (fun a b => if str_eqb (p_plan a) (p_plan b) then (p_revision a <=? p_revision b)%Z
                      else str_leb (p_plan a) (p_plan b))
    (List.filter (fun r => str_eqb (p_session r) session) rows).

(** The recorded intent, as text. *)
Definition intent_text (d : PlanDecision) (feedback : option rstr) : rstr :=
  to_string (JObj [(str "decision", JStr (plan_decision_str d));
                   (str "feedback", match feedback with Some f => JStr f | None => JNull end)]).

Inductive plan_error := UnknownDecision.

Definition blank_text (o : option rstr) : bool := is_empty (trim (default [] o)).

Definition submit_plan_decision (now : Z) (rows : list PlanRow) (plan : rstr) (expected : Z)
  (decision : rstr) (feedback : option rstr) : list PlanRow * result PlanSubmit plan_error :=
  if str_eqb decision (str "request_changes") && blank_text feedback
  then (rows, Ok FeedbackRequired)
  else match parse_plan_decision decision with
  | None => (rows, Err UnknownDecision)
  | Some d =>
      match plan_row rows plan expected with
      | None => (rows, Ok NotFound)
      | Some current =>
          if str_eqb decision (str "approve") && negb (p_complete current) then (rows, Ok Incomplete)
          else if negb (claimable (p_status current)) then (rows, Ok (Conflict current))
          else
            let hit r := at_revision plan expected r && claimable (p_status r) in
            let rows' := update_where hit (claim_row (intent_text d feedback) now) rows in
            if count hit rows =? 0 then
              match plan_row rows' plan expected with
              | Some row => (rows', Ok (Conflict row))
              | None => (rows', Ok NotFound)
              end
            else (rows', Ok (Claimed (p_session current) (p_request current) (p_status current)))
      end
  end.

Definition settled_status (d : PlanDecision) : PlanStatus :=
  match d with DApprove => Approved | DRequestChanges => ChangesRequested | DDefer => Deferred end.

Definition settle_plan (now : Z) (rows : list PlanRow) (plan : rstr) (revision : Z) (decision : rstr)
  : result (list PlanRow) plan_error :=
  match parse_plan_decision decision with
  | None => Err UnknownDecision
  | Some d =>
      Ok (update_where (fun r => at_revision plan revision r && bool_decide (p_status r = Submitting))
            (settle_row (settled_status d) now) rows)
  end.

Definition revert_plan (now : Z) (rows : list PlanRow) (plan : rstr) (revision : Z)
  (previous : PlanStatus) : list PlanRow :=
  update_where (fun r => at_revision plan revision r && bool_decide (p_status r = Submitting))
    (set_plan_status previous now) rows.

Definition expire_open_plans (now : Z) (rows : list PlanRow) (session : rstr) : list PlanRow * nat :=
  let hit r := str_eqb (p_session r) session && expirable (p_status r) in
  (update_where hit (set_plan_status Expired now) rows, count hit rows).

(** ** The protocol around the rows *)

(** A claim between its submit and its settle or revert. *)
Record claim := {
  cl_plan : rstr; cl_revision : Z; cl_decision : PlanDecision; cl_feedback : option rstr;
  cl_previous : PlanStatus
}.

Record plan_state := { ps_rows : list PlanRow; ps_claims : list claim }.

Inductive plan_step : plan_state -> plan_state -> Prop :=
| pl_record uuid now rows cs session request title content :
    (forall r, r ∈ rows -> p_plan r <> uuid) ->
    plan_step {| ps_rows := rows; ps_claims := cs |}
      {| ps_rows := (record_plan uuid now rows session request title content
                       (negb (is_empty (trim content)))).1; ps_claims := cs |}
| pl_claim now rows rows' cs plan revision d feedback session request previous :
    submit_plan_decision now rows plan revision (plan_decision_str d) feedback
      = (rows', Ok (Claimed session request previous)) ->
    plan_step {| ps_rows := rows; ps_claims := cs |}
      {| ps_rows := rows'; ps_claims := {| cl_plan := plan; cl_revision := revision;
           cl_decision := d; cl_feedback := feedback; cl_previous := previous |} :: cs |}
| pl_ack now rows rows' cs1 c cs2 :
    settle_plan now rows (cl_plan c) (cl_revision c) (plan_decision_str (cl_decision c)) = Ok rows' ->
    plan_step {| ps_rows := rows; ps_claims := cs1 ++ c :: cs2 |}
      {| ps_rows := rows'; ps_claims := cs1 ++ cs2 |}
| pl_relay_failed now rows cs1 c cs2 :
    plan_step {| ps_rows := rows; ps_claims := cs1 ++ c :: cs2 |}
      {| ps_rows := revert_plan now rows (cl_plan c) (cl_revision c) (cl_previous c);
         ps_claims := cs1 ++ cs2 |}
| pl_turn_end now rows cs session :
    plan_step {| ps_rows := rows; ps_claims := cs |}
      {| ps_rows := (expire_open_plans now rows session).1; ps_claims := cs |}.

(** ** Facts *)

Definition plan_key (r : PlanRow) : rstr * Z := (p_plan r, p_revision r).
Definition claim_key (c : claim) : rstr * Z := (cl_plan c, cl_revision c).

(** Keys are unique, a live revision is the newest of its plan. *)
Definition chained (rows : list PlanRow) : Prop :=
  NoDup (map plan_key rows) /\
  forall r r', r ∈ rows -> r' ∈ rows -> p_plan r = p_plan r' ->
    supersedable (p_status r) = true -> (p_revision r' <= p_revision r)%Z.

Definition intent_recorded (c : claim) (r : PlanRow) : Prop :=
  p_decision r = Some (intent_text (cl_decision c) (cl_feedback c)) /\
  (cl_decision c = DApprove -> p_complete r = true).

(** Rows against the claims in flight. *)
Record plan_inv (s : plan_state) : Prop := {
  pi_chained : chained (ps_rows s);
  pi_claims : NoDup (map claim_key (ps_claims s));
  pi_previous : forall c, c ∈ ps_claims s -> claimable (cl_previous c) = true;
  pi_closed : forall c r, c ∈ ps_claims s -> r ∈ ps_rows s -> plan_key r = claim_key c ->
    claimable (p_status r) = false /\ p_status r <> Approved /\ (p_status r = Submitting -> intent_recorded c r);
  pi_open : forall r, r ∈ ps_rows s -> p_status r = Submitting ->
    exists c, c ∈ ps_claims s /\ plan_key r = claim_key c;
  pi_approved : forall r, r ∈ ps_rows s -> p_status r = Approved ->
    p_complete r = true /\ exists fb, p_decision r = Some (intent_text DApprove fb)
}.

Lemma at_revision_key plan revision r : at_revision plan revision r = true <-> plan_key r = (plan, revision).
Proof.
  unfold at_revision, plan_key. rewrite andb_true_iff, str_eqb_eq, Z.eqb_eq. split; [by intros [-> ->]|].
  by intros [= -> ->].
Qed.

(** A row rewritten in place: its key stays, and it is live only if it was. *)
Lemma chained_update p f rows :
  (forall r, plan_key (f r) = plan_key r) ->
  (forall r, p r = true -> supersedable (p_status (f r)) = true -> supersedable (p_status r) = true) ->
  chained rows -> chained (update_where p f rows).
Proof.
  intros Hk Hl [Hnd Hmax]. split.
  - unfold update_where. rewrite map_map. erewrite map_ext; [exact Hnd|].
    intros r. destruct (p r); [apply Hk|done].
  - intros r r' Hr Hr' Hp Hlive.
    apply update_where_elem in Hr as (x & Hx & ->). apply update_where_elem in Hr' as (y & Hy & ->).
    assert (forall z, p_plan (if p z then f z else z) = p_plan z
      /\ p_revision (if p z then f z else z) = p_revision z) as Hz.
    { intros z. pose proof (Hk z) as Hkz. unfold plan_key in Hkz. destruct (p z); [|done].
      by injection Hkz. }
    destruct (Hz x) as [Hx1 Hx2], (Hz y) as [Hy1 Hy2]. rewrite Hx1, Hy1 in Hp. rewrite Hx2, Hy2.
    apply Hmax; [done|done|done|]. destruct (p x) eqn:E; [|done]. by apply Hl.
Qed.

Lemma chained_snoc rows row :
  chained rows -> (forall r, r ∈ rows -> p_plan r = p_plan row ->
    (p_revision r < p_revision row)%Z /\ supersedable (p_status r) = false) ->
  chained (rows ++ [row]).
Proof.
  intros [Hnd Hmax] Hnew. split.
  - rewrite map_app. apply NoDup_app. split; [done|]. split; [|apply NoDup_singleton].
    intros k Hk Hk'. apply list_elem_of_singleton in Hk' as ->.
    apply list_elem_of_In, in_map_iff in Hk as (r & Hr & Hin). apply list_elem_of_In in Hin.
    injection Hr as Hp Hrev. destruct (Hnew r Hin Hp). lia.
  - intros r r' Hr Hr' Hp Hlive.
    apply elem_of_app in Hr as [Hr|Hr]; apply elem_of_app in Hr' as [Hr'|Hr'].
    + by apply Hmax.
    + apply list_elem_of_singleton in Hr' as ->. destruct (Hnew r Hr Hp) as [_ H]. congruence.
    + apply list_elem_of_singleton in Hr as ->. destruct (Hnew r' Hr') as [H _]; [done|]. lia.
    + apply list_elem_of_singleton in Hr as ->. apply list_elem_of_singleton in Hr' as ->. lia.
Qed.

Lemma latest_plan_elem rows session l : latest_plan rows session = Some l -> l ∈ rows.
Proof.
  unfold latest_plan. intros H.
  assert (l ∈ sort_by newest_first (List.filter (fun r => str_eqb (p_session r) session) rows)) as Hl
    by (destruct (sort_by _ _); simplify_eq/=; by left).
  apply sort_by_elem, list_elem_of_In, filter_In in Hl as [? _]. by apply list_elem_of_In.
Qed.

(** What recording does: old rows keep their key and are left alone or
    superseded; the new row is above every revision of its plan. *)
Lemma record_plan_shape uuid now rows session request title content complete :
  chained rows -> (forall r, r ∈ rows -> p_plan r <> uuid) ->
  let '(rows', row) := record_plan uuid now rows session request title content complete in
  chained rows' /\ p_status row = AwaitingReview /\
  exists p by_rev, rows' = update_where p (supersede by_rev now) rows ++ [row] /\
    (forall r, p r = true -> supersedable (p_status r) = true).
Proof.
  intros Hch Hfresh. unfold record_plan.
  assert (forall row, p_plan row = uuid -> chained (rows ++ [row]) /\
    exists p by_rev, rows ++ [row] = update_where p (supersede by_rev now) rows ++ [row] /\
      (forall r, p r = true -> supersedable (p_status r) = true)) as Hnew.
  { intros row Hu. split.
    - apply chained_snoc; [done|]. intros r Hr Hp. destruct (Hfresh r Hr). congruence.
    - exists (fun _ => false), 0%Z. split; [|done]. by rewrite update_where_false. }
  destruct (latest_plan rows session) as [l|] eqn:El;
    [|destruct (Hnew (fresh_plan_row uuid session request 1 title content complete now) eq_refl); done].
  destruct (chains (p_status l)) eqn:Ec;
    [|destruct (Hnew (fresh_plan_row uuid session request 1 title content complete now) eq_refl); done].
  apply latest_plan_elem in El. split; [|split; [done|]].
  - apply chained_snoc.
    + by apply chained_update.
    + intros r Hr Hp. simpl in Hp. apply update_where_elem in Hr as (r0 & Hr0 & ->).
      assert (p_plan r0 = p_plan l) as Hp0 by (revert Hp; by destruct (_ && _)).
      assert (p_revision r0 <= p_revision l)%Z as Hle.
      { apply (proj2 Hch l r0); [done|done|done|]. by destruct (p_status l). }
      rewrite Hp0, str_eqb_refl. cbn [andb]. destruct (supersedable (p_status r0)) eqn:Es; simpl;
        (split; [lia|done]).
  - eexists _, _. split; [done|]. intros r Hr. cbv beta in Hr. by bools.
Qed.

Lemma plan_row_elem rows plan revision r :
  plan_row rows plan revision = Some r -> r ∈ rows /\ plan_key r = (plan, revision).
Proof. unfold plan_row. intros H. apply find_first_Some in H as [? Hk]. by apply at_revision_key in Hk. Qed.

Lemma plan_row_unique rows plan revision r :
  NoDup (map plan_key rows) -> r ∈ rows -> plan_key r = (plan, revision) ->
  plan_row rows plan revision = Some r.
Proof.
  intros Hnd Hr Hk. unfold plan_row.
  destruct (find_first (at_revision plan revision) rows) as [r'|] eqn:E.
  - apply plan_row_elem in E as [Hr' Hk']. f_equal.
    apply list_elem_of_lookup in Hr as [i Hi]. apply list_elem_of_lookup in Hr' as [j Hj].
    assert (i = j) as ->; [|congruence].
    apply (NoDup_lookup (map plan_key rows) i j (plan, revision)); [done| |].
    + change ((plan_key <$> rows) !! i = Some (plan, revision)). by rewrite list_lookup_fmap, Hi, <-Hk.
    + change ((plan_key <$> rows) !! j = Some (plan, revision)). by rewrite list_lookup_fmap, Hj, <-Hk'.
  - apply (find_first_None _ _) with (a := r) in E; [|done].
    apply at_revision_key in Hk. congruence.
Qed.

(** The compare-and-set, as a whole. *)
Lemma submit_claimed now rows plan revision d feedback rows' session request previous :
  NoDup (map plan_key rows) ->
  submit_plan_decision now rows plan revision (plan_decision_str d) feedback
    = (rows', Ok (Claimed session request previous)) ->
  exists r, r ∈ rows /\ plan_key r = (plan, revision) /\ claimable (p_status r) = true /\
    previous = p_status r /\ session = p_session r /\ request = p_request r /\
    (d = DApprove -> p_complete r = true) /\
    (d = DRequestChanges -> blank_text feedback = false) /\
    rows' = update_where (fun r => at_revision plan revision r && claimable (p_status r))
              (claim_row (intent_text d feedback) now) rows.
Proof.
  intros Hnd. unfold submit_plan_decision.
  assert (parse_plan_decision (plan_decision_str d) = Some d) as -> by (by destruct d).
  destruct (str_eqb (plan_decision_str d) (str "request_changes") && blank_text feedback) eqn:Ef; [done|].
  destruct (plan_row rows plan revision) as [r|] eqn:Er; [|done].
  destruct (str_eqb (plan_decision_str d) (str "approve") && negb (p_complete r)) eqn:Ea; [done|].
  destruct (claimable (p_status r)) eqn:Ec; cbn [negb]; [|done].
  destruct (plan_row_elem _ _ _ _ Er) as [Hin Hk].
  destruct (count _ rows =? 0); [case_match; intros [=]|]. intros [= <- <- <- <-].
  exists r. do 6 (split; [done|]). split; [intros ->; by destruct (p_complete r)|].
  split; [intros ->; by destruct (blank_text feedback)|done].
Qed.

(** *** The protocol invariant *)

Definition claimed_rows (s : plan_state) : Prop :=
  forall c, c ∈ ps_claims s -> exists r, r ∈ ps_rows s /\ plan_key r = claim_key c.

Lemma claims_split cs1 (c : claim) cs2 :
  NoDup (map claim_key (cs1 ++ c :: cs2)) ->
  NoDup (map claim_key (cs1 ++ cs2)) /\
  forall c', c' ∈ cs1 ++ cs2 -> claim_key c' <> claim_key c.
Proof.
  intros Hnd. assert (Permutation (cs1 ++ c :: cs2) (c :: cs1 ++ cs2)) as Hp
    by (symmetry; apply Permutation_middle).
  rewrite Hp in Hnd. cbn [map] in Hnd. apply NoDup_cons in Hnd as [Hni Hnd]. split; [done|].
  intros c' Hc' Heq. apply Hni. rewrite <-Heq. by apply list_elem_of_In, in_map, list_elem_of_In.
Qed.

Lemma elem_of_split_cons (c' : claim) cs1 c cs2 :
  c' ∈ cs1 ++ c :: cs2 <-> c' = c \/ c' ∈ cs1 ++ cs2.
Proof. rewrite !elem_of_app, elem_of_cons. tauto. Qed.

Lemma record_inv uuid now rows cs session request title content complete :
  plan_inv {| ps_rows := rows; ps_claims := cs |} -> claimed_rows {| ps_rows := rows; ps_claims := cs |} ->
  (forall r, r ∈ rows -> p_plan r <> uuid) ->
  let s' := {| ps_rows := (record_plan uuid now rows session request title content complete).1;
               ps_claims := cs |} in
  plan_inv s' /\ claimed_rows s'.
Proof.
  intros [Hch Hnd Hprev Hcl Hop Hap] Hrows Hfresh. simpl in *.
  pose proof (record_plan_shape uuid now rows session request title content complete Hch Hfresh) as Hs.
  destruct (record_plan _ _ _ _ _ _ _ _) as [rows' row].
  destruct Hs as (Hch' & Hst & p & by_rev & -> & Hp). cbn [fst].
  assert (forall r, r ∈ update_where p (supersede by_rev now) rows ++ [row] ->
    r = row \/ exists r0, r0 ∈ rows /\ plan_key r = plan_key r0 /\
      (r = r0 \/ p_status r = Superseded)) as Helem.
  { intros r Hr. apply elem_of_app in Hr as [Hr|Hr]; [right|left; by apply list_elem_of_singleton in Hr].
    apply update_where_elem in Hr as (r0 & Hr0 & ->). exists r0. destruct (p r0); auto. }
  assert (forall c, c ∈ cs -> plan_key row <> claim_key c) as Hrow.
  { intros c Hc Heq. destruct (Hrows c Hc) as (r & Hr & Hk).
    destruct Hch' as [Hnd' _]. rewrite map_app in Hnd'. apply NoDup_app in Hnd' as (_ & Hdis & _).
    apply (Hdis (plan_key row)); [|by apply list_elem_of_singleton].
    simpl in Hk. rewrite (update_where_keys plan_key) by done.
    rewrite Heq, <-Hk. by apply list_elem_of_In, in_map, list_elem_of_In. }
  split; [split; simpl; try done|].
  - intros c r Hc Hr Hk. destruct (Helem r Hr) as [->|(r0 & Hr0 & Hk0 & [->|Hs])].
    + by destruct (Hrow c Hc).
    + by apply Hcl.
    + by rewrite Hs.
  - intros r Hr Hs. destruct (Helem r Hr) as [->|(r0 & Hr0 & Hk0 & [->|Hs'])]; [congruence| |congruence].
    by apply Hop.
  - intros r Hr Hs. destruct (Helem r Hr) as [->|(r0 & Hr0 & Hk0 & [->|Hs'])]; [congruence| |congruence].
    by apply Hap.
  - intros c Hc. destruct (Hrows c Hc) as (r & Hr & Hk). simpl in *.
    exists (if p r then supersede by_rev now r else r). split.
    + apply elem_of_app. left. apply update_where_elem. by exists r.
    + by destruct (p r).
Qed.

(** A row update at one key, or of a whole session. *)
Lemma update_claimed_rows p f rows cs cs' :
  (forall r, plan_key (f r) = plan_key r) -> (forall c, c ∈ cs' -> c ∈ cs) ->
  claimed_rows {| ps_rows := rows; ps_claims := cs |} ->
  claimed_rows {| ps_rows := update_where p f rows; ps_claims := cs' |}.
Proof.
  intros Hk Hcs Hrows c Hc. destruct (Hrows c (Hcs c Hc)) as (r & Hr & Hkey). simpl in *.
  exists (if p r then f r else r). split; [apply update_where_elem; by exists r|].
  destruct (p r); [by rewrite Hk|done].
Qed.

Lemma claim_inv now rows rows' cs plan revision d feedback session request previous :
  plan_inv {| ps_rows := rows; ps_claims := cs |} -> claimed_rows {| ps_rows := rows; ps_claims := cs |} ->
  submit_plan_decision now rows plan revision (plan_decision_str d) feedback
    = (rows', Ok (Claimed session request previous)) ->
  let s' := {| ps_rows := rows'; ps_claims := {| cl_plan := plan; cl_revision := revision;
           cl_decision := d; cl_feedback := feedback; cl_previous := previous |} :: cs |} in
  plan_inv s' /\ claimed_rows s'.
Proof.
  intros [Hch Hnd Hprev Hcl Hop Hap] Hrows Hsub. simpl in *. destruct Hch as [Hkeys Hmax].
  destruct (submit_claimed _ _ _ _ _ _ _ _ _ _ Hkeys Hsub)
    as (cur & Hcur & Hkcur & Hccur & -> & _ & _ & Hcomp & _ & ->). clear Hsub.
  set (c := {| cl_plan := plan |}).
  set (hit := fun r => at_revision plan revision r && claimable (p_status r)).
  assert (forall r, r ∈ rows -> plan_key r = (plan, revision) -> r = cur) as Huniq.
  { intros r Hr Hk. pose proof (plan_row_unique rows plan revision r Hkeys Hr Hk).
    pose proof (plan_row_unique rows plan revision cur Hkeys Hcur Hkcur). congruence. }
  assert (forall r, r ∈ rows -> hit r = true <-> plan_key r = (plan, revision)) as Hhit.
  { intros r Hr. subst hit. cbv beta. rewrite andb_true_iff, at_revision_key. split; [tauto|].
    intros Hk. split; [done|]. by rewrite (Huniq r Hr Hk). }
  assert (forall c', c' ∈ cs -> claim_key c' <> (plan, revision)) as Hfree.
  { intros c' Hc' Hk. destruct (Hcl c' cur Hc' Hcur) as [Hno _]; [congruence|congruence]. }
  split; [split; simpl|].
  - apply chained_update; [done| |by split]. intros r Hr _. subst hit. cbv beta in Hr. bools.
    by destruct (p_status r).
  - constructor; [|done]. intros Hin. apply list_elem_of_In, in_map_iff in Hin as (c' & Hk & Hc').
    apply list_elem_of_In in Hc'. by destruct (Hfree c' Hc').
  - intros c' Hc'. apply elem_of_cons in Hc' as [->|Hc']; [done|by apply Hprev].
  - intros c' r Hc' Hr Hk. apply update_where_elem in Hr as (r0 & Hr0 & ->).
    destruct (hit r0) eqn:Eh.
    + split; [done|]. split; [done|]. intros _. apply Hhit in Eh; [|done].
      apply elem_of_cons in Hc' as [->|Hc'].
      * split; [done|]. intros Hd. simpl. rewrite (Huniq r0 Hr0 Eh). by apply Hcomp.
      * destruct (Hfree c' Hc'). rewrite <-Hk. exact Eh.
    + apply elem_of_cons in Hc' as [->|Hc']; [|by apply Hcl].
      apply (Hhit r0 Hr0) in Hk. congruence.
  - intros r Hr Hs. apply update_where_elem in Hr as (r0 & Hr0 & ->).
    destruct (hit r0) eqn:Eh.
    + exists c. split; [by left|]. by apply Hhit in Eh.
    + destruct (Hop r0 Hr0 Hs) as (c' & Hc' & Hk). exists c'. split; [by right|done].
  - intros r Hr Hs. apply update_where_elem in Hr as (r0 & Hr0 & ->).
    destruct (hit r0); [done|by apply Hap].
  - intros c' Hc'. apply elem_of_cons in Hc' as [->|Hc'].
    + exists (if hit cur then claim_row (intent_text d feedback) now cur else cur).
      split; [apply update_where_elem; by exists cur|]. by destruct (hit cur).
    + apply (update_claimed_rows hit (claim_row (intent_text d feedback) now) rows cs cs); done.
Qed.

(** Settle and revert: the claimed row, if it is still submitting, takes the
    status [st]; approved only on an approving claim. *)
Lemma finish_claim_inv rows cs1 c cs2 (f : PlanRow -> PlanRow) :
  plan_inv {| ps_rows := rows; ps_claims := cs1 ++ c :: cs2 |} ->
  claimed_rows {| ps_rows := rows; ps_claims := cs1 ++ c :: cs2 |} ->
  (forall r, plan_key (f r) = plan_key r /\ p_complete (f r) = p_complete r /\
             p_decision (f r) = p_decision r) ->
  (forall r, p_status (f r) <> Submitting /\ (p_status (f r) = Approved -> cl_decision c = DApprove)) ->
  let s' := {| ps_rows := update_where (fun r => at_revision (cl_plan c) (cl_revision c) r
                                                  && bool_decide (p_status r = Submitting)) f rows;
               ps_claims := cs1 ++ cs2 |} in
  plan_inv s' /\ claimed_rows s'.
Proof.
  intros [Hch Hnd Hprev Hcl Hop Hap] Hrows Hf Hst. simpl in *.
  destruct (claims_split _ _ _ Hnd) as [Hnd' Hoth].
  set (hit := fun r => at_revision (cl_plan c) (cl_revision c) r && bool_decide (p_status r = Submitting)).
  assert (forall r, hit r = true <-> plan_key r = claim_key c /\ p_status r = Submitting) as Hhit.
  { intros r. subst hit. cbv beta. by rewrite andb_true_iff, at_revision_key, bool_decide_eq_true. }
  assert (forall c', c' ∈ cs1 ++ cs2 -> c' ∈ cs1 ++ c :: cs2) as Hsub
    by (intros c' Hc'; apply elem_of_split_cons; by right).
  assert (c ∈ cs1 ++ c :: cs2) as Hc by (apply elem_of_split_cons; by left).
  split; [split; simpl|].
  - apply chained_update; [by apply Hf| |done]. intros r Hr _. apply Hhit in Hr as [_ ->]. done.
  - done.
  - intros c' Hc'. by apply Hprev, Hsub.
  - intros c' r Hc' Hr Hk. apply update_where_elem in Hr as (r0 & Hr0 & ->).
    destruct (hit r0) eqn:Eh; [|by apply (Hcl c' r0 (Hsub c' Hc') Hr0)].
    apply Hhit in Eh as [Hk0 _]. destruct (Hoth c' Hc'). rewrite <-Hk, <-Hk0. by apply Hf.
  - intros r Hr Hs. apply update_where_elem in Hr as (r0 & Hr0 & ->).
    destruct (hit r0) eqn:Eh; [by destruct (Hst r0)|].
    destruct (Hop r0 Hr0 Hs) as (c' & Hc' & Hk). exists c'. split; [|done].
    apply elem_of_split_cons in Hc' as [->|Hc']; [|done].
    assert (hit r0 = true) by (by apply Hhit). congruence.
  - intros r Hr Hs. apply update_where_elem in Hr as (r0 & Hr0 & ->).
    destruct (hit r0) eqn:Eh; [|by apply Hap].
    apply Hhit in Eh as [Hk0 Hs0]. destruct (Hf r0) as (_ & -> & ->).
    destruct (Hcl c r0 Hc Hr0 Hk0) as (_ & _ & Hint). destruct (Hint Hs0) as [Hd Hcomp].
    destruct (Hst r0) as [_ Happ]. specialize (Happ Hs). rewrite Happ in *. split; [by apply Hcomp|].
    by exists (cl_feedback c).
  - eapply update_claimed_rows; [by apply Hf|exact Hsub|done].
Qed.

Lemma expire_inv now rows cs session :
  plan_inv {| ps_rows := rows; ps_claims := cs |} -> claimed_rows {| ps_rows := rows; ps_claims := cs |} ->
  let s' := {| ps_rows := (expire_open_plans now rows session).1; ps_claims := cs |} in
  plan_inv s' /\ claimed_rows s'.
Proof.
  intros [Hch Hnd Hprev Hcl Hop Hap] Hrows. simpl in *.
  split; [split; simpl; try done|].
  - by apply chained_update.
  - intros c r Hc Hr Hk. apply update_where_elem in Hr as (r0 & Hr0 & ->).
    destruct (_ && _); [done|by apply Hcl].
  - intros r Hr Hs. apply update_where_elem in Hr as (r0 & Hr0 & ->).
    destruct (_ && _); [done|by apply Hop].
  - intros r Hr Hs. apply update_where_elem in Hr as (r0 & Hr0 & ->).
    destruct (_ && _); [done|by apply Hap].
  - by eapply update_claimed_rows.
Qed.

Lemma plan_step_inv s s' : plan_step s s' -> plan_inv s /\ claimed_rows s -> plan_inv s' /\ claimed_rows s'.
Proof.
  intros Hs [Hi Hr].
  destruct Hs as [uuid now rows cs session request title content Hu
    |now rows rows' cs plan revision d feedback session request previous Hsub
    |now rows rows' cs1 c cs2 Hset|now rows cs1 c cs2|now rows cs session].
  - by apply record_inv.
  - by eapply claim_inv.
  - unfold settle_plan in Hset.
    assert (parse_plan_decision (plan_decision_str (cl_decision c)) = Some (cl_decision c)) as Hd
      by (by destruct (cl_decision c)).
    rewrite Hd in Hset. injection Hset as <-.
    apply finish_claim_inv; [done|done|done|]. intros r. simpl.
    destruct (cl_decision c); simpl; done.
  - apply finish_claim_inv; [done|done|done|]. intros r. simpl.
    assert (claimable (cl_previous c) = true) as Hp
      by (apply (pi_previous _ Hi); apply elem_of_split_cons; by left).
    by destruct (cl_previous c).
  - by apply expire_inv.
Qed.

Definition plan_init : plan_state := {| ps_rows := []; ps_claims := [] |}.

Lemma plan_init_inv : plan_inv plan_init /\ claimed_rows plan_init.
Proof.
  assert (forall A (a : A), a ∉ []) as H by (intros A a; apply not_elem_of_nil).
  split; [split; simpl; try (intros; by exfalso; eapply H)|intros c Hc; by destruct (H _ c)].
  - split; [constructor|]. intros r r' Hr. by destruct (H _ r).
  - constructor.
Qed.

Lemma plan_reach_inv s : star plan_step plan_init s -> plan_inv s.
Proof.
  intros Hs. apply (star_invariant plan_step (fun s => plan_inv s /\ claimed_rows s) plan_init s);
    [|done|apply plan_init_inv]. intros a b H Hab. by apply (plan_step_inv a b).
Qed.
End Plans.

(** ** Properties *)

(** C35: whatever revisions, submissions, relays, failures and turn ends
    interleave, a plan has at most one open revision and it is the newest;
    a row is being submitted only on behalf of a claim in flight; and a plan
    reads as approved only if it was reviewable and the recorded intent is an
    approval. *)
Theorem plan_reviews_safe `{JT : JsonText} (hash : rstr -> rstr) (s : plan_state) :
  star (plan_step hash) plan_init s ->
  (forall r r', r ∈ ps_rows s -> r' ∈ ps_rows s -> p_plan r = p_plan r' ->
     supersedable (p_status r) = true ->
     (p_revision r' <= p_revision r)%Z /\ (supersedable (p_status r') = true -> r' = r)) /\
  (forall r, r ∈ ps_rows s -> p_status r = Submitting ->
     exists c, c ∈ ps_claims s /\ plan_key r = claim_key c /\
       p_decision r = Some (intent_text (cl_decision c) (cl_feedback c))) /\
  (forall r, r ∈ ps_rows s -> p_status r = Approved ->
     p_complete r = true /\ exists fb, p_decision r = Some (intent_text DApprove fb)).
Proof.
  intros Hs. destruct (plan_reach_inv hash s Hs) as [[Hnd Hmax] _ _ Hcl Hop Hap].
  split; [|split; [|done]].
  - intros r r' Hr Hr' Hp Hlive. split; [by apply Hmax|]. intros Hlive'.
    pose proof (Hmax r r' Hr Hr' Hp Hlive). pose proof (Hmax r' r Hr' Hr (eq_sym Hp) Hlive').
    assert (plan_key r = plan_key r') as Hk by (unfold plan_key; f_equal; [done|lia]).
    pose proof (plan_row_unique (ps_rows s) _ _ r Hnd Hr eq_refl) as H1.
    pose proof (plan_row_unique (ps_rows s) _ _ r' Hnd Hr' eq_refl) as H2.
    injection Hk as Hk1 Hk2. rewrite Hk1, Hk2 in H1. congruence.
  - intros r Hr Hst. destruct (Hop r Hr Hst) as (c & Hc & Hk). exists c. split; [done|].
    split; [done|]. destruct (Hcl c r Hc Hr Hk) as (_ & _ & Hint). by apply Hint.
Qed.

(** The decision gate: a submission claims the revision exactly when the
    row exists and awaits a decision (first or deferred), an approval needs a
    reviewable plan, requested changes need feedback; the claim records the
    intent, and until it is settled or reverted every other submission for
    that revision is a conflict and changes nothing. *)
Theorem submit_gate `{JT : JsonText} (now now' : Z) (rows : list PlanRow) (r : PlanRow)
  (d d' : PlanDecision) (fb fb' : option rstr) :
  NoDup (map plan_key rows) -> r ∈ rows ->
  let submit now rows d fb :=
    submit_plan_decision now rows (p_plan r) (p_revision r) (plan_decision_str d) fb in
  let '(rows', res) := submit now rows d fb in
  ((exists session request previous, res = Ok (Claimed session request previous)) <->
     claimable (p_status r) = true /\ (d = DApprove -> p_complete r = true) /\
     (d = DRequestChanges -> blank_text fb = false)) /\
  (forall session request previous, res = Ok (Claimed session request previous) ->
     claim_row (intent_text d fb) now r ∈ rows' /\
     ((submit now' rows' d' fb').1 = rows' /\
      forall s2 r2 p2, (submit now' rows' d' fb').2 <> Ok (Claimed s2 r2 p2))).
Proof.
  intros Hnd Hr. cbv zeta.
  destruct (submit_plan_decision now rows (p_plan r) (p_revision r) (plan_decision_str d) fb)
    as [rows' res] eqn:Es. cbv beta iota.
  pose proof (plan_row_unique rows _ _ r Hnd Hr eq_refl) as Hrow.
  set (hit := fun x => at_revision (p_plan r) (p_revision r) x && claimable (p_status x)).
  assert (forall session request previous, res = Ok (Claimed session request previous) ->
    claimable (p_status r) = true /\ (d = DApprove -> p_complete r = true) /\
    (d = DRequestChanges -> blank_text fb = false) /\
    rows' = update_where hit (claim_row (intent_text d fb) now) rows) as Hclaim.
  { intros session request previous ->.
    destruct (submit_claimed _ _ _ _ _ _ _ _ _ _ Hnd Es) as (x & Hx & Hk & Hc & _ & _ & _ & H1 & H2 & H3).
    assert (x = r) as -> by (pose proof (plan_row_unique rows _ _ x Hnd Hx Hk); congruence). done. }
  rewrite Es. split.
  - split; [intros (a & b & c & H); by destruct (Hclaim a b c H) as (? & ? & ? & _)|].
    intros (Hc & Ha & Hf). revert Es. unfold submit_plan_decision. rewrite Hrow.
    assert (parse_plan_decision (plan_decision_str d) = Some d) as -> by (by destruct d).
    assert (str_eqb (plan_decision_str d) (str "request_changes") && blank_text fb = false) as ->.
    { destruct d; try done. by rewrite Hf. }
    assert (str_eqb (plan_decision_str d) (str "approve") && negb (p_complete r) = false) as ->.
    { destruct d; try done. by rewrite Ha. }
    rewrite Hc. cbn [negb]. fold hit.
    destruct (Nat.eqb_spec (count hit rows) 0) as [H0|_]; [|intros [= _ <-]; by eexists _, _, _].
    exfalso. assert (hit r = false) as Hh by (by apply (proj1 (count_zero hit rows) H0)).
    assert (hit r = true); [|congruence]. subst hit. cbv beta. rewrite Hc, andb_true_r.
    by apply at_revision_key.
  - intros session request previous Hres. destruct (Hclaim _ _ _ Hres) as (Hc & _ & _ & ->).
    assert (hit r = true) as Hh
      by (subst hit; cbv beta; rewrite Hc, andb_true_r; by apply at_revision_key).
    assert (claim_row (intent_text d fb) now r ∈ update_where hit (claim_row (intent_text d fb) now) rows) as Hin
      by (apply update_where_elem; exists r; by rewrite Hh).
    split; [done|].
    assert (NoDup (map plan_key (update_where hit (claim_row (intent_text d fb) now) rows))) as Hnd'
      by (by rewrite (update_where_keys plan_key)).
    pose proof (plan_row_unique _ (p_plan r) (p_revision r) _ Hnd' Hin eq_refl) as Hrow'.
    unfold submit_plan_decision. rewrite Hrow'.
    destruct (_ && blank_text fb'); [by split|].
    destruct (parse_plan_decision _); [|by split].
    destruct (_ && negb _); [by split|]. simpl. by split.
Qed.

(** ** Witnesses *)

Definition demo_plan_row : PlanRow :=
  fresh_plan_row (fun c => c) (str "p1") (str "s") (str "ask") 1 (str "plan") (str "do it") true 5.

Definition demo_plan_text : JsonText := {|
  to_string _ := str "{}"; to_string_pretty _ := str "{}"; from_str _ := None |}.

(** Recorded, then claimed for approval. *)
Definition demo_plan_state : plan_state := {|
  ps_rows := (@submit_plan_decision demo_plan_text 6 [demo_plan_row] (str "p1") 1
                (plan_decision_str DApprove) None).1;
  ps_claims := [{| cl_plan := str "p1"; cl_revision := 1; cl_decision := DApprove;
                   cl_feedback := None; cl_previous := AwaitingReview |}] |}.

Lemma demo_plan_reach : star (@plan_step demo_plan_text (fun c => c)) plan_init demo_plan_state.
Proof.
  eapply star_step; [apply (@pl_record demo_plan_text (fun c => c) (str "p1") 5 [] [] (str "s") (str "ask")
    (str "plan") (str "do it")); intros r Hr; by apply not_elem_of_nil in Hr|].
  apply star_one. eapply (@pl_claim demo_plan_text (fun c => c) 6 _ _ _ (str "p1") 1 DApprove None (str "s")
    (str "ask") AwaitingReview). vm_compute. reflexivity.
Qed.

Lemma plan_reviews_safe_witness :
  let r := claim_row (@intent_text demo_plan_text DApprove None) 6 demo_plan_row in
  exists c, c ∈ ps_claims demo_plan_state /\ plan_key r = claim_key c /\
    p_decision r = Some (@intent_text demo_plan_text (cl_decision c) (cl_feedback c)).
Proof.
  cbv zeta.
  apply (proj1 (proj2 (@plan_reviews_safe demo_plan_text (fun c => c) demo_plan_state demo_plan_reach))).
  - assert (ps_rows demo_plan_state = [claim_row (@intent_text demo_plan_text DApprove None) 6 demo_plan_row]) as ->
      by (vm_compute; reflexivity). by left.
  - reflexivity.
Defined.

Lemma submit_gate_witness :
  exists session request previous,
    (@submit_plan_decision demo_plan_text 6 [demo_plan_row] (str "p1") 1 (plan_decision_str DApprove) None).2
    = Ok (Claimed session request previous).
Proof.
  assert (NoDup (map plan_key [demo_plan_row])) as Hnd by apply NoDup_singleton.
  assert (demo_plan_row ∈ [demo_plan_row]) as Hin by (by left).
  pose proof (@submit_gate demo_plan_text 6 7 [demo_plan_row] demo_plan_row DApprove DDefer None None Hnd Hin) as H.
  cbv zeta in H.
  change (p_plan demo_plan_row) with (str "p1") in H. change (p_revision demo_plan_row) with 1%Z in H.
  destruct (@submit_plan_decision demo_plan_text 6 [demo_plan_row] (str "p1") 1
    (plan_decision_str DApprove) None) as [rows' res]. cbn [snd].
  apply (proj2 (proj1 H)). by split.
Defined.
