(* ===== verification/WebAuth.v ===== *)
(** * WebAuth: device pairing, tickets and the /ws gate

    The pairing and device tables of [store.rs], the live-socket registry, the
    ticket, pairing and upgrade handlers of [api.rs], the [device.*] calls of
    [rpc.rs] and the secret references of [config.rs].  SHA-256 and the random
    draws are parameters; times are nanoseconds, database times their text. *)

From S2P Require Import Prelude Str Rows.

(** ** Secrets of the configuration *)

Inductive SecretRef :=
| Env (var : rstr)
| Keychain (service account : rstr)
| Command (cmd : rstr).

Inductive secret_error := InvalidEnv | InvalidKeychain | EmptyCommand | ExpectedPrefix | Unresolved | EmptyValue.

Module Secret.
Definition parse (raw : rstr) : result SecretRef secret_error :=
  match strip_prefix (str "env:") raw with
  | Some var =>
      if is_empty var || existsb (N.eqb 58) var then Err InvalidEnv else Ok (Env var)
  | None =>
      match strip_prefix (str "keychain:") raw with
      | Some rest =>
          match split_once 47%N rest with
          | None => Err InvalidKeychain
          | Some (service, account) =>
              if is_empty service || is_empty account then Err InvalidKeychain
              else Ok (Keychain service account)
          end
      | None =>
          match strip_prefix (str "!") raw with
          | Some cmd => if is_empty (trim cmd) then Err EmptyCommand else Ok (Command cmd)
          | None => Err ExpectedPrefix
          end
      end
  end.

Definition describe (s : SecretRef) : rstr :=
  match s with
  | Env v => str "env:" ++ v
  | Keychain service account => str "keychain:" ++ service ++ str "/" ++ account
  | Command _ => str "!command"
  end.
End Secret.

(** The resolved master token; [resolve] reads the environment, the keychain
    or a command's output.  A value that looks like a reference but does not
    parse fails closed; an empty value is an error. *)
Definition resolve_auth_token (resolve : SecretRef -> option rstr) (raw : option rstr)
  : option (result rstr secret_error) :=
  (fun r =>
    let res :=
      match Secret.parse r with
      | Ok s => ok_or (resolve s) Unresolved
      | Err e =>
          if starts_with (str "env:") r || starts_with (str "keychain:") r || starts_with (str "!") r
          then Err e else Ok r
      end in
    match res with
    | Ok t => if is_empty (trim t) then Err EmptyValue else Ok t
    | Err e => Err e
    end) <$> raw.

(** Bytes as numbers: the differences are or-ed together. *)
Definition constant_time_eq (a b : list N) : bool :=
  if negb (length a =? length b) then false
  else (fold_left (fun diff p => N.lor diff (N.lxor p.1 p.2)) (zip a b) 0 =? 0)%N.

(** ** Devices *)

Record DeviceRow := {
  d_id : rstr; d_name : rstr; d_token_hash : rstr; d_approved : bool;
  d_created : rstr; d_approved_at : option rstr; d_last_seen : option rstr
}.

Record device_store := { ds_key : option rstr; ds_devices : list DeviceRow }.

Definition with_devices (st : device_store) (l : list DeviceRow) : device_store :=
  {| ds_key := ds_key st; ds_devices := l |}.

(** [key] is what [generate_pairing_key] would draw. *)
Definition pairing_key_ensure (key : rstr) (st : device_store) : device_store * rstr :=
  match ds_key st with
  | Some k => (st, k)
  | None => ({| ds_key := Some key; ds_devices := ds_devices st |}, key)
  end.

Definition consume_pairing_key (fresh : rstr) (st : device_store) (key : rstr)
  : device_store * option rstr :=
  if bool_decide (ds_key st = Some (trim key))
  then ({| ds_key := Some fresh; ds_devices := ds_devices st |}, Some fresh)
  else (st, None).

Inductive device_error := KeyTaken.

(** [id] is the fresh uuid; id and token hash are unique columns. *)
Definition create_device (now id : rstr) (st : device_store) (name token_hash : rstr)
  : result device_store device_error :=
  let name := if is_empty (trim name) then str "unnamed device" else trim name in
  if existsb (fun d => str_eqb (d_id d) id || str_eqb (d_token_hash d) token_hash) (ds_devices st)
  then Err KeyTaken
  else Ok (with_devices st (ds_devices st ++
    [{| d_id := id; d_name := name; d_token_hash := token_hash; d_approved := false;
        d_created := now; d_approved_at := None; d_last_seen := None |}])).

Definition approve_row (now : rstr) (d : DeviceRow) : DeviceRow := {|
  d_id := d_id d; d_name := d_name d; d_token_hash := d_token_hash d; d_approved := true;
  d_created := d_created d; d_approved_at := Some now; d_last_seen := d_last_seen d |}.

Definition pending_device (id : rstr) (d : DeviceRow) : bool := str_eqb (d_id d) id && negb (d_approved d).

Definition approve_device (now : rstr) (st : device_store) (id : rstr) : device_store * bool :=
  (with_devices st (update_where (pending_device id) (approve_row now) (ds_devices st)),
   0 <? count (pending_device id) (ds_devices st)).

Definition revoke_device (st : device_store) (id : rstr) : device_store * bool :=
  (with_devices st (List.filter (fun d => negb (str_eqb (d_id d) id)) (ds_devices st)),
   existsb (fun d => str_eqb (d_id d) id) (ds_devices st)).

Definition rename_row (name : rstr) (d : DeviceRow) : DeviceRow := {|
  d_id := d_id d; d_name := name; d_token_hash := d_token_hash d; d_approved := d_approved d;
  d_created := d_created d; d_approved_at := d_approved_at d; d_last_seen := d_last_seen d |}.

Definition rename_device (st : device_store) (id name : rstr) : device_store * bool :=
  if is_empty (trim name) then (st, false)
  else (with_devices st (update_where (fun d => str_eqb (d_id d) id) (rename_row (trim name)) (ds_devices st)),
        existsb (fun d => str_eqb (d_id d) id) (ds_devices st)).

(** [ORDER BY created_at, id] *)
Definition devices (st : device_store) : list DeviceRow :=
  sort_by (fun a b => if str_eqb (d_created a) (d_created b) then str_leb (d_id a) (d_id b)
                      else str_leb (d_created a) (d_created b)) (ds_devices st).

Definition approved_hash (hash : rstr) (d : DeviceRow) : bool :=
  str_eqb (d_token_hash d) hash && d_approved d.

Definition device_token_ok (st : device_store) (hash : rstr) : bool :=
  existsb (approved_hash hash) (ds_devices st).

Definition device_id_by_hash (st : device_store) (hash : rstr) : option rstr :=
  d_id <$> find_first (approved_hash hash) (ds_devices st).

Definition device_status_str (approved : bool) : rstr :=
  if approved then str "approved" else str "pending".

Definition device_pair_status (st : device_store) (id hash : rstr) : option rstr :=
  (fun d => device_status_str (d_approved d)) <$>
  find_first (fun d => str_eqb (d_id d) id && str_eqb (d_token_hash d) hash) (ds_devices st).

Definition touch_row (now : rstr) (d : DeviceRow) : DeviceRow := {|
  d_id := d_id d; d_name := d_name d; d_token_hash := d_token_hash d; d_approved := d_approved d;
  d_created := d_created d; d_approved_at := d_approved_at d; d_last_seen := Some now |}.

(** [ago] is [datetime('now', '-60 seconds')]. *)
Definition touch_device (now ago : rstr) (st : device_store) (hash : rstr) : device_store :=
  with_devices st (update_where
    (fun d => str_eqb (d_token_hash d) hash
              && match d_last_seen d with None => true | Some l => negb (str_leb ago l) end)
    (touch_row now) (ds_devices st)).

(** ** Tickets and sockets *)

Record WsTicket := { tk_issued : Z; tk_device : option rstr }.

Definition WS_TICKET_TTL : Z := 60 * 1000000000.

(** [DeviceConns]: kill handles by device and connection number. *)
Record DeviceConns := { dc_inner : gmap rstr (gset nat); dc_next : nat }.

Module Conns.
Definition register (c : DeviceConns) (device : rstr) : DeviceConns * nat :=
  let id := dc_next c in
  ({| dc_inner := <[device := {[ id ]} ∪ default ∅ (dc_inner c !! device)]> (dc_inner c);
      dc_next := S id |}, id).

Definition unregister (c : DeviceConns) (device : rstr) (id : nat) : DeviceConns :=
  match dc_inner c !! device with
  | None => c
  | Some m =>
      let m' := m ∖ {[ id ]} in
      {| dc_inner := if bool_decide (m' = ∅) then delete device (dc_inner c)
                     else <[device := m']> (dc_inner c);
         dc_next := dc_next c |}
  end.

Definition cut (c : DeviceConns) (device : rstr) : DeviceConns * nat :=
  ({| dc_inner := delete device (dc_inner c); dc_next := dc_next c |},
   match dc_inner c !! device with Some m => size m | None => 0 end).
End Conns.

Record web_state := {
  w_store : device_store;
  w_tickets : gmap rstr WsTicket;
  w_conns : DeviceConns;
  w_now : Z
}.

Definition set_store (w : web_state) (st : device_store) : web_state :=
  {| w_store := st; w_tickets := w_tickets w; w_conns := w_conns w; w_now := w_now w |}.

Definition set_tickets (w : web_state) (t : gmap rstr WsTicket) : web_state :=
  {| w_store := w_store w; w_tickets := t; w_conns := w_conns w; w_now := w_now w |}.

Definition ticket_live (now : Z) (t : WsTicket) : bool := (now - tk_issued t <? WS_TICKET_TTL)%Z.

(** [ticket] is the fresh uuid. *)
Definition issue_ticket (ticket : rstr) (device : option rstr) (w : web_state) : web_state :=
  set_tickets w (<[ticket := {| tk_issued := w_now w; tk_device := device |}]>
    (filter (fun p : rstr * WsTicket => ticket_live (w_now w) p.2 = true) (w_tickets w))).

(** The master credential, as [ws_ticket] and [check_auth] compare it. *)
Definition bearer_ok (utf8 : rstr -> list N) (bearer : option rstr) (expected : rstr) : bool :=
  match bearer with
  | Some got => constant_time_eq (utf8 got) (utf8 expected)
  | None => false
  end.

Definition master_ok (utf8 : rstr -> list N) (auth : option (result rstr secret_error))
  (loopback : bool) (bearer : option rstr) : bool :=
  match auth with
  | Some (Ok t) => bearer_ok utf8 bearer t
  | Some (Err _) => false
  | None => loopback
  end.

Section Handlers.
(** UTF-8 bytes of a string, SHA-256 in hex. *)
Variables (utf8 : rstr -> list N) (hash_device_token : rstr -> rstr).

(** POST /v1/ws_ticket *)
Definition ws_ticket (ticket now ago : rstr) (auth : option (result rstr secret_error))
  (loopback : bool) (bearer device_token : option rstr) (w : web_state) : web_state * bool :=
  if master_ok utf8 auth loopback bearer then (issue_ticket ticket None w, true)
  else
    match device_token with
    | Some token =>
        if is_empty (trim token) then (w, false)
        else
          let hash := hash_device_token (trim token) in
          if device_token_ok (w_store w) hash then
            let w1 := set_store w (touch_device now ago (w_store w) hash) in
            (issue_ticket ticket (device_id_by_hash (w_store w1) hash) w1, true)
          else (w, false)
    | None => (w, false)
    end.

(** The /ws upgrade: [Some device] is the authenticated identity. *)
Definition check_auth (auth : option (result rstr secret_error)) (loopback : bool)
  (bearer ticket : option rstr) (w : web_state) : web_state * option (option rstr) :=
  match auth with
  | Some (Err _) => (w, None)
  | None => if negb loopback then (w, None) else (w, Some None)
  | Some (Ok expected) =>
      if bearer_ok utf8 bearer expected then (w, Some None)
      else match ticket with
      | None => (w, None)
      | Some t =>
          match w_tickets w !! t with
          | None => (w, None)
          | Some record =>
              (set_tickets w (delete t (w_tickets w)),
               if ticket_live (w_now w) record then Some (tk_device record) else None)
          end
      end
  end.

(** The bearer gate of the other routes. *)
Inductive gate := Pass | Unauthorized | ServiceUnavailable.

Definition require_token (auth : option (result rstr secret_error)) (loopback : bool)
  (bearer : option rstr) : gate :=
  match auth with
  | Some (Err _) => ServiceUnavailable
  | None => if negb loopback then ServiceUnavailable else Pass
  | Some (Ok expected) => if bearer_ok utf8 bearer expected then Pass else Unauthorized
  end.

(** POST /v1/pair: the new device and its token, or why not. *)
Inductive pair_result := Paired (id token : rstr) | InvalidKey | RowFailed.

Definition pair (fresh fresh2 now id token : rstr) (w : web_state) (key name : rstr)
  : web_state * pair_result :=
  let '(st1, spent) := consume_pairing_key fresh (w_store w) key in
  match spent with
  | None => (w, InvalidKey)
  | Some _ =>
      match create_device now id st1 name (hash_device_token token) with
      | Ok st2 => (set_store w st2, Paired id token)
      | Err _ => (set_store w (pairing_key_ensure fresh2 st1).1, RowFailed)
      end
  end.

Definition pair_status (w : web_state) (id token : rstr) : rstr :=
  default (str "revoked") (device_pair_status (w_store w) id (hash_device_token (trim token))).

Definition set_conns (w : web_state) (c : DeviceConns) : web_state :=
  {| w_store := w_store w; w_tickets := w_tickets w; w_conns := c; w_now := w_now w |}.

Definition sweep_tickets (w : web_state) (id : rstr) : web_state :=
  set_tickets w (filter (fun p : rstr * WsTicket => tk_device p.2 <> Some id) (w_tickets w)).

(** [device.revoke]: the row goes, its open sockets are cut, its unspent
    tickets are swept. *)
Definition device_revoke (w : web_state) (id : rstr) : web_state * bool * nat :=
  let '(st, revoked) := revoke_device (w_store w) id in
  let w := set_store w st in
  if revoked then
    let '(conns, n) := Conns.cut (w_conns w) id in (sweep_tickets (set_conns w conns) id, true, n)
  else (w, false, 0).
End Handlers.

(** ** The gate as a state machine

    A handler awaits the store or a lock more than once, and others run in
    between: a step is what happens from one wait to the next, and the handlers
    that wait are in flight. *)

Inductive flight :=
| FPaired (token name : rstr)        (* [pair] has spent the key *)
| FChecked (hash : rstr)             (* [ws_ticket] has found the token good *)
| FTouched (hash : rstr)             (* and written the time *)
| FStamped (device : option rstr)    (* and looked the device up *)
| FAccepted (device : option rstr)   (* the upgrade is authenticated *)
| FCut (id : rstr)                   (* [device.revoke] has removed the row *)
| FSweep (id : rstr).                (* and cut the sockets *)

Definition revoking (f : flight) : bool := match f with FCut _ | FSweep _ => true | _ => false end.

(** What a step does that revocation is about. *)
Inductive act := ARevoke (id : rstr) | AAccept (device : option rstr) | AOther.

Section Machine.
Variables (utf8 : rstr -> list N) (hash : rstr -> rstr).

(** Requests may be dropped by their client ([wm_drop]). *)
Inductive web_micro : act -> web_state * list flight -> web_state * list flight -> Prop :=
| wm_key w fl key : web_micro AOther (w, fl) (set_store w (pairing_key_ensure key (w_store w)).1, fl)
| wm_pair w fl fresh key token name st k :
    consume_pairing_key fresh (w_store w) key = (st, Some k) ->
    web_micro AOther (w, fl) (set_store w st, FPaired token name :: fl)
| wm_pair_row w fl1 fl2 token name now id st :
    create_device now id (w_store w) name (hash token) = Ok st ->
    web_micro AOther (w, fl1 ++ FPaired token name :: fl2) (set_store w st, fl1 ++ fl2)
| wm_pair_failed w fl1 fl2 token name fresh :
    web_micro AOther (w, fl1 ++ FPaired token name :: fl2)
      (set_store w (pairing_key_ensure fresh (w_store w)).1, fl1 ++ fl2)
| wm_approve w fl now id : web_micro AOther (w, fl) (set_store w (approve_device now (w_store w) id).1, fl)
| wm_rename w fl id name : web_micro AOther (w, fl) (set_store w (rename_device (w_store w) id name).1, fl)
| wm_master w fl ticket auth loopback bearer :
    master_ok utf8 auth loopback bearer = true -> web_micro AOther (w, fl) (issue_ticket ticket None w, fl)
| wm_check w fl token :
    is_empty (trim token) = false -> device_token_ok (w_store w) (hash (trim token)) = true ->
    web_micro AOther (w, fl) (w, FChecked (hash (trim token)) :: fl)
| wm_touch w fl1 fl2 now ago h :
    web_micro AOther (w, fl1 ++ FChecked h :: fl2)
      (set_store w (touch_device now ago (w_store w) h), fl1 ++ FTouched h :: fl2)
| wm_stamp w fl1 fl2 h :
    web_micro AOther (w, fl1 ++ FTouched h :: fl2) (w, fl1 ++ FStamped (device_id_by_hash (w_store w) h) :: fl2)
| wm_issue w fl1 fl2 ticket d :
    web_micro AOther (w, fl1 ++ FStamped d :: fl2) (issue_ticket ticket d w, fl1 ++ fl2)
| wm_accept w w' fl auth loopback bearer ticket device :
    check_auth utf8 auth loopback bearer ticket w = (w', Some device) ->
    web_micro (AAccept device) (w, fl) (w', FAccepted device :: fl)
| wm_refuse w w' fl auth loopback bearer ticket :
    check_auth utf8 auth loopback bearer ticket w = (w', None) -> web_micro AOther (w, fl) (w', fl)
| wm_register w fl1 fl2 device :
    web_micro AOther (w, fl1 ++ FAccepted device :: fl2)
      (match device with Some d => set_conns w (Conns.register (w_conns w) d).1 | None => w end, fl1 ++ fl2)
| wm_disconnect w fl d id : web_micro AOther (w, fl) (set_conns w (Conns.unregister (w_conns w) d id), fl)
| wm_revoke w fl id st :
    revoke_device (w_store w) id = (st, true) -> web_micro (ARevoke id) (w, fl) (set_store w st, FCut id :: fl)
| wm_cut w fl1 fl2 id :
    web_micro AOther (w, fl1 ++ FCut id :: fl2) (set_conns w (Conns.cut (w_conns w) id).1, fl1 ++ FSweep id :: fl2)
| wm_sweep w fl1 fl2 id : web_micro AOther (w, fl1 ++ FSweep id :: fl2) (sweep_tickets w id, fl1 ++ fl2)
| wm_drop w fl1 fl2 f : revoking f = false -> web_micro AOther (w, fl1 ++ f :: fl2) (w, fl1 ++ fl2)
| wm_tick w fl t : (w_now w <= t)%Z ->
    web_micro AOther (w, fl) ({| w_store := w_store w; w_tickets := w_tickets w; w_conns := w_conns w; w_now := t |}, fl).

Definition web_run (s s' : web_state * list flight) : Prop := exists a, web_micro a s s'.

(** The handler in flight is a request of that device. *)
Definition serves (st : device_store) (id : rstr) (f : flight) : Prop :=
  match f with
  | FChecked h | FTouched h => exists d, d ∈ ds_devices st /\ d_id d = id /\ d_token_hash d = h
  | FStamped (Some i) | FAccepted (Some i) => i = id
  | _ => False
  end.

(** The requests of a device and its revocation do not overlap. *)
Definition calm (a : act) (s : web_state * list flight) : Prop :=
  match a with
  | ARevoke id => forall f, f ∈ s.2 -> ~ serves (w_store s.1) id f
  | AAccept (Some id) => FCut id ∉ s.2 /\ FSweep id ∉ s.2
  | _ => True
  end.

Definition calm_step (s s' : web_state * list flight) : Prop := exists a, web_micro a s s' /\ calm a s.
End Machine.

Definition web_init (t : Z) : web_state := {|
  w_store := {| ds_key := None; ds_devices := [] |}; w_tickets := ∅;
  w_conns := {| dc_inner := ∅; dc_next := 0 |}; w_now := t |}.

(** ** Facts *)

Lemma constant_time_eq_spec a b : constant_time_eq a b = true <-> a = b.
Proof.
  unfold constant_time_eq.
  assert (forall (l : list (N * N)) d, fold_left (fun diff p => N.lor diff (N.lxor p.1 p.2)) l d = 0%N
    <-> d = 0%N /\ Forall (fun p => p.1 = p.2) l) as Hf.
  { induction l as [|[x y] l IH]; intros d; simpl; [split; [by split|tauto]|].
    rewrite (IH (N.lor d (N.lxor x y))). rewrite N.lor_eq_0_iff, N.lxor_eq_0_iff.
    split; [intros [[-> ->] ?]; by repeat constructor|].
    intros [-> Hl]. apply Forall_cons in Hl as [Hp ?]. by simpl in Hp. }
  destruct (Nat.eqb_spec (length a) (length b)) as [Hl|Hl]; cbn [negb].
  - rewrite N.eqb_eq, Hf. split; [|intros ->].
    + intros [_ H]. revert b Hl H. induction a as [|x a IH]; intros [|y b] Hl H; simpl in *; try done.
      apply Forall_cons in H as [Hp H]. simpl in Hp. f_equal; [done|]. apply IH; [lia|done].
    + split; [done|]. clear. induction b; simpl; by constructor.
  - split; [done|]. intros ->. done.
Qed.

Definition approved_id (st : device_store) (id : rstr) : Prop :=
  exists d, d ∈ ds_devices st /\ d_id d = id /\ d_approved d = true.

Lemma update_approved p f (l : list DeviceRow) id :
  (forall d, d_id (f d) = d_id d) -> (forall d, d_approved d = true -> d_approved (f d) = true) ->
  (exists d, d ∈ l /\ d_id d = id /\ d_approved d = true) ->
  exists d, d ∈ update_where p f l /\ d_id d = id /\ d_approved d = true.
Proof.
  intros Hid Ha (d & Hd & Hdi & Hda). exists (if p d then f d else d).
  split; [apply update_where_elem; by exists d|]. destruct (p d); [|done].
  rewrite Hid. split; [done|by apply Ha].
Qed.

Lemma device_id_approved st h id : device_id_by_hash st h = Some id -> approved_id st id.
Proof.
  unfold device_id_by_hash. intros H. apply fmap_Some in H as (d & Hd & ->).
  apply find_first_Some in Hd as [Hd Ha]. unfold approved_hash in Ha. bools. by exists d.
Qed.

Lemma check_auth_shape utf8 auth loopback bearer ticket w w' r :
  check_auth utf8 auth loopback bearer ticket w = (w', r) ->
  w_store w' = w_store w /\ w_conns w' = w_conns w /\
  (forall t x, w_tickets w' !! t = Some x -> w_tickets w !! t = Some x) /\
  (forall d, r = Some (Some d) -> exists t x, w_tickets w !! t = Some x /\ tk_device x = Some d).
Proof.
  unfold check_auth. destruct auth as [[expected|e]|].
  - destruct (bearer_ok utf8 bearer expected); [intros [= <- <-]; by auto|].
    destruct ticket as [t|]; [|intros [= <- <-]; by auto].
    destruct (w_tickets w !! t) as [x|] eqn:E; [|intros [= <- <-]; by auto].
    intros [= <- <-]. split; [done|]. split; [done|]. split.
    + intros t' y H. simpl in H. by apply lookup_delete_Some in H as [_ H].
    + intros d H. exists t, x. split; [done|]. destruct (ticket_live _ x); [|done]. by injection H.
  - intros [= <- <-]; by auto.
  - destruct loopback; intros [= <- <-]; by auto.
Qed.

(** ** The handlers, undisturbed, are runs of these steps *)

Lemma set_store_id w : set_store w (w_store w) = w.
Proof. by destruct w. Qed.

Lemma web_run_one (utf8 : rstr -> list N) (hash : rstr -> rstr) a s t u :
  web_micro utf8 hash a s t -> star (web_run utf8 hash) t u -> star (web_run utf8 hash) s u.
Proof. intros H. apply star_step. by exists a. Qed.

Lemma device_revoke_run utf8 hash w fl id : star (web_run utf8 hash) (w, fl) ((device_revoke w id).1.1, fl).
Proof.
  unfold device_revoke. destruct (revoke_device (w_store w) id) as [st [|]] eqn:E.
  - eapply web_run_one; [by apply wm_revoke|]. eapply web_run_one; [apply (wm_cut utf8 hash _ [] fl)|].
    eapply web_run_one; [apply (wm_sweep utf8 hash _ [] fl)|]. apply star_refl.
  - assert (st = w_store w) as ->; [|cbn [fst]; rewrite set_store_id; apply star_refl].
    unfold revoke_device in E. injection E as <- E. destruct w as [[k l] tk cn nw]. unfold with_devices. simpl in *.
    f_equal. induction l as [|d l IH]; [done|]. simpl in *. apply orb_false_iff in E as [-> E]. simpl. by rewrite IH.
Qed.

Lemma ws_ticket_run utf8 hash ticket now ago auth loopback bearer token w fl :
  star (web_run utf8 hash) (w, fl) ((ws_ticket utf8 hash ticket now ago auth loopback bearer token w).1, fl).
Proof.
  unfold ws_ticket. destruct (master_ok utf8 auth loopback bearer) eqn:Em.
  { eapply web_run_one; [by eapply wm_master|apply star_refl]. }
  destruct token as [token|]; [|apply star_refl]. destruct (is_empty (trim token)) eqn:Et; [apply star_refl|].
  destruct (device_token_ok _ _) eqn:Eo; [|apply star_refl].
  eapply web_run_one; [by eapply (wm_check utf8 hash w fl token)|].
  eapply web_run_one; [apply (wm_touch utf8 hash _ [] fl now ago)|].
  eapply web_run_one; [apply (wm_stamp utf8 hash _ [] fl)|].
  eapply web_run_one; [apply (wm_issue utf8 hash _ [] fl ticket)|]. apply star_refl.
Qed.

Lemma pair_run utf8 hash fresh fresh2 now id token w key name fl :
  star (web_run utf8 hash) (w, fl) ((pair hash fresh fresh2 now id token w key name).1, fl).
Proof.
  unfold pair. destruct (consume_pairing_key fresh (w_store w) key) as [st1 [k|]] eqn:E; [|apply star_refl].
  eapply web_run_one; [by eapply (wm_pair utf8 hash w fl fresh key token name)|].
  destruct (create_device now id st1 name (hash token)) as [st2|] eqn:Ec.
  - eapply web_run_one; [by eapply (wm_pair_row utf8 hash (set_store w st1) [] fl token name now id)|apply star_refl].
  - eapply web_run_one; [apply (wm_pair_failed utf8 hash (set_store w st1) [] fl token name fresh2)|apply star_refl].
Qed.

Definition unique_keys (l : list DeviceRow) : Prop := NoDup (map d_id l) /\ NoDup (map d_token_hash l).

(** What a store must keep for those who are approved. *)
Definition keeps_approved (st st' : device_store) : Prop :=
  (forall id, approved_id st id -> approved_id st' id) /\
  (forall h, device_token_ok st h = true -> device_token_ok st' h = true).

Lemma device_token_ok_spec st h :
  device_token_ok st h = true <-> exists d, d ∈ ds_devices st /\ d_token_hash d = h /\ d_approved d = true.
Proof.
  unfold device_token_ok, approved_hash. rewrite existsb_elem. split; intros (d & Hd & H); exists d; (split; [done|]).
  - bools. split; [by apply str_eqb_eq|done].
  - destruct H as [-> ->]. by rewrite str_eqb_refl.
Qed.

Lemma update_keeps st p f :
  (forall d, d_id (f d) = d_id d) -> (forall d, d_token_hash (f d) = d_token_hash d) ->
  (forall d, d_approved d = true -> d_approved (f d) = true) ->
  let st' := with_devices st (update_where p f (ds_devices st)) in
  keeps_approved st st' /\ (unique_keys (ds_devices st) -> unique_keys (ds_devices st')).
Proof.
  intros Hid Hh Ha. split; [split|].
  - intros id. by apply update_approved.
  - intros h. rewrite !device_token_ok_spec. intros (d & Hd & Hdh & Hda). exists (if p d then f d else d).
    split; [apply update_where_elem; by exists d|]. destruct (p d); [|done]. rewrite Hh. auto.
  - intros [H1 H2]. split; simpl; [by rewrite (update_where_keys d_id)|by rewrite (update_where_keys d_token_hash)].
Qed.

Lemma create_keeps now id st name h st' :
  create_device now id st name h = Ok st' ->
  keeps_approved st st' /\ (unique_keys (ds_devices st) -> unique_keys (ds_devices st')).
Proof.
  unfold create_device. destruct (existsb _ _) eqn:E; [done|]. intros [= <-].
  assert (forall d, d ∈ ds_devices st -> d_id d <> id /\ d_token_hash d <> h) as Hno.
  { intros d Hd. apply existsb_elem_false with (a := d) in E; [|done]. cbv beta in E. bools.
    split; by apply str_eqb_neq. }
  split; [split|].
  - intros i (d & Hd & ?). exists d. split; [apply elem_of_app; by left|done].
  - intros h'. rewrite !device_token_ok_spec. intros (d & Hd & ?). exists d. split; [apply elem_of_app; by left|done].
  - intros [H1 H2]. unfold unique_keys. simpl. rewrite !map_app. split; apply NoDup_app;
      (split; [done|]; split; [|apply NoDup_singleton]; intros x Hx Hx'; apply list_elem_of_singleton in Hx' as ->;
       apply list_elem_of_In, in_map_iff in Hx as (d & Hd & Hin); apply list_elem_of_In, Hno in Hin; naive_solver).
Qed.

(** ** Runs in which requests and revocations of a device do not overlap *)

Definition flight_ok (st : device_store) (f : flight) : Prop :=
  match f with
  | FChecked h | FTouched h => device_token_ok st h = true
  | FStamped device => exists id, device = Some id /\ approved_id st id
  | FAccepted (Some id) => approved_id st id
  | _ => True
  end.

(** A ticket or a socket is of an approved device, or is about to go. *)
Record calm_inv (s : web_state * list flight) : Prop := {
  ci_keys : unique_keys (ds_devices (w_store s.1));
  ci_flight : forall f, f ∈ s.2 -> flight_ok (w_store s.1) f;
  ci_tickets : forall t r d, w_tickets s.1 !! t = Some r -> tk_device r = Some d ->
    approved_id (w_store s.1) d \/ FCut d ∈ s.2 \/ FSweep d ∈ s.2;
  ci_conns : forall d m, dc_inner (w_conns s.1) !! d = Some m -> approved_id (w_store s.1) d \/ FCut d ∈ s.2
}.

Lemma flight_ok_keeps st st' f : keeps_approved st st' -> flight_ok st f -> flight_ok st' f.
Proof.
  intros [Ha Hh]. destruct f as [| | |device|[id|]| |]; simpl; auto. intros (id & -> & H). exists id. auto.
Qed.

Lemma unique_hash (l : list DeviceRow) a b :
  NoDup (map d_token_hash l) -> a ∈ l -> b ∈ l -> d_token_hash a = d_token_hash b -> a = b.
Proof.
  intros Hnd [i Hi]%list_elem_of_lookup [j Hj]%list_elem_of_lookup Heq.
  assert (i = j) as ->; [|congruence]. eapply (NoDup_lookup (d_token_hash <$> l)); [done|by rewrite list_lookup_fmap, Hi|].
  rewrite list_lookup_fmap, Hj. simpl. by rewrite Heq.
Qed.

(** The look-up after the check finds the device. *)
Lemma stamp_ok st h : device_token_ok st h = true -> flight_ok st (FStamped (device_id_by_hash st h)).
Proof.
  intros H. destruct (device_id_by_hash st h) as [id|] eqn:E; [exists id; split; [done|by eapply device_id_approved]|].
  exfalso. unfold device_id_by_hash in E. destruct (find_first _ _) eqn:Ef; [done|].
  unfold device_token_ok in H. apply existsb_elem in H as (d & Hd & Ha).
  by rewrite (find_first_None _ _ Ef d Hd) in Ha.
Qed.

(** Handlers come and go, the devices, tickets and sockets only get more
    approved and fewer. *)
Lemma calm_frame w fl w' fl' :
  calm_inv (w, fl) -> keeps_approved (w_store w) (w_store w') -> unique_keys (ds_devices (w_store w')) ->
  (forall f, f ∈ fl' -> f ∈ fl \/ flight_ok (w_store w') f) ->
  (forall id, FCut id ∈ fl -> FCut id ∈ fl') -> (forall id, FSweep id ∈ fl -> FSweep id ∈ fl') ->
  (forall t r d, w_tickets w' !! t = Some r -> tk_device r = Some d ->
     (exists t', w_tickets w !! t' = Some r) \/ approved_id (w_store w') d) ->
  (forall d m, dc_inner (w_conns w') !! d = Some m ->
     is_Some (dc_inner (w_conns w) !! d) \/ approved_id (w_store w') d) ->
  calm_inv (w', fl').
Proof.
  intros [Hk Hf Ht Hc] Hkeep Huniq Hfl Hcut Hsweep Htk Hcn. simpl in *. split; simpl; [done|..].
  - intros f Hin. destruct (Hfl f Hin) as [H|]; [|done]. eapply flight_ok_keeps; [exact Hkeep|]. by apply Hf.
  - intros t r d Hr Hd. destruct (Htk t r d Hr Hd) as [[t' Hr']|]; [|by left].
    destruct (Ht t' r d Hr' Hd) as [H|[H|H]]; [left; by apply Hkeep|right; left; auto|right; right; auto].
  - intros d m Hm. destruct (Hcn d m Hm) as [[m' Hm']|]; [|by left].
    destruct (Hc d m' Hm') as [H|H]; [left; by apply Hkeep|right; auto].
Qed.

Lemma keeps_refl st : keeps_approved st st.
Proof. by split. Qed.

(** Only the store changes. *)
Lemma calm_store w fl fl' st :
  calm_inv (w, fl) -> keeps_approved (w_store w) st -> (unique_keys (ds_devices (w_store w)) -> unique_keys (ds_devices st)) ->
  (forall f, f ∈ fl' -> f ∈ fl \/ flight_ok st f) ->
  (forall id, FCut id ∈ fl -> FCut id ∈ fl') -> (forall id, FSweep id ∈ fl -> FSweep id ∈ fl') ->
  calm_inv (set_store w st, fl').
Proof.
  intros Hi Hk Hu Hf Hc Hs. eapply calm_frame; try done.
  - apply Hu, (ci_keys _ Hi).
  - intros t r d Hr _. left. by exists t.
  - intros d m Hm. left. by exists m.
Qed.

Lemma ensure_keeps key st :
  keeps_approved st (pairing_key_ensure key st).1 /\
  (unique_keys (ds_devices st) -> unique_keys (ds_devices (pairing_key_ensure key st).1)).
Proof. unfold pairing_key_ensure. destruct st as [[k|] l]; by split. Qed.

Lemma issue_calm w fl fl' ticket device :
  calm_inv (w, fl) -> (forall id, device = Some id -> approved_id (w_store w) id) ->
  (forall f, f ∈ fl' -> f ∈ fl) -> (forall f, revoking f = true -> f ∈ fl -> f ∈ fl') ->
  calm_inv (issue_ticket ticket device w, fl').
Proof.
  intros Hi Hd Hsub Hrev. eapply calm_frame; try done; simpl; auto.
  - apply (ci_keys _ Hi).
  - intros t r d Hr Hrd. destruct (decide (t = ticket)) as [->|Hne].
    + rewrite lookup_insert_eq in Hr. injection Hr as <-. right. by apply Hd.
    + rewrite lookup_insert_ne in Hr by done. apply map_lookup_filter_Some in Hr as [Hr _]. left. by exists t.
Qed.

Lemma revoke_row_store st id st' :
  revoke_device st id = (st', true) ->
  (forall d, d ∈ ds_devices st' <-> d ∈ ds_devices st /\ d_id d <> id) /\
  (unique_keys (ds_devices st) -> unique_keys (ds_devices st')).
Proof.
  intros [= <- _]. simpl. split.
  - intros d. rewrite !list_elem_of_In, filter_In, negb_true_iff, str_eqb_neq. done.
  - assert (forall k : DeviceRow -> rstr, NoDup (map k (ds_devices st)) ->
      NoDup (map k (List.filter (fun d => negb (str_eqb (d_id d) id)) (ds_devices st)))) as Hnd.
    { intros k. generalize (ds_devices st). intros l. induction l as [|d ds IH]; simpl; [done|].
      intros H. apply NoDup_cons in H as [Hni Hd]. destruct (negb _); simpl; [|by apply IH].
      constructor; [|by apply IH]. intros Hin. apply Hni.
      apply list_elem_of_In, in_map_iff in Hin as (x & <- & Hx). apply filter_In in Hx as [Hx _].
      by apply list_elem_of_In, in_map. }
    intros [H1 H2]. split; by apply Hnd.
Qed.

(** A revocation that meets no request of the device. *)
Lemma revoke_calm w fl id st :
  calm_inv (w, fl) -> (forall f, f ∈ fl -> ~ serves (w_store w) id f) -> revoke_device (w_store w) id = (st, true) ->
  calm_inv (set_store w st, FCut id :: fl).
Proof.
  intros [Hk Hf Ht Hc] Hno Hst. destruct (revoke_row_store _ _ _ Hst) as [Hrows Hu]. simpl in *.
  assert (forall d, approved_id (w_store w) d -> d <> id -> approved_id st d) as Hkeep.
  { intros d (x & Hx & <- & Ha) Hne. exists x. split; [by apply Hrows|done]. }
  split; simpl; [by apply Hu|..].
  - intros f [->|Hin]%elem_of_cons; [done|]. specialize (Hf f Hin). specialize (Hno f Hin).
    assert (forall h, device_token_ok (w_store w) h = true ->
      ~ (exists d, d ∈ ds_devices (w_store w) /\ d_id d = id /\ d_token_hash d = h) ->
      device_token_ok st h = true) as Htok.
    { intros h. rewrite !device_token_ok_spec. intros (d & Hd & Hh & Ha) Hn. exists d.
      split; [|done]. apply Hrows. split; [done|]. intros Hi. apply Hn. by exists d. }
    destruct f as [|h|h|device|[i|]|i|i]; simpl in *; auto. destruct Hf as (i & -> & Hi). exists i. auto.
  - intros t r d Hr Hd. destruct (decide (d = id)) as [->|Hne]; [right; left; by left|].
    destruct (Ht t r d Hr Hd) as [H|[H|H]]; [left; auto|right; left; by right|right; right; by right].
  - intros d m Hm. destruct (decide (d = id)) as [->|Hne]; [right; by left|].
    destruct (Hc d m Hm) as [H|H]; [left; auto|right; by right].
Qed.

Lemma cut_calm w fl1 fl2 id :
  calm_inv (w, fl1 ++ FCut id :: fl2) -> calm_inv (set_conns w (Conns.cut (w_conns w) id).1, fl1 ++ FSweep id :: fl2).
Proof.
  intros [Hk Hf Ht Hc]. simpl in *. split; simpl; [done|..].
  - intros f Hin. assert (f = FSweep id \/ f ∈ fl1 ++ FCut id :: fl2) as [->|H] by set_solver; [done|by apply Hf].
  - intros t r d Hr Hd. destruct (Ht t r d Hr Hd) as [H|H]; [by left|right]. set_solver.
  - intros d m Hm. apply lookup_delete_Some in Hm as [Hne Hm]. destruct (Hc d m Hm) as [H|H]; [by left|right]. set_solver.
Qed.

Lemma sweep_calm w fl1 fl2 id :
  calm_inv (w, fl1 ++ FSweep id :: fl2) -> calm_inv (sweep_tickets w id, fl1 ++ fl2).
Proof.
  intros [Hk Hf Ht Hc]. simpl in *. split; simpl; [done|..].
  - intros f Hin. apply Hf. set_solver.
  - intros t r d Hr Hd. apply map_lookup_filter_Some in Hr as [Hr Hne]. simpl in Hne.
    destruct (Ht t r d Hr Hd) as [H|H]; [by left|right]. assert (d <> id) by congruence. set_solver.
  - intros d m Hm. destruct (Hc d m Hm) as [H|H]; [by left|right]. set_solver.
Qed.

Lemma accept_calm utf8 w w' fl auth loopback bearer ticket device :
  calm_inv (w, fl) -> calm (AAccept device) (w, fl) -> check_auth utf8 auth loopback bearer ticket w = (w', Some device) ->
  calm_inv (w', FAccepted device :: fl).
Proof.
  intros Hi Hcalm Hck. apply check_auth_shape in Hck as (H1 & H2 & H3 & H4).
  eapply calm_frame; [exact Hi|rewrite H1; apply keeps_refl|rewrite H1; apply (ci_keys _ Hi)|..]; rewrite ?H1, ?H2.
  - intros f [->|Hin]%elem_of_cons; [right|by left]. destruct device as [d|]; [|done].
    destruct (H4 d eq_refl) as (t & x & Hx & Hd). simpl in Hcalm. destruct Hcalm as [Hn1 Hn2].
    destruct (ci_tickets _ Hi t x d Hx Hd) as [H|[H|H]]; [exact H|done|done].
  - intros id H. by right.
  - intros id H. by right.
  - intros t r d Hr _. left. exists t. by apply H3.
  - intros d m Hm. left. by exists m.
Qed.

Lemma unregister_sub c d id d' m :
  dc_inner (Conns.unregister c d id) !! d' = Some m -> is_Some (dc_inner c !! d').
Proof.
  unfold Conns.unregister. destruct (dc_inner c !! d) as [m0|] eqn:E; [|by eexists]. simpl. case_bool_decide.
  - intros [_ Hm]%lookup_delete_Some. by eexists.
  - destruct (decide (d' = d)) as [->|Hne]; [by rewrite E|]. rewrite lookup_insert_ne by done. by eexists.
Qed.

Lemma calm_step_inv utf8 hash s s' : calm_step utf8 hash s s' -> calm_inv s -> calm_inv s'.
Proof.
  intros (a & Hs & Hcalm) Hi.
  assert (forall f x (l1 l2 : list flight), f ∈ l1 ++ l2 -> f ∈ l1 ++ x :: l2) as Hmid by set_solver.
  destruct Hs as [w fl key|w fl fresh key token name st k Hst|w fl1 fl2 token name now id st Hst|w fl1 fl2 token name fresh
    |w fl now id|w fl id name|w fl ticket auth loopback bearer Hok|w fl token Hne Hok|w fl1 fl2 now ago h|w fl1 fl2 h
    |w fl1 fl2 ticket d|w w' fl auth loopback bearer ticket device Hck|w w' fl auth loopback bearer ticket Hck
    |w fl1 fl2 device|w fl d id|w fl id st Hst|w fl1 fl2 id|w fl1 fl2 id|w fl1 fl2 f Hf|w fl t Hle].
  - destruct (ensure_keeps key (w_store w)). by eapply calm_store; eauto.
  - unfold consume_pairing_key in Hst. case_bool_decide; [|done]. injection Hst as <- _.
    eapply calm_store; [exact Hi|by split|done|set_solver..].
  - destruct (create_keeps _ _ _ _ _ _ Hst). eapply calm_store; [exact Hi|done|done|set_solver..].
  - destruct (ensure_keeps fresh (w_store w)). eapply calm_store; [exact Hi|done|done|set_solver..].
  - destruct (update_keeps (w_store w) (pending_device id) (approve_row now)); [done..|].
    eapply calm_store; eauto.
  - unfold rename_device. destruct (is_empty _).
    + eapply calm_store; [exact Hi|apply keeps_refl|done|auto..].
    + destruct (update_keeps (w_store w) (fun d => str_eqb (d_id d) id) (rename_row (trim name))); [done..|].
      eapply calm_store; eauto.
  - by eapply issue_calm.
  - eapply calm_frame; [exact Hi|apply keeps_refl|apply (ci_keys _ Hi)|..].
    + intros f [->|H]%elem_of_cons; auto.
    + intros i H. by right.
    + intros i H. by right.
    + intros t r d Hr _. left. by exists t.
    + intros d m Hm. left. by exists m.
  - destruct (update_keeps (w_store w) (fun d => str_eqb (d_token_hash d) h
              && match d_last_seen d with None => true | Some l => negb (str_leb ago l) end) (touch_row now)) as [Hk Hu]; [done..|].
    eapply calm_store; [exact Hi|exact Hk|exact Hu| |set_solver..].
    intros f Hin. assert (f = FTouched h \/ f ∈ fl1 ++ FChecked h :: fl2) as [->|H] by set_solver; [right|by left].
    apply Hk, (ci_flight _ Hi (FChecked h)). set_solver.
  - eapply calm_frame; [exact Hi|apply keeps_refl|apply (ci_keys _ Hi)|..].
    + intros f Hin. assert (f = FStamped (device_id_by_hash (w_store w) h) \/ f ∈ fl1 ++ FTouched h :: fl2) as [->|H]
        by set_solver; [right|by left]. apply stamp_ok, (ci_flight _ Hi (FTouched h)). set_solver.
    + set_solver.
    + set_solver.
    + intros t r d Hr _. left. by exists t.
    + intros d m Hm. left. by exists m.
  - eapply issue_calm; [exact Hi| |set_solver|].
    + intros id ->. destruct (ci_flight _ Hi (FStamped (Some id))) as (i & [= <-] & H); [set_solver|exact H].
    + intros f Hr Hin. assert (f <> FStamped d) by (intros ->; discriminate Hr). set_solver.
  - by eapply accept_calm.
  - apply check_auth_shape in Hck as (H1 & H2 & H3 & _).
    eapply calm_frame; [exact Hi|rewrite H1; apply keeps_refl|rewrite H1; apply (ci_keys _ Hi)|..]; rewrite ?H1, ?H2.
    + by left.
    + done.
    + done.
    + intros t r d Hr _. left. exists t. by apply H3.
    + intros d m Hm. left. by exists m.
  - assert (forall w', w_store w' = w_store w -> w_tickets w' = w_tickets w ->
      (forall d m, dc_inner (w_conns w') !! d = Some m -> is_Some (dc_inner (w_conns w) !! d) \/ approved_id (w_store w) d) ->
      calm_inv (w', fl1 ++ fl2)) as Hone.
    { intros w' H1 H2 H3. eapply calm_frame; [exact Hi|rewrite H1; apply keeps_refl|rewrite H1; apply (ci_keys _ Hi)|..];
        rewrite ?H1, ?H2; [set_solver..| |exact H3]. intros t r d Hr _. left. by exists t. }
    destruct device as [d|]; apply Hone; try done.
    + intros d' m Hm. simpl in Hm. destruct (decide (d' = d)) as [->|Hne].
      * right. apply (ci_flight _ Hi (FAccepted (Some d))). set_solver.
      * rewrite lookup_insert_ne in Hm by done. left. by exists m.
    + intros d m Hm. left. by exists m.
  - eapply calm_frame; [exact Hi|apply keeps_refl|apply (ci_keys _ Hi)|..].
    + by left.
    + done.
    + done.
    + intros t r d' Hr _. left. by exists t.
    + intros d' m Hm. left. exact (unregister_sub _ _ _ _ _ Hm).
  - by apply revoke_calm.
  - by apply cut_calm.
  - by apply sweep_calm.
  - eapply calm_frame; [exact Hi|apply keeps_refl|apply (ci_keys _ Hi)|..].
    + intros g Hg. left. by apply Hmid.
    + intros i Hin. assert (FCut i <> f) by (intros <-; discriminate Hf). set_solver.
    + intros i Hin. assert (FSweep i <> f) by (intros <-; discriminate Hf). set_solver.
    + intros t r d Hr _. left. by exists t.
    + intros d m Hm. left. by exists m.
  - eapply calm_frame; [exact Hi|apply keeps_refl|apply (ci_keys _ Hi)|..].
    + by left.
    + done.
    + done.
    + intros t' r d Hr _. left. by exists t'.
    + intros d m Hm. left. by exists m.
Qed.

Lemma web_init_calm t : calm_inv (web_init t, []).
Proof.
  split; simpl; [by split; constructor|..].
  - intros f H. by apply not_elem_of_nil in H.
  - intros ? ? ? H. by rewrite lookup_empty in H.
  - intros ? ? H. by rewrite lookup_empty in H.
Qed.

(** ** Properties *)


(** A device is paired, approved and connected, with one more ticket unspent;
    then it is revoked. *)
Local Tactic Notation "take" uconstr(c) := eapply star_step; [exists AOther; split; [eapply c; try (vm_compute; reflexivity)|exact I]|].

Definition wid (s : rstr) : rstr := s.


(** C37: the /ws gate fails closed: with the master secret unresolvable, or no
    secret on a public bind, nothing gets in; with a secret, an upgrade is
    accepted only for the exact bearer token or an unexpired ticket of the
    table, whose stamp becomes the identity; and when no bearer token matched,
    a presented ticket is spent, valid or not, so it never authenticates twice. *)
Theorem ws_gate_fails_closed (utf8 : rstr -> list N) (auth : option (result rstr secret_error))
  (loopback : bool) (bearer ticket : option rstr) (w : web_state) :
  let '(w', who) := check_auth utf8 auth loopback bearer ticket w in
  match auth with
  | Some (Err _) => who = None
  | None => who = if loopback then Some None else None
  | Some (Ok secret) =>
      let by_bearer := exists got, bearer = Some got /\ utf8 got = utf8 secret in
      (forall d, who = Some d ->
         (by_bearer /\ d = None) \/
         (exists t r, ticket = Some t /\ w_tickets w !! t = Some r /\
            (w_now w - tk_issued r < WS_TICKET_TTL)%Z /\ d = tk_device r)) /\
      (by_bearer -> who = Some None) /\
      (~ by_bearer -> forall t, ticket = Some t ->
         w_tickets w' !! t = None /\ (check_auth utf8 auth loopback bearer ticket w').2 = None)
  end.
Proof.
  destruct (check_auth utf8 auth loopback bearer ticket w) as [w' who] eqn:E. revert E.
  unfold check_auth. destruct auth as [[secret|e]|]; [|by intros [= <- <-]|by destruct loopback; intros [= <- <-]].
  assert (bearer_ok utf8 bearer secret = true <-> exists got, bearer = Some got /\ utf8 got = utf8 secret) as Hb.
  { unfold bearer_ok. destruct bearer as [got|]; [|by split; [|intros (? & ? & _)]].
    rewrite constant_time_eq_spec. split; [by exists got|]. by intros (g & [= ->] & ?). }
  destruct (bearer_ok utf8 bearer secret).
  - intros [= <- <-]. split; [|split].
    + intros d [= <-]. left. split; [by apply Hb|done].
    + done.
    + intros Hn. destruct Hn. by apply Hb.
  - assert (~ exists got, bearer = Some got /\ utf8 got = utf8 secret) as Hnb
      by (intros H; by apply Hb in H).
    destruct ticket as [t|]; [|intros [= <- <-]; by split; [|split]].
    destruct (w_tickets w !! t) as [r|] eqn:Er.
    + intros [= <- <-]. split; [|split; [done|]].
      * intros d Hd. right. exists t, r. unfold ticket_live in Hd.
        destruct (Z.ltb_spec (w_now w - tk_issued r) WS_TICKET_TTL); [|done]. by injection Hd as <-.
      * intros _ t' [= <-]. simpl. rewrite lookup_delete_eq. by split.
    + intros [= <- <-]. split; [done|]. split; [done|]. intros _ t' [= <-]. by rewrite Er.
Qed.

(** A pairing key opens exactly one pairing: the first pair request with
    the current key creates one pending device and rotates the key, so every
    later request with that key is refused and changes nothing, until the
    daemon draws the same key again. *)
Theorem pairing_key_single_use (hash : rstr -> rstr) (fresh fresh2 now id token key name : rstr)
  (fresh' fresh2' now' id' token' name' : rstr) (w : web_state) :
  ds_key (w_store w) = Some (trim key) -> fresh <> trim key ->
  (forall d, d ∈ ds_devices (w_store w) -> d_id d <> id /\ d_token_hash d <> hash token) ->
  let '(w1, r1) := pair hash fresh fresh2 now id token w key name in
  r1 = Paired id token /\
  (exists d, ds_devices (w_store w1) = ds_devices (w_store w) ++ [d] /\
     d_id d = id /\ d_token_hash d = hash token /\ d_approved d = false) /\
  pair hash fresh' fresh2' now' id' token' w1 key name' = (w1, InvalidKey).
Proof.
  intros Hk Hne Hfree. unfold pair, consume_pairing_key.
  rewrite bool_decide_eq_true_2 by done. unfold create_device. cbn [ds_devices].
  assert (existsb (fun d => str_eqb (d_id d) id || str_eqb (d_token_hash d) (hash token))
    (ds_devices (w_store w)) = false) as ->.
  { apply existsb_elem_false. intros d Hd. destruct (Hfree d Hd) as [H1 H2].
    apply str_eqb_neq in H1, H2. by rewrite H1, H2. }
  split; [done|]. split; [by eexists|].
  cbn [w_store set_store with_devices ds_key].
  rewrite bool_decide_eq_false_2; [done|]. congruence.
Qed.

Lemma pairing_key_single_use_witness :
  let w := set_store (web_init 0) {| ds_key := Some (str "KEY"); ds_devices := [] |} in
  let w1 := (pair (fun s => s) (str "NEW") (str "N2") (str "now") (str "d") (str "tok") w (str "KEY") (str "me")).1 in
  pair (fun s => s) (str "X") (str "Y") (str "now") (str "d2") (str "tok2") w1 (str "KEY") (str "me") = (w1, InvalidKey).
Proof.
  intros w w1.
  assert (str "NEW" <> trim (str "KEY")) as Hne by (apply (bool_decide_unpack _); vm_compute; exact I).
  assert (forall d, d ∈ ds_devices (w_store w) -> d_id d <> str "d" /\ d_token_hash d <> str "tok") as Hf
    by (intros d Hd; by apply not_elem_of_nil in Hd).
  assert (ds_key (w_store w) = Some (trim (str "KEY"))) as Hk by (vm_compute; reflexivity).
  pose proof (pairing_key_single_use (fun s => s) (str "NEW") (str "N2") (str "now") (str "d") (str "tok")
    (str "KEY") (str "me") (str "X") (str "Y") (str "now") (str "d2") (str "tok2") (str "me") w Hk Hne Hf) as H.
  subst w1. destruct (pair _ _ _ _ _ _ w _ _) as [w2 r2]. apply H.
Defined.

(** ** Where revocation is late *)

Definition race_device : DeviceRow := {|
  d_id := str "d"; d_name := str "phone"; d_token_hash := str "tok"; d_approved := true;
  d_created := str "t"; d_approved_at := Some (str "t"); d_last_seen := None |}.

Definition race_start : web_state :=
  set_store (web_init 0) {| ds_key := None; ds_devices := [race_device] |}.

Definition race_run := web_run wid wid.

Local Tactic Notation "race" uconstr(c) := eapply star_step; [eexists; eapply c; try (vm_compute; reflexivity)|].

(** The ticket request looks the token up twice; a revocation between the
    two look-ups leaves the second without a device, and the ticket is minted
    unstamped: the revoked device gets in as if it held the master token, and
    no later revocation can cut it. *)
Theorem revoke_race_mints_unstamped_ticket :
  exists w, star race_run (race_start, []) (w, []) /\ ds_devices (w_store w) = [] /\
    forall secret, (check_auth wid (Some (Ok secret)) false None (Some (str "T")) w).2 = Some None.
Proof.
  eexists. split.
  - race (wm_check wid wid _ [] (str "tok")). race (wm_revoke wid wid _ [FChecked (str "tok")] (str "d")).
    race (wm_cut wid wid _ [] [FChecked (str "tok")] (str "d")). race (wm_sweep wid wid _ [] [FChecked (str "tok")] (str "d")).
    race (wm_touch wid wid _ [] [] (str "t") (str "t")). race (wm_stamp wid wid _ [] []).
    race (wm_issue wid wid _ [] [] (str "T")). apply star_refl.
  - split; [vm_compute; reflexivity|]. intros secret. vm_compute. reflexivity.
Qed.

(** Where it has already looked the device up, the ticket inserted after the
    sweep is stamped for the revoked device, and opens the gate. *)
Theorem revoked_ticket_still_opens :
  exists w, star race_run (race_start, []) (w, []) /\ ds_devices (w_store w) = [] /\
    forall secret, (check_auth wid (Some (Ok secret)) false None (Some (str "T")) w).2 = Some (Some (str "d")).
Proof.
  eexists. split.
  - race (wm_check wid wid _ [] (str "tok")). race (wm_touch wid wid _ [] [] (str "t") (str "t")).
    race (wm_stamp wid wid _ [] []).
    race (wm_revoke wid wid _ [FStamped (Some (str "d"))] (str "d")).
    race (wm_cut wid wid _ [] [FStamped (Some (str "d"))] (str "d")).
    race (wm_sweep wid wid _ [] [FStamped (Some (str "d"))] (str "d")).
    race (wm_issue wid wid _ [] [] (str "T")). apply star_refl.
  - split; [vm_compute; reflexivity|]. intros secret. vm_compute. reflexivity.
Qed.

(** An upgrade that is authenticated before the revocation and registers after
    it keeps its socket. *)
Theorem revoked_socket_stays :
  exists w, star race_run (race_start, []) (w, []) /\ ds_devices (w_store w) = [] /\
    dc_inner (w_conns w) !! str "d" = Some {[ 0 ]}.
Proof.
  eexists. split.
  - race (wm_check wid wid _ [] (str "tok")). race (wm_touch wid wid _ [] [] (str "t") (str "t")).
    race (wm_stamp wid wid _ [] []). race (wm_issue wid wid _ [] [] (str "T")).
    race (wm_accept wid wid _ _ _ (Some (Ok (str "secret"))) false None (Some (str "T")) (Some (str "d"))).
    race (wm_revoke wid wid _ [FAccepted (Some (str "d"))] (str "d")).
    race (wm_cut wid wid _ [] [FAccepted (Some (str "d"))] (str "d")).
    race (wm_sweep wid wid _ [] [FAccepted (Some (str "d"))] (str "d")).
    race (wm_register wid wid _ [] []). apply star_refl.
  - split; vm_compute; reflexivity.
Qed.

(** Secrets: the log form of a reference is the reference itself, except for
    commands, which it hides. *)
Definition secret_wf (s : SecretRef) : Prop :=
  match s with
  | Env v => v <> [] /\ 58%N ∉ v
  | Keychain service account => service <> [] /\ account <> [] /\ 47%N ∉ service
  | Command c => trim c <> []
  end.

(** Every well-formed secret reference is accepted; the form written to
    logs parses back to the same environment or keychain reference, and never
    shows a command. *)
Theorem secret_ref_roundtrip (s : SecretRef) :
  secret_wf s ->
  match s with
  | Command c => Secret.parse (str "!" ++ c) = Ok s /\ Secret.describe s = str "!command"
  | _ => Secret.parse (Secret.describe s) = Ok s
  end.
Proof.
  destruct s as [v|service account|c]; intros Hw; simpl in Hw; unfold Secret.parse, Secret.describe.
  - destruct Hw as [Hne Hc]. rewrite strip_prefix_app.
    assert (is_empty v = false) as -> by (by destruct v).
    assert (existsb (N.eqb 58) v = false) as ->; [|done].
    apply existsb_elem_false. intros x Hx. apply N.eqb_neq. by intros <-.
  - destruct Hw as (Hs & Ha & Hc).
    assert (strip_prefix (str "env:") (str "keychain:" ++ service ++ str "/" ++ account) = None) as -> by done.
    rewrite strip_prefix_app. unfold split_once, find_char. change (str "/") with [47%N]. cbn [app].
    rewrite find_index_app; [|intros x Hx; apply N.eqb_neq; by intros <-|done]. cbn [fmap option_fmap option_map].
    rewrite take_app_length.
    replace (service ++ 47%N :: account) with ((service ++ [47%N]) ++ account) by (by rewrite <-app_assoc).
    rewrite drop_app_exact by (rewrite length_app; simpl; lia).
    by destruct service, account.
  - assert (strip_prefix (str "env:") (str "!" ++ c) = None) as -> by done.
    assert (strip_prefix (str "keychain:") (str "!" ++ c) = None) as -> by done.
    rewrite strip_prefix_app. by destruct (trim c).
Qed.

Lemma secret_ref_roundtrip_witness :
  Secret.parse (Secret.describe (Keychain (str "svc") (str "a/b"))) = Ok (Keychain (str "svc") (str "a/b")).
Proof.
  apply (secret_ref_roundtrip (Keychain (str "svc") (str "a/b"))).
  split; [|split]; apply (bool_decide_unpack _); vm_compute; exact I.
Defined.
