(* ===== verification/Jail.v ===== *)
(** * Jail: where file calls may reach ([rpc.rs], [granted_roots] of [store.rs])

    [resolve_jailed] and the [file.read] / [file.write] calls behind it, the
    granted roots with [file.grant] / [file.ungrant], and the [allowed_dirs] gate on working directories, over a
    file system with directories, files and symbolic links.  Paths are their
    components below the root, without [.]; the working directory of a session
    is absolute. *)

From S2P Require Import Prelude Str Rows.

(** ** Paths and the file system *)

Inductive comp := Name (n : rstr) | Parent.

#[export] Instance comp_eq_dec : EqDecision comp.
Proof. solve_decision. Defined.

(** A location: names only. *)
Abbreviation loc := (list rstr) (only parsing).

Definition names (l : loc) : list comp := map Name l.

Inductive entry :=
| Dir
| File (bytes : list N)
| Link (absolute : bool) (target : list comp).

(** The root is the empty location and always a directory. *)
Abbreviation fsys := (gmap loc entry) (only parsing).

Definition is_dir (fs : fsys) (l : loc) : bool :=
  match l with
  | [] => true
  | _ => match fs !! l with Some Dir => true | _ => false end
  end.

(** Path resolution as the kernel does it, through at most [links] symbolic
    links; with [create] the last name may be missing. *)
Fixpoint walk (create : bool) (fs : fsys) (links : nat) : loc -> list comp -> option loc :=
  fix go (cur : loc) (cs : list comp) : option loc :=
    match cs with
    | [] => Some cur
    | Parent :: r => if is_dir fs cur then go (removelast cur) r else None
    | Name n :: r =>
        if is_dir fs cur then
          match fs !! (cur ++ [n]) with
          | None => if create && is_empty r then Some (cur ++ [n]) else None
          | Some (Link absolute target) =>
              match links with
              | 0 => None
              | S l => walk create fs l (if absolute then [] else cur) (target ++ r)
              end
          | Some _ => go (cur ++ [n]) r
          end
        else None
    end.

(** [Path::canonicalize] *)
Definition canonicalize (fs : fsys) (links : nat) (p : list comp) : option loc := walk false fs links [] p.

(** ** The jail *)

(** [lexical_abs] *)
Definition lexical_abs (p : list comp) : loc :=
  fold_left (fun out c => match c with Parent => removelast out | Name n => out ++ [n] end) p [].

(** A client's path: absolute or relative, and its components. *)
Record user_path := { up_absolute : bool; up_comps : list comp }.

Definition join_path (cwd : list comp) (u : user_path) : list comp :=
  if up_absolute u then up_comps u else cwd ++ up_comps u.

(** The loop to the deepest ancestor that resolves, over the reversed
    components, with the names left behind. *)
Fixpoint ancestor (fs : fsys) (links : nat) (rcur : list comp) (tail : loc) : option (loc * loc) :=
  match canonicalize fs links (reverse rcur) with
  | Some b => Some (b, tail)
  | None =>
      match rcur with
      | Name n :: p => ancestor fs links p (n :: tail)
      | _ => None
      end
  end.

Definition resolve_path (fs : fsys) (links : nat) (joined : list comp) : loc :=
  match canonicalize fs links joined with
  | Some c => c
  | None =>
      match ancestor fs links (reverse joined) [] with
      | Some (b, tail) => b ++ tail
      | None => lexical_abs joined
      end
  end.

(** [Path::starts_with] *)
Definition under (root l : loc) : bool := bool_decide (root `prefix_of` l).

Inductive file_error := Escapes | NotFound | NotAFile | TooLarge.

Definition jail_of (fs : fsys) (links : nat) (cwd : list comp) : loc :=
  default (lexical_abs cwd) (canonicalize fs links cwd).

Definition resolve_jailed (fs : fsys) (links : nat) (cwd : list comp) (u : user_path) (extra_jails : list loc)
  : result loc file_error :=
  let resolved := resolve_path fs links (join_path cwd u) in
  if negb (under (jail_of fs links cwd) resolved) && negb (existsb (fun root => under root resolved) extra_jails)
  then Err Escapes
  else Ok resolved.

(** ** Granted roots *)

Record GrantedRoot := { gr_project : option rstr; gr_root : loc; gr_created : rstr }.

(** [project_id IS ?1 AND root = ?2] *)
Definition same_grant (project : option rstr) (root : list comp) (g : GrantedRoot) : bool :=
  bool_decide (gr_project g = project) && bool_decide (names (gr_root g) = root).

Definition grant_root (now : rstr) (rows : list GrantedRoot) (project : option rstr) (root : loc) : list GrantedRoot :=
  if existsb (same_grant project (names root)) rows then rows
  else rows ++ [{| gr_project := project; gr_root := root; gr_created := now |}].

Definition revoke_root (rows : list GrantedRoot) (project : option rstr) (root : list comp) : list GrantedRoot * bool :=
  (List.filter (fun g => negb (same_grant project root g)) rows, existsb (same_grant project root) rows).

(** A path as text. *)
Definition path_text (p : list comp) : rstr :=
  match p with
  | [] => str "/"
  | _ => concat (map (fun c => str "/" ++ match c with Name n => n | Parent => str ".." end) p)
  end.

(** [ORDER BY project_id IS NOT NULL, root] *)
Definition grant_leb (a b : GrantedRoot) : bool :=
  match gr_project a, gr_project b with
  | None, Some _ => true
  | Some _, None => false
  | _, _ => str_leb (path_text (names (gr_root a))) (path_text (names (gr_root b)))
  end.

(** The global ones and the project's; an empty project id reads as none. *)
Definition granted_roots (rows : list GrantedRoot) (project : option rstr) : list GrantedRoot :=
  map (fun g => {| gr_project := match gr_project g with Some [] => None | p => p end;
                   gr_root := gr_root g; gr_created := gr_created g |})
    (sort_by grant_leb
       (List.filter (fun g => match gr_project g with
                              | None => true
                              | Some p => match project with Some q => str_eqb p q | None => false end
                              end) rows)).

Definition effective_grants (rows : list GrantedRoot) (project : option rstr) : list loc :=
  map gr_root (granted_roots rows project).

Inductive grant_error := GrantNotAbsolute | GrantMissing | GrantNotDir | GrantUnknownProject.

Definition canon_grant (fs : fsys) (links : nat) (u : user_path) : result loc grant_error :=
  if negb (up_absolute u) then Err GrantNotAbsolute
  else match canonicalize fs links (up_comps u) with
       | None => Err GrantMissing
       | Some c => if is_dir fs c then Ok c else Err GrantNotDir
       end.

(** ** [file.read] and [file.write] *)

(** For a session's working directory and project. *)
Definition resolve_session_path (fs : fsys) (links : nat) (rows : list GrantedRoot) (cwd : list comp)
  (project : option rstr) (u : user_path) : result loc file_error :=
  resolve_jailed fs links cwd u (effective_grants rows project).

Definition FILE_READ_MAX : N := (512 * 1024)%N.
Definition FILE_WRITE_MAX : N := (1024 * 1024)%N.

Definition file_read (fs : fsys) (links : nat) (rows : list GrantedRoot) (cwd : list comp)
  (project : option rstr) (u : user_path)
  : result (list N) file_error :=
  let? full := resolve_session_path fs links rows cwd project u in
  match canonicalize fs links (names full) with
  | None => Err NotFound
  | Some l =>
      match fs !! l with
      | Some (File bytes) => if (FILE_READ_MAX <? N.of_nat (length bytes))%N then Err TooLarge else Ok bytes
      | _ => Err NotAFile
      end
  end.

(** [tokio::fs::write] creates or truncates what the path resolves to. *)
Definition write_at (fs : fsys) (links : nat) (full : loc) (bytes : list N) : result fsys file_error :=
  match walk true fs links [] (names full) with
  | None => Err NotFound
  | Some l => if is_dir fs l then Err NotAFile else Ok (<[l := File bytes]> fs)
  end.

Definition file_write (fs : fsys) (links : nat) (rows : list GrantedRoot) (cwd : list comp)
  (project : option rstr) (u : user_path)
  (bytes : list N) : result fsys file_error :=
  let? full := resolve_session_path fs links rows cwd project u in
  if (FILE_WRITE_MAX <? N.of_nat (length bytes))%N then Err TooLarge
  else write_at fs links full bytes.

(** ** The gate on working directories *)

(** [canon_cwd]: [std::path::absolute] keeps the parent components. *)
Definition canon_cwd (fs : fsys) (links : nat) (here : list comp) (u : user_path) : list comp :=
  let abs := join_path here u in
  match canonicalize fs links abs with Some l => names l | None => abs end.

Definition check_cwd_allowed (fs : fsys) (links : nat) (here : list comp) (allowed : list user_path) (cwd : user_path)
  : bool :=
  is_empty allowed
  || existsb (fun root => bool_decide (canon_cwd fs links here root `prefix_of` canon_cwd fs links here cwd)) allowed.

(** ** [file.grant] and [file.ungrant] *)

(** [projects]: the ids with a row. *)
Definition file_grant (fs : fsys) (links : nat) (projects : list rstr) (now : rstr) (rows : list GrantedRoot)
  (project : option rstr) (u : user_path) : result (list GrantedRoot * loc) grant_error :=
  if match project with Some pid => negb (existsb (str_eqb pid) projects) | None => false end
  then Err GrantUnknownProject
  else let? root := canon_grant fs links u in Ok (grant_root now rows project root, root).

(** [canon_grant_loose]: what does not resolve stays as it is written. *)
Definition canon_grant_loose (fs : fsys) (links : nat) (u : user_path) : result (list comp) grant_error :=
  if negb (up_absolute u) then Err GrantNotAbsolute else Ok (canon_cwd fs links [] u).

Definition file_ungrant (fs : fsys) (links : nat) (rows : list GrantedRoot) (project : option rstr) (u : user_path)
  : result (list GrantedRoot * bool) grant_error :=
  let? root := canon_grant_loose fs links u in Ok (revoke_root rows project root).

(** ** Facts about resolution *)

Lemma walk_nil create fs links cur : walk create fs links cur [] = Some cur.
Proof. by destruct links. Qed.

Lemma walk_parent create fs links cur r :
  walk create fs links cur (Parent :: r) = if is_dir fs cur then walk create fs links (removelast cur) r else None.
Proof. by destruct links. Qed.

Lemma walk_name create fs links cur n r :
  walk create fs links cur (Name n :: r) =
  if is_dir fs cur then
    match fs !! (cur ++ [n]) with
    | None => if create && is_empty r then Some (cur ++ [n]) else None
    | Some (Link absolute target) =>
        match links with
        | 0 => None
        | S l => walk create fs l (if absolute then [] else cur) (target ++ r)
        end
    | Some _ => walk create fs links (cur ++ [n]) r
    end
  else None.
Proof. by destruct links. Qed.

(** Every ancestor, and the location itself, is a directory. *)
Definition real_dir (fs : fsys) (l : loc) : Prop := forall k, k <= length l -> is_dir fs (take k l) = true.

(** A directory or file below directories: its own canonical form. *)
Definition real (fs : fsys) (l : loc) : Prop :=
  real_dir fs l \/ exists p n bytes, l = p ++ [n] /\ real_dir fs p /\ fs !! l = Some (File bytes).

Lemma real_root fs : real_dir fs [].
Proof. intros [|k] Hk; [done|simpl in Hk; lia]. Qed.

Lemma is_dir_snoc fs p n : is_dir fs (p ++ [n]) = match fs !! (p ++ [n]) with Some Dir => true | _ => false end.
Proof. by destruct p. Qed.

Lemma real_dir_self fs l : real_dir fs l -> is_dir fs l = true.
Proof. intros H. specialize (H (length l) (le_n _)). by rewrite firstn_all in H. Qed.

Lemma real_dir_snoc fs p n : real_dir fs p -> fs !! (p ++ [n]) = Some Dir -> real_dir fs (p ++ [n]).
Proof.
  intros Hp Hn k Hk. rewrite length_app in Hk. simpl in Hk. destruct (decide (k = length p + 1)) as [->|Hne].
  - rewrite take_ge by (rewrite length_app; simpl; lia). by rewrite is_dir_snoc, Hn.
  - rewrite take_app_le by lia. apply Hp. lia.
Qed.

Lemma real_dir_prefix fs p q : real_dir fs (p ++ q) -> real_dir fs p.
Proof. intros H k Hk. specialize (H k). rewrite length_app, take_app_le in H by lia. apply H. lia. Qed.

Lemma real_dir_parent fs l : real_dir fs l -> real_dir fs (removelast l).
Proof.
  intros H. destruct l as [|x l _] using rev_ind; [done|].
  rewrite removelast_last. by apply real_dir_prefix with [x].
Qed.

Lemma real_is_dir fs l : real fs l -> is_dir fs l = true -> real_dir fs l.
Proof. intros [H|(p & n & bytes & -> & _ & Hf)] Hd; [done|]. by rewrite is_dir_snoc, Hf in Hd. Qed.

(** Resolution ends at a real location. *)
Lemma walk_real fs links cur cs l : walk false fs links cur cs = Some l -> real fs cur -> real fs l.
Proof.
  revert cur cs; induction links as [|links IHl]; intros cur cs; revert cur;
    induction cs as [|[n|] cs IHcs]; intros cur H Hr.
  1,4: rewrite walk_nil in H; by injection H as <-.
  2,4: rewrite walk_parent in H; destruct (is_dir fs cur) eqn:Ed; [|done];
    apply (IHcs _ H); left; by apply real_dir_parent, real_is_dir.
  all: rewrite walk_name in H; destruct (is_dir fs cur) eqn:Ed; [|done];
    pose proof (real_is_dir fs cur Hr Ed) as Hd; destruct (fs !! (cur ++ [n])) as [[|bytes|a t]|] eqn:En; try done.
  1,3: apply (IHcs _ H); left; by apply real_dir_snoc.
  1,2: apply (IHcs _ H); right; by exists cur, n, bytes.
  apply (IHl _ _ H). destruct a; [left; apply real_root|done].
Qed.

(** Walking the names of a real location leads to it without using links. *)
Lemma walk_real_dir create fs links p cs :
  real_dir fs p -> walk create fs links [] (names p ++ cs) = walk create fs links p cs.
Proof.
  revert cs; induction p as [|n p IH] using rev_ind; intros cs H; [done|].
  assert (real_dir fs p) as Hp by (by apply real_dir_prefix with [n]).
  unfold names. rewrite map_app, <-app_assoc. change (map Name p) with (names p). rewrite IH by done. cbn [map app].
  rewrite walk_name, (real_dir_self fs p Hp).
  pose proof (real_dir_self fs _ H) as Hs. rewrite is_dir_snoc in Hs.
  destruct (fs !! (p ++ [n])) as [[]|]; done.
Qed.

Lemma walk_real_self create fs links l : real fs l -> walk create fs links [] (names l) = Some l.
Proof.
  intros [H|(p & n & bytes & -> & Hp & Hf)].
  - rewrite <-(app_nil_r (names l)), walk_real_dir by done. apply walk_nil.
  - unfold names. rewrite map_app. change (map Name p) with (names p). rewrite walk_real_dir by done. cbn [map].
    rewrite walk_name, (real_dir_self fs p Hp), Hf. apply walk_nil.
Qed.

Lemma walk_mono fs links links' cur cs l :
  walk false fs links cur cs = Some l -> links <= links' -> walk false fs links' cur cs = Some l.
Proof.
  revert links' cur cs; induction links as [|links IHl]; intros links' cur cs H Hle; revert cur H;
    induction cs as [|[n|] cs IHcs]; intros cur H.
  1,4: by rewrite walk_nil in *.
  2,4: rewrite walk_parent in *; destruct (is_dir fs cur); [by apply IHcs|done].
  all: rewrite walk_name in *; destruct (is_dir fs cur); [|done];
    destruct (fs !! (cur ++ [n])) as [[|bytes|a t]|]; try done; try by apply IHcs.
  destruct links' as [|links']; [lia|]. apply IHl; [done|lia].
Qed.

Lemma walk_compose fs links links' cur a m b l :
  walk false fs links cur a = Some m -> walk false fs links' m b = Some l ->
  walk false fs (links + links') cur (a ++ b) = Some l.
Proof.
  revert cur a; induction links as [|links IHl]; intros cur a; revert cur;
    induction a as [|[n|] a IHa]; intros cur H Hb.
  1,4: rewrite walk_nil in H; injection H as ->; apply (walk_mono fs links'); [done|lia].
  2,4: cbn [app]; rewrite walk_parent in *; destruct (is_dir fs cur); [by apply IHa|done].
  all: cbn [app]; rewrite walk_name in *; destruct (is_dir fs cur); [|done];
    destruct (fs !! (cur ++ [n])) as [[|bytes|ab t]|]; try done; try by apply IHa.
  cbn [Nat.add]. rewrite app_assoc. by apply IHl.
Qed.

(** ** What the file system must be for the jail to hold *)

(** No beginning of the path that resolves at all needs more links than the
    kernel follows. *)
Definition within_limit (fs : fsys) (links : nat) (cs : list comp) : Prop :=
  forall k l c, walk false fs l [] (take k cs) = Some c -> walk false fs links [] (take k cs) = Some c.

(** Every symbolic link resolves. *)
Definition no_dangling (fs : fsys) (links : nat) : Prop :=
  forall p n absolute target, real_dir fs p -> fs !! (p ++ [n]) = Some (Link absolute target) ->
    canonicalize fs links (names (p ++ [n])) <> None.

Lemma ancestor_spec fs links rcur tail b t :
  ancestor fs links rcur tail = Some (b, t) ->
  exists pre suf, reverse rcur = pre ++ names suf /\ t = suf ++ tail /\ canonicalize fs links pre = Some b /\
    match suf with [] => True | n :: _ => canonicalize fs links (pre ++ [Name n]) = None end.
Proof.
  revert tail; induction rcur as [|c rcur IH]; intros tail H; cbn [ancestor] in H.
  - destruct (canonicalize fs links (reverse [])) as [b'|] eqn:E; [|done]. injection H as -> ->.
    by exists [], [].
  - destruct (canonicalize fs links (reverse (c :: rcur))) as [b'|] eqn:E.
    + injection H as -> ->. exists (reverse (c :: rcur)), []. by rewrite app_nil_r.
    + destruct c as [n|]; [|done]. destruct (IH _ H) as (pre & suf & Hr & -> & Hc & Hs).
      exists pre, (suf ++ [n]). rewrite reverse_cons, Hr. unfold names. rewrite map_app, <-!app_assoc.
      split; [done|]. split; [done|]. split; [done|].
      destruct suf as [|x suf]; [|done]. cbn [app]. by rewrite reverse_cons, Hr, app_nil_r in E.
Qed.

(** Without parent components the loop always finds an ancestor. *)
Lemma ancestor_names fs links (x tail : loc) : exists r, ancestor fs links (reverse (names x)) tail = Some r.
Proof.
  revert tail; induction x as [|n x IH] using rev_ind; intros tail; unfold names in *.
  - cbn [map]. change (reverse []) with (@nil comp). cbn [ancestor]. change (reverse []) with (@nil comp).
    unfold canonicalize. rewrite walk_nil. eauto.
  - rewrite map_app. cbn [map]. rewrite reverse_snoc. cbn [ancestor].
    destruct (canonicalize _ _ _); [eauto|]. apply IH.
Qed.

(** No parent components, or the path exists. *)
Definition tame (fs : fsys) (links : nat) (cs : list comp) : Prop :=
  (exists x : loc, cs = names x) \/ canonicalize fs links cs <> None.

Lemma resolve_path_spec fs links cs :
  within_limit fs links cs -> no_dangling fs links -> tame fs links cs ->
  let full := resolve_path fs links cs in
  real fs full \/
  exists b n s, full = b ++ n :: s /\ (is_dir fs b = true -> fs !! (b ++ [n]) = None) /\ real fs b.
Proof.
  intros Hlim Hlinks Htame. cbv zeta. unfold resolve_path.
  destruct (canonicalize fs links cs) as [c|] eqn:Ec.
  { left. eapply walk_real; [exact Ec|left; apply real_root]. }
  destruct Htame as [[x ->]|Hres]; [|done].
  destruct (ancestor_names fs links x []) as [[b t] Ha]. rewrite Ha.
  destruct (ancestor_spec _ _ _ _ _ _ Ha) as (pre & suf & Hr & -> & Hc & Hs). rewrite app_nil_r.
  rewrite reverse_involutive in Hr.
  assert (real fs b) as Hb by (eapply walk_real; [exact Hc|left; apply real_root]).
  destruct suf as [|n s]; [left; by rewrite app_nil_r|]. right. exists b, n, s. split; [done|]. split; [|done].
  intros Hd. destruct (fs !! (b ++ [n])) as [e|] eqn:En; [|done]. exfalso.
  assert (exists d, walk false fs links b [Name n] = Some d) as [d Hn].
  { rewrite walk_name, Hd, En. destruct e as [| |ab tg]; try (rewrite walk_nil; eauto).
    pose proof (real_is_dir fs b Hb Hd) as Hrd. pose proof (Hlinks b n ab tg Hrd En) as Hl.
    unfold canonicalize, names in Hl. rewrite map_app in Hl. change (map Name b) with (names b) in Hl.
    rewrite walk_real_dir in Hl by done. cbn [map] in Hl. rewrite walk_name, Hd, En in Hl.
    destruct links as [|l]; [done|]. destruct (walk false fs l _ _); [eauto|done]. }
  pose proof (walk_compose fs links links [] pre b [Name n] d Hc Hn) as Hw.
  assert (take (length pre + 1) (names x) = pre ++ [Name n]) as Ht.
  { rewrite Hr. unfold names. rewrite take_app_ge by lia. by replace (length pre + 1 - length pre) with 1 by lia. }
  rewrite <-Ht in Hw. apply Hlim in Hw. rewrite Ht in Hw. unfold canonicalize in Hs. congruence.
Qed.

(** Reading through a resolved path stays at it; so does writing. *)
Lemma resolved_read fs links cs l :
  within_limit fs links cs -> no_dangling fs links -> tame fs links cs ->
  canonicalize fs links (names (resolve_path fs links cs)) = Some l -> l = resolve_path fs links cs.
Proof.
  intros Hlim Hlinks Htame H. destruct (resolve_path_spec fs links cs Hlim Hlinks Htame) as [Hr|(b & n & s & Hf & Hn & Hb)].
  - unfold canonicalize in H. rewrite walk_real_self in H by done. by injection H.
  - exfalso. rewrite Hf in H. unfold canonicalize, names in H. rewrite map_app in H. change (map Name b) with (names b) in H.
    destruct (is_dir fs b) eqn:Hd.
    + rewrite walk_real_dir in H by (by apply real_is_dir). cbn [map] in H. rewrite walk_name, Hd, Hn in H by done. done.
    + destruct Hb as [Hb|(p & m & bytes & -> & Hp & Hfile)]; [by rewrite (real_dir_self fs b Hb) in Hd|].
      unfold names in H. rewrite map_app, <-app_assoc in H. change (map Name p) with (names p) in H.
      rewrite walk_real_dir in H by done. cbn [map app] in H. rewrite walk_name, (real_dir_self fs p Hp), Hfile in H.
      by rewrite walk_name, Hd in H.
Qed.

Lemma resolved_write fs links cs l :
  within_limit fs links cs -> no_dangling fs links -> tame fs links cs ->
  walk true fs links [] (names (resolve_path fs links cs)) = Some l -> l = resolve_path fs links cs.
Proof.
  intros Hlim Hlinks Htame H. destruct (resolve_path_spec fs links cs Hlim Hlinks Htame) as [Hr|(b & n & s & Hf & Hn & Hb)].
  - rewrite walk_real_self in H by done. by injection H.
  - rewrite Hf in H |- *. unfold names in H. rewrite map_app in H. change (map Name b) with (names b) in H.
    destruct (is_dir fs b) eqn:Hd.
    + rewrite walk_real_dir in H by (by apply real_is_dir). cbn [map] in H. rewrite walk_name, Hd, Hn in H by done.
      destruct s as [|m s]; [|done]. by injection H.
    + exfalso. destruct Hb as [Hb|(p & m & bytes & -> & Hp & Hfile)]; [by rewrite (real_dir_self fs b Hb) in Hd|].
      unfold names in H. rewrite map_app, <-app_assoc in H. change (map Name p) with (names p) in H.
      rewrite walk_real_dir in H by done. cbn [map app] in H. rewrite walk_name, (real_dir_self fs p Hp), Hfile in H.
      by rewrite walk_name, Hd in H.
Qed.

Lemma resolve_jailed_ok fs links cwd u extra full :
  resolve_jailed fs links cwd u extra = Ok full ->
  full = resolve_path fs links (join_path cwd u) /\
  (jail_of fs links cwd `prefix_of` full \/ exists root, root ∈ extra /\ root `prefix_of` full).
Proof.
  unfold resolve_jailed. destruct (under _ _) eqn:Eu; simpl.
  - intros [= <-]. split; [done|]. left. by apply bool_decide_eq_true in Eu.
  - destruct (existsb _ extra) eqn:Ee; [|done]. intros [= <-]. split; [done|]. right.
    apply existsb_elem in Ee as (root & Hr & Hp). exists root. by apply bool_decide_eq_true in Hp.
Qed.

(** ** Properties *)

(** C38: where symbolic links resolve within the kernel's limit, a client's
    path without parent components, or to something that exists, reads and
    changes nothing outside the session's directory and the granted roots: what
    a read returns is a file inside, and a write touches one location inside;
    and every file inside, up to the cap, can be read. *)
Theorem jail_confines (fs : fsys) (links : nat) (rows : list GrantedRoot) (cwd : list comp) (project : option rstr)
    (u : user_path) :
  within_limit fs links (join_path cwd u) -> no_dangling fs links -> tame fs links (join_path cwd u) ->
  let inside (l : loc) := jail_of fs links cwd `prefix_of` l \/ exists root, root ∈ effective_grants rows project /\ root `prefix_of` l in
  (forall bytes, file_read fs links rows cwd project u = Ok bytes -> exists l, inside l /\ fs !! l = Some (File bytes)) /\
  (forall bytes fs', file_write fs links rows cwd project u bytes = Ok fs' ->
     exists l, inside l /\ is_dir fs l = false /\ fs' = <[l := File bytes]> fs) /\
  (forall l bytes, inside l -> real fs l -> fs !! l = Some (File bytes) -> (N.of_nat (length bytes) <= FILE_READ_MAX)%N ->
     file_read fs links rows cwd project {| up_absolute := true; up_comps := names l |} = Ok bytes).
Proof.
  intros Hlim Hlinks Htame. cbv zeta. split; [|split].
  - intros bytes H. unfold file_read, resolve_session_path in H. destruct (resolve_jailed fs links cwd u _) as [full|] eqn:E; [|done].
    destruct (resolve_jailed_ok _ _ _ _ _ _ E) as [-> Hin].
    destruct (canonicalize fs links (names _)) as [l|] eqn:El; [|done].
    pose proof (resolved_read fs links _ l Hlim Hlinks Htame El) as ->.
    destruct (fs !! _) as [[|b|]|] eqn:Ef; try done. destruct (_ <? _)%N; [done|]. injection H as <-. by eexists.
  - intros bytes fs' H. unfold file_write, resolve_session_path in H. destruct (resolve_jailed fs links cwd u _) as [full|] eqn:E; [|done].
    destruct (resolve_jailed_ok _ _ _ _ _ _ E) as [-> Hin]. destruct (_ <? _)%N; [done|]. unfold write_at in H.
    destruct (walk true _ _ _ _) as [l|] eqn:El; [|done].
    pose proof (resolved_write fs links _ l Hlim Hlinks Htame El) as ->.
    destruct (is_dir fs _) eqn:Ed; [done|]. injection H as <-. by eexists.
  - intros l bytes Hin Hreal Hf Hlen. unfold file_read, resolve_session_path, resolve_jailed, join_path. cbn [up_absolute up_comps].
    assert (canonicalize fs links (names l) = Some l) as Hl by (by apply walk_real_self).
    assert (resolve_path fs links (names l) = l) as -> by (unfold resolve_path; by rewrite Hl).
    assert (negb (under (jail_of fs links cwd) l) && negb (existsb (fun root => under root l) (effective_grants rows project)) = false) as ->.
    { apply andb_false_iff. destruct Hin as [Hp|(root & Hr & Hp)]; [left|right]; apply negb_false_iff.
      - by apply bool_decide_eq_true.
      - apply existsb_elem. exists root. split; [done|]. by apply bool_decide_eq_true. }
    rewrite Hl, Hf.
    destruct (N.ltb_spec FILE_READ_MAX (N.of_nat (length bytes))); [lia|done].
Qed.

(** ** Grants *)

Lemma names_inj (l m : loc) : names l = names m -> l = m.
Proof.
  revert m; induction l as [|n l IH]; intros [|k m] H; try done. cbn in H. injection H as -> H. f_equal. by apply IH.
Qed.

Lemma canonicalize_real fs links p l : canonicalize fs links p = Some l -> real fs l.
Proof. intros H. eapply walk_real; [exact H|left; apply real_root]. Qed.

(** A grant counts for its project, a global one for all. *)
Definition in_scope (project : option rstr) (g : GrantedRoot) : Prop :=
  gr_project g = None \/ exists p, gr_project g = Some p /\ project = Some p.

Lemma effective_grants_elem rows project l :
  l ∈ effective_grants rows project <-> exists g, g ∈ rows /\ in_scope project g /\ gr_root g = l.
Proof.
  unfold effective_grants, granted_roots. rewrite map_map, list_elem_of_In, in_map_iff. cbn [gr_root].
  split.
  - intros (g & <- & Hg). apply list_elem_of_In, sort_by_elem, elem_filter in Hg as [Hg Hs].
    exists g. split; [done|]. split; [|done]. unfold in_scope. destruct (gr_project g) as [q|]; [right|by left].
    destruct project as [q'|]; [|done]. apply str_eqb_eq in Hs as ->. by eexists.
  - intros (g & Hg & Hs & <-). exists g. split; [done|]. apply list_elem_of_In, sort_by_elem, elem_filter.
    split; [done|]. destruct Hs as [->|(q & -> & ->)]; [done|]. by apply str_eqb_eq.
Qed.

Lemma same_grant_iff project root g :
  same_grant project root g = true <-> gr_project g = project /\ names (gr_root g) = root.
Proof. unfold same_grant. rewrite andb_true_iff. by rewrite !bool_decide_eq_true. Qed.

Lemma grant_root_elem now rows project root :
  exists g, g ∈ grant_root now rows project root /\ gr_project g = project /\ gr_root g = root /\
    forall h, h ∈ grant_root now rows project root <-> h = g \/ h ∈ rows.
Proof.
  unfold grant_root. destruct (existsb _ rows) eqn:E.
  - apply existsb_elem in E as (g & Hg & Hs). apply same_grant_iff in Hs as [Hp Hr]. apply names_inj in Hr.
    exists g. repeat split; try done; [by right|by intros [->|]].
  - eexists. split; [apply elem_of_app; right; by apply list_elem_of_singleton|]. do 2 (split; [done|]).
    intros h. rewrite elem_of_app, list_elem_of_singleton. tauto.
Qed.

(** A grant is for a real directory; it adds that directory, and nothing
    else, to the roots of the sessions in its scope; granting again by any
    path to the directory changes nothing; and revoking by its canonical path,
    also after the directory is gone, removes exactly the grants of that scope
    for it. *)
Theorem file_grant_spec (fs : fsys) (links : nat) (projects : list rstr) (now : rstr) (rows rows' : list GrantedRoot)
    (project : option rstr) (u : user_path) (root : loc) :
  file_grant fs links projects now rows project u = Ok (rows', root) ->
  real_dir fs root /\
  (forall scope l, l ∈ effective_grants rows' scope <->
     l ∈ effective_grants rows scope \/ (l = root /\ (project = None \/ project = scope))) /\
  (forall v later, canon_grant fs links v = Ok root ->
     file_grant fs links projects later rows' project v = Ok (rows', root)) /\
  (forall fs', real fs' root \/ canonicalize fs' links (names root) = None ->
     exists rest, file_ungrant fs' links rows' project {| up_absolute := true; up_comps := names root |} = Ok (rest, true) /\
       forall g, g ∈ rest <-> g ∈ rows /\ ~ (gr_project g = project /\ gr_root g = root)).
Proof.
  unfold file_grant. destruct (match project with Some pid => _ | None => _ end) eqn:Ek; [done|].
  destruct (canon_grant fs links u) as [r|] eqn:Ec; [|done]. cbn. intros [= <- ->].
  destruct (grant_root_elem now rows project root) as (g & Hg & Hgp & Hgr & Hall).
  split; [|split; [|split]].
  - unfold canon_grant in Ec. destruct (negb _); [done|].
    destruct (canonicalize fs links (up_comps u)) as [c|] eqn:E; [|done]. destruct (is_dir fs c) eqn:Ed; [|done].
    injection Ec as ->. apply real_is_dir; [|done]. by eapply canonicalize_real.
  - intros scope l. rewrite !effective_grants_elem. setoid_rewrite Hall. unfold in_scope. split.
    + intros (h & [->|Hh] & Hs & <-); [right|left; by eauto]. rewrite Hgp in Hs.
      split; [done|]. destruct Hs as [->|(q & -> & ->)]; auto.
    + intros [(h & Hh & Hs & <-)|[-> Hs]]; [by eauto 6|]. exists g. split; [by left|]. split; [|done].
      rewrite Hgp. destruct Hs as [->| ->]; [by left|]. destruct scope; [right; by eauto|by left].
  - intros v later Hv. rewrite Hv. cbn. unfold grant_root at 1.
    assert (existsb (same_grant project (names root)) (grant_root now rows project root) = true) as ->; [|done].
    apply existsb_elem. exists g. split; [done|]. by apply same_grant_iff; rewrite Hgr.
  - intros fs' Hfs. unfold file_ungrant, canon_grant_loose, canon_cwd, join_path. cbn [up_absolute up_comps negb].
    assert (match canonicalize fs' links (names root) with Some l => names l | None => names root end = names root) as ->.
    { destruct Hfs as [Hr| ->]; [|done]. unfold canonicalize. by rewrite walk_real_self. }
    cbn. unfold revoke_root. eexists. split.
    + do 2 f_equal. apply existsb_elem. exists g. split; [done|]. by apply same_grant_iff; rewrite Hgr.
    + intros h. rewrite elem_filter, negb_true_iff, <-not_true_iff_false, same_grant_iff, Hall.
      split.
      * intros [[->|Hh] Hn]; [exfalso; apply Hn; by rewrite Hgr|]. split; [done|]. intros [? <-]. by apply Hn.
      * intros [Hh Hn]. split; [by right|]. intros [? He%names_inj]. by apply Hn.
Qed.

(** Checks of the hypotheses on a concrete file system. *)
Lemma within_limit_check fs links cs :
  forallb (fun k => match canonicalize fs links (take k cs) with Some _ => true | None => false end)
    (seq 0 (S (length cs))) = true ->
  within_limit fs links cs.
Proof.
  intros H k l c Hw. rewrite forallb_forall in H.
  assert (exists j, j <= length cs /\ take k cs = take j cs) as (j & Hj & Ht).
  { destruct (decide (k <= length cs)) as [Hk|Hk]; [by exists k|]. exists (length cs). split; [done|].
    by rewrite !take_ge by lia. }
  rewrite Ht in *. specialize (H j). destruct (canonicalize fs links (take j cs)) as [d|] eqn:E.
  - unfold canonicalize in E. rewrite E. apply (walk_mono _ _ (links + l)) in E; [|lia].
    apply (walk_mono _ _ (links + l)) in Hw; [|lia]. congruence.
  - discriminate H. apply in_seq. lia.
Qed.

Lemma no_dangling_check fs links :
  forallb (fun '(l, e) => match e with
                          | Link _ _ => match canonicalize fs links (names l) with Some _ => true | None => false end
                          | _ => true
                          end) (map_to_list fs) = true ->
  no_dangling fs links.
Proof.
  intros H p n ab target _ Hl. rewrite forallb_forall in H.
  specialize (H (p ++ [n], Link ab target)). cbn beta iota in H.
  destruct (canonicalize fs links (names (p ++ [n]))); [done|].
  discriminate H. by apply list_elem_of_In, elem_of_map_to_list.
Qed.

Definition demo_fs : fsys :=
  <[ [str "ws"] := Dir ]> (<[ [str "ws"; str "notes"] := File [1%N] ]>
  (<[ [str "ws"; str "link"] := Link true [Name (str "etc")] ]>
  (<[ [str "etc"] := Dir ]> (<[ [str "etc"; str "secret"] := File [7%N] ]> ∅)))).

Definition demo_path (cs : list rstr) : user_path := {| up_absolute := false; up_comps := names cs |}.

Definition demo_grants : list GrantedRoot := grant_root (str "t") [] None [str "etc"].

(** Reading through a link of the session's directory into a granted root. *)
Lemma jail_confines_witness :
  exists l, (([str "ws"] : loc) `prefix_of` l \/ exists root, root ∈ effective_grants demo_grants None /\ root `prefix_of` l) /\
    demo_fs !! l = Some (File [7%N]).
Proof.
  apply (jail_confines demo_fs 40 demo_grants (names [str "ws"]) None (demo_path [str "link"; str "secret"])).
  - apply within_limit_check. vm_compute. reflexivity.
  - apply no_dangling_check. vm_compute. reflexivity.
  - left. by exists [str "ws"; str "link"; str "secret"].
  - vm_compute. reflexivity.
Defined.

Lemma file_grant_spec_witness :
  exists rest,
    file_ungrant ∅ 40 (grant_root (str "t") [] (Some (str "p")) [str "etc"]) (Some (str "p"))
      {| up_absolute := true; up_comps := names [str "etc"] |} = Ok (rest, true) /\
    forall g, g ∈ rest <-> g ∈ [] /\ ~ (gr_project g = Some (str "p") /\ gr_root g = [str "etc"]).
Proof.
  apply (file_grant_spec demo_fs 40 [str "p"] (str "t") [] _ (Some (str "p"))
    {| up_absolute := true; up_comps := names [str "ws"; str "link"] |} [str "etc"]).
  - vm_compute. reflexivity.
  - right. vm_compute. reflexivity.
Defined.

(** A parent component after a missing name: the fallback folds the path
    without looking at the file system, and the link in what is left leads out
    of the session's directory. *)
Theorem read_escapes_behind_missing_name :
  file_read demo_fs 40 [] [Name (str "ws")] None
    {| up_absolute := false; up_comps := [Name (str "missing"); Parent; Name (str "link"); Name (str "secret")] |}
  = Ok [7%N].
Proof. vm_compute. reflexivity. Qed.

(** A link whose target does not exist yet passes for a missing name; the write
    creates the target. *)
Theorem write_escapes_through_dangling_link :
  let fs := <[ [str "ws"; str "out"] := Link true [Name (str "etc"); Name (str "new")] ]> demo_fs in
  match file_write fs 40 [] [Name (str "ws")] None {| up_absolute := false; up_comps := [Name (str "out")] |} [9%N] with
  | Ok fs' => fs' !! [str "etc"; str "new"] = Some (File [9%N])
  | Err _ => False
  end.
Proof. vm_compute. reflexivity. Qed.

(** A missing directory is compared with its parent components unfolded: the
    gate admits a path that leads out of the allowed root. *)
Theorem cwd_gate_admits_parent :
  check_cwd_allowed demo_fs 40 [] [{| up_absolute := true; up_comps := [Name (str "ws")] |}]
    {| up_absolute := true; up_comps := [Name (str "ws"); Parent; Name (str "etc"); Name (str "later")] |} = true.
Proof. vm_compute. reflexivity. Qed.
