(* ===== verification/ChatText.v ===== *)
(** * ChatText: what the chat bridge writes into a channel ([channel.rs])

    The fence-safe chunker, the Telegram HTML conversion, and the permission
    and question prompts: the offered choices, the hint text, and what a reply
    is turned into.  Positions count characters, limits count bytes. *)

From S2P Require Import Prelude Str Json.

(** ** Fences *)

Definition fence_line_info (line : rstr) : option rstr :=
  trim <$> strip_prefix (str "```") (trim_start_char c_space line).

(** The locals of the line walk: the last balanced cut, whether a fence is
    open and its info, and the position. *)
Record scan := { sc_cut : option nat; sc_in_fence : bool; sc_info : rstr; sc_pos : nat }.

Definition scan_line (s : scan) (line : rstr) : scan :=
  let '(in_fence, info) :=
    match fence_line_info line with
    | Some info =>
        let now := negb (sc_in_fence s) in
        (now, if now then info else [])
    | None => (sc_in_fence s, sc_info s)
    end in
  let pos := sc_pos s + length line in
  {| sc_cut := if in_fence then sc_cut s else Some pos;
     sc_in_fence := in_fence; sc_info := info; sc_pos := pos |}.

Definition scan_start : scan :=
  {| sc_cut := None; sc_in_fence := false; sc_info := []; sc_pos := 0 |}.

Definition scan_window (window : rstr) : scan :=
  fold_left scan_line (split_inclusive window) scan_start.

(** The header a continuation chunk re-opens its fence with. *)
Definition reopen (info : rstr) : rstr := str "```" ++ info ++ [c_nl].

(** The [while] loop; [None] is out of fuel. *)
Fixpoint chunk_fence_safe (fuel : nat) (remaining : rstr) (max : nat) : option (list rstr) :=
  if is_empty remaining then Some []
  else match fuel with
  | 0 => None
  | S f =>
      if utf8_len remaining <=? max then Some [remaining]
      else
        let limit := floor_chars max remaining in
        let window := take limit remaining in
        let s := scan_window window in
        match sc_cut s with
        | Some c => cons (take c window) <$> chunk_fence_safe f (drop c remaining) max
        | None => cons window <$> chunk_fence_safe f (reopen (sc_info s) ++ drop limit remaining) max
        end
  end.

(** ** What the chunks promise *)

(** Whether a fence is open after [ls]. *)
Definition fence_after (b : bool) (ls : list rstr) : bool :=
  fold_left (fun b l => match fence_line_info l with Some _ => negb b | None => b end) ls b.

Definition ends_in_fence (chunk : rstr) : bool := fence_after false (split_inclusive chunk).

(** Undo the chunking: a chunk after one that ended inside a fence starts with
    a header of its own. *)
Fixpoint reassemble (open : bool) (chunks : list rstr) : rstr :=
  match chunks with
  | [] => []
  | c :: r => (if open then after_newline c else c) ++ reassemble (ends_in_fence c) r
  end.

(** A chunk that ends inside a fence is followed by one that re-opens it. *)
Fixpoint fences_reopened (chunks : list rstr) : bool :=
  match chunks with
  | [] => true
  | c :: r =>
      (match r with
       | [] => true
       | c' :: _ => if ends_in_fence c then starts_with (str "```") c' else true
       end) && fences_reopened r
  end.

(** Every fence mark is followed by less than [max - 7] bytes on its line. *)
Fixpoint short_fences (max : nat) (s : rstr) : bool :=
  match s with
  | [] => true
  | _ :: r =>
      (if starts_with (str "```") s then utf8_len (first_line (drop 3 s)) + 8 <=? max else true)
      && short_fences max r
  end.

(** ** Facts about fences *)

Lemma trim_start_char_nl b : trim_start_char c_space (b ++ [c_nl]) = trim_start_char c_space b ++ [c_nl].
Proof. induction b as [|c b IH]; [done|]. simpl. by destruct (c =? c_space)%N. Qed.

Lemma fence_mark_eq : str "```" = [96; 96; 96]%N.
Proof. reflexivity. Qed.

Lemma strip_mark_nl b : strip_prefix (str "```") (b ++ [c_nl]) = (fun r => r ++ [c_nl]) <$> strip_prefix (str "```") b.
Proof.
  rewrite fence_mark_eq. unfold strip_prefix.
  assert (starts_with [96; 96; 96]%N (b ++ [c_nl]) = starts_with [96; 96; 96]%N b) as ->.
  { destruct b as [|c1 [|c2 [|c3 b]]]; cbn [app starts_with]; change (96 =? c_nl)%N with false;
      by rewrite ?andb_false_r. }
  destruct (starts_with _ b) eqn:E; [|done]. apply starts_with_spec in E as [r ->]. done.
Qed.

Lemma fence_line_nl b : fence_line_info (b ++ [c_nl]) = fence_line_info b.
Proof.
  unfold fence_line_info. rewrite trim_start_char_nl, strip_mark_nl.
  destruct (strip_prefix _ _); simpl; [|done]. by rewrite trim_nl.
Qed.

Lemma fence_line_shape b i :
  fence_line_info b = Some i ->
  exists n raw, b = replicate n c_space ++ str "```" ++ raw /\ i = trim raw.
Proof.
  unfold fence_line_info. intros (raw & Hr & ->)%fmap_Some.
  apply strip_prefix_spec in Hr. destruct (trim_start_char_suffix c_space b) as [n Hn].
  exists n, raw. by rewrite <-Hr.
Qed.

Lemma fence_reopen info : fence_line_info (reopen info) = Some (trim info).
Proof.
  unfold reopen. rewrite app_assoc, fence_line_nl. unfold fence_line_info.
  by rewrite fence_mark_eq.
Qed.

Lemma fence_after_cons b l ls :
  fence_after b (l :: ls) = fence_after (match fence_line_info l with Some _ => negb b | None => b end) ls.
Proof. done. Qed.

(** ** Facts about the walk *)

Lemma scan_fence ls s : sc_in_fence (fold_left scan_line ls s) = fence_after (sc_in_fence s) ls.
Proof.
  revert s; induction ls as [|l ls IH]; intros s; [done|]. cbn [fold_left]. rewrite IH, fence_after_cons.
  unfold scan_line. by destruct (fence_line_info l).
Qed.

Lemma scan_cut_spec ls s c :
  sc_cut (fold_left scan_line ls s) = Some c ->
  sc_cut s = Some c \/
  exists k, 0 < k <= length ls /\ c = sc_pos s + length (concat (take k ls)) /\
            fence_after (sc_in_fence s) (take k ls) = false.
Proof.
  revert s; induction ls as [|l ls IH]; intros s H; [by left|]. cbn [fold_left] in H.
  destruct (IH _ H) as [H1|(k & Hk & -> & Hf)]; clear IH.
  - unfold scan_line in H1.
    destruct (fence_line_info l) as [i|] eqn:E; cbn [sc_cut sc_in_fence] in H1;
      destruct (sc_in_fence s) eqn:Es; cbn [negb] in H1; try (by left); injection H1 as <-; right; exists 1;
      (split; [simpl; lia|]); cbn [take concat]; rewrite app_nil_r; (split; [done|]);
      rewrite fence_after_cons, E; done.
  - right. exists (S k). cbn [take concat length]. split; [lia|]. rewrite length_app. split.
    + unfold scan_line. destruct (fence_line_info l); simpl; lia.
    + rewrite fence_after_cons. rewrite <-Hf. unfold scan_line. by destruct (fence_line_info l).
Qed.

Lemma scan_cut_stays ls s : sc_cut s <> None -> sc_cut (fold_left scan_line ls s) <> None.
Proof.
  revert s; induction ls as [|l ls IH]; intros s H; [done|]. apply IH.
  unfold scan_line. destruct (fence_line_info l); simpl; by case_match.
Qed.

(** No balanced cut: the fence the first line opened is still open. *)
Lemma scan_cut_none ls s :
  sc_in_fence s = true -> sc_cut (fold_left scan_line ls s) = None ->
  sc_in_fence (fold_left scan_line ls s) = true /\ sc_info (fold_left scan_line ls s) = sc_info s.
Proof.
  revert s; induction ls as [|l ls IH]; intros s Hs H; [done|]. cbn [fold_left] in *.
  assert (sc_cut (scan_line s l) = None) as Ec.
  { destruct (sc_cut (scan_line s l)) eqn:E; [|done]. exfalso.
    apply (scan_cut_stays ls (scan_line s l)); [by rewrite E|done]. }
  assert (sc_in_fence (scan_line s l) = true /\ sc_info (scan_line s l) = sc_info s) as [Hf Hi].
  { revert Ec. unfold scan_line. rewrite Hs. by destruct (fence_line_info l). }
  rewrite <-Hi. by apply IH.
Qed.

Lemma scan_window_none l ls :
  sc_cut (fold_left scan_line (l :: ls) scan_start) = None ->
  fence_line_info l = Some (sc_info (fold_left scan_line (l :: ls) scan_start)) /\
  fence_after false (l :: ls) = true.
Proof.
  intros H. pose proof (scan_fence (l :: ls) scan_start) as Hf. cbn [sc_in_fence scan_start] in Hf.
  rewrite <-Hf. clear Hf. cbn [fold_left] in *.
  destruct (fence_line_info l) as [i|] eqn:E.
  - destruct (scan_cut_none ls (scan_line scan_start l)) as [-> ->]; [|done|];
      unfold scan_line; by rewrite E.
  - exfalso. apply (scan_cut_stays ls (scan_line scan_start l)); [|done].
    unfold scan_line. by rewrite E.
Qed.

(** ** One round of the chunker

    The text left to send is a header [hdr], empty or a re-opened fence,
    followed by a suffix of the original text. *)

Definition header_ok (max : nat) (hdr : rstr) : Prop :=
  hdr = [] \/ (exists info, hdr = reopen info /\ (c_nl ∉ info) /\ utf8_len info + 8 <= max).

Lemma utf8_len_reopen info : utf8_len (reopen info) = 4 + utf8_len info.
Proof. unfold reopen. rewrite !utf8_len_app, fence_mark_eq. simpl. lia. Qed.

Lemma short_fences_suffix max a s : short_fences max (a ++ s) = true -> short_fences max s = true.
Proof. induction a as [|c a IH]; [done|]. cbn [app short_fences]. intros. bools. auto. Qed.

Lemma short_fences_mark max raw t :
  short_fences max (str "```" ++ raw ++ t) = true -> c_nl ∉ raw -> utf8_len raw + 8 <= max.
Proof.
  intros H Hraw. pose proof (starts_with_app (str "```") (raw ++ t)) as Hs.
  rewrite fence_mark_eq in *. cbn [app] in *.
  change (short_fences max (96%N :: ?s)) with
    ((if starts_with (str "```") (96%N :: s) then utf8_len (first_line (drop 3 (96%N :: s))) + 8 <=? max
      else true) && short_fences max s) in H.
  rewrite fence_mark_eq, Hs in H. apply andb_true_iff in H as [H _]. cbn [drop] in H. rewrite drop_0 in H.
  rewrite first_line_app, utf8_len_app in H by done. lia.
Qed.

Lemma split_inclusive_head s l ls :
  split_inclusive s = l :: ls ->
  exists b t, (c_nl ∉ b) /\ s = b ++ t /\ fence_line_info l = fence_line_info b.
Proof.
  destruct s as [|b Hne Hb|b s Hb IH] using lines_ind; [done| |].
  - rewrite split_inclusive_last by done. intros [= <- <-]. exists b, []. by rewrite app_nil_r.
  - rewrite split_inclusive_line by done. intros [= <- <-]. exists b, (c_nl :: s).
    by rewrite fence_line_nl.
Qed.

Lemma fence_info_of_text max s l ls i :
  split_inclusive s = l :: ls -> short_fences max s = true -> fence_line_info l = Some i ->
  (c_nl ∉ i) /\ utf8_len i + 8 <= max.
Proof.
  intros Hs Hf Hi. destruct (split_inclusive_head s l ls Hs) as (b & t & Hb & -> & Hl).
  rewrite Hl in Hi. apply fence_line_shape in Hi as (n & raw & -> & ->).
  rewrite <-!app_assoc in Hf. apply short_fences_suffix in Hf.
  assert (c_nl ∉ raw) as Hraw by (intros H; apply Hb; rewrite !elem_of_app; auto).
  split; [intros H; by apply Hraw, trim_elem_of|].
  pose proof (utf8_len_trim raw). pose proof (short_fences_mark max raw t Hf Hraw). lia.
Qed.

Lemma split_inclusive_reopen info s :
  c_nl ∉ info -> split_inclusive (reopen info ++ s) = reopen info :: split_inclusive s.
Proof.
  intros H. unfold reopen. rewrite (app_assoc (str "```") info [c_nl]), <-(app_assoc (str "```" ++ info)).
  cbn [app]. rewrite split_inclusive_line; [done|].
  rewrite elem_of_app, fence_mark_eq. intros [Hm|Hi]; [|done].
  rewrite !elem_of_cons in Hm. destruct Hm as [Hm|[Hm|[Hm|Hm]]]; try done. by apply not_elem_of_nil in Hm.
Qed.

Lemma after_newline_reopen info s : c_nl ∉ info -> after_newline (reopen info ++ s) = s.
Proof.
  intros H. unfold reopen. rewrite fence_mark_eq, <-!app_assoc. cbn [app after_newline].
  change (96 =? c_nl)%N with false. cbn iota. by apply after_newline_line.
Qed.

Lemma concat_take_ne {A} (ls : list (list A)) k :
  0 < k -> ls <> [] -> (forall l, l ∈ ls -> l <> []) -> concat (take k ls) <> [].
Proof.
  intros Hk Hne Hl. destruct ls as [|l ls]; [done|]. destruct k as [|k]; [lia|]. simpl.
  intros [H _]%app_eq_nil. apply (Hl l); [by left|done].
Qed.

(** The window contains the whole header. *)
Lemma window_header max hdr rest :
  4 <= max -> header_ok max hdr -> max < utf8_len (hdr ++ rest) ->
  let limit := floor_chars max (hdr ++ rest) in
  exists body, take limit (hdr ++ rest) = hdr ++ body /\ rest = body ++ drop limit (hdr ++ rest) /\
    utf8_len (hdr ++ body) <= max < utf8_len (hdr ++ body) + 4.
Proof.
  intros Hmax Hh Hlen limit.
  pose proof (floor_chars_le max (hdr ++ rest)) as Hle. pose proof (floor_chars_ge max _ Hlen) as Hge.
  fold limit in Hle, Hge.
  assert (length hdr <= limit) as Hl.
  { destruct Hh as [->|(info & -> & _ & Hi)]; [simpl; lia|].
    destruct (Nat.le_gt_cases (length (reopen info)) limit); [done|].
    rewrite take_app_le in Hge by lia. pose proof (utf8_len_take limit (reopen info)).
    rewrite utf8_len_reopen in *. lia. }
  exists (take (limit - length hdr) rest). rewrite take_app_ge in * by done.
  rewrite drop_app_ge by done. rewrite take_drop. split; [done|]. split; [done|]. lia.
Qed.

Definition is_open (hdr : rstr) : bool := negb (is_empty hdr).

Lemma is_open_reopen info : is_open (reopen info) = true.
Proof. unfold reopen. by rewrite fence_mark_eq. Qed.

(** A balanced cut takes the header and some text, and ends outside fences. *)
Lemma window_cut max hdr body c :
  header_ok max hdr -> sc_cut (scan_window (hdr ++ body)) = Some c ->
  exists b1 b2, body = b1 ++ b2 /\ b1 <> [] /\ c = length (hdr ++ b1) /\
    take c (hdr ++ body) = hdr ++ b1 /\ ends_in_fence (hdr ++ b1) = false.
Proof.
  intros Hh Hc. unfold scan_window in Hc. set (ls := split_inclusive (hdr ++ body)) in *.
  destruct (scan_cut_spec _ _ _ Hc) as [H|(k & Hk & -> & Hf)]; [done|]. cbn [scan_start sc_pos sc_in_fence] in *.
  assert (concat ls = hdr ++ body) as Hls by apply split_inclusive_concat.
  assert (forall l, l ∈ ls -> l <> []) as Hne by (intros l; apply split_inclusive_nonempty).
  assert (split_inclusive (concat (take k ls)) = take k ls) as Htk by apply split_inclusive_take.
  assert (exists b1 b2, body = b1 ++ b2 /\ b1 <> [] /\ concat (take k ls) = hdr ++ b1) as (b1 & b2 & -> & Hb1 & He).
  { destruct Hh as [->|(info & -> & Hi & _)].
    - exists (concat (take k ls)), (concat (drop k ls)). rewrite <-concat_app, take_drop.
      split; [done|]. split; [|done]. apply concat_take_ne; [lia| |done]. intros E. rewrite E in Hk. simpl in Hk. lia.
    - subst ls. rewrite split_inclusive_reopen in * by done. destruct k as [|k]; [lia|].
      cbn [take concat length] in *. rewrite fence_after_cons, fence_reopen in Hf. destruct k as [|k]; [done|].
      exists (concat (take (S k) (split_inclusive body))), (concat (drop (S k) (split_inclusive body))).
      rewrite <-concat_app, take_drop, split_inclusive_concat. split; [done|]. split; [|done].
      apply concat_take_ne; [lia| |intros l Hl; apply Hne; by right].
      intros E. rewrite E in Hk. simpl in Hk. lia. }
  exists b1, b2. split; [done|]. split; [done|]. unfold ends_in_fence.
  rewrite Nat.add_0_l, He in *. rewrite Htk. split; [done|]. split; [|done].
  rewrite app_assoc. apply take_app_exact. done.
Qed.

(** Without one, the fence that opens the window is re-opened. *)
Lemma window_no_cut max hdr body :
  header_ok max hdr -> short_fences max body = true -> hdr ++ body <> [] ->
  sc_cut (scan_window (hdr ++ body)) = None ->
  header_ok max (reopen (sc_info (scan_window (hdr ++ body)))) /\ ends_in_fence (hdr ++ body) = true.
Proof.
  intros Hh Hs Hne Hc. unfold scan_window, ends_in_fence in *.
  destruct (split_inclusive (hdr ++ body)) as [|l ls] eqn:E.
  { exfalso. apply Hne. rewrite <-(split_inclusive_concat (hdr ++ body)), E. done. }
  destruct (scan_window_none l ls Hc) as [Hl Hf]. split; [|done].
  set (j := sc_info (fold_left scan_line (l :: ls) scan_start)) in *. clearbody j.
  right. eexists. split; [done|].
  destruct Hh as [->|(info & -> & Hi & Hlen)]; [by eapply fence_info_of_text|].
  rewrite split_inclusive_reopen in E by done. injection E as <- _.
  rewrite fence_reopen in Hl. injection Hl as <-.
  split; [intros H; by apply Hi, trim_elem_of|]. pose proof (utf8_len_trim info). lia.
Qed.

Lemma starts_with_prefix p a b : starts_with p a = true -> starts_with p (a ++ b) = true.
Proof. rewrite !starts_with_spec. intros [r ->]. exists (r ++ b). by rewrite app_assoc. Qed.

Lemma first_line_prefix a b : utf8_len (first_line a) <= utf8_len (first_line (a ++ b)).
Proof. induction a as [|c a IH]; simpl; [lia|]. destruct (c =? c_nl)%N; simpl; lia. Qed.

Lemma short_fences_prefix max a b : short_fences max (a ++ b) = true -> short_fences max a = true.
Proof.
  induction a as [|c a IH]; [done|]. cbn [app short_fences]. intros [H1 H2]%andb_true_iff.
  rewrite (IH H2), andb_true_r.
  destruct (starts_with (str "```") (c :: a)) eqn:E; [|done].
  change (c :: a ++ b) with ((c :: a) ++ b) in H1. rewrite (starts_with_prefix _ _ b E) in H1.
  apply starts_with_spec in E as [r E]. rewrite E, <-app_assoc in H1.
  rewrite E. rewrite fence_mark_eq in *. cbn [app drop] in *. rewrite !drop_0 in *.
  pose proof (first_line_prefix r b). lia.
Qed.

Lemma header_open max hdr s :
  header_ok max hdr ->
  (if is_open hdr then after_newline (hdr ++ s) else hdr ++ s) = s /\
  (is_open hdr = true -> starts_with (str "```") (hdr ++ s) = true).
Proof.
  intros [->|(info & -> & Hi & _)]; [done|].
  rewrite after_newline_reopen by done. 
  rewrite is_open_reopen. split; [done|].
  intros _. unfold reopen. rewrite <-!app_assoc. apply starts_with_app.
Qed.

(** Enough fuel: the chunks exist, fit, re-open their fences and carry the text. *)
Lemma chunk_run max : 4 <= max -> forall fuel hdr rest,
  header_ok max hdr -> short_fences max rest = true -> utf8_len (hdr ++ rest) < fuel ->
  exists chunks, chunk_fence_safe fuel (hdr ++ rest) max = Some chunks /\
    Forall (fun c => c <> [] /\ utf8_len c <= max) chunks /\
    reassemble (is_open hdr) chunks = rest /\ fences_reopened chunks = true /\
    (is_open hdr = true -> exists c r, chunks = c :: r /\ starts_with (str "```") c = true).
Proof.
  intros Hmax. induction fuel as [|fuel IH]; intros hdr rest Hh Hs Hlen; [lia|].
  destruct (header_open max hdr rest Hh) as [Hrest Hmark].
  cbn [chunk_fence_safe]. destruct (is_empty (hdr ++ rest)) eqn:Ee.
  { destruct (hdr ++ rest) eqn:E; [|done]. apply app_eq_nil in E as [-> ->].
    exists []. by repeat split. }
  destruct (Nat.leb_spec (utf8_len (hdr ++ rest)) max) as [Hfit|Hbig].
  { exists [hdr ++ rest]. split; [done|]. split; [|split; [|split; [done|]]].
    - apply Forall_singleton. split; [|done]. intros E. by rewrite E in Ee.
    - cbn [reassemble]. by rewrite Hrest, app_nil_r.
    - intros Ho. eauto. }
  destruct (window_header max hdr rest Hmax Hh Hbig) as (body & Hw & Hr & Hwlen).
  set (limit := floor_chars max (hdr ++ rest)) in *. rewrite Hw.
  assert (short_fences max body = true) as Hsb by (rewrite Hr in Hs; by eapply short_fences_prefix).
  assert (hdr ++ body <> []) as Hne by (intros E; rewrite E in Hwlen; simpl in Hwlen; lia).
  destruct (sc_cut (scan_window (hdr ++ body))) as [c|] eqn:Ec.
  - destruct (window_cut max hdr body c Hh Ec) as (b1 & b2 & -> & Hb1 & -> & Ht & Hend).
    assert (drop (length (hdr ++ b1)) (hdr ++ rest) = b2 ++ drop limit (hdr ++ rest)) as Hd.
    { rewrite Hr at 1. rewrite <-app_assoc, (app_assoc hdr). by apply drop_app_exact. }
    rewrite Ht, Hd. rewrite <-app_assoc in Hr.
    destruct (IH [] (b2 ++ drop limit (hdr ++ rest))) as (chunks & Hc & Hall & Hre & Hfr & _).
    + by left.
    + rewrite Hr in Hs. by eapply short_fences_suffix.
    + rewrite Hr in Hlen. cbn [app]. rewrite !utf8_len_app in *.
      destruct (utf8_len b1) eqn:E0; [by apply utf8_len_zero in E0|lia].
    + cbn [app] in Hc. rewrite Hc. eexists. split; [done|].
      destruct (header_open max hdr b1 Hh) as [Hb Hm].
      split; [|split; [|split]].
      * constructor; [|done]. split; [by destruct hdr; [destruct b1|]|].
        rewrite !utf8_len_app in *. lia.
      * cbn [reassemble]. rewrite Hb, Hend. cbn [is_open is_empty negb] in Hre. rewrite Hre. by symmetry.
      * cbn [fences_reopened]. rewrite Hend, Hfr. by destruct chunks.
      * intros Ho. eauto.
  - destruct (window_no_cut max hdr body Hh Hsb Hne Ec) as [Hh' Hend].
    set (info := sc_info (scan_window (hdr ++ body))) in *.
    destruct (IH (reopen info) (drop limit (hdr ++ rest))) as (chunks & Hc & Hall & Hre & Hfr & Hop).
    + done.
    + rewrite Hr in Hs. by eapply short_fences_suffix.
    + destruct Hh' as [E|(i & E & _ & Hi)]; [pose proof (is_open_reopen info) as Ho; by rewrite E in Ho|].
      assert (utf8_len (reopen info) = utf8_len (reopen i)) as Hl by (by rewrite E).
      rewrite !utf8_len_reopen in Hl. rewrite utf8_len_app, utf8_len_reopen.
      rewrite Hr in Hlen. rewrite app_assoc, (utf8_len_app (hdr ++ body)) in Hlen. lia.
    + rewrite Hc. eexists. split; [done|]. destruct (header_open max hdr body Hh) as [Hb Hm].
      split; [|split; [|split]].
      * constructor; [|done]. split; [done|]. lia.
      * cbn [reassemble]. rewrite Hb, Hend. rewrite is_open_reopen in Hre. by rewrite Hre.
      * cbn [fences_reopened]. rewrite Hend, Hfr. destruct Hop as (c & r & -> & ->); [apply is_open_reopen|done].
      * intros Ho. eauto.
Qed.

(** ** A fence line longer than the limit *)

Definition plain_char (c : rchar) : Prop := (c < 128)%N /\ is_whitespace c = false.

Lemma floor_chars_ascii (w tail : rstr) :
  Forall plain_char w -> floor_chars (length w) (w ++ tail) = length w.
Proof.
  induction 1 as [|c w [Hc _] _ IH].
  - destruct tail as [|c tail]; [done|]. simpl. pose proof (char_len_utf8_bounds c).
    destruct (Nat.leb_spec (char_len_utf8 c) 0); lia.
  - simpl. assert (char_len_utf8 c = 1) as -> by (unfold char_len_utf8; by apply N.ltb_lt in Hc as ->).
    simpl. by rewrite Nat.sub_0_r, IH.
Qed.

Lemma utf8_len_ascii w : Forall plain_char w -> utf8_len w = length w.
Proof.
  induction 1 as [|c w [Hc _] _ IH]; [done|]. simpl. rewrite IH.
  unfold char_len_utf8. by apply N.ltb_lt in Hc as ->.
Qed.

Lemma plain_no_nl w : Forall plain_char w -> c_nl ∉ w.
Proof. rewrite Forall_forall. intros H Hin. by destruct (H _ Hin). Qed.

Lemma plain_trim w : Forall plain_char w -> trim w = w.
Proof. rewrite Forall_forall. intros H. apply word_trim. intros c Hc. by apply H. Qed.

(** The loop comes back to the same window, with more text behind it. *)
Lemma chunk_stuck max raw fuel tail :
  Forall plain_char raw -> 3 + length raw = max -> tail <> [] ->
  chunk_fence_safe fuel (str "```" ++ raw ++ tail) max = None.
Proof.
  intros Hraw Hmax. revert tail; induction fuel as [|fuel IH]; intros tail Htail.
  { rewrite fence_mark_eq. done. }
  assert (Forall plain_char (str "```" ++ raw)) as Hw
    by (rewrite fence_mark_eq; repeat constructor; done).
  assert (length (str "```" ++ raw) = max) as Hl by (rewrite fence_mark_eq; simpl; lia).
  assert (is_empty (str "```" ++ raw ++ tail) = false) as He by (by rewrite fence_mark_eq).
  rewrite app_assoc in *. cbn [chunk_fence_safe]. rewrite He.
  assert ((utf8_len ((str "```" ++ raw) ++ tail) <=? max) = false) as ->.
  { rewrite utf8_len_app, utf8_len_ascii, Hl by done. pose proof (utf8_len_ge tail).
    destruct tail; [done|simpl in *]. apply Nat.leb_gt. lia. }
  assert (floor_chars max ((str "```" ++ raw) ++ tail) = max) as ->
    by (rewrite <-Hl; by apply floor_chars_ascii).
  rewrite (take_app_exact _ _ max), (drop_app_exact _ _ max) by done.
  assert (scan_window (str "```" ++ raw) = {| sc_cut := None; sc_in_fence := true; sc_info := raw;
    sc_pos := max |}) as ->.
  { unfold scan_window. rewrite split_inclusive_last; [|by rewrite fence_mark_eq|by apply plain_no_nl].
    cbn [fold_left]. unfold scan_line.
    assert (fence_line_info (str "```" ++ raw) = Some raw) as ->.
    { unfold fence_line_info. rewrite fence_mark_eq. cbn [app trim_start_char].
      change (96 =? c_space)%N with false. cbn iota.
      change (96%N :: 96%N :: 96%N :: raw) with ([96%N; 96%N; 96%N] ++ raw).
      rewrite strip_prefix_app. simpl. f_equal. by apply plain_trim. }
    cbn [sc_in_fence scan_start negb sc_cut sc_pos]. by rewrite Nat.add_0_l, Hl. }
  cbn [sc_cut sc_info]. unfold reopen. rewrite <-!app_assoc.
  rewrite IH; [done|]. by destruct tail.
Qed.

(** ** Telegram HTML *)

Definition c_tick : rchar := 96%N.

(** [replace(char, str)] *)
Definition replace_char (c : rchar) (t s : rstr) : rstr :=
  concat (map (fun x => if (x =? c)%N then t else [x]) s).

Definition escape_html (s : rstr) : rstr :=
  replace_char 62%N (str "&gt;")
    (replace_char 60%N (str "&lt;") (replace_char 38%N (str "&amp;") s)).

(** A leading bullet of a line, and the rest. *)
Definition bullet (line : rstr) : rstr * rstr :=
  match strip_prefix (str "- ") line with
  | Some r => (str "• ", r)
  | None => ([], line)
  end.

(** A code span opened at [i], and a bold span opened at [j], of [rest]: what is
    pushed to [out] up to the end, [next] being the rest of the loop.  The
    recursive call on the bold text starts with its own bullet test. *)
Definition code_span (next : rstr -> option rstr) (rest : rstr) (i : nat) : option rstr :=
  let after := drop (i + 1) rest in
  match find_char c_tick after with
  | Some j =>
      (fun t => escape_html (take i rest) ++ str "<code>" ++ escape_html (take j after)
                ++ str "</code>" ++ t) <$> next (drop (j + 1) after)
  | None => Some (escape_html (take i rest) ++ [c_tick] ++ escape_html after)
  end.

Definition bold_span (next : rstr -> option rstr) (rest : rstr) (j : nat) : option rstr :=
  let after := drop (j + 2) rest in
  match find_str (str "**") after with
  | Some k =>
      let '(pre, inner) := bullet (take k after) in
      match next inner, next (drop (k + 2) after) with
      | Some b, Some t =>
          Some (escape_html (take j rest) ++ str "<b>" ++ (pre ++ b) ++ str "</b>" ++ t)
      | _, _ => None
      end
  | None => Some (escape_html (take j rest) ++ str "**" ++ escape_html after)
  end.

(** The [while] loop of [telegram_inline]. *)
Fixpoint inline_loop (fuel : nat) (rest : rstr) : option rstr :=
  if is_empty rest then Some []
  else match fuel with
  | 0 => None
  | S f =>
      match find_char c_tick rest, find_str (str "**") rest with
      | None, None => Some (escape_html rest)
      | Some i, None => code_span (inline_loop f) rest i
      | Some i, Some j =>
          if i <? j then code_span (inline_loop f) rest i else bold_span (inline_loop f) rest j
      | None, Some j => bold_span (inline_loop f) rest j
      end
  end.

Definition telegram_inline (line : rstr) : option rstr :=
  let '(pre, rest) := bullet line in
  (fun t => pre ++ t) <$> inline_loop (S (length line)) rest.

Definition pre_open (info : rstr) : rstr :=
  if is_empty info then str "<pre><code>"
  else str "<pre><code class=" ++ [c_quote] ++ str "language-" ++ info ++ [c_quote] ++ str ">".

Definition pre_close : rstr := str "</code></pre>".

(** One line: what it pushes, and whether a fence is open after it. *)
Definition html_line (in_fence : bool) (line : rstr) : option (rstr * bool) :=
  match fence_line_info line with
  | Some info =>
      if in_fence then Some (pre_close ++ [c_nl], false) else Some (pre_open info, true)
  | None =>
      if in_fence then Some (escape_html line, true)
      else (fun t => (t, false)) <$> telegram_inline line
  end.

Fixpoint html_lines (in_fence : bool) (ls : list rstr) : option rstr :=
  match ls with
  | [] => Some (if in_fence then pre_close else [])
  | l :: r =>
      match html_line in_fence l with
      | Some (t, b) => (fun u => t ++ u) <$> html_lines b r
      | None => None
      end
  end.

Definition to_telegram_html (text : rstr) : option rstr := html_lines false (split_inclusive text).

(** ** What Telegram accepts

    Text in which every special character is an entity, and well-nested
    elements around such text. *)

Fixpoint safe_text (s : rstr) : bool :=
  match s with
  | [] => true
  | c :: r =>
      negb (c =? 60)%N && negb (c =? 62)%N
      && (if (c =? 38)%N then existsb (fun e => starts_with e r) [str "amp;"; str "lt;"; str "gt;"] else true)
      && safe_text r
  end.

Definition attr_safe (info : rstr) : bool :=
  forallb (fun c => negb (existsb (N.eqb c) [34; 38; 60; 62]%N)) info.

Inductive element : rstr -> rstr -> Prop :=
| el_b : element (str "<b>") (str "</b>")
| el_code : element (str "<code>") (str "</code>")
| el_pre info : attr_safe info = true -> element (pre_open info) pre_close.

Inductive markup : rstr -> Prop :=
| mk_nil : markup []
| mk_text s t : safe_text s = true -> markup t -> markup (s ++ t)
| mk_element o c b t : element o c -> markup b -> markup t -> markup (o ++ b ++ c ++ t).

#[local] Hint Constructors element markup : damon.

Lemma markup_app a b : markup a -> markup b -> markup (a ++ b).
Proof.
  intros Ha Hb. induction Ha as [|s t Hs _ IH|o c d t He Hd _ _ IH]; [done| |].
  - rewrite <-app_assoc. by constructor.
  - rewrite <-!app_assoc. by constructor.
Qed.

Lemma markup_safe s : safe_text s = true -> markup s.
Proof. intros H. rewrite <-(app_nil_r s). by repeat constructor. Qed.

Lemma safe_text_app a b : safe_text a = true -> safe_text b = true -> safe_text (a ++ b) = true.
Proof.
  intros Ha Hb. induction a as [|c a IH]; [done|]. cbn [app safe_text] in *.
  apply andb_true_iff in Ha as [Hc Ha]. rewrite (IH Ha), andb_true_r.
  apply andb_true_iff in Hc as [-> Hc]. rewrite andb_true_l. destruct (c =? 38)%N; [|done].
  apply existsb_elem in Hc as (e & He & Hp). apply existsb_elem. exists e.
  split; [done|by apply starts_with_prefix].
Qed.

Lemma replace_char_app c t a b : replace_char c t (a ++ b) = replace_char c t a ++ replace_char c t b.
Proof. unfold replace_char. by rewrite map_app, concat_app. Qed.

Lemma escape_html_app a b : escape_html (a ++ b) = escape_html a ++ escape_html b.
Proof. unfold escape_html. by rewrite !replace_char_app. Qed.

Lemma escape_html_safe s : safe_text (escape_html s) = true.
Proof.
  induction s as [|c s IH]; [done|]. change (c :: s) with ([c] ++ s). rewrite escape_html_app.
  apply safe_text_app; [|done]. clear. unfold escape_html, replace_char. cbn [map concat].
  destruct (N.eqb_spec c 38) as [->|H1]; [done|]. cbn [app map concat].
  destruct (N.eqb_spec c 60) as [->|H2]; [done|]. cbn [app map concat].
  destruct (N.eqb_spec c 62) as [->|H3]; [done|]. cbn [app safe_text].
  by rewrite (proj2 (N.eqb_neq _ _) H1), (proj2 (N.eqb_neq _ _) H2), (proj2 (N.eqb_neq _ _) H3).
Qed.

#[local] Hint Resolve markup_safe escape_html_safe markup_app : damon.

Lemma find_char_length c s i : find_char c s = Some i -> i < length s.
Proof.
  intros H. apply find_index_Some in H as (a & Ha & _ & _). by eapply lookup_lt_Some.
Qed.

Lemma find_str_length p s i : find_str p s = Some i -> i + length p <= length s.
Proof.
  revert i; induction s as [|c s IH]; intros i H; cbn [find_str] in H.
  - destruct (starts_with p []) eqn:E; [|done]. injection H as <-.
    apply starts_with_spec in E as [r E]. symmetry in E. apply app_eq_nil in E as [-> _]. done.
  - destruct (starts_with p (c :: s)) eqn:E.
    + injection H as <-. apply starts_with_spec in E as [r ->]. rewrite length_app. lia.
    + apply fmap_Some in H as (k & Hk & ->). specialize (IH k Hk). simpl. lia.
Qed.

Lemma bullet_spec line : markup (bullet line).1 /\ length (bullet line).2 <= length line.
Proof.
  unfold bullet. destruct (strip_prefix (str "- ") line) as [r|] eqn:E; simpl.
  - apply strip_prefix_spec in E as ->. rewrite length_app. split; [|lia]. by apply markup_safe.
  - split; [constructor|done].
Qed.

Lemma inline_element o c b t : element o c -> markup b -> markup t -> markup (o ++ b ++ c ++ t).
Proof. by constructor. Qed.

Lemma inline_loop_spec fuel rest :
  length rest < fuel -> exists t, inline_loop fuel rest = Some t /\ markup t.
Proof.
  revert rest; induction fuel as [|fuel IH]; intros rest Hlen; [lia|].
  cbn [inline_loop]. destruct (is_empty rest) eqn:Ee; [by exists []; split; [|constructor]|].
  assert (forall n, 0 < n -> exists t, inline_loop fuel (drop n rest) = Some t /\ markup t) as Hdrop.
  { intros n Hn. apply IH. rewrite length_drop. destruct rest; [done|]. simpl in *. lia. }
  assert (forall i, exists t, code_span (inline_loop fuel) rest i = Some t /\ markup t) as Hcode.
  { intros i. unfold code_span. destruct (find_char c_tick (drop (i + 1) rest)) as [j|].
    - rewrite drop_drop. destruct (Hdrop (i + 1 + (j + 1))) as (t & -> & Ht); [lia|]. eexists. split; [done|].
      apply mk_text; [apply escape_html_safe|]. apply inline_element; auto with damon.
    - eexists. split; [done|]. apply mk_text; [apply escape_html_safe|].
      by apply (mk_text [c_tick]); [|apply markup_safe, escape_html_safe]. }
  assert (forall j, exists t, bold_span (inline_loop fuel) rest j = Some t /\ markup t) as Hbold.
  { intros j. unfold bold_span. destruct (find_str (str "**") (drop (j + 2) rest)) as [k|] eqn:Ek.
    - apply find_str_length in Ek.
      destruct (bullet (take k (drop (j + 2) rest))) as [pre inner] eqn:Eb.
      destruct (bullet_spec (take k (drop (j + 2) rest))) as [Hpre Hin]. rewrite Eb in *. cbn [fst snd] in *.
      rewrite length_take, length_drop in Hin. change (length (str "**")) with 2 in Ek. rewrite length_drop in Ek.
      destruct (IH inner) as (b & -> & Hb); [lia|]. rewrite drop_drop.
      destruct (Hdrop (j + 2 + (k + 2))) as (t & -> & Ht); [lia|]. eexists. split; [done|].
      apply mk_text; [apply escape_html_safe|]. apply inline_element; auto with damon.
    - eexists. split; [done|]. apply mk_text; [apply escape_html_safe|].
      apply mk_text; [done|]. apply markup_safe, escape_html_safe. }
  destruct (find_char c_tick rest) as [i|], (find_str (str "**") rest) as [j|]; auto.
  - destruct (i <? j); auto.
  - eexists. split; [done|]. apply markup_safe, escape_html_safe.
Qed.

Lemma telegram_inline_spec line : exists t, telegram_inline line = Some t /\ markup t.
Proof.
  unfold telegram_inline. destruct (bullet_spec line) as [Hp Hl]. destruct (bullet line) as [pre rest].
  cbn [fst snd] in *. destruct (inline_loop_spec (S (length line)) rest) as (t & -> & Ht); [lia|].
  eexists. split; [done|]. by apply markup_app.
Qed.

(** Outside a fence the output is well formed; inside one it is escaped text up
    to the closing tag, then well formed. *)
Lemma html_lines_spec ls :
  (forall l info, l ∈ ls -> fence_line_info l = Some info -> attr_safe info = true) ->
  (exists t, html_lines false ls = Some t /\ markup t) /\
  (exists s t, html_lines true ls = Some (s ++ pre_close ++ t) /\ safe_text s = true /\ markup t).
Proof.
  induction ls as [|l ls IH]; intros Hsafe.
  { split; [exists []; split; [done|constructor]|]. exists [], []. rewrite app_nil_r. repeat split; constructor. }
  destruct IH as [(t0 & H0 & Ht0) (s1 & t1 & H1 & Hs1 & Ht1)].
  { intros l' info Hl. apply Hsafe. by right. }
  cbn [html_lines]. unfold html_line. destruct (fence_line_info l) as [info|] eqn:E.
  - rewrite H0, H1. split.
    + eexists. split; [done|]. apply inline_element; [|by apply markup_safe|done].
      constructor. eapply Hsafe; [by left|done].
    + exists [], ([c_nl] ++ t0). split; [|split; [done|by apply mk_text]].
      cbn [app fmap option_fmap option_map]. by rewrite <-app_assoc.
  - destruct (telegram_inline_spec l) as (u & -> & Hu). cbn [fmap option_fmap option_map].
    rewrite H0, H1. split.
    + eexists. split; [done|]. by apply markup_app.
    + exists (escape_html l ++ s1), t1. split; [cbn [fmap option_fmap option_map]; by rewrite <-app_assoc|]. split; [|done].
      apply safe_text_app; [apply escape_html_safe|done].
Qed.

(** ** Permission prompts *)

(** [to_lowercase]: the ASCII letters, and the two other characters whose lower
    case contains an ASCII letter (the dotted capital i and the Kelvin sign);
    every further letter stays outside the words the bridge looks for. *)
Definition to_lowercase (s : rstr) : rstr :=
  concat (map (fun c =>
    if (c =? 304)%N then [105; 775]%N else if (c =? 8490)%N then [107%N] else [to_ascii_lowercase c]) s).

Definition behavior_is (b : string) (a : json) : bool :=
  match as_str a.["behavior"] with Some s => str_eqb s (str b) | None => false end.

Definition action_is_allow (a : json) : bool := behavior_is "allow" a.

Definition action_is_scoped (a : json) : bool :=
  let id := to_lowercase (default [] (as_str a.["id"])) in
  let label := to_lowercase (default [] (as_str a.["label"])) in
  contains (str "always") id || contains (str "session") id
  || contains (str "always") label || contains (str "session") label.

(** [Option::or_else] *)
Definition or_else {A} (a b : option A) : option A := match a with Some _ => a | None => b end.

Definition scoped_allow (a : json) : bool := action_is_allow a && action_is_scoped a.

Record PermissionChoice := { word : rstr; label : rstr }.

Definition choice_label (a : option json) (fallback : string) : rstr :=
  default (str fallback) (a ≫= fun a => as_str a.["label"]).

Definition permission_choices (actions : list json) : list PermissionChoice :=
  let allow := or_else (find_first (fun a => action_is_allow a && negb (action_is_scoped a)) actions)
                       (find_first action_is_allow actions) in
  let always := find_first scoped_allow actions in
  let deny := find_first (behavior_is "deny") actions in
  {| word := str "allow"; label := choice_label allow "Allow" |}
  :: match always with
     | Some _ => [{| word := str "always"; label := choice_label always "Always allow" |}]
     | None => []
     end
  ++ [{| word := str "deny"; label := choice_label deny "Deny" |}].

Definition permission_prompt_text (title : rstr) (actions : list json) : rstr :=
  let hint := if existsb scoped_allow actions then str "reply 'allow', 'always', or 'deny'"
              else str "reply 'allow' or 'deny'" in
  str "🔐 " ++ title ++ [c_nl] ++ hint.

(** [action_id] of a response: the id of the chosen action, or [null]. *)
Definition action_id (a : option json) : json :=
  match a ≫= fun a => as_str a.["id"] with Some i => JStr i | None => JNull end.

Definition deny_response (a : option json) : json :=
  JObj [(str "behavior", jstr "deny"); (str "action_id", action_id a);
        (str "message", jstr "denied by user"); (str "interrupt", JBool false)].

Definition allow_response (a : option json) : json :=
  JObj [(str "behavior", jstr "allow"); (str "action_id", action_id a)].

Definition permission_response_for (reply : rstr) (actions : list json) : json :=
  if str_eqb reply (str "deny") then deny_response (find_first (behavior_is "deny") actions)
  else
    allow_response (or_else
      (find_first (fun a => action_is_allow a && (negb (str_eqb reply (str "always")) || action_is_scoped a)) actions)
      (find_first action_is_allow actions)).

Definition option_letter (i : nat) : rchar := (97 + N.of_nat (Nat.min i 25))%N.

Definition option_labels (questions : list json) : list rstr :=
  match head questions ≫= fun q => as_array q.["options"] with
  | Some arr => omap (fun o => as_str o.["label"]) arr
  | None => []
  end.

Definition question_prompt_text (title : rstr) (questions : list json) : rstr :=
  if 1 <? length questions then
    str "❓ " ++ title ++ str " (" ++ dec (N.of_nat (length questions)) ++ str " questions)" ++ [c_nl]
    ++ str "answer in the web UI, or reply !skip"
  else
    match option_labels questions with
    | [] => str "❓ " ++ title ++ [c_nl] ++ str "reply with your answer"
    | opts =>
        str "❓ " ++ title ++ [c_nl]
        ++ join (str "  ") (imap (fun i o => option_letter i :: str ") " ++ o) opts) ++ [c_nl]
        ++ str "reply an option, its letter, or your own answer"
    end.

(** The label a one-byte reply picks. *)
Definition letter_option (reply : rstr) (questions : list json) : option rstr :=
  if utf8_len reply =? 1 then
    let c := default 63%N (head reply) in
    option_labels questions !! default (length (option_labels questions))
      (find_index (fun i => option_letter i =? c)%N (seq 0 (length (option_labels questions))))
  else None.

Definition question_aware_response_for (reply : rstr) (actions questions : list json) : json :=
  if str_eqb reply (str "skip") then JObj [(str "behavior", jstr "allow")]
  else if str_eqb reply (str "allow") || str_eqb reply (str "always") || str_eqb reply (str "deny")
  then permission_response_for reply actions
  else
    let answer := default reply (letter_option reply questions) in
    match questions with
    | [q] => JObj [(str "behavior", jstr "allow");
                   (str "answers", JObj [(default [] (as_str q.["question"]), JStr answer)])]
    | _ => permission_response_for (str "allow") actions
    end.

(** [while end < len && !is_char_boundary(end)]: the shortest prefix of at
    least [n] bytes, in characters. *)
Fixpoint ceil_chars (n : nat) (s : rstr) : nat :=
  match s with
  | [] => 0
  | c :: r => if n =? 0 then 0 else S (ceil_chars (n - char_len_utf8 c) r)
  end.

Definition plan_preview (input : json) : option rstr :=
  match get input (str "plan") ≫= as_str with
  | None => None
  | Some p =>
      let plan := trim p in
      if is_empty plan then None
      else
        let n := ceil_chars (Nat.min (utf8_len plan) 600) plan in
        Some (if n <? length plan
              then take n plan ++ [c_nl] ++ str "… (truncated — full plan on a richer surface)"
              else plan)
  end.

(** ** Facts about the answers *)

Lemma find_first_ext {A} (p q : A -> bool) l : (forall a, p a = q a) -> find_first p l = find_first q l.
Proof. intros H. unfold find_first. f_equal. by apply List.filter_ext. Qed.

Lemma find_first_refine {A} (p q : A -> bool) l a :
  find_first p l = Some a -> q a = true -> find_first (fun x => p x && q x) l = Some a.
Proof.
  induction l as [|x l IH]; [done|]. rewrite !find_first_cons. intros H Hq.
  destruct (p x) eqn:E; simpl; [|auto]. injection H as ->. by rewrite Hq.
Qed.

Lemma find_first_none {A} (p : A -> bool) l : (forall a, a ∈ l -> p a = false) -> find_first p l = None.
Proof.
  intros H. destruct (find_first p l) as [a|] eqn:E; [|done].
  apply find_first_Some in E as [Ha Hp]. rewrite H in Hp; done.
Qed.

(** The agent lists a one-time allow before the scoped ones, or none at all. *)
Definition one_time_first (actions : list json) : Prop :=
  forall a, find_first action_is_allow actions = Some a -> action_is_scoped a = true ->
  forall b, b ∈ actions -> action_is_allow b = true -> action_is_scoped b = true.

Lemma allow_source actions :
  one_time_first actions ->
  or_else (find_first (fun a => action_is_allow a && negb (action_is_scoped a)) actions)
          (find_first action_is_allow actions) = find_first action_is_allow actions.
Proof.
  intros H. destruct (find_first action_is_allow actions) as [a|] eqn:E.
  - destruct (action_is_scoped a) eqn:Es.
    + rewrite find_first_none; [done|]. intros b Hb. destruct (action_is_allow b) eqn:Eb; [|done].
      by rewrite (H a E Es b Hb Eb).
    + rewrite (find_first_refine action_is_allow (fun a => negb (action_is_scoped a)) actions a E);
        [done|by rewrite Es].
  - rewrite find_first_none; [done|]. intros b Hb.
    by rewrite (find_first_None _ _ E b Hb).
Qed.

Lemma allow_answer actions :
  permission_response_for (str "allow") actions = allow_response (find_first action_is_allow actions).
Proof.
  unfold permission_response_for. change (str_eqb (str "allow") (str "deny")) with false.
  change (str_eqb (str "allow") (str "always")) with false. cbn iota. cbn [negb orb]. f_equal.
  rewrite (find_first_ext _ action_is_allow) by (intros; apply andb_true_r).
  by destruct (find_first _ _).
Qed.

Lemma always_answer actions a :
  find_first scoped_allow actions = Some a ->
  permission_response_for (str "always") actions = allow_response (Some a).
Proof.
  intros H. unfold permission_response_for. change (str_eqb (str "always") (str "deny")) with false.
  change (str_eqb (str "always") (str "always")) with true. cbn iota. cbn [negb orb].
  rewrite (find_first_ext _ scoped_allow) by done. by rewrite H.
Qed.

(** ** Properties *)

(** A reply whose fence marks are followed by little enough text on their
    line is chunked in finitely many rounds; every chunk is non-empty and fits
    the channel's limit, a chunk that ends inside a fence is followed by one
    that re-opens it, and the chunks, less the re-opened headers, are the
    reply. *)
Theorem chunk_fence_safe_spec (text : rstr) (max : nat) :
  4 <= max -> short_fences max text = true ->
  exists chunks, chunk_fence_safe (S (utf8_len text)) text max = Some chunks /\
    Forall (fun c => c <> [] /\ utf8_len c <= max) chunks /\
    fences_reopened chunks = true /\ reassemble false chunks = text.
Proof.
  intros Hmax Hs.
  destruct (chunk_run max Hmax (S (utf8_len text)) [] text) as (chunks & Hc & Hall & Hre & Hfr & _);
    [by left|done|cbn [app]; lia|]. exists chunks. done.
Qed.

(** A line that starts with a fence mark and goes on for the rest of the limit
    without a blank makes the loop re-open the same fence for ever. *)
Theorem chunk_fence_diverges (raw tail : rstr) (max fuel : nat) :
  Forall plain_char raw -> 3 + length raw = max -> tail <> [] ->
  chunk_fence_safe fuel (str "```" ++ raw ++ tail) max = None.
Proof. apply chunk_stuck. Qed.

(** Outside a fence the cut may fall inside a line, also inside a fence mark:
    the next chunk then takes the closing fence for an opening one. *)
Theorem chunk_splits_fence_mark :
  let text := str "seventeen letters" ++ [c_nl] ++ str "```rust" ++ [c_nl] ++ str "code" ++ [c_nl]
              ++ str "```" ++ [c_nl] in
  exists a b, chunk_fence_safe (S (utf8_len text)) text 20 = Some [a; b] /\
    ends_in_fence text = false /\ ends_in_fence a = false /\ ends_in_fence b = true.
Proof. eexists _, _. split; [vm_compute; reflexivity|]. by vm_compute. Qed.

(** The Telegram conversion always ends, and when the info strings of the
    fences hold no special character its output is well-formed: every
    character outside the tags is escaped and the tags nest. *)
Theorem telegram_html_wellformed (text : rstr) :
  (forall l info, l ∈ split_inclusive text -> fence_line_info l = Some info -> attr_safe info = true) ->
  exists html, to_telegram_html text = Some html /\ markup html.
Proof. intros H. by apply html_lines_spec. Qed.

(** The info string is not escaped: a fence line can close the tag it is
    written into and open others. *)
Theorem fence_info_not_escaped :
  to_telegram_html (str "```" ++ [c_quote] ++ str "></code><a href=x>" ++ [c_nl])
  = Some (str "<pre><code class=" ++ [c_quote] ++ str "language-" ++ [c_quote] ++ str "></code><a href=x>"
          ++ [c_quote] ++ str "></code></pre>").
Proof. vm_compute. reflexivity. Qed.

(** The choices shown, the hint and the answers agree: 'always' is offered
    exactly when an action grants it; and the reply to a choice carries the id
    of the very action whose label was shown, a denying one for 'deny', a
    scoped allowing one for 'always', and an allowing one for 'allow', provided
    the agent lists a one-time allow first or not at all. *)
Theorem permission_choices_agree (title : rstr) (actions : list json) :
  let always := existsb scoped_allow actions in
  map word (permission_choices actions)
    = str "allow" :: (if always then [str "always"] else []) ++ [str "deny"] /\
  permission_prompt_text title actions
    = str "🔐 " ++ title ++ [c_nl]
      ++ (if always then str "reply 'allow', 'always', or 'deny'" else str "reply 'allow' or 'deny'") /\
  (forall c, c ∈ permission_choices actions -> (word c = str "allow" -> one_time_first actions) ->
     exists src fallback, label c = choice_label src fallback /\
       (forall a, src = Some a -> a ∈ actions) /\
       ((word c = str "deny" /\ permission_response_for (word c) actions = deny_response src /\
         forall a, src = Some a -> behavior_is "deny" a = true) \/
        (permission_response_for (word c) actions = allow_response src /\
         forall a, src = Some a -> action_is_allow a = true /\
           (word c = str "always" -> action_is_scoped a = true)))).
Proof.
  cbv zeta. split; [|split; [done|]].
  - unfold permission_choices. destruct (find_first scoped_allow actions) as [a|] eqn:E.
    + assert (existsb scoped_allow actions = true) as -> by (apply existsb_elem; apply find_first_Some in E; eauto).
      done.
    + assert (existsb scoped_allow actions = false) as ->; [|done].
      apply existsb_elem_false. by apply find_first_None.
  - intros c Hc Hallow. unfold permission_choices in Hc.
    apply elem_of_cons in Hc as [->|Hc]; [|apply elem_of_app in Hc as [Hc|Hc]].
    + specialize (Hallow eq_refl). cbn [word label]. rewrite allow_source by done.
      eexists _, _. split; [reflexivity|]. rewrite allow_answer.
      split; [by intros a [H _]%find_first_Some|]. right. split; [done|].
      intros a Ha. apply find_first_Some in Ha as [_ Ha]. split; [done|]. by intros H%(f_equal length).
    + destruct (find_first scoped_allow actions) as [a|] eqn:E; [|by apply not_elem_of_nil in Hc].
      apply list_elem_of_singleton in Hc as ->. cbn [word label]. eexists _, _. split; [reflexivity|].
      rewrite (always_answer actions a E). apply find_first_Some in E as [Hin Ha].
      apply andb_true_iff in Ha as [Ha Hs].
      split; [by intros b [= <-]|]. right. split; [done|]. by intros b [= <-].
    + apply list_elem_of_singleton in Hc as ->. cbn [word label]. eexists _, _. split; [reflexivity|].
      split; [by intros a [H _]%find_first_Some|]. left. split; [done|]. split; [done|].
      by intros a [_ H]%find_first_Some.
Qed.

(** A scoped action listed first is what the plain 'allow' grants, although the
    choice shows the label of the one-time action. *)
Theorem allow_may_grant_always :
  exists actions, map label (permission_choices actions) = [str "Once"; str "Always"; str "Deny"] /\
    permission_response_for (str "allow") actions
    = JObj [(str "behavior", jstr "allow"); (str "action_id", jstr "always")].
Proof.
  exists [JObj [(str "id", jstr "always"); (str "label", jstr "Always"); (str "behavior", jstr "allow")];
          JObj [(str "id", jstr "once"); (str "label", jstr "Once"); (str "behavior", jstr "allow")]].
  split; vm_compute; reflexivity.
Qed.

(** ** Witnesses *)

Definition demo_reply : rstr :=
  str "Here is the code:" ++ [c_nl] ++ str "```rust" ++ [c_nl] ++ str "fn main() {}" ++ [c_nl]
  ++ str "let x = 1;" ++ [c_nl] ++ str "```" ++ [c_nl] ++ str "done".

Lemma chunk_fence_safe_spec_witness :
  short_fences 24 demo_reply = true /\
  exists chunks, chunk_fence_safe (S (utf8_len demo_reply)) demo_reply 24 = Some chunks /\
    reassemble false chunks = demo_reply.
Proof.
  split; [vm_compute; reflexivity|].
  destruct (chunk_fence_safe_spec demo_reply 24) as (chunks & Hc & _ & _ & Hr);
    [lia|vm_compute; reflexivity|]. by exists chunks.
Defined.

Lemma telegram_html_wellformed_witness :
  exists html, to_telegram_html demo_reply = Some html /\ markup html.
Proof.
  apply telegram_html_wellformed. intros l info Hl Hi.
  assert (Forall (fun l => match fence_line_info l with Some i => attr_safe i = true | None => True end)
            (split_inclusive demo_reply)) as H by (vm_compute; repeat constructor).
  rewrite Forall_forall in H. specialize (H l Hl). by rewrite Hi in H.
Defined.
