(* ===== verification/Bridge.v ===== *)
(** * Bridge: chat conversations driving sessions ([channel.rs])

    The generic channel bridge: one turn lane with a bounded queue per
    conversation, pending permission asks and who may answer them, the watch
    registry, the conversation's session mapping and preferences, and the
    [!] commands that change them.  The lanes and the asks are step relations:
    messages, turns, events and timeouts interleave.  What the daemon answers
    to a request is a field of [daemon]; the texts delivered to the chat are
    values of [notice]. *)

From S2P Require Import Prelude Str Json ChatText.

(** ** Data *)

Inductive Attachment :=
| TelegramFile (file_id : rstr)
| Bytes (data : list N) (mime : rstr)
| Url (url : rstr) (bearer : option rstr).

Record Incoming := {
  in_chat : rstr; in_thread : option rstr; in_sender : option rstr;
  in_text : rstr; in_attachments : list Attachment
}.

(** Chat and thread make the conversation. *)
Definition conv_id (m : Incoming) : rstr :=
  match in_thread m with
  | Some t => in_chat m ++ str "#" ++ t
  | None => in_chat m
  end.

Record QueuedPrompt := {
  q_conv : rstr; q_chat : rstr; q_thread : option rstr; q_sender : option rstr;
  q_text : rstr; q_attachments : list Attachment
}.

Definition prompt_of (m : Incoming) : QueuedPrompt := {|
  q_conv := conv_id m; q_chat := in_chat m; q_thread := in_thread m; q_sender := in_sender m;
  q_text := in_text m; q_attachments := in_attachments m |}.

(** ** Turn lanes *)

Record TurnLane := { ln_live : bool; ln_queue : list QueuedPrompt }.

Definition MAX_QUEUED_PROMPTS : nat := 3.

Inductive LaneAction := Start (p : QueuedPrompt) | Queued (n : nat) | Full.

Definition default_lane : TurnLane := {| ln_live := false; ln_queue := [] |}.

Definition lane_offer (lanes : gmap rstr TurnLane) (p : QueuedPrompt) : gmap rstr TurnLane * LaneAction :=
  let lane := default default_lane (lanes !! q_conv p) in
  if negb (ln_live lane) then
    (<[q_conv p := {| ln_live := true; ln_queue := ln_queue lane |}]> lanes, Start p)
  else if length (ln_queue lane) <? MAX_QUEUED_PROMPTS then
    let queue := ln_queue lane ++ [p] in
    (<[q_conv p := {| ln_live := ln_live lane; ln_queue := queue |}]> lanes, Queued (length queue))
  else (<[q_conv p := lane]> lanes, Full).

(** The end of a turn: the lane goes to the next prompt, or away. *)
Definition turn_finished (lanes : gmap rstr TurnLane) (conv : rstr)
  : gmap rstr TurnLane * option QueuedPrompt :=
  match lanes !! conv with
  | Some {| ln_queue := p :: queue |} => (<[conv := {| ln_live := true; ln_queue := queue |}]> lanes, Some p)
  | _ => (delete conv lanes, None)
  end.

(** The lane part of [!cancel]: what waited is dropped. *)
Definition clear_queue (lanes : gmap rstr TurnLane) (conv : rstr) : gmap rstr TurnLane * list QueuedPrompt :=
  match lanes !! conv with
  | Some lane => (<[conv := {| ln_live := ln_live lane; ln_queue := [] |}]> lanes, ln_queue lane)
  | None => (lanes, [])
  end.

(** Prompts, the turns running and what happened to whom so far. *)
Inductive lane_event := Accepted (p : QueuedPrompt) | Started (p : QueuedPrompt) | Dropped (p : QueuedPrompt).

Record lane_state := {
  l_lanes : gmap rstr TurnLane; l_running : list QueuedPrompt; l_log : list lane_event
}.

Definition lane_start : lane_state := {| l_lanes := ∅; l_running := []; l_log := [] |}.

(** A prompt arrives, a turn ends (its guard runs [turn_finished] however the
    turn ended), a conversation is cancelled. *)
Inductive lane_step : lane_state -> lane_state -> Prop :=
| ls_start lanes lanes' run log p :
    lane_offer lanes p = (lanes', Start p) ->
    lane_step {| l_lanes := lanes; l_running := run; l_log := log |}
      {| l_lanes := lanes'; l_running := run ++ [p]; l_log := log ++ [Accepted p; Started p] |}
| ls_queue lanes lanes' run log p n :
    lane_offer lanes p = (lanes', Queued n) ->
    lane_step {| l_lanes := lanes; l_running := run; l_log := log |}
      {| l_lanes := lanes'; l_running := run; l_log := log ++ [Accepted p] |}
| ls_full lanes lanes' run log p :
    lane_offer lanes p = (lanes', Full) ->
    lane_step {| l_lanes := lanes; l_running := run; l_log := log |}
      {| l_lanes := lanes'; l_running := run; l_log := log |}
| ls_finish lanes lanes' r1 p r2 log next :
    turn_finished lanes (q_conv p) = (lanes', next) ->
    lane_step {| l_lanes := lanes; l_running := r1 ++ p :: r2; l_log := log |}
      {| l_lanes := lanes'; l_running := r1 ++ r2 ++ option_list next;
         l_log := log ++ map Started (option_list next) |}
| ls_cancel lanes lanes' run log conv dropped :
    clear_queue lanes conv = (lanes', dropped) ->
    lane_step {| l_lanes := lanes; l_running := run; l_log := log |}
      {| l_lanes := lanes'; l_running := run; l_log := log ++ map Dropped dropped |}.

(** ** Facts about the lanes *)

#[export] Instance Attachment_eq_dec : EqDecision Attachment.
Proof. solve_decision. Defined.

#[export] Instance QueuedPrompt_eq_dec : EqDecision QueuedPrompt.
Proof. solve_decision. Defined.

Definition of_conv (conv : rstr) (p : QueuedPrompt) : bool := str_eqb (q_conv p) conv.

(** The log of one conversation read as a first-in first-out queue: [None] when
    a prompt starts or is dropped out of turn. *)
Definition fifo_event (conv : rstr) (q : option (list QueuedPrompt)) (e : lane_event)
  : option (list QueuedPrompt) :=
  match q with
  | None => None
  | Some q =>
      match e with
      | Accepted p => Some (if of_conv conv p then q ++ [p] else q)
      | Started p | Dropped p =>
          if of_conv conv p then
            match q with
            | x :: r => if decide (x = p) then Some r else None
            | [] => None
            end
          else Some q
      end
  end.

Definition fifo (conv : rstr) (log : list lane_event) : option (list QueuedPrompt) :=
  fold_left (fifo_event conv) log (Some []).

Definition waiting (lanes : gmap rstr TurnLane) (conv : rstr) : list QueuedPrompt :=
  ln_queue (default default_lane (lanes !! conv)).

Record lane_inv (s : lane_state) : Prop := {
  li_live conv l : l_lanes s !! conv = Some l -> ln_live l = true /\ length (ln_queue l) <= MAX_QUEUED_PROMPTS;
  li_conv conv p : p ∈ waiting (l_lanes s) conv -> q_conv p = conv;
  li_running conv : count (of_conv conv) (l_running s) = if l_lanes s !! conv is Some _ then 1 else 0;
  li_fifo conv : fifo conv (l_log s) = Some (waiting (l_lanes s) conv)
}.

Lemma of_conv_true conv p : of_conv conv p = true <-> q_conv p = conv.
Proof. apply str_eqb_eq. Qed.

Lemma of_conv_self p : of_conv (q_conv p) p = true.
Proof. apply str_eqb_refl. Qed.

Lemma of_conv_other conv p : conv <> q_conv p -> of_conv conv p = false.
Proof. intros H. by apply str_eqb_neq. Qed.

Lemma fifo_app conv log l : fifo conv (log ++ l) = fold_left (fifo_event conv) l (fifo conv log).
Proof. apply fold_left_app. Qed.

Lemma fifo_drop_all conv q :
  (forall p, p ∈ q -> q_conv p = conv) ->
  fold_left (fifo_event conv) (map Dropped q) (Some q) = Some [].
Proof.
  induction q as [|p q IH]; intros H; [done|]. cbn [map fold_left fifo_event].
  rewrite (proj2 (of_conv_true conv p)) by (apply H; by left).
  rewrite decide_True by done. apply IH. intros; apply H; by right.
Qed.

Lemma fifo_drop_other conv q l :
  (forall p, p ∈ l -> q_conv p <> conv) -> fold_left (fifo_event conv) (map Dropped l) (Some q) = Some q.
Proof.
  induction l as [|p l IH]; intros H; [done|]. cbn [map fold_left fifo_event].
  rewrite of_conv_other by (apply not_eq_sym, H; by left). apply IH. intros; apply H; by right.
Qed.

Lemma waiting_insert lanes conv l : waiting (<[conv := l]> lanes) conv = ln_queue l.
Proof. unfold waiting. by rewrite lookup_insert_eq. Qed.

Lemma waiting_insert_ne lanes conv conv' l : conv <> conv' -> waiting (<[conv := l]> lanes) conv' = waiting lanes conv'.
Proof. intros H. unfold waiting. by rewrite lookup_insert_ne. Qed.

Lemma waiting_delete lanes conv : waiting (delete conv lanes) conv = [].
Proof. unfold waiting. by rewrite lookup_delete_eq. Qed.

Lemma waiting_delete_ne lanes conv conv' : conv <> conv' -> waiting (delete conv lanes) conv' = waiting lanes conv'.
Proof. intros H. unfold waiting. by rewrite lookup_delete_ne. Qed.

Lemma lane_step_start lanes lanes' run log p :
  lane_offer lanes p = (lanes', Start p) ->
  lane_inv {| l_lanes := lanes; l_running := run; l_log := log |} ->
  lane_inv {| l_lanes := lanes'; l_running := run ++ [p]; l_log := log ++ [Accepted p; Started p] |}.
Proof.
  intros H [Hl Hc Hr Hf]. cbn [l_lanes l_running l_log] in *. unfold lane_offer in H.
  destruct (lanes !! q_conv p) as [l|] eqn:E.
  { destruct (Hl _ _ E) as [Hlive _]. simpl in H. rewrite Hlive in H. cbn [negb] in H. by destruct (_ <? _). }
  injection H as <-. split; cbn [l_lanes l_running l_log].
  - intros conv l. destruct (decide (q_conv p = conv)) as [<-|Hne].
    + rewrite lookup_insert_eq. intros [= <-]. simpl. split; [done|unfold MAX_QUEUED_PROMPTS; lia].
    + rewrite lookup_insert_ne by done. apply Hl.
  - intros conv x. destruct (decide (q_conv p = conv)) as [<-|Hne].
    + rewrite waiting_insert. intros Hx. by apply not_elem_of_nil in Hx.
    + rewrite waiting_insert_ne by done. apply Hc.
  - intros conv. rewrite count_app, Hr. unfold count at 1. simpl.
    destruct (decide (q_conv p = conv)) as [<-|Hne].
    + rewrite of_conv_self, E, lookup_insert_eq. done.
    + rewrite of_conv_other, lookup_insert_ne by done. simpl. lia.
  - intros conv. rewrite fifo_app, Hf. cbn [fold_left fifo_event].
    destruct (decide (q_conv p = conv)) as [<-|Hne].
    + rewrite of_conv_self, waiting_insert. unfold waiting. rewrite E. simpl. by rewrite decide_True.
    + rewrite of_conv_other, waiting_insert_ne by done. done.
Qed.

(** A lane that is not free is the stored one. *)
Lemma lane_offer_busy lanes p lanes' a :
  (forall l, lanes !! q_conv p = Some l -> ln_live l = true) ->
  lane_offer lanes p = (lanes', a) -> (forall x, a <> Start x) ->
  exists l, lanes !! q_conv p = Some l /\ ln_live l = true /\
    ((a = Full /\ lanes' = lanes) \/
     (length (ln_queue l) < MAX_QUEUED_PROMPTS /\ a = Queued (S (length (ln_queue l))) /\
      lanes' = <[q_conv p := {| ln_live := true; ln_queue := ln_queue l ++ [p] |}]> lanes)).
Proof.
  intros Hl H Ha. unfold lane_offer in H. destruct (lanes !! q_conv p) as [l|] eqn:E.
  - specialize (Hl l eq_refl). exists l. split; [done|]. split; [done|]. simpl in H. rewrite Hl in H.
    cbn [negb] in H. destruct (Nat.ltb_spec (length (ln_queue l)) MAX_QUEUED_PROMPTS).
    + injection H as <- <-. right. split; [done|]. split; [|done]. rewrite length_app. simpl. f_equal. lia.
    + injection H as <- <-. left. split; [done|]. by apply insert_id.
  - simpl in H. injection H as <- <-. by destruct (Ha p).
Qed.

Lemma lane_step_queue lanes lanes' run log p n :
  lane_offer lanes p = (lanes', Queued n) ->
  lane_inv {| l_lanes := lanes; l_running := run; l_log := log |} ->
  lane_inv {| l_lanes := lanes'; l_running := run; l_log := log ++ [Accepted p] |}.
Proof.
  intros H [Hl Hc Hr Hf]. cbn [l_lanes l_running l_log] in *.
  destruct (lane_offer_busy lanes p lanes' (Queued n)) as (l & E & Hlive & [[? _]|(Hlen & _ & ->)]);
    [intros l E; by apply (Hl (q_conv p))|done|done|done|].
  split; cbn [l_lanes l_running l_log].
  - intros conv l'. destruct (decide (q_conv p = conv)) as [<-|Hne].
    + rewrite lookup_insert_eq. intros [= <-]. simpl. rewrite length_app. simpl. split; [done|lia].
    + rewrite lookup_insert_ne by done. apply Hl.
  - intros conv x. destruct (decide (q_conv p = conv)) as [<-|Hne].
    + rewrite waiting_insert. cbn [ln_queue]. intros [Hx|Hx]%elem_of_app.
      * apply Hc. unfold waiting. by rewrite E.
      * by apply list_elem_of_singleton in Hx as ->.
    + rewrite waiting_insert_ne by done. apply Hc.
  - intros conv. rewrite Hr. destruct (decide (q_conv p = conv)) as [<-|Hne].
    + by rewrite E, lookup_insert_eq.
    + by rewrite lookup_insert_ne.
  - intros conv. rewrite fifo_app, Hf. cbn [fold_left fifo_event].
    destruct (decide (q_conv p = conv)) as [<-|Hne].
    + rewrite of_conv_self, waiting_insert. unfold waiting. by rewrite E.
    + by rewrite of_conv_other, waiting_insert_ne.
Qed.

Lemma count_split {A} (f : A -> bool) r1 p r2 :
  count f (r1 ++ p :: r2) = (if f p then 1 else 0) + count f (r1 ++ r2).
Proof. rewrite !count_app, count_cons. lia. Qed.

Lemma count_pos {A} (f : A -> bool) l : count f l <> 0 -> exists a, a ∈ l /\ f a = true.
Proof.
  intros H. apply existsb_elem. destruct (existsb f l) eqn:E; [done|].
  exfalso. apply H, count_zero. by apply existsb_elem_false.
Qed.

Lemma lane_step_finish lanes lanes' r1 p r2 log next :
  turn_finished lanes (q_conv p) = (lanes', next) ->
  lane_inv {| l_lanes := lanes; l_running := r1 ++ p :: r2; l_log := log |} ->
  lane_inv {| l_lanes := lanes'; l_running := r1 ++ r2 ++ option_list next;
              l_log := log ++ map Started (option_list next) |}.
Proof.
  intros H [Hl Hc Hr Hf]. cbn [l_lanes l_running l_log] in *.
  assert (exists l, lanes !! q_conv p = Some l) as [l E].
  { specialize (Hr (q_conv p)). rewrite count_split, of_conv_self in Hr.
    destruct (lanes !! q_conv p) as [l|]; [by exists l|lia]. }
  destruct (Hl _ _ E) as [Hlive Hlen].
  assert (waiting lanes (q_conv p) = ln_queue l) as Hw by (unfold waiting; by rewrite E).
  unfold turn_finished in H. rewrite E in H. destruct l as [live [|x queue]]; cbn [ln_queue ln_live] in *.
  - injection H as <- <-. change (option_list None) with (@nil QueuedPrompt). cbn [map]. rewrite !app_nil_r.
    split; cbn [l_lanes l_running l_log].
    + intros conv l'. intros [_ Hl']%lookup_delete_Some. by apply (Hl conv).
    + intros conv y. destruct (decide (q_conv p = conv)) as [<-|Hne].
      * rewrite waiting_delete. intros Hy. by apply not_elem_of_nil in Hy.
      * rewrite waiting_delete_ne by done. apply Hc.
    + intros conv. specialize (Hr conv). rewrite count_split in Hr.
      destruct (decide (q_conv p = conv)) as [<-|Hne].
      * rewrite of_conv_self, E in Hr. rewrite lookup_delete_eq. lia.
      * rewrite of_conv_other in Hr by done. rewrite lookup_delete_ne by done. done.
    + intros conv. rewrite Hf. destruct (decide (q_conv p = conv)) as [<-|Hne].
      * by rewrite waiting_delete, Hw.
      * by rewrite waiting_delete_ne.
  - injection H as <- <-. change (option_list (Some x)) with [x]. cbn [map].
    assert (q_conv x = q_conv p) as Hx by (apply Hc; rewrite Hw; by left).
    split; cbn [l_lanes l_running l_log].
    + intros conv l'. destruct (decide (q_conv p = conv)) as [<-|Hne].
      * rewrite lookup_insert_eq. intros [= <-]. simpl in *. split; [done|lia].
      * rewrite lookup_insert_ne by done. apply Hl.
    + intros conv y. destruct (decide (q_conv p = conv)) as [<-|Hne].
      * rewrite waiting_insert. intros Hy. apply Hc. rewrite Hw. by right.
      * rewrite waiting_insert_ne by done. apply Hc.
    + intros conv. specialize (Hr conv). rewrite count_split in Hr.
      rewrite app_assoc, count_app, count_cons. change (count (of_conv conv) []) with 0.
      destruct (decide (q_conv p = conv)) as [<-|Hne].
      * rewrite of_conv_self, E in Hr. rewrite lookup_insert_eq, (proj2 (of_conv_true _ _) Hx). lia.
      * rewrite of_conv_other in Hr by done. rewrite lookup_insert_ne by done.
        rewrite (of_conv_other conv x) by (by rewrite Hx). lia.
    + intros conv. rewrite fifo_app, Hf. cbn [fold_left fifo_event].
      destruct (decide (q_conv p = conv)) as [<-|Hne].
      * rewrite (proj2 (of_conv_true _ _) Hx), waiting_insert, Hw. by rewrite decide_True.
      * rewrite of_conv_other by (by rewrite Hx). by rewrite waiting_insert_ne.
Qed.

Lemma lane_step_cancel lanes lanes' run log conv dropped :
  clear_queue lanes conv = (lanes', dropped) ->
  lane_inv {| l_lanes := lanes; l_running := run; l_log := log |} ->
  lane_inv {| l_lanes := lanes'; l_running := run; l_log := log ++ map Dropped dropped |}.
Proof.
  intros H [Hl Hc Hr Hf]. cbn [l_lanes l_running l_log] in *. unfold clear_queue in H.
  destruct (lanes !! conv) as [l|] eqn:E; injection H as <- <-; [|cbn [map]; by rewrite app_nil_r].
  assert (waiting lanes conv = ln_queue l) as Hw by (unfold waiting; by rewrite E).
  assert (forall x, x ∈ ln_queue l -> q_conv x = conv) as Hq by (intros x; rewrite <-Hw; apply Hc).
  split; cbn [l_lanes l_running l_log].
  - intros c l'. destruct (decide (conv = c)) as [<-|Hne].
    + rewrite lookup_insert_eq. intros [= <-]. simpl. destruct (Hl _ _ E). split; [done|lia].
    + rewrite lookup_insert_ne by done. apply Hl.
  - intros c y. destruct (decide (conv = c)) as [<-|Hne].
    + rewrite waiting_insert. intros Hy. by apply not_elem_of_nil in Hy.
    + rewrite waiting_insert_ne by done. apply Hc.
  - intros c. rewrite Hr. destruct (decide (conv = c)) as [<-|Hne].
    + by rewrite E, lookup_insert_eq.
    + by rewrite lookup_insert_ne.
  - intros c. rewrite fifo_app, Hf. destruct (decide (conv = c)) as [<-|Hne].
    + rewrite waiting_insert, Hw. by apply fifo_drop_all.
    + rewrite waiting_insert_ne by done. apply fifo_drop_other. intros x Hx. by rewrite (Hq x).
Qed.

Lemma lane_reach s : star lane_step lane_start s -> lane_inv s.
Proof.
  intros Hs. apply (star_invariant lane_step lane_inv lane_start s); [|done|].
  - intros a b Ha Hstep. destruct Hstep as [? ? ? ? ? H|? ? ? ? ? ? H|lanes lanes' run log p H|? ? ? ? ? ? ? H|? ? ? ? ? ? H].
    + by eapply lane_step_start.
    + by eapply lane_step_queue.
    + destruct (lane_offer_busy lanes p lanes' Full) as (l & _ & _ & [[_ ->]|(_ & ? & _)]); try done.
      intros l E. by apply (li_live _ Ha (q_conv p)).
    + by eapply lane_step_finish.
    + by eapply lane_step_cancel.
  - split; cbn; try done. intros conv p Hp. by apply not_elem_of_nil in Hp.
Qed.

(** ** Permission asks *)

(** [answer] is the sending half of a oneshot channel, known by its number. *)
Record PendingAskLane := {
  pa_requester : option rstr; pa_answer : nat; pa_question : bool; pa_questions : list json
}.

Record WatchedAsk := { wa_session : rstr; wa_request : rstr; wa_actions : list json }.

(** [dx_sessions] maps a session to the conversation whose turn receives its
    events. *)
Record Demux := {
  dx_sessions : gmap rstr rstr;
  dx_pending : gmap rstr PendingAskLane;
  dx_watched : gmap rstr WatchedAsk
}.

Definition with_pending (d : Demux) (p : gmap rstr PendingAskLane) : Demux :=
  {| dx_sessions := dx_sessions d; dx_pending := p; dx_watched := dx_watched d |}.

Definition with_watched (d : Demux) (w : gmap rstr WatchedAsk) : Demux :=
  {| dx_sessions := dx_sessions d; dx_pending := dx_pending d; dx_watched := w |}.

Definition end_turn (d : Demux) (conv session : rstr) : Demux := {|
  dx_sessions := delete session (dx_sessions d);
  dx_pending := delete conv (dx_pending d);
  dx_watched := dx_watched d |}.

(** Where [handle_message] sends a message. *)
Inductive route :=
| Blocked
| AnswerWatched (ask : WatchedAsk) (word : rstr)
| Swallowed
| PointAtWeb
| Answered (lane : PendingAskLane) (reply : rstr)
| Command (cmd : rstr)
| Prompt (p : QueuedPrompt).

Section Replies.
(** [None] is an open bridge. *)
Variable allowed : option (gset rstr).

Definition admitted (m : Incoming) : bool :=
  match allowed with
  | None => true
  | Some ids =>
      match in_sender m with Some s => bool_decide (s ∈ ids) | None => false end
      || bool_decide (in_chat m ∈ ids)
  end.

Definition authorized (lane : PendingAskLane) (sender : option rstr) : bool :=
  match pa_requester lane, sender with
  | Some req, Some s => str_eqb req s
  | None, None => true
  | _, _ => false
  end.

Definition reply_word (lower : rstr) : bool :=
  str_eqb lower (str "allow") || str_eqb lower (str "deny") || str_eqb lower (str "always").

Definition classify (d : Demux) (m : Incoming) : route :=
  if negb (admitted m) then Blocked
  else
    let lower := to_lowercase (trim (in_text m)) in
    let word_reply := reply_word lower in
    let is_skip := str_eqb lower (str "!skip") in
    let lane := dx_pending d !! conv_id m in
    let lane_is_question := match lane with Some l => pa_question l | None => false end in
    let not_a_reply :=
      match strip_prefix (str "!") (trim (in_text m)) with
      | Some cmd => Command (trim cmd)
      | None => Prompt (prompt_of m)
      end in
    if word_reply || (lane_is_question && (is_skip || negb (starts_with (str "!") (trim_start (in_text m)))))
    then
      match lane with
      | None =>
          match dx_watched d !! conv_id m with
          | Some ask => if word_reply then AnswerWatched ask lower else not_a_reply
          | None => not_a_reply
          end
      | Some l =>
          if negb (authorized l (in_sender m)) then Swallowed
          else if (1 <? length (pa_questions l)) && negb word_reply && negb is_skip then PointAtWeb
          else Answered l (if pa_question l && negb word_reply
                           then if is_skip then str "skip" else trim (in_text m)
                           else lower)
      end
    else not_a_reply.

(** ** The asks of the running turns

    Every ask of a turn has a waiting task; it ends with the reply sent over
    its channel, with a denial when the channel's sender is gone, or with the
    timeout, after which it clears the conversation's lane.  [as_sent] is what
    the daemon was answered for them, [as_log] who answered what in the chat and
    [as_asked] the conversation and requester of every ask so far.  An ask of a
    session that is only watched has no task and no requester: [as_pinged] are
    those shown so far, with the conversation, and [as_watched] is what the
    daemon was answered for them, and by which message. *)

Record Waiter := {
  wt_conv : rstr; wt_requester : option rstr; wt_session : rstr; wt_request : rstr;
  wt_actions : list json; wt_questions : list json; wt_timed_out : bool
}.

Record WatchedAnswer := { wr_ask : WatchedAsk; wr_by : Incoming; wr_sent : json }.

Record ask_state := {
  as_demux : Demux;
  as_next : nat;
  as_waiters : gmap nat Waiter;
  as_replies : gmap nat rstr;
  as_sent : list (nat * json);
  as_log : list (nat * Incoming);
  as_asked : gmap nat (rstr * option rstr);
  as_pinged : list (rstr * WatchedAsk);
  as_watched : list WatchedAnswer
}.

(** [permission_requested] in a turn of [conv] driven by [requester]. *)
Definition ask (s : ask_state) (conv : rstr) (requester : option rstr) (session request : rstr)
  (actions questions : list json) (is_question : bool) : ask_state :=
  let k := as_next s in {|
  as_demux := with_pending (as_demux s) (<[conv := {| pa_requester := requester; pa_answer := k;
      pa_question := is_question; pa_questions := questions |}]> (dx_pending (as_demux s)));
  as_next := S k;
  as_waiters := <[k := {| wt_conv := conv; wt_requester := requester; wt_session := session;
      wt_request := request; wt_actions := actions; wt_questions := questions; wt_timed_out := false |}]>
      (as_waiters s);
  as_replies := as_replies s; as_sent := as_sent s; as_log := as_log s;
  as_asked := <[k := (conv, requester)]> (as_asked s); as_pinged := as_pinged s; as_watched := as_watched s |}.

Definition with_demux (s : ask_state) (d : Demux) : ask_state := {|
  as_demux := d; as_next := as_next s; as_waiters := as_waiters s;
  as_replies := as_replies s; as_sent := as_sent s; as_log := as_log s; as_asked := as_asked s;
  as_pinged := as_pinged s; as_watched := as_watched s |}.

(** [permission_resolved] in a turn of [conv], whichever ask it names. *)
Definition resolved (s : ask_state) (conv : rstr) : ask_state :=
  with_demux s (with_pending (as_demux s) (delete conv (dx_pending (as_demux s)))).

(** The part of [handle_message] that touches the asks. *)
Definition answer (s : ask_state) (m : Incoming) : ask_state :=
  match classify (as_demux s) m with
  | Answered lane reply => {|
      as_demux := with_pending (as_demux s) (delete (conv_id m) (dx_pending (as_demux s)));
      as_next := as_next s; as_waiters := as_waiters s;
      as_replies := <[pa_answer lane := reply]> (as_replies s);
      as_sent := as_sent s; as_log := as_log s ++ [(pa_answer lane, m)];
      as_asked := as_asked s; as_pinged := as_pinged s; as_watched := as_watched s |}
  | AnswerWatched a lower => {|
      as_demux := with_watched (as_demux s) (delete (conv_id m) (dx_watched (as_demux s)));
      as_next := as_next s; as_waiters := as_waiters s; as_replies := as_replies s;
      as_sent := as_sent s; as_log := as_log s; as_asked := as_asked s; as_pinged := as_pinged s;
      as_watched := as_watched s ++
        [{| wr_ask := a; wr_by := m; wr_sent := permission_response_for lower (wa_actions a) |}] |}
  | _ => s
  end.

(** The waiting task [k] answers the daemon. *)
Definition respond (s : ask_state) (k : nat) (w : Waiter) (reply : rstr) : ask_state := {|
  as_demux := as_demux s; as_next := as_next s; as_waiters := delete k (as_waiters s);
  as_replies := as_replies s;
  as_sent := as_sent s ++ [(k, question_aware_response_for reply (wt_actions w) (wt_questions w))];
  as_log := as_log s; as_asked := as_asked s; as_pinged := as_pinged s; as_watched := as_watched s |}.

(** A watched session asks: the conversation can answer that ask, and no
    other of a watched session. *)
Definition pinged (s : ask_state) (conv : rstr) (a : WatchedAsk) : ask_state := {|
  as_demux := with_watched (as_demux s) (<[conv := a]> (dx_watched (as_demux s)));
  as_next := as_next s; as_waiters := as_waiters s; as_replies := as_replies s; as_sent := as_sent s;
  as_log := as_log s; as_asked := as_asked s; as_pinged := as_pinged s ++ [(conv, a)]; as_watched := as_watched s |}.

(** Its turn is over, or the ask was answered elsewhere. *)
Definition unasked (d : Demux) (session : rstr) : Demux :=
  with_watched d (filter (fun e : rstr * WatchedAsk => wa_session e.2 <> session) (dx_watched d)).

(** The sender of [k] is alive: some lane holds it. *)
Definition sender_alive (d : Demux) (k : nat) : Prop :=
  exists conv lane, dx_pending d !! conv = Some lane /\ pa_answer lane = k.

Definition time_out (w : Waiter) : Waiter := {|
  wt_conv := wt_conv w; wt_requester := wt_requester w; wt_session := wt_session w;
  wt_request := wt_request w; wt_actions := wt_actions w; wt_questions := wt_questions w;
  wt_timed_out := true |}.

(** [ak_session]: a turn starts, or its session is handed on. *)
Inductive ask_step : ask_state -> ask_state -> Prop :=
| ak_ask s conv requester session request actions questions q :
    ask_step s (ask s conv requester session request actions questions q)
| ak_message s m : ask_step s (answer s m)
| ak_resolved s conv : ask_step s (resolved s conv)
| ak_end_turn s conv session : ask_step s (with_demux s (end_turn (as_demux s) conv session))
| ak_session s d :
    dx_pending d = dx_pending (as_demux s) -> dx_watched d = dx_watched (as_demux s) ->
    ask_step s (with_demux s d)
| ak_pinged s conv a : ask_step s (pinged s conv a)
| ak_unasked s session : ask_step s (with_demux s (unasked (as_demux s) session))
| ak_replied s k w reply :
    as_waiters s !! k = Some w -> wt_timed_out w = false -> as_replies s !! k = Some reply ->
    ask_step s (respond s k w reply)
| ak_closed s k w :
    as_waiters s !! k = Some w -> wt_timed_out w = false -> as_replies s !! k = None ->
    ~ sender_alive (as_demux s) k -> ask_step s (respond s k w (str "deny"))
| ak_timeout s k w :
    as_waiters s !! k = Some w -> wt_timed_out w = false -> as_replies s !! k = None ->
    ask_step s {| as_demux := as_demux s; as_next := as_next s;
                  as_waiters := <[k := time_out w]> (as_waiters s);
                  as_replies := as_replies s; as_sent := as_sent s; as_log := as_log s;
                  as_asked := as_asked s; as_pinged := as_pinged s; as_watched := as_watched s |}
| ak_timed_out s k w :
    as_waiters s !! k = Some w -> wt_timed_out w = true ->
    ask_step s (respond (resolved s (wt_conv w)) k w (str "deny")).

Definition ask_start : ask_state := {|
  as_demux := {| dx_sessions := ∅; dx_pending := ∅; dx_watched := ∅ |};
  as_next := 0; as_waiters := ∅; as_replies := ∅; as_sent := []; as_log := []; as_asked := ∅;
  as_pinged := []; as_watched := [] |}.

Record ask_inv (s : ask_state) : Prop := {
  ai_lane conv l : dx_pending (as_demux s) !! conv = Some l ->
    as_asked s !! pa_answer l = Some (conv, pa_requester l) /\ as_replies s !! pa_answer l = None;
  ai_asked k a : as_asked s !! k = Some a -> k < as_next s;
  ai_log k m : (k, m) ∈ as_log s -> as_asked s !! k = Some (conv_id m, in_sender m) /\ admitted m = true /\
    is_Some (as_replies s !! k);
  ai_reply k r : as_replies s !! k = Some r -> exists m, (k, m) ∈ as_log s;
  ai_sent k r : (k, r) ∈ as_sent s -> behavior_is "allow" r = true -> exists m, (k, m) ∈ as_log s;
  ai_waiter k w : as_waiters s !! k = Some w ->
    k < as_next s /\ (k ∉ (as_sent s).*1) /\ as_asked s !! k = Some (wt_conv w, wt_requester w);
  ai_once : NoDup (as_sent s).*1;
  ai_old k : k ∈ (as_sent s).*1 -> k < as_next s
}.

Lemma authorized_sender l sender : authorized l sender = true -> pa_requester l = sender.
Proof.
  unfold authorized. destruct (pa_requester l), sender; try done. by intros ->%str_eqb_eq.
Qed.

Lemma classify_answered d m l reply :
  classify d m = Answered l reply ->
  dx_pending d !! conv_id m = Some l /\ pa_requester l = in_sender m /\ admitted m = true.
Proof.
  unfold classify. destruct (admitted m); [|done]. cbn [negb].
  destruct (_ || _); [|intros H; by repeat case_match].
  destruct (dx_pending d !! conv_id m) as [l'|].
  - destruct (authorized l' (in_sender m)) eqn:E; [|done]. cbn [negb].
    destruct (_ && negb _); [done|]. intros [= <- _]. by apply authorized_sender in E.
  - intros H. by repeat case_match.
Qed.

(** Fewer lanes, everything else the same. *)
Lemma ask_inv_fewer s d :
  ask_inv s -> (forall conv l, dx_pending d !! conv = Some l -> dx_pending (as_demux s) !! conv = Some l) ->
  ask_inv (with_demux s d).
Proof. intros [Hl ? ? ? ? ? ? ?] Hd. split; simpl; try done. intros conv l H. by apply Hl, Hd. Qed.

Lemma ask_inv_resolved s conv : ask_inv s -> ask_inv (resolved s conv).
Proof.
  intros H. apply ask_inv_fewer; [done|]. intros c l Hl. simpl in Hl. by apply lookup_delete_Some in Hl as [_ Hl].
Qed.

Lemma ask_inv_ask s conv requester session request actions questions q :
  ask_inv s -> ask_inv (ask s conv requester session request actions questions q).
Proof.
  intros [Hl Ha Hlog Hr Hs Hw Ho Hold]. unfold ask. split; simpl.
  - intros c l. destruct (decide (conv = c)) as [<-|Hne].
    + rewrite lookup_insert_eq. intros [= <-]. simpl. rewrite lookup_insert_eq. split; [done|].
      destruct (as_replies s !! as_next s) as [r|] eqn:E; [|done].
      destruct (Hr _ _ E) as [m Hm]. destruct (Hlog _ _ Hm) as (Hm' & _ & _). apply Ha in Hm'. lia.
    + rewrite lookup_insert_ne by done. intros H. destruct (Hl c l H) as [H1 H2].
      rewrite lookup_insert_ne; [done|]. apply Ha in H1. lia.
  - intros k a. destruct (decide (as_next s = k)) as [<-|Hne]; [lia|].
    rewrite lookup_insert_ne by done. intros H. apply Ha in H. lia.
  - intros k m Hm. destruct (Hlog k m Hm) as [H1 H2]. rewrite lookup_insert_ne; [done|].
    apply Ha in H1. lia.
  - done.
  - done.
  - intros k w. destruct (decide (as_next s = k)) as [<-|Hne].
    + rewrite !lookup_insert_eq. intros [= <-]. simpl. split; [lia|]. split; [|done].
      intros H. apply Hold in H. lia.
    + rewrite !lookup_insert_ne by done. intros H. destruct (Hw k w H) as (? & ? & ?). split; [lia|done].
  - done.
  - intros k Hk. apply Hold in Hk. lia.
Qed.

Lemma ask_inv_answer s m : ask_inv s -> ask_inv (answer s m).
Proof.
  intros H. unfold answer. destruct (classify (as_demux s) m) as [|a w| | |l reply|c|p] eqn:E; try done.
  - destruct H. by split.
  - destruct (classify_answered _ _ _ _ E) as (Hlane & Hreq & Hadm).
    destruct H as [Hl Ha Hlog Hr Hs Hw Ho Hold]. destruct (Hl _ _ Hlane) as [Hask Hnone].
    split; simpl; try done.
    + intros c l' [Hne H]%lookup_delete_Some. destruct (Hl c l' H) as [H1 H2]. split; [done|].
      rewrite lookup_insert_ne; [done|]. intros Heq. rewrite <-Heq, Hask in H1. by injection H1.
    + intros k m' [Hm|Hm]%elem_of_app.
      * destruct (Hlog k m' Hm) as (? & ? & ?). split; [done|]. split; [done|].
        destruct (decide (pa_answer l = k)) as [<-|Hne]; [by rewrite lookup_insert_eq|by rewrite lookup_insert_ne].
      * apply list_elem_of_singleton in Hm. injection Hm as -> ->. by rewrite Hask, Hreq, lookup_insert_eq.
    + intros k r. destruct (decide (pa_answer l = k)) as [<-|Hne].
      * intros _. exists m. apply elem_of_app. right. by apply list_elem_of_singleton.
      * rewrite lookup_insert_ne by done. intros H. destruct (Hr k r H) as [m' Hm'].
        exists m'. apply elem_of_app. by left.
    + intros k r Hk Hb. destruct (Hs k r Hk Hb) as [m' Hm']. exists m'. apply elem_of_app. by left.
Qed.

Lemma ask_inv_respond s k w reply :
  ask_inv s -> as_waiters s !! k = Some w ->
  (behavior_is "allow" (question_aware_response_for reply (wt_actions w) (wt_questions w)) = true ->
   exists m, (k, m) ∈ as_log s) ->
  ask_inv (respond s k w reply).
Proof.
  intros [Hl Ha Hlog Hr Hs Hw Ho Hold] Hk Hallow. destruct (Hw _ _ Hk) as (Hlt & Hni & _).
  unfold respond. split; simpl; try done.
  - intros k' r [H|H]%elem_of_app; [by apply (Hs k' r)|].
    apply list_elem_of_singleton in H. by injection H as -> ->.
  - intros k' w' [Hne H]%lookup_delete_Some. destruct (Hw k' w' H) as (? & H2 & ?). split; [done|]. split; [|done].
    rewrite fmap_app, elem_of_app. intros [?|H']; [done|]. apply list_elem_of_singleton in H'. simpl in H'. congruence.
  - rewrite fmap_app. apply NoDup_app. split; [done|]. split; [|apply NoDup_singleton].
    intros x Hx H'. apply list_elem_of_singleton in H'. simpl in H'. congruence.
  - intros k' H. rewrite fmap_app, elem_of_app in H. destruct H as [H|H]; [by apply Hold|].
    apply list_elem_of_singleton in H. simpl in H. lia.
Qed.

Lemma deny_is_no_allow actions questions :
  behavior_is "allow" (question_aware_response_for (str "deny") actions questions) = false.
Proof. reflexivity. Qed.

Lemma ask_step_inv s s' : ask_inv s -> ask_step s s' -> ask_inv s'.
Proof.
  intros H Hstep. destruct Hstep as [|s m|s conv|s conv session|s d Hd Hw|s conv a|s session|s k w reply Hk Ht Hr
    |s k w Hk Ht Hr Hd|s k w Hk Ht Hr|s k w Hk Ht].
  - by apply ask_inv_ask.
  - by apply ask_inv_answer.
  - by apply ask_inv_resolved.
  - apply ask_inv_fewer; [done|]. intros c l Hl. simpl in Hl. by apply lookup_delete_Some in Hl as [_ Hl].
  - apply ask_inv_fewer; [done|]. by rewrite Hd.
  - destruct H. by split.
  - by apply ask_inv_fewer.
  - apply ask_inv_respond; [done|done|]. intros _. by apply (ai_reply _ H k reply).
  - apply ask_inv_respond; [done|done|]. by rewrite deny_is_no_allow.
  - destruct H as [? ? ? ? ? Hw ? ?]. split; simpl; try done. intros k' w'.
    destruct (decide (k = k')) as [<-|Hne]; [|rewrite lookup_insert_ne by done; apply Hw].
    rewrite lookup_insert_eq. intros [= <-]. by apply (Hw k w).
  - apply ask_inv_respond; [by apply ask_inv_resolved|done|]. by rewrite deny_is_no_allow.
Qed.

Lemma ask_reach s : star ask_step ask_start s -> ask_inv s.
Proof.
  intros Hs. apply (star_invariant ask_step ask_inv ask_start s); [apply ask_step_inv|done|].
  split; simpl; try done; try (intros k ? H; by apply not_elem_of_nil in H).
  - constructor.
  - intros k H. by apply not_elem_of_nil in H.
Qed.

(** ** Asks of watched sessions *)

(** What [AnswerWatched] says of the message: one of the reply words, alone,
    while an ask of a watched session is shown and none of an own turn. *)
Lemma classify_watched d m a lower :
  classify d m = AnswerWatched a lower ->
  dx_watched d !! conv_id m = Some a /\ dx_pending d !! conv_id m = None /\ admitted m = true /\
  lower = to_lowercase (trim (in_text m)) /\ reply_word lower = true.
Proof.
  unfold classify. destruct (admitted m); [|done]. cbn [negb].
  destruct (_ || _); [|intros H; by repeat case_match].
  destruct (dx_pending d !! conv_id m) as [l|]; [intros H; by repeat case_match|].
  destruct (dx_watched d !! conv_id m) as [a'|]; [|intros H; by repeat case_match].
  destruct (reply_word _) eqn:E; [|intros H; by repeat case_match]. by intros [= <- <-].
Qed.

(** The message answers the ask, and this is what was sent for it. *)
Definition answers_watched (x : WatchedAnswer) : Prop :=
  let word := to_lowercase (trim (in_text (wr_by x))) in
  admitted (wr_by x) = true /\ reply_word word = true /\
  wr_sent x = permission_response_for word (wa_actions (wr_ask x)).

(** Every answer, and every ask that can still be answered, is of a ping of its
    own. *)
Record watch_inv (s : ask_state) : Prop := {
  wi_answers : Forall answers_watched (as_watched s);
  wi_pings : map (fun x => (conv_id (wr_by x), wr_ask x)) (as_watched s) ++ map_to_list (dx_watched (as_demux s))
    ⊆+ as_pinged s
}.

Lemma watch_inv_fewer s s' :
  watch_inv s -> as_watched s' = as_watched s -> as_pinged s' = as_pinged s ->
  dx_watched (as_demux s') ⊆ dx_watched (as_demux s) -> watch_inv s'.
Proof.
  intros [Ha Hp] Hw Hpi Hsub. split; rewrite ?Hw, ?Hpi; [done|]. etrans; [|exact Hp].
  by apply submseteq_app; [|apply map_to_list_submseteq].
Qed.

Lemma watch_step s s' : watch_inv s -> ask_step s s' -> watch_inv s'.
Proof.
  intros H Hstep. destruct Hstep as [|s m|s conv|s conv session|s d Hd Hw|s conv a|s session|s k w reply Hk Ht Hr
    |s k w Hk Ht Hr Hd|s k w Hk Ht Hr|s k w Hk Ht]; try by (eapply watch_inv_fewer; [exact H|..]).
  - unfold answer. destruct (classify (as_demux s) m) as [|a w| | |l reply|c|p] eqn:E; try done.
    + destruct (classify_watched _ _ _ _ E) as (Ha & _ & Hadm & -> & Hword). destruct H as [Hall Hp]. split; simpl.
      * apply Forall_app. split; [done|]. by constructor.
      * etrans; [|exact Hp]. rewrite map_app, <-app_assoc. apply submseteq_app; [done|]. simpl.
        rewrite <-(insert_delete_id (dx_watched (as_demux s)) (conv_id m) a) at 2 by done.
        rewrite map_to_list_insert by apply lookup_delete_eq. done.
    + by eapply watch_inv_fewer.
  - eapply watch_inv_fewer; [exact H|done|done|]. simpl. by rewrite Hw.
  - destruct H as [Hall Hp]. split; simpl; [done|].
    rewrite <-insert_delete_eq, map_to_list_insert by apply lookup_delete_eq.
    rewrite <-Permutation_middle, Permutation_cons_append. apply submseteq_app; [|done].
    etrans; [|exact Hp]. apply submseteq_app; [done|]. apply map_to_list_submseteq, delete_subseteq.
  - eapply watch_inv_fewer; [exact H|done|done|]. apply map_filter_subseteq.
Qed.

Lemma watch_reach s : star ask_step ask_start s -> watch_inv s.
Proof.
  intros Hs. apply (star_invariant ask_step watch_inv ask_start s); [apply watch_step|done|].
  split; [constructor|]. cbn [ask_start as_demux dx_watched as_watched as_pinged map app]. by rewrite map_to_list_empty.
Qed.

(** ** Asks whose lane is gone *)

(** Nobody can answer [k] any more and nobody has. *)
Record lost (k : nat) (s : ask_state) : Prop := {
  lo_old : k < as_next s;
  lo_dead : ~ sender_alive (as_demux s) k;
  lo_reply : as_replies s !! k = None;
  lo_sent r : (k, r) ∈ as_sent s -> behavior_is "allow" r = false
}.

Lemma lost_with k s d :
  lost k s -> (forall conv l, dx_pending d !! conv = Some l -> dx_pending (as_demux s) !! conv = Some l) ->
  lost k (with_demux s d).
Proof.
  intros [? Hd ? ?] H. split; try done. intros (c & l & Hl & Hk). apply Hd. exists c, l. by split; [apply H|].
Qed.

Lemma lost_respond k s k' w reply :
  lost k s -> (k = k' -> behavior_is "allow" (question_aware_response_for reply (wt_actions w) (wt_questions w)) = false) ->
  lost k (respond s k' w reply).
Proof.
  intros [? ? ? Hs] H. split; try done. intros r [Hr|Hr]%elem_of_app; [by apply Hs|].
  apply list_elem_of_singleton in Hr. injection Hr as -> ->. by apply H.
Qed.

Lemma lost_step k s s' : lost k s -> ask_step s s' -> lost k s'.
Proof.
  assert (forall s conv, lost k s -> lost k (resolved s conv)) as Hres.
  { intros t conv Ht. apply lost_with; [done|]. intros c l Hl. simpl in Hl. by apply lookup_delete_Some in Hl as [_ Hl]. }
  intros H Hstep. destruct Hstep as [s conv req ses rid acts qs q|s m|s conv|s conv session|s d Hd Hw|s conv a|s session
    |s k' w reply Hk Ht Hr
    |s k' w Hk Ht Hr Hd|s k' w Hk Ht Hr|s k' w Hk Ht].
  - destruct H as [Hlt Hd Hr Hs]. split; simpl; [lia| |done|done].
    intros (c & l & Hl & Hk). simpl in Hl. destruct (decide (conv = c)) as [<-|Hne].
    + rewrite lookup_insert_eq in Hl. injection Hl as <-. simpl in Hk. lia.
    + rewrite lookup_insert_ne in Hl by done. apply Hd. by exists c, l.
  - unfold answer. destruct (classify (as_demux s) m) as [|a w| | |l reply|c|p] eqn:E; try done.
    + by destruct H.
    + destruct (classify_answered _ _ _ _ E) as (Hlane & _ & _). destruct H as [Hlt Hd Hr Hs].
      assert (pa_answer l <> k) as Hne by (intros Heq; apply Hd; by exists (conv_id m), l).
      split; simpl; [done| |by rewrite lookup_insert_ne|done].
      intros (c & l' & Hl & Hk). simpl in Hl. apply lookup_delete_Some in Hl as [_ Hl].
      apply Hd. by exists c, l'.
  - by apply Hres.
  - apply lost_with; [done|]. intros c l Hl. simpl in Hl. by apply lookup_delete_Some in Hl as [_ Hl].
  - apply lost_with; [done|]. by rewrite Hd.
  - by destruct H.
  - by apply lost_with.
  - apply lost_respond; [done|]. intros <-. by rewrite (lo_reply _ _ H) in Hr.
  - by apply lost_respond.
  - by destruct H.
  - apply lost_respond; [by apply Hres|done].
Qed.

Lemma lost_star k s s' : star ask_step s s' -> lost k s -> lost k s'.
Proof. intros Hs. apply (star_invariant ask_step (lost k) s s'); [|done]. intros a b. apply lost_step. Qed.

(** The ask holding a lane loses it. *)
Lemma lane_lost s conv l d :
  ask_inv s -> dx_pending (as_demux s) !! conv = Some l ->
  (forall c l', dx_pending d !! c = Some l' -> c <> conv /\ dx_pending (as_demux s) !! c = Some l') ->
  lost (pa_answer l) (with_demux s d).
Proof.
  intros Hi Hl Hd. destruct (ai_lane _ Hi _ _ Hl) as [Ha Hr]. split; simpl; [by eapply ai_asked| |done|].
  - intros (c & l' & Hc & Hk). destruct (Hd c l' Hc) as [Hne Hc'].
    destruct (ai_lane _ Hi _ _ Hc') as [Ha' _]. rewrite Hk, Ha in Ha'. by injection Ha'.
  - intros r Hs. destruct (behavior_is "allow" r) eqn:E; [|done].
    destruct (ai_sent _ Hi _ _ Hs E) as [m Hm]. destruct (ai_log _ Hi _ _ Hm) as (_ & _ & [x Hx]). congruence.
Qed.

Lemma resolved_lost s conv l :
  ask_inv s -> dx_pending (as_demux s) !! conv = Some l -> lost (pa_answer l) (resolved s conv).
Proof.
  intros Hi Hl. apply lane_lost with conv; [done|done|]. intros c l' H. simpl in H.
  apply lookup_delete_Some in H as [Hne H]. done.
Qed.

Lemma ask_supersedes s conv l requester session request actions questions q :
  ask_inv s -> dx_pending (as_demux s) !! conv = Some l ->
  lost (pa_answer l) (ask s conv requester session request actions questions q).
Proof.
  intros Hi Hl. destruct (resolved_lost s conv l Hi Hl) as [Hlt Hd Hr Hs]. split; simpl in *; [lia| |done|done].
  intros (c & l' & Hc & Hk). simpl in Hc. destruct (decide (conv = c)) as [<-|Hne].
  - rewrite lookup_insert_eq in Hc. injection Hc as <-. simpl in Hk. lia.
  - rewrite lookup_insert_ne in Hc by done. apply Hd. exists c, l'. simpl. by rewrite lookup_delete_ne.
Qed.

(** A waiting task can always end. *)
Lemma waiter_ends s k w :
  as_waiters s !! k = Some w -> exists s', star ask_step s s' /\ as_waiters s' !! k = None.
Proof.
  intros Hk. destruct (wt_timed_out w) eqn:Et.
  - eexists. split; [apply star_one; by eapply ak_timed_out|]. simpl. by rewrite lookup_delete_eq.
  - destruct (as_replies s !! k) as [r|] eqn:Er.
    + eexists. split; [apply star_one; by eapply ak_replied|]. simpl. by rewrite lookup_delete_eq.
    + eexists. split.
      * eapply star_step; [by eapply ak_timeout|]. apply star_one. eapply (ak_timed_out _ k (time_out w)); [|done].
        simpl. by rewrite lookup_insert_eq.
      * simpl. by rewrite lookup_delete_eq.
Qed.
End Replies.

(** ** The watch registry *)

Record Watch := {
  w_session : rstr; w_title : rstr; w_backend : rstr; w_chat : rstr; w_thread : option rstr
}.

Definition MAX_WATCHES_PER_CONV : nat := 8.
Definition MAX_WATCHES_TOTAL : nat := 64.
#[global] Arguments MAX_WATCHES_PER_CONV : simpl never.
#[global] Arguments MAX_WATCHES_TOTAL : simpl never.

Abbreviation registry := (gmap rstr (list Watch)) (only parsing).

Definition watch_total (m : registry) : nat := map_fold (fun _ ws n => length ws + n) 0 m.

Definition watches (sid : rstr) (w : Watch) : bool := str_eqb (w_session w) sid.

(** In place for a session already followed, else at the end, the oldest
    making room. *)
Definition watch_list (ws : list Watch) (w : Watch) : list Watch :=
  match find_index (watches (w_session w)) ws with
  | Some i => <[i := w]> ws
  | None => (if MAX_WATCHES_PER_CONV <=? length ws then tail ws else ws) ++ [w]
  end.

Section Registry.
(** The iteration order of the hash map. *)
Variable hash_order : registry -> list rstr.

(** Drop the oldest watch of the first conversation that has one. *)
Definition evict_one (m : registry) : registry :=
  match find_first (fun k => negb (is_empty (default [] (m !! k)))) (hash_order m) with
  | Some k => <[k := tail (default [] (m !! k))]> m
  | None => m
  end.

(** The [while total > MAX_WATCHES_TOTAL] loop: each round but the [break]
    takes one off [total]. *)
Definition evict (m : registry) : registry :=
  Nat.iter (watch_total m - MAX_WATCHES_TOTAL) evict_one m.

Definition retain_watching (m : registry) : registry := filter (fun e : rstr * list Watch => e.2 <> []) m.

(** [watch_add] once the daemon has accepted the subscription. *)
Definition watch_add (m : registry) (conv : rstr) (w : Watch) : registry :=
  retain_watching (evict (<[conv := watch_list (default [] (m !! conv)) w]> m)).

Definition watch_remove (m : registry) (conv sid : rstr) : registry :=
  match m !! conv with
  | None => m
  | Some ws =>
      match List.filter (fun w => negb (watches sid w)) ws with
      | [] => delete conv m
      | ws' => <[conv := ws']> m
      end
  end.

(** ** Facts about the registry *)

Hypothesis hash_order_keys : forall m k, is_Some (m !! k) -> k ∈ hash_order m.

Definition conv_watches_ok (ws : list Watch) : Prop :=
  length ws <= MAX_WATCHES_PER_CONV /\ NoDup (map w_session ws).

Record registry_ok (m : registry) : Prop := {
  ro_lists k ws : m !! k = Some ws -> ws <> [] /\ conv_watches_ok ws;
  ro_total : watch_total m <= MAX_WATCHES_TOTAL
}.

Lemma watch_total_delete m k ws : m !! k = Some ws -> watch_total m = length ws + watch_total (delete k m).
Proof. intros H. unfold watch_total. apply (map_fold_delete_L (fun _ ws n => length ws + n)); [intros; lia|done]. Qed.

Lemma watch_total_insert m k ws :
  watch_total (<[k := ws]> m) + length (default [] (m !! k)) = watch_total m + length ws.
Proof.
  assert (watch_total (<[k := ws]> m) = length ws + watch_total (delete k m)) as ->.
  { rewrite (watch_total_delete _ k ws) by apply lookup_insert_eq. by rewrite delete_insert_eq. }
  destruct (m !! k) as [ws0|] eqn:E; simpl.
  - rewrite (watch_total_delete m k ws0 E). lia.
  - rewrite delete_id by done. lia.
Qed.

Lemma watch_total_pos m : 0 < watch_total m -> exists k ws, m !! k = Some ws /\ ws <> [].
Proof.
  induction m as [|k ws m Hk IH] using map_ind; intros H; [unfold watch_total in H; rewrite map_fold_empty in H; lia|].
  destruct ws as [|w ws].
  - pose proof (watch_total_insert m k []) as Ht. rewrite Hk in Ht. simpl in Ht.
    destruct IH as (k' & ws & Hk' & Hne); [lia|]. exists k', ws. split; [|done].
    rewrite lookup_insert_ne; [done|]. intros ->. congruence.
  - exists k, (w :: ws). by rewrite lookup_insert_eq.
Qed.

(** One round: some conversation's oldest watch is gone. *)
Lemma evict_one_spec m :
  0 < watch_total m ->
  S (watch_total (evict_one m)) = watch_total m /\
  (forall k, default [] (evict_one m !! k) = default [] (m !! k) \/
             default [] (evict_one m !! k) = tail (default [] (m !! k))).
Proof using hash_order_keys.
  intros H. unfold evict_one.
  destruct (find_first _ (hash_order m)) as [k|] eqn:E.
  - apply find_first_Some in E as [_ Hk].
    pose proof (watch_total_insert m k (tail (default [] (m !! k)))) as Ht.
    split; [destruct (default [] (m !! k)); simpl in *; [done|lia]|].
    intros c. destruct (decide (k = c)) as [<-|Hne]; [right; by rewrite lookup_insert_eq|left; by rewrite lookup_insert_ne].
  - exfalso. destruct (watch_total_pos m H) as (k & ws & Hk & Hne).
    pose proof (find_first_None _ _ E k) as Hf. cbv beta in Hf. rewrite Hk in Hf.
    specialize (Hf (hash_order_keys m k (ex_intro _ ws Hk))). by destruct ws.
Qed.

Lemma conv_watches_tail ws : conv_watches_ok ws -> conv_watches_ok (tail ws).
Proof.
  intros [Hl Hn]. destruct ws as [|w ws]; [done|]. simpl in *. split; [simpl in *; lia|].
  by apply NoDup_cons in Hn as [_ Hn].
Qed.

Lemma evict_iter n m :
  n <= watch_total m -> (forall k, conv_watches_ok (default [] (m !! k))) ->
  watch_total (Nat.iter n evict_one m) = watch_total m - n /\
  (forall k, conv_watches_ok (default [] (Nat.iter n evict_one m !! k))).
Proof using hash_order_keys.
  intros Hn Hok. induction n as [|n IH]; [split; [simpl; lia|done]|].
  destruct IH as [Ht Hc]; [lia|].
  change (Nat.iter (S n) evict_one m) with (evict_one (Nat.iter n evict_one m)).
  destruct (evict_one_spec (Nat.iter n evict_one m)) as [Ht' Hd]; [lia|].
  split; [lia|]. intros k. destruct (Hd k) as [->| ->]; [done|by apply conv_watches_tail].
Qed.

Lemma retain_total m : watch_total (retain_watching m) = watch_total m.
Proof.
  unfold retain_watching. induction m as [|k ws m Hk IH] using map_ind; [by rewrite map_filter_empty|].
  assert (watch_total (<[k := ws]> m) = length ws + watch_total m) as ->.
  { pose proof (watch_total_insert m k ws) as H. rewrite Hk in H. simpl in H. lia. }
  destruct ws as [|w ws].
  - rewrite map_filter_insert_False by (simpl; auto). rewrite delete_id by done. done.
  - rewrite map_filter_insert_True by done.
    pose proof (watch_total_insert (filter (fun e : rstr * list Watch => e.2 <> []) m) k (w :: ws)) as H.
    rewrite map_lookup_filter_None_2 in H by (by left). simpl in *. lia.
Qed.

Lemma find_index_session ws sid :
  find_index (watches sid) ws = None -> sid ∉ map w_session ws.
Proof.
  intros H Hin. apply list_elem_of_In, in_map_iff in Hin as (w & Hw & Hin).
  apply list_elem_of_In in Hin. pose proof (find_index_None _ _ H w Hin) as Hf.
  apply str_eqb_neq in Hf. done.
Qed.

Lemma watch_list_ok ws w : conv_watches_ok ws -> conv_watches_ok (watch_list ws w) /\ w ∈ watch_list ws w.
Proof.
  intros [Hl Hn]. unfold watch_list. destruct (find_index _ ws) as [i|] eqn:E.
  - apply find_index_Some in E as (w0 & Hi & Hs & _). apply str_eqb_eq in Hs.
    assert (map w_session (<[i := w]> ws) = map w_session ws) as Hm.
    { change (w_session <$> <[i:=w]> ws = w_session <$> ws).
      rewrite list_fmap_insert. apply list_insert_id. by rewrite list_lookup_fmap, Hi, <-Hs. }
    split; [split; [by rewrite length_insert|by rewrite Hm]|].
    apply list_elem_of_lookup. exists i. apply list_lookup_insert_eq. by eapply lookup_lt_Some.
  - apply find_index_session in E. split; [|apply elem_of_app; right; by left].
    assert (conv_watches_ok (if MAX_WATCHES_PER_CONV <=? length ws then tail ws else ws) /\
            length (if MAX_WATCHES_PER_CONV <=? length ws then tail ws else ws) < MAX_WATCHES_PER_CONV /\
            (w_session w ∉ map w_session (if MAX_WATCHES_PER_CONV <=? length ws then tail ws else ws)))
      as ([_ Hn'] & Hl' & Hni).
    { destruct (Nat.leb_spec MAX_WATCHES_PER_CONV (length ws)) as [Hfull|Hroom].
      - split; [by apply conv_watches_tail|]. destruct ws as [|x ws]; [unfold MAX_WATCHES_PER_CONV in Hfull; simpl in Hfull; lia|].
        simpl in *. split; [lia|]. intros H. apply E. by right.
      - done. }
    split; [rewrite length_app; change (length [w]) with 1; lia|]. rewrite map_app. apply NoDup_app. split; [done|].
    split; [|apply NoDup_singleton]. intros x Hx Hx'. apply list_elem_of_singleton in Hx'. by subst.
Qed.

Lemma watch_add_ok m conv w : registry_ok m -> registry_ok (watch_add m conv w).
Proof using hash_order_keys.
  intros [Hl Ht]. set (m1 := <[conv := watch_list (default [] (m !! conv)) w]> m).
  assert (forall k, conv_watches_ok (default [] (m !! k))) as Hok.
  { intros k. destruct (m !! k) as [ws|] eqn:E; [by apply (Hl k)|]. split; [simpl; lia|constructor]. }
  assert (forall k, conv_watches_ok (default [] (m1 !! k))) as Hok1.
  { intros k. subst m1. destruct (decide (conv = k)) as [<-|Hne].
    - rewrite lookup_insert_eq. by apply watch_list_ok.
    - by rewrite lookup_insert_ne. }
  destruct (evict_iter (watch_total m1 - MAX_WATCHES_TOTAL) m1) as [Ht1 Hc1]; [lia|done|].
  unfold watch_add. fold m1. split.
  - intros k ws [Hk Hne]%map_lookup_filter_Some. simpl in Hne. split; [done|].
    specialize (Hc1 k). unfold evict in Hk. by rewrite Hk in Hc1.
  - rewrite retain_total. unfold evict. rewrite Ht1. lia.
Qed.

Lemma watch_remove_ok m conv sid : registry_ok m -> registry_ok (watch_remove m conv sid).
Proof.
  clear. intros [Hl Ht]. unfold watch_remove. destruct (m !! conv) as [ws|] eqn:E; [|done].
  assert (length (List.filter (fun w => negb (watches sid w)) ws) <= length ws) as Hlen by apply List.filter_length_le.
  destruct (Hl _ _ E) as [_ [Hl8 Hnd]].
  assert (NoDup (map w_session (List.filter (fun w => negb (watches sid w)) ws))) as Hnd'.
  { clear -Hnd. induction ws as [|x ws IH]; [done|]. simpl in *. apply NoDup_cons in Hnd as [Hni Hnd].
    destruct (negb _); simpl; [|auto]. apply NoDup_cons. split; [|auto]. intros H. apply Hni.
    apply list_elem_of_In, in_map_iff in H as (y & Hy & [Hin _]%filter_In).
    apply list_elem_of_In, in_map_iff. by exists y. }
  destruct (List.filter _ ws) as [|x ws'] eqn:Ef.
  - split; [intros k l [_ H]%lookup_delete_Some; by apply (Hl k)|]. pose proof (watch_total_delete m conv ws E). lia.
  - split.
    + intros k l. destruct (decide (conv = k)) as [<-|Hne]; [|rewrite lookup_insert_ne by done; apply Hl].
      rewrite lookup_insert_eq. intros [= <-]. split; [done|]. split; [lia|done].
    + pose proof (watch_total_insert m conv (x :: ws')) as H. rewrite E in H. simpl in *. lia.
Qed.
End Registry.

(** ** Conversations: session mapping and preferences *)

Record ChatSession := { cs_session : rstr; cs_last_used : Z }.
Record ChatPrefs := { pf_backend : option rstr; pf_cwd : option rstr; pf_bot : option rstr }.

#[export] Instance ChatPrefs_eq_dec : EqDecision ChatPrefs.
Proof. solve_decision. Defined.

Definition default_prefs : ChatPrefs := {| pf_backend := None; pf_cwd := None; pf_bot := None |}.

(** 24 hours, in nanoseconds. *)
Definition SESSION_IDLE_EVICTION : Z := 24 * 60 * 60 * 1000000000.

(** The daemon as the bridge sees it: whether its state requests succeed, and
    its answers to the other requests. *)
Record daemon := {
  dm_up : bool;
  dm_delete_session : rstr -> bool;
  dm_backends : option (list (rstr * bool));
  dm_bots : option (list (rstr * rstr));
  dm_fork : rstr -> option rstr;
  dm_sessions : option (list (rstr * rstr * rstr));
  dm_resume : rstr -> bool;
  dm_watch : rstr -> bool;
  dm_create : option rstr -> rstr -> option rstr -> option rstr
}.

(** The file system: is the path absolute, is it a directory, the working
    directory. *)
Record files := { fs_is_absolute : rstr -> bool; fs_is_dir : rstr -> bool; fs_current_dir : rstr }.

(** [br_rows] are the daemon's [channel_state] rows of this channel. *)
Record bridge := {
  br_lanes : gmap rstr TurnLane;
  br_chat : gmap rstr ChatSession;
  br_prefs : gmap rstr ChatPrefs;
  br_watches : registry;
  br_rows : gmap (rstr * rstr) rstr;
  br_default_bot : option rstr
}.

Definition with_chat (b : bridge) (c : gmap rstr ChatSession) : bridge := {|
  br_lanes := br_lanes b; br_chat := c; br_prefs := br_prefs b; br_watches := br_watches b;
  br_rows := br_rows b; br_default_bot := br_default_bot b |}.
Definition with_rows (b : bridge) (r : gmap (rstr * rstr) rstr) : bridge := {|
  br_lanes := br_lanes b; br_chat := br_chat b; br_prefs := br_prefs b; br_watches := br_watches b;
  br_rows := r; br_default_bot := br_default_bot b |}.
Definition with_prefs (b : bridge) (p : gmap rstr ChatPrefs) : bridge := {|
  br_lanes := br_lanes b; br_chat := br_chat b; br_prefs := p; br_watches := br_watches b;
  br_rows := br_rows b; br_default_bot := br_default_bot b |}.
Definition with_watches (b : bridge) (w : registry) : bridge := {|
  br_lanes := br_lanes b; br_chat := br_chat b; br_prefs := br_prefs b; br_watches := w;
  br_rows := br_rows b; br_default_bot := br_default_bot b |}.
Definition with_lanes (b : bridge) (l : gmap rstr TurnLane) : bridge := {|
  br_lanes := l; br_chat := br_chat b; br_prefs := br_prefs b; br_watches := br_watches b;
  br_rows := br_rows b; br_default_bot := br_default_bot b |}.

(** A bridge restart: only the daemon's rows survive. *)
Definition restarted (b : bridge) : bridge := {|
  br_lanes := ∅; br_chat := ∅; br_prefs := ∅; br_watches := ∅;
  br_rows := br_rows b; br_default_bot := br_default_bot b |}.

Section Conversations.
Context `{JT : JsonText}.
Variables (dm : daemon) (fs : files) (hash_order : registry -> list rstr).

(** [str::to_lowercase] with its Unicode tables. *)
Variable unicode_lower : rstr -> rstr.

Definition state_get (b : bridge) (conv : rstr) (key : string) : option rstr :=
  if dm_up dm then br_rows b !! (conv, str key) else None.

(** Failures only warn. *)
Definition state_set (b : bridge) (conv : rstr) (key : string) (value : rstr) : bridge :=
  if dm_up dm then with_rows b (<[(conv, str key) := value]> (br_rows b)) else b.

Definition state_del (b : bridge) (conv : rstr) (key : string) : bridge :=
  if dm_up dm then with_rows b (delete (conv, str key) (br_rows b)) else b.

Definition opt_json (o : option rstr) : json := match o with Some s => JStr s | None => JNull end.

Definition prefs_value (p : ChatPrefs) : json :=
  JObj [(str "backend", opt_json (pf_backend p)); (str "cwd", opt_json (pf_cwd p)); (str "bot", opt_json (pf_bot p))].

Definition prefs_json (p : ChatPrefs) : rstr := to_string (prefs_value p).

Definition prefs_parse (raw : rstr) : ChatPrefs :=
  let v := default JNull (from_str raw) in
  {| pf_backend := as_str v.["backend"]; pf_cwd := as_str v.["cwd"]; pf_bot := as_str v.["bot"] |}.

Definition set_chat (b : bridge) (conv sid : rstr) (now : Z) : bridge :=
  with_chat b (<[conv := {| cs_session := sid; cs_last_used := now |}]> (br_chat b)).

(** Entries idle for a day go. *)
Definition evict_idle (now : Z) (c : gmap rstr ChatSession) : gmap rstr ChatSession :=
  filter (fun e : rstr * ChatSession => (now - cs_last_used e.2 < SESSION_IDLE_EVICTION)%Z) c.

(** [session_for] up to the creation: the cached entry, or the daemon's row. *)
Definition session_lookup (b : bridge) (conv : rstr) (now : Z) : bridge * option rstr :=
  match br_chat b !! conv with
  | Some e => (set_chat b conv (cs_session e) now, Some (cs_session e))
  | None =>
      let b := with_chat b (evict_idle now (br_chat b)) in
      match state_get b conv "session" with
      | Some sid => (set_chat (with_chat b (evict_idle now (br_chat b))) conv sid now, Some sid)
      | None => (b, None)
      end
  end.

(** The preferences a new session is created with: this run's, else the stored
    ones. *)
Definition effective_prefs (b : bridge) (conv : rstr) : ChatPrefs :=
  let cached := default default_prefs (br_prefs b !! conv) in
  match state_get b conv "prefs" with
  | Some raw => if decide (cached = default_prefs) then prefs_parse raw else cached
  | None => cached
  end.

Definition create_session (b : bridge) (conv : rstr) : option rstr :=
  let p := effective_prefs b conv in
  dm_create dm (pf_backend p) (default (fs_current_dir fs) (pf_cwd p))
    (match pf_bot p with Some bot => Some bot | None => br_default_bot b end).

(** After the creation: an entry made meanwhile wins, and the new session is
    deleted as an orphan. *)
Definition session_insert (b : bridge) (conv sid : rstr) (now : Z) : bridge * rstr * option rstr :=
  let b := state_set b conv "session" sid in
  match br_chat b !! conv with
  | Some e => (b, cs_session e, Some sid)
  | None => (set_chat b conv sid now, sid, None)
  end.

(** Without interference between its parts. *)
Definition session_for (b : bridge) (conv : rstr) (now : Z) : bridge * option rstr :=
  match session_lookup b conv now with
  | (b, Some sid) => (b, Some sid)
  | (b, None) =>
      match create_session b conv with
      | None => (b, None)
      | Some sid => let '(b, sid, _) := session_insert b conv sid now in (b, Some sid)
      end
  end.

(** A session the daemon no longer has: the turn drops the mapping and asks
    again, once. *)
Definition forget_session (b : bridge) (conv : rstr) : bridge :=
  state_del (with_chat b (delete conv (br_chat b))) conv "session".

Definition session_retry (b : bridge) (conv : rstr) (now : Z) : bridge * option rstr :=
  session_for (forget_session b conv) conv now.

(** ** The stored watch registry *)

Definition WATCH_STATE_CONV : rstr := str "__bridge_watches".

Definition watch_value (w : Watch) : json :=
  JObj [(str "session", JStr (w_session w)); (str "title", JStr (w_title w));
        (str "backend", JStr (w_backend w)); (str "chat", JStr (w_chat w)); (str "thread", opt_json (w_thread w))].

Definition watches_value (m : registry) : json :=
  JObj (map (fun k => (k, JArr (map watch_value (default [] (m !! k))))) (hash_order m)).

Definition watches_json (m : registry) : rstr := to_string (watches_value m).

Definition watch_parse (v : json) : option Watch :=
  match as_str v.["session"] with
  | None => None
  | Some sid => Some {|
      w_session := sid; w_title := default [] (as_str v.["title"]);
      w_backend := default [] (as_str v.["backend"]); w_chat := default [] (as_str v.["chat"]);
      w_thread := as_str v.["thread"] |}
  end.

Fixpoint entry_arrays (kvs : list (rstr * json)) : option (list (rstr * list json)) :=
  match kvs with
  | [] => Some []
  | (k, v) :: r =>
      match as_array v, entry_arrays r with
      | Some l, Some ls => Some ((k, l) :: ls)
      | _, _ => None
      end
  end.

(** An object of arrays, or nothing; entries without a session are skipped and
    conversations left empty dropped. *)
Definition watches_parse (raw : rstr) : registry :=
  match from_str raw with
  | Some (JObj kvs) =>
      match entry_arrays kvs with
      | Some l => retain_watching (fold_left (fun m e => <[e.1 := omap watch_parse e.2]> m) l ∅)
      | None => ∅
      end
  | _ => ∅
  end.

Definition persist_watches (b : bridge) : bridge :=
  state_set b WATCH_STATE_CONV "registry" (watches_json (br_watches b)).

(** The resubscriptions with the daemon change nothing here. *)
Definition restore_watches (b : bridge) : bridge :=
  match state_get b WATCH_STATE_CONV "registry" with
  | Some raw =>
      let m := watches_parse raw in
      if decide (m = ∅) then b else with_watches b m
  | None => b
  end.

(** ** Looking sessions up *)

(** [resolve_session]: a unique id prefix, else a unique title substring. *)
Inductive resolve_error := ListFailed | NoSessions | NoMatch | Ambiguous (ids : list rstr).

Definition resolve_session (arg : rstr) : result (rstr * rstr * rstr) resolve_error :=
  match dm_sessions dm with
  | None => Err ListFailed
  | Some [] => Err NoSessions
  | Some rows =>
      let id (r : rstr * rstr * rstr) := r.1.1 in
      let title (r : rstr * rstr * rstr) := r.2 in
      let backend (r : rstr * rstr * rstr) := r.1.2 in
      let one r := (id r, title r, backend r) in
      let by_prefix := List.filter (fun r => starts_with arg (id r)) rows in
      let by_title := List.filter (fun r => negb (is_empty (title r))
        && contains (unicode_lower arg) (unicode_lower (title r))) rows in
      match by_prefix, by_title with
      | [r], _ => Ok (one r)
      | [], [r] => Ok (one r)
      | [], [] => Err NoMatch
      | [], _ => Err (Ambiguous (map id by_title))
      | _, _ => Err (Ambiguous (map id by_prefix))
      end
  end.

(** ** The [!] commands *)

(** What is delivered to the chat; the wording is left out. *)
Inductive notice :=
| NReset | NDeleted (sid : rstr) | NDeleteFailed | NNoSession
| NCancel (session : option rstr) (dropped : nat)
| NUsage (verb : rstr) | NNotAbsolute | NNotDirectory | NCwdSet
| NRequestFailed | NUnknown (arg : rstr) | NUnavailable | NBackendSet (id : rstr) | NBotSet (id : rstr) | NBotCleared
| NForked (sid : rstr) | NForkFailed
| NResolve (e : resolve_error) | NAlreadyAttached | NResumeFailed | NAttached (sid : rstr) (watched : bool)
| NWatching (sid : rstr) | NNotWatching (sid : rstr) | NStopped (n : nat) | NNotFollowing | NAmbiguous (sids : list rstr)
| NInfo (verb : rstr)
| NQueued (n : nat) | NQueueFull | NAnswered (reply : rstr) | NWatchedAnswer (word : rstr) | NPointAtWeb.

(** [split_once(char::is_whitespace)], the rest trimmed. *)
Definition split_command (cmd : rstr) : rstr * rstr :=
  match find_index is_whitespace cmd with
  | Some i => (take i cmd, trim (drop (S i) cmd))
  | None => (cmd, [])
  end.

Definition current (b : bridge) (conv : rstr) : option rstr := cs_session <$> br_chat b !! conv.

Definition drop_chat (b : bridge) (conv : rstr) : bridge := with_chat b (delete conv (br_chat b)).

(** A preference changes: in the cache, then the whole of it in the row. *)
Definition update_prefs (b : bridge) (conv : rstr) (f : ChatPrefs -> ChatPrefs) : bridge :=
  let p := f (default default_prefs (br_prefs b !! conv)) in
  state_set (with_prefs b (<[conv := p]> (br_prefs b))) conv "prefs" (prefs_json p).

Definition set_cwd (cwd : rstr) (p : ChatPrefs) : ChatPrefs :=
  {| pf_backend := pf_backend p; pf_cwd := Some cwd; pf_bot := pf_bot p |}.
Definition set_backend (id : rstr) (p : ChatPrefs) : ChatPrefs :=
  {| pf_backend := Some id; pf_cwd := pf_cwd p; pf_bot := pf_bot p |}.
Definition set_bot (bot : option rstr) (p : ChatPrefs) : ChatPrefs :=
  {| pf_backend := pf_backend p; pf_cwd := pf_cwd p; pf_bot := bot |}.

(** [!agent] and [!bot] also drop the conversation's session. *)
Definition rebind (b : bridge) (conv : rstr) (f : ChatPrefs -> ChatPrefs) : bridge :=
  drop_chat (state_del (update_prefs b conv f) conv "session") conv.

Definition unwatch (b : bridge) (conv sid : rstr) : bridge :=
  persist_watches (with_watches b (watch_remove (br_watches b) conv sid)).

(** [watch_add] with the subscription: [false] when the daemon refuses it. *)
Definition add_watch (b : bridge) (conv : rstr) (w : Watch) : bridge * bool :=
  if dm_watch dm (w_session w)
  then (persist_watches (with_watches b (watch_add hash_order (br_watches b) conv w)), true)
  else (b, false).

Definition watch_of (s : rstr * rstr * rstr) (chat : rstr) (thread : option rstr) : Watch :=
  let '(sid, title, backend) := s in
  {| w_session := sid; w_title := title; w_backend := backend; w_chat := chat; w_thread := thread |}.

Definition cmd_delete (b : bridge) (conv : rstr) : bridge * notice :=
  let b := state_del b conv "session" in
  let sid := current b conv in
  let b := drop_chat b conv in
  match sid with
  | None => (b, NNoSession)
  | Some sid =>
      if dm_delete_session dm sid
      then (unwatch b conv sid, NDeleted sid)
      else (b, NDeleteFailed)
  end.

Definition cmd_cancel (b : bridge) (conv : rstr) : bridge * notice :=
  let '(lanes, dropped) := clear_queue (br_lanes b) conv in
  (with_lanes b lanes, NCancel (current b conv) (length dropped)).

Definition cmd_cwd (b : bridge) (conv arg : rstr) : bridge * notice :=
  if is_empty arg then (b, NUsage (str "cwd"))
  else if negb (fs_is_absolute fs arg) then (b, NNotAbsolute)
  else if negb (fs_is_dir fs arg) then (b, NNotDirectory)
  else (update_prefs b conv (set_cwd arg), NCwdSet).

Definition cmd_agent (b : bridge) (conv arg : rstr) : bridge * notice :=
  match dm_backends dm with
  | None => (b, NRequestFailed)
  | Some backends =>
      if is_empty arg then (b, NUsage (str "agent"))
      else match find_first (fun e => str_eqb e.1 arg) backends with
      | None => (b, NUnknown arg)
      | Some (_, false) => (b, NUnavailable)
      | Some (id, true) => (rebind b conv (set_backend id), NBackendSet id)
      end
  end.

Definition cmd_bot (b : bridge) (conv arg : rstr) : bridge * notice :=
  match dm_bots dm with
  | None => (b, NRequestFailed)
  | Some bots =>
      if is_empty arg then (b, NUsage (str "bot"))
      else if str_eqb arg (str "off") then (rebind b conv (set_bot None), NBotCleared)
      else match find_first (fun e : rstr * rstr => str_eqb e.1 arg) bots with
      | None => (b, NUnknown arg)
      | Some (id, _) => (rebind b conv (set_bot (Some id)), NBotSet id)
      end
  end.

Definition cmd_fork (b : bridge) (conv : rstr) (now : Z) : bridge * notice :=
  match current b conv with
  | None => (b, NNoSession)
  | Some sid =>
      match dm_fork dm sid with
      | None => (b, NForkFailed)
      | Some new => (state_set (set_chat b conv new now) conv "session" new, NForked new)
      end
  end.

Definition cmd_resume (b : bridge) (conv chat : rstr) (thread : option rstr) (arg : rstr) (now : Z)
  : bridge * notice :=
  if is_empty arg then (b, NUsage (str "resume"))
  else match resolve_session arg with
  | Err e => (b, NResolve e)
  | Ok s =>
      let sid := s.1.1 in
      if bool_decide (current b conv = Some sid) then (b, NAlreadyAttached)
      else if negb (dm_resume dm sid) then (b, NResumeFailed)
      else
        let b := state_set (set_chat b conv sid now) conv "session" sid in
        let '(b, ok) := add_watch b conv (watch_of s chat thread) in
        (b, NAttached sid ok)
  end.

Definition cmd_watch (b : bridge) (conv chat : rstr) (thread : option rstr) (arg : rstr) : bridge * notice :=
  if is_empty arg then (b, NInfo (str "watch"))
  else match resolve_session arg with
  | Err e => (b, NResolve e)
  | Ok s =>
      let '(b, ok) := add_watch b conv (watch_of s chat thread) in
      (b, if ok then NWatching s.1.1 else NNotWatching s.1.1)
  end.

Definition cmd_unwatch (b : bridge) (conv arg : rstr) : bridge * notice :=
  let ws := default [] (br_watches b !! conv) in
  if is_empty arg then (b, NInfo (str "unwatch"))
  else if str_eqb arg (str "all") then
    let b := with_watches b (delete conv (br_watches b)) in
    (if 0 <? length ws then persist_watches b else b, NStopped (length ws))
  else
    let candidates := List.filter (fun w => starts_with arg (w_session w)
      || (negb (is_empty (w_title w)) && contains (unicode_lower arg) (unicode_lower (w_title w)))) ws in
    match candidates with
    | [] => (b, NNotFollowing)
    | [w] => (unwatch b conv (w_session w), NStopped 1)
    | _ => (b, NAmbiguous (map w_session candidates))
    end.

(** The commands that only ask and tell ([grant], [grants], [ungrant],
    [usage], [sessions], [help] and the unknown ones) are [NInfo]. *)
Definition handle_command (b : bridge) (conv chat : rstr) (thread : option rstr) (cmd : rstr) (now : Z)
  : bridge * notice :=
  let '(verb, arg) := split_command cmd in
  let verb_is v := str_eqb verb (str v) in
  if verb_is "new" then (state_del (drop_chat b conv) conv "session", NReset)
  else if verb_is "delete" then cmd_delete b conv
  else if verb_is "cancel" then cmd_cancel b conv
  else if verb_is "cwd" then cmd_cwd b conv arg
  else if verb_is "agent" then cmd_agent b conv arg
  else if verb_is "bot" then cmd_bot b conv arg
  else if verb_is "fork" then cmd_fork b conv now
  else if verb_is "resume" then cmd_resume b conv chat thread arg now
  else if verb_is "watch" then cmd_watch b conv chat thread arg
  else if verb_is "unwatch" then cmd_unwatch b conv arg
  else (b, NInfo verb).

(** ** One inbound message *)

(** The bridge and its asks after [handle_message], what it tells the chat and
    the prompt whose turn it starts. *)
Definition handle_message (allowed : option (gset rstr)) (b : bridge) (s : ask_state) (m : Incoming) (now : Z)
  : bridge * ask_state * option notice * option QueuedPrompt :=
  let s' := answer allowed s m in
  match classify allowed (as_demux s) m with
  | Blocked | Swallowed => (b, s', None, None)
  | AnswerWatched _ word => (b, s', Some (NWatchedAnswer word), None)
  | PointAtWeb => (b, s', Some NPointAtWeb, None)
  | Answered _ reply => (b, s', Some (NAnswered reply), None)
  | Command cmd =>
      let '(b, n) := handle_command b (conv_id m) (in_chat m) (in_thread m) cmd now in
      (b, s', Some n, None)
  | Prompt p =>
      let '(lanes, a) := lane_offer (br_lanes b) p in
      (with_lanes b lanes, s',
       match a with Queued n => Some (NQueued n) | Full => Some NQueueFull | Start _ => None end,
       match a with Start p => Some p | _ => None end)
  end.

(** ** Events of watched sessions *)

(** Conversation and watch of everybody following [sid]. *)
Definition watchers (m : registry) (sid : rstr) : list (rstr * Watch) :=
  List.filter (fun e : rstr * Watch => watches sid e.2)
    (concat (map (fun k => map (fun w => (k, w)) (default [] (m !! k))) (hash_order m))).

(** [notify_watchers], called when no local turn owns the session: the asks it
    leaves answerable and the watches it pings. *)
Definition notify_watchers (b : bridge) (d : Demux) (sid : rstr) (event : json) : Demux * list Watch :=
  let ws := watchers (br_watches b) sid in
  let others := filter (fun e : rstr * WatchedAsk => wa_session e.2 <> sid) (dx_watched d) in
  let kind := default [] (as_str event.["type"]) in
  if is_empty ws then (d, [])
  else if str_eqb kind (str "turn_completed") || str_eqb kind (str "turn_failed") || str_eqb kind (str "turn_canceled")
  then (with_watched d others, map snd ws)
  else if str_eqb kind (str "permission_requested") then
    let request := default [] (as_str event.["id"]) in
    if is_empty request then (d, [])
    else
      let a := {| wa_session := sid; wa_request := request; wa_actions := default [] (as_array event.["actions"]) |} in
      (with_watched d (fold_left (fun m e => <[e.1 := a]> m) ws (dx_watched d)), map snd ws)
  else if str_eqb kind (str "permission_resolved") then (with_watched d others, [])
  else (d, []).

(** It moves the asks by steps of theirs. *)
Lemma notify_watchers_steps (allowed : option (gset rstr)) (b : bridge) (s : ask_state) (sid : rstr) (event : json) :
  exists s', star (ask_step allowed) s s' /\ as_demux s' = (notify_watchers b (as_demux s) sid event).1.
Proof.
  unfold notify_watchers. set (kind := default [] _). set (ws := watchers _ _).
  assert (exists s', star (ask_step allowed) s s' /\ as_demux s' = as_demux s) as Hsame by (exists s; by split; [constructor|]).
  assert (exists s', star (ask_step allowed) s s' /\ as_demux s' = unasked (as_demux s) sid) as Hun
    by (eexists; split; [apply star_one, ak_unasked|done]).
  destruct (is_empty ws); [done|]. destruct (_ || _ || _); [done|].
  destruct (str_eqb kind (str "permission_requested")); [|by destruct (str_eqb kind _)].
  destruct (is_empty _); [done|]. set (a := {| wa_session := sid |}). clearbody a. simpl. clear Hsame Hun.
  revert s. induction ws as [|[conv w] ws IH]; intros s; simpl; [exists s; split; [constructor|by destruct (as_demux s)]|].
  destruct (IH (pinged s conv a)) as (s' & Hs & Hd). exists s'. split; [|exact Hd].
  eapply star_step; [apply ak_pinged|exact Hs].
Qed.

(** ** Facts about the conversations *)

Hypothesis hash_order_keys : forall m k, k ∈ hash_order m <-> is_Some (m !! k).
Hypothesis hash_order_nodup : forall m, NoDup (hash_order m).

Lemma watch_parse_value w : watch_parse (watch_value w) = Some w.
Proof. destruct w as [s t b c [th|]]; reflexivity. Qed.

Lemma omap_watch_parse ws : omap watch_parse (map watch_value ws) = ws.
Proof. induction ws as [|w ws IH]; [done|]. cbn [map omap list_omap]. by rewrite watch_parse_value, IH. Qed.

Lemma entry_arrays_value (m : registry) ks :
  entry_arrays (map (fun k => (k, JArr (map watch_value (default [] (m !! k))))) ks)
  = Some (map (fun k => (k, map watch_value (default [] (m !! k)))) ks).
Proof. induction ks as [|k ks IH]; [done|]. cbn [map entry_arrays as_array]. by rewrite IH. Qed.

Lemma fold_registry (m : registry) (ks : list rstr) (m0 : registry) (k : rstr) :
  NoDup ks ->
  fold_left (fun (r : registry) e => <[e.1 := omap watch_parse e.2]> r)
    (map (fun k => (k, map watch_value (default [] (m !! k)))) ks) m0 !! k
  = if decide (k ∈ ks) then Some (default [] (m !! k)) else m0 !! k.
Proof.
  revert m0; induction ks as [|k0 ks IH]; intros m0 Hnd.
  { rewrite decide_False; [done|apply not_elem_of_nil]. }
  apply NoDup_cons in Hnd as [Hni Hnd]. cbn [map fold_left fst snd]. rewrite IH by done.
  rewrite omap_watch_parse. destruct (decide (k ∈ ks)) as [Hin|Hout].
  - rewrite decide_True; [done|by right].
  - destruct (decide (k0 = k)) as [<-|Hne].
    + rewrite lookup_insert_eq, decide_True; [done|by left].
    + rewrite lookup_insert_ne, decide_False; [done| |done]. rewrite elem_of_cons. intros [?|?]; congruence.
Qed.

(** A registry without empty lists is read back from its own text. *)
Lemma watches_roundtrip m :
  from_str (watches_json m) = Some (watches_value m) -> (forall k ws, m !! k = Some ws -> ws <> []) ->
  watches_parse (watches_json m) = m.
Proof using hash_order_keys hash_order_nodup.
  intros Hread Hne. unfold watches_parse. rewrite Hread. unfold watches_value. rewrite entry_arrays_value.
  apply map_eq. intros k. unfold retain_watching.
  assert (fold_left (fun (r : registry) e => <[e.1 := omap watch_parse e.2]> r)
    (map (fun k => (k, map watch_value (default [] (m !! k)))) (hash_order m)) (∅ : registry) = m) as ->.
  { apply map_eq. intros k'. rewrite fold_registry by done. destruct (decide (k' ∈ hash_order m)) as [Hin|Hout].
    - apply hash_order_keys in Hin as [ws ->]. done.
    - rewrite lookup_empty. destruct (m !! k') eqn:E; [|done]. exfalso. apply Hout, hash_order_keys. by exists l. }
  destruct (m !! k) as [ws|] eqn:E.
  - apply map_lookup_filter_Some. split; [done|]. simpl. by apply (Hne k).
  - apply map_lookup_filter_None. by left.
Qed.

(** The rows remember what the maps hold: every conversation's session, and
    the registry of watches. *)
Record remembered (b : bridge) : Prop := {
  rm_session conv e : br_chat b !! conv = Some e -> br_rows b !! (conv, str "session") = Some (cs_session e);
  rm_watches : br_rows b !! (WATCH_STATE_CONV, str "registry") = Some (watches_json (br_watches b)) \/
               (br_rows b !! (WATCH_STATE_CONV, str "registry") = None /\ br_watches b = ∅);
  rm_registry : registry_ok (br_watches b)
}.

Hypothesis daemon_up : dm_up dm = true.

Lemma rm_set_chat b conv sid now :
  remembered b -> remembered (state_set (set_chat b conv sid now) conv "session" sid).
Proof using daemon_up.
  intros [Hs Hw Hr]. unfold state_set. rewrite daemon_up. split; simpl.
  - intros c e. destruct (decide (conv = c)) as [<-|Hne].
    + rewrite !lookup_insert_eq. by intros [= <-].
    + rewrite !lookup_insert_ne by congruence. apply Hs.
  - rewrite lookup_insert_ne by done. done.
  - done.
Qed.

Lemma rm_forget b conv : remembered b -> remembered (state_del (drop_chat b conv) conv "session").
Proof using daemon_up.
  intros [Hs Hw Hr]. unfold state_del. rewrite daemon_up. split; simpl.
  - intros c e [Hne H]%lookup_delete_Some. rewrite lookup_delete_ne by congruence. by apply Hs.
  - rewrite lookup_delete_ne by done. done.
  - done.
Qed.

Lemma rm_fewer b c : remembered b -> (forall k e, c !! k = Some e -> exists e0, br_chat b !! k = Some e0 /\ cs_session e0 = cs_session e) ->
  remembered (with_chat b c).
Proof.
  intros [Hs Hw Hr] Hc. split; simpl; try done. intros k e H. destruct (Hc k e H) as (e0 & H0 & <-). by apply Hs.
Qed.

Lemma rm_watches_set b w : remembered b -> registry_ok w -> remembered (persist_watches (with_watches b w)).
Proof using daemon_up.
  intros [Hs Hw Hr] Hok. unfold persist_watches, state_set. rewrite daemon_up. split; simpl.
  - intros c e H. rewrite lookup_insert_ne by done. by apply Hs.
  - left. by rewrite lookup_insert_eq.
  - done.
Qed.

Lemma rm_prefs b conv f : remembered b -> remembered (update_prefs b conv f).
Proof using daemon_up.
  intros [Hs Hw Hr]. unfold update_prefs, state_set. rewrite daemon_up. split; simpl.
  - intros c e H. rewrite lookup_insert_ne by done. by apply Hs.
  - rewrite lookup_insert_ne by done. done.
  - done.
Qed.

Lemma rm_rebind b conv f : remembered b -> remembered (rebind b conv f).
Proof using daemon_up.
  intros H. pose proof (rm_forget _ conv (rm_prefs b conv f H)) as H'. unfold rebind, state_del, drop_chat in *.
  by rewrite daemon_up in *.
Qed.

Lemma rm_lanes b l : remembered b -> remembered (with_lanes b l).
Proof. by intros []. Qed.

Lemma rm_add_watch b conv w : remembered b -> remembered (add_watch b conv w).1.
Proof using daemon_up hash_order_keys.
  intros H. unfold add_watch. destruct (dm_watch dm (w_session w)); [|done].
  apply rm_watches_set; [done|]. apply watch_add_ok; [by intros; apply hash_order_keys|]. by destruct H.
Qed.

Lemma rm_unwatch b conv sid : remembered b -> remembered (unwatch b conv sid).
Proof using daemon_up. intros H. apply rm_watches_set; [done|]. apply watch_remove_ok. by destruct H. Qed.

Lemma rm_unwatch_all b conv :
  remembered b ->
  remembered (if 0 <? length (default [] (br_watches b !! conv))
              then persist_watches (with_watches b (delete conv (br_watches b)))
              else with_watches b (delete conv (br_watches b))).
Proof using daemon_up unicode_lower.
  intros H. destruct (br_watches b !! conv) as [ws|] eqn:E.
  - assert ((0 <? length (default [] (Some ws))) = true) as ->.
    { apply Nat.ltb_lt. destruct (ro_lists _ (rm_registry _ H) _ _ E) as [Hne _]. destruct ws; simpl; [done|lia]. }
    apply rm_watches_set; [done|]. destruct (rm_registry _ H) as [Hl Ht]. split.
    + intros k l [_ Hk]%lookup_delete_Some. by apply (Hl k).
    + pose proof (watch_total_delete _ conv ws E). lia.
  - simpl. rewrite delete_id by done. by destruct b.
Qed.

Lemma rm_command b conv chat thread cmd now :
  remembered b -> remembered (handle_command b conv chat thread cmd now).1.
Proof using daemon_up hash_order_keys.
  intros H. unfold handle_command. destruct (split_command cmd) as [verb arg].
  destruct (str_eqb verb (str "new")); [by apply rm_forget|].
  destruct (str_eqb verb (str "delete")).
  { unfold cmd_delete. pose proof (rm_forget b conv H) as Hf. unfold state_del, drop_chat, current in *.
    rewrite daemon_up in *. cbn [br_chat with_rows]. destruct (br_chat b !! conv) as [e|]; [|done].
    cbn [fmap option_fmap option_map]. destruct (dm_delete_session dm _); [by apply rm_unwatch|done]. }
  destruct (str_eqb verb (str "cancel")).
  { unfold cmd_cancel. destruct (clear_queue _ _) as [l d]. by apply rm_lanes. }
  destruct (str_eqb verb (str "cwd")).
  { unfold cmd_cwd. destruct (is_empty arg); [done|]. destruct (negb (fs_is_absolute fs arg)); [done|].
    destruct (negb _); [done|]. by apply rm_prefs. }
  destruct (str_eqb verb (str "agent")).
  { unfold cmd_agent. destruct (dm_backends dm) as [bs|]; [|done]. destruct (is_empty arg); [done|].
    destruct (find_first _ bs) as [[id []]|]; try done. by apply rm_rebind. }
  destruct (str_eqb verb (str "bot")).
  { unfold cmd_bot. destruct (dm_bots dm) as [bs|]; [|done]. destruct (is_empty arg); [done|].
    destruct (str_eqb arg _); [by apply rm_rebind|].
    destruct (find_first _ bs) as [[id n]|]; [by apply rm_rebind|done]. }
  destruct (str_eqb verb (str "fork")).
  { unfold cmd_fork. destruct (current b conv) as [sid|]; [|done].
    destruct (dm_fork dm sid); [by apply rm_set_chat|done]. }
  destruct (str_eqb verb (str "resume")).
  { unfold cmd_resume. destruct (is_empty arg); [done|]. destruct (resolve_session arg) as [s|e]; [|done].
    destruct (bool_decide _); [done|]. destruct (negb _); [done|].
    pose proof (rm_add_watch (state_set (set_chat b conv s.1.1 now) conv "session" s.1.1) conv (watch_of s chat thread)
      (rm_set_chat b conv s.1.1 now H)) as Hw.
    by destruct (add_watch _ _ _). }
  destruct (str_eqb verb (str "watch")).
  { unfold cmd_watch. destruct (is_empty arg); [done|]. destruct (resolve_session arg) as [s|e]; [|done].
    pose proof (rm_add_watch b conv (watch_of s chat thread) H) as Hw. by destruct (add_watch _ _ _). }
  destruct (str_eqb verb (str "unwatch")); [|done].
  unfold cmd_unwatch. destruct (is_empty arg); [done|]. destruct (str_eqb arg _); [by apply rm_unwatch_all|].
  destruct (List.filter _ _) as [|w [|w' ws]]; try done. by apply rm_unwatch.
Qed.

Lemma rm_session_for b conv now : remembered b -> remembered (session_for b conv now).1.
Proof using daemon_up.
  intros H. unfold session_for, session_lookup. destruct (br_chat b !! conv) as [e|] eqn:E.
  - destruct H as [Hs Hw Hr]. split; simpl; try done. intros c x.
    destruct (decide (conv = c)) as [<-|Hne]; [|rewrite lookup_insert_ne by done; apply Hs].
    rewrite lookup_insert_eq. intros [= <-]. simpl. by apply Hs.
  - assert (remembered (with_chat b (evict_idle now (br_chat b)))) as H1.
    { apply rm_fewer; [done|]. intros k e [Hk _]%map_lookup_filter_Some. by exists e. }
    set (b1 := with_chat b (evict_idle now (br_chat b))) in *.
    destruct (state_get b1 conv "session") as [sid|] eqn:Eg.
    + unfold state_get in Eg. rewrite daemon_up in Eg. destruct H1 as [Hs Hw Hr].
      split; simpl; try done. intros c x. destruct (decide (conv = c)) as [<-|Hne].
      * rewrite lookup_insert_eq. intros [= <-]. done.
      * rewrite lookup_insert_ne by done. intros [Hx _]%map_lookup_filter_Some. by apply Hs.
    + destruct (create_session b1 conv) as [sid|]; [|done]. unfold session_insert.
      assert (br_chat (state_set b1 conv "session" sid) !! conv = None) as ->.
      { unfold state_set. rewrite daemon_up. simpl. apply map_lookup_filter_None. by left. }
      pose proof (rm_set_chat b1 conv sid now H1) as Hset. unfold state_set, set_chat in *. by rewrite daemon_up in *.
Qed.

(** The session found is the one the map and the row hold. *)
Lemma session_for_found b conv now b' sid :
  remembered b -> session_for b conv now = (b', Some sid) ->
  br_chat b' !! conv = Some {| cs_session := sid; cs_last_used := now |} /\
  br_rows b' !! (conv, str "session") = Some sid.
Proof using daemon_up.
  intros H Hs. assert (br_chat b' !! conv = Some {| cs_session := sid; cs_last_used := now |}) as Hc.
  { revert Hs. unfold session_for, session_lookup. destruct (br_chat b !! conv) as [e|] eqn:E.
    - intros [= <- <-]. simpl. by rewrite lookup_insert_eq.
    - destruct (state_get _ conv "session") as [s|].
      + intros [= <- <-]. simpl. by rewrite lookup_insert_eq.
      + destruct (create_session _ conv) as [s|]; [|done]. unfold session_insert.
        assert (br_chat (state_set (with_chat b (evict_idle now (br_chat b))) conv "session" s) !! conv = None) as ->.
        { unfold state_set. rewrite daemon_up. simpl. apply map_lookup_filter_None. by left. }
        intros [= <- <-]. simpl. by rewrite lookup_insert_eq. }
  split; [done|]. pose proof (rm_session_for b conv now H) as Hr. rewrite Hs in Hr.
  by apply (rm_session _ Hr) in Hc.
Qed.
End Conversations.

(** ** Conversations over time *)

(** Commands, turns looking their session up (also after a stale one), and
    lanes changing, the daemon answering every state request. *)
Inductive conv_step `{JT : JsonText} (hash_order : registry -> list rstr) : bridge -> bridge -> Prop :=
| cv_command dm fs lower b conv chat thread cmd now :
    dm_up dm = true ->
    conv_step hash_order b (handle_command dm fs hash_order lower b conv chat thread cmd now).1
| cv_session dm fs b conv now :
    dm_up dm = true -> conv_step hash_order b (session_for dm fs b conv now).1
| cv_stale dm fs b conv now :
    dm_up dm = true -> conv_step hash_order b (session_retry dm fs b conv now).1
| cv_lanes b l : conv_step hash_order b (with_lanes b l).

Definition bridge_start (bot : option rstr) : bridge := {|
  br_lanes := ∅; br_chat := ∅; br_prefs := ∅; br_watches := ∅; br_rows := ∅; br_default_bot := bot |}.

Lemma conv_reach `{JT : JsonText} hash_order bot b :
  (forall m k, k ∈ hash_order m <-> is_Some (m !! k)) ->
  star (conv_step hash_order) (bridge_start bot) b -> remembered hash_order b.
Proof.
  intros Hk Hs. apply (star_invariant (conv_step hash_order) (remembered hash_order) (bridge_start bot) b); [|done|].
  - intros x y Hx Hstep. destruct Hstep as [dm fs lower b0 conv chat thread cmd now Hup|dm fs b0 conv now Hup
      |dm fs b0 conv now Hup|b0 l].
    + by apply rm_command.
    + by apply rm_session_for.
    + unfold session_retry. apply rm_session_for; [done|]. by apply rm_forget.
    + by apply rm_lanes.
  - split; [done|by right|]. split; [done|]. change (watch_total (br_watches (bridge_start bot))) with 0.
    unfold MAX_WATCHES_TOTAL. lia.
Qed.

(** ** Properties *)

(** C31: whatever messages, turn ends and cancellations interleave, in every
    conversation at most one turn runs; prompts start in the order they were
    accepted, each at most once and only if not dropped by a cancellation;
    those neither started nor dropped are exactly the queue, never more than
    three, and while there is one a turn is running whose end starts it. *)
Theorem lanes_fifo (s : lane_state) (conv : rstr) :
  star lane_step lane_start s ->
  fifo conv (l_log s) = Some (waiting (l_lanes s) conv) /\
  count (of_conv conv) (l_running s) <= 1 /\
  length (waiting (l_lanes s) conv) <= MAX_QUEUED_PROMPTS /\
  (forall p q, waiting (l_lanes s) conv = p :: q ->
     (exists r, r ∈ l_running s /\ q_conv r = conv) /\ (turn_finished (l_lanes s) conv).2 = Some p).
Proof.
  intros Hs. destruct (lane_reach s Hs) as [Hl Hc Hr Hf]. split; [apply Hf|].
  specialize (Hr conv). unfold waiting in *. destruct (l_lanes s !! conv) as [l|] eqn:E.
  - destruct (Hl _ _ E) as [_ Hlen]. split; [lia|]. split; [done|]. intros p q Hq. split.
    + destruct (count_pos (of_conv conv) (l_running s)) as (r & Hin & Hof); [lia|].
      exists r. split; [done|by apply of_conv_true].
    + unfold turn_finished. rewrite E. simpl in Hq. destruct l as [lv lq]. simpl in Hq. by rewrite Hq.
  - split; [lia|]. split; [simpl; lia|done].
Qed.

Lemma reply_word_spec (w : rstr) : reply_word w = true -> w ∈ [str "allow"; str "always"; str "deny"].
Proof.
  unfold reply_word. rewrite !orb_true_iff, !str_eqb_eq, !elem_of_cons. tauto.
Qed.

Lemma permission_response_allows (w : rstr) actions :
  behavior_is "allow" (permission_response_for w actions) = true <-> w <> str "deny".
Proof.
  unfold permission_response_for. rewrite <-str_eqb_neq. by destruct (str_eqb w (str "deny")).
Qed.

(** C30: who may allow a tool run through the chat.  An ask of a turn of the
    chat is only allowed by a message of the very sender whose prompt asked for
    it, in the same conversation and past the allowlist.  An ask of a session
    that is merely watched has no requester: any member whom the allowlist
    admits may answer it, by one of the words allow, always and deny alone, in a
    conversation it was shown in; what is sent is what that word stands for,
    and each time an ask is shown it is answered at most once.  Every own ask is
    answered to the daemon at most once, and every waiting one can come to its
    end. *)
Theorem ask_answered_by_requester (allowed : option (gset rstr)) (s : ask_state) :
  star (ask_step allowed) ask_start s ->
  (forall k r, (k, r) ∈ as_sent s -> behavior_is "allow" r = true ->
     exists m, (k, m) ∈ as_log s /\ admitted allowed m = true /\
       as_asked s !! k = Some (conv_id m, in_sender m)) /\
  NoDup (as_sent s).*1 /\
  (forall k w, as_waiters s !! k = Some w ->
     exists s', star (ask_step allowed) s s' /\ as_waiters s' !! k = None) /\
  (forall x, x ∈ as_watched s ->
     let word := to_lowercase (trim (in_text (wr_by x))) in
     admitted allowed (wr_by x) = true /\ word ∈ [str "allow"; str "always"; str "deny"] /\
     wr_sent x = permission_response_for word (wa_actions (wr_ask x)) /\
     (behavior_is "allow" (wr_sent x) = true <-> word <> str "deny")) /\
  map (fun x => (conv_id (wr_by x), wr_ask x)) (as_watched s) ⊆+ as_pinged s.
Proof.
  intros Hs. pose proof (ask_reach allowed s Hs) as H. destruct (watch_reach allowed s Hs) as [Hw Hp].
  split; [|split; [|split; [|split]]].
  - intros k r Hk Hr. destruct (ai_sent _ _ H k r Hk Hr) as [m Hm]. exists m.
    by destruct (ai_log _ _ H k m Hm) as (? & ? & _).
  - apply (ai_once _ _ H).
  - intros k w. apply waiter_ends.
  - intros x Hx. rewrite Forall_forall in Hw. destruct (Hw x Hx) as (Hadm & Hword & Hsent).
    split; [done|]. split; [by apply reply_word_spec|]. split; [done|]. rewrite Hsent. apply permission_response_allows.
  - etrans; [|exact Hp]. by apply submseteq_inserts_r.
Qed.

(** Two asks of one turn: the second takes the lane of the first, which is
    thereby denied, and the echo of that denial takes the lane of the second:
    whatever is typed later, neither is allowed. *)
Theorem parallel_asks_denied (allowed : option (gset rstr)) (s s2 : ask_state) (conv : rstr) (l : PendingAskLane)
  (requester : option rstr) (session request : rstr) (actions questions : list json) (q : bool) :
  star (ask_step allowed) ask_start s -> dx_pending (as_demux s) !! conv = Some l ->
  star (ask_step allowed) (resolved (ask s conv requester session request actions questions q) conv) s2 ->
  forall r, (pa_answer l, r) ∈ as_sent s2 \/ (as_next s, r) ∈ as_sent s2 -> behavior_is "allow" r = false.
Proof.
  intros Hs Hl H2 r. pose proof (ask_reach allowed s Hs) as Hi.
  set (s1 := ask s conv requester session request actions questions q) in *.
  assert (ask_inv allowed s1) as Hi1 by (by apply ask_inv_ask).
  intros [Hr|Hr].
  - assert (lost (pa_answer l) (resolved s1 conv)) as Hlost.
    { apply (lost_step allowed _ s1); [|apply ak_resolved]. subst s1. by apply (ask_supersedes allowed). }
    by apply (lo_sent _ _ (lost_star allowed _ _ _ H2 Hlost)).
  - assert (lost (as_next s) (resolved s1 conv)) as Hlost.
    { apply (resolved_lost allowed s1 conv {| pa_requester := requester; pa_answer := as_next s;
        pa_question := q; pa_questions := questions |} Hi1). simpl. by rewrite lookup_insert_eq. }
    by apply (lo_sent _ _ (lost_star allowed _ _ _ H2 Hlost)).
Qed.

(** After any commands and turns, with the daemon answering, a
    conversation follows at most eight sessions, each once, and all of them
    together at most sixty-four; and after a restart every conversation finds
    its session again, and the watch registry is what it was as far as the
    daemon's JSON text reads back. *)
Theorem conversations_survive_restart `{JT : JsonText} (hash_order : registry -> list rstr) (bot : option rstr)
  (b : bridge) :
  (forall m k, k ∈ hash_order m <-> is_Some (m !! k)) -> (forall m, NoDup (hash_order m)) ->
  star (conv_step hash_order) (bridge_start bot) b ->
  (forall conv ws, br_watches b !! conv = Some ws ->
     length ws <= MAX_WATCHES_PER_CONV /\ NoDup (map w_session ws)) /\
  watch_total (br_watches b) <= MAX_WATCHES_TOTAL /\
  (forall dm fs conv e now, dm_up dm = true -> br_chat b !! conv = Some e ->
     (session_for dm fs (restarted b) conv now).2 = Some (cs_session e)) /\
  (forall dm, dm_up dm = true ->
     from_str (watches_json hash_order (br_watches b)) = Some (watches_value hash_order (br_watches b)) ->
     br_watches (restore_watches dm (restarted b)) = br_watches b).
Proof.
  intros Hk Hnd Hs. pose proof (conv_reach hash_order bot b Hk Hs) as [Hse Hw [Hl Ht]].
  split; [|split; [done|split]].
  - intros conv ws H. by apply (Hl conv).
  - intros dm fs conv e now Hup He. unfold session_for, session_lookup. cbn [br_chat restarted].
    rewrite lookup_empty. unfold state_get. rewrite Hup. cbn [br_rows with_chat restarted]. by rewrite (Hse conv e He).
  - intros dm Hup Hread. unfold restore_watches, state_get. rewrite Hup. cbn [br_rows restarted].
    destruct Hw as [->|[-> He]]; [|by rewrite He].
    rewrite watches_roundtrip; [|done|done|done|intros k ws H; by apply (Hl k)].
    destruct (decide (br_watches b = ∅)) as [He|_]; [by rewrite He|done].
Qed.

(** The bridge's own maps are empty after a restart and the preferences are
    written whole: setting the working directory then forgets the stored
    backend. *)
Theorem prefs_lost_after_restart `{JT : JsonText} (dm : daemon) (fs : files) (b : bridge) (conv cwd raw : rstr) :
  dm_up dm = true -> is_empty cwd = false -> fs_is_absolute fs cwd = true -> fs_is_dir fs cwd = true ->
  br_rows b !! (conv, str "prefs") = Some raw ->
  let b' := (cmd_cwd dm fs (restarted b) conv cwd).1 in
  br_rows b' !! (conv, str "prefs")
    = Some (prefs_json {| pf_backend := None; pf_cwd := Some cwd; pf_bot := None |}) /\
  effective_prefs dm b' conv = {| pf_backend := None; pf_cwd := Some cwd; pf_bot := None |}.
Proof.
  intros Hup He Ha Hd Hraw. unfold cmd_cwd. rewrite He, Ha, Hd. cbn [negb fst].
  unfold update_prefs, state_set, effective_prefs, state_get. rewrite Hup. cbn [br_prefs br_rows with_prefs with_rows restarted].
  rewrite lookup_empty, !lookup_insert_eq. split; [done|]. cbn [default]. by rewrite decide_False.
Qed.

(** A session adopted while the first one was being created: the entry wins in
    the map, the row keeps the orphan that is then deleted. *)
Theorem orphan_row_after_race `{JT : JsonText} (dm : daemon) (b : bridge) (conv orphan adopted : rstr) (t now : Z) :
  dm_up dm = true -> orphan <> adopted ->
  let b1 := state_set dm (set_chat b conv adopted t) conv "session" adopted in
  let '(b2, used, deleted) := session_insert dm b1 conv orphan now in
  used = adopted /\ deleted = Some orphan /\ br_rows b2 !! (conv, str "session") = Some orphan.
Proof.
  intros Hup Hne. cbv zeta. unfold session_insert, state_set. rewrite Hup.
  cbn [br_chat with_rows set_chat with_chat br_rows]. rewrite !lookup_insert_eq. simpl.
  by rewrite lookup_insert_eq.
Qed.

(** ** Witnesses *)

Definition demo_msg (sender text : string) : Incoming := {|
  in_chat := str "chat"; in_thread := None; in_sender := Some (str sender);
  in_text := str text; in_attachments := [] |}.

Definition demo_prompt (text : string) : QueuedPrompt := prompt_of (demo_msg "ann" text).

(** One prompt running, one waiting. *)
Definition demo_lanes : lane_state := {|
  l_lanes := (lane_offer (lane_offer ∅ (demo_prompt "one")).1 (demo_prompt "two")).1;
  l_running := [demo_prompt "one"];
  l_log := [Accepted (demo_prompt "one"); Started (demo_prompt "one"); Accepted (demo_prompt "two")] |}.

Lemma demo_lanes_reach : star lane_step lane_start demo_lanes.
Proof.
  eapply star_step; [eapply (ls_start (∅ : gmap rstr TurnLane) _ [] [] (demo_prompt "one")); vm_compute; reflexivity|].
  apply star_one. eapply (ls_queue _ _ [demo_prompt "one"]
    [Accepted (demo_prompt "one"); Started (demo_prompt "one")] (demo_prompt "two") 1). vm_compute. reflexivity.
Qed.

Lemma lanes_fifo_witness :
  waiting (l_lanes demo_lanes) (str "chat") = [demo_prompt "two"] /\
  (turn_finished (l_lanes demo_lanes) (str "chat")).2 = Some (demo_prompt "two").
Proof.
  assert (waiting (l_lanes demo_lanes) (str "chat") = [demo_prompt "two"]) as Hw by (vm_compute; reflexivity).
  split; [exact Hw|].
  exact (proj2 (proj2 (proj2 (proj2 (lanes_fifo demo_lanes (str "chat") demo_lanes_reach))) _ _ Hw)).
Defined.

Definition demo_allow : json :=
  JObj [(str "id", jstr "once"); (str "label", jstr "Allow"); (str "behavior", jstr "allow")].

(** Ann's turn asked; Bob's 'allow' is swallowed, Ann's is sent on. *)
Definition demo_asked : ask_state :=
  ask ask_start (str "chat") (Some (str "ann")) (str "s1") (str "r1") [demo_allow] [] false.
Definition demo_answered : ask_state := answer None (answer None demo_asked (demo_msg "bob" "allow")) (demo_msg "ann" "Allow").
Definition demo_waiter : Waiter := {|
  wt_conv := str "chat"; wt_requester := Some (str "ann"); wt_session := str "s1"; wt_request := str "r1";
  wt_actions := [demo_allow]; wt_questions := []; wt_timed_out := false |}.
Definition demo_allowed : ask_state := respond demo_answered 0 demo_waiter (str "allow").

Lemma demo_ask_reach : star (ask_step None) ask_start demo_allowed.
Proof.
  eapply star_step; [apply ak_ask|]. eapply star_step; [apply ak_message|]. eapply star_step; [apply ak_message|].
  apply star_one. apply ak_replied; vm_compute; reflexivity.
Qed.

(** Carl's word, then, for an ask of a session the chat follows. *)
Definition demo_watched_ask : WatchedAsk :=
  {| wa_session := str "s2"; wa_request := str "r2"; wa_actions := [demo_allow] |}.
Definition demo_watched : ask_state :=
  answer None (pinged demo_allowed (str "chat") demo_watched_ask) (demo_msg "carl" "always").

Lemma ask_answered_by_requester_witness :
  (exists m, (0, m) ∈ as_log demo_watched /\ admitted None m = true /\
    as_asked demo_watched !! 0 = Some (conv_id m, in_sender m)) /\
  map (fun x => (in_sender (wr_by x), wr_sent x)) (as_watched demo_watched)
    = [(Some (str "carl"), allow_response (Some demo_allow))] /\
  map (fun x => (conv_id (wr_by x), wr_ask x)) (as_watched demo_watched) ⊆+ as_pinged demo_watched.
Proof.
  assert (star (ask_step None) ask_start demo_watched) as Hreach.
  { eapply star_trans_steps; [exact demo_ask_reach|]. eapply star_step; [apply ak_pinged|].
    apply star_one. apply ak_message. }
  destruct (ask_answered_by_requester None demo_watched Hreach) as (H1 & _ & _ & _ & H2).
  split; [|split; [vm_compute; reflexivity|exact H2]].
  apply (H1 0 (allow_response (Some demo_allow))); [vm_compute; left|vm_compute; reflexivity].
Defined.

Definition demo_order (m : registry) : list rstr := (map_to_list m).*1.

Lemma demo_order_keys m k : k ∈ demo_order m <-> is_Some (m !! k).
Proof.
  unfold demo_order. rewrite list_elem_of_fmap. split.
  - intros ([k' ws] & -> & H). apply elem_of_map_to_list in H. by exists ws.
  - intros [ws H]. exists (k, ws). split; [done|]. by apply elem_of_map_to_list.
Qed.

Definition demo_daemon : daemon := {|
  dm_up := true; dm_delete_session _ := true; dm_backends := None; dm_bots := None; dm_fork _ := None;
  dm_sessions := Some [(str "s1", str "codex", str "work")]; dm_resume _ := true; dm_watch _ := true;
  dm_create _ _ _ := Some (str "s2") |}.
Definition demo_files : files := {|
  fs_is_absolute _ := true; fs_is_dir _ := true; fs_current_dir := str "/" |}.

(** The text of the registry that follows session [s1]. *)
Definition demo_registry : registry :=
  {[ str "chat" := [ {| w_session := str "s1"; w_title := str "work"; w_backend := str "codex";
                        w_chat := str "chat"; w_thread := None |} ] ]}.
Definition demo_json_text : JsonText := {|
  to_string _ := str "{}"; to_string_pretty _ := str "{}";
  from_str _ := Some (watches_value demo_order demo_registry) |}.

Definition demo_bridge : bridge :=
  (@handle_command demo_json_text demo_daemon demo_files demo_order (fun s => s) (bridge_start None)
     (str "chat") (str "chat") None (str "resume work") 5).1.

Lemma conversations_survive_restart_witness :
  (@session_for demo_json_text demo_daemon demo_files (restarted demo_bridge) (str "chat") 9).2 = Some (str "s1") /\
  br_watches (@restore_watches demo_json_text demo_daemon (restarted demo_bridge)) = br_watches demo_bridge.
Proof.
  destruct (@conversations_survive_restart demo_json_text demo_order None demo_bridge demo_order_keys
    (fun m => NoDup_fst_map_to_list m)) as (_ & _ & Hs & Hw).
  - apply star_one. exact (@cv_command demo_json_text demo_order demo_daemon demo_files (fun s => s)
      (bridge_start None) (str "chat") (str "chat") None (str "resume work") 5 eq_refl).
  - split.
    + apply (Hs demo_daemon demo_files (str "chat") {| cs_session := str "s1"; cs_last_used := 5 |} 9%Z eq_refl).
      vm_compute. reflexivity.
    + apply (Hw demo_daemon eq_refl). vm_compute. reflexivity.
Defined.
