(* ===== verification/Fts.v ===== *)
(** * Fts: the full-text index of messages and its queries ([store.rs])

    [fts_text] extracts what is indexed of a message, [fts5_query] turns what a
    user types into a MATCH expression of SQLite's FTS5 and exact substrings,
    [like_snippet] cuts the excerpt shown for a query without a MATCH. *)

From S2P Require Import Prelude Str Json.

(** ** What is indexed *)

Section FtsText.
Context `{JT : JsonText}.

Definition json_is (v : json) (s : string) : bool :=
  match v with JStr t => str_eqb t (str s) | _ => false end.

Definition opt_list {A} (o : option A) : list A := match o with Some a => [a] | None => [] end.

(** One element of a [content] array. *)
Definition content_part (p : json) : list rstr :=
  if json_is p.["type"] "text" then opt_list (as_str p.["text"])
  else if json_is p.["type"] "content" then opt_list (as_str p.["content"].["text"])
  else [].

Definition tool_call_parts (tc : json) : list rstr :=
  opt_list (as_str tc.["function"].["name"]) ++ opt_list (as_str tc.["function"].["arguments"]).

Definition is_content_text (v : json) : bool := match v with JStr _ | JArr _ => true | _ => false end.

Definition fts_parts (role : rstr) (data : json) : list rstr :=
  match data.["content"] with JStr s => [s] | JArr items => flat_map content_part items | _ => [] end
  ++ (if str_eqb role (str "assistant") then
        flat_map tool_call_parts (default [] (as_array data.["tool_calls"]))
        ++ opt_list (as_str data.["toolCall"].["title"])
        ++ (let raw := data.["toolCall"].["rawInput"] in
            match as_str raw with
            | Some s => [s]
            | None => if is_null raw then [] else [to_string raw]
            end)
      else [])
  ++ (if str_eqb role (str "tool") && negb (is_content_text data.["content"]) && negb (is_null data.["content"])
      then [to_string data.["content"]] else []).

Definition fts_text (role : rstr) (data : json) : option rstr :=
  let text := join [c_nl] (fts_parts role data) in
  if is_empty (trim text) then None else Some text.
End FtsText.

(** ** Queries *)

Inductive fts_op := OpAnd | OpOr.

Inductive tok := Term (t : rstr) | AndOr (op : fts_op) | Not.

(** The rest of a quoted span, a doubled quote standing for one. *)
Fixpoint quoted (s : rstr) : rstr * rstr :=
  match s with
  | [] => ([], [])
  | c :: r =>
      if (c =? c_quote)%N then
        match r with
        | d :: r' => if (d =? c_quote)%N then let '(p, rest) := quoted r' in (c_quote :: p, rest) else ([], r)
        | [] => ([], [])
        end
      else let '(p, rest) := quoted r in (c :: p, rest)
  end.

Definition is_bare (c : rchar) : bool := negb (is_whitespace c) && negb (c =? c_quote)%N.

Fixpoint bare (s : rstr) : rstr * rstr :=
  match s with
  | [] => ([], [])
  | c :: r => if is_bare c then let '(t, rest) := bare r in (c :: t, rest) else ([], s)
  end.

Definition classify_bare (t : rstr) : tok :=
  if str_eqb t (str "AND") then AndOr OpAnd
  else if str_eqb t (str "OR") then AndOr OpOr
  else if str_eqb t (str "NOT") then Not
  else Term t.

(** The tokenizer loop, one unit of fuel per round. *)
Fixpoint tokens (fuel : nat) (s : rstr) : list tok :=
  match fuel, s with
  | 0, _ | _, [] => []
  | S k, c :: r =>
      if is_whitespace c then tokens k r
      else if (c =? c_quote)%N then
        let '(p, rest) := quoted r in
        (if is_empty p then [] else [Term p]) ++ tokens k rest
      else let '(t, rest) := bare s in classify_bare t :: tokens k rest
  end.

Definition tokenize (s : rstr) : list tok := tokens (length s) s.

(** The pieces of a MATCH expression. *)
Inductive piece := POp (op : fts_op) | PNot | PPhrase (stem : rstr) (prefix : bool).

Record query_state := {
  q_out : list piece; q_like : list rstr; q_like_not : list rstr;
  q_pending_op : option fts_op; q_pending_not : bool
}.

Definition q_init : query_state :=
  {| q_out := []; q_like := []; q_like_not := []; q_pending_op := None; q_pending_not := false |}.

Definition c_star : rchar := 42%N.

(** [strip_suffix('*')], then [trim_end_matches('*')]. *)
Definition stem_of (term : rstr) : rstr * bool :=
  match strip_suffix [c_star] term with
  | Some s => (reverse (trim_start_char c_star (reverse s)), true)
  | None => (term, false)
  end.

Definition query_term (q : query_state) (term : rstr) : query_state :=
  let '(stem, prefix) := stem_of term in
  if length stem <? 3 then
    if is_empty stem then q
    else if q_pending_not q then
      {| q_out := q_out q; q_like := q_like q; q_like_not := q_like_not q ++ [stem];
         q_pending_op := None; q_pending_not := false |}
    else
      {| q_out := q_out q; q_like := q_like q ++ [stem]; q_like_not := q_like_not q;
         q_pending_op := None; q_pending_not := q_pending_not q |}
  else
    let joint := if q_pending_not q then [PNot]
                 else match q_pending_op q with Some op => [POp op] | None => [] end in
    {| q_out := q_out q ++ joint ++ [PPhrase stem prefix]; q_like := q_like q; q_like_not := q_like_not q;
       q_pending_op := None; q_pending_not := false |}.

Definition query_step (q : query_state) (t : tok) : query_state :=
  match t with
  | AndOr op =>
      if is_empty (q_out q) then q
      else {| q_out := q_out q; q_like := q_like q; q_like_not := q_like_not q;
              q_pending_op := Some op; q_pending_not := false |}
  | Not =>
      if is_empty (q_out q) then q
      else {| q_out := q_out q; q_like := q_like q; q_like_not := q_like_not q;
              q_pending_op := q_pending_op q; q_pending_not := true |}
  | Term term => query_term q term
  end.

(** Quotes doubled. *)
Definition escape_quotes (s : rstr) : rstr := flat_map (fun c => if (c =? c_quote)%N then [c_quote; c_quote] else [c]) s.

Definition op_str (op : fts_op) : rstr := match op with OpAnd => str "AND" | OpOr => str "OR" end.

Definition render_piece (p : piece) : rstr :=
  match p with
  | POp op => op_str op
  | PNot => str "NOT"
  | PPhrase stem prefix => [c_quote] ++ escape_quotes stem ++ [c_quote] ++ (if prefix then [c_star] else [])
  end.

Record FtsQuery := { match_expr : rstr; like_terms : list rstr; like_not_terms : list rstr }.

Definition query_pieces (input : rstr) : query_state := fold_left query_step (tokenize input) q_init.

Definition fts5_query (input : rstr) : option FtsQuery :=
  let q := query_pieces input in
  let expr := join [c_space] (map render_piece (q_out q)) in
  if is_empty expr && is_empty (q_like q) && is_empty (q_like_not q) then None
  else Some {| match_expr := expr; like_terms := q_like q; like_not_terms := q_like_not q |}.

(** ** The excerpt of a query without a MATCH *)

(** The first position, in characters, where [t] occurs up to ASCII case:
    both texts are UTF-8, so a match of bytes starts at a character. *)
Fixpoint find_nocase (t s : rstr) : option nat :=
  if eq_ignore_ascii_case (take (length t) s) t then Some 0
  else match s with [] => None | _ :: r => S <$> find_nocase t r end.

(** The earliest occurrence of any term, with the term's length. *)
Definition first_hit (content : rstr) (terms : list rstr) : option (nat * nat) :=
  fold_left (fun hit t =>
    match find_nocase t content with
    | Some pos => if match hit with None => true | Some (s, _) => pos <? s end then Some (pos, length t) else hit
    | None => hit
    end) terms None.

(** Characters up to the first boundary at or after byte [n]. *)
Fixpoint ceil_chars (n : nat) (s : rstr) : nat :=
  match n, s with
  | 0, _ | _, [] => 0
  | _, c :: r => S (ceil_chars (n - char_len_utf8 c) r)
  end.

Definition WINDOW : nat := 48.
Definition c_ellipsis : rchar := 8230%N.

Definition like_snippet (content : rstr) (terms : list rstr) : rstr :=
  match first_hit content terms with
  | None => take (ceil_chars (2 * WINDOW) content) content ++ [c_ellipsis]
  | Some (start, tlen) =>
      let term_end := start + tlen in
      let b := floor_chars (utf8_len (take start content) - WINDOW) content in
      let e := ceil_chars (utf8_len (take term_end content) + WINDOW) content in
      (if 0 <? b then [c_ellipsis] else [])
      ++ take (start - b) (drop b content) ++ [1%N] ++ take tlen (drop start content) ++ [2%N]
      ++ take (e - term_end) (drop term_end content)
      ++ (if e <? length content then [c_ellipsis] else [])
  end.

(** ** Reading a MATCH expression back

    FTS5's documented syntax of strings and operators: a string is between
    quotes, a doubled quote stands for one, a star after it asks for a prefix;
    operators are the bare words AND, OR and NOT. *)

Fixpoint read_string (s : rstr) : option (rstr * rstr) :=
  match s with
  | [] => None
  | c :: r =>
      if (c =? c_quote)%N then
        match r with
        | d :: r' => if (d =? c_quote)%N then prod_map (cons c_quote) id <$> read_string r' else Some ([], r)
        | [] => Some ([], [])
        end
      else prod_map (cons c) id <$> read_string r
  end.

Definition read_operator (s : rstr) : option piece :=
  if str_eqb s (str "AND") then Some (POp OpAnd)
  else if str_eqb s (str "OR") then Some (POp OpOr)
  else if str_eqb s (str "NOT") then Some PNot
  else None.

Fixpoint fts5_read (fuel : nat) (s : rstr) : option (list piece) :=
  match fuel, s with
  | _, [] => Some []
  | 0, _ => None
  | S k, c :: r =>
      if (c =? c_space)%N then fts5_read k r
      else if (c =? c_quote)%N then
        match read_string r with
        | Some (p, rest) =>
            match strip_prefix [c_star] rest with
            | Some rest' => cons (PPhrase p true) <$> fts5_read k rest'
            | None => cons (PPhrase p false) <$> fts5_read k rest
            end
        | None => None
        end
      else let '(w, rest) := bare s in
           match read_operator w with Some o => cons o <$> fts5_read k rest | None => None end
  end.

(** Operators only between operands. *)
Fixpoint after_operand (ps : list piece) : bool :=
  match ps with
  | [] => true
  | PPhrase _ _ :: r => after_operand r
  | _ :: PPhrase _ _ :: r => after_operand r
  | _ => false
  end.

Definition expr_ok (ps : list piece) : bool :=
  match ps with [] => true | PPhrase _ _ :: r => after_operand r | _ => false end.

Definition phrases (ps : list piece) : list (rstr * bool) :=
  flat_map (fun p => match p with PPhrase s b => [(s, b)] | _ => [] end) ps.

(** The stems a query searches for. *)
Definition search_stems (input : rstr) : list (rstr * bool) :=
  List.filter (fun s => negb (is_empty s.1))
    (flat_map (fun t => match t with Term w => [stem_of w] | _ => [] end) (tokenize input)).

Lemma read_string_escape s rest :
  head rest <> Some c_quote -> read_string (escape_quotes s ++ c_quote :: rest) = Some (s, rest).
Proof.
  intros Hr. induction s as [|c s IH]; cbn [escape_quotes flat_map app].
  - cbn. destruct rest as [|d rest]; [done|]. destruct (N.eqb_spec d c_quote) as [->|]; [done|done].
  - fold (escape_quotes s). destruct (N.eqb_spec c c_quote) as [->|Hc]; cbn [app read_string].
    + change (c_quote =? c_quote)%N with true. cbn iota. by rewrite IH.
    + apply N.eqb_neq in Hc. rewrite Hc, IH. done.
Qed.

Lemma bare_word w rest : forallb is_bare w = true -> match rest with c :: _ => is_bare c | [] => false end = false ->
  bare (w ++ rest) = (w, rest).
Proof.
  intros Hw Hr. induction w as [|c w IH]; cbn [app bare].
  - destruct rest as [|c rest]; [done|]. cbn. by rewrite Hr.
  - cbn in Hw. apply andb_true_iff in Hw as [-> Hw]. by rewrite IH.
Qed.

(** What follows a piece: a blank and the next piece, or nothing. *)
Lemma read_piece p rest k :
  (rest = [] \/ exists r, rest = c_space :: r) ->
  fts5_read (S k) (render_piece p ++ rest) = cons p <$> fts5_read k rest.
Proof.
  intros Hr. destruct p as [[]| |stem prefix]; cbn [render_piece op_str].
  1-3: match goal with |- fts5_read _ (?w ++ _) = _ =>
         pose proof (bare_word w rest ltac:(reflexivity)) as Hb;
         rewrite <-(eq_refl : (hd 0%N w :: tl w) = w) in * end;
       cbn [hd tl str] in *; destruct Hr as [->|[r ->]]; cbn in Hb |- *; by rewrite ?Hb.
  cbn [app fts5_read]. change (c_quote =? c_space)%N with false. change (c_quote =? c_quote)%N with true. cbn iota.
  rewrite <-app_assoc. cbn [app]. rewrite read_string_escape.
  - destruct prefix; cbn [app]; [done|]. by destruct Hr as [->|[r ->]].
  - destruct prefix; cbn [app]; [done|]. by destruct Hr as [->|[r ->]].
Qed.

Lemma render_piece_cons p : exists c r, render_piece p = c :: r.
Proof. destruct p as [[]| |]; cbn; eauto. Qed.

Lemma read_join ps k :
  length (join [c_space] (map render_piece ps)) <= k -> fts5_read k (join [c_space] (map render_piece ps)) = Some ps.
Proof.
  revert k; induction ps as [|p ps IH]; intros k Hk; [by destruct k|].
  destruct (render_piece_cons p) as (c & r & Hp). destruct ps as [|p' ps].
  - cbn [map join] in Hk |- *. destruct k as [|k]; [rewrite Hp in Hk; simpl in Hk; lia|].
    rewrite <-(app_nil_r (render_piece p)), read_piece by (by left). by destruct k.
  - cbn [map] in *. rewrite join_cons2 in Hk |- *. cbn [app] in *. rewrite length_app, Hp in Hk. cbn [length] in Hk.
    destruct k as [|k]; [lia|]. rewrite read_piece by (right; eauto).
    destruct k as [|k]; [lia|]. cbn [fts5_read]. change (c_space =? c_space)%N with true. cbn iota.
    rewrite IH by lia. done.
Qed.

Lemma join_render_nil ps : join [c_space] (map render_piece ps) = [] <-> ps = [].
Proof.
  split; [|by intros ->]. destruct ps as [|p ps]; [done|]. destruct (render_piece_cons p) as (c & r & Hp).
  destruct ps; cbn [map]; [cbn [join]; by rewrite Hp|]. by rewrite join_cons2, Hp.
Qed.

Lemma after_operand_app ps qs : after_operand ps = true -> after_operand qs = true -> after_operand (ps ++ qs) = true.
Proof.
  revert ps. fix IH 1. intros [|[op| |s b] ps] Hp Hq; cbn in *; try done; try (by apply IH);
    destruct ps as [|[] ps]; try done; by apply IH.
Qed.

Lemma phrases_app ps qs : phrases (ps ++ qs) = phrases ps ++ phrases qs.
Proof. apply flat_map_app. Qed.

Definition long_stem (s : rstr * bool) : bool := 3 <=? length s.1.
#[global] Arguments long_stem : simpl never.

(** What the sanitising loop keeps, for the tokens it has seen. *)
Record query_inv (seen : list tok) (q : query_state) : Prop := {
  qi_ok : expr_ok (q_out q) = true;
  qi_start : q_out q = [] -> q_pending_op q = None /\ q_pending_not q = false;
  qi_long : phrases (q_out q) =
    List.filter long_stem (flat_map (fun t => match t with Term w => [stem_of w] | _ => [] end) seen);
  qi_short : (q_like q ++ q_like_not q) ≡ₚ
    map fst (List.filter (fun s => negb (is_empty s.1) && negb (long_stem s))
               (flat_map (fun t => match t with Term w => [stem_of w] | _ => [] end) seen))
}.

Lemma expr_ok_snoc ps joint s b :
  expr_ok ps = true -> (ps = [] -> joint = []) -> (joint = [] \/ exists o, joint = [o] /\ forall s b, o <> PPhrase s b) ->
  expr_ok (ps ++ joint ++ [PPhrase s b]) = true.
Proof.
  intros Hp Hn Hj. destruct ps as [|[op| |s' b'] ps]; try done; [by rewrite Hn|].
  cbn [app expr_ok] in *. apply after_operand_app; [done|].
  destruct Hj as [->|(o & -> & Ho)]; [done|]. destruct o as [| |s0 b0]; [done..|]. by destruct (Ho s0 b0).
Qed.

Lemma query_term_inv seen q w : query_inv seen q -> query_inv (seen ++ [Term w]) (query_term q w).
Proof.
  intros [Hok Hst Hl Hs]. unfold query_term. destruct (stem_of w) as [stem prefix] eqn:Ew.
  destruct (length stem <? 3) eqn:E3; [destruct (is_empty stem) eqn:Ee|].
  - split; try done; rewrite flat_map_app; cbn [flat_map app]; rewrite Ew, List.filter_app; cbn [List.filter].
    + unfold long_stem at 2. cbn [fst]. assert ((3 <=? length stem) = false) as -> by lia. by rewrite app_nil_r.
    + cbn [fst]. rewrite Ee. cbn [negb andb]. by rewrite app_nil_r.
  - assert ((3 <=? length stem) = false) as Hns by lia.
    assert (forall l ln, (l ++ ln) ≡ₚ stem :: (q_like q ++ q_like_not q) ->
      query_inv (seen ++ [Term w]) {| q_out := q_out q; q_like := l; q_like_not := ln; q_pending_op := None;
        q_pending_not := q_pending_not q && negb (q_pending_not q) |}) as Hgen.
    { intros l ln Hp. split; cbn [q_out q_like q_like_not q_pending_op q_pending_not]; try done.
      - intros _. split; [done|]. by destruct (q_pending_not q).
      - rewrite flat_map_app. cbn [flat_map app]. rewrite Ew, List.filter_app. cbn [List.filter].
        unfold long_stem at 2. cbn [fst]. rewrite Hns. by rewrite app_nil_r.
      - rewrite flat_map_app. cbn [flat_map app]. rewrite Ew, List.filter_app, map_app. cbn [List.filter fst].
        rewrite Ee. unfold long_stem at 2. cbn [fst]. rewrite Hns. cbn [negb andb map fst].
        rewrite Hp, Hs. apply Permutation_cons_append. }
    destruct (q_pending_not q) eqn:En; cbn [andb negb] in Hgen; apply Hgen.
    + rewrite app_assoc. symmetry. apply Permutation_cons_append.
    + rewrite <-app_assoc. symmetry. apply Permutation_middle.
  - assert ((3 <=? length stem) = true) as Hns by lia.
    split; cbn [q_out q_like q_like_not q_pending_op q_pending_not].
    + apply expr_ok_snoc; [done|..].
      * intros H0. destruct (Hst H0) as [-> ->]. done.
      * destruct (q_pending_not q); [right; by exists PNot|]. destruct (q_pending_op q); [right; by eexists|by left].
    + by intros [_ [_ ?]%app_eq_nil]%app_eq_nil.
    + rewrite !phrases_app, flat_map_app. cbn [flat_map app]. rewrite Ew, List.filter_app. cbn [List.filter].
      unfold long_stem at 2. cbn [fst]. rewrite Hns, Hl. f_equal. by destruct (q_pending_not q), (q_pending_op q).
    + rewrite flat_map_app. cbn [flat_map app]. rewrite Ew, List.filter_app. cbn [List.filter fst].
      unfold long_stem at 2. cbn [fst]. rewrite Hns, andb_false_r, app_nil_r. done.
Qed.

Lemma query_step_inv seen q t : query_inv seen q -> query_inv (seen ++ [t]) (query_step q t).
Proof.
  destruct t as [w|op|]; [apply query_term_inv| |]; intros [Hok Hst Hl Hs]; cbn [query_step];
    destruct (q_out q) eqn:Eo; cbn [is_empty]; split; cbn [q_out q_like q_like_not q_pending_op q_pending_not];
    rewrite ?Eo, ?flat_map_app; cbn [flat_map app]; rewrite ?app_nil_r; done.
Qed.

Lemma query_pieces_inv input : query_inv (tokenize input) (query_pieces input).
Proof.
  unfold query_pieces. induction (tokenize input) as [|t ts IH] using rev_ind; [by split|].
  rewrite fold_left_app. by apply query_step_inv.
Qed.

Lemma quoted_length s : length (quoted s).2 <= length s.
Proof.
  enough (forall n s, length s <= n -> length (quoted s).2 <= length s) as H by (by apply (H (length s))).
  clear. induction n as [|n IH]; intros [|c s] Hn; cbn [length] in Hn; try lia; cbn [quoted]; [done..|].
  destruct (c =? c_quote)%N.
  - destruct s as [|d s]; [simpl; lia|]. destruct (d =? c_quote)%N; [|simpl; lia].
    specialize (IH s ltac:(simpl in Hn; lia)). destruct (quoted s). simpl in *. lia.
  - specialize (IH s ltac:(lia)). destruct (quoted s). simpl in *. lia.
Qed.

Lemma bare_length s : length (bare s).2 <= length s.
Proof. induction s as [|c s IH]; cbn [bare]; [done|]. destruct (is_bare c); [|done]. destruct (bare s). simpl in *. lia. Qed.

(** The loop ends: a unit of fuel per character is enough. *)
Lemma tokens_fuel k s : length s <= k -> tokens k s = tokenize s.
Proof.
  enough (forall k s, length s <= k -> forall j, length s <= j -> tokens j s = tokens k s) as H.
  { intros Hk. unfold tokenize. by apply H. }
  clear. induction k as [|k IH]; intros [|c s] Hk j Hj; simpl in Hk; try (by destruct j); [lia|].
  destruct j as [|j]; [simpl in Hj; lia|]. simpl in Hj. cbn [tokens].
  destruct (is_whitespace c) eqn:Ew; [apply IH; lia|]. destruct (c =? c_quote)%N eqn:Eq.
  - pose proof (quoted_length s). destruct (quoted s) as [p rest]. simpl in *. f_equal. apply IH; lia.
  - cbn [bare]. unfold is_bare. rewrite Ew, Eq. cbn [negb andb].
    pose proof (bare_length s). destruct (bare s) as [t rest]. simpl in *. f_equal. apply IH; lia.
Qed.

(** A query always yields an expression FTS5 reads: its strings read back
    as the searched stems, whatever quotes they hold, no stem shorter than
    three characters, and operators stand between operands only; every stem is
    searched, the short ones as exact substrings; and there is no query only
    when there is nothing to search. *)
Theorem fts5_query_spec (input : rstr) :
  match fts5_query input with
  | None => search_stems input = []
  | Some q =>
      search_stems input <> [] /\
      exists ps, fts5_read (length (match_expr q)) (match_expr q) = Some ps /\ expr_ok ps = true /\
        phrases ps = List.filter long_stem (search_stems input) /\
        (like_terms q ++ like_not_terms q) ≡ₚ
          map fst (List.filter (fun s => negb (long_stem s)) (search_stems input))
  end.
Proof.
  destruct (query_pieces_inv input) as [Hok _ Hl Hs]. unfold fts5_query. set (q := query_pieces input) in *.
  assert (phrases (q_out q) = List.filter long_stem (search_stems input)) as Hl'.
  { rewrite Hl. unfold search_stems. rewrite filter_and. apply filter_ext_elem. intros [[|] b] _; done. }
  assert ((q_like q ++ q_like_not q) ≡ₚ map fst (List.filter (fun s => negb (long_stem s)) (search_stems input))) as Hs'.
  { rewrite Hs. unfold search_stems. by rewrite filter_and. }
  destruct (is_empty _ && _ && _) eqn:E.
  - apply andb_true_iff in E as [[E1 E2]%andb_true_iff E3].
    assert (q_out q = []) as Ho by (by apply join_render_nil, is_empty_nil).
    apply is_empty_nil in E2, E3. rewrite Ho in Hl'. rewrite E2, E3 in Hs'. cbn in Hl', Hs'.
    destruct (search_stems input) as [|s ss]; [done|]. cbn [List.filter] in Hl', Hs'.
    destruct (long_stem s); [done|]. cbn in Hs'. by destruct (Permutation_nil_cons Hs').
  - split.
    + intros H0. rewrite H0 in Hl', Hs'. cbn in Hl', Hs'.
      apply Permutation_nil_r in Hs' as [H1 H2]%app_eq_nil. rewrite H1, H2 in E.
      destruct (q_out q) as [|[] ps]; done.
    + exists (q_out q). cbn [match_expr like_terms like_not_terms]. split; [by apply read_join|]. done.
Qed.

(** A NOT behind a short term is dropped, because the short term is not part of
    the expression: what should be excluded becomes required. *)
Theorem exclusion_becomes_required :
  fts5_query (str "ab NOT error") =
  Some {| match_expr := [c_quote] ++ str "error" ++ [c_quote]; like_terms := [str "ab"]; like_not_terms := [] |}.
Proof. vm_compute. reflexivity. Qed.

(** ** Excerpts *)

Lemma find_nocase_spec t s i :
  find_nocase t s = Some i ->
  eq_ignore_ascii_case (take (length t) (drop i s)) t = true /\ i <= length s.
Proof.
  revert i; induction s as [|c s IH]; intros i H; cbn [find_nocase] in H;
    destruct (eq_ignore_ascii_case _ t) eqn:E; try done; try (by injection H as <-; split; [done|simpl; lia]).
  destruct (find_nocase t s) as [j|] eqn:Ej; [|done]. injection H as <-.
  destruct (IH j eq_refl) as [H1 H2]. simpl. split; [done|lia].
Qed.

Lemma eq_ignore_case_length a b : eq_ignore_ascii_case a b = true -> length a = length b.
Proof. unfold eq_ignore_ascii_case. intros H%str_eqb_eq. by rewrite <-(length_map to_ascii_lowercase a), H, length_map. Qed.

Definition occurs (content : rstr) (hit : nat * nat) (t : rstr) : Prop :=
  hit.2 = length t /\ eq_ignore_ascii_case (take (length t) (drop hit.1 content)) t = true /\ hit.1 + hit.2 <= length content.

Lemma first_hit_spec content terms :
  match first_hit content terms with
  | None => forall t, t ∈ terms -> find_nocase t content = None
  | Some hit => exists t, t ∈ terms /\ occurs content hit t
  end.
Proof.
  unfold first_hit. induction terms as [|t ts IH] using rev_ind; [by intros t ?%not_elem_of_nil|].
  rewrite fold_left_app. cbn [fold_left]. destruct (find_nocase t content) as [pos|] eqn:Et.
  - destruct (find_nocase_spec t content pos Et) as [He Hle].
    assert (occurs content (pos, length t) t) as Ho.
    { split; [done|]. split; [done|]. apply eq_ignore_case_length in He. rewrite length_take, length_drop in He. simpl. lia. }
    destruct (fold_left _ ts None) as [[s l]|].
    + destruct (pos <? s).
      * exists t. split; [apply elem_of_app; right; by apply list_elem_of_singleton|done].
      * destruct IH as (t' & Ht' & H). exists t'. split; [apply elem_of_app; by left|done].
    + exists t. split; [apply elem_of_app; right; by apply list_elem_of_singleton|done].
  - destruct (fold_left _ ts None) as [hit|].
    + destruct IH as (t' & Ht' & H). exists t'. split; [apply elem_of_app; by left|done].
    + intros t' [Ht'|Ht']%elem_of_app; [by apply IH|]. by apply list_elem_of_singleton in Ht' as ->.
Qed.

Lemma ceil_chars_spec n s :
  ceil_chars n s <= length s /\
  (n <= utf8_len (take (ceil_chars n s) s) \/ ceil_chars n s = length s) /\
  utf8_len (take (ceil_chars n s) s) < n + 4.
Proof.
  revert n; induction s as [|c s IH]; intros [|n]; cbn [ceil_chars];
    [cbn; repeat split; (lia || auto with lia)..|].
  pose proof (char_len_utf8_bounds c). destruct (IH (S n - char_len_utf8 c)) as (H1 & H2 & H3).
  cbn [take utf8_len length]. split; [lia|]. split; [destruct H2; [left|right]; lia|].
  destruct (S n - char_len_utf8 c) eqn:E; [|lia]. destruct s; cbn; lia.
Qed.

(** Up to four texts, three cuts. *)
Lemma cut_four {A} (l : list A) b start term_end e :
  b <= start -> start <= term_end -> term_end <= e -> e <= length l ->
  l = take b l ++ take (start - b) (drop b l) ++ take (term_end - start) (drop start l)
      ++ take (e - term_end) (drop term_end l) ++ drop e l.
Proof.
  intros H1 H2 H3 H4.
  assert (forall i j, i <= j -> j <= length l -> drop i l = take (j - i) (drop i l) ++ drop j l) as Hc.
  { intros i j Hi Hj. rewrite <-(take_drop (j - i) (drop i l)) at 1. rewrite drop_drop. do 2 f_equal. lia. }
  rewrite <-(Hc term_end e), <-(Hc start term_end), <-(Hc b start) by lia. symmetry. apply take_drop.
Qed.

Lemma utf8_slice s i j :
  i <= j -> utf8_len (take i s) + utf8_len (take (j - i) (drop i s)) = utf8_len (take j s).
Proof.
  intros H. rewrite <-utf8_len_app. f_equal. rewrite <-(take_drop i (take j s)), take_take, take_drop_commute.
  f_equal; [by rewrite Nat.min_l by lia|]. f_equal. f_equal. lia.
Qed.

Lemma utf8_take_lt s i j : i < j -> j <= length s -> utf8_len (take i s) < utf8_len (take j s).
Proof.
  intros Hi Hj. rewrite <-(utf8_slice s i j) by lia.
  pose proof (utf8_len_ge (take (j - i) (drop i s))) as H. rewrite length_take, length_drop in H. lia.
Qed.

Lemma floor_chars_length n s : floor_chars n s <= length s.
Proof. revert n; induction s as [|c s IH]; intros n; cbn [floor_chars length]; [lia|]. destruct (_ <=? n); [|lia]. specialize (IH (n - char_len_utf8 c)). lia. Qed.

(** The two cuts around a mark: at most [WINDOW] bytes and one character away. *)
Lemma cut_left s start :
  start <= length s ->
  let b := floor_chars (utf8_len (take start s) - WINDOW) s in
  b <= start /\ utf8_len (take (start - b) (drop b s)) < WINDOW + 4 /\
  (0 < b -> WINDOW <= utf8_len (take (start - b) (drop b s))).
Proof.
  intros Hs b. pose proof (floor_chars_le (utf8_len (take start s) - WINDOW) s) as H1. fold b in H1.
  pose proof (floor_chars_ge (utf8_len (take start s) - WINDOW) s) as H2. fold b in H2.
  pose proof (floor_chars_length (utf8_len (take start s) - WINDOW) s) as H3. fold b in H3.
  pose proof (utf8_len_take start s) as H4.
  assert (b <= start) as Hb.
  { destruct (decide (b <= start)) as [|Hn]; [done|]. pose proof (utf8_take_lt s start b ltac:(lia) H3). lia. }
  pose proof (utf8_slice s b start Hb) as H5. unfold WINDOW in *. split; [done|]. split.
  - destruct (decide (utf8_len s = 0)) as [H0|H0]; [lia|]. lia.
  - intros H0. pose proof (utf8_take_lt s 0 b H0 H3). lia.
Qed.

Lemma cut_right s stop :
  stop <= length s ->
  let e := ceil_chars (utf8_len (take stop s) + WINDOW) s in
  stop <= e /\ e <= length s /\ utf8_len (take (e - stop) (drop stop s)) < WINDOW + 4 /\
  (e < length s -> WINDOW <= utf8_len (take (e - stop) (drop stop s))).
Proof.
  intros Hs e. destruct (ceil_chars_spec (utf8_len (take stop s) + WINDOW) s) as (H1 & H2 & H3).
  fold e in H1, H2, H3.
  assert (stop <= e) as He.
  { destruct H2 as [H2|H2]; [|lia]. destruct (decide (stop <= e)) as [|Hn]; [done|].
    pose proof (utf8_take_lt s e stop ltac:(lia) Hs). lia. }
  pose proof (utf8_slice s stop e He) as H5. repeat split; [done|done|lia|]. intros Hl. destruct H2; lia.
Qed.

(** An excerpt marks a real occurrence of a term, in context: the text is cut
    around it into five, the ends are left out and shown as an ellipsis exactly
    when they are not empty, and each side keeps between 48 and 51 bytes. *)
Theorem like_snippet_spec (content : rstr) (terms : list rstr) :
  match first_hit content terms with
  | None => (forall t, t ∈ terms -> find_nocase t content = None) /\
            exists n, like_snippet content terms = take n content ++ [c_ellipsis]
  | Some _ =>
      exists out_l a hit z out_r t,
        content = out_l ++ a ++ hit ++ z ++ out_r /\ t ∈ terms /\ eq_ignore_ascii_case hit t = true /\
        like_snippet content terms =
          (if is_empty out_l then [] else [c_ellipsis]) ++ a ++ [1%N] ++ hit ++ [2%N] ++ z
          ++ (if is_empty out_r then [] else [c_ellipsis]) /\
        utf8_len a < WINDOW + 4 /\ utf8_len z < WINDOW + 4 /\
        (out_l <> [] -> WINDOW <= utf8_len a) /\ (out_r <> [] -> WINDOW <= utf8_len z)
  end.
Proof.
  pose proof (first_hit_spec content terms) as Hf. unfold like_snippet.
  destruct (first_hit content terms) as [[start tlen]|]; [|by eauto].
  destruct Hf as (t & Ht & Hlen & He & Hle). cbn [fst snd] in *. subst tlen.
  destruct (cut_left content start ltac:(lia)) as (Hb & Ha1 & Ha2).
  destruct (cut_right content (start + length t) ltac:(lia)) as (Hte & Hel & Hz1 & Hz2).
  set (b := floor_chars _ content) in *. set (e := ceil_chars _ content) in *.
  pose proof (cut_four content b start (start + length t) e Hb ltac:(lia) Hte Hel) as Hcut.
  replace (start + length t - start) with (length t) in Hcut by lia.
  eexists (take b content), _, _, _, (drop e content), t. split; [exact Hcut|]. do 2 (split; [done|]).
  assert (forall l, b = length l -> (if 0 <? b then [c_ellipsis] else []) = if is_empty (l : rstr) then [] else [c_ellipsis]) as Hl
    by (intros [|] ->; done).
  rewrite <-Hl by (rewrite length_take; lia).
  assert ((if e <? length content then [c_ellipsis] else []) = if is_empty (drop e content) then [] else [c_ellipsis]) as ->.
  { pose proof (length_drop content e). destruct (Nat.ltb_spec e (length content)), (drop e content); simpl in *; (done || lia). }
  split; [done|]. do 2 (split; [done|]). split.
  - intros Hne. apply Ha2. destruct b; [done|lia].
  - intros Hne. apply Hz2. pose proof (length_drop content e). destruct (drop e content); [done|]. simpl in *. lia.
Qed.
