(* ===== verification/SessionStore.v ===== *)
(** * SessionStore: sessions, messages, usage and what hangs on them ([store.rs])

    The session, message, full-text, usage, project, grant, plan, scanner and
    tombstone tables as one database, and the [Store] methods on them.  Calls
    of [Store] run one at a time on the database connection: each is a function
    on the database.  Times are the texts and stamps the calls would read;
    columns nothing reads are left out. *)

From Stdlib Require Import SpecFloat.
From S2P Require Import Prelude Str Json Rows PlanStore Jail Fts.

(** ** Rows *)

(** [f64] *)
Definition f64 : Type := spec_float.
Definition f64_zero : f64 := S754_zero false.
Definition f64_sub : f64 -> f64 -> f64 := SFsub 53%Z 1024%Z.

Record SessionRow := {
  s_id : rstr; s_created : rstr; s_last_active : option rstr; s_cwd : rstr; s_model : option rstr;
  s_agent : option rstr; s_agent_session : option rstr; s_compacted : Z; s_title : option rstr;
  s_tags : rstr; s_pinned : bool; s_archived : bool; s_project : option rstr; s_persona : option rstr
}.

(** A stored message; [data] is JSON text. *)
Record MsgRow := { m_id : Z; m_session : rstr; m_role : rstr; m_data : rstr; m_ts : Z }.

Record FtsRow := { f_content : rstr; f_session : rstr; f_message : Z }.

(** [u64] counts are stored as the [i64] of the same bits. *)
Record UsageRow := {
  u_id : Z; u_session : rstr; u_model : rstr; u_used : Z; u_size : Z;
  u_cost : f64; u_cumulative : option f64; u_created : rstr
}.

Record ProjectRow := {
  pr_id : rstr; pr_name : rstr; pr_root : rstr; pr_defaults : rstr; pr_kind : rstr;
  pr_parent : option rstr; pr_meta : rstr; pr_created : rstr
}.

Record ScannedRow := {
  sc_backend : rstr; sc_native : rstr; sc_size : option Z; sc_mtime : option Z; sc_session : rstr; sc_at : rstr
}.

(** [db_msg_seq] and [db_usage_seq] are the highest ids ever given
    ([AUTOINCREMENT]); tombstones are pairs of backend and native handle. *)
Record Db := {
  db_sessions : list SessionRow; db_messages : list MsgRow; db_msg_seq : Z; db_fts : list FtsRow;
  db_usage : list UsageRow; db_usage_seq : Z; db_plans : list PlanRow; db_projects : list ProjectRow;
  db_grants : list GrantedRoot; db_scanned : list ScannedRow; db_tombstones : list (rstr * rstr)
}.

Inductive db_error := Constraint | SessionNotFound | ProjectBound (sessions : nat) | BadJson.

(** ** Setters *)

Definition set_last_active (now : rstr) (r : SessionRow) : SessionRow := {|
  s_id := s_id r; s_created := s_created r; s_last_active := Some now; s_cwd := s_cwd r;
  s_model := s_model r; s_agent := s_agent r; s_agent_session := s_agent_session r;
  s_compacted := s_compacted r; s_title := s_title r; s_tags := s_tags r; s_pinned := s_pinned r;
  s_archived := s_archived r; s_project := s_project r; s_persona := s_persona r |}.

Definition set_agent (agent native : rstr) (r : SessionRow) : SessionRow := {|
  s_id := s_id r; s_created := s_created r; s_last_active := s_last_active r; s_cwd := s_cwd r;
  s_model := s_model r; s_agent := Some agent; s_agent_session := Some native; s_compacted := s_compacted r;
  s_title := s_title r; s_tags := s_tags r; s_pinned := s_pinned r; s_archived := s_archived r;
  s_project := s_project r; s_persona := s_persona r |}.

Definition set_title (title : rstr) (r : SessionRow) : SessionRow := {|
  s_id := s_id r; s_created := s_created r; s_last_active := s_last_active r; s_cwd := s_cwd r;
  s_model := s_model r; s_agent := s_agent r; s_agent_session := s_agent_session r;
  s_compacted := s_compacted r; s_title := Some title; s_tags := s_tags r; s_pinned := s_pinned r;
  s_archived := s_archived r; s_project := s_project r; s_persona := s_persona r |}.

Definition set_row_tags (tags : rstr) (r : SessionRow) : SessionRow := {|
  s_id := s_id r; s_created := s_created r; s_last_active := s_last_active r; s_cwd := s_cwd r;
  s_model := s_model r; s_agent := s_agent r; s_agent_session := s_agent_session r;
  s_compacted := s_compacted r; s_title := s_title r; s_tags := tags; s_pinned := s_pinned r;
  s_archived := s_archived r; s_project := s_project r; s_persona := s_persona r |}.

Definition set_row_pinned (pinned : bool) (r : SessionRow) : SessionRow := {|
  s_id := s_id r; s_created := s_created r; s_last_active := s_last_active r; s_cwd := s_cwd r;
  s_model := s_model r; s_agent := s_agent r; s_agent_session := s_agent_session r;
  s_compacted := s_compacted r; s_title := s_title r; s_tags := s_tags r; s_pinned := pinned;
  s_archived := s_archived r; s_project := s_project r; s_persona := s_persona r |}.

Definition set_row_archived (archived : bool) (r : SessionRow) : SessionRow := {|
  s_id := s_id r; s_created := s_created r; s_last_active := s_last_active r; s_cwd := s_cwd r;
  s_model := s_model r; s_agent := s_agent r; s_agent_session := s_agent_session r;
  s_compacted := s_compacted r; s_title := s_title r; s_tags := s_tags r; s_pinned := s_pinned r;
  s_archived := archived; s_project := s_project r; s_persona := s_persona r |}.

Definition set_row_model (model : rstr) (r : SessionRow) : SessionRow := {|
  s_id := s_id r; s_created := s_created r; s_last_active := s_last_active r; s_cwd := s_cwd r;
  s_model := Some model; s_agent := s_agent r; s_agent_session := s_agent_session r;
  s_compacted := s_compacted r; s_title := s_title r; s_tags := s_tags r; s_pinned := s_pinned r;
  s_archived := s_archived r; s_project := s_project r; s_persona := s_persona r |}.

Definition set_row_project (project : option rstr) (r : SessionRow) : SessionRow := {|
  s_id := s_id r; s_created := s_created r; s_last_active := s_last_active r; s_cwd := s_cwd r;
  s_model := s_model r; s_agent := s_agent r; s_agent_session := s_agent_session r;
  s_compacted := s_compacted r; s_title := s_title r; s_tags := s_tags r; s_pinned := s_pinned r;
  s_archived := s_archived r; s_project := project; s_persona := s_persona r |}.

Definition set_row_persona (bot : option rstr) (r : SessionRow) : SessionRow := {|
  s_id := s_id r; s_created := s_created r; s_last_active := s_last_active r; s_cwd := s_cwd r;
  s_model := s_model r; s_agent := s_agent r; s_agent_session := s_agent_session r;
  s_compacted := s_compacted r; s_title := s_title r; s_tags := s_tags r; s_pinned := s_pinned r;
  s_archived := s_archived r; s_project := s_project r; s_persona := bot |}.

Definition with_sessions (sessions : list SessionRow) (db : Db) : Db := {|
  db_sessions := sessions; db_messages := db_messages db; db_msg_seq := db_msg_seq db; db_fts := db_fts db;
  db_usage := db_usage db; db_usage_seq := db_usage_seq db; db_plans := db_plans db;
  db_projects := db_projects db; db_grants := db_grants db; db_scanned := db_scanned db;
  db_tombstones := db_tombstones db |}.

Definition with_messages (messages : list MsgRow) (seq : Z) (fts : list FtsRow) (db : Db) : Db := {|
  db_sessions := db_sessions db; db_messages := messages; db_msg_seq := seq; db_fts := fts;
  db_usage := db_usage db; db_usage_seq := db_usage_seq db; db_plans := db_plans db;
  db_projects := db_projects db; db_grants := db_grants db; db_scanned := db_scanned db;
  db_tombstones := db_tombstones db |}.

Definition with_usage (usage : list UsageRow) (seq : Z) (db : Db) : Db := {|
  db_sessions := db_sessions db; db_messages := db_messages db; db_msg_seq := db_msg_seq db;
  db_fts := db_fts db; db_usage := usage; db_usage_seq := seq; db_plans := db_plans db;
  db_projects := db_projects db; db_grants := db_grants db; db_scanned := db_scanned db;
  db_tombstones := db_tombstones db |}.

Definition with_plans (plans : list PlanRow) (db : Db) : Db := {|
  db_sessions := db_sessions db; db_messages := db_messages db; db_msg_seq := db_msg_seq db;
  db_fts := db_fts db; db_usage := db_usage db; db_usage_seq := db_usage_seq db; db_plans := plans;
  db_projects := db_projects db; db_grants := db_grants db; db_scanned := db_scanned db;
  db_tombstones := db_tombstones db |}.

Definition with_projects (projects : list ProjectRow) (db : Db) : Db := {|
  db_sessions := db_sessions db; db_messages := db_messages db; db_msg_seq := db_msg_seq db;
  db_fts := db_fts db; db_usage := db_usage db; db_usage_seq := db_usage_seq db; db_plans := db_plans db;
  db_projects := projects; db_grants := db_grants db; db_scanned := db_scanned db;
  db_tombstones := db_tombstones db |}.

Definition with_scanned (scanned : list ScannedRow) (db : Db) : Db := {|
  db_sessions := db_sessions db; db_messages := db_messages db; db_msg_seq := db_msg_seq db;
  db_fts := db_fts db; db_usage := db_usage db; db_usage_seq := db_usage_seq db; db_plans := db_plans db;
  db_projects := db_projects db; db_grants := db_grants db; db_scanned := scanned;
  db_tombstones := db_tombstones db |}.

Definition with_tombstones (tombstones : list (rstr * rstr)) (db : Db) : Db := {|
  db_sessions := db_sessions db; db_messages := db_messages db; db_msg_seq := db_msg_seq db;
  db_fts := db_fts db; db_usage := db_usage db; db_usage_seq := db_usage_seq db; db_plans := db_plans db;
  db_projects := db_projects db; db_grants := db_grants db; db_scanned := db_scanned db;
  db_tombstones := tombstones |}.

Definition update_session (id : rstr) (f : SessionRow -> SessionRow) (db : Db) : Db :=
  with_sessions (update_where (fun r => str_eqb (s_id r) id) f (db_sessions db)) db.

Definition has_session (db : Db) (id : rstr) : bool := existsb (fun r => str_eqb (s_id r) id) (db_sessions db).

Definition session_row (db : Db) (id : rstr) : option SessionRow :=
  find_first (fun r => str_eqb (s_id r) id) (db_sessions db).

(** ** Session rows *)

(** The id is the primary key. *)
Definition create_session (now : rstr) (id cwd : rstr) (agent : option rstr) (db : Db) : result Db db_error :=
  if has_session db id then Err Constraint
  else Ok (with_sessions (db_sessions db ++ [{|
    s_id := id; s_created := now; s_last_active := Some now; s_cwd := cwd; s_model := None; s_agent := agent;
    s_agent_session := None; s_compacted := 0; s_title := None; s_tags := str "[]"; s_pinned := false;
    s_archived := false; s_project := None; s_persona := None |}]) db).

Definition same_handle (backend native : rstr) (t : rstr * rstr) : bool := str_eqb t.1 backend && str_eqb t.2 native.

Definition clear_tombstone (backend native : rstr) (db : Db) : Db :=
  with_tombstones (List.filter (fun t => negb (same_handle backend native t)) (db_tombstones db)) db.

Definition set_agent_session (id agent native : rstr) (db : Db) : Db :=
  update_session id (set_agent agent native) (clear_tombstone agent native db).

Definition coalesce_str (o : option rstr) : rstr := default [] o.

Definition agent_session (db : Db) (id : rstr) : option (rstr * rstr) :=
  match session_row db id with
  | Some r =>
      let a := coalesce_str (s_agent r) in let n := coalesce_str (s_agent_session r) in
      if negb (is_empty a) && negb (is_empty n) then Some (a, n) else None
  | None => None
  end.

Definition bound_to (agent native : rstr) (r : SessionRow) : bool :=
  match s_agent r, s_agent_session r with
  | Some a, Some n => str_eqb a agent && str_eqb n native
  | _, _ => false
  end.

Definition session_by_agent_session (db : Db) (agent native : rstr) : option rstr :=
  s_id <$> find_first (bound_to agent native) (db_sessions db).

Definition session_cwd (db : Db) (id : rstr) : option rstr := s_cwd <$> session_row db id.

Definition set_title_if_empty (id title : rstr) (db : Db) : Db :=
  with_sessions (update_where (fun r => str_eqb (s_id r) id && match s_title r with None => true | Some _ => false end)
    (set_title title) (db_sessions db)) db.

(** Whether a row changed. *)
Definition update_reporting (id : rstr) (f : SessionRow -> SessionRow) (db : Db) : Db * bool :=
  (update_session id f db, has_session db id).

Definition rename_session (id title : rstr) (db : Db) : Db * bool := update_reporting id (set_title title) db.
Definition set_pinned (id : rstr) (pinned : bool) (db : Db) : Db * bool := update_reporting id (set_row_pinned pinned) db.
Definition set_archived (id : rstr) (archived : bool) (db : Db) : Db * bool :=
  update_reporting id (set_row_archived archived) db.
Definition set_session_model (id model : rstr) (db : Db) : Db := update_session id (set_row_model model) db.
Definition set_session_project (id : rstr) (project : option rstr) (db : Db) : Db :=
  update_session id (set_row_project project) db.
Definition set_session_persona (id : rstr) (bot : option rstr) (db : Db) : Db :=
  update_session id (set_row_persona bot) db.
Definition session_persona (db : Db) (id : rstr) : option rstr :=
  match session_row db id with Some r => s_persona r | None => None end.
Definition session_project (db : Db) (id : rstr) : result (option rstr) db_error :=
  match session_row db id with Some r => Ok (s_project r) | None => Err SessionNotFound end.
Definition touch (now id : rstr) (db : Db) : Db := update_session id (set_last_active now) db.

(** ** Deleting *)

Definition not_of {A} (key : A -> rstr) (id : rstr) (l : list A) : list A :=
  List.filter (fun r => negb (str_eqb (key r) id)) l.

Definition drop_scanned (backend native : rstr) (db : Db) : Db :=
  with_scanned (List.filter (fun r => negb (same_handle backend native (sc_backend r, sc_native r))) (db_scanned db)) db.

Definition is_tombstoned (db : Db) (backend native : rstr) : bool := existsb (same_handle backend native) (db_tombstones db).

(** [INSERT OR IGNORE] *)
Definition insert_tombstone (backend native : rstr) (db : Db) : Db :=
  if is_tombstoned db backend native then db
  else with_tombstones (db_tombstones db ++ [(backend, native)]) db.

Definition add_tombstone (backend native : rstr) (db : Db) : Db :=
  if is_empty backend || is_empty native then db else insert_tombstone backend native db.

Definition delete_session (id : rstr) (db : Db) : Db :=
  let db1 := with_messages (not_of m_session id (db_messages db)) (db_msg_seq db) (not_of f_session id (db_fts db)) db in
  let db2 := with_usage (not_of u_session id (db_usage db1)) (db_usage_seq db1) db1 in
  let db3 := with_plans (not_of p_session id (db_plans db2)) db2 in
  let db4 := match agent_session db3 id with
             | Some (agent, native) => drop_scanned agent native (insert_tombstone agent native db3)
             | None => db3
             end in
  with_sessions (not_of s_id id (db_sessions db4)) db4.

(** Idle before the cutoff, not running a turn, neither pinned nor archived. *)
Definition doomed (cutoff : rstr) (exclude : list rstr) (r : SessionRow) : bool :=
  negb (str_leb cutoff (default (s_created r) (s_last_active r)))
  && negb (existsb (str_eqb (s_id r)) exclude) && negb (s_pinned r) && negb (s_archived r).

Definition not_in {A} (key : A -> rstr) (ids : list rstr) (l : list A) : list A :=
  List.filter (fun r => negb (existsb (str_eqb (key r)) ids)) l.

(** [cutoff] is the time [days] days ago. *)
Definition cleanup_older_than (cutoff : rstr) (exclude : list rstr) (db : Db) : Db * list rstr :=
  let ids := map s_id (List.filter (doomed cutoff exclude) (db_sessions db)) in
  let db1 := with_messages (not_in m_session ids (db_messages db)) (db_msg_seq db) (not_in f_session ids (db_fts db)) db in
  let db2 := with_usage (not_in u_session ids (db_usage db1)) (db_usage_seq db1) db1 in
  (with_sessions (not_in s_id ids (db_sessions db2)) db2, ids).

(** ** Scanner rows *)

Definition scanned_key (r : ScannedRow) : rstr * rstr := (sc_backend r, sc_native r).

Definition scanned_row (db : Db) (backend native : rstr) : option ScannedRow :=
  find_first (fun r => same_handle backend native (scanned_key r)) (db_scanned db).

Definition scanned_signature (db : Db) (backend native : rstr) : option (option Z * option Z) :=
  (fun r => (sc_size r, sc_mtime r)) <$> scanned_row db backend native.

(** [as i64] *)
Definition as_i64 (z : Z) : Z := (if 2 ^ 63 <=? z then z - 2 ^ 64 else z)%Z.

(** An insert guarded by the tombstone, or an update of the existing row; it
    reports whether a row changed. *)
Definition record_scanned (now : rstr) (backend native : rstr) (size mtime : option Z) (session : rstr) (db : Db)
  : Db * bool :=
  if is_tombstoned db backend native then (db, false)
  else
    let row := {| sc_backend := backend; sc_native := native; sc_size := as_i64 <$> size; sc_mtime := mtime;
                  sc_session := session; sc_at := now |} in
    match scanned_row db backend native with
    | Some _ => (with_scanned (update_where (fun r => same_handle backend native (scanned_key r)) (fun _ => row)
                   (db_scanned db)) db, true)
    | None => (with_scanned (db_scanned db ++ [row]) db, true)
    end.

(** [ORDER BY scanned_at] *)
Definition scanned_all (db : Db) : list (rstr * rstr * rstr) :=
  map (fun r => (sc_backend r, sc_native r, sc_session r)) (sort_by (fun a b => str_leb (sc_at a) (sc_at b)) (db_scanned db)).

(** ** Projects *)

Definition has_project (db : Db) (id : rstr) : bool := existsb (fun p => str_eqb (pr_id p) id) (db_projects db).

Definition create_project_full (now id name root defaults kind : rstr) (parent : option rstr) (meta : rstr) (db : Db)
  : result Db db_error :=
  if has_project db id then Err Constraint
  else Ok (with_projects (db_projects db ++ [{|
    pr_id := id; pr_name := name; pr_root := root; pr_defaults := defaults; pr_kind := kind; pr_parent := parent;
    pr_meta := meta; pr_created := now |}]) db).

Definition create_project (now id name root defaults : rstr) (db : Db) : result Db db_error :=
  create_project_full now id name root defaults (str "project") None (str "{}") db.

Definition get_project (db : Db) (id : rstr) : option ProjectRow :=
  find_first (fun p => str_eqb (pr_id p) id) (db_projects db).

(** [ORDER BY kind != 'project', created_at LIMIT 1] *)
Definition project_first (a b : ProjectRow) : bool :=
  match str_eqb (pr_kind a) (str "project"), str_eqb (pr_kind b) (str "project") with
  | true, false => true
  | false, true => false
  | _, _ => str_leb (pr_created a) (pr_created b)
  end.

Definition get_project_by_root (db : Db) (root : rstr) : option ProjectRow :=
  head (sort_by project_first (List.filter (fun p => str_eqb (pr_root p) root) (db_projects db))).

(** [ORDER BY created_at, id] *)
Definition by_creation (a b : rstr * rstr) : bool :=
  if str_eqb a.1 b.1 then str_leb a.2 b.2 else str_leb a.1 b.1.

Definition list_projects (db : Db) : list ProjectRow :=
  sort_by (fun a b => by_creation (pr_created a, pr_id a) (pr_created b, pr_id b)) (db_projects db).

Definition set_project_meta (id : rstr) (parent : option rstr) (meta : rstr) (db : Db) : Db * bool :=
  (with_projects (update_where (fun p => str_eqb (pr_id p) id)
     (fun p => {| pr_id := pr_id p; pr_name := pr_name p; pr_root := pr_root p; pr_defaults := pr_defaults p;
                  pr_kind := pr_kind p; pr_parent := parent; pr_meta := meta; pr_created := pr_created p |})
     (db_projects db)) db, has_project db id).

Definition set_project_defaults (id defaults : rstr) (db : Db) : Db * bool :=
  (with_projects (update_where (fun p => str_eqb (pr_id p) id)
     (fun p => {| pr_id := pr_id p; pr_name := pr_name p; pr_root := pr_root p; pr_defaults := defaults;
                  pr_kind := pr_kind p; pr_parent := pr_parent p; pr_meta := pr_meta p; pr_created := pr_created p |})
     (db_projects db)) db, has_project db id).

Definition in_project (id : rstr) (r : SessionRow) : bool :=
  match s_project r with Some p => str_eqb p id | None => false end.

(** The count and the delete are two calls; grants go with the project. *)
Definition count_bound (db : Db) (id : rstr) : nat := count (in_project id) (db_sessions db).

Definition delete_project_row (id : rstr) (db : Db) : Db := {|
  db_sessions := db_sessions db; db_messages := db_messages db; db_msg_seq := db_msg_seq db; db_fts := db_fts db;
  db_usage := db_usage db; db_usage_seq := db_usage_seq db; db_plans := db_plans db;
  db_projects := not_of pr_id id (db_projects db);
  db_grants := List.filter (fun g => negb (bool_decide (gr_project g = Some id))) (db_grants db);
  db_scanned := db_scanned db; db_tombstones := db_tombstones db |}.

Definition delete_project (id : rstr) (db : Db) : result Db db_error :=
  let bound := count_bound db id in
  if bound =? 0 then Ok (delete_project_row id db) else Err (ProjectBound bound).

(** ** Messages *)

Section Messages.
Context `{JT : JsonText}.

(** What the index holds of a stored message. *)
Definition fts_row (m : MsgRow) : option FtsRow :=
  (fun text => {| f_content := text; f_session := m_session m; f_message := m_id m |})
  <$> fts_text (m_role m) (default JNull (from_str (m_data m))).

(** The insert of a message and of its index entry. *)
Definition insert_message (session role data : rstr) (ts : Z) (db : Db) : Db * Z :=
  let id := (db_msg_seq db + 1)%Z in
  let m := {| m_id := id; m_session := session; m_role := role; m_data := data; m_ts := ts |} in
  (with_messages (db_messages db ++ [m]) id (db_fts db ++ opt_list (fts_row m)) db, id).

(** Refused by the foreign key when the session has no row. *)
Definition append (now : rstr) (ts : Z) (session role : rstr) (data : json) (db : Db) : result (Db * Z) db_error :=
  if has_session db session then
    let '(db1, id) := insert_message session role (to_string data) ts db in
    Ok (touch now session db1, id)
  else Err Constraint.

Record StoredMessage := { sm_id : Z; sm_session : rstr; sm_role : rstr; sm_ts : Z; sm_data : json }.

(** What compaction has not hidden, by id. *)
Definition visible_messages (db : Db) (session : rstr) : list MsgRow :=
  let cutoff := match session_row db session with Some r => s_compacted r | None => 0%Z end in
  sort_by (fun a b => (m_id a <=? m_id b)%Z)
    (List.filter (fun m => str_eqb (m_session m) session && (cutoff <? m_id m)%Z) (db_messages db)).

Definition load_message (m : MsgRow) : result StoredMessage db_error :=
  match from_str (m_data m) with
  | Some v => Ok {| sm_id := m_id m; sm_session := m_session m; sm_role := m_role m; sm_ts := m_ts m; sm_data := v |}
  | None => Err BadJson
  end.

Definition messages_paged (db : Db) (session : rstr) (limit offset : nat) : result (list StoredMessage) db_error :=
  map_result load_message (take limit (drop offset (visible_messages db session))).

(** ** Usage *)

Definition newest_usage (a b : UsageRow) : bool := (u_id b <=? u_id a)%Z.

Definition latest_usage (db : Db) (session : rstr) : option UsageRow :=
  head (sort_by newest_usage (List.filter (fun u => str_eqb (u_session u) session) (db_usage db))).

(** The turn's share of the cumulative cost; a reset keeps the reported value. *)
Definition usage_delta (baseline : option f64) (cost : f64) : f64 :=
  match baseline with
  | Some prev => if SFleb prev cost then f64_sub cost prev else cost
  | None => cost
  end.

Definition record_usage (now session model : rstr) (used size : Z) (cost : f64) (db : Db) : Db :=
  if (used =? 0)%Z && SFeqb cost f64_zero then db
  else
    let baseline := match latest_usage db session with Some u => u_cumulative u | None => None end in
    let id := (db_usage_seq db + 1)%Z in
    with_usage (db_usage db ++ [{|
      u_id := id; u_session := session; u_model := model; u_used := as_i64 used; u_size := as_i64 size;
      u_cost := usage_delta baseline cost; u_cumulative := Some cost; u_created := now |}]) id db.

(** SQLite's [SUM] of reals, and [partial_cmp] as used by [sort_by]. *)
Variable sum_f64 : list f64 -> f64.

Definition as_u64_bits (z : Z) : Z := (if z <? 0 then z + 2 ^ 64 else z)%Z.

Definition is_user (m : MsgRow) : bool := str_eqb (m_role m) (str "user").

Definition session_usage (db : Db) (session : rstr) : Z * Z * f64 * nat :=
  let mine := List.filter (fun u => str_eqb (u_session u) session) (db_usage db) in
  let '(used, size) := match latest_usage db session with Some u => (u_used u, u_size u) | None => (0, 0)%Z end in
  (as_u64_bits used, as_u64_bits size, sum_f64 (map u_cost mine),
   Nat.max (length mine) (count (fun m => str_eqb (m_session m) session && is_user m) (db_messages db))).

Definition usage_in (db : Db) (project : option rstr) (u : UsageRow) : bool :=
  match project with
  | None => true
  | Some p => existsb (fun r => in_project p r && str_eqb (s_id r) (u_session u)) (db_sessions db)
  end.

(** The row with the highest id of its model, over all sessions. *)
Definition last_of_model (db : Db) (u : UsageRow) : bool :=
  forallb (fun v => negb (str_eqb (u_model v) (u_model u)) || (u_id v <=? u_id u)%Z) (db_usage db).

Definition dearer_first (a b : rstr * Z * Z * f64 * nat) : bool :=
  negb (SFltb (a.1.2) (b.1.2)).

Definition usage_summary (db : Db) (project : option rstr) : list (rstr * Z * Z * f64 * nat) :=
  let latest := List.filter (fun u => last_of_model db u && usage_in db project u) (db_usage db) in
  sort_by dearer_first (map (fun u =>
    let rows := List.filter (fun v => str_eqb (u_model v) (u_model u) && usage_in db project v) (db_usage db) in
    (u_model u, as_u64_bits (u_used u), as_u64_bits (u_size u), sum_f64 (map u_cost rows), length rows)) latest).

Definition usage_clear (db : Db) : Db := with_usage [] (db_usage_seq db) db.

(** ** Forks *)

Definition forked_row (now new_id : rstr) (r : SessionRow) : SessionRow := {|
  s_id := new_id; s_created := now; s_last_active := Some now; s_cwd := s_cwd r; s_model := s_model r;
  s_agent := s_agent r; s_agent_session := s_agent_session r; s_compacted := 0;
  s_title := (fun t => t ++ str " (fork)") <$> s_title r; s_tags := s_tags r; s_pinned := false;
  s_archived := false; s_project := None; s_persona := None |}.

Definition upto_ok (upto : option Z) (m : MsgRow) : bool :=
  match upto with Some u => (m_id m <=? u)%Z | None => true end.

Definition copied_messages (db : Db) (from : rstr) (upto : option Z) : list MsgRow :=
  sort_by (fun a b => (m_id a <=? m_id b)%Z)
    (List.filter (fun m => str_eqb (m_session m) from && upto_ok upto m) (db_messages db)).

Definition copy_message (new_id : rstr) (db : Db) (m : MsgRow) : Db :=
  (insert_message new_id (m_role m) (m_data m) (m_ts m) db).1.

Definition copy_usage (new_id : rstr) (db : Db) (u : UsageRow) : Db :=
  let id := (db_usage_seq db + 1)%Z in
  with_usage (db_usage db ++ [{|
    u_id := id; u_session := new_id; u_model := u_model u; u_used := u_used u; u_size := u_size u;
    u_cost := u_cost u; u_cumulative := u_cumulative u; u_created := u_created u |}]) id db.

(** [new_id] is a fresh UUID. *)
Definition fork_session (now new_id from : rstr) (upto : option Z) (db : Db) : result Db db_error :=
  match session_row db from with
  | None => Err SessionNotFound
  | Some r =>
      if has_session db new_id then Err Constraint
      else
        let db1 := with_sessions (db_sessions db ++ [forked_row now new_id r]) db in
        let db2 := fold_left (copy_message new_id) (copied_messages db1 from upto) db1 in
        Ok (fold_left (copy_usage new_id) (List.filter (fun u => str_eqb (u_session u) from) (db_usage db2)) db2)
  end.

(** ** Listing *)

Record SessionFilter := {
  sf_backend : option rstr; sf_cwd : option rstr; sf_tag : option rstr; sf_project : option rstr; sf_archived : bool
}.

(** [EXISTS (SELECT 1 FROM json_each(tags) WHERE value = ?)] *)
Definition has_tag (tags t : rstr) : result bool db_error :=
  match from_str tags with
  | None => Err BadJson
  | Some (JArr l) => Ok (existsb (fun v => match v with JStr s => str_eqb s t | _ => false end) l)
  | Some (JObj kvs) => Ok (existsb (fun kv => match kv.2 with JStr s => str_eqb s t | _ => false end) kvs)
  | Some (JStr s) => Ok (str_eqb s t)
  | Some _ => Ok false
  end.

Definition opt_test {A} (o : option A) (p : A -> bool) : bool := match o with Some a => p a | None => true end.

Definition list_cond (filter : SessionFilter) (r : SessionRow) : result bool db_error :=
  if opt_test (sf_backend filter) (str_eqb (coalesce_str (s_agent r)))
     && opt_test (sf_cwd filter) (str_eqb (s_cwd r))
     && opt_test (sf_project filter) (fun p => in_project p r)
     && (sf_archived filter || negb (s_archived r))
  then match sf_tag filter with Some t => has_tag (s_tags r) t | None => Ok true end
  else Ok false.

(** [ORDER BY pinned DESC, created_at, id] *)
Definition listed_before (a b : SessionRow) : bool :=
  match s_pinned a, s_pinned b with
  | true, false => true
  | false, true => false
  | _, _ => by_creation (s_created a, s_id a) (s_created b, s_id b)
  end.

Definition matching_sessions (db : Db) (filter : SessionFilter) : result (list SessionRow) db_error :=
  let? flags := map_result (list_cond filter) (db_sessions db) in
  Ok (sort_by listed_before (map fst (List.filter snd (combine (db_sessions db) flags)))).

Definition list_sessions_paged (db : Db) (limit offset : nat) (filter : SessionFilter) : result (list SessionRow) db_error :=
  let? rows := matching_sessions db filter in Ok (take limit (drop offset rows)).

Definition json_strings (v : json) : option (list rstr) :=
  match v with
  | JArr l => if forallb (fun e => match e with JStr _ => true | _ => false end) l
              then Some (flat_map (fun e => match e with JStr s => [s] | _ => [] end) l) else None
  | _ => None
  end.

(** An unreadable cell reads as no tags. *)
Definition row_tags (r : SessionRow) : list rstr :=
  match from_str (s_tags r) with Some v => default [] (json_strings v) | None => [] end.

Definition set_tags (id : rstr) (tags : list rstr) (db : Db) : Db * bool :=
  update_reporting id (set_row_tags (to_string (JArr (map JStr tags)))) db.

Definition session_overview (db : Db) (id : rstr) : option SessionRow := session_row db id.
End Messages.

(** ** Prompt history *)

Record PromptRow := { ph_cwd : rstr; ph_text : rstr; ph_count : Z; ph_updated : Z }.

Definition PROMPT_HISTORY_CAP : nat := 200.
#[global] Arguments PROMPT_HISTORY_CAP : simpl never.

(** [ORDER BY updated_at DESC, use_count DESC] *)
Definition newest_prompt (a b : PromptRow) : bool :=
  if (ph_updated a =? ph_updated b)%Z then (ph_count b <=? ph_count a)%Z else (ph_updated b <=? ph_updated a)%Z.

Definition prompts_of (rows : list PromptRow) (cwd : rstr) : list PromptRow :=
  sort_by newest_prompt (List.filter (fun r => str_eqb (ph_cwd r) cwd) rows).

Definition prompt_is (cwd text : rstr) (r : PromptRow) : bool := str_eqb (ph_cwd r) cwd && str_eqb (ph_text r) text.

Definition upsert_prompt (now : Z) (cwd text : rstr) (rows : list PromptRow) : list PromptRow :=
  if existsb (prompt_is cwd text) rows then
    update_where (prompt_is cwd text)
      (fun r => {| ph_cwd := ph_cwd r; ph_text := ph_text r; ph_count := ph_count r + 1; ph_updated := now |}) rows
  else rows ++ [{| ph_cwd := cwd; ph_text := text; ph_count := 1; ph_updated := now |}].

Definition record_prompt (now : Z) (cwd text : rstr) (rows : list PromptRow) : list PromptRow :=
  let rows1 := upsert_prompt now cwd text rows in
  let kept := take PROMPT_HISTORY_CAP (prompts_of rows1 cwd) in
  List.filter (fun r => negb (str_eqb (ph_cwd r) cwd && negb (existsb (prompt_is cwd (ph_text r)) kept))) rows1.

Definition recent_prompts (rows : list PromptRow) (cwd : rstr) (limit : nat) : list (rstr * Z) :=
  map (fun r => (ph_text r, ph_count r)) (take limit (prompts_of rows cwd)).
