(* ===== verification/SessionFacts.v ===== *)
(** * SessionFacts: what the session tables guarantee

    [exec] runs the [Store] calls of [SessionStore] one after the other;
    [db_inv] is what every sequence of them keeps, [maps_alive] which handles the
    scanner maps, [later] that ids are never given twice; then deletion,
    retention, forks, paging and prompt history. *)

From Stdlib Require Import SpecFloat.
From S2P Require Import Prelude Str Json Rows PlanStore Jail Fts SessionStore.

(** ** The calls of a daemon, one after the other *)

Inductive db_op :=
| CreateSession (now id cwd : rstr) (agent : option rstr)
| SetAgentSession (id agent native : rstr)
| SetTitleIfEmpty (id title : rstr)
| RenameSession (id title : rstr)
| SetTags (id : rstr) (tags : list rstr)
| SetPinned (id : rstr) (pinned : bool)
| SetArchived (id : rstr) (archived : bool)
| SetModel (id model : rstr)
| SetProject (id : rstr) (project : option rstr)
| SetPersona (id : rstr) (bot : option rstr)
| Touch (now id : rstr)
| Append (now : rstr) (ts : Z) (session role : rstr) (data : json)
| RecordUsage (now session model : rstr) (used size : Z) (cost : f64)
| UsageClear
| ForkSession (now new_id from : rstr) (upto : option Z)
| DeleteSession (id : rstr)
| CleanupOlderThan (cutoff : rstr) (exclude : list rstr)
| RecordScanned (now backend native : rstr) (size mtime : option Z) (session : rstr)
| DropScanned (backend native : rstr)
| AddTombstone (backend native : rstr)
| ClearTombstone (backend native : rstr)
| CreateProject (now id name root defaults kind : rstr) (parent : option rstr) (meta : rstr)
| SetProjectMeta (id : rstr) (parent : option rstr) (meta : rstr)
| SetProjectDefaults (id defaults : rstr)
| DeleteProject (id : rstr)
| Plans (rows : list PlanRow)
| Grants (rows : list GrantedRoot).

Definition or_same {E} (db : Db) (r : result Db E) : Db := match r with Ok d => d | Err _ => db end.

Section Exec.
Context `{JT : JsonText}.

(** A refused call changes nothing.  The plan and grant tables change by the
    methods of [PlanStore] and [Jail]: any rows. *)
Definition exec (db : Db) (op : db_op) : Db :=
  match op with
  | CreateSession now id cwd agent => or_same db (create_session now id cwd agent db)
  | SetAgentSession id agent native => set_agent_session id agent native db
  | SetTitleIfEmpty id title => set_title_if_empty id title db
  | RenameSession id title => (rename_session id title db).1
  | SetTags id tags => (set_tags id tags db).1
  | SetPinned id pinned => (set_pinned id pinned db).1
  | SetArchived id archived => (set_archived id archived db).1
  | SetModel id model => set_session_model id model db
  | SetProject id project => set_session_project id project db
  | SetPersona id bot => set_session_persona id bot db
  | Touch now id => touch now id db
  | Append now ts session role data => match append now ts session role data db with Ok (d, _) => d | Err _ => db end
  | RecordUsage now session model used size cost => record_usage now session model used size cost db
  | UsageClear => usage_clear db
  | ForkSession now new_id from upto => or_same db (fork_session now new_id from upto db)
  | DeleteSession id => delete_session id db
  | CleanupOlderThan cutoff exclude => (cleanup_older_than cutoff exclude db).1
  | RecordScanned now backend native size mtime session => (record_scanned now backend native size mtime session db).1
  | DropScanned backend native => drop_scanned backend native db
  | AddTombstone backend native => add_tombstone backend native db
  | ClearTombstone backend native => clear_tombstone backend native db
  | CreateProject now id name root defaults kind parent meta =>
      or_same db (create_project_full now id name root defaults kind parent meta db)
  | SetProjectMeta id parent meta => (set_project_meta id parent meta db).1
  | SetProjectDefaults id defaults => (set_project_defaults id defaults db).1
  | DeleteProject id => or_same db (delete_project id db)
  | Plans rows => with_plans rows db
  | Grants rows => {|
      db_sessions := db_sessions db; db_messages := db_messages db; db_msg_seq := db_msg_seq db; db_fts := db_fts db;
      db_usage := db_usage db; db_usage_seq := db_usage_seq db; db_plans := db_plans db;
      db_projects := db_projects db; db_grants := rows; db_scanned := db_scanned db;
      db_tombstones := db_tombstones db |}
  end.

Definition empty_db : Db := {|
  db_sessions := []; db_messages := []; db_msg_seq := 0; db_fts := []; db_usage := []; db_usage_seq := 0;
  db_plans := []; db_projects := []; db_grants := []; db_scanned := []; db_tombstones := [] |}.

Definition run_ops (ops : list db_op) : Db := fold_left exec ops empty_db.

(** ** The invariant *)

Definition index_of (ms : list MsgRow) : list FtsRow := flat_map (fun m => opt_list (fts_row m)) ms.

Record db_inv (db : Db) : Prop := {
  di_sessions : NoDup (map s_id (db_sessions db));
  di_compacted : forall r, r ∈ db_sessions db -> s_compacted r = 0%Z;
  di_ids : StronglySorted Z.lt (map m_id (db_messages db));
  di_seq : forall m, m ∈ db_messages db -> (0 < m_id m <= db_msg_seq db)%Z;
  di_seq0 : (0 <= db_msg_seq db)%Z;
  di_fk : forall m, m ∈ db_messages db -> m_session m ∈ map s_id (db_sessions db);
  di_fts : db_fts db = index_of (db_messages db);
  di_usage : StronglySorted Z.lt (map u_id (db_usage db));
  di_usage_seq : forall u, u ∈ db_usage db -> (0 < u_id u <= db_usage_seq db)%Z;
  di_usage_seq0 : (0 <= db_usage_seq db)%Z;
  di_scanned : NoDup (map scanned_key (db_scanned db));
  di_tombs : NoDup (db_tombstones db)
}.

Lemma has_session_elem db id : has_session db id = true <-> id ∈ map s_id (db_sessions db).
Proof.
  unfold has_session. rewrite existsb_elem, list_elem_of_In, in_map_iff.
  setoid_rewrite list_elem_of_In. setoid_rewrite str_eqb_eq. naive_solver.
Qed.

Lemma same_handle_eq b n t : same_handle b n t = true <-> t = (b, n).
Proof. unfold same_handle. rewrite andb_true_iff, !str_eqb_eq. destruct t; simpl. naive_solver. Qed.

Lemma is_tombstoned_elem db b n : is_tombstoned db b n = true <-> (b, n) ∈ db_tombstones db.
Proof.
  unfold is_tombstoned. rewrite existsb_elem. setoid_rewrite same_handle_eq. naive_solver.
Qed.

Lemma nodup_map_filter {A B} (key : A -> B) (p : A -> bool) l : NoDup (map key l) -> NoDup (map key (List.filter p l)).
Proof.
  induction l as [|a l IH]; [done|]. cbn [map List.filter]. intros [H1 H2]%NoDup_cons.
  destruct (p a); [|by apply IH]. cbn [map]. apply NoDup_cons. split; [|by apply IH].
  intros Hx. apply H1. apply list_elem_of_fmap in Hx as (y & -> & Hy). apply list_elem_of_fmap. exists y.
  split; [done|]. by apply elem_filter in Hy as [].
Qed.

Lemma index_filter (q : rstr -> bool) ms :
  index_of (List.filter (fun m => q (m_session m)) ms) = List.filter (fun f => q (f_session f)) (index_of ms).
Proof.
  induction ms as [|m ms IH]; [done|]. cbn [List.filter index_of flat_map]. fold (index_of ms).
  rewrite List.filter_app. unfold fts_row at 1.
  assert (List.filter (fun f => q (f_session f)) (opt_list (fts_row m)) = if q (m_session m) then opt_list (fts_row m) else []) as ->.
  { unfold fts_row. destruct (fts_text _ _); cbn; by destruct (q (m_session m)). }
  destruct (q (m_session m)); [|done]. cbn [index_of flat_map]. by rewrite <-IH.
Qed.

(** ** Every call keeps the invariant *)

Lemma inv_sessions db rows :
  db_inv db -> map s_id rows = map s_id (db_sessions db) -> (forall r, r ∈ rows -> s_compacted r = 0%Z) ->
  db_inv (with_sessions rows db).
Proof. intros [] H Hc. split; cbn; rewrite ?H; done. Qed.

Lemma update_rows_inv p f db :
  (forall r, s_id (f r) = s_id r) -> (forall r, s_compacted (f r) = s_compacted r) -> db_inv db ->
  db_inv (with_sessions (update_where p f (db_sessions db)) db).
Proof.
  intros Hf Hc Hi. apply inv_sessions; [done|by apply update_where_keys|].
  intros r (r0 & Hr & ->)%update_where_elem. destruct (p r0); rewrite ?Hc; by apply Hi.
Qed.

Lemma update_has_session id f db x : (forall r, s_id (f r) = s_id r) -> has_session (update_session id f db) x = has_session db x.
Proof.
  intros Hf. apply eq_true_iff_eq. rewrite !has_session_elem. cbn. by rewrite update_where_keys.
Qed.

(** Removing the messages, index rows and usage of some sessions, and those
    sessions or not. *)
Lemma inv_drop (q : rstr -> bool) db db' :
  db_inv db ->
  db_messages db' = List.filter (fun m => q (m_session m)) (db_messages db) ->
  db_fts db' = List.filter (fun f => q (f_session f)) (db_fts db) ->
  db_usage db' = List.filter (fun u => q (u_session u)) (db_usage db) ->
  db_sessions db' = List.filter (fun r => q (s_id r)) (db_sessions db) ->
  db_msg_seq db' = db_msg_seq db -> db_usage_seq db' = db_usage_seq db ->
  NoDup (map scanned_key (db_scanned db')) ->
  NoDup (db_tombstones db') ->
  db_inv db'.
Proof.
  intros [] Hm Hf Hu Hs Hq1 Hq2 Hsc Htt. split; try done; rewrite ?Hs, ?Hm, ?Hu, ?Hq1, ?Hq2; try done.
  - by apply nodup_map_filter.
  - intros r [Hr _]%elem_filter. by apply di_compacted0.
  - by apply sorted_filter.
  - intros m [Hin _]%elem_filter. by apply di_seq1.
  - intros m [Hin Hk]%elem_filter. apply di_fk0 in Hin. apply list_elem_of_fmap in Hin as (r & He & Hr).
    apply list_elem_of_fmap. exists r. split; [done|]. apply elem_filter. by rewrite <-He.
  - rewrite Hf, di_fts0. symmetry. apply index_filter.
  - by apply sorted_filter.
  - intros u [Hin _]%elem_filter. by apply di_usage_seq1.
Qed.

Lemma insert_tombstone_nodup b n db : NoDup (db_tombstones db) -> NoDup (db_tombstones (insert_tombstone b n db)).
Proof.
  intros H. unfold insert_tombstone. destruct (is_tombstoned db b n) eqn:E; cbn; [done|].
  apply NoDup_app. split; [done|]. split; [|apply NoDup_singleton].
  intros x Hx ->%list_elem_of_singleton. apply not_true_iff_false in E. apply E. by apply is_tombstoned_elem.
Qed.

Lemma insert_tombstone_elem b n db k : k ∈ db_tombstones (insert_tombstone b n db) <-> k = (b, n) \/ k ∈ db_tombstones db.
Proof.
  unfold insert_tombstone. destruct (is_tombstoned db b n) eqn:E; cbn.
  - apply is_tombstoned_elem in E. naive_solver.
  - rewrite elem_of_app, list_elem_of_singleton. tauto.
Qed.

Lemma delete_session_inv id db : db_inv db -> db_inv (delete_session id db).
Proof.
  intros Hi. apply (inv_drop (fun s => negb (str_eqb s id)) db); try done; unfold delete_session;
    set (db3 := with_plans _ _); destruct (agent_session db3 id) as [[a n]|]; cbn;
    try (by destruct Hi); try (unfold insert_tombstone; by destruct (is_tombstoned db3 a n)).
  - apply nodup_map_filter. unfold insert_tombstone. destruct (is_tombstoned db3 a n); apply Hi.
  - apply insert_tombstone_nodup, Hi.
Qed.

Lemma cleanup_inv cutoff exclude db : db_inv db -> db_inv (cleanup_older_than cutoff exclude db).1.
Proof.
  intros Hi. set (ids := map s_id (List.filter (doomed cutoff exclude) (db_sessions db))).
  apply (inv_drop (fun s => negb (existsb (str_eqb s) ids)) db); try done; by destruct Hi.
Qed.

Lemma insert_message_inv session role data ts db :
  db_inv db -> has_session db session = true -> db_inv (insert_message session role data ts db).1.
Proof.
  intros [] H. split; cbn; try done.
  - rewrite map_app. apply sorted_snoc; [done|]. intros x Hx. apply list_elem_of_fmap in Hx as (m & -> & Hm).
    apply di_seq1 in Hm. cbn; lia.
  - intros m [Hm|Hm]%elem_of_app; [apply di_seq1 in Hm; lia|]. apply list_elem_of_singleton in Hm as ->. cbn. lia.
  - lia.
  - intros m [Hm|Hm]%elem_of_app; [by apply di_fk0|]. apply list_elem_of_singleton in Hm as ->. cbn.
    by apply has_session_elem.
  - rewrite di_fts0. unfold index_of. rewrite flat_map_app. cbn [flat_map]. by rewrite app_nil_r.
Qed.

Lemma usage_snoc_inv db u : db_inv db -> u_id u = (db_usage_seq db + 1)%Z ->
  db_inv (with_usage (db_usage db ++ [u]) (db_usage_seq db + 1)%Z db).
Proof.
  intros [] H. split; cbn; try done.
  - rewrite map_app. apply sorted_snoc; [done|]. intros x Hx. apply list_elem_of_fmap in Hx as (m & -> & Hm).
    apply di_usage_seq1 in Hm. rewrite H. lia.
  - intros m [Hm|Hm]%elem_of_app; [apply di_usage_seq1 in Hm; lia|]. apply list_elem_of_singleton in Hm as ->. lia.
  - lia.
Qed.

Lemma session_snoc_inv db r :
  db_inv db -> has_session db (s_id r) = false -> s_compacted r = 0%Z -> db_inv (with_sessions (db_sessions db ++ [r]) db).
Proof.
  intros [] Eh Hc. split; cbn; try done.
  - rewrite map_app. apply NoDup_app. split; [done|]. split; [|apply NoDup_singleton].
    intros x Hx ->%list_elem_of_singleton. apply not_true_iff_false in Eh. apply Eh. by apply has_session_elem.
  - intros x [Hx|Hx]%elem_of_app; [by apply di_compacted0|]. by apply list_elem_of_singleton in Hx as ->.
  - intros m Hm. rewrite map_app, elem_of_app. left. by apply di_fk0.
Qed.

Lemma filter_tombs_inv p db : db_inv db -> db_inv (with_tombstones (List.filter p (db_tombstones db)) db).
Proof.
  intros []. split; cbn; try done.
  rewrite <-map_id. apply nodup_map_filter. by rewrite map_id.
Qed.

Lemma insert_tombstone_inv b n db : db_inv db -> db_inv (insert_tombstone b n db).
Proof.
  intros Hi. pose proof (insert_tombstone_nodup b n db (di_tombs _ Hi)) as H. unfold insert_tombstone in *.
  destruct (is_tombstoned db b n); [done|]. destruct Hi. by split.
Qed.

Lemma session_row_elem db id r : session_row db id = Some r -> r ∈ db_sessions db /\ s_id r = id.
Proof. intros [H1 H2]%find_first_Some. by apply str_eqb_eq in H2. Qed.

Lemma fold_inv {A} (P : Db -> Prop) (f : Db -> A -> Db) l db : (forall d a, P d -> P (f d a)) -> P db -> P (fold_left f l db).
Proof. intros Hf. revert db; induction l as [|a l IH]; intros db H; [done|]. by apply IH, Hf. Qed.

Lemma fork_session_inv now new_id from upto db db' :
  db_inv db -> fork_session now new_id from upto db = Ok db' -> db_inv db'.
Proof.
  intros Hi. unfold fork_session. destruct (session_row db from) as [r|] eqn:Er; [|done].
  destruct (has_session db new_id) eqn:Eh; [done|]. intros [= <-].
  apply fold_inv; [intros d u Hd; by apply usage_snoc_inv|].
  apply (fold_inv (fun d => db_inv d /\ has_session d new_id = true)).
  - intros d m [Hd Hn]. split; [by apply insert_message_inv|done].
  - split; [|apply has_session_elem; cbn; rewrite map_app, elem_of_app; right; by left].
    by apply session_snoc_inv.
Qed.

Lemma record_scanned_inv now backend native size mtime session db :
  db_inv db -> db_inv (record_scanned now backend native size mtime session db).1.
Proof.
  intros Hi. unfold record_scanned. destruct (is_tombstoned db backend native) eqn:Et; [done|].
  apply not_true_iff_false in Et. rewrite is_tombstoned_elem in Et.
  destruct (scanned_row db backend native) as [r|] eqn:Er; destruct Hi; split; cbn; try done.
  - rewrite update_where_map; [done|]. intros x Hx. apply same_handle_eq in Hx. by rewrite Hx.
  - rewrite map_app. apply NoDup_app. split; [done|]. split; [|apply NoDup_singleton].
    intros k Hk Hin%list_elem_of_singleton. cbn in Hin. subst k. apply list_elem_of_fmap in Hk as (x & Hx & Hin).
    pose proof (find_first_None _ _ Er x Hin) as Hf. cbn in Hf. apply not_true_iff_false in Hf.
    apply Hf. apply same_handle_eq. by symmetry.
Qed.

Lemma append_inv now ts session role data db db' id :
  db_inv db -> append now ts session role data db = Ok (db', id) -> db_inv db'.
Proof.
  intros Hi. unfold append. destruct (has_session db session) eqn:Eh; [|done].
  destruct (insert_message _ _ _ _ _) as [db1 i] eqn:E. intros [= <- _].
  apply update_rows_inv; [done..|]. change db1 with (db1, i).1. rewrite <-E. by apply insert_message_inv.
Qed.

Lemma exec_inv db op : db_inv db -> db_inv (exec db op).
Proof.
  intros Hi. destruct op; cbn [exec rename_session set_tags set_pinned set_archived update_reporting fst];
    try (by apply update_rows_inv); try (destruct Hi; by split).
  - unfold create_session. destruct (has_session db id) eqn:Eh; [done|]. by apply session_snoc_inv.
  - apply update_rows_inv; [done..|]. by apply filter_tombs_inv.
  - destruct (append _ _ _ _ _ _) as [[d i]|] eqn:E; [|done]. by eapply append_inv.
  - unfold record_usage. destruct (_ && _); [done|]. by apply usage_snoc_inv.
  - destruct Hi. split; cbn; try done; [constructor|]. by intros u ?%not_elem_of_nil.
  - destruct (fork_session _ _ _ _ _) as [d|] eqn:E; [|done]. by eapply fork_session_inv.
  - by apply delete_session_inv.
  - by apply cleanup_inv.
  - by apply record_scanned_inv.
  - destruct Hi. split; cbn; try done. by apply nodup_map_filter.
  - unfold add_tombstone. destruct (_ || _); [done|]. by apply insert_tombstone_inv.
  - by apply filter_tombs_inv.
  - unfold create_project_full. destruct (has_project db id); [done|]. destruct Hi; by split.
  - unfold delete_project. destruct (_ =? 0); [|done]. destruct Hi; by split.
Qed.

Lemma run_ops_inv ops : db_inv (run_ops ops).
Proof.
  unfold run_ops. apply fold_inv; [intros d op; apply exec_inv|].
  split; cbn; try done; first [by apply NoDup_nil_2 | by constructor | by intros x ?%not_elem_of_nil].
Qed.

(** ** Mapped handles and tombstones *)

(** A handle the scanner maps is not tombstoned, but for the [late] ones. *)
Definition maps_alive (late : rstr * rstr -> Prop) (db : Db) : Prop :=
  forall r, r ∈ db_scanned db -> scanned_key r ∈ db_tombstones db -> late (scanned_key r).

Lemma fewer_alive late db db' :
  db_scanned db' ⊆ db_scanned db -> db_tombstones db' ⊆ db_tombstones db -> maps_alive late db -> maps_alive late db'.
Proof. intros H1 H2 H r Hr Ht. by apply H; [apply H1|apply H2]. Qed.

Lemma delete_session_alive late id db : maps_alive late db -> maps_alive late (delete_session id db).
Proof.
  intros H. unfold delete_session. set (db3 := with_plans _ _). intros r Hr.
  destruct (agent_session db3 id) as [[a n]|]; [|by apply H].
  cbn in *. apply elem_filter in Hr as [Hr Hn]. rewrite insert_tombstone_elem. intros [Hk|Ht].
  - apply negb_true_iff, not_true_iff_false in Hn. destruct Hn. by apply same_handle_eq.
  - apply H; [|done]. unfold insert_tombstone in Hr. by destruct (is_tombstoned db3 a n).
Qed.

Lemma record_scanned_alive late now backend native size mtime session db :
  maps_alive late db -> maps_alive late (record_scanned now backend native size mtime session db).1.
Proof.
  intros H. unfold record_scanned. destruct (is_tombstoned db backend native) eqn:Et; [done|].
  apply not_true_iff_false in Et. rewrite is_tombstoned_elem in Et.
  destruct (scanned_row db backend native) as [r|]; intros x Hx; cbn in *.
  - apply update_where_elem in Hx as (x0 & Hx & ->).
    destruct (same_handle backend native (scanned_key x0)) eqn:E; [done|by apply H].
  - apply elem_of_app in Hx as [Hx|Hx]; [by apply H|]. by apply list_elem_of_singleton in Hx as ->.
Qed.

Lemma fold_frame {A B} (f : Db -> A -> Db) (get : Db -> B) l db :
  (forall d a, get (f d a) = get d) -> get (fold_left f l db) = get db.
Proof. intros Hf. revert db; induction l as [|a l IH]; intros db; [done|]. cbn. by rewrite IH. Qed.

Lemma fork_session_alive late now new_id from upto db db' :
  fork_session now new_id from upto db = Ok db' -> maps_alive late db -> maps_alive late db'.
Proof.
  unfold fork_session. destruct (session_row db from) as [r|]; [|done].
  destruct (has_session db new_id); [done|]. intros [= <-]. apply fewer_alive.
  - by rewrite !(fold_frame _ db_scanned).
  - by rewrite !(fold_frame _ db_tombstones).
Qed.

Lemma exec_alive late db op : (forall b n, op = AddTombstone b n -> late (b, n)) ->
  maps_alive late db -> maps_alive late (exec db op).
Proof.
  intros Hl H. destruct op; cbn [exec rename_session set_tags set_pinned set_archived update_reporting fst]; try done.
  - unfold create_session. by destruct (has_session db id).
  - by eapply fewer_alive; [| |exact H]; cbn; [|intros k [? _]%elem_filter].
  - unfold append. by destruct (has_session db session).
  - unfold record_usage. by destruct (_ && _).
  - destruct (fork_session _ _ _ _ _) as [d|] eqn:E; [|done]. by eapply fork_session_alive.
  - by apply delete_session_alive.
  - by apply record_scanned_alive.
  - by eapply fewer_alive; [| |exact H]; cbn; [intros k [? _]%elem_filter|].
  - unfold add_tombstone. destruct (_ || _); [done|]. intros r Hr. rewrite insert_tombstone_elem. intros [->|Ht].
    + by apply Hl.
    + apply H; [|done]. unfold insert_tombstone in Hr. by destruct (is_tombstoned db backend native).
  - by eapply fewer_alive; [| |exact H]; cbn; [|intros k [? _]%elem_filter].
  - unfold create_project_full. by destruct (has_project db id).
  - unfold delete_project. by destruct (_ =? 0).
Qed.

Lemma run_ops_alive ops : maps_alive (fun k => AddTombstone k.1 k.2 ∈ ops) (run_ops ops).
Proof.
  unfold run_ops. assert (forall l db, (forall op, op ∈ l -> op ∈ ops) -> maps_alive (fun k => AddTombstone k.1 k.2 ∈ ops) db ->
    maps_alive (fun k => AddTombstone k.1 k.2 ∈ ops) (fold_left exec l db)) as H; [|apply H; [done|]; by intros r ?%not_elem_of_nil].
  induction l as [|op l IH]; intros db Hl H; [done|]. apply IH; [intros o Ho; apply Hl; by right|].
  apply exec_alive; [|done]. intros b n ->. apply Hl. by left.
Qed.

(** ** Ids are never given twice *)

(** What was added since [db] carries ids that [db] had not given. *)
Record later (db db' : Db) : Prop := {
  lt_seq : (db_msg_seq db <= db_msg_seq db')%Z;
  lt_messages : forall m, m ∈ db_messages db' -> m ∈ db_messages db \/ (db_msg_seq db < m_id m)%Z;
  lt_useq : (db_usage_seq db <= db_usage_seq db')%Z;
  lt_usage : forall u, u ∈ db_usage db' -> u ∈ db_usage db \/ (db_usage_seq db < u_id u)%Z
}.

#[export] Instance later_preorder : PreOrder later.
Proof.
  split; [intros db; split; first [lia|by left]|]. intros a b c [] []. split; try lia.
  - intros m [Hm|Hm]%lt_messages1; [by apply lt_messages0|]. right. lia.
  - intros u [Hu|Hu]%lt_usage1; [by apply lt_usage0|]. right. lia.
Qed.

Lemma fewer_later db db' :
  db_msg_seq db' = db_msg_seq db -> db_usage_seq db' = db_usage_seq db ->
  db_messages db' ⊆ db_messages db -> db_usage db' ⊆ db_usage db -> later db db'.
Proof. intros H1 H2 Hm Hu. split; try lia; [intros m ?%Hm|intros u ?%Hu]; by left. Qed.

Lemma insert_message_later session role data ts db : later db (insert_message session role data ts db).1.
Proof.
  split; cbn; try lia; [|by left]. intros m [Hm|Hm]%elem_of_app; [by left|].
  apply list_elem_of_singleton in Hm as ->. right. cbn. lia.
Qed.

Lemma usage_snoc_later db u : u_id u = (db_usage_seq db + 1)%Z ->
  later db (with_usage (db_usage db ++ [u]) (db_usage_seq db + 1)%Z db).
Proof.
  intros H. split; cbn; try lia; [by left|]. intros x [Hx|Hx]%elem_of_app; [by left|].
  apply list_elem_of_singleton in Hx as ->. right. lia.
Qed.

Lemma fold_later {A} (f : Db -> A -> Db) l db : (forall d a, later d (f d a)) -> later db (fold_left f l db).
Proof. intros Hf. revert db; induction l as [|a l IH]; intros db; [done|]. cbn. by etrans; [apply Hf|apply IH]. Qed.

Lemma fork_session_later now new_id from upto db db' : fork_session now new_id from upto db = Ok db' -> later db db'.
Proof.
  unfold fork_session. destruct (session_row db from) as [r|]; [|done].
  destruct (has_session db new_id); [done|]. intros [= <-].
  etrans; [|apply fold_later; intros d u; by apply usage_snoc_later].
  etrans; [|apply fold_later; intros d m; apply insert_message_later]. by apply fewer_later.
Qed.

Lemma delete_session_later id db : later db (delete_session id db).
Proof.
  unfold delete_session. set (db3 := with_plans _ _).
  destruct (agent_session db3 id) as [[a n]|]; unfold insert_tombstone; try destruct (is_tombstoned db3 a n);
    apply fewer_later; try done; cbn; intros x [? _]%elem_filter; done.
Qed.

Lemma exec_later db op : later db (exec db op).
Proof.
  destruct op; cbn [exec rename_session set_tags set_pinned set_archived update_reporting fst]; try (by apply fewer_later).
  - unfold create_session. destruct (has_session db id); [done|by apply fewer_later].
  - unfold append. destruct (has_session db session); [|done].
    destruct (insert_message _ _ _ _ _) as [d i] eqn:E. epose proof (insert_message_later _ _ _ _ db) as H. erewrite E in H.
    etrans; [exact H|by apply fewer_later].
  - unfold record_usage. destruct (_ && _); [done|]. by apply usage_snoc_later.
  - apply fewer_later; try done. by intros u ?%not_elem_of_nil.
  - destruct (fork_session _ _ _ _ _) as [d|] eqn:E; [|done]. by eapply fork_session_later.
  - apply delete_session_later.
  - by apply fewer_later; try done; cbn; intros x [? _]%elem_filter.
  - unfold record_scanned. destruct (is_tombstoned _ _ _); [done|]. destruct (scanned_row _ _ _); by apply fewer_later.
  - unfold add_tombstone, insert_tombstone. destruct (_ || _); [done|].
    destruct (is_tombstoned _ _ _); by apply fewer_later.
  - unfold create_project_full. destruct (has_project db id); by apply fewer_later.
  - unfold delete_project. destruct (_ =? 0); by apply fewer_later.
Qed.

Lemma run_ops_later ops more : later (run_ops ops) (run_ops (ops ++ more)).
Proof. unfold run_ops. rewrite fold_left_app. apply fold_later, exec_later. Qed.

(** C12: the tables agree after any sequence of store calls.  Sessions have one
    row each and every message belongs to one; messages and usage rows carry
    rising ids, and what later calls add has a higher id than every row there
    ever was before, deleted since or not; the full-text index holds just the
    texts of the stored messages, in their order; a native session is recorded
    at most once, a tombstoned one is refused, and a recorded one is tombstoned
    only where [add_tombstone] was called for it by name. *)
Theorem store_consistent (ops more : list db_op) :
  let db := run_ops ops in
  let db' := run_ops (ops ++ more) in
  NoDup (map s_id (db_sessions db)) /\
  (forall m, m ∈ db_messages db -> has_session db (m_session m) = true) /\
  StronglySorted Z.lt (map m_id (db_messages db)) /\ StronglySorted Z.lt (map u_id (db_usage db)) /\
  (forall m m', m ∈ db_messages db -> m' ∈ db_messages db' -> m' ∈ db_messages db \/ (m_id m < m_id m')%Z) /\
  (forall u u', u ∈ db_usage db -> u' ∈ db_usage db' -> u' ∈ db_usage db \/ (u_id u < u_id u')%Z) /\
  db_fts db = flat_map (fun m => opt_list (fts_row m)) (db_messages db) /\
  NoDup (map scanned_key (db_scanned db)) /\
  (forall now b n size mtime session, is_tombstoned db b n = true ->
     record_scanned now b n size mtime session db = (db, false)) /\
  (forall r, r ∈ db_scanned db -> is_tombstoned db (sc_backend r) (sc_native r) = true ->
     AddTombstone (sc_backend r) (sc_native r) ∈ ops).
Proof.
  cbv zeta. destruct (run_ops_inv ops), (run_ops_later ops more). do 4 (split; [first [done|intros m Hm; by apply has_session_elem, di_fk0]|]).
  split; [intros m m' Hm [|]%lt_messages0; [by left|]; apply di_seq1 in Hm; right; lia|].
  split; [intros u u' Hu [|]%lt_usage0; [by left|]; apply di_usage_seq1 in Hu; right; lia|].
  do 2 (split; [done|]). split; [intros; unfold record_scanned; by case_match|].
  intros r Hr Ht. apply is_tombstoned_elem in Ht. by apply (run_ops_alive ops r).
Qed.

(** ** Order: the tables are sorted by id *)

Lemma latest_usage_last db session : db_inv db ->
  latest_usage db session = last (List.filter (fun u => str_eqb (u_session u) session) (db_usage db)).
Proof.
  intros Hi. unfold latest_usage, newest_usage. rewrite (sort_reversed u_id).
  - rewrite <-head_reverse. done.
  - apply sorted_filter. apply Hi.
Qed.

Lemma copied_messages_filter db from upto : db_inv db ->
  copied_messages db from upto = List.filter (fun m => str_eqb (m_session m) from && upto_ok upto m) (db_messages db).
Proof. intros Hi. apply (sort_sorted m_id). apply sorted_filter. apply Hi. Qed.

Lemma visible_messages_filter db session : db_inv db ->
  visible_messages db session = List.filter (fun m => str_eqb (m_session m) session) (db_messages db).
Proof.
  intros Hi. unfold visible_messages. rewrite (sort_sorted m_id) by (apply sorted_filter; apply Hi).
  apply filter_ext_elem. intros m Hm.
  assert ((match session_row db session with Some r => s_compacted r | None => 0%Z end) = 0%Z) as ->.
  { destruct (session_row db session) as [r|] eqn:E; [|done]. apply session_row_elem in E as [E _]. by apply Hi. }
  apply (di_seq db Hi) in Hm. assert ((0 <? m_id m)%Z = true) as -> by lia. by rewrite andb_true_r.
Qed.

(** ** Deletion *)

Lemma filter_never {A} (p : A -> bool) l : (forall a, p a = false) -> List.filter p l = [].
Proof. intros H. induction l as [|a l IH]; [done|]. cbn [List.filter]. by rewrite H. Qed.

Lemma not_of_elem {A} (key : A -> rstr) id l a : a ∈ not_of key id l <-> a ∈ l /\ key a <> id.
Proof. unfold not_of. by rewrite elem_filter, negb_true_iff, str_eqb_neq. Qed.

Lemma not_of_filter {A} (key : A -> rstr) id id' l :
  id' <> id -> List.filter (fun a => str_eqb (key a) id') (not_of key id l) = List.filter (fun a => str_eqb (key a) id') l.
Proof.
  intros Hne. unfold not_of. rewrite filter_and. apply filter_ext_elem. intros a _.
  destruct (str_eqb (key a) id') eqn:E; [|by rewrite andb_false_r]. apply str_eqb_eq in E. rewrite andb_true_r.
  apply negb_true_iff, str_eqb_neq. congruence.
Qed.

Lemma delete_tables id db :
  let db' := delete_session id db in
  db_messages db' = not_of m_session id (db_messages db) /\ db_fts db' = not_of f_session id (db_fts db) /\
  db_usage db' = not_of u_session id (db_usage db) /\ db_plans db' = not_of p_session id (db_plans db) /\
  db_sessions db' = not_of s_id id (db_sessions db) /\
  match agent_session db id with
  | Some (a, n) => db_scanned db' = List.filter (fun r => negb (same_handle a n (scanned_key r))) (db_scanned db) /\
                   db_tombstones db' = if is_tombstoned db a n then db_tombstones db else db_tombstones db ++ [(a, n)]
  | None => db_scanned db' = db_scanned db /\ db_tombstones db' = db_tombstones db
  end.
Proof.
  unfold delete_session. set (db3 := with_plans _ _).
  change (agent_session db3 id) with (agent_session db id). destruct (agent_session db id) as [[a n]|]; cbn; [|done].
  unfold insert_tombstone. change (is_tombstoned db3 a n) with (is_tombstoned db a n).
  by destruct (is_tombstoned db a n).
Qed.

(** The rows that belong to one session. *)
Definition session_rows (db : Db) (id : rstr) :=
  (List.filter (fun r => str_eqb (s_id r) id) (db_sessions db),
   List.filter (fun m => str_eqb (m_session m) id) (db_messages db),
   List.filter (fun f => str_eqb (f_session f) id) (db_fts db),
   List.filter (fun u => str_eqb (u_session u) id) (db_usage db),
   List.filter (fun r => str_eqb (p_session r) id) (db_plans db)).

Lemma not_of_self {A} (key : A -> rstr) id l : List.filter (fun a => str_eqb (key a) id) (not_of key id l) = [].
Proof. unfold not_of. rewrite filter_and. apply filter_never. intros a. apply andb_negb_l. Qed.

(** Deleting a session leaves no row of it: no message, index entry, usage
    or plan review; every other session keeps all of its rows; and the native
    handle it was bound to is tombstoned and no longer mapped by the scanner,
    while the other handles' tombstones and mappings stay. *)
Theorem delete_session_spec (id : rstr) (db : Db) :
  let db' := delete_session id db in
  session_rows db' id = ([], [], [], [], []) /\
  (forall other, other <> id -> session_rows db' other = session_rows db other) /\
  (forall a n, agent_session db id = Some (a, n) -> is_tombstoned db' a n = true /\ scanned_row db' a n = None) /\
  (forall a n, agent_session db id <> Some (a, n) ->
     is_tombstoned db' a n = is_tombstoned db a n /\ scanned_row db' a n = scanned_row db a n).
Proof.
  destruct (delete_tables id db) as (Hm & Hf & Hu & Hp & Hs & Hh). cbv zeta. split; [|split].
  - unfold session_rows. by rewrite Hm, Hf, Hu, Hp, Hs, !not_of_self.
  - intros other Hne. unfold session_rows. by rewrite Hm, Hf, Hu, Hp, Hs, !not_of_filter by done.
  - destruct (agent_session db id) as [[a n]|]; [|split; [done|]; intros a n _; unfold is_tombstoned, scanned_row; by rewrite !(proj1 Hh), !(proj2 Hh)].
    destruct Hh as [Hsc Ht]. split.
    + intros a' n' [= <- <-]. split.
      * apply is_tombstoned_elem. rewrite Ht. destruct (is_tombstoned db a n) eqn:E; [by apply is_tombstoned_elem|].
        apply elem_of_app. right. by apply list_elem_of_singleton.
      * unfold scanned_row, find_first. rewrite Hsc, filter_and, filter_never; [done|].
        intros r. apply andb_negb_l.
    + intros a' n' Hne. split.
      * apply eq_true_iff_eq. rewrite !is_tombstoned_elem, Ht. destruct (is_tombstoned db a n); [done|].
        rewrite elem_of_app, list_elem_of_singleton. naive_solver.
      * unfold scanned_row, find_first. rewrite Hsc, filter_and. f_equal. apply filter_ext_elem. intros r _.
        destruct (same_handle a' n' (scanned_key r)) eqn:E; [|by rewrite andb_false_r].
        apply same_handle_eq in E. rewrite E, andb_true_r. apply negb_true_iff, not_true_iff_false.
        intros H%same_handle_eq. congruence.
Qed.

(** ** Retention *)

Lemma not_in_elem {A} (key : A -> rstr) ids l a : a ∈ not_in key ids l <-> a ∈ l /\ key a ∉ ids.
Proof.
  unfold not_in. rewrite elem_filter, negb_true_iff, existsb_elem_false. split; intros [Ha H]; (split; [done|]).
  - intros Hin. specialize (H _ Hin). by rewrite str_eqb_refl in H.
  - intros x Hx. apply str_eqb_neq. by intros <-.
Qed.

Lemma nodup_key_inj {A B} (key : A -> B) l a b : NoDup (map key l) -> a ∈ l -> b ∈ l -> key a = key b -> a = b.
Proof.
  induction l as [|x l IH]; [by intros _ ?%not_elem_of_nil|]. cbn [map].
  intros [Hx Hn]%NoDup_cons [->|Ha]%elem_of_cons [->|Hb]%elem_of_cons Hk; [done|..|by apply IH].
  - destruct Hx. rewrite Hk. by apply list_elem_of_fmap_2.
  - destruct Hx. rewrite <-Hk. by apply list_elem_of_fmap_2.
Qed.

(** The sweep deletes exactly the sessions idle before the cutoff that are
    not running a turn, pinned or archived, and reports their ids; messages,
    index entries and usage of the others all stay, and of the deleted ones
    none; plan reviews, scanner rows and tombstones are not touched. *)
Theorem cleanup_spec (ops : list db_op) (cutoff : rstr) (exclude : list rstr) :
  let db := run_ops ops in
  let '(db', ids) := cleanup_older_than cutoff exclude db in
  (forall r, r ∈ db_sessions db' <-> r ∈ db_sessions db /\ doomed cutoff exclude r = false) /\
  (forall id, id ∈ ids <-> exists r, r ∈ db_sessions db /\ s_id r = id /\ doomed cutoff exclude r = true) /\
  (forall m, m ∈ db_messages db' <-> m ∈ db_messages db /\ m_session m ∉ ids) /\
  (forall f, f ∈ db_fts db' <-> f ∈ db_fts db /\ f_session f ∉ ids) /\
  (forall u, u ∈ db_usage db' <-> u ∈ db_usage db /\ u_session u ∉ ids) /\
  db_plans db' = db_plans db /\ db_scanned db' = db_scanned db /\ db_tombstones db' = db_tombstones db.
Proof.
  cbv zeta. pose proof (run_ops_inv ops) as Hi. set (db := run_ops ops) in *. unfold cleanup_older_than.
  set (ids := map s_id _).
  assert (forall id, id ∈ ids <-> exists r, r ∈ db_sessions db /\ s_id r = id /\ doomed cutoff exclude r = true) as Hids.
  { intros id. subst ids. rewrite list_elem_of_fmap. setoid_rewrite elem_filter. naive_solver. }
  split; [|split; [done|]].
  - intros r. cbn -[not_in]. rewrite not_in_elem, Hids. split; intros [Hr Hd]; (split; [done|]).
    + destruct (doomed cutoff exclude r) eqn:E; [|done]. destruct Hd. by exists r.
    + intros (r' & Hr' & He & Hd'). rewrite (nodup_key_inj s_id (db_sessions db) r' r) in Hd' by (done || apply Hi). congruence.
  - cbn -[not_in]. do 3 (split; [intros; apply not_in_elem|]). done.
Qed.

(** ** Forks *)

(** The copies under their new ids. *)
Fixpoint fork_rows (new_id : rstr) (seq : Z) (ms : list MsgRow) : list MsgRow :=
  match ms with
  | [] => []
  | m :: r => {| m_id := seq + 1; m_session := new_id; m_role := m_role m; m_data := m_data m; m_ts := m_ts m |}
              :: fork_rows new_id (seq + 1) r
  end.

Fixpoint fork_usage (new_id : rstr) (seq : Z) (us : list UsageRow) : list UsageRow :=
  match us with
  | [] => []
  | u :: r => {| u_id := seq + 1; u_session := new_id; u_model := u_model u; u_used := u_used u; u_size := u_size u;
                 u_cost := u_cost u; u_cumulative := u_cumulative u; u_created := u_created u |}
              :: fork_usage new_id (seq + 1) r
  end.

Lemma insert_messages_fold new_id ms db :
  let db' := fold_left (copy_message new_id) ms db in
  db_messages db' = db_messages db ++ fork_rows new_id (db_msg_seq db) ms /\
  db_sessions db' = db_sessions db /\ db_usage db' = db_usage db /\ db_usage_seq db' = db_usage_seq db.
Proof.
  revert db; induction ms as [|m ms IH]; intros db; [cbn; by rewrite app_nil_r|].
  cbn [fold_left]. destruct (IH (copy_message new_id db m)) as (H1 & H2 & H3 & H4).
  cbv zeta in *. rewrite H1, H2, H3, H4. cbn. rewrite <-app_assoc. done.
Qed.

Lemma copy_usage_fold new_id us db :
  let db' := fold_left (copy_usage new_id) us db in
  db_usage db' = db_usage db ++ fork_usage new_id (db_usage_seq db) us /\
  db_sessions db' = db_sessions db /\ db_messages db' = db_messages db /\ db_fts db' = db_fts db.
Proof.
  revert db; induction us as [|u us IH]; intros db; [cbn; by rewrite app_nil_r|].
  cbn [fold_left]. destruct (IH (copy_usage new_id db u)) as (H1 & H2 & H3 & H4).
  cbv zeta in *. rewrite H1, H2, H3, H4. cbn. rewrite <-app_assoc. done.
Qed.

Lemma filter_all {A} (p : A -> bool) l : (forall a, a ∈ l -> p a = true) -> List.filter p l = l.
Proof. induction l as [|a l IH]; intros H; [done|]. cbn [List.filter]. rewrite H by (by left). f_equal. apply IH. intros b Hb. apply H. by right. Qed.

Lemma filter_none {A} (p : A -> bool) l : (forall a, a ∈ l -> p a = false) -> List.filter p l = [].
Proof. induction l as [|a l IH]; intros H; [done|]. cbn [List.filter]. rewrite H by (by left). apply IH. intros b Hb. apply H. by right. Qed.

Lemma fork_rows_session new_id seq ms m : m ∈ fork_rows new_id seq ms -> m_session m = new_id.
Proof. revert seq; induction ms as [|x ms IH]; intros seq; cbn; [by intros ?%not_elem_of_nil|]. intros [->|H]%elem_of_cons; [done|by eapply IH]. Qed.

Lemma fork_usage_session new_id seq us u : u ∈ fork_usage new_id seq us -> u_session u = new_id.
Proof. revert seq; induction us as [|x us IH]; intros seq; cbn; [by intros ?%not_elem_of_nil|]. intros [->|H]%elem_of_cons; [done|by eapply IH]. Qed.

(** What a copy keeps of a message and of a usage row. *)
Definition msg_content (m : MsgRow) : rstr * rstr * Z := (m_role m, m_data m, m_ts m).

Lemma fork_rows_content new_id seq ms : map msg_content (fork_rows new_id seq ms) = map msg_content ms.
Proof. revert seq; induction ms as [|m ms IH]; intros seq; [done|]. cbn. by rewrite IH. Qed.

Lemma fork_usage_last new_id seq us : u_cumulative <$> last (fork_usage new_id seq us) = u_cumulative <$> last us.
Proof.
  revert seq; induction us as [|u us IH]; intros seq; [done|]. cbn [fork_usage]. destruct us as [|v us]; [done|].
  specialize (IH (seq + 1)%Z). cbn [fork_usage] in *. by rewrite !last_cons_cons.
Qed.

Lemma fork_tables now new_id from upto db db' : db_inv db -> fork_session now new_id from upto db = Ok db' ->
  db_messages db' = db_messages db ++ fork_rows new_id (db_msg_seq db)
    (List.filter (fun m => str_eqb (m_session m) from && upto_ok upto m) (db_messages db)) /\
  db_usage db' = db_usage db ++ fork_usage new_id (db_usage_seq db)
    (List.filter (fun u => str_eqb (u_session u) from) (db_usage db)) /\
  exists r, session_row db from = Some r /\ db_sessions db' = db_sessions db ++ [forked_row now new_id r] /\
    has_session db new_id = false.
Proof.
  intros Hi. unfold fork_session. destruct (session_row db from) as [r|] eqn:Er; [|done].
  destruct (has_session db new_id) eqn:Eh; [done|]. intros [= <-].
  set (db1 := with_sessions _ db). pose proof (session_snoc_inv db (forked_row now new_id r) Hi Eh eq_refl) as Hi1.
  fold db1 in Hi1. rewrite (copied_messages_filter db1) by done.
  match goal with |- context [fold_left (copy_usage new_id) ?us ?d] =>
    destruct (copy_usage_fold new_id us d) as (Hu1 & Hu2 & Hu3 & _);
    destruct (insert_messages_fold new_id
      (List.filter (fun m => str_eqb (m_session m) from && upto_ok upto m) (db_messages db1)) db1) as (Hm1 & Hm2 & Hm3 & Hm4)
  end.
  cbv zeta in *. rewrite Hu1, Hu2, Hu3, Hm1, Hm2, Hm3, Hm4. split; [done|]. split; [done|]. by exists r.
Qed.

(** A fork holds the messages of its source up to the bound, with the same
    roles, texts and stamps in the same order, and the same usage baseline, so
    its next turn is charged the same; the source and every other session keep
    their messages; all of it is indexed; and the fork shares the source's
    native handle. *)
Theorem fork_session_spec (ops : list db_op) (now new_id from : rstr) (upto : option Z) (db' : Db) :
  let db := run_ops ops in
  (forall u, u ∈ db_usage db -> u_session u <> new_id) ->
  fork_session now new_id from upto db = Ok db' ->
  map msg_content (visible_messages db' new_id) = map msg_content (List.filter (upto_ok upto) (visible_messages db from)) /\
  (forall other, other <> new_id -> visible_messages db' other = visible_messages db other) /\
  (forall cost, usage_delta (match latest_usage db' new_id with Some u => u_cumulative u | None => None end) cost =
                usage_delta (match latest_usage db from with Some u => u_cumulative u | None => None end) cost) /\
  db_fts db' = index_of (db_messages db') /\
  agent_session db' new_id = agent_session db from.
Proof.
  cbv zeta. pose proof (run_ops_inv ops) as Hi. set (db := run_ops ops) in *. intros Hfu H.
  pose proof (fork_session_inv _ _ _ _ _ _ Hi H) as Hi'.
  destruct (fork_tables _ _ _ _ _ _ Hi H) as (Hm & Hu & r & Hr & Hs & Hn).
  assert (forall m, m ∈ db_messages db -> str_eqb (m_session m) new_id = false) as Hfresh.
  { intros m Hin. apply str_eqb_neq. intros He. apply (di_fk db Hi) in Hin. rewrite He in Hin.
    apply has_session_elem in Hin. congruence. }
  split; [|split; [|split; [|split]]].
  - rewrite !visible_messages_filter, filter_and by done. rewrite Hm, List.filter_app, (filter_none _ (db_messages db)) by done.
    rewrite filter_all by (intros m Hx%fork_rows_session; by apply str_eqb_eq). apply fork_rows_content.
  - intros other Hne. rewrite !visible_messages_filter by done. rewrite Hm, List.filter_app.
    rewrite (filter_none _ (fork_rows _ _ _)), app_nil_r; [done|].
    intros m Hx%fork_rows_session. apply str_eqb_neq. congruence.
  - intros cost. f_equal. rewrite !latest_usage_last by done. rewrite Hu, List.filter_app.
    rewrite (filter_none _ (db_usage db)) by (intros u Hx; apply str_eqb_neq; by apply Hfu). cbn [app].
    rewrite filter_all by (intros u Hx%fork_usage_session; by apply str_eqb_eq).
    pose proof (fork_usage_last new_id (db_usage_seq db) (List.filter (fun u => str_eqb (u_session u) from) (db_usage db))) as Hl.
    destruct (last (fork_usage _ _ _)), (last (List.filter _ _)); by simplify_eq/=.
  - apply Hi'.
  - assert (session_row db' new_id = Some (forked_row now new_id r)) as Hr'.
    { unfold session_row. rewrite Hs. unfold find_first. rewrite List.filter_app, filter_none by (by apply existsb_elem_false).
      cbn. by rewrite str_eqb_refl. }
    unfold agent_session. by rewrite Hr', Hr.
Qed.

(** ** Transcripts and pages *)

Lemma map_result_app {A B X} (f : A -> result B X) l k :
  map_result f (l ++ k) = let? a := map_result f l in let? b := map_result f k in Ok (a ++ b).
Proof.
  induction l as [|x l IH]; cbn [app map_result]; [by destruct (map_result f k)|].
  destruct (f x); [|done]. cbn. rewrite IH. destruct (map_result f l); [|done]. cbn. by destruct (map_result f k).
Qed.

Lemma visible_messages_touch now session db other :
  db_inv db -> visible_messages (touch now session db) other = visible_messages db other.
Proof. intros Hi. rewrite !visible_messages_filter; [done|done|]. by apply update_rows_inv. Qed.

(** An appended message is the last of its session's transcript, under a
    new highest id, reads back as the value appended, and is indexed with its
    text; no other session's transcript changes; and pages of any sizes add up
    to the transcript. *)
Theorem transcript_spec (ops : list db_op) (now : rstr) (ts : Z) (session role : rstr) (data : json) (db' : Db) (id : Z) :
  let db := run_ops ops in
  append now ts session role data db = Ok (db', id) ->
  from_str (to_string data) = Some data ->
  let n := length (visible_messages db session) in
  messages_paged db' session (n + 1) 0 =
    (let? old := messages_paged db session n 0 in
     Ok (old ++ [{| sm_id := id; sm_session := session; sm_role := role; sm_ts := ts; sm_data := data |}])) /\
  (forall m, m ∈ db_messages db -> (m_id m < id)%Z) /\
  db_fts db' = db_fts db ++ match fts_text role data with
                            | Some text => [{| f_content := text; f_session := session; f_message := id |}]
                            | None => []
                            end /\
  (forall other, other <> session -> visible_messages db' other = visible_messages db other) /\
  (forall other a b offset,
     messages_paged db other (a + b) offset =
       (let? x := messages_paged db other a offset in let? y := messages_paged db other b (offset + a) in Ok (x ++ y))).
Proof.
  cbv zeta. pose proof (run_ops_inv ops) as Hi. set (db := run_ops ops) in *. intros Ha Hj.
  pose proof (append_inv _ _ _ _ _ _ _ _ Hi Ha) as Hi'. unfold append in Ha.
  destruct (has_session db session) eqn:Eh; [|done]. cbn in Ha. injection Ha as <- <-.
  match goal with |- context [messages_paged ?d session _ 0] => set (db' := d) in * end.
  set (m := {| m_id := db_msg_seq db + 1; m_session := session; m_role := role; m_data := to_string data; m_ts := ts |}).
  assert (forall other, visible_messages db' other = visible_messages db other ++ if str_eqb session other then [m] else []) as Hv.
  { intros other. rewrite !visible_messages_filter by done. cbn [db' touch update_session with_sessions with_messages db_messages].
    rewrite List.filter_app. cbn [List.filter m_session]. done. }
  split; [|split; [|split; [|split]]].
  - unfold messages_paged. rewrite !drop_0, (Hv session), str_eqb_refl, firstn_all.
    rewrite take_ge by (rewrite length_app; simpl; lia). rewrite map_result_app.
    assert (load_message m = Ok {| sm_id := m_id m; sm_session := session; sm_role := role; sm_ts := ts; sm_data := data |})
      as Hl by (unfold load_message, m; cbn [m_data]; by rewrite Hj).
    cbn [map_result]. by rewrite Hl.
  - intros x Hx. apply (di_seq db Hi) in Hx. lia.
  - change (db_fts db') with (db_fts db ++ opt_list (fts_row m)). unfold fts_row, m. cbn [m_role m_data m_session m_id].
    rewrite Hj. cbn [default id]. by destruct (fts_text role data).
  - intros other Hne. rewrite Hv. assert (str_eqb session other = false) as -> by (by apply str_eqb_neq).
    apply app_nil_r.
  - intros other a b offset. unfold messages_paged. rewrite <-map_result_app. f_equal.
    rewrite <-drop_drop. symmetry. apply take_take_drop.
Qed.

(** ** Prompt history *)

Lemma prompt_is_eq cwd text r : prompt_is cwd text r = true <-> ph_cwd r = cwd /\ ph_text r = text.
Proof. unfold prompt_is. by rewrite andb_true_iff, !str_eqb_eq. Qed.

Definition prompt_key (r : PromptRow) : rstr * rstr := (ph_cwd r, ph_text r).

Definition record_prompts (calls : list (Z * rstr * rstr)) : list PromptRow :=
  fold_left (fun rows c => record_prompt c.1.1 c.1.2 c.2 rows) calls [].

Lemma upsert_prompt_spec now cwd text rows : NoDup (map prompt_key rows) ->
  NoDup (map prompt_key (upsert_prompt now cwd text rows)) /\
  (exists c, {| ph_cwd := cwd; ph_text := text; ph_count := c; ph_updated := now |} ∈ upsert_prompt now cwd text rows) /\
  (forall r, r ∈ upsert_prompt now cwd text rows -> prompt_is cwd text r = false -> r ∈ rows) /\
  (forall r, r ∈ upsert_prompt now cwd text rows -> prompt_is cwd text r = true -> ph_updated r = now) /\
  (forall c, c <> cwd -> List.filter (fun r => str_eqb (ph_cwd r) c) (upsert_prompt now cwd text rows) =
                         List.filter (fun r => str_eqb (ph_cwd r) c) rows).
Proof.
  intros Hn. unfold upsert_prompt. destruct (existsb (prompt_is cwd text) rows) eqn:E.
  - apply existsb_elem in E as (x & Hx & Hp). pose proof Hp as [Hc Ht]%prompt_is_eq.
    split; [by rewrite update_where_keys|]. split; [|split; [|split]].
    + exists (ph_count x + 1)%Z. apply update_where_elem. exists x. by rewrite Hp, Hc, Ht.
    + intros r (r0 & Hr & ->)%update_where_elem. destruct (prompt_is cwd text r0) eqn:E0; [|done].
      intros Hf. unfold prompt_is in E0, Hf. cbn in Hf. congruence.
    + intros r (r0 & Hr & ->)%update_where_elem. destruct (prompt_is cwd text r0) eqn:E0; [done|congruence].
    + intros c Hne. assert (str_eqb cwd c = false) as Hcwd by (apply str_eqb_neq; congruence). clear - Hcwd.
      induction rows as [|r rows IH]; [done|]. cbn [update_where map List.filter].
      fold (update_where (prompt_is cwd text)
        (fun r => {| ph_cwd := ph_cwd r; ph_text := ph_text r; ph_count := ph_count r + 1; ph_updated := now |}) rows).
      rewrite IH. destruct (prompt_is cwd text r) eqn:E0; [|done]. cbn [ph_cwd]. apply prompt_is_eq in E0 as [-> _].
      by rewrite Hcwd.
  - split; [|split; [|split; [|split]]].
    + rewrite map_app. apply NoDup_app. split; [done|]. split; [|apply NoDup_singleton].
      intros k Hk ->%list_elem_of_singleton. apply list_elem_of_fmap in Hk as (r & Hk & Hr).
      rewrite existsb_elem_false in E. specialize (E r Hr). apply not_true_iff_false in E. apply E, prompt_is_eq.
      unfold prompt_key in Hk. by injection Hk.
    + exists 1%Z. apply elem_of_app. right. by apply list_elem_of_singleton.
    + intros r [Hr|Hr]%elem_of_app Hf; [done|]. apply list_elem_of_singleton in Hr as ->.
      apply not_true_iff_false in Hf. destruct Hf. by apply prompt_is_eq.
    + intros r [Hr|Hr]%elem_of_app Hf; [|by apply list_elem_of_singleton in Hr as ->].
      rewrite existsb_elem_false in E. rewrite E in Hf by done. done.
    + intros c Hne. rewrite List.filter_app. cbn [List.filter ph_cwd].
      assert (str_eqb cwd c = false) as -> by (apply str_eqb_neq; congruence). apply app_nil_r.
Qed.

Lemma newest_prompt_head x l :
  x ∈ l -> (forall r, r ∈ l -> r = x \/ (ph_updated r < ph_updated x)%Z) -> head (sort_by newest_prompt l) = Some x.
Proof.
  intros Hx Hl.
  pose proof (sort_by_sorted newest_prompt ltac:(intros; unfold newest_prompt; repeat case_match; lia)
    ltac:(intros; unfold newest_prompt in *; repeat case_match; lia) l) as Hs.
  apply (sort_by_elem newest_prompt) in Hx as Hx'.
  destruct (sort_by newest_prompt l) as [|y k] eqn:E; [by apply not_elem_of_nil in Hx'|]. cbn. f_equal.
  destruct (Hl y) as [|Hlt]; [apply (sort_by_elem newest_prompt); rewrite E; by left|done|].
  apply elem_of_cons in Hx' as [->|Hk]; [done|]. apply StronglySorted_inv in Hs as [_ Hs].
  rewrite Forall_forall in Hs. specialize (Hs x Hk). unfold newest_prompt in Hs.
  assert ((ph_updated y =? ph_updated x)%Z = false) as H0 by lia. rewrite H0 in Hs. lia.
Qed.

Lemma prompt_texts_nodup cwd rows : NoDup (map prompt_key rows) ->
  NoDup (map ph_text (List.filter (fun r => str_eqb (ph_cwd r) cwd) rows)).
Proof.
  induction rows as [|r rows IH]; intros Hn; [by apply NoDup_nil_2|]. cbn [map List.filter] in *.
  apply NoDup_cons in Hn as [Hni Hn]. destruct (str_eqb (ph_cwd r) cwd) eqn:E; [|by apply IH].
  apply str_eqb_eq in E. cbn [map]. apply NoDup_cons. split; [|by apply IH].
  intros (x & Ht & [Hx Hc%str_eqb_eq]%elem_filter)%list_elem_of_fmap. apply Hni. apply list_elem_of_fmap.
  exists x. split; [|done]. unfold prompt_key. congruence.
Qed.

Lemma record_prompt_bound now cwd text rows : NoDup (map prompt_key rows) ->
  let rows' := record_prompt now cwd text rows in
  NoDup (map prompt_key rows') /\ length (prompts_of rows' cwd) <= PROMPT_HISTORY_CAP /\
  (forall c, c <> cwd -> prompts_of rows' c = prompts_of rows c).
Proof.
  intros Hn. destruct (upsert_prompt_spec now cwd text rows Hn) as (Hn1 & _ & _ & _ & Hoth).
  unfold record_prompt. set (rows1 := upsert_prompt now cwd text rows) in *. set (kept := take _ _). cbv zeta.
  split; [by apply nodup_map_filter|]. split.
  - unfold prompts_of. rewrite (Permutation_length (sort_by_perm newest_prompt _)), filter_and.
    apply (prompt_texts_nodup cwd) in Hn1.
    rewrite <-(length_map ph_text). transitivity (length (map ph_text kept)); [|rewrite length_map; subst kept; rewrite length_take; lia].
    apply NoDup_incl_length.
    + apply NoDup_ListNoDup.
      rewrite (filter_ext_elem _ (fun r => str_eqb (ph_cwd r) cwd && existsb (prompt_is cwd (ph_text r)) kept)).
      * rewrite <-filter_and. by apply nodup_map_filter.
      * intros r _. destruct (str_eqb (ph_cwd r) cwd); [|by rewrite andb_false_r]. cbn [andb].
        by rewrite negb_involutive, andb_true_r.
    + intros t Ht. apply list_elem_of_In in Ht. apply list_elem_of_fmap in Ht as (r & -> & [_ Hr]%elem_filter).
      apply andb_true_iff in Hr as [Hr Hc]. rewrite Hc in Hr. cbn in Hr. rewrite negb_involutive in Hr.
      apply existsb_elem in Hr as (k & Hk & [_ He]%prompt_is_eq). apply list_elem_of_In. rewrite <-He. by apply list_elem_of_fmap_2.
  - intros c Hne. unfold prompts_of. f_equal. rewrite filter_and, <-Hoth by done. apply filter_ext_elem. intros r _.
    destruct (str_eqb (ph_cwd r) c) eqn:E; [|by rewrite andb_false_r]. apply str_eqb_eq in E.
    assert (str_eqb (ph_cwd r) cwd = false) as -> by (apply str_eqb_neq; congruence). done.
Qed.

(** The history of a directory never holds more than 200 prompts, one row
    for each text; the prompt recorded last, when its stamp is the latest, is
    the first of its directory's history; and other directories' histories stay
    as they are. *)
Theorem prompt_history_spec (calls : list (Z * rstr * rstr)) (now : Z) (cwd text : rstr) :
  let rows := record_prompts calls in
  let rows' := record_prompt now cwd text rows in
  NoDup (map prompt_key rows) /\
  (forall c, length (prompts_of rows c) <= PROMPT_HISTORY_CAP) /\
  (forall c, c <> cwd -> prompts_of rows' c = prompts_of rows c) /\
  ((forall r, r ∈ rows -> (ph_updated r < now)%Z) -> exists n, head (recent_prompts rows' cwd 1) = Some (text, n)).
Proof.
  cbv zeta. set (rows := record_prompts calls).
  assert (NoDup (map prompt_key rows) /\ forall c, length (prompts_of rows c) <= PROMPT_HISTORY_CAP) as [Hn Hb].
  { subst rows. unfold record_prompts. induction calls as [|c calls IH] using rev_ind.
    - split; [by apply NoDup_nil_2|]. intros c. cbn. lia.
    - rewrite fold_left_app. cbn [fold_left]. set (rows := fold_left _ calls []) in *. destruct IH as [Hn Hb].
      destruct (record_prompt_bound c.1.1 c.1.2 c.2 rows Hn) as (Hn' & Hb' & Ho). split; [done|].
      intros d. destruct (decide (d = c.1.2)) as [->|Hne]; [done|]. rewrite Ho by done. apply Hb. }
  split; [done|]. split; [done|]. destruct (record_prompt_bound now cwd text rows Hn) as (_ & _ & Ho). split; [done|].
  intros Hlt. destruct (upsert_prompt_spec now cwd text rows Hn) as (Hn1 & [n Hin] & Hold & Hnew & _).
  exists n. set (x := {| ph_cwd := cwd; ph_text := text; ph_count := n; ph_updated := now |}) in *.
  set (rows1 := upsert_prompt now cwd text rows) in *.
  assert (forall r, r ∈ rows1 -> r = x \/ (ph_updated r < now)%Z) as Hall.
  { intros r Hr. destruct (prompt_is cwd text r) eqn:E; [left|right; by apply Hlt, Hold].
    apply (nodup_key_inj prompt_key rows1); [done|done|done|]. apply prompt_is_eq in E as [E1 E2].
    unfold prompt_key. by rewrite E1, E2. }
  assert (head (prompts_of rows1 cwd) = Some x) as Hh.
  { apply newest_prompt_head; [apply elem_filter; split; [done|apply str_eqb_refl]|].
    intros r [Hr _]%elem_filter. by apply Hall. }
  assert (head (prompts_of (record_prompt now cwd text rows) cwd) = Some x) as Hh'.
  { apply newest_prompt_head.
    - apply elem_filter. split; [|apply str_eqb_refl]. unfold record_prompt. fold rows1. apply elem_filter.
      split; [done|]. cbn [ph_cwd x]. rewrite str_eqb_refl. cbn [andb]. rewrite negb_involutive. apply existsb_elem. exists x.
      split; [|by apply prompt_is_eq]. destruct (prompts_of rows1 cwd) as [|y l]; [done|]. assert (y = x) as -> by (cbn in Hh; congruence).
      unfold PROMPT_HISTORY_CAP. by left.
    - intros r [[Hr _]%elem_filter _]%elem_filter. by apply Hall. }
  unfold recent_prompts. destruct (prompts_of (record_prompt now cwd text rows) cwd) as [|y l]; [done|].
  assert (y = x) as -> by (cbn in Hh'; congruence). done.
Qed.
End Exec.

(** ** What the calls do not guarantee *)

(** Messages of the form of a text content. *)
Definition demo_message_text : JsonText := {|
  to_string v := match v with JObj [(_, JStr s)] => s | _ => str "[]" end; to_string_pretty v := str "{}";
  from_str s := Some (JObj [(str "content", JStr s)]) |}.

Definition demo_content (s : string) : json := JObj [(str "content", JStr (str s))].

Definition demo_one : f64 := binary_normalize 53%Z 1024%Z 1 0 false.

(** Two sessions, the first in a project; both used one model, the second
    last: the project's summary has no row for the model it used. *)
Theorem usage_summary_loses_model (sum : list f64 -> f64) :
  let db := @run_ops demo_message_text
    [CreateSession (str "t") (str "a") (str "/") None; CreateSession (str "t") (str "b") (str "/") None;
     SetProject (str "a") (Some (str "p")); RecordUsage (str "t") (str "a") (str "m") 10 100 demo_one;
     RecordUsage (str "t") (str "b") (str "m") 20 100 demo_one] in
  usage_summary sum db (Some (str "p")) = [] /\
  exists u, u ∈ db_usage db /\ u_session u = str "a" /\ usage_in db (Some (str "p")) u = true.
Proof. split; [vm_compute; reflexivity|]. eexists. split; [by left|]. split; vm_compute; reflexivity. Qed.

(** A turn that ends after its session was deleted still records its usage. *)
Theorem usage_after_delete_is_orphaned :
  let db := @run_ops demo_message_text
    [CreateSession (str "t") (str "a") (str "/") None; DeleteSession (str "a");
     RecordUsage (str "t") (str "a") (str "m") 10 100 demo_one] in
  has_session db (str "a") = false /\ map u_session (db_usage db) = [str "a"].
Proof. vm_compute. done. Qed.

(** ** Witnesses *)

Definition demo_ops : list db_op :=
  [CreateSession (str "t") (str "a") (str "/") (Some (str "mock")); SetAgentSession (str "a") (str "mock") (str "n1");
   Append (str "t") 1 (str "a") (str "user") (demo_content "hello"); Append (str "t") 2 (str "a") (str "assistant") (demo_content "bye");
   RecordUsage (str "t") (str "a") (str "m") 10 100 demo_one].

Lemma fork_session_spec_witness :
  exists db', @fork_session demo_message_text (str "t2") (str "b") (str "a") (Some 1%Z) (@run_ops demo_message_text demo_ops) = Ok db' /\
    map msg_content (visible_messages db' (str "b")) =
      map msg_content (List.filter (upto_ok (Some 1%Z)) (visible_messages (@run_ops demo_message_text demo_ops) (str "a"))).
Proof.
  destruct (@fork_session demo_message_text (str "t2") (str "b") (str "a") (Some 1%Z) (@run_ops demo_message_text demo_ops))
    as [db'|] eqn:E; [|vm_compute in E; discriminate E].
  exists db'. split; [done|].
  apply (@fork_session_spec demo_message_text demo_ops (str "t2") (str "b") (str "a") (Some 1%Z) db'); [|exact E].
  intros u Hu. vm_compute in Hu. apply list_elem_of_singleton in Hu as ->. done.
Defined.

Lemma transcript_spec_witness :
  exists db' id, @append demo_message_text (str "t2") 3 (str "a") (str "user") (demo_content "again")
      (@run_ops demo_message_text demo_ops) = Ok (db', id) /\
    forall m, m ∈ db_messages (@run_ops demo_message_text demo_ops) -> (m_id m < id)%Z.
Proof.
  destruct (@append demo_message_text (str "t2") 3 (str "a") (str "user") (demo_content "again")
    (@run_ops demo_message_text demo_ops)) as [[db' id]|] eqn:E; [|vm_compute in E; discriminate E].
  exists db', id. split; [done|].
  apply (proj1 (proj2 (@transcript_spec demo_message_text demo_ops _ _ _ _ _ db' id E
    ltac:(vm_compute; reflexivity)))).
Defined.

Lemma prompt_history_spec_witness :
  exists n, head (recent_prompts (record_prompt 2 (str "/w") (str "go") (record_prompts [((1%Z, str "/w"), str "stop")])) (str "/w") 1)
            = Some (str "go", n).
Proof.
  apply (proj2 (proj2 (proj2 (prompt_history_spec [((1%Z, str "/w"), str "stop")] 2 (str "/w") (str "go"))))).
  intros r Hr. vm_compute in Hr. apply list_elem_of_singleton in Hr as ->. vm_compute. reflexivity.
Defined.
