(* ===== verification/Search.v ===== *)
(** * Search: full-text search of the transcripts ([search_filtered] of [store.rs])

    The statement [search_filtered] builds, over the index and the sessions of
    [SessionStore]: what FTS5 matches, in its rank order, and its snippets are
    SQLite's; the joins, the substring conditions and the filters are the
    statement's own. *)

From S2P Require Import Prelude Str Json Rows PlanStore Jail Fts SessionStore SessionFacts.

Record SearchFilter := {
  se_session : option rstr; se_backend : option rstr; se_cwd : option rstr; se_project : option rstr;
  se_since : option Z; se_until : option Z
}.

Section Search.
Context `{JT : JsonText}.
(** The rows a MATCH expression selects, by rank; an excerpt of a row. *)
Variable fts5_match : rstr -> list FtsRow -> list FtsRow.
Variable fts5_snippet : rstr -> FtsRow -> rstr.
(** Seconds since the epoch of a stored time; [None] is SQL's NULL. *)
Variable epoch : rstr -> option Z.

(** The message's stamp, or the session's creation for an unknown one; a
    message that is gone counts as unknown. *)
Definition effective_ts (r : SessionRow) (m : option MsgRow) : option Z :=
  let ts := match m with Some m => m_ts m | None => 0%Z end in
  if (ts =? 0)%Z then (fun s => (s * 1000)%Z) <$> epoch (s_created r) else Some ts.

(** A comparison with NULL does not hold. *)
Definition bound_test (p : Z -> Z -> bool) (bound ts : option Z) : bool :=
  match bound with
  | None => true
  | Some b => match ts with Some t => p t b | None => false end
  end.

Definition like (content t : rstr) : bool := match find_nocase t content with Some _ => true | None => false end.

Definition search_cond (db : Db) (q : FtsQuery) (filter : SearchFilter) (f : FtsRow) : bool :=
  match session_row db (f_session f) with
  | None => false
  | Some r =>
      let ts := effective_ts r (find_first (fun m => (m_id m =? f_message f)%Z) (db_messages db)) in
      forallb (like (f_content f)) (like_terms q)
      && forallb (fun t => negb (like (f_content f) t)) (like_not_terms q)
      && opt_test (se_session filter) (str_eqb (f_session f))
      && opt_test (se_backend filter) (str_eqb (coalesce_str (s_agent r)))
      && opt_test (se_cwd filter) (str_eqb (s_cwd r))
      && opt_test (se_project filter) (fun p => in_project p r)
      && bound_test Z.geb (se_since filter) ts && bound_test Z.leb (se_until filter) ts
  end.

Definition search_filtered (db : Db) (query : rstr) (limit : nat) (filter : SearchFilter) : list (rstr * Z * rstr) :=
  if is_empty (trim query) then []
  else match fts5_query query with
  | None => []
  | Some q =>
      let fts := negb (is_empty (match_expr q)) in
      let rows := if fts then fts5_match (match_expr q) (db_fts db)
                  else sort_by (fun a b => (f_message b <=? f_message a)%Z) (db_fts db) in
      map (fun f => (f_session f, f_message f,
                     if fts then fts5_snippet (match_expr q) f else like_snippet (f_content f) (like_terms q)))
        (take limit (List.filter (search_cond db q filter) rows))
  end.

Lemma index_of_elem ms f : f ∈ index_of ms <-> exists m, m ∈ ms /\ fts_row m = Some f.
Proof.
  unfold index_of. rewrite list_elem_of_In, in_flat_map. setoid_rewrite <-list_elem_of_In.
  split; intros (m & Hm & H); exists m; (split; [done|]).
  - destruct (fts_row m); [|by apply not_elem_of_nil in H]. by apply list_elem_of_singleton in H as ->.
  - rewrite H. by left.
Qed.

Lemma fts_row_shape m f : fts_row m = Some f -> f_session f = m_session m /\ f_message f = m_id m.
Proof. unfold fts_row. destruct (fts_text _ _); [|done]. by intros [= <-]. Qed.

Lemma sorted_nodup (l : list Z) : StronglySorted Z.lt l -> NoDup l.
Proof.
  induction l as [|z l IH]; [by intros; apply NoDup_nil_2|]. intros [H1 H2]%StronglySorted_inv.
  apply NoDup_cons. split; [|by apply IH]. intros Hz. rewrite Forall_forall in H2. specialize (H2 z Hz). lia.
Qed.

Lemma sorted_hits (p : FtsRow -> bool) (g : FtsRow -> rstr) l :
  StronglySorted (fun a b => (f_message b <=? f_message a)%Z = true) l ->
  StronglySorted (fun a b : rstr * Z * rstr => (a.1.2 >= b.1.2)%Z)
    (map (fun f => (f_session f, f_message f, g f)) (List.filter p l)).
Proof.
  induction l as [|f l IH]; [by constructor|]. intros [H1 H2]%StronglySorted_inv. cbn [List.filter].
  destruct (p f); [|by apply IH]. cbn [map]. constructor; [by apply IH|].
  rewrite Forall_forall in H2. apply Forall_forall. intros x (y & -> & [Hy _]%elem_filter)%list_elem_of_fmap. specialize (H2 y Hy). cbn. lia.
Qed.

(** Every hit is a message of a session that still exists, inside every
    filter, with its text holding each short term and no excluded one, and its
    stamp within the bounds; and a query of short terms alone, given room, finds
    every such message, the newest first. *)
Theorem search_spec (ops : list db_op) (query : rstr) (limit : nat) (filter : SearchFilter) (q : FtsQuery) :
  (forall e l f, f ∈ fts5_match e l -> f ∈ l) ->
  is_empty (trim query) = false -> fts5_query query = Some q ->
  let db := run_ops ops in
  let hits := search_filtered db query limit filter in
  (forall s i x, (s, i, x) ∈ hits ->
     exists m r f, m ∈ db_messages db /\ m_id m = i /\ m_session m = s /\ r ∈ db_sessions db /\ s_id r = s /\
       fts_row m = Some f /\
       (forall t, t ∈ like_terms q -> like (f_content f) t = true) /\
       (forall t, t ∈ like_not_terms q -> like (f_content f) t = false) /\
       opt_test (se_session filter) (str_eqb s) = true /\
       opt_test (se_backend filter) (str_eqb (coalesce_str (s_agent r))) = true /\
       opt_test (se_cwd filter) (str_eqb (s_cwd r)) = true /\
       opt_test (se_project filter) (fun p => in_project p r) = true /\
       bound_test Z.geb (se_since filter) (effective_ts r (Some m)) = true /\
       bound_test Z.leb (se_until filter) (effective_ts r (Some m)) = true) /\
  (match_expr q = [] -> length (db_fts db) <= limit ->
     (forall m f, m ∈ db_messages db -> fts_row m = Some f -> search_cond db q filter f = true ->
        (m_session m, m_id m, like_snippet (f_content f) (like_terms q)) ∈ hits) /\
     StronglySorted (fun a b => (a.1.2 >= b.1.2)%Z) hits).
Proof.
  intros Hmatch Hq Hfq. cbv zeta. pose proof (run_ops_inv ops) as Hi. set (db := run_ops ops) in *.
  unfold search_filtered. rewrite Hq, Hfq. set (rows := if negb (is_empty (match_expr q)) then _ else _).
  assert (forall f, f ∈ rows -> f ∈ db_fts db) as Hrows.
  { intros f. subst rows. destruct (negb _); [apply Hmatch|]. by rewrite sort_by_elem. }
  split.
  - intros s i x (f & Heq & Hf)%list_elem_of_fmap. injection Heq as -> -> ->.
    apply subseteq_take, elem_filter in Hf as [Hf Hc].
    apply Hrows in Hf. rewrite (di_fts db Hi) in Hf. apply index_of_elem in Hf as (m & Hm & Hfm).
    destruct (fts_row_shape m f Hfm) as [Hs Hid]. unfold search_cond in Hc.
    destruct (session_row db (f_session f)) as [r|] eqn:Er; [|done]. apply session_row_elem in Er as [Hr Hrs].
    assert (find_first (fun x => (m_id x =? f_message f)%Z) (db_messages db) = Some m) as Hfind.
    { destruct (find_first _ _) as [m'|] eqn:Ef.
      - apply find_first_Some in Ef as [Hm' He]. f_equal. apply (nodup_key_inj m_id (db_messages db)); try done; [|lia].
        apply sorted_nodup, Hi.
      - pose proof (find_first_None _ _ Ef m Hm) as He. cbn in He. lia. }
    rewrite Hfind in Hc. bools. exists m, r, f. rewrite Hid, Hs in *. repeat (split; [done|]).
    split; [by apply forallb_elem|]. split; [|done]. intros t Ht. apply negb_true_iff.
    by match goal with H : forallb _ (like_not_terms q) = true |- _ => rewrite forallb_elem in H; apply H end.
  - intros H0 Hlim. rewrite H0. cbn [is_empty negb]. assert (rows = sort_by (fun a b => (f_message b <=? f_message a)%Z) (db_fts db)) as Hr
      by (subst rows; by rewrite H0).
    rewrite take_ge by (rewrite Hr; etransitivity; [apply filter_length_le|];
      by rewrite (Permutation_length (sort_by_perm (fun a b => (f_message b <=? f_message a)%Z) _))).
    split.
    + intros m f Hm Hf Hc. destruct (fts_row_shape m f Hf) as [<- <-]. apply list_elem_of_fmap. exists f. split; [done|].
      apply elem_filter. split; [|done]. rewrite Hr. apply sort_by_elem. rewrite (di_fts db Hi). apply index_of_elem. by exists m.
    + rewrite Hr. apply sorted_hits. apply sort_by_sorted; intros; lia.
Qed.
End Search.

(** An index that matches everything. *)
Lemma search_spec_witness :
  let hits := @search_filtered (fun _ l => l) (fun _ _ => []) (fun _ => None) (@run_ops demo_message_text demo_ops)
                (str "lo") 5 {| se_session := None; se_backend := Some (str "mock"); se_cwd := None; se_project := None;
                                se_since := Some 1%Z; se_until := None |} in
  map fst hits = [(str "a", 1%Z)] /\
  StronglySorted (fun a b => (a.1.2 >= b.1.2)%Z) hits.
Proof.
  cbv zeta. split; [vm_compute; reflexivity|].
  refine (proj2 (proj2 (@search_spec demo_message_text (fun _ l => l) (fun _ _ => []) (fun _ => None) demo_ops (str "lo") 5 _
    {| match_expr := []; like_terms := [str "lo"]; like_not_terms := [] |} _ _ _) _ _)).
  - done.
  - vm_compute. reflexivity.
  - vm_compute. reflexivity.
  - reflexivity.
  - apply (bool_decide_unpack _). vm_compute. exact I.
Defined.
