(* ===== verification/HistoryScan.v ===== *)
(** * HistoryScan: importing native sessions ([history_scan.rs], [session.rescan] of [rpc.rs])

    One sweep over what the backends discover, on the database of
    [SessionStore]: new and changed entries become bookmark rows, unchanged ones
    are skipped, tombstoned ones never imported, vanished ones archived.  An
    entry's check and its import are separate, as other calls run in between. *)

From S2P Require Import Prelude Str Json Rows PlanStore Jail Fts SessionStore SessionFacts.

(** ** Data *)

(** [modified_at] in seconds and [size] are [u64]. *)
Record ImportableSession := {
  im_provider : rstr; im_native : rstr; im_title : option rstr; im_cwd : option rstr;
  im_modified : option Z; im_size : option Z
}.

Definition im_key (e : ImportableSession) : rstr * rstr := (im_provider e, im_native e).

Record ScanReport := {
  sr_scanned : nat; sr_reparsed : nat; sr_reused : nat; sr_archived : nat; sr_tombstoned : nat;
  sr_skipped : list rstr
}.

Definition empty_report : ScanReport :=
  {| sr_scanned := 0; sr_reparsed := 0; sr_reused := 0; sr_archived := 0; sr_tombstoned := 0; sr_skipped := [] |}.

(** [sn_minted] counts the UUIDs drawn. *)
Record scan_state := { sn_db : Db; sn_report : ScanReport; sn_seen : list (rstr * rstr); sn_minted : nat }.

Section Scan.
Context `{JT : JsonText}.
(** The time, and the fresh ids in the order they are drawn. *)
Variables (now : rstr) (uuid : nat -> rstr).

(** ** One entry *)

Inductive verdict := VTombstoned | VReused | VImport.

Definition signature_of (e : ImportableSession) : option Z * option Z := (as_i64 <$> im_size e, as_i64 <$> im_modified e).

(** The checks before an import. *)
Definition check_entry (db : Db) (e : ImportableSession) : verdict :=
  if is_tombstoned db (im_provider e) (im_native e) then VTombstoned
  else match scanned_signature db (im_provider e) (im_native e) with
       | Some sig => if bool_decide (sig = signature_of e) then VReused else VImport
       | None => VImport
       end.

(** The import: a row, its binding, its title, the scanner's record; [None]
    when the row is refused, [Some false] when it was rolled back. *)
Definition import_entry (id : rstr) (db : Db) (e : ImportableSession) : Db * option bool :=
  match create_session now id (default [] (im_cwd e)) (Some (im_provider e)) db with
  | Err _ => (db, None)
  | Ok db1 =>
      let db2 := set_agent_session id (im_provider e) (im_native e) db1 in
      let db3 := match im_title e with Some t => set_title_if_empty id t db2 | None => db2 end in
      let '(db4, recorded) :=
        record_scanned now (im_provider e) (im_native e) (im_size e) (as_i64 <$> im_modified e) id db3 in
      if recorded then (db4, Some true) else (delete_session id db4, Some false)
  end.

Definition tally (f : ScanReport -> ScanReport) (s : scan_state) : scan_state :=
  {| sn_db := sn_db s; sn_report := f (sn_report s); sn_seen := sn_seen s; sn_minted := sn_minted s |}.

Definition add_scanned (n : nat) (r : ScanReport) : ScanReport :=
  {| sr_scanned := sr_scanned r + n; sr_reparsed := sr_reparsed r; sr_reused := sr_reused r;
     sr_archived := sr_archived r; sr_tombstoned := sr_tombstoned r; sr_skipped := sr_skipped r |}.
Definition add_reparsed (r : ScanReport) : ScanReport :=
  {| sr_scanned := sr_scanned r; sr_reparsed := S (sr_reparsed r); sr_reused := sr_reused r;
     sr_archived := sr_archived r; sr_tombstoned := sr_tombstoned r; sr_skipped := sr_skipped r |}.
Definition add_reused (r : ScanReport) : ScanReport :=
  {| sr_scanned := sr_scanned r; sr_reparsed := sr_reparsed r; sr_reused := S (sr_reused r);
     sr_archived := sr_archived r; sr_tombstoned := sr_tombstoned r; sr_skipped := sr_skipped r |}.
Definition add_archived (r : ScanReport) : ScanReport :=
  {| sr_scanned := sr_scanned r; sr_reparsed := sr_reparsed r; sr_reused := sr_reused r;
     sr_archived := S (sr_archived r); sr_tombstoned := sr_tombstoned r; sr_skipped := sr_skipped r |}.
Definition add_tombstoned (r : ScanReport) : ScanReport :=
  {| sr_scanned := sr_scanned r; sr_reparsed := sr_reparsed r; sr_reused := sr_reused r;
     sr_archived := sr_archived r; sr_tombstoned := S (sr_tombstoned r); sr_skipped := sr_skipped r |}.
Definition add_skipped (b : rstr) (r : ScanReport) : ScanReport :=
  {| sr_scanned := sr_scanned r; sr_reparsed := sr_reparsed r; sr_reused := sr_reused r;
     sr_archived := sr_archived r; sr_tombstoned := sr_tombstoned r; sr_skipped := sr_skipped r ++ [b] |}.

Definition is_seen (seen : list (rstr * rstr)) (k : rstr * rstr) : bool := existsb (fun t => same_handle k.1 k.2 t) seen.

Definition scan_entry (s : scan_state) (e : ImportableSession) : scan_state :=
  if is_seen (sn_seen s) (im_key e) then s
  else
    let s := {| sn_db := sn_db s; sn_report := sn_report s; sn_seen := im_key e :: sn_seen s; sn_minted := sn_minted s |} in
    match check_entry (sn_db s) e with
    | VTombstoned => tally add_tombstoned s
    | VReused => tally add_reused s
    | VImport =>
        let '(db', outcome) := import_entry (uuid (sn_minted s)) (sn_db s) e in
        let s' := {| sn_db := db'; sn_report := sn_report s; sn_seen := sn_seen s; sn_minted := S (sn_minted s) |} in
        match outcome with
        | None => s'
        | Some true => tally add_reparsed s'
        | Some false => tally add_tombstoned s'
        end
    end.

(** ** The sweep *)

(** A backend and what it discovered; [None] when its discovery failed. *)
Definition scan_backend (s : scan_state) (b : rstr * option (list ImportableSession)) : scan_state :=
  match b.2 with
  | None => tally (add_skipped b.1) s
  | Some found => fold_left scan_entry found (tally (add_scanned (length found)) s)
  end.

Definition vanish (s : scan_state) (m : rstr * rstr * rstr) : scan_state :=
  let '(backend, native, session) := m in
  if is_seen (sn_seen s) (backend, native) then s
  else if is_tombstoned (sn_db s) backend native then
    {| sn_db := drop_scanned backend native (sn_db s); sn_report := sn_report s; sn_seen := sn_seen s; sn_minted := sn_minted s |}
  else
    let '(db', changed) := set_archived session true (sn_db s) in
    let s' := {| sn_db := db'; sn_report := sn_report s; sn_seen := sn_seen s; sn_minted := sn_minted s |} in
    if changed then tally add_archived s' else s'.

Definition discover (ds : list (rstr * option (list ImportableSession))) (db : Db) : scan_state :=
  fold_left scan_backend ds {| sn_db := db; sn_report := empty_report; sn_seen := []; sn_minted := 0 |}.

Definition scan_history (ds : list (rstr * option (list ImportableSession))) (db : Db) : Db * ScanReport :=
  let s := discover ds db in
  let s' := fold_left vanish (scanned_all (sn_db s)) s in
  (sn_db s', sn_report s').
End Scan.

(** ** One sweep at a time *)

(** The slot of the sweep in flight.  [session.rescan] answers with the holder
    when the slot is taken; the sweep at boot takes it when it is free and runs
    in either case; the scheduled sweep waits for its next turn. *)
Definition claim_rescan (slot : option rstr) (id : rstr) : option rstr * bool :=
  match slot with Some s => (Some s, false) | None => (Some id, true) end.
Definition claim_boot (slot : option rstr) (id : rstr) : option rstr * bool :=
  match slot with Some s => (Some s, true) | None => (Some id, true) end.
Definition claim_interval (slot : option rstr) (id : rstr) : option rstr * bool :=
  match slot with Some s => (Some s, false) | None => (Some id, true) end.
Definition release_scan (slot : option rstr) : option rstr := None.

(** ** One import *)

Section Facts.
Context `{JT : JsonText}.

(** What a sweep asks of a handle: its tombstone and its mapping. *)
Definition handle_state (db : Db) (k : rstr * rstr) : bool * option ScannedRow :=
  (is_tombstoned db k.1 k.2, scanned_row db k.1 k.2).

Lemma filter_tombs_id db k : is_tombstoned db k.1 k.2 = false ->
  List.filter (fun t => negb (same_handle k.1 k.2 t)) (db_tombstones db) = db_tombstones db.
Proof.
  intros H. apply filter_all. intros t Ht. unfold is_tombstoned in H. rewrite existsb_elem_false in H. by rewrite H.
Qed.

Lemma same_handle_key k k' : same_handle k.1 k.2 k' = bool_decide (k' = k).
Proof. apply eq_true_iff_eq. rewrite same_handle_eq, bool_decide_eq_true. by destruct k as [a b]. Qed.

Lemma find_first_replace {A} (p q : A -> bool) row l :
  p row = true ->
  (forall x, p x = true -> q x = q row) ->
  find_first q (update_where p (fun _ => row) l) =
    if q row then (fun r => if p r then row else r) <$> find_first q l else find_first q l.
Proof.
  intros Hp Hq. induction l as [|x l IH]; [by destruct (q row)|].
  change (update_where p (fun _ => row) (x :: l)) with ((if p x then row else x) :: update_where p (fun _ => row) l).
  rewrite !find_first_cons, IH. destruct (p x) eqn:E; [rewrite (Hq x E)|].
  - destruct (q row); cbn; by rewrite ?E.
  - destruct (q x) eqn:Ex; [|done]. destruct (q row); cbn; by rewrite ?E.
Qed.

Lemma find_first_snoc {A} (p : A -> bool) l a :
  find_first p (l ++ [a]) = match find_first p l with Some x => Some x | None => if p a then Some a else None end.
Proof.
  induction l as [|x l IH]; [cbn [app]; rewrite find_first_cons; by destruct (p a)|].
  cbn [app]. rewrite !find_first_cons, IH. by destruct (p x).
Qed.

Lemma record_scanned_state now k size mtime id db :
  is_tombstoned db k.1 k.2 = false ->
  let r := record_scanned now k.1 k.2 size mtime id db in
  r.2 = true /\ db_sessions r.1 = db_sessions db /\ db_tombstones r.1 = db_tombstones db /\
  db_messages r.1 = db_messages db /\
  forall k', scanned_row r.1 k'.1 k'.2 =
    if bool_decide (k' = k) then Some {| sc_backend := k.1; sc_native := k.2; sc_size := as_i64 <$> size; sc_mtime := mtime;
                                         sc_session := id; sc_at := now |}
    else scanned_row db k'.1 k'.2.
Proof.
  intros Ht. unfold record_scanned. rewrite Ht. set (row := Build_ScannedRow _ _ _ _ _ _).
  assert (forall k', same_handle k'.1 k'.2 (scanned_key row) = bool_decide (k' = k)) as Hrow.
  { intros k'. rewrite same_handle_key. apply bool_decide_ext. destruct k. cbn. naive_solver. }
  destruct (scanned_row db k.1 k.2) as [r|] eqn:Er; cbv zeta; cbn [fst snd]; do 4 (split; [done|]); intros k';
    unfold scanned_row in *; cbn [db_scanned with_scanned].
  - rewrite find_first_replace.
    + rewrite Hrow. destruct (bool_decide_reflect (k' = k)) as [->|Hne]; [|done]. rewrite Er. cbn.
      by rewrite (proj2 (find_first_Some _ _ _ Er)).
    + rewrite Hrow. by apply bool_decide_true.
    + intros x Hx. rewrite Hrow. rewrite same_handle_key in Hx |- *. apply bool_decide_eq_true in Hx as ->.
      apply bool_decide_ext. naive_solver.
  - rewrite find_first_snoc, Hrow. destruct (bool_decide_reflect (k' = k)) as [->|Hne]; [by rewrite Er|].
    by case_match.
Qed.

(** The row an import adds. *)
Definition bookmark (now id : rstr) (e : ImportableSession) : SessionRow := {|
  s_id := id; s_created := now; s_last_active := Some now; s_cwd := default [] (im_cwd e); s_model := None;
  s_agent := Some (im_provider e); s_agent_session := Some (im_native e); s_compacted := 0; s_title := im_title e;
  s_tags := str "[]"; s_pinned := false; s_archived := false; s_project := None; s_persona := None |}.

Lemma update_snoc_fresh {A} (p : A -> bool) f l a :
  (forall x, x ∈ l -> p x = false) -> p a = true -> update_where p f (l ++ [a]) = l ++ [f a].
Proof.
  intros Hl Ha. unfold update_where. rewrite map_app. cbn [map]. rewrite Ha. f_equal.
  rewrite <-(map_id l) at 2. apply map_ext_in. intros x Hx. rewrite Hl; [done|]. by apply list_elem_of_In.
Qed.

Lemma import_entry_spec now id db e :
  has_session db id = false -> is_tombstoned db (im_provider e) (im_native e) = false ->
  let r := import_entry now id db e in
  r.2 = Some true /\ db_sessions r.1 = db_sessions db ++ [bookmark now id e] /\
  db_tombstones r.1 = db_tombstones db /\ db_messages r.1 = db_messages db /\
  forall k, scanned_row r.1 k.1 k.2 =
    if bool_decide (k = im_key e) then Some {| sc_backend := im_provider e; sc_native := im_native e;
      sc_size := as_i64 <$> im_size e; sc_mtime := as_i64 <$> im_modified e; sc_session := id; sc_at := now |}
    else scanned_row db k.1 k.2.
Proof.
  intros Hid Ht. unfold import_entry, create_session. rewrite Hid.
  set (db1 := with_sessions _ db). set (db3 := match im_title e with Some t => _ | None => _ end).
  assert (forall x, x ∈ db_sessions db -> str_eqb (s_id x) id = false) as Hfresh by (by apply existsb_elem_false).
  assert (db_sessions db3 = db_sessions db ++ [bookmark now id e] /\ db_tombstones db3 = db_tombstones db /\
          db_messages db3 = db_messages db /\ db_scanned db3 = db_scanned db) as (H1 & H2 & H3 & H4).
  { assert (db_sessions (set_agent_session id (im_provider e) (im_native e) db1) =
            db_sessions db ++ [set_agent (im_provider e) (im_native e) {|
              s_id := id; s_created := now; s_last_active := Some now; s_cwd := default [] (im_cwd e); s_model := None;
              s_agent := Some (im_provider e); s_agent_session := None; s_compacted := 0; s_title := None;
              s_tags := str "[]"; s_pinned := false; s_archived := false; s_project := None; s_persona := None |}]) as Hs.
    { cbn. apply update_snoc_fresh; [done|]. cbn. apply str_eqb_refl. }
    assert (db_tombstones (set_agent_session id (im_provider e) (im_native e) db1) = db_tombstones db) as Htb
      by (by apply (filter_tombs_id db (im_key e))).
    subst db3. unfold bookmark. destruct (im_title e) as [t|]; [|done]. unfold set_title_if_empty. cbn [db_sessions with_sessions].
    rewrite Hs. split; [|done]. rewrite update_snoc_fresh; [done|..].
    - intros x Hx. by rewrite Hfresh.
    - cbn. by rewrite str_eqb_refl. }
  pose proof (record_scanned_state now (im_key e) (im_size e) (as_i64 <$> im_modified e) id db3) as Hr.
  assert (is_tombstoned db3 (im_key e).1 (im_key e).2 = false) as Ht3 by (unfold is_tombstoned; by rewrite H2).
  specialize (Hr Ht3). cbv zeta in Hr. cbn [im_key fst snd] in Hr.
  destruct (record_scanned _ _ _ _ _ _ db3) as [db4 rec]. cbn [fst snd] in Hr. destruct Hr as (-> & Hs4 & Ht4 & Hm4 & Hk).
  cbv zeta. cbn [fst snd]. rewrite Hs4, Ht4, Hm4. do 4 (split; [done|]). intros k. rewrite (Hk k). unfold scanned_row. by rewrite H4.
Qed.
(** ** A sweep *)

Lemma import_entry_inv now id db e : db_inv db -> db_inv (import_entry now id db e).1.
Proof.
  intros Hi. unfold import_entry. destruct (create_session _ _ _ _ db) as [db1|] eqn:Ec; [|done].
  pose proof (exec_inv db (CreateSession now id (default [] (im_cwd e)) (Some (im_provider e))) Hi) as H1.
  cbn [exec] in H1. rewrite Ec in H1. cbn [or_same] in H1.
  pose proof (exec_inv _ (SetAgentSession id (im_provider e) (im_native e)) H1) as H2. cbn [exec] in H2.
  set (db2 := set_agent_session _ _ _ db1) in *. set (db3 := match im_title e with Some _ => _ | None => _ end).
  assert (db_inv db3) as H3.
  { subst db3. destruct (im_title e) as [t|]; [|done]. exact (exec_inv db2 (SetTitleIfEmpty id t) H2). }
  pose proof (record_scanned_inv now (im_provider e) (im_native e) (im_size e) (as_i64 <$> im_modified e) id db3 H3) as H4.
  destruct (record_scanned _ _ _ _ _ _ db3) as [db4 []]; cbn [fst] in *; [done|]. by apply delete_session_inv.
Qed.

Notation mapped_alive := (maps_alive (fun _ => False)).

Lemma import_entry_alive now id db e : mapped_alive db -> mapped_alive (import_entry now id db e).1.
Proof.
  intros Hi. unfold import_entry. destruct (create_session _ _ _ _ db) as [db1|] eqn:Ec; [|done].
  assert (mapped_alive db1) as H1
    by (unfold create_session in Ec; destruct (has_session db id); [done|]; by injection Ec as <-).
  pose proof (exec_alive _ _ (SetAgentSession id (im_provider e) (im_native e)) ltac:(done) H1) as H2. cbn [exec] in H2.
  set (db2 := set_agent_session _ _ _ db1) in *. set (db3 := match im_title e with Some _ => _ | None => _ end).
  assert (mapped_alive db3) as H3 by (subst db3; by destruct (im_title e)).
  pose proof (record_scanned_alive _ now (im_provider e) (im_native e) (im_size e) (as_i64 <$> im_modified e) id db3 H3) as H4.
  destruct (record_scanned _ _ _ _ _ _ db3) as [db4 []]; cbn [fst] in *; [done|]. by apply delete_session_alive.
Qed.

Lemma check_entry_state db db' e :
  handle_state db (im_key e) = handle_state db' (im_key e) -> check_entry db e = check_entry db' e.
Proof. unfold handle_state, check_entry, scanned_signature. cbn. intros [= -> ->]. done. Qed.

Definition see (seen : list (rstr * rstr)) (e : ImportableSession) : list (rstr * rstr) :=
  if is_seen seen (im_key e) then seen else im_key e :: seen.

Lemma is_seen_elem seen k : is_seen seen k = true <-> k ∈ seen.
Proof.
  unfold is_seen. rewrite existsb_elem. setoid_rewrite same_handle_eq. destruct k. cbn. naive_solver.
Qed.

Section Sweep.
Variables (now : rstr) (uuid : nat -> rstr).
Hypothesis uuid_inj : forall i j, uuid i = uuid j -> i = j.

Record scan_inv (s : scan_state) : Prop := {
  si_db : db_inv (sn_db s);
  si_alive : mapped_alive (sn_db s);
  si_fresh : forall i, sn_minted s <= i -> has_session (sn_db s) (uuid i) = false
}.

(** One entry: other handles are left alone, its own needs no further import. *)
Lemma scan_entry_spec s e : scan_inv s ->
  let s' := scan_entry now uuid s e in
  scan_inv s' /\ sn_seen s' = see (sn_seen s) e /\
  (forall k, k <> im_key e \/ k ∈ sn_seen s -> handle_state (sn_db s') k = handle_state (sn_db s) k) /\
  (im_key e ∉ sn_seen s -> check_entry (sn_db s') e <> VImport) /\
  (sn_db s' = sn_db s \/ is_tombstoned (sn_db s) (im_provider e) (im_native e) = false /\
     db_sessions (sn_db s') = db_sessions (sn_db s) ++ [bookmark now (uuid (sn_minted s)) e] /\
     db_tombstones (sn_db s') = db_tombstones (sn_db s) /\ db_messages (sn_db s') = db_messages (sn_db s)).
Proof using uuid_inj.
  intros [Hi Ha Hf]. unfold scan_entry, see. destruct (is_seen (sn_seen s) (im_key e)) eqn:Es.
  { apply is_seen_elem in Es. cbv zeta. split; [by split|]. split; [done|]. split; [done|]. split; [done|]. by left. }
  assert (im_key e ∉ sn_seen s) as Hns by (rewrite <-is_seen_elem; by rewrite Es).
  cbv zeta. cbn [sn_db sn_minted sn_seen sn_report].
  destruct (check_entry (sn_db s) e) eqn:Ec.
  1,2: (split; [by split|]; split; [done|]; split; [done|]; split; [intros _; cbn; by rewrite Ec|by left]).
  assert (is_tombstoned (sn_db s) (im_provider e) (im_native e) = false) as Ht.
  { unfold check_entry in Ec. by destruct (is_tombstoned _ _ _). }
  pose proof (import_entry_spec now (uuid (sn_minted s)) (sn_db s) e (Hf _ (le_n _)) Ht) as Hs.
  pose proof (import_entry_inv now (uuid (sn_minted s)) (sn_db s) e Hi) as Hi'.
  pose proof (import_entry_alive now (uuid (sn_minted s)) (sn_db s) e Ha) as Ha'.
  destruct (import_entry now (uuid (sn_minted s)) (sn_db s) e) as [db' out]. cbv zeta in Hs. cbn [fst snd] in *.
  destruct Hs as (-> & Hs & Htb & Hm & Hk). unfold tally. cbn [sn_db sn_seen sn_minted].
  assert (forall k, is_tombstoned db' k.1 k.2 = is_tombstoned (sn_db s) k.1 k.2) as Htk by (intros k; unfold is_tombstoned; by rewrite Htb).
  split; [|split; [done|split; [|split; [|by right]]]].
  - split; cbn [sn_db sn_minted]; [done..|]. intros i Hle. unfold has_session. rewrite Hs, existsb_app. cbn [existsb bookmark s_id].
    pose proof (Hf i ltac:(lia)) as Hfi. unfold has_session in Hfi. rewrite Hfi. cbn. rewrite orb_false_r.
    apply str_eqb_neq. intros He%uuid_inj. lia.
  - intros k Hk'. unfold handle_state. rewrite Htk, Hk, bool_decide_false; [done|]. intros ->. by destruct Hk'.
  - intros _. pose proof (Htk (im_key e)) as H1. pose proof (Hk (im_key e)) as H2. rewrite bool_decide_true in H2 by done.
    cbn [im_key fst snd] in H1, H2. unfold check_entry, scanned_signature. rewrite H1, Ht, H2. cbn. by rewrite bool_decide_true.
Qed.

(** Every entry met for the first time needs no import. *)
Fixpoint settled (db : Db) (seen : list (rstr * rstr)) (es : list ImportableSession) : Prop :=
  match es with
  | [] => True
  | e :: es => (im_key e ∈ seen \/ check_entry db e <> VImport) /\ settled db (see seen e) es
  end.

Definition found (b : rstr * option (list ImportableSession)) : list ImportableSession := default [] b.2.
Definition entries (ds : list (rstr * option (list ImportableSession))) : list ImportableSession := concat (map found ds).

Lemma settled_app db seen es es' : settled db seen (es ++ es') <-> settled db seen es /\ settled db (fold_left see es seen) es'.
Proof.
  revert seen. induction es as [|e es IH]; intros seen; cbn [app settled fold_left]; [naive_solver|].
  rewrite IH. naive_solver.
Qed.

Lemma settled_keep db db' seen es :
  (forall e, e ∈ es -> im_key e ∉ seen -> handle_state db' (im_key e) = handle_state db (im_key e)) ->
  settled db seen es -> settled db' seen es.
Proof.
  revert seen. induction es as [|e es IH]; intros seen H; cbn [settled]; [done|]. intros [H1 H2]. split.
  - destruct (decide (im_key e ∈ seen)) as [|Hn]; [by left|]. right. destruct H1 as [|H1]; [done|].
    rewrite (check_entry_state db' db); [done|]. by apply H; [left|].
  - apply IH; [|done]. intros e' He' Hn'. apply H; [by right|]. unfold see in Hn'. destruct (is_seen seen (im_key e)); [done|].
    intros ?. apply Hn'. by right.
Qed.

Lemma see_seen seen e k : k ∈ see seen e <-> k ∈ seen \/ k = im_key e.
Proof.
  unfold see. destruct (is_seen seen (im_key e)) eqn:E.
  - apply is_seen_elem in E. naive_solver.
  - rewrite elem_of_cons. naive_solver.
Qed.

Definition imported (db db' : Db) (now : rstr) (es : list ImportableSession) : Prop :=
  db_tombstones db' = db_tombstones db /\ db_messages db' = db_messages db /\
  exists new, db_sessions db' = db_sessions db ++ new /\
    forall r, r ∈ new -> exists id e, e ∈ es /\ is_tombstoned db (im_provider e) (im_native e) = false /\ r = bookmark now id e.

Lemma imported_trans db db1 db2 es es' : imported db db1 now es -> imported db1 db2 now es' -> imported db db2 now (es ++ es').
Proof.
  intros (T1 & M1 & n1 & S1 & H1) (T2 & M2 & n2 & S2 & H2). unfold imported. rewrite T2, M2. split; [done|]. split; [done|].
  exists (n1 ++ n2). rewrite S2, S1, app_assoc. split; [done|]. intros r [Hr|Hr]%elem_of_app.
  - destruct (H1 r Hr) as (id & e & He & Ht & ->). exists id, e. split; [by apply elem_of_app; left|]. done.
  - destruct (H2 r Hr) as (id & e & He & Ht & ->). exists id, e. split; [by apply elem_of_app; right|].
    unfold is_tombstoned in *. by rewrite T1 in Ht.
Qed.

(** What a run of entries does. *)
Definition swept (s s' : scan_state) (es : list ImportableSession) : Prop :=
  scan_inv s' /\ sn_seen s' = fold_left see es (sn_seen s) /\
  (forall k, k ∈ sn_seen s -> handle_state (sn_db s') k = handle_state (sn_db s) k) /\
  settled (sn_db s') (sn_seen s) es /\ imported (sn_db s) (sn_db s') now es.

Lemma imported_refl db es : imported db db now es.
Proof. do 2 (split; [done|]). exists []. rewrite app_nil_r. split; [done|]. by intros r ?%elem_of_nil. Qed.

Lemma fold_see_seen es seen k : k ∈ fold_left see es seen <-> k ∈ seen \/ k ∈ map im_key es.
Proof.
  revert seen. induction es as [|e es IH]; intros seen; cbn [fold_left map].
  - rewrite elem_of_nil. naive_solver.
  - rewrite IH, see_seen, elem_of_cons. naive_solver.
Qed.

Lemma swept_trans s s1 s2 es es' : swept s s1 es -> swept s1 s2 es' -> swept s s2 (es ++ es').
Proof.
  intros (I1 & E1 & K1 & T1 & J1) (I2 & E2 & K2 & T2 & J2). split; [done|]. split; [by rewrite fold_left_app, <-E1|]. split.
  { intros k Hk. rewrite K2; [by apply K1|]. rewrite E1, fold_see_seen. by left. }
  split; [|by eapply imported_trans]. rewrite settled_app, <-E1. split; [|done].
  eapply settled_keep; [|done]. intros e He _. apply K2. rewrite E1, fold_see_seen. right.
  apply list_elem_of_In, in_map, list_elem_of_In, He.
Qed.

Lemma scan_entry_swept s e : scan_inv s -> swept s (scan_entry now uuid s e) [e].
Proof using uuid_inj.
  intros Hi. pose proof (scan_entry_spec s e Hi) as H. cbv zeta in H. destruct H as (H1 & H2 & H3 & H4 & H5).
  split; [done|]. split; [done|]. split; [intros k Hk; apply H3; by right|]. split.
  - split; [|done]. destruct (decide (im_key e ∈ sn_seen s)) as [|Hn]; [by left|right; by apply H4].
  - destruct H5 as [->|(Ht & Hs & Hts & Hm)]; [apply imported_refl|]. do 2 (split; [done|]).
    exists [bookmark now (uuid (sn_minted s)) e]. split; [done|]. intros r ->%list_elem_of_singleton.
    eexists _, e. split; [by left|done].
Qed.

Lemma fold_entries_swept es s : scan_inv s -> swept s (fold_left (scan_entry now uuid) es s) es.
Proof using uuid_inj.
  revert s. induction es as [|e es IH]; intros s Hi; cbn [fold_left].
  - split; [done|]. split; [done|]. split; [done|]. split; [done|]. apply imported_refl.
  - pose proof (scan_entry_swept s e Hi) as H. apply (swept_trans _ _ _ [e] es H), IH, H.
Qed.

Lemma fold_backends_swept ds s : scan_inv s -> swept s (fold_left (scan_backend now uuid) ds s) (entries ds).
Proof using uuid_inj.
  revert s. induction ds as [|b ds IH]; intros s Hi; cbn [fold_left].
  - split; [done|]. split; [done|]. split; [done|]. split; [done|]. apply imported_refl.
  - change (entries (b :: ds)) with (found b ++ entries ds).
    assert (swept s (scan_backend now uuid s b) (found b)) as H.
    { unfold scan_backend, found. destruct b.2 as [es|]; cbn [default].
      - apply (fold_entries_swept es (tally _ s)). by destruct Hi.
      - split; [by destruct Hi|]. split; [done|]. split; [done|]. split; [done|]. apply imported_refl. }
    apply (swept_trans _ _ _ _ _ H), IH, H.
Qed.

(** *** A second sweep over settled entries *)

Definition quiet (db : Db) (s : scan_state) : Prop := sn_db s = db /\ sr_reparsed (sn_report s) = 0.

Lemma scan_entry_quiet db s e : quiet db s -> im_key e ∈ sn_seen s \/ check_entry db e <> VImport ->
  quiet db (scan_entry now uuid s e) /\ sn_seen (scan_entry now uuid s e) = see (sn_seen s) e.
Proof.
  intros [Hd Hr] H. unfold scan_entry, see. destruct (is_seen (sn_seen s) (im_key e)) eqn:E; [by split|].
  cbn [sn_db]. rewrite Hd. destruct H as [H|H]; [apply is_seen_elem in H; by rewrite H in E|].
  by destruct (check_entry db e).
Qed.

Lemma fold_entries_quiet db es s : quiet db s -> settled db (sn_seen s) es ->
  quiet db (fold_left (scan_entry now uuid) es s) /\ sn_seen (fold_left (scan_entry now uuid) es s) = fold_left see es (sn_seen s).
Proof.
  revert s. induction es as [|e es IH]; intros s Hq Hs; [done|]. destruct Hs as [H1 H2]. cbn [fold_left].
  destruct (scan_entry_quiet db s e Hq H1) as [Hq' Hs']. rewrite <-Hs' in H2. rewrite <-Hs'. by apply IH.
Qed.

Lemma fold_backends_quiet db ds s : quiet db s -> settled db (sn_seen s) (entries ds) ->
  quiet db (fold_left (scan_backend now uuid) ds s) /\
  sn_seen (fold_left (scan_backend now uuid) ds s) = fold_left see (entries ds) (sn_seen s).
Proof.
  revert s. induction ds as [|b ds IH]; intros s Hq Hs; [done|]. change (entries (b :: ds)) with (found b ++ entries ds) in *.
  apply settled_app in Hs as [H1 H2]. cbn [fold_left].
  assert (quiet db (scan_backend now uuid s b) /\ sn_seen (scan_backend now uuid s b) = fold_left see (found b) (sn_seen s)) as [Hq' Hs'].
  { unfold scan_backend, found in *. destruct b.2 as [es|]; [|done]. by apply (fold_entries_quiet db es (tally _ s)). }
  rewrite fold_left_app, <-Hs'. apply IH; [done|by rewrite Hs'].
Qed.
End Sweep.

(** *** The vanish pass *)

Definition archive_rows (ids : list rstr) (db : Db) : Db :=
  with_sessions (update_where (fun r => existsb (str_eqb (s_id r)) ids) (set_row_archived true) (db_sessions db)) db.

Definition unseen (seen : list (rstr * rstr)) (ms : list (rstr * rstr * rstr)) : list rstr :=
  map snd (List.filter (fun m => negb (is_seen seen m.1)) ms).

Lemma archive_rows_nil db : archive_rows [] db = db.
Proof.
  unfold archive_rows, update_where. cbn [existsb]. rewrite map_id. by destruct db.
Qed.

Lemma archive_rows_app ids ids' db : archive_rows ids' (archive_rows ids db) = archive_rows (ids ++ ids') db.
Proof.
  unfold archive_rows, with_sessions. cbn [db_sessions db_messages db_msg_seq db_fts db_usage db_usage_seq db_plans db_projects db_grants db_scanned db_tombstones]. f_equal. rewrite update_where_twice; [|done].
  apply update_where_ext. intros r. by rewrite existsb_app.
Qed.

Lemma archive_rows_twice ids db : archive_rows ids (archive_rows ids db) = archive_rows ids db.
Proof.
  rewrite archive_rows_app. unfold archive_rows. f_equal. apply update_where_ext. intros r. by rewrite existsb_app, orb_diag.
Qed.

Lemma vanish_rows ms s :
  (forall m, m ∈ ms -> is_tombstoned (sn_db s) m.1.1 m.1.2 = false) ->
  let s' := fold_left vanish ms s in
  sn_db s' = archive_rows (unseen (sn_seen s) ms) (sn_db s) /\ sn_seen s' = sn_seen s /\
  sr_reparsed (sn_report s') = sr_reparsed (sn_report s).
Proof.
  cbv zeta. revert s. induction ms as [|[[b n] id] ms IH]; intros s Ht; cbn [fold_left].
  { unfold unseen. cbn. by rewrite archive_rows_nil. }
  assert (let s1 := vanish s (b, n, id) in
    sn_db s1 = archive_rows (if is_seen (sn_seen s) (b, n) then [] else [id]) (sn_db s) /\
    sn_seen s1 = sn_seen s /\ sr_reparsed (sn_report s1) = sr_reparsed (sn_report s)) as (H1 & H2 & H3).
  { cbv zeta. unfold vanish. destruct (is_seen (sn_seen s) (b, n)); [by rewrite archive_rows_nil|].
    pose proof (Ht (b, n, id) ltac:(left)) as Htb. cbn in Htb. rewrite Htb. unfold set_archived, update_reporting.
    assert (update_session id (set_row_archived true) (sn_db s) = archive_rows [id] (sn_db s)) as ->.
    { unfold update_session, archive_rows, with_sessions. f_equal. apply update_where_ext. intros r. cbn [existsb]. by rewrite orb_false_r. }
    by destruct (has_session (sn_db s) id). }
  destruct (IH (vanish s (b, n, id))) as (E1 & E2 & E3).
  { intros m Hm. rewrite H1. by apply (Ht m); right. }
  rewrite E1, E2, E3, H1, H2, H3, archive_rows_app. split; [|done]. f_equal.
  unfold unseen. cbn [List.filter fst]. by destruct (is_seen (sn_seen s) (b, n)).
Qed.

Lemma scanned_all_elem db b n id :
  (b, n, id) ∈ scanned_all db <-> exists r, r ∈ db_scanned db /\ scanned_key r = (b, n) /\ sc_session r = id.
Proof.
  unfold scanned_all. rewrite list_elem_of_In, in_map_iff. setoid_rewrite <-list_elem_of_In. setoid_rewrite sort_by_elem.
  split; [intros (r & [= <- <- <-] & Hr); by exists r|intros (r & Hr & [= <- <-] & <-); by exists r].
Qed.

Lemma unseen_elem seen id db : id ∈ unseen seen (scanned_all db) <->
  exists m, m ∈ db_scanned db /\ sc_session m = id /\ scanned_key m ∉ seen.
Proof.
  unfold unseen. rewrite list_elem_of_In, in_map_iff. setoid_rewrite filter_In. setoid_rewrite <-list_elem_of_In.
  setoid_rewrite negb_true_iff. setoid_rewrite <-not_true_iff_false. setoid_rewrite is_seen_elem. split.
  - intros ([[b n] i] & <- & (m & Hm & Hk & Hi)%scanned_all_elem & Hn). exists m. cbn in *. by rewrite Hk.
  - intros (m & Hm & <- & Hn). exists (scanned_key m, sc_session m). split; [done|]. split; [|done].
    destruct (scanned_key m) as [b n] eqn:Ek. apply scanned_all_elem. by exists m.
Qed.

Definition begin_scan (db : Db) : scan_state := {| sn_db := db; sn_report := empty_report; sn_seen := []; sn_minted := 0 |}.

(** A whole sweep: what discovery does, then the archived rows. *)
Lemma scan_history_swept now uuid ds db : (forall i j, uuid i = uuid j -> i = j) ->
  db_inv db -> mapped_alive db -> (forall i, has_session db (uuid i) = false) ->
  exists s, swept now uuid (begin_scan db) s (entries ds) /\
    (scan_history now uuid ds db).1 = archive_rows (unseen (sn_seen s) (scanned_all (sn_db s))) (sn_db s).
Proof.
  intros Hinj Hi Ha Hf. pose proof (fold_backends_swept now uuid Hinj ds (begin_scan db)) as H.
  eexists. split; [apply H; by split|]. destruct H as [[_ Ha' _] _]; [by split|].
  unfold scan_history, discover. fold (begin_scan db). cbn [fst]. apply vanish_rows.
  intros [[b n] id] (r & Hr & Hk & _)%scanned_all_elem. cbn. apply not_true_iff_false. rewrite is_tombstoned_elem, <-Hk.
  exact (Ha' r Hr).
Qed.

Lemma run_alive ops : (forall b n, AddTombstone b n ∉ ops) -> mapped_alive (run_ops ops).
Proof. intros H r Hr Ht. by apply (H _ _ (run_ops_alive ops r Hr Ht)). Qed.

(** A second sweep over the same discoveries changes nothing: whatever the
    first one did, the second leaves the database as it is and imports nothing,
    on any database that is reachable without [add_tombstone] (nothing in the
    sources calls it) and whatever the clock and the fresh ids are then. *)
Theorem rescan_changes_nothing (ops : list db_op) (now now' : rstr) (uuid uuid' : nat -> rstr)
    (ds : list (rstr * option (list ImportableSession)))
    (Hinj : forall i j, uuid i = uuid j -> i = j)
    (Hcalls : forall b n, AddTombstone b n ∉ ops)
    (Hfresh : forall i, has_session (run_ops ops) (uuid i) = false) :
  let db1 := (scan_history now uuid ds (run_ops ops)).1 in
  let '(db2, report) := scan_history now' uuid' ds db1 in
  db2 = db1 /\ sr_reparsed report = 0.
Proof.
  pose proof (run_ops_inv ops) as Hi.
  destruct (scan_history_swept now uuid ds _ Hinj Hi (run_alive ops Hcalls) Hfresh) as (s & (Hs & Hseen & _ & Hset & _) & ->).
  cbv zeta. set (gone := unseen _ _). unfold scan_history, discover. fold (begin_scan (archive_rows gone (sn_db s))).
  destruct (fold_backends_quiet now' uuid' (archive_rows gone (sn_db s)) ds (begin_scan (archive_rows gone (sn_db s)))) as [[Hd Hr] Hs2].
  { done. }
  { by eapply settled_keep; [|exact Hset]. }
  change (sn_seen (begin_scan _)) with (sn_seen (begin_scan (run_ops ops))) in Hs2. rewrite <-Hseen in Hs2.
  destruct (vanish_rows (scanned_all (sn_db s)) (fold_left (scan_backend now' uuid') ds (begin_scan (archive_rows gone (sn_db s)))))
    as (E1 & _ & E3).
  { intros [[b n] id] (r & Hr' & Hk & _)%scanned_all_elem. rewrite Hd. cbn. apply not_true_iff_false.
    change (is_tombstoned (sn_db s) b n <> true). rewrite is_tombstoned_elem, <-Hk.
    exact (si_alive _ _ Hs r Hr'). }
  rewrite Hd in *. change (scanned_all (archive_rows gone (sn_db s))) with (scanned_all (sn_db s)).
  rewrite E1, E3, Hs2, Hr. split; [|done]. apply archive_rows_twice.
Qed.

(** What one sweep does to such a database.  Messages and tombstones
    stay; the sessions are the old ones and bookmarks of discovered entries that
    are not tombstoned, up to their archived flags; the first entry of every
    handle ends tombstoned or recorded with its signature; a session is newly
    archived just when a recorded handle of it was not discovered. *)
Theorem sweep_spec (ops : list db_op) (now : rstr) (uuid : nat -> rstr)
    (ds : list (rstr * option (list ImportableSession)))
    (Hinj : forall i j, uuid i = uuid j -> i = j)
    (Hcalls : forall b n, AddTombstone b n ∉ ops)
    (Hfresh : forall i, has_session (run_ops ops) (uuid i) = false) :
  let db := run_ops ops in
  let db' := (scan_history now uuid ds db).1 in
  let gone r := exists m, m ∈ db_scanned db' /\ sc_session m = s_id r /\ scanned_key m ∉ map im_key (entries ds) in
  db_messages db' = db_messages db /\ db_tombstones db' = db_tombstones db /\
  (forall es e es', entries ds = es ++ e :: es' -> im_key e ∉ map im_key es ->
     is_tombstoned db (im_provider e) (im_native e) = true \/
     scanned_signature db' (im_provider e) (im_native e) = Some (signature_of e)) /\
  exists new,
    map (set_row_archived false) (db_sessions db') = map (set_row_archived false) (db_sessions db ++ new) /\
    (forall r, r ∈ new -> exists id e, e ∈ entries ds /\ is_tombstoned db (im_provider e) (im_native e) = false /\
       r = bookmark now id e) /\
    (forall r, r ∈ db_sessions db' -> gone r -> s_archived r = true) /\
    (forall r, r ∈ db_sessions db' -> s_archived r = true -> gone r \/ r ∈ db_sessions db).
Proof.
  pose proof (run_ops_inv ops) as Hi. set (db := run_ops ops) in *.
  destruct (scan_history_swept now uuid ds db Hinj Hi (run_alive ops Hcalls) Hfresh) as (s & (Hs & Hseen & _ & Hset & Hts & Hm & new & Hnew & Hbm) & E).
  cbv zeta. rewrite E. set (ids := unseen _ _).
  assert (forall r, existsb (str_eqb (s_id r)) ids = true <->
    exists m, m ∈ db_scanned (sn_db s) /\ sc_session m = s_id r /\ scanned_key m ∉ map im_key (entries ds)) as Hgone.
  { intros r. rewrite existsb_elem. setoid_rewrite str_eqb_eq. subst ids. setoid_rewrite unseen_elem. rewrite Hseen.
    setoid_rewrite fold_see_seen. setoid_rewrite elem_of_nil. naive_solver. }
  split; [done|]. split; [done|]. split.
  { intros es e es' He Hn. rewrite He, settled_app in Hset. destruct Hset as [_ [[Hin|Hc] _]].
    { apply fold_see_seen in Hin as [?%elem_of_nil|?]; done. }
    assert (is_tombstoned (sn_db s) (im_provider e) (im_native e) = is_tombstoned db (im_provider e) (im_native e)) as Ht
      by (unfold is_tombstoned; by rewrite Hts).
    unfold check_entry in Hc. rewrite Ht in Hc. change (scanned_signature (archive_rows ids (sn_db s))) with (scanned_signature (sn_db s)).
    repeat (case_match; try done); [by left|right].
    match goal with H : bool_decide _ = true |- _ => apply bool_decide_eq_true in H as -> end. done. }
  exists new. cbn [archive_rows db_sessions db_scanned with_sessions] in *. change (sn_db (begin_scan db)) with db in Hnew.
  split; [|split; [done|split]].
  - rewrite <-Hnew. unfold update_where. rewrite map_map. apply map_ext. intros r. by destruct (existsb _ ids).
  - intros r Hr Hg. apply update_where_elem in Hr as (r0 & Hr0 & ->).
    assert (existsb (str_eqb (s_id r0)) ids = true) as Hx; [|by rewrite Hx]. apply Hgone. by destruct (existsb _ ids).
  - intros r Hr Ha. apply update_where_elem in Hr as (r0 & Hr0 & ->).
    destruct (existsb (str_eqb (s_id r0)) ids) eqn:Ex; [left; by apply Hgone in Ex|right].
    rewrite Hnew in Hr0. apply elem_of_app in Hr0 as [|Hr0]; [done|]. destruct (Hbm r0 Hr0) as (id & e & _ & _ & ->). done.
Qed.
End Facts.

(** ** The sweep against other calls *)

(** A handle tombstoned after its check is imported all the same: binding the
    new row clears the tombstone, so the record's own check never fails. *)
Theorem import_ignores_late_tombstone (now id : rstr) (db : Db) (e : ImportableSession) :
  has_session db id = false ->
  let r := import_entry now id (insert_tombstone (im_provider e) (im_native e) db) e in
  r.2 = Some true /\ is_tombstoned r.1 (im_provider e) (im_native e) = false.
Proof.
  intros Hid. unfold import_entry, create_session.
  assert (has_session (insert_tombstone (im_provider e) (im_native e) db) id = false) as ->
    by (unfold insert_tombstone; by destruct (is_tombstoned _ _ _)).
  set (db2 := set_agent_session _ _ _ _). set (db3 := match im_title e with Some t => _ | None => _ end).
  assert (is_tombstoned db3 (im_key e).1 (im_key e).2 = false) as Ht.
  { assert (db_tombstones db3 = db_tombstones db2) as E by (subst db3; by destruct (im_title e)).
    unfold is_tombstoned. rewrite E. apply existsb_elem_false. intros t Ht.
    apply elem_filter in Ht as [_ Ht]. by apply negb_true_iff in Ht. }
  pose proof (record_scanned_state now (im_key e) (im_size e) (as_i64 <$> im_modified e) id db3 Ht) as Hr.
  cbv zeta in Hr. cbn [im_key fst snd] in Hr, Ht. destruct (record_scanned _ _ _ _ _ _ db3) as [db4 rec].
  cbn [fst snd] in Hr. destruct Hr as (-> & _ & Hts & _). cbn. split; [done|]. unfold is_tombstoned in *. by rewrite Hts.
Qed.

Definition demo_entry (size : Z) : ImportableSession := {|
  im_provider := str "claude"; im_native := str "n1"; im_title := Some (str "old work"); im_cwd := Some (str "/w");
  im_modified := Some 100%Z; im_size := Some size |}.

Definition demo_uuid (tag : N) (n : nat) : rstr := tag :: replicate n 117%N.

Definition demo_sweep (tag : N) (found : option (list ImportableSession)) (db : Db) : Db * ScanReport :=
  scan_history (str "t") (demo_uuid tag) [(str "claude", found)] db.

(** A backend whose discovery fails once has its sessions archived, and a
    later sweep that finds them again leaves them archived. *)
Theorem failed_discovery_hides_sessions :
  let db1 := (demo_sweep 1 (Some [demo_entry 5]) empty_db).1 in
  let '(db2, r2) := demo_sweep 2 None db1 in
  let '(db3, r3) := demo_sweep 3 (Some [demo_entry 5]) db2 in
  map s_archived (db_sessions db1) = [false] /\ (sr_archived r2 = 1 /\ map s_archived (db_sessions db2) = [true]) /\
  sr_reused r3 = 1 /\ map s_archived (db_sessions db3) = [true].
Proof. vm_compute. done. Qed.

(** A native session that has grown is imported as a second row with the same
    handle; the first one stays. *)
Theorem grown_session_is_imported_twice :
  let db1 := (demo_sweep 1 (Some [demo_entry 5]) empty_db).1 in
  let '(db2, r2) := demo_sweep 2 (Some [demo_entry 6]) db1 in
  sr_reparsed r2 = 1 /\
  map (fun r => (s_agent r, s_agent_session r)) (db_sessions db2) =
    [(Some (str "claude"), Some (str "n1")); (Some (str "claude"), Some (str "n1"))].
Proof. vm_compute. done. Qed.

(** The sweep at boot runs beside one that holds the slot, and its end frees
    the slot of the other. *)
Theorem boot_sweep_joins_running_one (running id next : rstr) :
  claim_boot (Some running) id = (Some running, true) /\
  claim_rescan (release_scan (Some running)) next = (Some next, true).
Proof. done. Qed.

(** ** Witnesses *)

Lemma demo_uuid_inj tag i j : demo_uuid tag i = demo_uuid tag j -> i = j.
Proof. intros [= H]. apply (f_equal length) in H. by rewrite !length_replicate in H. Qed.

Lemma demo_uuid_fresh i : has_session (@run_ops demo_message_text demo_ops) (demo_uuid 1 i) = false.
Proof.
  assert (map s_id (db_sessions (@run_ops demo_message_text demo_ops)) = [str "a"]) as H by (vm_compute; reflexivity).
  apply not_true_iff_false. rewrite has_session_elem, H. intros [=]%list_elem_of_singleton.
Qed.

Lemma demo_calls b n : AddTombstone b n ∉ demo_ops.
Proof. unfold demo_ops. rewrite !elem_of_cons, elem_of_nil. naive_solver. Qed.

Lemma rescan_changes_nothing_witness :
  (scan_history (str "t2") (demo_uuid 2) [(str "claude", Some [demo_entry 5])]
    (scan_history (str "t") (demo_uuid 1) [(str "claude", Some [demo_entry 5])]
      (@run_ops demo_message_text demo_ops)).1).1 =
  (scan_history (str "t") (demo_uuid 1) [(str "claude", Some [demo_entry 5])]
    (@run_ops demo_message_text demo_ops)).1.
Proof.
  pose proof (@rescan_changes_nothing demo_message_text demo_ops (str "t") (str "t2") (demo_uuid 1) (demo_uuid 2)
    [(str "claude", Some [demo_entry 5])] (demo_uuid_inj 1) demo_calls demo_uuid_fresh) as H. cbv zeta in H.
  destruct (scan_history (str "t2") _ _ _) as [db2 report]. exact (proj1 H).
Defined.

Lemma sweep_spec_witness :
  db_messages (scan_history (str "t") (demo_uuid 1) [(str "claude", Some [demo_entry 5])]
    (@run_ops demo_message_text demo_ops)).1 = db_messages (@run_ops demo_message_text demo_ops).
Proof.
  exact (proj1 (@sweep_spec demo_message_text demo_ops (str "t") (demo_uuid 1) [(str "claude", Some [demo_entry 5])]
    (demo_uuid_inj 1) demo_calls demo_uuid_fresh)).
Defined.
