(* ===== verification/TimeBound.v ===== *)
(** * TimeBound: time bounds on the wire ([days_from_civil], [parse_time_bound] of [rpc.rs])

    The parser of the [since] and [until] of a search, proved to accept just
    the texts of a grammar and to return the instant they denote, with days
    counted year by year and month by month.  Every position the parser looks
    at must hold an ASCII character for it to go on, so characters and bytes
    agree wherever it returns a value, and it refuses the text elsewhere. *)

From S2P Require Import Prelude Str.

(** ** The parser *)

(** Rust's [/] and [%] truncate. *)
Definition days_from_civil (y m d : Z) : Z :=
  let y := (y - (if m <=? 2 then 1 else 0))%Z in
  let era := Z.quot (if (0 <=? y)%Z then y else y - 399)%Z 400 in
  let yoe := (y - era * 400)%Z in
  let mp := Z.rem (m + 9) 12 in
  let doy := (Z.quot (153 * mp + 2) 5 + d - 1)%Z in
  let doe := (yoe * 365 + Z.quot yoe 4 - Z.quot yoe 100 + doy)%Z in
  (era * 146097 + doe - 719468)%Z.

Inductive time_error := InvalidTimeBound.

(** The value of a run of digits. *)
Definition decimal (r : rstr) : Z := fold_left (fun a c => a * 10 + (Z.of_N c - 48))%Z r 0%Z.

Definition digits (r : rstr) : result Z time_error :=
  if is_empty r || negb (forallb is_ascii_digit r) then Err InvalidTimeBound else Ok (decimal r).

(** [b[i]] and [b[i..j]], of a text known to be long enough. *)
Definition at_is (s : rstr) (i : nat) (c : rchar) : bool := match s !! i with Some x => N.eqb x c | None => false end.
Definition slice (s : rstr) (i j : nat) : rstr := take (j - i) (drop i s).

Definition c_dash : rchar := 45%N.
Definition c_plus : rchar := 43%N.
Definition c_colon : rchar := 58%N.
Definition c_dot : rchar := 46%N.

Definition leap (year : Z) : bool :=
  ((Z.rem year 4 =? 0) && (negb (Z.rem year 100 =? 0) || (Z.rem year 400 =? 0)))%Z.

Definition dim (year : Z) : list Z := [31; if leap year then 29 else 28; 31; 30; 31; 30; 31; 31; 30; 31; 30; 31]%Z.

Definition within (lo hi v : Z) : bool := ((lo <=? v) && (v <=? hi))%Z.

(** The date: its days, and the text after it. *)
Definition parse_date (s : rstr) : result (Z * rstr) time_error :=
  let? _ := bail_if ((length s <? 10) || negb (at_is s 4 c_dash) || negb (at_is s 7 c_dash)) InvalidTimeBound in
  let? year := digits (slice s 0 4) in
  let? month := digits (slice s 5 7) in
  let? day := digits (slice s 8 10) in
  let? _ := bail_if (negb (within 1 12 month)) InvalidTimeBound in
  let? _ := bail_if (negb (within 1 (nth (Z.to_nat (month - 1)) (dim year) 0%Z) day)) InvalidTimeBound in
  Ok (days_from_civil year month day, drop 10 s).

(** The seconds' fraction, to the millisecond, and the text after it. *)
Definition parse_fraction (tail : rstr) : result (Z * rstr) time_error :=
  match strip_prefix [c_dot] tail with
  | None => Ok (0%Z, tail)
  | Some frac =>
      let n := default (length frac) (find_index (fun c => negb (is_ascii_digit c)) frac) in
      let? _ := bail_if (n =? 0) InvalidTimeBound in
      let k := Nat.min n 3 in
      let frac_ms := decimal (take k frac) in
      Ok ((frac_ms * 10 ^ Z.of_nat (3 - k))%Z, drop (1 + n) tail)
  end.

(** What the offset takes from the instant. *)
Definition parse_zone (tail : rstr) : result Z time_error :=
  if is_empty tail || str_eqb tail (str "Z") || str_eqb tail (str "z") then Ok 0%Z
  else if (length tail =? 6) && (at_is tail 0 c_plus || at_is tail 0 c_dash) && at_is tail 3 c_colon then
    let sign := if at_is tail 0 c_plus then 1%Z else (-1)%Z in
    let? oh := digits (slice tail 1 3) in
    let? om := digits (slice tail 4 6) in
    let? _ := bail_if ((23 <? oh) || (59 <? om))%Z InvalidTimeBound in
    Ok (sign * (oh * 3600 + om * 60) * 1000)%Z
  else Err InvalidTimeBound.

(** The part after the date, in milliseconds to add. *)
Definition parse_clock (rest : rstr) : result Z time_error :=
  let? t := ok_or (match rest with
                   | c :: t => if (c =? 84)%N || (c =? 116)%N || (c =? c_space)%N then Some t else None
                   | [] => None
                   end) InvalidTimeBound in
  let? _ := bail_if ((length t <? 8) || negb (at_is t 2 c_colon) || negb (at_is t 5 c_colon)) InvalidTimeBound in
  let? hh := digits (slice t 0 2) in
  let? mm := digits (slice t 3 5) in
  let? ss := digits (slice t 6 8) in
  let? _ := bail_if ((23 <? hh) || (59 <? mm) || (59 <? ss))%Z InvalidTimeBound in
  let? frac := parse_fraction (drop 8 t) in
  let? off := parse_zone frac.2 in
  Ok ((hh * 3600 + mm * 60 + ss) * 1000 + frac.1 - off)%Z.

Definition parse_time_bound (input : rstr) : result Z time_error :=
  let s := trim input in
  let? date := parse_date s in
  let ms := (date.1 * 86400000)%Z in
  if is_empty date.2 then Ok ms
  else let? t := parse_clock date.2 in Ok (ms + t)%Z.

Example bound_epoch : parse_time_bound (str "1970-01-01T00:00:00.500Z") = Ok 500%Z.
Proof. vm_compute. reflexivity. Qed.
Example bound_offset : parse_time_bound (str " 2026-09-01 02:00:00+02:00") = parse_time_bound (str "2026-09-01").
Proof. vm_compute. reflexivity. Qed.
Example bound_february : parse_time_bound (str "2026-02-29") = Err InvalidTimeBound.
Proof. vm_compute. reflexivity. Qed.

(** ** The calendar *)

(** Days counted from the start of year 0, year by year and month by month. *)
Definition year_days (y : Z) : Z := if leap y then 366%Z else 365%Z.
Fixpoint days_before_year (n : nat) : Z :=
  match n with 0 => 0%Z | S n => (days_before_year n + year_days (Z.of_nat n))%Z end.
Definition days_before_month (y m : Z) : Z := fold_right Z.add 0%Z (take (Z.to_nat (m - 1)) (dim y)).

(** The number of a day, 1970-01-01 being 0. *)
Definition day_number (y m d : Z) : Z :=
  (days_before_year (Z.to_nat y) - days_before_year 1970 + days_before_month y m + (d - 1))%Z.

Lemma days_before_year_closed n :
  (days_before_year n = 365 * Z.of_nat n + (Z.of_nat n + 3) / 4 - (Z.of_nat n + 99) / 100 + (Z.of_nat n + 399) / 400)%Z.
Proof.
  induction n as [|n IH]; [reflexivity|]. cbn [days_before_year]. rewrite IH. unfold year_days, leap.
  rewrite !Z.rem_mod_nonneg by lia. repeat case_match; lia.
Qed.

Lemma days_from_civil_counts y m d : (0 <= y)%Z -> (1 <= m <= 12)%Z -> days_from_civil y m d = day_number y m d.
Proof.
  intros Hy Hm. unfold day_number. rewrite !days_before_year_closed, Z2Nat.id by done.
  assert (days_before_month y m = (153 * ((m + 9) mod 12) + 2) / 5 + (if m <=? 2 then -306 else if leap y then 60 else 59))%Z as ->.
  { unfold days_before_month, dim. assert (m = 1 \/ m = 2 \/ m = 3 \/ m = 4 \/ m = 5 \/ m = 6 \/ m = 7 \/ m = 8 \/ m = 9 \/ m = 10 \/
      m = 11 \/ m = 12)%Z as Hcases by lia.
    destruct (leap y); repeat destruct Hcases as [->|Hcases]; try subst m; reflexivity. }
  unfold days_from_civil, leap. rewrite (Z.rem_mod_nonneg (m + 9) 12), (Z.rem_mod_nonneg y 4), (Z.rem_mod_nonneg y 100),
    (Z.rem_mod_nonneg y 400), (Z.quot_div_nonneg (153 * ((m + 9) mod 12) + 2) 5) by lia.
  set (doy := ((153 * ((m + 9) mod 12) + 2) / 5)%Z). clearbody doy.
  destruct (m <=? 2)%Z; cbv zeta.
  - destruct (0 <=? y - 1)%Z eqn:E; [rewrite !Z.quot_div_nonneg by lia; lia|].
    assert (y = 0)%Z as -> by lia. cbn. lia.
  - rewrite Z.sub_0_r, (proj2 (Z.leb_le 0 y)) by done. rewrite !Z.quot_div_nonneg by lia.
    repeat case_match; lia.
Qed.

(** ** The grammar *)

(** [l] is [n] digits of value [v]. *)
Definition num (n : nat) (l : rstr) (v : Z) : Prop :=
  length l = n /\ forallb is_ascii_digit l = true /\ v = decimal l.

Inductive zone_text : rstr -> Z -> Prop :=
| zone_naive : zone_text [] 0
| zone_utc c : c ∈ str "Zz" -> zone_text [c] 0
| zone_east h hh m mm : num 2 h hh -> num 2 m mm -> (hh <= 23)%Z -> (mm <= 59)%Z ->
    zone_text (c_plus :: h ++ c_colon :: m) ((hh * 60 + mm) * 60000)
| zone_west h hh m mm : num 2 h hh -> num 2 m mm -> (hh <= 23)%Z -> (mm <= 59)%Z ->
    zone_text (c_dash :: h ++ c_colon :: m) (- ((hh * 60 + mm) * 60000)).

(** A fraction of a second, in whole milliseconds. *)
Inductive frac_text : rstr -> Z -> Prop :=
| frac_none : frac_text [] 0
| frac_digits d : d <> [] -> forallb is_ascii_digit d = true ->
    frac_text (c_dot :: d) (decimal d * 1000 / 10 ^ Z.of_nat (length d)).

Inductive clock_text : rstr -> Z -> Prop :=
| clock_midnight : clock_text [] 0
| clock_time sep h hh m mm s ss f ms z off :
    sep ∈ str "Tt " -> num 2 h hh -> num 2 m mm -> num 2 s ss -> (hh <= 23)%Z -> (mm <= 59)%Z -> (ss <= 59)%Z ->
    frac_text f ms -> zone_text z off ->
    clock_text (sep :: h ++ c_colon :: m ++ c_colon :: s ++ f ++ z) ((hh * 3600 + mm * 60 + ss) * 1000 + ms - off).

Inductive bound_text : rstr -> Z -> Prop :=
| bound_at y yy m mm d dd c t :
    num 4 y yy -> num 2 m mm -> num 2 d dd -> (1 <= mm <= 12)%Z ->
    (1 <= dd <= nth (Z.to_nat (mm - 1)) (dim yy) 0)%Z -> clock_text c t ->
    bound_text (y ++ c_dash :: m ++ c_dash :: d ++ c) (day_number yy mm dd * 86400000 + t).

(** ** The parser reads the grammar *)

Lemma digits_Ok l v : digits l = Ok v <-> l <> [] /\ num (length l) l v.
Proof.
  unfold digits, num. destruct l as [|c l]; [naive_solver|]. cbn [is_empty orb].
  destruct (forallb is_ascii_digit (c :: l)); cbn; naive_solver.
Qed.

Lemma digits_num n l v : 0 < n -> num n l v -> digits l = Ok v.
Proof. intros Hn [Hl H]. apply digits_Ok. split; [intros ->; cbn in Hl; lia|]. by split. Qed.

Lemma decimal_snoc l c : decimal (l ++ [c]) = (decimal l * 10 + (Z.of_N c - 48))%Z.
Proof. unfold decimal. by rewrite fold_left_app. Qed.

Lemma digit_value c : is_ascii_digit c = true -> (0 <= Z.of_N c - 48 <= 9)%Z.
Proof. unfold is_ascii_digit. lia. Qed.

Lemma decimal_app l k : decimal (l ++ k) = (decimal l * 10 ^ Z.of_nat (length k) + decimal k)%Z.
Proof.
  induction k as [|c k IH] using rev_ind; [rewrite app_nil_r; cbn; lia|].
  rewrite app_assoc, !decimal_snoc, IH, length_app, Nat2Z.inj_add, Z.pow_add_r by lia. cbn. lia.
Qed.

Lemma decimal_bound l : forallb is_ascii_digit l = true -> (0 <= decimal l < 10 ^ Z.of_nat (length l))%Z.
Proof.
  induction l as [|c l IH] using rev_ind; [cbn; lia|]. rewrite forallb_app. intros [H1 H2]%andb_true_iff.
  cbn in H2. apply andb_true_iff in H2 as [H2 _]. apply digit_value in H2. specialize (IH H1).
  rewrite decimal_snoc, length_app, Nat2Z.inj_add, Z.pow_add_r by lia. cbn. lia.
Qed.

(** Three digits of a fraction are its milliseconds. *)
Lemma frac_millis d : d <> [] -> forallb is_ascii_digit d = true ->
  (decimal (take (Nat.min (length d) 3) d) * 10 ^ Z.of_nat (3 - Nat.min (length d) 3) =
   decimal d * 1000 / 10 ^ Z.of_nat (length d))%Z.
Proof.
  intros Hd Hall. destruct (Nat.le_gt_cases (length d) 3) as [Hl|Hl].
  - rewrite Nat.min_l, take_ge by lia. assert (1000 = 10 ^ Z.of_nat (3 - length d) * 10 ^ Z.of_nat (length d))%Z as E.
    { rewrite <-Z.pow_add_r by lia. by replace (Z.of_nat (3 - length d) + Z.of_nat (length d))%Z with 3%Z by lia. }
    rewrite E, Z.mul_assoc, Z.div_mul by lia. done.
  - rewrite Nat.min_r by lia. cbn [Nat.sub Z.of_nat]. rewrite <-(take_drop 3 d) at 2 3. set (a := take 3 d). set (b := drop 3 d).
    assert (length a = 3) as Ha by (subst a; rewrite length_take; lia).
    assert (forallb is_ascii_digit b = true) as Hb.
    { apply forallb_elem. intros c Hc. apply (proj1 (forallb_elem _ _) Hall). rewrite <-(take_drop 3 d). apply elem_of_app. by right. }
    pose proof (decimal_bound b Hb). rewrite decimal_app, length_app, Ha, Nat2Z.inj_add, Z.pow_add_r by lia.
    change (10 ^ Z.of_nat 3)%Z with 1000%Z. set (p := (10 ^ Z.of_nat (length b))%Z) in *.
    rewrite (Z.mul_comm 1000 p), Z.div_mul_cancel_r, Z.div_add_l, Z.div_small by lia. lia.
Qed.

Lemma within_spec lo hi v : within lo hi v = true <-> (lo <= v <= hi)%Z.
Proof. unfold within. lia. Qed.

Lemma length_2 {A} (l : list A) : length l = 2 -> exists a b, l = [a; b].
Proof. destruct l as [|a [|b [|]]]; cbn; try lia. by eexists _, _. Qed.
Lemma length_4 {A} (l : list A) : length l = 4 -> exists a b c d, l = [a; b; c; d].
Proof. destruct l as [|a [|b [|c [|d [|]]]]]; cbn; try lia. by eexists _, _, _, _. Qed.

Lemma bail_if_passed {E} b (e : E) u : bail_if b e = Ok u -> b = false.
Proof. by destruct b. Qed.

(** Case analysis of [let?] and [bail_if] steps that succeeded. *)
Ltac ok_steps :=
  repeat match goal with
  | H : (let? _ := ?e in _) = Ok _ |- _ => let E := fresh "E" in destruct e eqn:E; [|discriminate H]
  | H : bail_if ?b _ = Ok _ |- _ => apply bail_if_passed in H
  | H : digits _ = Ok _ |- _ => apply digits_Ok in H as [_ H]
  | H : (_ || _) = false |- _ => apply orb_false_iff in H as []
  | H : negb _ = false |- _ => apply negb_false_iff in H
  | H : within _ _ _ = true |- _ => apply within_spec in H
  | H : at_is _ _ _ = true |- _ => unfold at_is in H; cbn in H; apply N.eqb_eq in H; subst
  end.

Lemma parse_offset c h m hh mm : c = c_plus \/ c = c_dash -> num 2 h hh -> num 2 m mm -> (hh <= 23)%Z -> (mm <= 59)%Z ->
  parse_zone (c :: h ++ c_colon :: m) = Ok ((if N.eqb c c_plus then 1 else -1) * (hh * 3600 + mm * 60) * 1000)%Z.
Proof.
  intros Hc Hh Hm Bh Bm. destruct (length_2 _ (proj1 Hh)) as (x & y & ->), (length_2 _ (proj1 Hm)) as (z & w & ->).
  transitivity (let? oh := digits [x; y] in let? om := digits [z; w] in
    let? _ := bail_if ((23 <? oh) || (59 <? om))%Z InvalidTimeBound in
    Ok ((if N.eqb c c_plus then 1 else -1) * (oh * 3600 + om * 60) * 1000)%Z).
  { destruct Hc as [-> | ->]; reflexivity. }
  by rewrite (digits_num 2 _ _ ltac:(lia) Hh), (digits_num 2 _ _ ltac:(lia) Hm), (proj2 (bail_if_Ok _ _)) by lia.
Qed.

Lemma parse_zone_Ok z off : parse_zone z = Ok off <-> zone_text z off.
Proof.
  split.
  - unfold parse_zone. destruct (is_empty z || str_eqb z (str "Z") || str_eqb z (str "z")) eqn:E1.
    { intros [= <-]. apply orb_true_iff in E1 as [[E1|E1]%orb_true_iff|E1].
      - apply is_empty_nil in E1 as ->. constructor.
      - apply str_eqb_eq in E1 as ->. change (str "Z") with [90%N]. constructor. vm_compute. left.
      - apply str_eqb_eq in E1 as ->. change (str "z") with [122%N]. constructor. vm_compute. right. left. }
    destruct ((length z =? 6) && (at_is z 0 c_plus || at_is z 0 c_dash) && at_is z 3 c_colon) eqn:E2; [|done].
    apply andb_true_iff in E2 as [[El Es]%andb_true_iff Ec]. apply Nat.eqb_eq in El.
    destruct z as [|a [|b [|c [|d [|e [|f [|]]]]]]]; try discriminate El. cbn [slice drop take Nat.sub].
    intros H. ok_steps. cbn [skipn firstn slice drop take Nat.sub length] in *.
    assert (a0 <= 23 /\ a1 <= 59)%Z as [] by lia.
    unfold at_is in Es, H; cbn in Es, H. destruct (N.eqb_spec a c_plus) as [->|Hp]; injection H as <-.
    + replace (1 * (a0 * 3600 + a1 * 60) * 1000)%Z with ((a0 * 60 + a1) * 60000)%Z by lia. by apply (zone_east [b; c] a0 [e; f] a1).
    + apply N.eqb_eq in Es as ->.
      replace (-1 * (a0 * 3600 + a1 * 60) * 1000)%Z with (- ((a0 * 60 + a1) * 60000))%Z by lia.
      by apply (zone_west [b; c] a0 [e; f] a1).
  - intros H. destruct H as [|c Hc|h hh m mm Hh Hm Bh Bm|h hh m mm Hh Hm Bh Bm]; [done| | |].
    + change (str "Zz") with [90%N; 122%N] in Hc. apply elem_of_cons in Hc as [->|Hc]; [reflexivity|].
      apply list_elem_of_singleton in Hc as ->. reflexivity.
    + rewrite (parse_offset c_plus h m hh mm) by (done || by left). f_equal. cbn. lia.
    + rewrite (parse_offset c_dash h m hh mm) by (done || by right). f_equal. cbn. lia.
Qed.

Lemma zone_head c z off : zone_text (c :: z) off -> is_ascii_digit c = false /\ c <> c_dot.
Proof.
  intros H. inversion H as [|c0 Hc| |]; subst; [|by split..]. change (str "Zz") with [90%N; 122%N] in Hc.
  apply elem_of_cons in Hc as [->|Hc]; [by split|]. apply list_elem_of_singleton in Hc as ->. by split.
Qed.

Lemma parse_fraction_sound tail fr : parse_fraction tail = Ok fr -> exists f, tail = f ++ fr.2 /\ frac_text f fr.1.
Proof.
  unfold parse_fraction. destruct (strip_prefix [c_dot] tail) as [frac|] eqn:E.
  2: { intros [= <-]. exists []. split; [done|constructor]. }
  apply strip_prefix_spec in E as ->. cbn [app]. set (n := default _ _). intros H. ok_steps. injection H as <-. cbn [fst snd].
  assert (n <= length frac /\ forallb is_ascii_digit (take n frac) = true) as [Hn Hd].
  { subst n. destruct (find_index _ frac) as [i|] eqn:Ei; cbn.
    - apply find_index_Some in Ei as (c & Hc & _ & Hi). apply lookup_lt_Some in Hc. split; [lia|].
      apply forallb_elem. intros x Hx. apply list_elem_of_lookup in Hx as (j & Hj). apply lookup_take_Some in Hj as [Hj Hlt].
      by apply negb_false_iff, (Hi j).
    - split; [done|]. rewrite take_ge by done. apply forallb_elem. intros x Hx.
      by apply negb_false_iff, (find_index_None _ _ Ei). }
  exists (c_dot :: take n frac). split; [cbn; by rewrite take_drop|].
  assert (length (take n frac) = n) as Hlen by (rewrite length_take; lia).
  apply Nat.eqb_neq in E. assert (take n frac <> []) as Hne by (intros Hx; rewrite Hx in Hlen; cbn in Hlen; lia).
  pose proof (frac_millis (take n frac) Hne Hd) as Hm. rewrite Hlen, take_take in Hm.
  replace (Nat.min (Nat.min n 3) n) with (Nat.min n 3) in Hm by lia. rewrite Hm.
  pose proof (frac_digits (take n frac) Hne Hd) as Hf. by rewrite Hlen in Hf.
Qed.

Lemma parse_fraction_complete f ms z off : frac_text f ms -> zone_text z off -> parse_fraction (f ++ z) = Ok (ms, z).
Proof.
  intros Hf Hz. unfold parse_fraction. destruct Hf as [|d Hd Hall].
  - destruct z as [|c z]; [done|]. cbn [app]. destruct (strip_prefix [c_dot] (c :: z)) eqn:E; [|done].
    apply strip_prefix_spec in E as [= -> _]. by destruct (zone_head _ _ _ Hz).
  - cbn [app]. change (c_dot :: d ++ z) with ([c_dot] ++ d ++ z). rewrite strip_prefix_app.
    assert (default (length (d ++ z)) (find_index (fun c => negb (is_ascii_digit c)) (d ++ z)) = length d) as ->.
    { assert (forall x, x ∈ d -> negb (is_ascii_digit x) = false) as Hn.
      { intros x Hx. by rewrite (proj1 (forallb_elem _ _) Hall x Hx). }
      destruct z as [|c z].
      - rewrite app_nil_r. destruct (find_index _ d) as [i|] eqn:Ei; [|done].
        apply find_index_Some in Ei as (c & Hc & Hx & _). apply list_elem_of_lookup_2 in Hc. by rewrite (Hn c Hc) in Hx.
      - rewrite find_index_app; [done|done|]. by rewrite (proj1 (zone_head _ _ _ Hz)). }
    destruct (length d) as [|n] eqn:El; [by destruct d|]. rewrite <-El. cbn [bail_if]. rewrite El at 1. cbn [bail_if Nat.eqb].
    assert (take (Nat.min (length d) 3) (d ++ z) = take (Nat.min (length d) 3) d) as ->.
    { rewrite take_app_le; [done|lia]. }
    rewrite frac_millis by done. cbn [app drop Nat.add skipn]. by rewrite drop_app_exact.
Qed.

Lemma sep_spec c : (c =? 84)%N || (c =? 116)%N || (c =? c_space)%N = true <-> c ∈ str "Tt ".
Proof.
  change (str "Tt ") with [84%N; 116%N; c_space]. rewrite !orb_true_iff, !N.eqb_eq, !elem_of_cons, elem_of_nil. naive_solver.
Qed.

Lemma parse_clock_Ok rest t : rest <> [] -> parse_clock rest = Ok t <-> clock_text rest t.
Proof.
  intros Hne. split.
  - destruct rest as [|sep tx]; [done|]. unfold parse_clock.
    destruct ((sep =? 84)%N || (sep =? 116)%N || (sep =? c_space)%N) eqn:Es; [|done]. apply sep_spec in Es. cbn [ok_or].
    destruct (length tx <? 8) eqn:El; [done|]. apply Nat.ltb_ge in El.
    destruct tx as [|h1 [|h2 [|c1 [|m1 [|m2 [|c2 [|s1 [|s2 tail]]]]]]]]; cbn in El; try lia.
    cbv [slice]. cbn [drop take Nat.sub skipn firstn]. intros H. ok_steps. injection H as <-.
    change (drop 0 tail) with tail in *. change (take 0 tail) with (@nil rchar) in *. cbn [length] in *.
    match goal with H : parse_fraction _ = Ok ?p |- _ => destruct p as [ms z]; apply parse_fraction_sound in H as (f & -> & Hf) end.
    match goal with H : parse_zone _ = Ok _ |- _ => apply parse_zone_Ok in H end. cbn [fst snd] in *.
    eapply (clock_time sep [h1; h2] _ [m1; m2] _ [s1; s2] _ f ms z); try done; lia.
  - intros H. destruct H as [|sep h hh m mm s ss f ms z off Hsep Hh Hm Hs Bh Bm Bs Hf Hz]; [done|].
    destruct (length_2 _ (proj1 Hh)) as (h1 & h2 & ->), (length_2 _ (proj1 Hm)) as (m1 & m2 & ->), (length_2 _ (proj1 Hs)) as (s1 & s2 & ->).
    unfold parse_clock. cbn [app]. rewrite (proj2 (sep_spec sep) Hsep). cbv [slice]. cbn [ok_or length Nat.ltb Nat.leb orb at_is lookup list_lookup drop take Nat.sub skipn firstn].
    rewrite !N.eqb_refl. cbn [negb orb bail_if].
    change (take 0 (f ++ z)) with (@nil rchar). change (drop 0 (f ++ z)) with (f ++ z).
    rewrite (digits_num 2 _ _ ltac:(lia) Hh), (digits_num 2 _ _ ltac:(lia) Hm), (digits_num 2 _ _ ltac:(lia) Hs),
      (proj2 (bail_if_Ok _ _)) by lia. rewrite (parse_fraction_complete f ms z off) by done. cbn [fst snd].
    by rewrite (proj2 (parse_zone_Ok z off)).
Qed.

(** The parser of time bounds accepts just the texts of the grammar, around
    which white space may stand, and returns the instant they denote: the days
    counted year by year and month by month, the time of day, the fraction
    rounded down to the millisecond, less the stated offset. *)
Theorem parse_time_bound_spec (input : rstr) (ms : Z) :
  parse_time_bound input = Ok ms <-> bound_text (trim input) ms.
Proof.
  unfold parse_time_bound. generalize (trim input) as s. intros s. split.
  - unfold parse_date. destruct (length s <? 10) eqn:El; [done|]. apply Nat.ltb_ge in El.
    destruct s as [|y1 [|y2 [|y3 [|y4 [|c1 [|m1 [|m2 [|c2 [|d1 [|d2 rest]]]]]]]]]]; cbn in El; try lia.
    cbv [slice]. cbn [drop take Nat.sub skipn firstn orb]. intros H. ok_steps. injection E as <-. cbn [fst snd] in *.
    change (drop 0 rest) with rest in *. change (take 0 rest) with (@nil rchar) in *. cbn [length] in *.
    assert (0 <= a1)%Z as Hy by (destruct E1 as (_ & Hd & ->); apply decimal_bound in Hd; lia).
    rewrite days_from_civil_counts in H by done.
    assert (exists t, clock_text rest t /\ ms = (day_number a1 a2 a3 * 86400000 + t)%Z) as (t & Ht & ->).
    { destruct (is_empty rest) eqn:Er.
      - apply is_empty_nil in Er as ->. injection H as <-. exists 0%Z. split; [constructor|lia].
      - ok_steps. injection H as <-. eexists. split; [|done]. apply parse_clock_Ok; [intros ->; done|done]. }
    by apply (bound_at [y1; y2; y3; y4] a1 [m1; m2] a2 [d1; d2] a3).
  - intros [y yy m mm d dd c t Hy Hm Hd Bm Bd Hc].
    assert (0 <= yy)%Z as Hyy by (destruct Hy as (_ & Hyd & ->); apply decimal_bound in Hyd; lia).
    destruct (length_4 _ (proj1 Hy)) as (y1 & y2 & y3 & y4 & ->), (length_2 _ (proj1 Hm)) as (m1 & m2 & ->),
      (length_2 _ (proj1 Hd)) as (d1 & d2 & ->).
    unfold parse_date. cbv [slice]. cbn [app length Nat.ltb Nat.leb orb at_is lookup list_lookup drop take Nat.sub skipn firstn].
    rewrite !N.eqb_refl. cbn [negb orb bail_if]. change (take 0 c) with (@nil rchar). change (drop 0 c) with c.
    rewrite (digits_num 4 _ _ ltac:(lia) Hy), (digits_num 2 _ _ ltac:(lia) Hm), (digits_num 2 _ _ ltac:(lia) Hd).
    rewrite !(proj2 (within_spec _ _ _)) by done. cbn [negb bail_if fst snd]. rewrite days_from_civil_counts by done.
    destruct (is_empty c) eqn:Ec.
    + apply is_empty_nil in Ec as ->. inversion Hc. f_equal. lia.
    + assert (c <> []) as Hne by (intros ->; done). by rewrite (proj2 (parse_clock_Ok c t Hne) Hc).
Qed.
