(* ===== verification/Turn.v ===== *)
(** * Turn: one turn of a session ([run_turn], [drive_turn], [prompt_text] of [rpc.rs])

    From the prompt to the stored timeline, on the database of [SessionStore]
    and the ledgers of [Memory]: the user's message first, then the events of
    the backend collected to a boundary, then one row per artifact.  Who may
    start a turn and what ends it from outside is in [TurnGate]. *)

From S2P Require Import Prelude Str Json Rows PlanStore Fts SessionStore SessionFacts ChatText Memory.

(** ** Data *)

Record Usage := { us_cost : option f64; us_window : option Z; us_used : option Z }.

(** What the collector reads of a [StreamEventKind]; a tool call and a task
    list by their JSON form. *)
Inductive EventKind :=
| PermissionRequested (is_plan : bool) (id name : rstr) (input : option json)
| AssistantMessage (text : rstr)
| Reasoning (text : rstr)
| ToolCall (call_id : rstr) (call : json)
| Todo (items : json)
| Compaction (summary : rstr)
| TurnCompleted (usage : option Usage)
| TurnFailed (error : rstr) (code : option rstr)
| TurnCanceled (reason : rstr)
| OtherEvent.

Record StreamEvent := { se_turn : option rstr; se_kind : EventKind }.

(** A receive of the event channel; with an event come the fresh id and the
    time a plan row would get. *)
Inductive received :=
| RecvEvent (ev : StreamEvent) (uuid : rstr) (at_ms : Z)
| RecvLagged
| RecvClosed.

Inductive StopReason := StopCompleted | StopFailed | StopCanceled | StopClosed | StopTimeout.

(** What ends the wait for events from outside. *)
Inductive interruption := TimedOut | Disconnected.

Record turn_acc := {
  ac_assistant : rstr; ac_reasoning : rstr; ac_tools : gmap rstr json; ac_todo : option json;
  ac_compactions : list rstr; ac_failure : option rstr; ac_usage : option Usage; ac_stop : StopReason
}.

Definition empty_acc : turn_acc := {|
  ac_assistant := []; ac_reasoning := []; ac_tools := ∅; ac_todo := None; ac_compactions := [];
  ac_failure := None; ac_usage := None; ac_stop := StopCompleted |}.

Definition say (text : rstr) (a : turn_acc) : turn_acc := {|
  ac_assistant := ac_assistant a ++ text; ac_reasoning := ac_reasoning a; ac_tools := ac_tools a; ac_todo := ac_todo a;
  ac_compactions := ac_compactions a; ac_failure := ac_failure a; ac_usage := ac_usage a; ac_stop := ac_stop a |}.
Definition think (text : rstr) (a : turn_acc) : turn_acc := {|
  ac_assistant := ac_assistant a; ac_reasoning := ac_reasoning a ++ text; ac_tools := ac_tools a; ac_todo := ac_todo a;
  ac_compactions := ac_compactions a; ac_failure := ac_failure a; ac_usage := ac_usage a; ac_stop := ac_stop a |}.
Definition use_tool (id : rstr) (call : json) (a : turn_acc) : turn_acc := {|
  ac_assistant := ac_assistant a; ac_reasoning := ac_reasoning a; ac_tools := <[id := call]> (ac_tools a);
  ac_todo := ac_todo a; ac_compactions := ac_compactions a; ac_failure := ac_failure a; ac_usage := ac_usage a;
  ac_stop := ac_stop a |}.
Definition set_todo (items : json) (a : turn_acc) : turn_acc := {|
  ac_assistant := ac_assistant a; ac_reasoning := ac_reasoning a; ac_tools := ac_tools a; ac_todo := Some items;
  ac_compactions := ac_compactions a; ac_failure := ac_failure a; ac_usage := ac_usage a; ac_stop := ac_stop a |}.
Definition compact (summary : rstr) (a : turn_acc) : turn_acc := {|
  ac_assistant := ac_assistant a; ac_reasoning := ac_reasoning a; ac_tools := ac_tools a; ac_todo := ac_todo a;
  ac_compactions := ac_compactions a ++ [summary]; ac_failure := ac_failure a; ac_usage := ac_usage a;
  ac_stop := ac_stop a |}.
Definition set_usage (u : option Usage) (a : turn_acc) : turn_acc := {|
  ac_assistant := ac_assistant a; ac_reasoning := ac_reasoning a; ac_tools := ac_tools a; ac_todo := ac_todo a;
  ac_compactions := ac_compactions a; ac_failure := ac_failure a; ac_usage := u; ac_stop := ac_stop a |}.
Definition set_failure (e : rstr) (a : turn_acc) : turn_acc := {|
  ac_assistant := ac_assistant a; ac_reasoning := ac_reasoning a; ac_tools := ac_tools a; ac_todo := ac_todo a;
  ac_compactions := ac_compactions a; ac_failure := Some e; ac_usage := ac_usage a; ac_stop := StopFailed |}.
Definition set_stop (r : StopReason) (a : turn_acc) : turn_acc := {|
  ac_assistant := ac_assistant a; ac_reasoning := ac_reasoning a; ac_tools := ac_tools a; ac_todo := ac_todo a;
  ac_compactions := ac_compactions a; ac_failure := ac_failure a; ac_usage := ac_usage a; ac_stop := r |}.

Section Turn.
Context `{JT : JsonText}.
Variable plan_content_hash : rstr -> rstr.
(** The order in which a hash map lists its values. *)
Variable tool_order : gmap rstr json -> list json.
(** The session, and the clock while rows are stored. *)
Variables (session now : rstr) (ts now_ms : Z).

(** ** Collecting events *)

(** One receive; a result ends the loop. *)
Definition collect_one (s : list PlanRow * turn_acc) (r : received)
    : (list PlanRow * turn_acc) * option (result unit rstr) :=
  let '(plans, a) := s in
  match r with
  | RecvLagged => (s, None)
  | RecvClosed => ((plans, set_stop StopClosed a), Some (Ok tt))
  | RecvEvent ev uuid at_ms =>
      match se_kind ev with
      | PermissionRequested true id name input =>
          let plan := default [] (match input with Some i => as_str i.["plan"] | None => None end) in
          (((record_plan plan_content_hash uuid at_ms plans session id name plan (negb (is_empty (trim plan)))).1, a), None)
      | PermissionRequested false _ _ _ => (s, None)
      | AssistantMessage text => ((plans, say text a), None)
      | Reasoning text => ((plans, think text a), None)
      | ToolCall id call => ((plans, use_tool id call a), None)
      | Todo items => ((plans, set_todo items a), None)
      | Compaction summary => ((plans, compact summary a), None)
      | TurnCompleted u => ((plans, set_usage u a), Some (Ok tt))
      | TurnFailed e _ => ((plans, set_failure e a), Some (Err e))
      | TurnCanceled _ => ((plans, set_stop StopCanceled a), Some (Ok tt))
      | OtherEvent => (s, None)
      end
  end.

(** The loop; [None] when it still waits for events. *)
Fixpoint collect (s : list PlanRow * turn_acc) (rs : list received) : (list PlanRow * turn_acc) * option (result unit rstr) :=
  match rs with
  | [] => (s, None)
  | r :: rs => match collect_one s r with
               | (s', None) => collect s' rs
               | done => done
               end
  end.

(** ** Storing the timeline *)

Definition content_json (text : rstr) : json := JObj [(str "content", JStr text)].

Definition opt_row (role : string) (text : rstr) : list (rstr * json) :=
  if is_empty text then [] else [(str role, content_json text)].

(** The rows of a turn, in the order they are stored. *)
Definition artifact_rows (a : turn_acc) : list (rstr * json) :=
  opt_row "assistant" (ac_assistant a) ++ opt_row "reasoning" (ac_reasoning a) ++
  map (fun call => (str "tool", call)) (tool_order (ac_tools a)) ++
  match ac_todo a with Some items => [(str "todo", JObj [(str "items", items)])] | None => [] end ++
  map (fun s => (str "compaction", content_json s)) (ac_compactions a) ++
  match ac_failure a with Some e => [(str "error", content_json e)] | None => [] end.

(** A failing append is ignored. *)
Definition store_row (db : Db) (row : rstr * json) : Db :=
  match append now ts session row.1 row.2 db with Ok (db', _) => db' | Err _ => db end.

Definition drive_turn (handle : option (rstr * rstr)) (db : Db) (rs : list received) (stop : option interruption)
    : option (Db * result (StopReason * option Usage) rstr) :=
  let '((plans, a), ended) := collect (db_plans db, empty_acc) rs in
  let db := with_plans plans db in
  let finish (a : turn_acc) (outcome : result unit rstr) :=
    let db1 := fold_left store_row (artifact_rows a) db in
    let db2 := match ac_usage a with
               | Some u => record_usage now session [] (default 0%Z (us_used u)) (default 0%Z (us_window u))
                             (default f64_zero (us_cost u)) db1
               | None => db1
               end in
    let db3 := touch now session db2 in
    let db4 := with_plans (expire_open_plans now_ms (db_plans db3) session).1 db3 in
    let db5 := match handle with Some (provider, native) => set_agent_session session provider native db4 | None => db4 end in
    Some (db5, let? _ := outcome in Ok (ac_stop a, ac_usage a)) in
  match ended, stop with
  | Some outcome, _ => finish a outcome
  | None, Some TimedOut => finish (set_stop StopTimeout a) (Ok tt)
  | None, Some Disconnected => finish (set_stop StopCanceled a) (Ok tt)
  | None, None => None
  end.

(** ** Starting *)

Definition prompt_text (prompt : PromptInput) : rstr :=
  match prompt with
  | PText t => t
  | PBlocks blocks => join [c_nl] (omap (fun b => match b with PBText text => Some text | PBImage _ _ => None end) blocks)
  end.

Inductive TurnError := PromptRequired | StoreFailed (e : db_error) | StartFailed (e : rstr) | DroppedBeforeStart | TurnFailedWith (e : rstr).

(** The user's message and the prompt the backend gets. *)
Definition prepare_turn (cfg : MemoryConfig) (mem : MemTable) (memory_owner persona : option rstr) (prompt : PromptInput)
    (db : Db) : result (Db * PromptInput) TurnError :=
  let user_text := prompt_text prompt in
  let? db1 :=
    (if is_empty user_text then Ok db
     else match append now ts session (str "user") (content_json user_text) db with
          | Ok (db', _) => Ok (set_title_if_empty session user_text db')
          | Err e => Err (StoreFailed e)
          end) in
  let prompt := inject_prompt mem cfg memory_owner prompt in
  let prompt := match persona with Some block => prepend_block prompt block | None => prompt end in
  Ok (db1, prompt).

(** How the backend took the prompt. *)
Inductive start_outcome := StartedTurn (turn_id : rstr) | StartRefused (e : rstr) | DroppedWhileStarting.

(** The whole turn, its answer to the caller of a turn that is not detached;
    [None] while it runs. *)
Definition run_turn (cfg : MemoryConfig) (mem : MemTable) (memory_owner persona : option rstr) (prompt : option PromptInput)
    (start : PromptInput -> start_outcome) (handle : option (rstr * rstr)) (rs : list received) (stop : option interruption)
    (db : Db) : option (Db * result (rstr * StopReason * option Usage) TurnError) :=
  match prompt with
  | None => Some (db, Err PromptRequired)
  | Some p =>
      match prepare_turn cfg mem memory_owner persona p db with
      | Err e => Some (db, Err e)
      | Ok (db1, sent) =>
          match start sent with
          | StartRefused e => Some (db1, Err (StartFailed e))
          | DroppedWhileStarting => Some (db1, Err DroppedBeforeStart)
          | StartedTurn turn_id =>
              match drive_turn handle db1 rs stop with
              | None => None
              | Some (db2, Ok (reason, usage)) => Some (db2, Ok (turn_id, reason, usage))
              | Some (db2, Err e) => Some (db2, Err (TurnFailedWith e))
              end
          end
      end
  end.
End Turn.

(** ** What is collected *)

Section TurnFacts.
Context `{JT : JsonText}.
Variable plan_content_hash : rstr -> rstr.
Variable tool_order : gmap rstr json -> list json.
Variables (session now : rstr) (ts now_ms : Z).

Definition is_boundary (k : EventKind) : bool :=
  match k with TurnCompleted _ | TurnFailed _ _ | TurnCanceled _ => true | _ => false end.

(** The events up to the first boundary, or up to the end of the channel. *)
Fixpoint heard (rs : list received) : list EventKind :=
  match rs with
  | [] => []
  | RecvLagged :: rs => heard rs
  | RecvClosed :: _ => []
  | RecvEvent ev _ _ :: rs => if is_boundary (se_kind ev) then [se_kind ev] else se_kind ev :: heard rs
  end.

Definition assistant_of (k : EventKind) : option rstr := match k with AssistantMessage t => Some t | _ => None end.
Definition reasoning_of (k : EventKind) : option rstr := match k with Reasoning t => Some t | _ => None end.
Definition call_of (id : rstr) (k : EventKind) : option json :=
  match k with ToolCall i c => if bool_decide (i = id) then Some c else None | _ => None end.
Definition todo_of (k : EventKind) : option json := match k with Todo i => Some i | _ => None end.
Definition compaction_of (k : EventKind) : option rstr := match k with Compaction s => Some s | _ => None end.
Definition failure_of (k : EventKind) : option rstr := match k with TurnFailed e _ => Some e | _ => None end.
Definition usage_of (k : EventKind) : option (option Usage) := match k with TurnCompleted u => Some u | _ => None end.

(** The last of a list, or the value from before. *)
Definition latest {A} (x : option A) (l : list A) : option A := match last l with Some y => Some y | None => x end.

Lemma latest_cons {A} (x : option A) y l : latest x (y :: l) = latest (Some y) l.
Proof. unfold latest. destruct l as [|z l]; [done|]. change (last (y :: z :: l)) with (last (z :: l)). by destruct (last (z :: l)) eqn:E; [|apply last_None in E]. Qed.

Lemma collect_general rs plans a :
  let '((_, a'), ended) := collect plan_content_hash session (plans, a) rs in
  let hs := heard rs in
  ac_assistant a' = ac_assistant a ++ concat (omap assistant_of hs) /\
  ac_reasoning a' = ac_reasoning a ++ concat (omap reasoning_of hs) /\
  (forall id, ac_tools a' !! id = latest (ac_tools a !! id) (omap (call_of id) hs)) /\
  ac_todo a' = latest (ac_todo a) (omap todo_of hs) /\
  ac_compactions a' = ac_compactions a ++ omap compaction_of hs /\
  ac_failure a' = latest (ac_failure a) (omap failure_of hs) /\
  ac_usage a' = default (ac_usage a) (last (omap usage_of hs)) /\
  (forall e, ended = Some (Err e) -> omap failure_of hs = [e]) /\
  (ended = Some (Ok tt) \/ ended = None -> omap failure_of hs = []).
Proof.
  revert plans a. induction rs as [|r rs IH]; intros plans a.
  { cbn. rewrite !app_nil_r. by repeat split. }
  destruct r as [ev uuid at_ms| |]; cbn [collect collect_one heard]; [|apply IH|cbn; rewrite !app_nil_r; by repeat split].
  destruct ev as [turn k]; cbn [se_kind].
  destruct k as [[] id name input|text|text|id call|items|summary|u|e code|reason|]; cbn [is_boundary];
    lazymatch goal with
    | |- context [collect _ _ (?p, ?b) rs] => specialize (IH p b); destruct (collect _ _ (p, b) rs) as [[plans' a'] ended]
    | _ => idtac
    end.
  - exact IH.
  - exact IH.
  - cbn. destruct IH as (H1 & IH). rewrite H1. cbn. by rewrite <-app_assoc.
  - cbn. destruct IH as (H1 & H2 & IH). rewrite H2. cbn. by rewrite <-app_assoc.
  - cbn. destruct IH as (H1 & H2 & H3 & IH). do 2 (split; [done|]). split; [|done]. intros i. rewrite H3. cbn.
    destruct (bool_decide_reflect (id = i)) as [->|Hne]; [by rewrite latest_cons, lookup_insert_eq|by rewrite lookup_insert_ne].
  - cbn. destruct IH as (H1 & H2 & H3 & H4 & IH). rewrite latest_cons. by rewrite H4.
  - cbn. destruct IH as (H1 & H2 & H3 & H4 & H5 & IH). do 4 (split; [done|]). rewrite H5. cbn. by rewrite <-app_assoc.
  - cbn. rewrite !app_nil_r. repeat split; naive_solver.
  - cbn. rewrite !app_nil_r. repeat split; naive_solver.
  - cbn. rewrite !app_nil_r. repeat split; naive_solver.
  - exact IH.
Qed.

(** What a turn collects from its receives. *)
Definition timeline (rs : list received) : turn_acc := (collect plan_content_hash session ([], empty_acc) rs).1.2.

(** The plan rows do not influence the rest. *)
Lemma collect_plans rs plans plans' a :
  (collect plan_content_hash session (plans, a) rs).1.2 = (collect plan_content_hash session (plans', a) rs).1.2 /\
  (collect plan_content_hash session (plans, a) rs).2 = (collect plan_content_hash session (plans', a) rs).2.
Proof.
  revert plans plans' a. induction rs as [|r rs IH]; intros plans plans' a; [done|]. cbn [collect].
  destruct r as [[turn k] uuid at_ms| |]; cbn [collect_one se_kind]; [|apply IH|done].
  destruct k as [[] id name input|text|text|id call|items|summary|u|e code|reason|]; try apply IH; done.
Qed.

(** What the collector makes of the events it receives, lagging included: it
    hears them up to the first boundary; the assistant's and the reasoning texts
    are the pieces in order, a tool call is the last state sent for its id, the
    task list the last one sent, the compactions all of them, the usage that of
    the completed turn; and the turn fails just when its boundary is a failure,
    with that error. *)
Theorem collect_spec (rs : list received) (plans : list PlanRow) :
  let '((_, a), ended) := collect plan_content_hash session (plans, empty_acc) rs in
  let hs := heard rs in
  ac_assistant a = concat (omap assistant_of hs) /\ ac_reasoning a = concat (omap reasoning_of hs) /\
  (forall id, ac_tools a !! id = last (omap (call_of id) hs)) /\
  ac_todo a = last (omap todo_of hs) /\ ac_compactions a = omap compaction_of hs /\
  ac_failure a = last (omap failure_of hs) /\ ac_usage a = default None (last (omap usage_of hs)) /\
  (forall e, ended = Some (Err e) <-> omap failure_of hs = [e]) /\
  (ended = None <-> existsb is_boundary hs = false /\ RecvClosed ∉ rs).
Proof.
  pose proof (collect_general rs plans empty_acc) as H.
  assert ((collect plan_content_hash session (plans, empty_acc) rs).2 = None <-> existsb is_boundary (heard rs) = false /\ RecvClosed ∉ rs) as Hn.
  { clear H. generalize empty_acc as a. revert plans. induction rs as [|r rs IH]; intros plans a.
    { cbn. split; [intros _; split; [done|apply not_elem_of_nil]|done]. }
    rewrite not_elem_of_cons. cbn [collect].
    destruct r as [[turn k] uuid at_ms| |]; cbn [collect_one se_kind heard].
    - destruct k as [[] id name input|text|text|id call|items|summary|u|e code|reason|]; cbn [is_boundary existsb orb snd];
        try rewrite IH; naive_solver.
    - rewrite IH. naive_solver.
    - cbn. naive_solver. }
  destruct (collect plan_content_hash session (plans, empty_acc) rs) as [[plans' a'] ended].
  destruct H as (H1 & H2 & H3 & H4 & H5 & H6 & H7 & H8 & H9). cbn [snd] in Hn.
  assert (forall A (l : list A), latest None l = last l) as Hl by (intros A l; unfold latest; by destruct (last l)).
  cbn [empty_acc ac_assistant ac_reasoning ac_tools ac_todo ac_compactions ac_failure ac_usage app] in *.
  split; [done|]. split; [done|]. split; [intros id; rewrite H3, lookup_empty; apply Hl|]. split; [by rewrite H4, Hl|].
  split; [done|]. split; [by rewrite H6, Hl|]. split; [by rewrite H7|]. split; [|done].
  intros e. split; [apply H8|]. intros He. destruct ended as [[[]|e']|].
  - rewrite (H9 ltac:(by left)) in He. done.
  - specialize (H8 e' eq_refl). congruence.
  - rewrite (H9 ltac:(by right)) in He. done.
Qed.

(** ** What is stored *)

Definition stored (m : MsgRow) : rstr * rstr := (m_role m, m_data m).
Definition render (row : rstr * json) : rstr * rstr := (row.1, to_string row.2).

(** [db'] has further rows of the session, and nothing else of its messages. *)
Record adds (db db' : Db) (rows : list (rstr * json)) : Prop := {
  ad_inv : db_inv db';
  ad_has : forall id, has_session db' id = has_session db id;
  ad_rows : map stored (visible_messages db' session) = map stored (visible_messages db session) ++ map render rows;
  ad_other : forall other, other <> session -> visible_messages db' other = visible_messages db other
}.

Lemma adds_trans db1 db2 db3 r s : adds db1 db2 r -> adds db2 db3 s -> adds db1 db3 (r ++ s).
Proof.
  intros [I1 H1 R1 O1] [I2 H2 R2 O2]. split; [done| | |].
  - intros id. by rewrite H2.
  - by rewrite R2, R1, map_app, app_assoc.
  - intros other Hne. by rewrite O2, O1.
Qed.

Lemma adds_same db db' : db_inv db -> db_inv db' -> db_messages db' = db_messages db ->
  (forall id, has_session db' id = has_session db id) -> adds db db' [].
Proof.
  intros Hi Hi' Hm Hh. assert (forall other, visible_messages db' other = visible_messages db other) as Hv.
  { intros other. by rewrite !visible_messages_filter, Hm. }
  split; [done|done| |by intros; apply Hv]. by rewrite Hv, app_nil_r.
Qed.

Lemma adds_exec db op : db_inv db -> db_messages (exec db op) = db_messages db ->
  (forall id, has_session (exec db op) id = has_session db id) -> adds db (exec db op) [].
Proof. intros Hi. apply adds_same; [done|]. by apply exec_inv. Qed.

Lemma append_adds db db' role data id : db_inv db -> append now ts session role data db = Ok (db', id) ->
  adds db db' [(role, data)] /\ db_plans db' = db_plans db.
Proof.
  intros Hi Ha. pose proof (append_inv _ _ _ _ _ _ _ _ Hi Ha) as Hi'. unfold append in Ha.
  destruct (has_session db session) eqn:Eh; [|done]. cbn in Ha. injection Ha as <- <-. split; [|done]. split; [done| | |].
  - intros x. unfold touch. by rewrite update_has_session.
  - rewrite !visible_messages_filter by done. cbn [touch update_session with_sessions with_messages db_messages].
    rewrite List.filter_app, map_app. cbn [List.filter m_session]. by rewrite str_eqb_refl.
  - intros other Hne. rewrite !visible_messages_filter by done. cbn [touch update_session with_sessions with_messages db_messages].
    rewrite List.filter_app. cbn [List.filter m_session]. assert (str_eqb session other = false) as -> by (by apply str_eqb_neq).
    apply app_nil_r.
Qed.

Lemma store_rows_add rows db : db_inv db -> has_session db session = true ->
  adds db (fold_left (store_row session now ts) rows db) rows /\
  db_plans (fold_left (store_row session now ts) rows db) = db_plans db.
Proof.
  revert db. induction rows as [|[role data] rows IH]; intros db Hi Hs; cbn [fold_left].
  { split; [|done]. by apply adds_same. }
  destruct (append now ts session role data db) as [[db' id]|] eqn:Ea.
  2: { unfold append in Ea. rewrite Hs in Ea. done. }
  assert (store_row session now ts db (role, data) = db') as E by (unfold store_row; cbn; by rewrite Ea). rewrite E.
  destruct (append_adds _ _ _ _ _ Hi Ea) as [Ha Hp]. destruct (IH db' (ad_inv _ _ _ Ha)) as [Hr Hp'].
  { rewrite (ad_has _ _ _ Ha). done. }
  split; [|by rewrite Hp']. apply (adds_trans _ _ _ [(role, data)] rows Ha Hr).
Qed.

Definition user_rows (p : PromptInput) : list (rstr * json) :=
  if is_empty (prompt_text p) then [] else [(str "user", content_json (prompt_text p))].

Lemma prepare_adds cfg mem owner persona p db db' sent : db_inv db ->
  prepare_turn session now ts cfg mem owner persona p db = Ok (db', sent) -> adds db db' (user_rows p).
Proof.
  intros Hi. unfold prepare_turn, user_rows. destruct (is_empty (prompt_text p)) eqn:Ep.
  { intros [= <- _]. by apply adds_same. }
  destruct (append now ts session (str "user") (content_json (prompt_text p)) db) as [[db1 id]|] eqn:Ea; [|done].
  intros [= <- _]. destruct (append_adds _ _ _ _ _ Hi Ea) as [Ha _].
  change [(str "user", content_json (prompt_text p))] with ([(str "user", content_json (prompt_text p))] ++ []).
  apply (adds_trans _ db1); [done|]. apply (adds_exec db1 (SetTitleIfEmpty session (prompt_text p))); [apply Ha|done|].
  intros x. apply eq_true_iff_eq. rewrite !has_session_elem. cbn. by rewrite update_where_keys.
Qed.

Lemma set_agent_adds agent native db : db_inv db -> adds db (set_agent_session session agent native db) [].
Proof.
  intros Hi. apply (adds_exec db (SetAgentSession session agent native)); [done|done|].
  intros x. cbn [exec]. unfold set_agent_session. by rewrite <-(update_has_session session (set_agent agent native) db x).
Qed.

Lemma record_usage_adds model used size cost db : db_inv db -> adds db (record_usage now session model used size cost db) [].
Proof.
  intros Hi. apply (adds_exec db (RecordUsage now session model used size cost)); [done|..]; cbn [exec];
    unfold record_usage; by case_match.
Qed.

Lemma expire_open_none rows r : r ∈ (expire_open_plans now_ms rows session).1 -> p_session r = session -> expirable (p_status r) = false.
Proof.
  unfold expire_open_plans. cbn. intros (r0 & Hr & ->)%update_where_elem.
  destruct (str_eqb (p_session r0) session && expirable (p_status r0)) eqn:E; [done|]. intros Hs.
  by rewrite Hs, str_eqb_refl in E.
Qed.

Lemma artifact_rows_stop r a : artifact_rows tool_order (set_stop r a) = artifact_rows tool_order a.
Proof. done. Qed.

(** The end of a turn, whatever ended it. *)
Lemma drive_turn_adds handle db rs stop db' outcome :
  db_inv db -> has_session db session = true ->
  drive_turn plan_content_hash tool_order session now ts now_ms handle db rs stop = Some (db', outcome) ->
  adds db db' (artifact_rows tool_order (timeline rs)) /\
  (forall r, r ∈ db_plans db' -> p_session r = session -> expirable (p_status r) = false) /\
  match ac_failure (timeline rs) with
  | Some e => outcome = Err e
  | None => exists reason, outcome = Ok (reason, ac_usage (timeline rs))
  end.
Proof.
  intros Hi Hh. unfold drive_turn, timeline.
  pose proof (collect_general rs (db_plans db) empty_acc) as Hc. pose proof (collect_plans rs (db_plans db) [] empty_acc) as [Hp _]. rewrite <-Hp.
  destruct (collect plan_content_hash session (db_plans db, empty_acc) rs) as [[plans a] ended]. cbn [fst snd].
  destruct Hc as (_ & _ & _ & _ & _ & Hf & _ & He & Ho). cbn [empty_acc ac_failure] in Hf.
  assert (forall a0 (out : result unit rstr) db1, artifact_rows tool_order a0 = artifact_rows tool_order a ->
    (let db2 := match ac_usage a0 with
                | Some u => record_usage now session [] (default 0%Z (us_used u)) (default 0%Z (us_window u))
                              (default f64_zero (us_cost u)) (fold_left (store_row session now ts) (artifact_rows tool_order a0) (with_plans plans db))
                | None => fold_left (store_row session now ts) (artifact_rows tool_order a0) (with_plans plans db)
                end in
     let db3 := touch now session db2 in
     let db4 := with_plans (expire_open_plans now_ms (db_plans db3) session).1 db3 in
     let db5 := match handle with Some (provider, native) => set_agent_session session provider native db4 | None => db4 end in
     Some (db5, let? _ := out in Ok (ac_stop a0, ac_usage a0))) = Some (db1, outcome) ->
    adds db db1 (artifact_rows tool_order a) /\
    (forall r, r ∈ db_plans db1 -> p_session r = session -> expirable (p_status r) = false) /\
    outcome = (let? _ := out in Ok (ac_stop a0, ac_usage a0))) as Hfin.
  { intros a0 out db1 Ha. rewrite Ha. cbv zeta. intros [= <- <-].
    pose proof (adds_exec db (Plans plans) Hi eq_refl ltac:(done)) as A0. cbn [exec] in A0.
    destruct (store_rows_add (artifact_rows tool_order a) (with_plans plans db) (ad_inv _ _ _ A0)) as [A1 _]; [done|].
    pose proof (adds_trans _ _ _ _ _ A0 A1) as A. cbn [app] in A. clear A0 A1.
    set (db1 := fold_left _ _ (with_plans plans db)) in *.
    set (db2 := match ac_usage a0 with Some _ => _ | None => db1 end).
    assert (adds db1 db2 []) as A2.
    { subst db2. destruct (ac_usage a0); [apply record_usage_adds|apply adds_same]; by (apply A || done). }
    pose proof (adds_trans _ _ _ _ _ A A2) as A'. rewrite app_nil_r in A'. clear A A2.
    pose proof (adds_exec db2 (Touch now session) (ad_inv _ _ _ A') eq_refl ltac:(intros; by apply update_has_session)) as A3.
    cbn [exec] in A3. pose proof (adds_trans _ _ _ _ _ A' A3) as A. rewrite app_nil_r in A. clear A' A3.
    set (db3 := touch now session db2) in *. set (open := (expire_open_plans now_ms (db_plans db3) session).1).
    pose proof (adds_exec db3 (Plans open) (ad_inv _ _ _ A) eq_refl ltac:(done)) as A4. cbn [exec] in A4.
    pose proof (adds_trans _ _ _ _ _ A A4) as A'. rewrite app_nil_r in A'. clear A A4.
    split; [|split; [|done]].
    - destruct handle as [[provider native]|]; [|done].
      pose proof (adds_trans _ _ _ _ _ A' (set_agent_adds provider native _ (ad_inv _ _ _ A'))) as A. by rewrite app_nil_r in A.
    - intros r Hr. apply (expire_open_none (db_plans db3)). by destruct handle as [[]|]. }
  destruct ended as [out|].
  - intros H. destruct (Hfin a out db' eq_refl H) as (H1 & H2 & ->). split; [done|]. split; [done|].
    destruct out as [[]|e].
    + rewrite Hf, (Ho ltac:(by left)). cbn. by eexists.
    + rewrite Hf, (He e eq_refl). done.
  - assert (omap failure_of (heard rs) = []) as Hno by (apply Ho; by right). rewrite Hf, Hno. cbn [latest last].
    destruct stop as [[]|]; [| |done]; intros H.
    + destruct (Hfin (set_stop StopTimeout a) (Ok tt) db' eq_refl H) as (H1 & H2 & ->). by eauto.
    + destruct (Hfin (set_stop StopCanceled a) (Ok tt) db' eq_refl H) as (H1 & H2 & ->). by eauto.
Qed.

(** The collected timeline, in terms of the events heard. *)
Lemma timeline_heard rs : let hs := heard rs in
  ac_assistant (timeline rs) = concat (omap assistant_of hs) /\ ac_reasoning (timeline rs) = concat (omap reasoning_of hs) /\
  (forall id, ac_tools (timeline rs) !! id = last (omap (call_of id) hs)) /\
  ac_todo (timeline rs) = last (omap todo_of hs) /\ ac_compactions (timeline rs) = omap compaction_of hs /\
  ac_failure (timeline rs) = last (omap failure_of hs) /\ ac_usage (timeline rs) = default None (last (omap usage_of hs)).
Proof.
  unfold timeline. pose proof (collect_general rs [] empty_acc) as H.
  destruct (collect plan_content_hash session ([], empty_acc) rs) as [[plans a] ended].
  destruct H as (H1 & H2 & H3 & H4 & H5 & H6 & H7 & _). cbn [fst snd].
  assert (forall A (l : list A), latest None l = last l) as Hl by (intros A l; unfold latest; by destruct (last l)).
  split; [done|]. split; [done|]. split; [intros id; by rewrite H3, Hl|]. split; [by rewrite H4, Hl|]. split; [done|].
  split; [by rewrite H6, Hl|done].
Qed.

(** C6: the stored timeline of a turn the backend took up, on any reachable
    database, however it ended, in terms of the events heard up to the boundary.
    The session's transcript grows by the user's message, the assistant's and
    the reasoning text when there is one, the last state of each tool call, the
    last task list, the compactions and the failure, in this order; no other
    session's transcript changes; no review of the session stays open; and the
    answer is the failure or the usage. *)
Theorem turn_transcript (ops : list db_op) (cfg : MemoryConfig) (mem : MemTable) (owner persona : option rstr)
    (p : PromptInput) (start : PromptInput -> start_outcome) (turn_id : rstr) (handle : option (rstr * rstr))
    (rs : list received) (stop : option interruption) (db' : Db) (answer : result (rstr * StopReason * option Usage) TurnError) :
  let db := run_ops ops in
  has_session db session = true -> (forall q, start q = StartedTurn turn_id) ->
  run_turn plan_content_hash tool_order session now ts now_ms cfg mem owner persona (Some p) start handle rs stop db = Some (db', answer) ->
  let hs := heard rs in
  let text_row role text := if is_empty text then [] else [(str role, content_json text)] in
  exists tools : gmap rstr json, (forall id, tools !! id = last (omap (call_of id) hs)) /\
  map stored (visible_messages db' session) = map stored (visible_messages db session) ++ map render (
    text_row "user" (prompt_text p) ++
    text_row "assistant" (concat (omap assistant_of hs)) ++ text_row "reasoning" (concat (omap reasoning_of hs)) ++
    map (fun call => (str "tool", call)) (tool_order tools) ++
    match last (omap todo_of hs) with Some items => [(str "todo", JObj [(str "items", items)])] | None => [] end ++
    map (fun s => (str "compaction", content_json s)) (omap compaction_of hs) ++
    match last (omap failure_of hs) with Some e => [(str "error", content_json e)] | None => [] end) /\
  (forall other, other <> session -> visible_messages db' other = visible_messages db other) /\
  (forall r, r ∈ db_plans db' -> p_session r = session -> expirable (p_status r) = false) /\
  match last (omap failure_of hs) with
  | Some e => answer = Err (TurnFailedWith e)
  | None => exists reason, answer = Ok (turn_id, reason, default None (last (omap usage_of hs)))
  end.
Proof.
  cbv zeta. intros Hh Hst Hr. pose proof (run_ops_inv ops) as Hi. set (db := run_ops ops) in *. unfold run_turn in Hr.
  destruct (prepare_turn _ _ _ cfg mem owner persona p db) as [[db1 sent]|e] eqn:Ep.
  2: { unfold prepare_turn, append in Ep. rewrite Hh in Ep. by destruct (is_empty (prompt_text p)). }
  pose proof (prepare_adds _ _ _ _ _ _ _ _ Hi Ep) as A1. rewrite Hst in Hr.
  destruct (drive_turn _ _ _ _ _ _ handle db1 rs stop) as [[db2 out]|] eqn:Ed; [|done].
  assert (db2 = db') as -> by (destruct out as [[? ?]|?]; congruence).
  destruct (drive_turn_adds handle db1 rs stop db' out (ad_inv _ _ _ A1)) as (A2 & Hpl & Hout); [|done|].
  { by rewrite (ad_has _ _ _ A1). }
  pose proof (adds_trans _ _ _ _ _ A1 A2) as [_ _ Hrows Hother].
  destruct (timeline_heard rs) as (T1 & T2 & T3 & T4 & T5 & T6 & T7).
  exists (ac_tools (timeline rs)). split; [done|]. split; [|split; [done|split; [done|]]].
  - rewrite Hrows. unfold artifact_rows, user_rows, opt_row. by rewrite T1, T2, T4, T5, T6.
  - rewrite T6, T7 in Hout. destruct (last (omap failure_of (heard rs))) as [e|]; [subst out; congruence|].
    destruct Hout as [reason ->]. exists reason. congruence.
Qed.

(** A turn the backend took up ends just when its event stream reaches a
    boundary or closes, or its timeout or the loss of its connection interrupts
    it; it runs on only while none of these has happened. *)
Theorem turn_ends (cfg : MemoryConfig) (mem : MemTable) (owner persona : option rstr) (p : PromptInput)
    (start : PromptInput -> start_outcome) (turn_id : rstr) (handle : option (rstr * rstr)) (rs : list received)
    (stop : option interruption) (db : Db) :
  has_session db session = true -> (forall q, start q = StartedTurn turn_id) ->
  run_turn plan_content_hash tool_order session now ts now_ms cfg mem owner persona (Some p) start handle rs stop db = None <->
  stop = None /\ existsb is_boundary (heard rs) = false /\ RecvClosed ∉ rs.
Proof.
  intros Hh Hst. unfold run_turn. destruct (prepare_turn _ _ _ cfg mem owner persona p db) as [[db1 sent]|e] eqn:Ep.
  2: { unfold prepare_turn, append in Ep. rewrite Hh in Ep. by destruct (is_empty (prompt_text p)). }
  rewrite Hst. pose proof (collect_spec rs (db_plans db1)) as Hc. unfold drive_turn.
  destruct (collect plan_content_hash session (db_plans db1, empty_acc) rs) as [[plans a] ended].
  destruct Hc as (_ & _ & _ & _ & _ & _ & _ & _ & Hn). rewrite <-Hn.
  destruct ended as [[[]|e]|]; [by naive_solver|by naive_solver|]. destruct stop as [[]|]; naive_solver.
Qed.
End TurnFacts.

(** ** What the collector does not check *)

(** Events are not matched with the turn: what is left of an interrupted turn
    ends the next one. *)
Theorem stale_boundary_ends_turn `{JsonText} (hash : rstr -> rstr) (session old new : rstr) :
  old <> new ->
  let rs := [RecvEvent {| se_turn := Some old; se_kind := TurnCanceled (str "timeout") |} (str "u") 0;
             RecvEvent {| se_turn := Some new; se_kind := AssistantMessage (str "the answer") |} (str "u") 0;
             RecvEvent {| se_turn := Some new; se_kind := TurnCompleted None |} (str "u") 0] in
  (collect hash session ([], empty_acc) rs).2 = Some (Ok tt) /\
  ac_assistant (timeline hash session rs) = [] /\ ac_stop (timeline hash session rs) = StopCanceled.
Proof. done. Qed.

(** ** Witnesses *)

Definition demo_tools (m : gmap rstr json) : list json := map snd (map_to_list m).

Definition demo_receives : list received :=
  [RecvEvent {| se_turn := None; se_kind := AssistantMessage (str "do") |} (str "u") 0; RecvLagged;
   RecvEvent {| se_turn := None; se_kind := AssistantMessage (str "ne") |} (str "u") 0;
   RecvEvent {| se_turn := None; se_kind := TurnFailed (str "limit") None |} (str "u") 0].

Definition is_some {A} (o : option A) : bool := match o with Some _ => true | None => false end.

Lemma turn_transcript_witness :
  exists db' answer,
    @run_turn demo_message_text (fun c => c) demo_tools (str "a") (str "t2") 5 5 demo_memory no_memories None None
      (Some (PText (str "more"))) (fun _ => StartedTurn (str "turn1")) None demo_receives None (@run_ops demo_message_text demo_ops)
      = Some (db', answer) /\
    map stored (visible_messages db' (str "a")) =
      [(str "user", str "hello"); (str "assistant", str "bye"); (str "user", str "more"); (str "assistant", str "done");
       (str "error", str "limit")].
Proof.
  assert (has_session (@run_ops demo_message_text demo_ops) (str "a") = true) as Hs by (vm_compute; reflexivity).
  pose proof (@turn_transcript demo_message_text (fun c => c) demo_tools (str "a") (str "t2") 5 5 demo_ops demo_memory no_memories
    None None (PText (str "more")) (fun _ => StartedTurn (str "turn1")) (str "turn1") None demo_receives None) as H. cbv zeta in H.
  assert (is_some (@run_turn demo_message_text (fun c => c) demo_tools (str "a") (str "t2") 5 5 demo_memory no_memories None None
      (Some (PText (str "more"))) (fun _ => StartedTurn (str "turn1")) None demo_receives None (@run_ops demo_message_text demo_ops))
    = true) as Hsome by (vm_compute; reflexivity).
  destruct (@run_turn demo_message_text _ _ _ _ _ _ _ _ _ _ _ _ _ _ _ _) as [[db' answer]|].
  - exists db', answer. split; [done|]. destruct (H db' answer Hs (fun _ => eq_refl) eq_refl) as (tools & Ht & E & _). rewrite E.
    assert (tools = ∅) as -> by (apply map_eq; intros id; by rewrite Ht). vm_compute. reflexivity.
  - discriminate Hsome.
Defined.

Lemma turn_ends_witness :
  @run_turn demo_message_text (fun c => c) demo_tools (str "a") (str "t2") 5 5 demo_memory no_memories None None
    (Some (PText (str "more"))) (fun _ => StartedTurn (str "turn1")) None [RecvLagged] None (@run_ops demo_message_text demo_ops) = None.
Proof.
  apply (@turn_ends demo_message_text (fun c => c) demo_tools (str "a") (str "t2") 5 5 demo_memory no_memories None None
    (PText (str "more")) (fun _ => StartedTurn (str "turn1")) (str "turn1") None [RecvLagged] None).
  - vm_compute. reflexivity.
  - done.
  - split; [done|]. split; [done|]. intros H%list_elem_of_singleton. discriminate H.
Defined.
