(* ===== verification/TurnGate.v ===== *)
(** * TurnGate: who may run a turn and what ends it from outside ([turn.start],
    [BusyGuard], [scopeguard], the end of a connection in [rpc.rs])

    Turns of many connections as a step relation: the claim of a session's
    [busy] flag, the registration of the disconnect token, the slots shared by
    all turns, the guards that run when a turn ends, the removal they spawn and
    the two halves of a disconnect interleave freely.  A session is one live
    managed session, under one id. *)

From S2P Require Import Prelude Str.

(** ** State *)

(** Where a turn is: the flag claimed; the token registered; a slot held; the
    ownership guard armed; the backend's turn running. *)
Inductive phase := Claimed | Registered | Slotted | Armed | Running | Ended.

#[export] Instance phase_eq_dec : EqDecision phase.
Proof. solve_decision. Defined.

Record turn := { tn_conn : nat; tn_session : rstr; tn_detach : bool; tn_phase : phase }.

Definition at_phase (p : phase) (t : turn) : turn :=
  {| tn_conn := tn_conn t; tn_session := tn_session t; tn_detach := tn_detach t; tn_phase := p |}.

(** A turn is known by its index; [g_owned] holds the tokens by connection and
    session, [g_removals] the spawned tasks that have not run yet. *)
Record gate := {
  g_busy : gset rstr; g_turns : list turn; g_owned : gmap (nat * rstr) nat; g_closed : gset nat;
  g_cancelled : gset nat; g_removals : list (nat * rstr)
}.

Definition idle_gate : gate :=
  {| g_busy := ∅; g_turns := []; g_owned := ∅; g_closed := ∅; g_cancelled := ∅; g_removals := [] |}.

Definition PROMPT_SLOTS : nat := 64.

Definition holds_slot (t : turn) : bool := match tn_phase t with Slotted | Armed | Running => true | _ => false end.

(** ** Operations *)

Definition set_turn (i : nat) (t : turn) (g : gate) : gate :=
  {| g_busy := g_busy g; g_turns := <[i := t]> (g_turns g); g_owned := g_owned g; g_closed := g_closed g;
     g_cancelled := g_cancelled g; g_removals := g_removals g |}.

(** [busy.swap(true)]: [None] when the flag was up. *)
Definition claim (conn : nat) (session : rstr) (detach : bool) (g : gate) : option gate :=
  if bool_decide (session ∈ g_busy g) then None
  else Some {| g_busy := {[session]} ∪ g_busy g;
               g_turns := g_turns g ++ [{| tn_conn := conn; tn_session := session; tn_detach := detach; tn_phase := Claimed |}];
               g_owned := g_owned g; g_closed := g_closed g; g_cancelled := g_cancelled g; g_removals := g_removals g |}.

(** Under the lock of the map: the token goes in, and is cancelled when the
    connection is already closed. *)
Definition register (i : nat) (t : turn) (g : gate) : gate :=
  if tn_detach t then set_turn i (at_phase Registered t) g
  else {| g_busy := g_busy g; g_turns := <[i := at_phase Registered t]> (g_turns g);
          g_owned := <[(tn_conn t, tn_session t) := i]> (g_owned g); g_closed := g_closed g;
          g_cancelled := if bool_decide (tn_conn t ∈ g_closed g) then {[i]} ∪ g_cancelled g else g_cancelled g;
          g_removals := g_removals g |}.

(** The guards at the end of a turn: the armed ownership guard spawns its
    removal, the slot and the flag are given back. *)
Definition finish (i : nat) (t : turn) (g : gate) : gate :=
  {| g_busy := g_busy g ∖ {[tn_session t]}; g_turns := <[i := at_phase Ended t]> (g_turns g); g_owned := g_owned g;
     g_closed := g_closed g; g_cancelled := g_cancelled g;
     g_removals := if negb (tn_detach t) && negb (bool_decide (tn_phase t = Slotted))
                   then g_removals g ++ [(tn_conn t, tn_session t)] else g_removals g |}.

Definition run_removal (before after : list (nat * rstr)) (k : nat * rstr) (g : gate) : gate :=
  {| g_busy := g_busy g; g_turns := g_turns g; g_owned := delete k (g_owned g); g_closed := g_closed g;
     g_cancelled := g_cancelled g; g_removals := before ++ after |}.

Definition close_conn (conn : nat) (g : gate) : gate :=
  {| g_busy := g_busy g; g_turns := g_turns g; g_owned := g_owned g; g_closed := {[conn]} ∪ g_closed g;
     g_cancelled := g_cancelled g; g_removals := g_removals g |}.

Definition of_conn (conn : nat) (e : (nat * rstr) * nat) : Prop := e.1.1 = conn.

#[export] Instance of_conn_dec conn e : Decision (of_conn conn e).
Proof. unfold of_conn. apply _. Defined.

(** [drain]: every token of the connection is cancelled and leaves the map. *)
Definition drain (conn : nat) (g : gate) : gate :=
  {| g_busy := g_busy g; g_turns := g_turns g;
     g_owned := filter (fun e => ~ of_conn conn e) (g_owned g); g_closed := g_closed g;
     g_cancelled := list_to_set (map snd (map_to_list (filter (of_conn conn) (g_owned g)))) ∪ g_cancelled g;
     g_removals := g_removals g |}.

(** ** Steps *)

(** [others] admits turns that run on a session without a claim of its flag, as
    the agent nodes of a mission do. *)
Inductive gate_step (others : bool) : gate -> gate -> Prop :=
| gs_claim g g' conn session detach :
    claim conn session detach g = Some g' -> gate_step others g g'
| gs_register g i t : g_turns g !! i = Some t -> tn_phase t = Claimed -> gate_step others g (register i t g)
| gs_slot g i t : g_turns g !! i = Some t -> tn_phase t = Registered ->
    count holds_slot (g_turns g) < PROMPT_SLOTS ->
    gate_step others g (set_turn i (at_phase Slotted t) g)
| gs_arm g i t : g_turns g !! i = Some t -> tn_phase t = Slotted -> gate_step others g (set_turn i (at_phase Armed t) g)
| gs_start g i t : g_turns g !! i = Some t -> tn_phase t = Armed -> gate_step others g (set_turn i (at_phase Running t) g)
| gs_finish g i t : g_turns g !! i = Some t -> holds_slot t = true -> gate_step others g (finish i t g)
| gs_removal g before k after : g_removals g = before ++ k :: after -> gate_step others g (run_removal before after k g)
| gs_close g conn : gate_step others g (close_conn conn g)
| gs_drain g conn : conn ∈ g_closed g -> gate_step others g (drain conn g)
| gs_unclaimed g conn session : others = true ->
    gate_step others g {| g_busy := g_busy g;
      g_turns := g_turns g ++ [{| tn_conn := conn; tn_session := session; tn_detach := false; tn_phase := Registered |}];
      g_owned := g_owned g; g_closed := g_closed g; g_cancelled := g_cancelled g; g_removals := g_removals g |}.

(** ** One turn per session *)

Definition active (t : turn) : bool := negb (bool_decide (tn_phase t = Ended)).

Record gate_inv (g : gate) : Prop := {
  gi_busy : forall i t, g_turns g !! i = Some t -> active t = true -> tn_session t ∈ g_busy g;
  gi_one : forall i j t u, g_turns g !! i = Some t -> g_turns g !! j = Some u -> active t = true -> active u = true ->
    tn_session t = tn_session u -> i = j;
  gi_flag : forall s, s ∈ g_busy g -> exists i t, g_turns g !! i = Some t /\ active t = true /\ tn_session t = s;
  gi_slots : count holds_slot (g_turns g) <= PROMPT_SLOTS
}.

Lemma lookup_snoc {A} (l : list A) a i x : (l ++ [a]) !! i = Some x -> l !! i = Some x \/ i = length l /\ x = a.
Proof.
  intros H. apply lookup_app_Some in H as [H|[Hle H]]; [by left|right].
  apply list_lookup_singleton_Some in H as [H ->]. split; [lia|done].
Qed.

Lemma lookup_insert_turn (l : list turn) i t j u : <[i := t]> l !! j = Some u ->
  i = j /\ u = t \/ i <> j /\ l !! j = Some u.
Proof. intros H. apply list_lookup_insert_Some in H. naive_solver. Qed.

(** A turn that moves on within its claim. *)
Lemma move_inv g i t p : gate_inv g -> g_turns g !! i = Some t -> active t = true -> p <> Ended ->
  count holds_slot (<[i := at_phase p t]> (g_turns g)) <= PROMPT_SLOTS ->
  gate_inv (set_turn i (at_phase p t) g).
Proof.
  intros [H1 H2 H3 H4] Hi Ha Hp Hc.
  assert (forall j u, <[i := at_phase p t]> (g_turns g) !! j = Some u -> exists u0, g_turns g !! j = Some u0 /\
    tn_session u = tn_session u0 /\ active u = active u0) as Hback.
  { intros j u [[<- ->]|[_ Hj]]%lookup_insert_turn; [|by exists u]. exists t. split; [done|]. split; [done|].
    rewrite Ha. unfold active. cbn. by rewrite bool_decide_false. }
  split; cbn; [| | |done].
  - intros j u (u0 & Hj & -> & ->)%Hback. by eapply H1.
  - intros j k u v (u0 & Hj & -> & ->)%Hback (v0 & Hk & -> & ->)%Hback. by eapply H2.
  - intros s Hs. destruct (H3 s Hs) as (j & u & Hj & Hu & <-). destruct (decide (i = j)) as [<-|Hne].
    + exists i, (at_phase p t). rewrite list_lookup_insert_eq by (by eapply lookup_lt_Some). split; [done|].
      rewrite Hj in Hi. injection Hi as ->. split; [|done]. unfold active. cbn. by rewrite bool_decide_false.
    + exists j, u. by rewrite list_lookup_insert_ne.
Qed.

Lemma gate_inv_ext g g' : g_busy g' = g_busy g -> g_turns g' = g_turns g -> gate_inv g -> gate_inv g'.
Proof. intros Hb Ht [H1 H2 H3 H4]. by split; rewrite ?Hb, ?Ht. Qed.

Lemma move_slots l i t p : l !! i = Some t -> count holds_slot l <= PROMPT_SLOTS ->
  holds_slot t = true \/ holds_slot (at_phase p t) = false -> count holds_slot (<[i := at_phase p t]> l) <= PROMPT_SLOTS.
Proof.
  intros Hi Hc Hp. pose proof (count_insert holds_slot l i t (at_phase p t) Hi) as H.
  destruct Hp as [Hp|Hp]; rewrite Hp in H; [destruct (holds_slot (at_phase p t)); lia|destruct (holds_slot t); lia].
Qed.

Lemma claim_gate_inv conn session detach g g' : claim conn session detach g = Some g' -> gate_inv g -> gate_inv g'.
Proof.
  unfold claim. destruct (bool_decide_reflect (session ∈ g_busy g)) as [|Hn]; [done|]. intros [= <-] [H1 H2 H3 H4].
  split; cbn [g_busy g_turns].
  - intros i t [Hi|[_ ->]]%lookup_snoc Ha; [|cbn; set_solver]. apply elem_of_union_r. by eapply H1.
  - intros i j t u [Hi|[-> ->]]%lookup_snoc [Hj|[-> ->]]%lookup_snoc Ha Hb Hs; [by eapply H2| | |done]; exfalso; apply Hn.
    + cbn in Hs. rewrite <-Hs. by eapply H1.
    + cbn in Hs. rewrite Hs. by eapply H1.
  - intros s [->%elem_of_singleton|Hs]%elem_of_union.
    + exists (length (g_turns g)). eexists. rewrite lookup_app_r, Nat.sub_diag by done. by split.
    + destruct (H3 s Hs) as (i & t & Hi & Ha). exists i, t. split; [|done]. by apply lookup_app_l_Some.
  - rewrite count_app. cbn. lia.
Qed.

Lemma active_slot t : holds_slot t = true -> active t = true.
Proof. unfold holds_slot, active. by destruct (tn_phase t). Qed.

Lemma finish_gate_inv g i t : gate_inv g -> g_turns g !! i = Some t -> holds_slot t = true -> gate_inv (finish i t g).
Proof.
  intros [H1 H2 H3 H4] Hi Hh. pose proof (active_slot t Hh) as Ha.
  assert (forall j u, <[i := at_phase Ended t]> (g_turns g) !! j = Some u -> active u = true -> i <> j /\ g_turns g !! j = Some u) as Hback.
  { intros j u [[<- ->]|Hj]%lookup_insert_turn Hu; [|done]. unfold active in Hu. cbn in Hu. by rewrite bool_decide_true in Hu. }
  split; cbn [finish g_busy g_turns].
  - intros j u Hj Hu. destruct (Hback j u Hj Hu) as [Hne Hj']. apply elem_of_difference. split; [by eapply H1|].
    intros Hs%elem_of_singleton. apply Hne. by eapply (H2 i j t u).
  - intros j k u v Hj Hk Hu Hv. destruct (Hback j u Hj Hu), (Hback k v Hk Hv). by eapply H2.
  - intros s [Hs Hne]%elem_of_difference. destruct (H3 s Hs) as (j & u & Hj & Hu & <-).
    exists j, u. rewrite list_lookup_insert_ne; [done|]. intros <-. apply Hne. rewrite Hj in Hi. injection Hi as ->. by apply elem_of_singleton.
  - apply move_slots; [done|done|by right].
Qed.

Lemma gate_step_inv g g' : gate_step false g g' -> gate_inv g -> gate_inv g'.
Proof.
  intros Hs Hi. destruct Hs as [g g' conn session detach Hc|g i t Ht Hp|g i t Ht Hp Hc|g i t Ht Hp|g i t Ht Hp|g i t Ht Hh|
    g before k after Hr|g conn|g conn Hc|g conn session Ho].
  - by eapply claim_gate_inv.
  - assert (gate_inv (set_turn i (at_phase Registered t) g)) as H.
    { apply move_inv; [done|done|by unfold active; rewrite Hp|done|]. apply move_slots; [done|apply Hi|by right]. }
    unfold register. destruct (tn_detach t); [done|]. eapply gate_inv_ext, H; done.
  - apply move_inv; [done|done|by unfold active; rewrite Hp|done|].
    pose proof (count_insert holds_slot (g_turns g) i t (at_phase Slotted t) Ht) as H. cbn in H. unfold PROMPT_SLOTS in *. lia.
  - apply move_inv; [done|done|by unfold active; rewrite Hp|done|]. apply move_slots; [done|apply Hi|left]. unfold holds_slot. by rewrite Hp.
  - apply move_inv; [done|done|by unfold active; rewrite Hp|done|]. apply move_slots; [done|apply Hi|left]. unfold holds_slot. by rewrite Hp.
  - by apply finish_gate_inv.
  - eapply gate_inv_ext, Hi; done.
  - eapply gate_inv_ext, Hi; done.
  - eapply gate_inv_ext, Hi; done.
  - done.
Qed.

Lemma reachable_inv g : star (gate_step false) idle_gate g -> gate_inv g.
Proof.
  intros H. refine (star_invariant (gate_step false) gate_inv _ _ _ H _).
  - intros a b Ha Hs. by eapply gate_step_inv.
  - split; cbn; [done|done|set_solver|]. unfold PROMPT_SLOTS. lia.
Qed.

(** C7: while every turn is started by [turn.start], on any interleaving, no
    session has two turns, its flag is up just while it has one, so that a
    session is never wedged by a turn that is over, and at most 64 turns hold a
    slot. *)
Theorem one_turn_per_session (g : gate) :
  star (gate_step false) idle_gate g ->
  (forall i j t u, g_turns g !! i = Some t -> g_turns g !! j = Some u -> active t = true -> active u = true ->
     tn_session t = tn_session u -> i = j) /\
  (forall s, s ∈ g_busy g <-> exists i t, g_turns g !! i = Some t /\ active t = true /\ tn_session t = s) /\
  (forall conn s detach, claim conn s detach g = None <-> exists i t, g_turns g !! i = Some t /\ active t = true /\ tn_session t = s) /\
  count holds_slot (g_turns g) <= 64.
Proof.
  intros Hr. destruct (reachable_inv g Hr) as [H1 H2 H3 H4].
  assert (forall s, s ∈ g_busy g <-> exists i t, g_turns g !! i = Some t /\ active t = true /\ tn_session t = s) as Hb.
  { intros s. split; [apply H3|]. intros (i & t & Hi & Ha & <-). by eapply H1. }
  split; [done|]. split; [done|]. split; [|done]. intros conn s detach. rewrite <-Hb. unfold claim.
  destruct (bool_decide_reflect (s ∈ g_busy g)); done.
Qed.

(** ** Disconnects *)

(** A turn whose token is registered. *)
Definition owned (t : turn) : bool :=
  negb (tn_detach t) && match tn_phase t with Registered | Slotted | Armed | Running => true | _ => false end.

(** No removal is overtaken by a later turn of its session on its connection. *)
Definition settled_removals (g : gate) : Prop :=
  forall k i t, k ∈ g_removals g -> g_turns g !! i = Some t -> active t = true -> k <> (tn_conn t, tn_session t).

(** Steps that keep to it: a turn starts after the removals of the ones before. *)
Definition orderly_step (g g' : gate) : Prop := gate_step false g g' /\ settled_removals g'.

(** Every registered turn's token is cancelled or still in the map. *)
Definition token_inv (g : gate) : Prop :=
  forall i t, g_turns g !! i = Some t -> owned t = true ->
    i ∈ g_cancelled g \/ g_owned g !! (tn_conn t, tn_session t) = Some i.

Lemma owned_active t : owned t = true -> active t = true.
Proof. unfold owned, active. by destruct (tn_detach t), (tn_phase t). Qed.

Lemma owned_at_phase p t : owned t = true -> (p = Slotted \/ p = Armed \/ p = Running) -> owned (at_phase p t) = true.
Proof. unfold owned. cbn. destruct (tn_detach t); [done|]. naive_solver. Qed.

(** A turn that moves between owned phases. *)
Lemma move_owned i t p (l : list turn) j u :
  l !! i = Some t -> tn_phase t <> Claimed -> active t = true -> <[i := at_phase p t]> l !! j = Some u -> owned u = true ->
  exists u0, l !! j = Some u0 /\ owned u0 = true /\ tn_conn u0 = tn_conn u /\ tn_session u0 = tn_session u.
Proof.
  intros Hi Hc Ha [[<- ->]|[_ Hj]]%lookup_insert_turn Hu; [|by exists u]. exists t. split; [done|]. split; [|done].
  unfold owned, active in *. cbn in Hu. destruct (tn_detach t); [done|]. by destruct (tn_phase t).
Qed.

(** A move of turn [i] keeps what [Ht] says of registered turns. *)
Ltac moved i t p Ht Hp :=
  intros j u Hj Hu; eapply (move_owned i t p) in Hj as (u0 & Hj & Ho & Ec & Es);
  [rewrite <-?Ec, <-?Es; by apply Ht|done|by rewrite Hp|by unfold active; rewrite Hp|done].

Lemma drain_lookup conn g k : g_owned (drain conn g) !! k = if bool_decide (k.1 = conn) then None else g_owned g !! k.
Proof.
  cbn. destruct (bool_decide_reflect (k.1 = conn)) as [He|Hne].
  - apply map_lookup_filter_None. right. intros i _ H. apply H. exact He.
  - destruct (g_owned g !! k) as [i|] eqn:E.
    + apply map_lookup_filter_Some. split; [done|]. exact Hne.
    + apply map_lookup_filter_None. by left.
Qed.

Lemma drain_cancelled conn g k i : g_owned g !! k = Some i -> k.1 = conn -> i ∈ g_cancelled (drain conn g).
Proof.
  intros Hk Hc. cbn. apply elem_of_union_l, elem_of_list_to_set, list_elem_of_In, in_map_iff. exists (k, i). split; [done|].
  apply list_elem_of_In, elem_of_map_to_list, map_lookup_filter_Some. by split.
Qed.

(** Everything of a connection is cancelled. *)
Definition swept (conn : nat) (g : gate) : Prop :=
  conn ∈ g_closed g /\ forall i t, g_turns g !! i = Some t -> owned t = true -> tn_conn t = conn -> i ∈ g_cancelled g.

Lemma drain_swept conn g : token_inv g -> conn ∈ g_closed g -> swept conn (drain conn g).
Proof.
  intros Ht Hc. split; [done|]. intros i t Hi Ho He. destruct (Ht i t Hi Ho) as [H|H].
  - cbn. by apply elem_of_union_r.
  - by eapply drain_cancelled.
Qed.

Lemma token_step g g' : gate_inv g -> settled_removals g -> gate_step false g g' -> token_inv g -> token_inv g'.
Proof.
  intros Hi Hse Hs Ht. destruct Hs as [g g' conn session detach Hc|g i t Hl Hp|g i t Hl Hp Hc|g i t Hl Hp|g i t Hl Hp|g i t Hl Hh|
    g before k after Hr|g conn|g conn Hc|g conn session Ho].
  - unfold claim in Hc. destruct (bool_decide (session ∈ g_busy g)); [done|]. injection Hc as <-.
    intros j u [Hj|[_ ->]]%lookup_snoc Hu; [by apply Ht|]. unfold owned in Hu. cbn in Hu. by rewrite andb_false_r in Hu.
  - unfold register. destruct (tn_detach t) eqn:Ed.
    + intros j u [[<- ->]|[_ Hj]]%lookup_insert_turn Hu; [|by apply Ht]. unfold owned in Hu. cbn in Hu. by rewrite Ed in Hu.
    + intros j u Hj Hu. cbn [g_turns g_owned g_cancelled] in *. apply lookup_insert_turn in Hj as [[<- ->]|[Hne Hj]].
      * right. cbn. by rewrite lookup_insert_eq.
      * destruct (Ht j u Hj Hu) as [H|H]; [left; case_bool_decide; set_solver|right].
        rewrite lookup_insert_ne; [done|]. intros [= _ Hs]. apply Hne. eapply (gi_one _ Hi i j t u); [done|done| |by apply owned_active|done].
        unfold active. by rewrite Hp.
  - moved i t Slotted Ht Hp.
  - moved i t Armed Ht Hp.
  - moved i t Running Ht Hp.
  - intros j u [[<- ->]|[_ Hj]]%lookup_insert_turn Hu; [|by apply Ht]. unfold owned in Hu. cbn in Hu. by rewrite andb_false_r in Hu.
  - intros j u Hj Hu. destruct (Ht j u Hj Hu) as [H|H]; [by left|right]. cbn. rewrite lookup_delete_ne; [done|].
    apply (Hse k j u); [|done|by apply owned_active]. rewrite Hr. apply elem_of_app. right. by left.
  - exact Ht.
  - intros j u Hj Hu. destruct (Ht j u Hj Hu) as [H|H]; [left; cbn; by apply elem_of_union_r|].
    destruct (decide (tn_conn u = conn)) as [He|Hne]; [left; by eapply drain_cancelled|right].
    rewrite drain_lookup. cbn. by rewrite bool_decide_false.
  - done.
Qed.

Lemma swept_step conn g g' : gate_step false g g' -> swept conn g -> swept conn g'.
Proof.
  intros Hs [Hc Ht]. destruct Hs as [g g' c session detach Hcl|g i t Hl Hp|g i t Hl Hp Hsl|g i t Hl Hp|g i t Hl Hp|g i t Hl Hh|
    g before k after Hr|g c|g c Hcc|g c session Ho].
  - unfold claim in Hcl. destruct (bool_decide (session ∈ g_busy g)); [done|]. injection Hcl as <-. split; [done|].
    intros j u [Hj|[_ ->]]%lookup_snoc Hu He; [by eapply Ht|]. unfold owned in Hu. cbn in Hu. by rewrite andb_false_r in Hu.
  - unfold register. destruct (tn_detach t) eqn:Ed; (split; [done|]).
    + intros j u [[<- ->]|[_ Hj]]%lookup_insert_turn Hu He; [|by eapply Ht]. unfold owned in Hu. cbn in Hu. by rewrite Ed in Hu.
    + intros j u [[<- ->]|[_ Hj]]%lookup_insert_turn Hu He; cbn in He |- *.
      * subst. rewrite bool_decide_true by done. set_solver.
      * specialize (Ht j u Hj Hu He). case_bool_decide; set_solver.
  - split; [done|]. moved i t Slotted Ht Hp.
  - split; [done|]. moved i t Armed Ht Hp.
  - split; [done|]. moved i t Running Ht Hp.
  - split; [done|]. intros j u [[<- ->]|[_ Hj]]%lookup_insert_turn Hu He; [|by eapply Ht]. unfold owned in Hu. cbn in Hu. by rewrite andb_false_r in Hu.
  - split; [done|]. exact Ht.
  - split; [cbn; set_solver|]. exact Ht.
  - split; [done|]. intros j u Hj Hu He. cbn. apply elem_of_union_r. by eapply Ht.
  - done.
Qed.

(** C8: when a connection is lost and the sweep over its map has run, every turn
    it started and still owns is cancelled, and stays so; a turn it registers
    later, the sweep being over, is cancelled as it registers.  This on any
    interleaving in which the removals of ended turns are not overtaken by a
    later turn of their session on their connection. *)
Theorem disconnect_cancels (g g' : gate) (conn : nat) :
  star orderly_step idle_gate g -> conn ∈ g_closed g -> star orderly_step (drain conn g) g' ->
  forall i t, g_turns g' !! i = Some t -> owned t = true -> tn_conn t = conn -> i ∈ g_cancelled g'.
Proof.
  intros Hr Hc Hr'.
  assert (gate_inv g /\ settled_removals g /\ token_inv g) as (_ & _ & Ht).
  { refine (star_invariant orderly_step (fun g => gate_inv g /\ settled_removals g /\ token_inv g) _ _ _ Hr _).
    - intros a b (H1 & H2 & H3) [Hs Hse]. split; [by eapply gate_step_inv|]. split; [done|]. by eapply token_step.
    - split; [apply reachable_inv, star_refl|]. split; [by intros k i t ?%elem_of_nil|]. intros i t H. by destruct i. }
  assert (swept conn g') as [_ H]; [|exact H].
  refine (star_invariant orderly_step (swept conn) _ _ _ Hr' (drain_swept conn g Ht Hc)).
  intros a b Ha [Hs _]. by eapply swept_step.
Qed.

(** ** Interleavings that lose a token *)

(** A turn ends and its removal is spawned; a second turn of the session starts
    on the connection before the removal runs, and loses its token to it: the
    sweep of the disconnect does not find it. *)
Theorem overtaken_removal_leaks_turn :
  exists g, star (gate_step false) idle_gate g /\
    exists t, g_turns g !! 1 = Some t /\ tn_phase t = Running /\ owned t = true /\ tn_conn t ∈ g_closed g /\
      g_owned g = ∅ /\ 1 ∉ g_cancelled g.
Proof.
  eexists. split.
  - eapply star_step; [apply (gs_claim false _ _ 7 (str "s") false); vm_compute; reflexivity|].
    eapply star_step; [by eapply (gs_register false _ 0)|].
    eapply star_step; [eapply (gs_slot false _ 0); [done|done|vm_compute; lia]|].
    eapply star_step; [by eapply (gs_arm false _ 0)|]. eapply star_step; [by eapply (gs_start false _ 0)|].
    eapply star_step; [by eapply (gs_finish false _ 0)|].
    eapply star_step; [apply (gs_claim false _ _ 7 (str "s") false); vm_compute; reflexivity|].
    eapply star_step; [by eapply (gs_register false _ 1)|].
    eapply star_step; [by apply (gs_removal false _ [] (7, str "s") [])|].
    eapply star_step; [eapply (gs_slot false _ 1); [done|done|vm_compute; lia]|].
    eapply star_step; [by eapply (gs_arm false _ 1)|]. eapply star_step; [by eapply (gs_start false _ 1)|].
    eapply star_step; [apply (gs_close false _ 7)|]. eapply star_step; [apply (gs_drain false _ 7); set_solver|]. apply star_refl.
  - eexists. split; [done|]. split; [done|]. split; [done|]. split; [set_solver|]. split; [vm_compute; reflexivity|].
    vm_compute. set_solver.
Qed.

(** A turn that does not claim the flag shares its session with one that does,
    and its guard takes the other's flag down. *)
Theorem unclaimed_turn_frees_the_flag :
  exists g, star (gate_step true) idle_gate g /\
    exists t, g_turns g !! 0 = Some t /\ tn_phase t = Running /\ tn_session t ∉ g_busy g.
Proof.
  eexists. split.
  - eapply star_step; [apply (gs_claim true _ _ 7 (str "s") true); vm_compute; reflexivity|].
    eapply star_step; [by eapply (gs_register true _ 0)|].
    eapply star_step; [eapply (gs_slot true _ 0); [done|done|vm_compute; lia]|].
    eapply star_step; [by eapply (gs_arm true _ 0)|]. eapply star_step; [by eapply (gs_start true _ 0)|].
    eapply star_step; [by apply (gs_unclaimed true _ 9 (str "s"))|].
    eapply star_step; [eapply (gs_slot true _ 1); [done|done|vm_compute; lia]|].
    eapply star_step; [by eapply (gs_finish true _ 1)|]. apply star_refl.
  - eexists. split; [done|]. split; [done|]. vm_compute. set_solver.
Qed.

(** ** Witnesses *)

Definition demo_turn (p : phase) : turn := {| tn_conn := 7; tn_session := str "s"; tn_detach := false; tn_phase := p |}.

(** One claimed turn, then registered. *)
Definition demo_claimed : gate :=
  {| g_busy := {[str "s"]} ∪ ∅; g_turns := [demo_turn Claimed]; g_owned := ∅; g_closed := ∅; g_cancelled := ∅; g_removals := [] |}.
Definition demo_registered : gate := register 0 (demo_turn Claimed) demo_claimed.

Lemma demo_claim : gate_step false idle_gate demo_claimed.
Proof. apply (gs_claim false idle_gate demo_claimed 7 (str "s") false). vm_compute. reflexivity. Qed.

Lemma one_turn_per_session_witness : claim 8 (str "s") true demo_claimed = None.
Proof.
  apply (proj1 (proj2 (proj2 (one_turn_per_session demo_claimed (star_one _ _ _ demo_claim))))).
  exists 0, (demo_turn Claimed). split; [reflexivity|]. split; reflexivity.
Defined.

Lemma disconnect_cancels_witness :
  0 ∈ g_cancelled (drain 7 (close_conn 7 demo_registered)).
Proof.
  apply (disconnect_cancels (close_conn 7 demo_registered) (drain 7 (close_conn 7 demo_registered)) 7) with (t := demo_turn Registered).
  - assert (forall g, g_removals g = [] -> settled_removals g) as Hn by (intros g E k i t H; rewrite E in H; by apply elem_of_nil in H).
    eapply star_step; [split; [exact demo_claim|by apply Hn]|].
    eapply star_step; [split; [by apply (gs_register false demo_claimed 0 (demo_turn Claimed))|by apply Hn]|].
    eapply star_step; [split; [apply (gs_close false _ 7)|by apply Hn]|]. apply star_refl.
  - set_solver.
  - apply star_refl.
  - reflexivity.
  - reflexivity.
  - reflexivity.
Defined.
