(* ===== verification/Transport.v ===== *)
(** * Transport: frames from an agent's output ([backend/transport.rs])

    The reader of newline-delimited JSON: bytes come in chunks of any size, a
    poll tick may cancel a read between two chunks, lines over the cap are
    dropped.  The frames it delivers are proved to be a function of the bytes
    alone; requests in flight are a map of waiters. *)

From S2P Require Import Prelude Str Json.

Definition MAX_LINE_BYTES : nat := 4 * 1024 * 1024.

Definition byte_nl : N := 10.
Definition byte_cr : N := 13.

(** The line being assembled, and the flag of the read in progress. *)
Record line_state := { ls_buf : list N; ls_over : bool }.

(** One round of [capped_line_resume] on what [fill_buf] gave: the state, the
    finished line when there is one, and the bytes not consumed. *)
Definition take_chunk (cap : nat) (s : line_state) (available : list N) : line_state * bool * list N :=
  let newline := find_index (N.eqb byte_nl) available in
  let '(n, done) := match newline with Some pos => (pos + 1, true) | None => (length available, false) end in
  let chunk := take n available in
  let keep := cap - length (ls_buf s) in
  let s' := if length chunk <=? keep then {| ls_buf := ls_buf s ++ chunk; ls_over := ls_over s |}
            else {| ls_buf := ls_buf s ++ take keep chunk; ls_over := true |} in
  (s', done, drop n available).

(** The newline, and a carriage return before it, come off. *)
Definition pop_if (c : N) (l : list N) : option (list N) :=
  match last l with Some x => if N.eqb x c then Some (take (length l - 1) l) else None | None => None end.

Definition strip_newline (buf : list N) : list N :=
  match pop_if byte_nl buf with
  | Some l => default l (pop_if byte_cr l)
  | None => buf
  end.

Section Reader.
(** [serde_json::from_slice] *)
Variable from_slice : list N -> option json.
Variable cap : nat.

(** The frames of one line: none when it is over the cap or not JSON. *)
Definition handle_line (s : line_state) : list json :=
  if ls_over s then []
  else match from_slice (strip_newline (ls_buf s)) with Some v => [v] | None => [] end.

Definition clear : line_state := {| ls_buf := []; ls_over := false |}.

(** All rounds on one chunk; each consumes a byte, so the chunk's length bounds
    them. *)
Fixpoint feed (fuel : nat) (s : line_state) (available : list N) : line_state * list json :=
  match fuel with
  | 0 => (s, [])
  | S fuel =>
      match available with
      | [] => (s, [])
      | _ =>
          match take_chunk cap s available with
          | (s', true, rest) => let '(s'', frames) := feed fuel clear rest in (s'', handle_line s' ++ frames)
          | (s', false, rest) => (s', [])
          end
      end
  end.

(** A chunk, and whether the tick cancelled the read that waited for it: the
    bytes stay, the flag starts anew. *)
Definition arrive (s : line_state) (c : bool * list N) : line_state * list json :=
  let s := if c.1 then {| ls_buf := ls_buf s; ls_over := false |} else s in
  feed (length c.2) s c.2.

(** The reader up to the end of the stream. *)
Fixpoint read_loop (s : line_state) (chunks : list (bool * list N)) : list json :=
  match chunks with
  | [] => []
  | c :: chunks => let '(s', frames) := arrive s c in frames ++ read_loop s' chunks
  end.

(** ** The frames are a function of the bytes *)

(** The frame of a terminated line, without its newline. *)
Definition line_frames (line : list N) : list json :=
  if length line <? cap then match from_slice (default line (pop_if byte_cr line)) with Some v => [v] | None => [] end
  else [].

(** The terminated lines; what follows the last newline is not one. *)
Definition complete_lines (bytes : list N) : list (list N) :=
  let pieces := split_on (N.eqb byte_nl) bytes in take (length pieces - 1) pieces.

(** The state after the bytes [p] of a line. *)
Definition assembling (p : list N) (s : line_state) : Prop :=
  ls_buf s = take cap p /\ (ls_over s = true -> cap < length p).

Lemma pop_if_snoc c l : pop_if c (l ++ [c]) = Some l.
Proof.
  unfold pop_if. rewrite last_snoc, N.eqb_refl, length_app. cbn [length].
  by rewrite Nat.add_sub, take_app_length.
Qed.

Lemma take_chunk_spec p s available : assembling p s -> available <> [] ->
  match take_chunk cap s available with
  | (s', true, rest) => exists q, available = q ++ byte_nl :: rest /\ byte_nl ∉ q /\ handle_line s' = line_frames (p ++ q)
  | (s', false, rest) => rest = [] /\ byte_nl ∉ available /\ assembling (p ++ available) s'
  end.
Proof.
  intros [Hb Ho] Hne. unfold take_chunk.
  assert (length (ls_buf s) = Nat.min cap (length p)) as Hlb by (rewrite Hb; apply length_take).
  destruct (find_index (N.eqb byte_nl) available) as [pos|] eqn:E.
  - apply find_index_Some in E as (x & Hx & Hxn & Hbefore). apply N.eqb_eq in Hxn as <-.
    assert (available = take pos available ++ byte_nl :: drop (pos + 1) available) as Hsplit.
    { rewrite <-(take_drop_middle available pos byte_nl) at 1 by done. by rewrite Nat.add_1_r. }
    assert (length (take pos available) = pos) as Hlen.
    { rewrite length_take. apply lookup_lt_Some in Hx. lia. }
    set (q := take pos available) in *. exists q.
    assert (byte_nl ∉ q) as Hq.
    { intros Hin. apply list_elem_of_lookup in Hin as (j & Hj). apply lookup_take_Some in Hj as [Hj Hlt].
      specialize (Hbefore j _ Hlt Hj). by rewrite N.eqb_refl in Hbefore. }
    split; [done|]. split; [done|].
    assert (take (pos + 1) available = q ++ [byte_nl]) as Htake.
    { rewrite Hsplit. rewrite <-Hlen at 1. rewrite take_app_add. done. }
    rewrite Htake. unfold handle_line, line_frames. rewrite !length_app. cbn [length].
    destruct (length q + 1 <=? cap - length (ls_buf s)) eqn:Ek; cbn [ls_over ls_buf].
    + apply Nat.leb_le in Ek. assert (ls_over s = false) as -> by (destruct (ls_over s); [specialize (Ho eq_refl); lia|done]).
      assert ((length p + length q <? cap) = true) as -> by lia.
      unfold strip_newline. rewrite Hb, take_ge by lia. by rewrite app_assoc, pop_if_snoc.
    + apply Nat.leb_gt in Ek. assert ((length p + length q <? cap) = false) as -> by lia. done.
  - rewrite drop_all. split; [done|]. split.
    { intros Hin. apply (find_index_None _ _ E) in Hin. by rewrite N.eqb_refl in Hin. }
    rewrite firstn_all. destruct (length available <=? cap - length (ls_buf s)) eqn:Ek; split; cbn [ls_over ls_buf].
    + apply Nat.leb_le in Ek. assert (length available <> 0) by (by destruct available).
      rewrite Hb, !take_ge by (rewrite ?length_app; lia). done.
    + intros H. specialize (Ho H). rewrite length_app. lia.
    + apply Nat.leb_gt in Ek. rewrite Hlb, Hb, take_app. f_equal. f_equal. lia.
    + apply Nat.leb_gt in Ek. intros _. rewrite length_app. lia.
Qed.

Lemma split_on_snoc_piece p q rest : byte_nl ∉ q -> byte_nl ∉ p ->
  complete_lines (p ++ q ++ byte_nl :: rest) = (p ++ q) :: complete_lines rest.
Proof.
  intros Hq Hp. unfold complete_lines. rewrite app_assoc, split_on_cons_sep.
  - destruct (split_on (N.eqb byte_nl) rest) as [|x l] eqn:E; [by apply split_on_nonempty in E|].
    cbn [length]. by rewrite !Nat.sub_succ, !Nat.sub_0_r.
  - intros x Hx. apply N.eqb_neq. intros <-. by apply elem_of_app in Hx as [].
  - apply N.eqb_refl.
Qed.

Lemma complete_lines_none p : byte_nl ∉ p -> complete_lines p = [].
Proof.
  intros Hp. unfold complete_lines. rewrite split_on_no_sep; [done|]. intros x Hx. apply N.eqb_neq. by intros <-.
Qed.

(** A chunk delivers the frames of the lines it finishes. *)
Lemma feed_spec fuel p s available : length available <= fuel -> byte_nl ∉ p -> assembling p s ->
  let '(s', frames) := feed fuel s available in
  exists p', byte_nl ∉ p' /\ assembling p' s' /\
    forall more, flat_map line_frames (complete_lines (p ++ available ++ more)) =
                 frames ++ flat_map line_frames (complete_lines (p' ++ more)).
Proof.
  revert p s available. induction fuel as [|fuel IH]; intros p s available Hf Hp Ha; cbn [feed].
  { destruct available; [|cbn in Hf; lia]. exists p. by split. }
  destruct available as [|x l]; [exists p; by split|].
  pose proof (take_chunk_spec p s (x :: l) Ha ltac:(done)) as H.
  destruct (take_chunk cap s (x :: l)) as [[s' []] rest].
  - destruct H as (q & Heq & Hq & Hfr).
    assert (assembling [] clear) as Hc by (split; [by rewrite take_nil|done]).
    assert (length rest <= fuel) as Hr by (rewrite Heq in Hf; rewrite length_app in Hf; cbn in Hf; lia).
    specialize (IH [] clear rest Hr ltac:(apply not_elem_of_nil) Hc).
    destruct (feed fuel clear rest) as [s'' frames]. destruct IH as (p' & Hp' & Ha' & Hm). exists p'. split; [done|]. split; [done|].
    intros more. rewrite Heq. rewrite <-!app_assoc. change ((byte_nl :: rest) ++ more) with (byte_nl :: (rest ++ more)).
    rewrite split_on_snoc_piece by done. cbn [flat_map]. rewrite <-Hfr. f_equal. apply Hm.
  - destruct H as (-> & Hn & Ha'). exists (p ++ x :: l). split.
    { intros [|]%elem_of_app; done. }
    split; [done|]. intros more. by rewrite app_assoc.
Qed.

(** C23: the frames delivered are those of the terminated lines of the stream,
    in order, each shorter than the cap and parsed on its own, however the bytes
    come in chunks and whichever reads the poll tick cancelled. *)
Theorem read_loop_spec (chunks : list (bool * list N)) :
  read_loop clear chunks = flat_map line_frames (complete_lines (concat (map snd chunks))).
Proof.
  assert (forall p s, byte_nl ∉ p -> assembling p s ->
    read_loop s chunks = flat_map line_frames (complete_lines (p ++ concat (map snd chunks)))) as H.
  { induction chunks as [|[cancel bytes] chunks IH]; intros p s Hp Ha; cbn [read_loop map snd concat].
    { by rewrite app_nil_r, complete_lines_none. }
    unfold arrive. cbn [fst snd]. set (s0 := if cancel then _ else s).
    assert (assembling p s0) as Ha0 by (destruct Ha; subst s0; destruct cancel; by split).
    pose proof (feed_spec (length bytes) p s0 bytes (le_n _) Hp Ha0) as Hf.
    destruct (feed (length bytes) s0 bytes) as [s' frames]. destruct Hf as (p' & Hp' & Ha' & Hm).
    by rewrite (IH p' s' Hp' Ha'), Hm. }
  apply (H [] clear); [apply not_elem_of_nil|]. split; [by rewrite take_nil|done].
Qed.
End Reader.

(** ** Requests in flight *)

(** The map of waiters by request id, the senders numbered as they are made;
    [wi_outcome] is what a receiver sees, [None] when its sender was dropped. *)
Record wires := {
  wi_pending : gmap rstr nat; wi_next : nat; wi_outcome : gmap nat (option (result json json)); wi_exited : bool
}.

Definition no_wires : wires := {| wi_pending := ∅; wi_next := 0; wi_outcome := ∅; wi_exited := false |}.

Definition settle_wire (n : option nat) (o : option (result json json)) (w : gmap nat (option (result json json))) :=
  match n with Some n => <[n := o]> w | None => w end.

(** Inserting over an id drops the sender that was there. *)
Definition expect (id : rstr) (w : wires) : wires * nat :=
  ({| wi_pending := <[id := wi_next w]> (wi_pending w); wi_next := S (wi_next w);
      wi_outcome := settle_wire (wi_pending w !! id) None (wi_outcome w); wi_exited := wi_exited w |}, wi_next w).

Definition resolve (id : rstr) (r : result json json) (w : wires) : wires * bool :=
  match wi_pending w !! id with
  | Some n => ({| wi_pending := delete id (wi_pending w); wi_next := wi_next w;
                  wi_outcome := <[n := Some r]> (wi_outcome w); wi_exited := wi_exited w |}, true)
  | None => (w, false)
  end.

Definition forget (id : rstr) (w : wires) : wires :=
  {| wi_pending := delete id (wi_pending w); wi_next := wi_next w;
     wi_outcome := settle_wire (wi_pending w !! id) None (wi_outcome w); wi_exited := wi_exited w |}.

Definition exit_error : json := JObj [(str "message", jstr "backend process exited")].

(** The end of the read loop: every waiter gets an error. *)
Definition drain_pending (w : wires) : wires :=
  {| wi_pending := ∅; wi_next := wi_next w;
     wi_outcome := fold_left (fun o p => <[p.2 := Some (Err exit_error)]> o) (map_to_list (wi_pending w)) (wi_outcome w);
     wi_exited := true |}.

Inductive wire_op := Expect (id : rstr) | Resolve (id : rstr) (r : result json json) | Forget (id : rstr) | ReaderEnds.

Definition wire_step (w : wires) (op : wire_op) : wires :=
  match op with
  | Expect id => (expect id w).1
  | Resolve id r => (resolve id r w).1
  | Forget id => forget id w
  | ReaderEnds => drain_pending w
  end.

Definition run_wires (ops : list wire_op) : wires := fold_left wire_step ops no_wires.

Section Roundtrip.
Context `{JT : JsonText}.

Definition format_error (e : json) : rstr :=
  match as_str e.["message"] with Some m => m | None => to_string e end.

(** What a round trip waits for after its frame went out. *)
Inductive waited := Answered (o : option (result json json)) | WaitTimeout.

(** [request_roundtrip] up to its wait: a failed write keeps the waiter. *)
Definition begin_request (id : rstr) (sent : result unit rstr) (w : wires) : wires * result nat rstr :=
  let '(w, rx) := expect id w in (w, let? _ := sent in Ok rx).

(** And from its wait on: what the wait is read as, and the waiter forgotten. *)
Definition read_wait (timeout_text : rstr) (wait : waited) : result json rstr :=
  match wait with
  | Answered (Some (Ok v)) => Ok v
  | Answered (Some (Err e)) => Err (format_error e)
  | Answered None => Err (str "backend dropped the request")
  | WaitTimeout => Err (str "backend timed out after " ++ timeout_text)
  end.

Definition end_wait (id : rstr) (wait : waited) (w : wires) : wires := match wait with WaitTimeout => forget id w | _ => w end.
End Roundtrip.

(** Every waiter made is either in the map, once, or has its outcome, never both. *)
Record wires_ok (w : wires) : Prop := {
  wo_made : forall n, n < wi_next w <-> (exists id, wi_pending w !! id = Some n) \/ is_Some (wi_outcome w !! n);
  wo_once : forall id id' n, wi_pending w !! id = Some n -> wi_pending w !! id' = Some n -> id = id';
  wo_settled : forall id n, wi_pending w !! id = Some n -> wi_outcome w !! n = None
}.

Lemma wires_drop_ok w id o next :
  wires_ok w -> next = wi_next w ->
  wires_ok {| wi_pending := delete id (wi_pending w); wi_next := next;
              wi_outcome := settle_wire (wi_pending w !! id) o (wi_outcome w); wi_exited := wi_exited w |}.
Proof.
  intros [Hm Ho Hs] ->. destruct (wi_pending w !! id) as [n|] eqn:E; cbn [settle_wire].
  - split; cbn.
    + intros k. rewrite Hm. destruct (decide (k = n)) as [->|Hne].
      * rewrite lookup_insert_eq. split; [by right; eexists|]. intros _. left. by exists id.
      * rewrite lookup_insert_ne by done. split; intros [[id' Hi]|]; [left|by right|left|by right].
        -- exists id'. rewrite lookup_delete_ne; [done|]. intros ->. congruence.
        -- exists id'. by apply lookup_delete_Some in Hi as [_ ?].
    + intros i j k [_ Hi]%lookup_delete_Some [_ Hj]%lookup_delete_Some. by eapply Ho.
    + intros i k [Hne Hi]%lookup_delete_Some. rewrite lookup_insert_ne; [by eapply Hs|].
      intros <-. apply Hne. by eapply Ho.
  - rewrite delete_id by done. by split.
Qed.

Lemma expect_as_drop id w :
  (expect id w).1 = let w' := forget id w in
    {| wi_pending := <[id := wi_next w]> (wi_pending w'); wi_next := S (wi_next w'); wi_outcome := wi_outcome w';
       wi_exited := wi_exited w' |}.
Proof. unfold expect, forget. cbn. by rewrite insert_delete_eq. Qed.

Lemma drained_outcome (l : list (rstr * nat)) o n :
  fold_left (fun o p => <[p.2 := Some (Err exit_error)]> o) l o !! n =
  if bool_decide (n ∈ l.*2) then Some (Some (Err exit_error)) else (o : gmap nat (option (result json json))) !! n.
Proof.
  revert o. induction l as [|[id k] l IH]; intros o; cbn [fold_left fmap list_fmap snd]; [done|]. rewrite IH.
  destruct (decide (n ∈ l.*2)) as [Hin|Hin].
  - by rewrite !bool_decide_true by (by try right).
  - rewrite (bool_decide_false _ Hin). destruct (decide (k = n)) as [->|Hne].
    + rewrite lookup_insert_eq, bool_decide_true; [done|by left].
    + rewrite lookup_insert_ne, bool_decide_false; [done| |done]. rewrite elem_of_cons. naive_solver.
Qed.

Lemma drained_outcomes w n :
  (forall id, wi_pending w !! id = Some n -> wi_outcome (drain_pending w) !! n = Some (Some (Err exit_error))) /\
  ((forall id, wi_pending w !! id <> Some n) -> wi_outcome (drain_pending w) !! n = wi_outcome w !! n).
Proof.
  cbn. rewrite drained_outcome. split.
  - intros id Hid. rewrite bool_decide_true; [done|]. apply list_elem_of_fmap. exists (id, n).
    split; [done|]. by apply elem_of_map_to_list.
  - intros Hno. rewrite bool_decide_false; [done|].
    intros ([id k] & -> & Hin%elem_of_map_to_list)%list_elem_of_fmap. by eapply Hno.
Qed.

Lemma pending_or_not (w : wires) n : (exists id, wi_pending w !! id = Some n) \/ (forall id, wi_pending w !! id <> Some n).
Proof.
  destruct (decide (n ∈ (map_to_list (wi_pending w)).*2)) as [([id k] & -> & Hin%elem_of_map_to_list)%list_elem_of_fmap|Hno].
  - left. by exists id.
  - right. intros id Hid. apply Hno. apply list_elem_of_fmap. exists (id, n). split; [done|]. by apply elem_of_map_to_list.
Qed.

Lemma wire_step_ok w op : wires_ok w -> wires_ok (wire_step w op).
Proof.
  intros Hw. destruct op as [id|id r|id|]; cbn [wire_step].
  - rewrite expect_as_drop. pose proof (wires_drop_ok w id None _ Hw eq_refl) as [Hm Ho Hs]. cbn in Hm, Ho, Hs.
    split; cbn.
    + intros n. rewrite Nat.lt_succ_r, Nat.le_lteq, Hm. split.
      * intros [[[id' Hi]|]| ->]; [|by right|left; exists id; apply lookup_insert_eq].
        left. exists id'. rewrite lookup_insert_ne; [done|]. intros ->. by apply lookup_delete_Some in Hi as [? _].
      * intros [[id' [[_ <-]|[_ Hi]]%lookup_insert_Some]|]; [by right|left; left; by exists id'|left; by right].
    + intros i j n [[<- <-]|[Hi Hi']]%lookup_insert_Some [[<- Hj]|[Hj Hj']]%lookup_insert_Some; subst; try done.
      * assert (wi_next w < wi_next w); [|lia]. apply Hm. left. by exists j.
      * assert (wi_next w < wi_next w); [|lia]. apply Hm. left. by exists i.
      * by eapply Ho.
    + intros i n [[<- <-]|[Hi Hi']]%lookup_insert_Some; [|by eapply Hs].
      apply eq_None_not_Some. intros H. assert (wi_next w < wi_next w); [|lia]. apply Hm. by right.
  - unfold resolve. pose proof (wires_drop_ok w id (Some r) _ Hw eq_refl) as H.
    by destruct (wi_pending w !! id) as [n|].
  - by apply wires_drop_ok.
  - destruct Hw as [Hm Ho Hs]. split.
    + intros n. cbn [drain_pending wi_next wi_pending]. rewrite Hm. destruct (drained_outcomes w n) as [H1 H2].
      destruct (pending_or_not w n) as [[id Hid]|Hno].
      * rewrite (H1 id Hid). split; [by right; eexists|]. intros _. left. by exists id.
      * rewrite (H2 Hno). split; intros [[id Hid]|]; [by apply Hno in Hid|by right| |by right].
        by rewrite lookup_empty in Hid.
    + intros i j n H. cbn in H. by rewrite lookup_empty in H.
    + intros i n H. cbn in H. by rewrite lookup_empty in H.
Qed.

Lemma run_wires_ok ops : wires_ok (run_wires ops).
Proof.
  unfold run_wires. assert (wires_ok no_wires) as H0; [split; cbn|].
  4: { revert H0. generalize no_wires. induction ops as [|op ops IH]; intros w Hw; [done|]. by apply IH, wire_step_ok. }
  - intros n. split; [lia|]. intros [[id H]|[o H]]; by rewrite lookup_empty in H.
  - intros i j n H. by rewrite lookup_empty in H.
  - intros i n H. by rewrite lookup_empty in H.
Qed.

Lemma wire_step_outcome w op n o : wires_ok w -> wi_outcome w !! n = Some o -> wi_outcome (wire_step w op) !! n = Some o.
Proof.
  intros [_ _ Hs] Ho.
  assert (forall id x, wi_pending w !! id = Some x -> x <> n) as Hne by (intros id x Hi ->; apply Hs in Hi; congruence).
  assert (forall id x, settle_wire (wi_pending w !! id) x (wi_outcome w) !! n = Some o) as Hset.
  { intros id x. destruct (wi_pending w !! id) as [k|] eqn:E; cbn; [|done]. rewrite lookup_insert_ne; [done|by eapply Hne]. }
  destruct op as [id|id r|id|]; cbn [wire_step].
  - apply Hset.
  - unfold resolve. specialize (Hset id (Some r)). by destruct (wi_pending w !! id).
  - apply Hset.
  - destruct (drained_outcomes w n) as [_ H]. rewrite H; [done|]. intros id Hi. by eapply Hne.
Qed.

(** A request in flight never hangs on a dead process: when the reader ends,
    every waiter made so far has an outcome; each gets at most one, the first, and
    later answers, timeouts and drains do not change it. *)
Theorem waiters_settle (ops later : list wire_op) :
  let dead := run_wires (ops ++ [ReaderEnds]) in
  let w := run_wires ops in
  (forall n, n < wi_next w -> is_Some (wi_outcome dead !! n)) /\ wi_pending dead = ∅ /\
  (forall n o, wi_outcome w !! n = Some o -> wi_outcome (run_wires (ops ++ later)) !! n = Some o).
Proof.
  cbn zeta. pose proof (run_wires_ok ops) as Hw. pose proof (run_wires_ok (ops ++ [ReaderEnds])) as Hd.
  assert (run_wires (ops ++ [ReaderEnds]) = drain_pending (run_wires ops)) as E by (unfold run_wires; by rewrite fold_left_app).
  rewrite E in *. split; [|split; [done|]].
  - intros n Hn. apply (wo_made _ Hd) in Hn as [[id H]|]; [|done]. cbn in H. by rewrite lookup_empty in H.
  - intros n o Ho. unfold run_wires. rewrite fold_left_app. fold (run_wires ops). revert Hw Ho.
    generalize (run_wires ops) as w. induction later as [|op later IH]; intros w Hw Ho; [done|]. cbn [fold_left].
    apply IH; [by apply wire_step_ok|by apply wire_step_outcome].
Qed.

(** A line of just as many bytes as the cap is dropped: its newline counts. *)
Theorem line_at_cap_is_dropped :
  let parse (l : list N) := Some (JStr l) in
  read_loop parse 3 clear [(false, [97; 98; 99; 10; 100; 101; 10]%N)] = [JStr [100; 101]%N].
Proof. vm_compute. reflexivity. Qed.
