(* ===== verification/Events.v ===== *)
(** * Events: the event model of the agent backends ([backend/types.rs])

    What every backend translates its wire into: timeline items, tool calls with
    their details, permission asks with their questions, and stream events.  The
    collector of [Turn] reads them through [view]. *)

From Stdlib Require Import SpecFloat.
From S2P Require Import Prelude Str Json SessionStore Memory Turn.

(** ** Reading JSON *)

(** [v["k"].as_str().unwrap_or_default().to_string()] *)
Definition text_at (v : json) (k : string) : rstr := default [] (as_str v.[k]).
Definition bool_at (v : json) (k : string) : bool := default false (as_bool v.[k]).

(** [as_f64]; integers round to the nearest. *)
Definition as_f64 (v : json) : option f64 :=
  match v with
  | JNum (NInt z) => Some (binary_normalize 53%Z 1024%Z z 0 false)
  | JNum (NFloat m e) => Some (binary_normalize 53%Z 1024%Z m e false)
  | _ => None
  end.

Definition or_else {A} (x y : option A) : option A := match x with Some _ => x | None => y end.

(** An option as serde writes it. *)
Definition opt_json {A} (f : A -> json) (o : option A) : json := match o with Some x => f x | None => JNull end.

Definition mk_obj (kvs : list (string * json)) : json := JObj (map (fun '(k, v) => (str k, v)) kvs).

Definition field (k : string) (v : json) : string * json := (k, v).
Definition opt_field (k : string) (v : option json) : list (string * json) :=
  match v with Some v => [field k v] | None => [] end.

(** ** Timeline items *)

Inductive ToolCallStatus := ToolRunning | ToolCompleted | ToolFailed.

Inductive ToolCallDetail :=
| Shell (command : rstr) (output : option rstr) (exit_code : option Z)
| ReadFile (path : rstr) (content : option rstr)
| EditFile (path : rstr) (unified_diff : option rstr)
| WriteFile (path : rstr) (content : option rstr)
| SearchFor (query : rstr) (content : option rstr)
| Fetch (url : rstr) (res : option rstr)
| SubAgent (description log : rstr)
| PlanText (text : rstr)
| UnknownDetail (input output : json).

Record ToolCall := { tc_call_id : rstr; tc_name : rstr; tc_status : ToolCallStatus; tc_detail : ToolCallDetail }.

Inductive TaskStatus := TaskPending | TaskInProgress | TaskCompleted.
Record TaskItem := { ti_content : rstr; ti_status : TaskStatus }.

Inductive TimelineItem :=
| TUserMessage (text : rstr)
| TAssistantMessage (text : rstr)
| TReasoning (text : rstr)
| TToolCall (call : ToolCall)
| TTodo (items : list TaskItem)
| TCompaction (summary : rstr)
| TError (message : rstr)
| TUnknown (raw : json).

(** ** Permissions *)

Inductive PermissionKind := KindTool | KindQuestion | KindPlan.

Record QuestionOption := { qo_label : rstr; qo_description : option rstr }.

Record QuestionField := {
  qf_question : rstr; qf_header : option rstr; qf_options : list QuestionOption; qf_multi : bool
}.

Definition option_from_native (o : json) : option QuestionOption :=
  match get o (str "label") ≫= as_str with
  | Some label => Some {| qo_label := label; qo_description := get o (str "description") ≫= as_str |}
  | None => None
  end.

Definition from_native (v : json) : option QuestionField :=
  match get v (str "question") ≫= as_str with
  | None => None
  | Some question => Some {|
      qf_question := question;
      qf_header := match get v (str "header") ≫= as_str with
                   | Some h => if is_empty h then None else Some h
                   | None => None
                   end;
      qf_options := default [] (omap (M:=list) option_from_native <$> (get v (str "options") ≫= as_array));
      qf_multi := default false
        (or_else (get v (str "multiSelect")) (get v (str "multi_select")) ≫= as_bool) |}
  end.

Definition parse_questions (arr : list json) : list QuestionField := omap from_native arr.

Definition questions_title (qs : list QuestionField) : rstr :=
  match qs with q :: _ => qf_question q | [] => str "Question" end.

Definition first_label (arr : list json) : option rstr := head arr ≫= as_str.

Definition single_answer_text (answers : json) : option rstr :=
  match answers with
  | JStr s => Some s
  | JObj kvs => head (omap (fun kv => match kv.2 with JStr s => Some s | JArr arr => first_label arr | _ => None end) kvs)
  | JArr arr => first_label arr
  | _ => None
  end.

Inductive PermissionBehavior := BehaviorAllow | BehaviorDeny.
Inductive ActionVariant := VariantPrimary | VariantSecondary | VariantDanger.
Record PermissionAction := {
  pa_id : rstr; pa_label : rstr; pa_behavior : PermissionBehavior; pa_variant : option ActionVariant
}.

Record PermissionRequest := {
  pr_id : rstr; pr_kind : PermissionKind; pr_name : rstr; pr_title : option rstr; pr_input : option json;
  pr_detail : option ToolCallDetail; pr_actions : list PermissionAction; pr_suggestions : list json;
  pr_questions : list QuestionField
}.

Inductive PermissionResponse :=
| Allow (action_id : option rstr) (updated_input : option json) (answer : option rstr) (answers : option json)
| Deny (action_id message : option rstr) (interrupt : bool).

Inductive SteerResult := Accepted | Unavailable.

(** ** Stream events *)

Record TokenUsage := {
  tu_input : option Z; tu_cached : option Z; tu_output : option Z;
  tu_cost : option f64; tu_window : option Z; tu_used : option Z
}.

Inductive AttentionReason := AttentionFinished | AttentionPermission.

Inductive StreamEventKind :=
| EThreadStarted (native_handle : rstr)
| ETurnStarted
| ETurnCompleted (usage : option TokenUsage)
| ETurnFailed (error : rstr) (code : option rstr)
| ETurnCanceled (reason : rstr)
| EModeChanged (mode : option rstr)
| EModelChanged (model : rstr)
| ETimeline (item : TimelineItem)
| EPermissionRequested (ask : PermissionRequest)
| EPermissionResolved (request_id : rstr)
| EAttentionRequired (reason : AttentionReason)
| ESubagent (event : json).

Record Event := { ev_turn : option rstr; ev_kind : StreamEventKind }.

Definition outside (k : StreamEventKind) : Event := {| ev_turn := None; ev_kind := k |}.
Definition in_turn (turn : rstr) (k : StreamEventKind) : Event := {| ev_turn := Some turn; ev_kind := k |}.

(** A turn boundary. *)
Definition ends_turn (k : StreamEventKind) : bool :=
  match k with ETurnCompleted _ | ETurnFailed _ _ | ETurnCanceled _ => true | _ => false end.

(** ** What is stored and collected *)

Definition status_text (s : ToolCallStatus) : string :=
  match s with ToolRunning => "running" | ToolCompleted => "completed" | ToolFailed => "failed" end.

(** serde's internally tagged form. *)
Definition detail_json (d : ToolCallDetail) : json :=
  let tagged (tag : string) (fields : list (string * json)) := mk_obj (("type", jstr tag) :: fields)%string in
  match d with
  | Shell command output code =>
      tagged "shell" [("command", JStr command); ("output", opt_json JStr output); ("exit_code", opt_json jint code)]%string
  | ReadFile path content => tagged "read" [("path", JStr path); ("content", opt_json JStr content)]%string
  | EditFile path diff => tagged "edit" [("path", JStr path); ("unified_diff", opt_json JStr diff)]%string
  | WriteFile path content => tagged "write" [("path", JStr path); ("content", opt_json JStr content)]%string
  | SearchFor query content => tagged "search" [("query", JStr query); ("content", opt_json JStr content)]%string
  | Fetch url res => tagged "fetch" [("url", JStr url); ("result", opt_json JStr res)]%string
  | SubAgent description log => tagged "sub_agent" [("description", JStr description); ("log", JStr log)]%string
  | PlanText text => tagged "plan" [("text", JStr text)]%string
  | UnknownDetail input output => tagged "unknown" [("input", input); ("output", output)]%string
  end.

Definition tool_json (t : ToolCall) : json :=
  mk_obj [("call_id", JStr (tc_call_id t)); ("name", JStr (tc_name t)); ("status", jstr (status_text (tc_status t)));
          ("detail", detail_json (tc_detail t))]%string.

Definition task_json (t : TaskItem) : json :=
  mk_obj [("content", JStr (ti_content t));
          ("status", jstr match ti_status t with
                          | TaskPending => "pending" | TaskInProgress => "in_progress" | TaskCompleted => "completed"
                          end)]%string.

(** An event as the collector of a turn reads it. *)
Definition view (k : StreamEventKind) : EventKind :=
  match k with
  | EPermissionRequested ask =>
      PermissionRequested (match pr_kind ask with KindPlan => true | _ => false end) (pr_id ask) (pr_name ask) (pr_input ask)
  | ETimeline (TAssistantMessage text) => AssistantMessage text
  | ETimeline (TReasoning text) => Reasoning text
  | ETimeline (TToolCall t) => Turn.ToolCall (tc_call_id t) (tool_json t)
  | ETimeline (TTodo items) => Todo (JArr (map task_json items))
  | ETimeline (TCompaction summary) => Compaction summary
  | ETurnCompleted u =>
      TurnCompleted ((fun u => {| us_cost := tu_cost u; us_window := tu_window u; us_used := tu_used u |}) <$> u)
  | ETurnFailed e code => TurnFailed e code
  | ETurnCanceled reason => TurnCanceled reason
  | _ => OtherEvent
  end.

Definition receive (uuid : rstr) (at_ms : Z) (e : Event) : received :=
  RecvEvent {| se_turn := ev_turn e; se_kind := view (ev_kind e) |} uuid at_ms.

Lemma view_boundary k : is_boundary (view k) = ends_turn k.
Proof. by destruct k as [| | | | | | |[]| | | |]. Qed.

(** The events up to the first boundary are what is heard of them. *)
Lemma heard_receives uuid at_ms es e rest :
  (forall x, x ∈ es -> ends_turn (ev_kind x) = false) -> ends_turn (ev_kind e) = true ->
  heard (map (receive uuid at_ms) (es ++ e :: rest)) = map (fun x => view (ev_kind x)) (es ++ [e]).
Proof.
  intros Hes He. induction es as [|x es IH].
  - cbn. rewrite view_boundary, He. done.
  - cbn [app map heard receive]. cbn [se_kind]. rewrite view_boundary, Hes by left.
    f_equal. apply IH. intros y Hy. apply Hes. by right.
Qed.

Example demo_questions :
  parse_questions [mk_obj [("question", jstr "Which database?"); ("header", jstr "DB");
                           ("options", JArr [mk_obj [("label", jstr "Postgres")]; mk_obj []])]%string;
                   mk_obj [("options", JArr [])]%string] =
  [{| qf_question := str "Which database?"; qf_header := Some (str "DB");
      qf_options := [{| qo_label := str "Postgres"; qo_description := None |}]; qf_multi := false |}].
Proof. reflexivity. Qed.

Example demo_single_answer :
  single_answer_text (mk_obj [("n", jint 3); ("pick", JArr [jstr "A"; jstr "B"])]%string) = Some (str "A").
Proof. reflexivity. Qed.
