(* ===== verification/Handler.v ===== *)
(** * Handler: what a session does on a frame or a call

    A state monad that also logs effects, the relations its handlers obey, and
    tasks: handlers that stop to wait for an answer and go on from there. *)

From S2P Require Import Prelude.

Section Handlers.
Context {S E : Type}.

Definition handler (A : Type) : Type := S -> S * list E * A.

Definition ret {A} (x : A) : handler A := fun s => (s, [], x).
Definition bind {A B} (m : handler A) (k : A -> handler B) : handler B := fun s =>
  let '(s1, es, x) := m s in let '(s2, es', y) := k x s1 in (s2, es ++ es', y).
Definition gets {A} (f : S -> A) : handler A := fun s => (s, [], f s).
Definition modify (f : S -> S) : handler unit := fun s => (f s, [], tt).
Definition log (e : E) : handler unit := fun s => (s, [e], tt).

Fixpoint each {A} (f : A -> handler unit) (l : list A) : handler unit :=
  match l with [] => ret tt | x :: l => bind (f x) (fun _ => each f l) end.

Lemma each_app {A} (f : A -> handler unit) l l' s : each f (l ++ l') s = bind (each f l) (fun _ => each f l') s.
Proof.
  revert s. induction l as [|x l IH]; intros s; cbn [app each].
  - unfold bind, ret. destruct (each f l' s) as [[s' es] []]. done.
  - unfold bind at 1. unfold bind at 2. unfold bind at 1. destruct (f x s) as [[s1 es1] []]. rewrite IH. unfold bind.
    destruct (each f l s1) as [[s2 es2] []]. destruct (each f l' s2) as [[s3 es3] []]. by rewrite app_assoc.
Qed.

(** ** Reasoning about handlers *)

(** A relation between the states before and after, and the effects between,
    that sequences. *)
Class Traced (R : S -> list E -> S -> Prop) := {
  traced_refl s : R s [] s;
  traced_trans s1 es1 s2 es2 s3 : R s1 es1 s2 -> R s2 es2 s3 -> R s1 (es1 ++ es2) s3
}.

Definition obeys (R : S -> list E -> S -> Prop) {A} (m : handler A) : Prop :=
  forall s, let '(s', es, _) := m s in R s es s'.

Section Obeys.
Context {R : S -> list E -> S -> Prop} `{!Traced R}.

Lemma obeys_ret {A} (x : A) : obeys R (ret x).
Proof. intros s. apply traced_refl. Qed.

Lemma obeys_gets {A} (f : S -> A) : obeys R (gets f).
Proof. intros s. apply traced_refl. Qed.

Lemma obeys_bind {A B} (m : handler A) (k : A -> handler B) : obeys R m -> (forall x, obeys R (k x)) -> obeys R (bind m k).
Proof.
  intros Hm Hk s. unfold bind. specialize (Hm s). destruct (m s) as [[s1 es1] x]. specialize (Hk x s1).
  destruct (k x s1) as [[s2 es2] y]. by eapply traced_trans.
Qed.

Lemma obeys_each {A} (f : A -> handler unit) l : (forall x, obeys R (f x)) -> obeys R (each f l).
Proof.
  intros Hf. induction l as [|x l IH]; cbn [each]; [apply obeys_ret|]. by apply obeys_bind.
Qed.

Lemma obeys_if {A} (b : bool) (m n : handler A) : obeys R m -> obeys R n -> obeys R (if b then m else n).
Proof. by destruct b. Qed.
End Obeys.
End Handlers.

Arguments handler S E A : clear implicits.

Declare Scope session_scope.
Notation "'let!' x ':=' m 'in' k" := (bind m (fun x => k)) (at level 10, x name, m at level 100, k at level 200) : session_scope.
Notation "m ';!' k" := (bind m (fun _ => k)) (at level 199, right associativity) : session_scope.

(** Follows a handler's structure down to the operations the hints know. *)
Ltac handler := repeat match goal with
  | |- obeys _ (bind _ _) => apply obeys_bind; [|intros ?]
  | |- obeys _ (ret _) => apply obeys_ret
  | |- obeys _ (gets _) => apply obeys_gets
  | |- obeys _ (each _ _) => apply obeys_each; intros ?
  | |- obeys _ (if _ then _ else _) => apply obeys_if
  | |- obeys _ (let _ := _ in _) => cbv zeta
  | |- obeys _ (match ?x with _ => _ end) => destruct x
  | |- obeys _ _ => solve [auto with damon nocore]
  end.
