(* ===== verification/AgentLog.v ===== *)
(** * AgentLog: what agent sessions leave behind

    The effects of a session's handlers, the turn boundaries and the timeline in
    them, and what the collector of a turn makes of a run of events. *)

From S2P Require Import Prelude Str Json PlanStore SessionStore Memory Turn Events.

(** Events for the subscribers, frames for the agent, answers for waiters. *)
Inductive effect := Emitted (e : Event) | Sent (frame : json) | Resolved (id : rstr) (r : result json json).

Definition emitted_of (e : effect) : option Event := match e with Emitted ev => Some ev | _ => None end.
Definition emitted (es : list effect) : list Event := omap emitted_of es.

Definition item_of (k : StreamEventKind) : option TimelineItem := match k with ETimeline item => Some item | _ => None end.

(** ** Boundaries *)

Definition boundary_of (e : effect) : option (option rstr) :=
  match e with Emitted ev => if ends_turn (ev_kind ev) then Some (ev_turn ev) else None | _ => None end.

(** The turns ended, each by its boundary event. *)
Definition boundaries (es : list effect) : list (option rstr) := omap boundary_of es.

(** ** The timeline *)

Definition said (item : TimelineItem) : option rstr := match item with TAssistantMessage text => Some text | _ => None end.
Definition thought (item : TimelineItem) : option rstr := match item with TReasoning text => Some text | _ => None end.
Definition call_state (id : rstr) (item : TimelineItem) : option json :=
  match item with TToolCall t => if bool_decide (tc_call_id t = id) then Some (tool_json t) else None | _ => None end.

Definition planned (item : TimelineItem) : option json :=
  match item with TTodo items => Some (JArr (map task_json items)) | _ => None end.
Definition compacted (item : TimelineItem) : option rstr := match item with TCompaction summary => Some summary | _ => None end.

(** The usage a turn records from what its end reports. *)
Definition usage_row (u : TokenUsage) : Usage := {| us_cost := tu_cost u; us_window := tu_window u; us_used := tu_used u |}.

Lemma omap_view {X} (g : EventKind -> option X) (h : TimelineItem -> option X) es :
  (forall k, g (view k) = item_of k ≫= h) ->
  omap g (map (fun e => view (ev_kind e)) es) = omap h (omap (fun e => item_of (ev_kind e)) es).
Proof.
  intros Hg. induction es as [|e es IH]; [done|]. cbn. rewrite Hg, IH. by destruct (item_of (ev_kind e)).
Qed.

Section Collected.
Variable plan_content_hash : rstr -> rstr.
Variable sid uuid : rstr.
Variable at_ms : Z.

Lemma collect_app s rs rs' : collect plan_content_hash sid s (rs ++ rs') =
  match collect plan_content_hash sid s rs with (s', None) => collect plan_content_hash sid s' rs' | ended => ended end.
Proof.
  revert s. induction rs as [|r rs IH]; intros s; [done|]. cbn [app collect].
  destruct (collect_one plan_content_hash sid s r) as [s' [o|]]; [done|apply IH].
Qed.

(** Events that are no boundary do not end the wait. *)
Lemma collect_quiet es p a : (forall e, e ∈ es -> ends_turn (ev_kind e) = false) ->
  exists p' a', collect plan_content_hash sid (p, a) (map (receive uuid at_ms) es) = ((p', a'), None) /\ ac_stop a' = ac_stop a.
Proof.
  revert p a. induction es as [|e es IH]; intros p a Hes; [by exists p, a|]. cbn [map collect].
  assert (ends_turn (ev_kind e) = false) as He by (apply Hes; left).
  assert (exists p' a', collect_one plan_content_hash sid (p, a) (receive uuid at_ms e) = ((p', a'), None) /\ ac_stop a' = ac_stop a)
    as (p' & a' & -> & <-).
  { destruct e as [turn k]. unfold receive. cbn [collect_one se_kind ev_kind] in *.
    destruct k as [| | | | | | |[]|ask| | |]; try discriminate He; cbn [view]; try by eexists _, _.
    destruct (pr_kind ask); by eexists _, _. }
  apply IH. intros x Hx. apply Hes. by right.
Qed.

Lemma latest_none {X} (l : list X) : latest None l = last l.
Proof. unfold latest. by destruct (last l). Qed.

Lemma quiet_usage es : (forall e, e ∈ es -> ends_turn (ev_kind e) = false) ->
  omap usage_of (map (fun x => view (ev_kind x)) es) = [].
Proof.
  induction es as [|[turn k] es IH]; intros Hes; [done|]. cbn. rewrite IH by (intros e He; apply Hes; by right).
  specialize (Hes _ (list_elem_of_here _ _)). cbn in Hes. by destruct k as [| | | | | | |[]| | | |].
Qed.

(** What a turn collects: the texts, thoughts and last tool states of the items
    before the boundary, and the end the boundary says. *)
Lemma collected_turn es b rest plans :
  (forall e, e ∈ es -> ends_turn (ev_kind e) = false) -> ends_turn (ev_kind b) = true ->
  let '((_, a), ended) := collect plan_content_hash sid (plans, empty_acc) (map (receive uuid at_ms) (es ++ b :: rest)) in
  let items : list TimelineItem := omap (fun e => item_of (ev_kind e)) es in
  ac_assistant a = concat (omap said items) /\ ac_reasoning a = concat (omap thought items) /\
  (forall id, ac_tools a !! id = last (omap (call_state id) items)) /\
  ac_todo a = last (omap planned items) /\ ac_compactions a = omap compacted items /\
  ac_usage a = match ev_kind b with ETurnCompleted u => usage_row <$> u | _ => None end /\
  match ev_kind b with
  | ETurnFailed e _ => ended = Some (Err e) /\ ac_stop a = StopFailed
  | ETurnCompleted _ => ended = Some (Ok tt) /\ ac_stop a = StopCompleted
  | _ => ended = Some (Ok tt) /\ ac_stop a = StopCanceled
  end.
Proof.
  intros Hq Hb. pose proof (collect_general plan_content_hash sid (map (receive uuid at_ms) (es ++ b :: rest)) plans empty_acc) as Hg.
  rewrite heard_receives in Hg by done. destruct (collect_quiet es plans empty_acc Hq) as (p' & a' & Hc & Hstop).
  rewrite map_app, collect_app, Hc in *. cbn [map] in *.
  assert (omap (fun e => item_of (ev_kind e)) (es ++ [b]) = omap (fun e => item_of (ev_kind e)) es) as Hitems.
  { rewrite omap_app. destruct b as [turn k]. cbn. by destruct k; rewrite ?app_nil_r. }
  rewrite (omap_view assistant_of said) in Hg by by intros [| | | | | | |[]| | | |].
  rewrite (omap_view reasoning_of thought) in Hg by by intros [| | | | | | |[]| | | |].
  rewrite (omap_view todo_of planned) in Hg by by intros [| | | | | | |[]| | | |].
  rewrite (omap_view compaction_of compacted) in Hg by by intros [| | | | | | |[]| | | |].
  assert (forall id, omap (call_of id) (map (fun x => view (ev_kind x)) (es ++ [b])) =
    omap (call_state id) (omap (fun e => item_of (ev_kind e)) es)) as Hcalls.
  { intros id. rewrite <-Hitems. apply omap_view. by intros [| | | | | | |[]| | | |]. }
  assert (last (omap usage_of (map (fun x => view (ev_kind x)) (es ++ [b]))) = usage_of (view (ev_kind b))) as Husage.
  { rewrite map_app, omap_app, quiet_usage by done. cbn. by destruct (usage_of (view (ev_kind b))). }
  rewrite Hitems, Husage in Hg. destruct b as [turn k]. cbn [collect collect_one receive se_kind ev_kind] in *.
  destruct k as [| |u|e code|reason| | | | | | |]; try discriminate Hb; cbn [view usage_of default] in *;
    destruct Hg as (Ha & Hr & Ht' & Htodo & Hcomp & _ & Hu & _); cbn in Ha, Hr, Ht', Htodo, Hcomp, Hu;
    split_and!; try done;
    try (intros id; etransitivity; [exact (Ht' id)|]; rewrite lookup_empty, Hcalls; apply latest_none);
    try (etransitivity; [exact Htodo|]; apply latest_none).
Qed.

Lemma quiet_failure es : (forall e, e ∈ es -> ends_turn (ev_kind e) = false) ->
  omap failure_of (map (fun x => view (ev_kind x)) es) = [].
Proof.
  induction es as [|[turn k] es IH]; intros Hes; [done|]. cbn. rewrite IH by (intros e He; apply Hes; by right).
  specialize (Hes _ (list_elem_of_here _ _)). cbn in Hes. by destruct k as [| | | | | | |[]| | | |].
Qed.

(** The failure is the boundary's. *)
Lemma collected_failure es b rest plans :
  (forall e, e ∈ es -> ends_turn (ev_kind e) = false) -> ends_turn (ev_kind b) = true ->
  ac_failure (collect plan_content_hash sid (plans, empty_acc) (map (receive uuid at_ms) (es ++ b :: rest))).1.2 =
  match ev_kind b with ETurnFailed e _ => Some e | _ => None end.
Proof.
  intros Hq Hb. pose proof (collect_general plan_content_hash sid (map (receive uuid at_ms) (es ++ b :: rest)) plans empty_acc) as Hg.
  rewrite heard_receives in Hg by done.
  destruct (collect plan_content_hash sid (plans, empty_acc) (map (receive uuid at_ms) (es ++ b :: rest))) as [[ps a] ended].
  destruct Hg as (_ & _ & _ & _ & _ & Hf & _). cbn [fst snd]. rewrite Hf, map_app, omap_app, quiet_failure by done. cbn.
  destruct b as [turn k]. by destruct k as [| |u|e code|reason| | |[]| | | |].
Qed.
End Collected.
