(* ===== verification/Requests.v ===== *)
(** * Requests: calls of a session that wait for the agent
    ([request_roundtrip] of [backend/transport.rs])

    A call of a session runs until it awaits the answer of a request; other calls
    and frames of the agent come in between.  A task is such a suspended call, and
    [live] a session with its tasks.  A backend supplies what a call and a frame
    do; everything else about the interleaving is shared. *)

From S2P Require Import Prelude Str Json Events Transport Handler AgentLog.

(** The pipe to the process and the waiters of its answers. *)
Record connection := { cn_wires : wires; cn_open : bool }.

Definition fresh_connection : connection := {| cn_wires := no_wires; cn_open := true |}.
Definition with_wires (w : wires) (c : connection) : connection := {| cn_wires := w; cn_open := cn_open c |}.

(** A session state that owns a connection. *)
Class Connected (S : Type) := {
  conn : S -> connection;
  set_conn : connection -> S -> S;
  conn_set c s : conn (set_conn c s) = c
}.

Section Requests.
Context {S : Type} `{HC : Connected S} `{JT : JsonText}.

Definition pipe_error : rstr := str "backend pipe closed".

Definition send (frame : json) : handler S effect (result unit rstr) := fun s =>
  if cn_open (conn s) then (s, [Sent frame], Ok tt) else (s, [], Err pipe_error).

(** [resolve]: the waiter of the id, if any, gets its outcome. *)
Definition resolve_wait (id : rstr) (r : result json json) : handler S effect unit := fun s =>
  (set_conn (with_wires (Transport.resolve id r (cn_wires (conn s))).1 (conn s)) s, [Resolved id r], tt).

(** A call that is done, or lets others go on before it does, or waits with what
    it does on the outcome. *)
Inductive task (A : Type) :=
| Done (a : A)
| Pauses (k : handler S effect (task A))
| Waits (rx : nat) (id timeout : rstr) (k : waited -> handler S effect (task A)).
Arguments Done {A} a.
Arguments Pauses {A} k.
Arguments Waits {A} rx id timeout k.

Definition finish {A} (a : A) : handler S effect (task A) := ret (Done a).

(** Between two locks, where other calls of the session may run. *)
Definition pause {A} (k : handler S effect (task A)) : handler S effect (task A) := ret (Pauses k).

(** [?] on what came back. *)
Definition or_fail {A} (r : result json rstr) (k : json -> handler S effect (task (result A rstr))) :
    handler S effect (task (result A rstr)) :=
  match r with Ok v => k v | Err e => finish (Err e) end.

(** A round trip up to its wait, which [read] makes a result of. *)
Definition round {A} (read : rstr -> waited -> result json rstr) (id : rstr) (frame : json) (timeout : rstr)
    (k : result json rstr -> handler S effect (task A)) : handler S effect (task A) := fun s =>
  let sent := if cn_open (conn s) then Ok tt else Err pipe_error in
  let '(w, r) := begin_request id sent (cn_wires (conn s)) in
  let s := set_conn (with_wires w (conn s)) s in
  match r with
  | Ok rx => (s, [Sent frame], Waits rx id timeout (fun w => k (read timeout w)))
  | Err e => k (Err e) s
  end.

(** [request_roundtrip] *)
Definition roundtrip {A} : rstr -> json -> rstr -> (result json rstr -> handler S effect (task A)) -> handler S effect (task A) :=
  round read_wait.

(** A suspended call goes on when it only paused, when its waiter has an outcome,
    or when its time is up; else it still waits. *)
Definition wake {A} (expired : bool) (t : task A) : handler S effect (task A) := fun s =>
  match t with
  | Done a => (s, [], Done a)
  | Pauses k => k s
  | Waits rx id timeout k =>
      match wi_outcome (cn_wires (conn s)) !! rx, expired with
      | None, false => (s, [], t)
      | o, _ =>
          let wait := match o with Some o => Answered o | None => WaitTimeout end in
          k wait (set_conn (with_wires (end_wait id wait (cn_wires (conn s))) (conn s)) s)
      end
  end.

(** ** A session and its calls *)

(** What a backend supplies; [b_exit] is what its pump does last. *)
Record Backend (call reply : Type) := {
  b_call : call -> handler S effect (task reply);
  b_frame : rstr -> json -> handler S effect unit;
  b_exit : handler S effect unit
}.
Arguments b_call {call reply}.
Arguments b_frame {call reply}.
Arguments b_exit {call reply}.

Section Live.
Context {call reply : Type} (b : Backend call reply).

(** What happened: calls made, frames read, what handlers did, the pump's end. *)
Inductive entry := Called (c : call) | Got (f : json) | Did (e : effect) | PumpEnded.

(** The tasks by the number of their call; [lv_pump] is whether frames are still
    read. *)
Record live := {
  lv_state : S; lv_tasks : gmap nat (task reply); lv_calls : nat; lv_pump : bool; lv_log : list entry
}.

Definition noted (x : entry) (l : live) : live :=
  {| lv_state := lv_state l; lv_tasks := lv_tasks l; lv_calls := lv_calls l; lv_pump := lv_pump l; lv_log := lv_log l ++ [x] |}.

(** One activity: a client's call, a frame with the fresh id it may need, a task
    going on, its timeout, the end of the agent's output, the pump noticing it,
    the agent no longer reading. *)
Inductive op :=
| Call (c : call)
| Frame (uuid : rstr) (f : json)
| Wake (n : nat)
| Expire (n : nat)
| OutputEnds
| PumpEnds
| PipeCloses.

Definition close_pipe : handler S effect unit :=
  modify (fun s => set_conn {| cn_wires := cn_wires (conn s); cn_open := false |} s).

Definition run_task (n : nat) (m : handler S effect (task reply)) (l : live) : live :=
  let '(s, es, t) := m (lv_state l) in
  {| lv_state := s; lv_tasks := <[n := t]> (lv_tasks l); lv_calls := lv_calls l; lv_pump := lv_pump l; lv_log := lv_log l ++ map Did es |}.

Definition run_unit (m : handler S effect unit) (l : live) : live :=
  let '(s, es, _) := m (lv_state l) in
  {| lv_state := s; lv_tasks := lv_tasks l; lv_calls := lv_calls l; lv_pump := lv_pump l; lv_log := lv_log l ++ map Did es |}.

Definition live_step (l : live) (o : op) : live :=
  match o with
  | Call c =>
      run_task (lv_calls l) (b_call b c)
        {| lv_state := lv_state l; lv_tasks := lv_tasks l; lv_calls := Datatypes.S (lv_calls l); lv_pump := lv_pump l;
           lv_log := lv_log l ++ [Called c] |}
  | Frame uuid f => if lv_pump l then run_unit (b_frame b uuid f) (noted (Got f) l) else l
  | Wake n => match lv_tasks l !! n with Some t => run_task n (wake false t) l | None => l end
  | Expire n => match lv_tasks l !! n with Some t => run_task n (wake true t) l | None => l end
  | OutputEnds => run_unit (fun s => (set_conn (with_wires (drain_pending (cn_wires (conn s))) (conn s)) s, [], tt)) l
  | PumpEnds =>
      if lv_pump l then
        run_unit (b_exit b)
          {| lv_state := lv_state l; lv_tasks := lv_tasks l; lv_calls := lv_calls l; lv_pump := false;
             lv_log := lv_log l ++ [PumpEnded] |}
      else l
  | PipeCloses => run_unit close_pipe l
  end.

Definition run_live (s : S) (ops : list op) : live :=
  fold_left live_step ops {| lv_state := s; lv_tasks := ∅; lv_calls := 0; lv_pump := true; lv_log := [] |}.

Lemma run_live_snoc s ops o : run_live s (ops ++ [o]) = live_step (run_live s ops) o.
Proof. unfold run_live. by rewrite fold_left_app. Qed.
End Live.
End Requests.

Arguments task S A : clear implicits.
Arguments Done {S A} a.
Arguments Pauses {S A} k.
Arguments Waits {S A} rx id timeout k.
Arguments Backend S call reply : clear implicits.
Arguments live S call reply : clear implicits.
Arguments b_call {S call reply}.
Arguments b_frame {S call reply}.
Arguments b_exit {S call reply}.
Arguments lv_state {S call reply}.
Arguments lv_tasks {S call reply}.
Arguments lv_calls {S call reply}.
Arguments lv_pump {S call reply}.
Arguments lv_log {S call reply}.

(** ** What all runs of a backend keep *)

(** All that a suspended call may still do is [R]. *)
Fixpoint steady {S A} (R : S -> list effect -> S -> Prop) (t : task S A) : Prop :=
  match t with
  | Done _ => True
  | Pauses k => forall s, match k s with (s', es, t') => R s es s' /\ steady R t' end
  | Waits _ _ _ k => forall r s, match k r s with (s', es, t') => R s es s' /\ steady R t' end
  end.

(** A relation on logs, of a handler's effects. *)
Definition did {S call} (R : S -> list (entry (call:=call)) -> S -> Prop) (s : S) (es : list effect) (s' : S) : Prop :=
  R s (map Did es) s'.

#[export] Instance did_traced {S call} (R : S -> list (entry (call:=call)) -> S -> Prop) `{!Traced R} : Traced (did R).
Proof.
  unfold did. split; [intros s; apply (traced_refl (R:=R))|]. intros s1 es1 s2 es2 s3 H1 H2. rewrite map_app. by eapply traced_trans.
Qed.

(** A call up to its wait and all it may do after. *)
Definition tasked {S A} (R : S -> list effect -> S -> Prop) (m : handler S effect (task S A)) : Prop :=
  forall s, match m s with (s', es, t) => R s es s' /\ steady R t end.

Section Tasked.
Context {S : Type} `{HC : Connected S} `{JT : JsonText} {R : S -> list effect -> S -> Prop} `{!Traced R}.
Hypothesis conn_free : forall c s, R s [] (set_conn c s).

Lemma tasked_done {A} (a : A) : tasked R (finish a).
Proof. intros s. split; [apply traced_refl|done]. Qed.

Lemma tasked_pause {A} (k : handler S effect (task S A)) : tasked R k -> tasked R (pause k).
Proof. intros Hk s. split; [apply traced_refl|exact Hk]. Qed.

Lemma tasked_bind {A B} (m : handler S effect A) (k : A -> handler S effect (task S B)) :
  obeys R m -> (forall x, tasked R (k x)) -> tasked R (bind m k).
Proof.
  intros Hm Hk s. unfold bind. specialize (Hm s). destruct (m s) as [[s1 es1] x]. specialize (Hk x s1).
  destruct (k x s1) as [[s2 es2] t]. destruct Hk as [Hr Ht]. split; [by eapply traced_trans|done].
Qed.

Lemma tasked_round {A} read id frame timeout (k : result json rstr -> handler S effect (task S A)) :
  (forall s, R s [Sent frame] s) -> (forall r, tasked R (k r)) -> tasked R (round read id frame timeout k).
Proof.
  intros Hsent Hk s. unfold round. destruct (begin_request _ _ _) as [w [rx|e]].
  - split; [|intros wt; apply Hk]. apply (traced_trans _ [] _ [Sent frame] _ (conn_free (with_wires w (conn s)) s)), Hsent.
  - specialize (Hk (Err e) (set_conn (with_wires w (conn s)) s)). destruct (k _ _) as [[s' es] t]. destruct Hk as [Hr Ht].
    split; [|done]. apply (traced_trans _ [] _ es _ (conn_free (with_wires w (conn s)) s) Hr).
Qed.

Lemma tasked_roundtrip {A} id frame timeout (k : result json rstr -> handler S effect (task S A)) :
  (forall s, R s [Sent frame] s) -> (forall r, tasked R (k r)) -> tasked R (roundtrip id frame timeout k).
Proof. apply tasked_round. Qed.

Lemma obeys_send frame : (forall s, R s [Sent frame] s) -> obeys R (send frame).
Proof. intros Hs s. unfold send. destruct (cn_open (conn s)); [apply Hs|apply traced_refl]. Qed.

Lemma obeys_resolve id r : (forall s, R s [Resolved id r] s) -> obeys R (resolve_wait id r).
Proof. intros Hs s. unfold resolve_wait. set (c := with_wires _ _). apply (traced_trans _ [] _ [Resolved id r] _ (conn_free c s)), Hs. Qed.
End Tasked.

Section Kept.
Context {S : Type} `{HC : Connected S} `{JT : JsonText} {call reply : Type}.

(** A relation between states and the log between them that sequences, that the
    connection does not matter to, and that all a backend does is in. *)
Class Keeps (b : Backend S call reply) (R : S -> list (entry (call:=call)) -> S -> Prop) := {
  keeps_traced :: Traced R;
  keeps_conn c s : R s [] (set_conn c s);
  keeps_call c s : match b_call b c s with (s', es, t) => R s (Called c :: map Did es) s' /\ steady (did R) t end;
  keeps_frame uuid f s : match b_frame b uuid f s with (s', es, _) => R s (Got f :: map Did es) s' end;
  keeps_exit s : match b_exit b s with (s', es, _) => R s (PumpEnded :: map Did es) s' end
}.

Context (b : Backend S call reply) (R : S -> list (entry (call:=call)) -> S -> Prop) `{HK : !Keeps b R}.

Lemma wake_steady expired (t : task S reply) s : steady (did R) t ->
  match wake expired t s with (s', es, t') => did R s es s' /\ steady (did R) t' end.
Proof.
  destruct t as [a|k|rx id timeout k]; intros Ht; cbn [wake]; [split; [apply traced_refl|done]|apply Ht|].
  assert (forall wt c, match k wt (set_conn c s) with (s', es, t') => did R s es s' /\ steady (did R) t' end) as Hk.
  { intros wt c. specialize (Ht wt (set_conn c s)). destruct (k wt (set_conn c s)) as [[s' es] t'].
    destruct Ht as [Hr Hs]. split; [|done]. apply (traced_trans _ [] _ (map Did es) _ (keeps_conn c s) Hr). }
  destruct (wi_outcome (cn_wires (conn s)) !! rx) as [o|]; [|destruct expired]; cbn iota.
  - apply Hk.
  - apply Hk.
  - split; [apply traced_refl|done].
Qed.

Theorem kept (s : S) (ops : list op) :
  let l := run_live b s ops in
  R s (lv_log l) (lv_state l) /\ (forall n t, lv_tasks l !! n = Some t -> steady (did R) t).
Proof.
  cbn zeta. induction ops as [|o ops [IH IHt]] using rev_ind.
  { split; [apply traced_refl|]. intros n t H. cbn in H. by rewrite lookup_empty in H. }
  rewrite run_live_snoc. set (l := run_live b s ops) in *. clearbody l.
  assert (forall n m l0 x, lv_state l0 = lv_state l -> lv_tasks l0 = lv_tasks l -> lv_log l0 = lv_log l ++ x ->
    match m (lv_state l) with (s', es, t) => R (lv_state l) (x ++ map Did es) s' /\ steady (did R) t end ->
    R s (lv_log (run_task n m l0)) (lv_state (run_task n m l0)) /\
    (forall k t, lv_tasks (run_task n m l0) !! k = Some t -> steady (did R) t)) as Htask.
  { intros n m l0 x E1 E2 E3 Hm. unfold run_task. rewrite E1, E2, E3. destruct (m (lv_state l)) as [[s' es] t]. cbn.
    destruct Hm as [Hr Hs]. split; [rewrite <-app_assoc; by eapply traced_trans|].
    intros k t' [[<- <-]|[Hne Hk]]%lookup_insert_Some; [done|by eapply IHt]. }
  assert (forall m l0 x, lv_state l0 = lv_state l -> lv_tasks l0 = lv_tasks l -> lv_log l0 = lv_log l ++ x ->
    match m (lv_state l) with (s', es, _) => R (lv_state l) (x ++ map Did es) s' end ->
    R s (lv_log (run_unit m l0)) (lv_state (run_unit m l0)) /\
    (forall k t, lv_tasks (run_unit m l0) !! k = Some t -> steady (did R) t)) as Hunit.
  { intros m l0 x E1 E2 E3 Hm. unfold run_unit. rewrite E1, E2, E3. destruct (m (lv_state l)) as [[s' es] u]. cbn.
    split; [rewrite <-app_assoc; by eapply traced_trans|done]. }
  destruct o as [c|uuid f|n|n| | |]; cbn [live_step].
  - apply (Htask _ _ _ [Called c]); try done. apply keeps_call.
  - destruct (lv_pump l); [|done]. apply (Hunit _ _ [Got f]); try done. apply keeps_frame.
  - destruct (lv_tasks l !! n) as [t|] eqn:E; [|done]. apply (Htask _ _ _ []); rewrite ?app_nil_r; try done.
    apply wake_steady. by eapply IHt.
  - destruct (lv_tasks l !! n) as [t|] eqn:E; [|done]. apply (Htask _ _ _ []); rewrite ?app_nil_r; try done.
    apply wake_steady. by eapply IHt.
  - apply (Hunit _ _ []); rewrite ?app_nil_r; try done. apply keeps_conn.
  - destruct (lv_pump l); [|done]. apply (Hunit _ _ [PumpEnded]); try done. apply keeps_exit.
  - apply (Hunit _ _ []); rewrite ?app_nil_r; try done. apply keeps_conn.
Qed.
End Kept.

(** ** What holds of a run and its log *)

Section Held.
Context {S : Type} `{HC : Connected S} `{JT : JsonText} {call reply : Type} (b : Backend S call reply).
Notation log_entry := (entry (call:=call)).
Context (J : list log_entry -> S -> Prop) (D : list log_entry -> reply -> Prop) (ok : call -> Prop).

(** What a suspended call does keeps [J], whenever it goes on; what it returns is [D]. *)
Fixpoint bound (L : list log_entry) (t : task S reply) : Prop :=
  match t with
  | Done a => D L a
  | Pauses k => forall es s, J (L ++ es) s -> match k s with (s', new, t') => J ((L ++ es) ++ map Did new) s' /\ bound ((L ++ es) ++ map Did new) t' end
  | Waits _ _ _ k =>
      forall r es s, J (L ++ es) s -> match k r s with (s', new, t') => J ((L ++ es) ++ map Did new) s' /\ bound ((L ++ es) ++ map Did new) t' end
  end.

(** The same of a call that has yet to run. *)
Definition bounded (L : list log_entry) (m : handler S effect (task S reply)) : Prop :=
  forall es s, J (L ++ es) s -> match m s with (s', new, t) => J ((L ++ es) ++ map Did new) s' /\ bound ((L ++ es) ++ map Did new) t end.

Class Holds := {
  holds_done L es a : D L a -> D (L ++ es) a;
  holds_conn L c s : J L s -> J L (set_conn c s);
  holds_call L c s : ok c -> J L s ->
    match b_call b c s with (s', new, t) => J ((L ++ [Called c]) ++ map Did new) s' /\ bound ((L ++ [Called c]) ++ map Did new) t end;
  holds_frame L uuid f s : J L s -> match b_frame b uuid f s with (s', es, _) => J (L ++ Got f :: map Did es) s' end;
  holds_exit L s : J L s -> match b_exit b s with (s', es, _) => J (L ++ PumpEnded :: map Did es) s' end
}.

Definition holding (l : live S call reply) : Prop :=
  J (lv_log l) (lv_state l) /\ forall n t, lv_tasks l !! n = Some t -> bound (lv_log l) t.

Definition op_ok (o : op (call:=call)) : Prop := match o with Call c => ok c | _ => True end.

Context `{HH : Holds}.

Lemma bounded_more L es m : bounded L m -> bounded (L ++ es) m.
Proof. intros Hm es' s HJ. rewrite <-app_assoc in HJ |- *. by apply Hm. Qed.

Lemma bound_more L es t : bound L t -> bound (L ++ es) t.
Proof.
  destruct t as [a|k|rx id timeout k]; cbn [bound]; [apply holds_done| |].
  - intros Hk es' s HJ. rewrite <-app_assoc in HJ |- *. by apply Hk.
  - intros Hk r es' s HJ. rewrite <-app_assoc in HJ |- *. by apply Hk.
Qed.

Lemma bounded_now L m s : bounded L m -> J L s -> match m s with (s', new, t) => J (L ++ map Did new) s' /\ bound (L ++ map Did new) t end.
Proof. intros Hm HJ. specialize (Hm [] s). rewrite app_nil_r in Hm. by apply Hm. Qed.

Lemma bounded_finish L a : (forall es s, J (L ++ es) s -> D (L ++ es) a) -> bounded L (finish a).
Proof. intros Ha es s HJ. cbn. rewrite app_nil_r. split; [done|by eapply Ha]. Qed.

Lemma bounded_bind {A} L (m : handler S effect A) k :
  (forall es s, J (L ++ es) s -> match m s with (s', new, x) => J ((L ++ es) ++ map Did new) s' /\ bounded ((L ++ es) ++ map Did new) (k x) end) ->
  bounded L (bind m k).
Proof.
  intros Hm es s HJ. unfold bind. specialize (Hm es s HJ). destruct (m s) as [[s1 new] x]. destruct Hm as [HJ1 Hk].
  pose proof (bounded_now _ _ _ Hk HJ1) as H2. destruct (k x s1) as [[s2 new2] t]. by rewrite map_app, (app_assoc (L ++ es)).
Qed.

Lemma bounded_round L read id frame timeout k :
  (forall es s, J (L ++ es) s -> J ((L ++ es) ++ [Did (Sent frame)]) s) ->
  (forall es r, bounded ((L ++ es) ++ [Did (Sent frame)]) (k r)) -> bounded L (k (Err pipe_error)) ->
  bounded L (round read id frame timeout k).
Proof using HH.
  intros Hsent Hk He es s HJ. unfold round, begin_request. destruct (cn_open (conn s)); cbn.
  - split; [by apply Hsent, holds_conn|]. intros r es' s' HJ'. by apply Hk.
  - by apply He, holds_conn.
Qed.

(** A relation that keeps [J] keeps it in a call of that relation. *)
Lemma steady_bound (R : S -> list log_entry -> S -> Prop) :
  (forall L s es s', J L s -> did R s es s' -> J (L ++ map Did es) s') -> (forall L a, D L a) ->
  forall t L, steady (did R) t -> bound L t.
Proof using.
  intros HR Ha. fix IH 1. intros [a|k|rx id timeout k] L; cbn [steady bound]; [done| |].
  - intros Hk es s HJ. specialize (Hk s). destruct (k s) as [[s' new] t']. destruct Hk as [Hr Ht].
    split; [by eapply HR|by apply IH].
  - intros Hk r es s HJ. specialize (Hk r s). destruct (k r s) as [[s' new] t']. destruct Hk as [Hr Ht].
    split; [by eapply HR|by apply IH].
Qed.

Lemma run_task_holding n m l :
  match m (lv_state l) with (s', new, t) => J (lv_log l ++ map Did new) s' /\ bound (lv_log l ++ map Did new) t end ->
  (forall k t, lv_tasks l !! k = Some t -> bound (lv_log l) t) -> holding (run_task n m l).
Proof.
  intros Hm Ht. unfold run_task. destruct (m (lv_state l)) as [[s' new] t]. destruct Hm as [HJ' Hb]. split; [done|]. cbn. intros k u [[<- <-]|[_ Hk]]%lookup_insert_Some; [done|]. by eapply bound_more, Ht.
Qed.

Lemma run_unit_holding m l : match m (lv_state l) with (s', es, _) => J (lv_log l ++ map Did es) s' end -> holding l -> holding (run_unit m l).
Proof.
  intros Hm [HJ Ht]. unfold run_unit. destruct (m (lv_state l)) as [[s' es] u]. split; [done|].
  intros n t Hn. by eapply bound_more, Ht.
Qed.

Lemma bounded_wake expired t L : bound L t -> bounded L (wake expired t).
Proof.
  intros Ht es s HJ. destruct t as [a|k|rx id timeout k]; cbn [wake].
  - cbn. rewrite app_nil_r. split; [done|]. by apply holds_done.
  - by apply Ht.
  - destruct (wi_outcome _ !! rx) as [o|]; [|destruct expired]; cbn iota; try (by apply Ht, holds_conn).
    cbn. rewrite app_nil_r. split; [done|]. by apply (bound_more L es (Waits rx id timeout k)).
Qed.

Lemma step_holding l o : op_ok o -> holding l -> holding (live_step b l o).
Proof.
  intros Ho [HJ Ht]. destruct o as [c|uuid f|n|n| | |]; cbn [live_step].
  - apply run_task_holding; [by apply (holds_call (lv_log l) c)|]. intros n t Hn. cbn. by eapply bound_more, Ht.
  - destruct (lv_pump l); [|done]. unfold run_unit. pose proof (holds_frame _ uuid f _ HJ) as H. cbn.
    destruct (b_frame b uuid f (lv_state l)) as [[s' es] u]. split; cbn; rewrite <-app_assoc; [done|].
    intros n t Hn. by eapply bound_more, Ht.
  - destruct (lv_tasks l !! n) as [t|] eqn:E; [|done]. apply run_task_holding; [|done].
    eapply bounded_now; [by eapply bounded_wake, Ht|done].
  - destruct (lv_tasks l !! n) as [t|] eqn:E; [|done]. apply run_task_holding; [|done].
    eapply bounded_now; [by eapply bounded_wake, Ht|done].
  - apply run_unit_holding; [cbn; rewrite app_nil_r; by apply holds_conn|done].
  - destruct (lv_pump l); [|done]. unfold run_unit. pose proof (holds_exit _ _ HJ) as H. cbn.
    destruct (b_exit b (lv_state l)) as [[s' es] u]. split; cbn; rewrite <-app_assoc; [done|].
    intros n t Hn. by eapply bound_more, Ht.
  - apply run_unit_holding; [cbn; rewrite app_nil_r; by apply holds_conn|done].
Qed.

Lemma held ops l : Forall op_ok ops -> holding l -> holding (fold_left (live_step b) ops l).
Proof.
  revert l. induction ops as [|o ops IH]; intros l Hops Hl; [done|]. inversion Hops; subst. apply IH; [done|]. by apply step_holding.
Qed.
End Held.
