(* ===== verification/RequestsLive.v ===== *)
(** * RequestsLive: no call outlives its agent

    When the output of an agent has ended and its pipe is closed ([gone]), every
    suspended call of the session goes on at once and is done, whatever it still
    wanted to ask; new calls are done right away.  A call that went on between the
    two may have asked in vain: it is done when its time is up. *)

From S2P Require Import Prelude Str Json Events Transport Handler AgentLog Requests.

Section Sound.
Context {S : Type} `{HC : Connected S} `{JT : JsonText}.

Notation wires_of s := (cn_wires (conn s)).
Notation closed s := (cn_open (conn s) = false).

(** Waiters are only added and settled, and a closed pipe stays closed. *)
Definition grows (s s' : S) : Prop :=
  (wires_ok (wires_of s) ->
   wires_ok (wires_of s') /\ wi_next (wires_of s) <= wi_next (wires_of s') /\
   forall n o, wi_outcome (wires_of s) !! n = Some o -> wi_outcome (wires_of s') !! n = Some o) /\
  (closed s -> closed s').

Definition growing (s : S) (_ : list effect) (s' : S) : Prop := grows s s'.

Lemma grows_trans s1 s2 s3 : grows s1 s2 -> grows s2 s3 -> grows s1 s3.
Proof.
  intros [H1 C1] [H2 C2]. split; [|tauto]. intros Hw.
  destruct (H1 Hw) as (Hw2 & Hn1 & Ho1). destruct (H2 Hw2) as (Hw3 & Hn2 & Ho2). split; [done|]. split; [lia|eauto].
Qed.

#[export] Instance growing_traced : Traced growing.
Proof. split; [by split|]. intros s1 es1 s2 es2 s3. apply grows_trans. Qed.

Lemma grows_same s s' : conn s' = conn s -> grows s s'.
Proof. intros E. split; rewrite E; [|done]. intros Hw. split; [done|]. split; [lia|done]. Qed.

Lemma grows_step op s : grows s (set_conn (with_wires (wire_step (wires_of s) op) (conn s)) s).
Proof.
  split; rewrite conn_set; [|done]. cbn [cn_wires with_wires]. intros Hw. split; [by apply wire_step_ok|].
  split; [|intros n o; by apply wire_step_outcome].
  destruct op as [id|id r|id|]; cbn [wire_step]; [cbn; lia| |done|done]. unfold resolve. by destruct (wi_pending _ !! id).
Qed.

Definition is_done {A} (t : task S A) : Prop := match t with Done _ => True | _ => False end.

(** Not waiting for the agent. *)
Definition waitless {A} (t : task S A) : Prop := match t with Waits _ _ _ _ => False | _ => True end.

(** A suspended call waits on a waiter that was made, goes on soundly, and with
    the pipe closed is done when it goes on. *)
Fixpoint sound_task {A} (t : task S A) (s : S) : Prop :=
  match t with
  | Done _ => True
  | Pauses k => forall s, match k s with (s', _, t') => grows s s' /\ (closed s -> is_done t') /\ (wires_ok (wires_of s) -> sound_task t' s') end
  | Waits rx _ _ k =>
      rx < wi_next (wires_of s) /\
      forall r s, match k r s with (s', _, t') => grows s s' /\ (closed s -> is_done t') /\ (wires_ok (wires_of s) -> sound_task t' s') end
  end.

Definition sound {A} (m : handler S effect (task S A)) : Prop :=
  forall s, match m s with (s', _, t) => grows s s' /\ (closed s -> is_done t) /\ (wires_ok (wires_of s) -> sound_task t s') end.

(** A call that may pause before it goes on. *)
Definition sound_call {A} (m : handler S effect (task S A)) : Prop :=
  forall s, match m s with (s', _, t) => grows s s' /\ (closed s -> waitless t) /\ (wires_ok (wires_of s) -> sound_task t s') end.

Lemma sound_to_call {A} (m : handler S effect (task S A)) : sound m -> sound_call m.
Proof.
  intros Hm s. specialize (Hm s). destruct (m s) as [[s' es] t]. destruct Hm as (Hg & Hd & Ht). split; [done|]. split; [|done].
  intros Hc%Hd. by destruct t.
Qed.

Lemma sound_pause {A} (k : handler S effect (task S A)) : sound k -> sound_call (pause k).
Proof. intros Hk s. split; [by apply grows_same|]. done. Qed.

Lemma sound_done {A} (a : A) : sound (finish a).
Proof. intros s. split; [by apply grows_same|done]. Qed.

Lemma sound_bind {A B} (m : handler S effect A) (k : A -> handler S effect (task S B)) :
  obeys growing m -> (forall x, sound (k x)) -> sound (bind m k).
Proof.
  intros Hm Hk s. unfold bind. specialize (Hm s). destruct (m s) as [[s1 es1] x]. specialize (Hk x s1).
  destruct (k x s1) as [[s2 es2] t]. destruct Hk as (Hg & Hd & Ht). split; [by eapply grows_trans|].
  destruct Hm as [Hw Hc]. split; [tauto|]. intros Hok. apply Ht, Hw, Hok.
Qed.

Lemma sound_round {A} read id frame timeout (k : result json rstr -> handler S effect (task S A)) :
  (forall r, sound (k r)) -> sound (round read id frame timeout k).
Proof.
  intros Hk s. unfold round, begin_request, expect. pose proof (grows_step (Expect id) s) as Hg. cbn [wire_step expect fst] in Hg.
  set (s1 := set_conn _ s) in *. destruct (cn_open (conn s)) eqn:E; cbn.
  - split; [done|]. split; [done|]. intros Hw. split; [subst s1; rewrite conn_set; cbn; lia|]. intros r s2. apply Hk.
  - specialize (Hk (Err pipe_error) s1). destruct (k _ s1) as [[s2 es] t]. destruct Hk as (Hg2 & Hd & Ht).
    split; [by eapply grows_trans|]. destruct Hg as [Hgw Hgc]. split; [intros _; by apply Hd, Hgc|].
    intros Hw. by apply Ht, Hgw.
Qed.

Lemma sound_call_gets {A B} (f : S -> A) (k : A -> handler S effect (task S B)) :
  (forall x, sound_call (k x)) -> sound_call (bind (gets f) k).
Proof.
  intros Hk s. unfold bind, gets. specialize (Hk (f s) s). by destruct (k (f s) s) as [[s' es] t].
Qed.

Lemma sound_roundtrip {A} id frame timeout (k : result json rstr -> handler S effect (task S A)) :
  (forall r, sound (k r)) -> sound (roundtrip id frame timeout k).
Proof. apply sound_round. Qed.

Lemma growing_modify f : (forall s, conn (f s) = conn s) -> obeys growing (modify f).
Proof. intros Hf s. apply grows_same, Hf. Qed.

Lemma growing_log e : obeys growing (log e).
Proof. intros s. by apply grows_same. Qed.

Lemma growing_send frame : obeys growing (send frame).
Proof. intros s. unfold send. by destruct (cn_open (conn s)); apply grows_same. Qed.

Lemma growing_resolve id r : obeys growing (resolve_wait id r).
Proof. intros s. apply (grows_step (Resolve id r)). Qed.

Lemma sound_task_grows {A} (t : task S A) s s' : grows s s' -> wires_ok (wires_of s) -> sound_task t s -> sound_task t s'.
Proof.
  intros [Hg _] Hw. destruct t as [a|k|rx id timeout k]; [done|done|]. intros [Hrx Hk]. split; [|done].
  destruct (Hg Hw) as (_ & Hn & _). lia.
Qed.

Lemma sound_wake {A} expired (t : task S A) s : sound_task t s -> wires_ok (wires_of s) ->
  match wake expired t s with (s', _, t') => grows s s' /\ sound_task t' s' end.
Proof.
  destruct t as [a|k|rx id timeout k]; intros Ht Hw; cbn [wake]; [split; [by apply grows_same|done]| |].
  { specialize (Ht s). destruct (k s) as [[s' es] t']. destruct Ht as (Hg & _ & Ht). split; [done|]. by apply Ht. }
  assert (forall r s1, grows s s1 -> match k r s1 with (s', _, t') => grows s s' /\ sound_task t' s' end) as Hk.
  { intros r s1 Hg. destruct Ht as [_ Ht]. specialize (Ht r s1). destruct (k r s1) as [[s2 es] t']. destruct Ht as (Hg2 & _ & Ht).
    split; [by eapply grows_trans|]. apply Ht. by apply Hg. }
  assert (grows s (set_conn (with_wires (wires_of s) (conn s)) s)) as Hsame.
  { apply grows_same. rewrite conn_set. by destruct (conn s). }
  destruct (wi_outcome _ !! rx) as [o|]; [|destruct expired]; cbn iota.
  - by apply Hk.
  - apply (Hk _ _ (grows_step (Forget id) s)).
  - split; [by apply grows_same|done].
Qed.

(** ** Runs *)

Context {call reply : Type} (b : Backend S call reply).
Hypothesis call_sound : forall c, sound_call (b_call b c).
Hypothesis frame_grows : forall uuid f, obeys growing (b_frame b uuid f).
Hypothesis exit_grows : obeys growing (b_exit b).

Definition live_sound (l : live S call reply) : Prop :=
  wires_ok (wires_of (lv_state l)) /\ forall n t, lv_tasks l !! n = Some t -> sound_task t (lv_state l).

(** No suspended call is without an outcome. *)
Definition drained (l : live S call reply) : Prop :=
  forall n rx id timeout k, lv_tasks l !! n = Some (Waits rx id timeout k) -> is_Some (wi_outcome (wires_of (lv_state l)) !! rx).

Definition all_settled (l : live S call reply) : Prop := closed (lv_state l) /\ drained l.

(** What lets a call go on, and so may ask the agent for something. *)
Definition goes_on (o : op (call:=call)) : bool := match o with Call _ | Wake _ | Expire _ => true | _ => false end.

(** The output has ended and the pipe is closed, in either order; when the
    output ended first, no call went on before the pipe was closed. *)
Definition gone (ops : list (op (call:=call))) : Prop :=
  exists a b c, ops = a ++ PipeCloses :: b ++ OutputEnds :: c \/
    (ops = a ++ OutputEnds :: b ++ PipeCloses :: c /\ Forall (fun o => goes_on o = false) b).

Lemma run_unit_sound l m : live_sound l -> obeys growing m ->
  live_sound (run_unit m l) /\ grows (lv_state l) (lv_state (run_unit m l)).
Proof.
  intros [Hw Ht] Hm. unfold run_unit. specialize (Hm (lv_state l)). destruct (m (lv_state l)) as [[s' es] u].
  split; [|done]. split; [by apply Hm|]. intros n t Hn. cbn in *. eapply sound_task_grows; eauto.
Qed.

Lemma run_task_sound l n m : live_sound l ->
  match m (lv_state l) with (s', _, t) => grows (lv_state l) s' /\ sound_task t s' end ->
  live_sound (run_task n m l) /\ grows (lv_state l) (lv_state (run_task n m l)).
Proof.
  intros [Hw Ht] Hm. unfold run_task. destruct (m (lv_state l)) as [[s' es] t]. destruct Hm as [Hg Hs].
  split; [|done]. split; [by apply Hg|]. cbn. intros k u [[<- <-]|[_ Hk]]%lookup_insert_Some; [done|].
  eapply sound_task_grows; eauto.
Qed.

Lemma growing_step op : obeys growing (fun s => (set_conn (with_wires (wire_step (wires_of s) op) (conn s)) s, [], tt)).
Proof. intros s. apply grows_step. Qed.

Lemma growing_close : obeys growing close_pipe.
Proof. intros s. split; cbn; rewrite conn_set; [|done]. intros Hw. by split_and!. Qed.

Lemma step_sound l o : live_sound l -> live_sound (live_step b l o) /\ grows (lv_state l) (lv_state (live_step b l o)).
Proof.
  intros Hl. pose proof (grows_same (lv_state l) _ eq_refl) as Hsame.
  destruct o as [c|uuid f|n|n| | |]; cbn [live_step].
  - set (l0 := {| lv_calls := _ |}). apply (run_task_sound l0); [exact Hl|]. pose proof (call_sound c (lv_state l)) as Hc. cbn [l0 lv_state].
    destruct (b_call b c (lv_state l)) as [[s' es] t]. destruct Hc as (Hg & _ & Ht). split; [done|]. apply Ht, Hl.
  - destruct (lv_pump l); [|done]. apply (run_unit_sound (noted (Got f) l)); [exact Hl|apply frame_grows].
  - destruct (lv_tasks l !! n) as [t|] eqn:E; [|done]. apply run_task_sound; [exact Hl|]. apply sound_wake; [by eapply Hl|apply Hl].
  - destruct (lv_tasks l !! n) as [t|] eqn:E; [|done]. apply run_task_sound; [exact Hl|]. apply sound_wake; [by eapply Hl|apply Hl].
  - apply run_unit_sound; [done|]. apply (growing_step ReaderEnds).
  - destruct (lv_pump l); [|done]. apply (run_unit_sound {| lv_state := lv_state l; lv_tasks := lv_tasks l; lv_calls := lv_calls l;
      lv_pump := false; lv_log := lv_log l ++ [PumpEnded] |}); [exact Hl|apply exit_grows].
  - apply run_unit_sound; [done|apply growing_close].
Qed.

Lemma run_sound s ops : wires_ok (wires_of s) -> live_sound (run_live b s ops).
Proof.
  intros Hw. induction ops as [|o ops IH] using rev_ind; [|rewrite run_live_snoc; by apply step_sound].
  split; [done|]. intros n t H. cbn in H. by rewrite lookup_empty in H.
Qed.

(** *** With the agent gone *)

Lemma keep_drained l l' : live_sound l -> drained l -> grows (lv_state l) (lv_state l') ->
  (forall n t, lv_tasks l' !! n = Some t -> lv_tasks l !! n = Some t \/ waitless t) -> drained l'.
Proof.
  intros [Hw _] Ho [Hg _] Ht n rx id timeout k Hn.
  destruct (Ht _ _ Hn) as [Hold|[]]. destruct (Ho _ _ _ _ _ Hold) as [o Hrx]. exists o. by apply Hg.
Qed.

Lemma keep_settled l l' : live_sound l -> all_settled l -> grows (lv_state l) (lv_state l') ->
  (forall n t, lv_tasks l' !! n = Some t -> lv_tasks l !! n = Some t \/ waitless t) -> all_settled l'.
Proof. intros Hl [Hc Ho] Hg Ht. split; [by apply Hg|by eapply keep_drained]. Qed.

Lemma step_drained l o : live_sound l -> drained l -> goes_on o = false -> drained (live_step b l o).
Proof.
  intros Hl Hd Ho. destruct (step_sound l o Hl) as [_ Hg]. eapply keep_drained; [done|done|exact Hg|].
  destruct o as [c|uuid f|n|n| | |]; try done; cbn [live_step]; try (destruct (lv_pump l); [|by left]); unfold run_unit;
    [destruct (b_frame b uuid f _) as [[s' es] u]|idtac|destruct (b_exit b _) as [[s' es] u]|idtac]; by left.
Qed.

(** Reading on to the end gives every waiter its outcome. *)
Lemma output_drains l : live_sound l -> drained (live_step b l OutputEnds).
Proof.
  intros [Hok Hs] k rx id timeout c Hk. cbn in Hk |- *. rewrite !conn_set. destruct (Hs _ _ Hk) as [Hrx _].
  apply (wo_made _ (wire_step_ok _ ReaderEnds Hok)) in Hrx as [[i Hi]|Hi]; [cbn in Hi; by rewrite lookup_empty in Hi|done].
Qed.

(** A call that goes on when all is settled is done. *)
Lemma settled_wake l n t expired : live_sound l -> all_settled l -> lv_tasks l !! n = Some t ->
  match wake expired t (lv_state l) with (_, _, t') => is_done t' end.
Proof.
  intros [Hw Hs] [Hc Ho] Hn. destruct t as [a|k|rx id timeout k]; [done| |].
  { cbn [wake]. pose proof (Hs _ _ Hn (lv_state l)) as Hk. destruct (k (lv_state l)) as [[s' es] t']. by apply Hk. }
  cbn [wake]. destruct (Ho _ _ _ _ _ Hn) as [o Hrx].
  rewrite Hrx. destruct (Hs _ _ Hn) as [_ Hk].
  assert (forall r, match k r (set_conn (with_wires (wires_of (lv_state l)) (conn (lv_state l))) (lv_state l)) with (_, _, t') => is_done t' end) as Hd.
  { intros r. specialize (Hk r (set_conn (with_wires (wires_of (lv_state l)) (conn (lv_state l))) (lv_state l))).
    destruct (k r _) as [[s' es] t']. destruct Hk as (_ & Hd & _). apply Hd. by rewrite conn_set. }
  apply Hd.
Qed.

(** With the pipe closed, a call whose time is up is done. *)
Lemma closed_expire l n : live_sound l -> closed (lv_state l) -> is_Some (lv_tasks l !! n) ->
  exists a, lv_tasks (live_step b l (Expire n)) !! n = Some (Done a).
Proof.
  intros [Hw Hs] Hc [t Hn]. cbn [live_step]. rewrite Hn. unfold run_task. specialize (Hs n t Hn).
  assert (match wake true t (lv_state l) with (_, _, t') => is_done t' end) as Hd.
  { destruct t as [a|k|rx id timeout k]; [done| |]; cbn [wake].
    { specialize (Hs (lv_state l)). destruct (k (lv_state l)) as [[s' es] t']. by apply Hs. }
    destruct Hs as [_ Hk].
    assert (forall r w, match k r (set_conn (with_wires w (conn (lv_state l))) (lv_state l)) with (_, _, t') => is_done t' end) as Hd.
    { intros r w. specialize (Hk r (set_conn (with_wires w (conn (lv_state l))) (lv_state l))).
      destruct (k r _) as [[s' es] t']. apply Hk. by rewrite conn_set. }
    destruct (wi_outcome _ !! rx) as [o|]; apply Hd. }
  destruct (wake true t (lv_state l)) as [[s' es] t']. cbn. rewrite lookup_insert_eq. destruct t' as [a| |]; [by exists a|done..].
Qed.

Lemma inserted_or_kept (m : gmap nat (task S reply)) n t : waitless t ->
  forall k u, <[n := t]> m !! k = Some u -> m !! k = Some u \/ waitless u.
Proof. intros Ht k u [[<- <-]|[_ Hk]]%lookup_insert_Some; [by right|by left]. Qed.

Lemma step_settled l o : live_sound l -> all_settled l -> all_settled (live_step b l o).
Proof.
  intros Hl Hs. destruct (step_sound l o Hl) as [_ Hg]. eapply keep_settled; [exact Hl|exact Hs|exact Hg|]. clear Hg.
  assert (forall n t, lv_tasks l !! n = Some t -> lv_tasks l !! n = Some t \/ waitless t) as Hold by auto.
  assert (forall n t expired, lv_tasks l !! n = Some t ->
    forall k u, lv_tasks (run_task n (wake expired t) l) !! k = Some u -> lv_tasks l !! k = Some u \/ waitless u) as Hwake.
  { intros n t expired Hn. unfold run_task. pose proof (settled_wake l n t expired Hl Hs Hn) as Hd.
    destruct (wake expired t (lv_state l)) as [[s' es] t']. apply inserted_or_kept. by destruct t'. }
  destruct o as [c|uuid f|n|n| | |]; cbn [live_step].
  - unfold run_task. cbn [lv_state]. pose proof (call_sound c (lv_state l)) as Hc. destruct (b_call b c (lv_state l)) as [[s' es] t].
    apply inserted_or_kept. apply Hc, Hs.
  - destruct (lv_pump l); [|done]. unfold run_unit. by destruct (b_frame b uuid f _) as [[s' es] u].
  - destruct (lv_tasks l !! n) as [t|] eqn:E; [by apply Hwake|done].
  - destruct (lv_tasks l !! n) as [t|] eqn:E; [by apply Hwake|done].
  - done.
  - destruct (lv_pump l); [|done]. unfold run_unit. by destruct (b_exit b _) as [[s' es] u].
  - done.
Qed.

Lemma settled_wake_done l n : live_sound l -> all_settled l -> is_Some (lv_tasks l !! n) ->
  exists a, lv_tasks (live_step b l (Wake n)) !! n = Some (Done a).
Proof.
  intros Hl Hs [t Hn]. cbn [live_step]. rewrite Hn. unfold run_task. pose proof (settled_wake l n t false Hl Hs Hn) as Hd.
  destruct (wake false t (lv_state l)) as [[s' es] t']. cbn. rewrite lookup_insert_eq. destruct t' as [a| |]; [by exists a|done..].
Qed.

(** A call is in the table from when it is made. *)
Definition calls_listed (l : live S call reply) : Prop := forall n, n < lv_calls l -> is_Some (lv_tasks l !! n).

Lemma run_unit_listed m l : calls_listed l -> calls_listed (run_unit m l).
Proof. unfold run_unit. by destruct (m (lv_state l)) as [[s' es] u]. Qed.

Lemma run_task_listed k m l : (forall n, n < lv_calls l -> n <> k -> is_Some (lv_tasks l !! n)) -> calls_listed (run_task k m l).
Proof.
  intros Hl n. unfold run_task. destruct (m (lv_state l)) as [[s' es] t]. cbn. intros Hn.
  destruct (decide (n = k)) as [->|Hne]; [rewrite lookup_insert_eq; by eexists|]. rewrite lookup_insert_ne by done. by apply Hl.
Qed.

Lemma step_listed l o : calls_listed l -> calls_listed (live_step b l o).
Proof.
  intros Hl. destruct o as [c|uuid f|k|k| | |]; cbn [live_step].
  - apply run_task_listed. cbn. intros n Hn Hne. apply Hl. lia.
  - destruct (lv_pump l); [|done]. by apply run_unit_listed.
  - destruct (lv_tasks l !! k) as [t|]; [|done]. apply run_task_listed. intros n Hn _. by apply Hl.
  - destruct (lv_tasks l !! k) as [t|]; [|done]. apply run_task_listed. intros n Hn _. by apply Hl.
  - by apply run_unit_listed.
  - destruct (lv_pump l); [|done]. by apply run_unit_listed.
  - by apply run_unit_listed.
Qed.

Lemma run_listed s ops : calls_listed (run_live b s ops).
Proof.
  induction ops as [|o ops IH] using rev_ind; [intros n Hn; cbn in Hn; lia|]. rewrite run_live_snoc. by apply step_listed.
Qed.

(** What a run has kept since a point of it. *)
Lemma run_since (P : live S call reply -> Prop) (Q : op (call:=call) -> Prop) s xs ys : wires_ok (wires_of s) ->
  (forall l o, live_sound l -> P l -> Q o -> P (live_step b l o)) -> Forall Q ys ->
  P (run_live b s xs) -> P (run_live b s (xs ++ ys)).
Proof.
  intros Hw Hstep HQ Hx. induction ys as [|o ys IH] using rev_ind; [by rewrite app_nil_r|].
  apply Forall_app in HQ as [HQ Ho]. rewrite app_assoc, run_live_snoc.
  apply Hstep; [by apply run_sound|by apply IH|by inversion Ho].
Qed.

Lemma step_closed l o : live_sound l -> closed (lv_state l) -> closed (lv_state (live_step b l o)).
Proof. intros Hl. apply (step_sound l o Hl). Qed.

Lemma pipe_closes s a c : wires_ok (wires_of s) -> closed (lv_state (run_live b s (a ++ PipeCloses :: c))).
Proof.
  intros Hw. rewrite cons_middle, app_assoc. apply (run_since (fun l => closed (lv_state l)) (fun _ => True)); [done| |by apply Forall_true|].
  - intros l o Hl Hc _. by apply step_closed.
  - rewrite run_live_snoc. cbn. by rewrite conn_set.
Qed.

Lemma gone_settled s ops : wires_ok (wires_of s) -> gone ops -> all_settled (run_live b s ops).
Proof.
  intros Hw (x & y & z & [->|[-> Hy]]).
  - rewrite app_comm_cons, app_assoc, cons_middle, app_assoc.
    apply (run_since all_settled (fun _ => True)); [done|intros l o Hl Hs _; by apply step_settled|by apply Forall_true|].
    rewrite run_live_snoc. pose proof (run_sound s (x ++ PipeCloses :: y) Hw) as Hl.
    split; [apply step_closed; [done|by apply pipe_closes]|by apply output_drains].
  - rewrite app_comm_cons, app_assoc, cons_middle, app_assoc.
    apply (run_since all_settled (fun _ => True)); [done|intros l o Hl Hs _; by apply step_settled|by apply Forall_true|].
    assert (drained (run_live b s (x ++ OutputEnds :: y))) as Hd.
    { rewrite cons_middle, app_assoc. apply (run_since drained (fun o => goes_on o = false)); [done|apply step_drained|done|].
      rewrite run_live_snoc. by apply output_drains, run_sound. }
    rewrite run_live_snoc. split; [cbn; by rewrite conn_set|]. apply step_drained; [by apply run_sound|done|done].
Qed.

(** With the pipe closed, any call made is done once its time is up; with the
    agent gone, once it is woken; whatever happened before and happens after. *)
Lemma calls_end s ops n : wires_ok (wires_of s) ->
  let l := run_live b s ops in
  n < lv_calls l ->
  (PipeCloses ∈ ops -> exists a, lv_tasks (live_step b l (Expire n)) !! n = Some (Done a)) /\
  (gone ops -> exists a, lv_tasks (live_step b l (Wake n)) !! n = Some (Done a)).
Proof.
  intros Hw. cbn zeta. intros Hn%run_listed. pose proof (run_sound s ops Hw) as Hl. split.
  - intros (x & z & ->)%list_elem_of_split. apply closed_expire; [done|by apply pipe_closes|done].
  - intros Hg. by apply settled_wake_done; [|apply gone_settled|].
Qed.
End Sound.

(** Follows a call down to its steps. *)
Ltac sounds := repeat match goal with
  | |- sound_call (pause _) => apply sound_pause
  | |- sound_call (bind (gets _) _) => apply sound_call_gets; intros ?
  | |- sound_call (match ?x with _ => _ end) => destruct x
  | |- sound_call _ => apply sound_to_call
  | |- sound (bind _ _) => apply sound_bind; [|intros ?]
  | |- sound (finish _) => apply sound_done
  | |- sound (roundtrip _ _ _ _) => apply sound_roundtrip; intros ?
  | |- sound (round _ _ _ _ _) => apply sound_round; intros ?
  | |- sound (or_fail ?r _) => unfold or_fail; destruct r
  | |- sound (match ?x with _ => _ end) => destruct x
  | |- sound (let _ := _ in _) => cbv zeta
  | |- obeys _ (bind _ _) => apply obeys_bind; [|intros ?]
  | |- obeys _ (ret _) => apply obeys_ret
  | |- obeys _ (gets _) => apply obeys_gets
  | |- obeys _ (let _ := _ in _) => cbv zeta
  | |- obeys _ (log _) => apply growing_log
  | |- obeys _ (send _) => apply growing_send
  | |- obeys _ (resolve_wait _ _) => apply growing_resolve
  | |- obeys _ (modify _) => apply growing_modify; by intros
  | |- obeys _ (match ?x with _ => _ end) => destruct x
  end.
