(* ===== verification/Follow.v ===== *)
(** * Follow: relations on the log of a session

    What entries of a log say one by one; books, relations that say nothing is
    spent that was not gained; and relations that most steps of a backend do not
    touch, which a tactic follows down its handlers. *)

From S2P Require Import Prelude Str Json Events Transport Handler AgentLog Requests.

Section Logs.
Context {call : Type}.
Notation log_entry := (entry (call:=call)).

(** ** Logs in pieces *)

(** What entries say one by one, put together. *)
Definition said_of {A} (f : log_entry -> list A) (es : list log_entry) : list A := flat_map f es.

Definition of_effect {A} (f : effect -> list A) (x : log_entry) : list A := match x with Did e => f e | _ => [] end.

Lemma said_app {A} (f : log_entry -> list A) es es' : said_of f (es ++ es') = said_of f es ++ said_of f es'.
Proof. apply flat_map_app. Qed.

(** ** Values of a table, with multiplicities *)

Section Table.
Context {A X : Type} (f : A -> X).

Definition held_in (m : gmap rstr A) : list X := map (fun p => f p.2) (map_to_list m).

Lemma held_delete k a m : m !! k = Some a -> f a :: held_in (delete k m) ≡ₚ held_in m.
Proof. intros E. unfold held_in. by rewrite <-(map_to_list_delete _ _ _ E). Qed.

Lemma held_fewer k m : held_in (delete k m) ⊆+ held_in m.
Proof.
  destruct (m !! k) as [a|] eqn:E; [|by rewrite delete_id]. rewrite <-(held_delete _ _ _ E). by apply submseteq_cons.
Qed.

Lemma held_insert k a m : held_in (<[k := a]> m) ⊆+ f a :: held_in m.
Proof.
  unfold held_in. rewrite <-insert_delete_eq, map_to_list_insert by apply lookup_delete_eq. cbn.
  apply submseteq_skip. apply held_fewer.
Qed.
End Table.

(** ** Books *)

Section Books.
Context {S X : Type} (spent gained : log_entry -> list X) (held : S -> list X).

(** What is spent and what is held then was gained or held before. *)
Definition books (s : S) (es : list log_entry) (s' : S) : Prop :=
  said_of spent es ++ held s' ⊆+ said_of gained es ++ held s.

#[export] Instance books_traced : Traced books.
Proof.
  split; [intros s; unfold books; reflexivity|]. intros s1 es1 s2 es2 s3 H1 H2. unfold books in *.
  rewrite !said_app, <-!app_assoc.
  etransitivity; [apply submseteq_app; [reflexivity|exact H2]|].
  rewrite (Permutation_app_swap_app (said_of _ es1)), (Permutation_app_swap_app (said_of _ es1) (said_of _ es2)).
  by apply submseteq_app.
Qed.

Lemma books_same s es s' : said_of spent es = [] -> held s' = held s -> books s es s'.
Proof. unfold books. intros -> ->. by apply submseteq_inserts_l. Qed.

(** More may have been gained. *)
Lemma books_more x s es s' : spent x = [] -> books s es s' -> books s (x :: es) s'.
Proof.
  unfold books. intros Hx H. cbn [said_of flat_map]. fold (said_of spent es). fold (said_of gained es). rewrite Hx. cbn [app].
  etransitivity; [exact H|]. rewrite <-app_assoc. by apply submseteq_inserts_l.
Qed.
End Books.

(** ** Steps a relation does not look at *)

Context {S : Type} `{HC : Connected S}.

(** A relation that looks at [obs] of the state only, and takes no note of the
    effects in [ok]. *)
Class Follows (R : S -> list log_entry -> S -> Prop) {X} (obs : S -> X) (ok : effect -> Prop) := {
  follows_traced :: Traced R;
  follows_obs s s' : obs s' = obs s -> R s [] s';
  follows_ok e s : ok e -> R s [Did e] s;
  follows_conn c s : obs (set_conn c s) = obs s
}.
End Logs.

(** A call, a frame or the pump's end around what was done. *)
Lemma books_called {call S A X} (spent gained : entry (call:=call) -> list X) (held : S -> list X) x (m : handler S effect (task S A)) s :
  spent x = [] -> tasked (did (books spent gained held)) m ->
  match m s with (s', es, t) => books spent gained held s (x :: map Did es) s' /\ steady (did (books spent gained held)) t end.
Proof. intros Hx Hm. specialize (Hm s). destruct (m s) as [[s' es] t]. destruct Hm as [Hr Hs]. split; [by apply books_more|done]. Qed.

Lemma books_noted {call S A X} (spent gained : entry (call:=call) -> list X) (held : S -> list X) x (m : handler S effect A) s :
  spent x = [] -> obeys (did (books spent gained held)) m ->
  match m s with (s', es, _) => books spent gained held s (x :: map Did es) s' end.
Proof. intros Hx Hm. specialize (Hm s). destruct (m s) as [[s' es] a]. by apply books_more. Qed.

(** Books over what [held] reads of [obs]. *)
Lemma books_follow {call S X Y} `{HC : Connected S} (spent gained : entry (call:=call) -> list X) (held : S -> list X) (obs : S -> Y) :
  (forall s s', obs s' = obs s -> held s' = held s) -> (forall c s, obs (set_conn c s) = obs s) ->
  Follows (books spent gained held) obs (fun e => spent (Did e) = []).
Proof.
  intros Hobs Hconn. split; [apply _| | |done].
  - intros s s' E. apply books_same; [done|by apply Hobs].
  - intros e s He. apply books_same; [cbn; by rewrite He|done].
Qed.

Section Follow.
Context {call S : Type} `{HC : Connected S} `{JT : JsonText}.
Notation log_entry := (entry (call:=call)).
Context (R : S -> list log_entry -> S -> Prop) {X} (obs : S -> X) (ok : effect -> Prop) `{HF : !Follows R obs ok}.

Lemma follow_modify f : (forall s, obs (f s) = obs s) -> obeys (did R) (modify f).
Proof using HF. intros Hf s. apply (follows_obs (obs:=obs) (ok:=ok)), Hf. Qed.

Lemma follow_log e : ok e -> obeys (did R) (log e).
Proof using HF. intros He s. by apply (follows_ok (obs:=obs) (ok:=ok)). Qed.

Lemma follow_conn c s : did R s [] (set_conn c s).
Proof using HF. apply (follows_obs (obs:=obs) (ok:=ok)), (follows_conn (R:=R) (ok:=ok)). Qed.

Lemma follow_send frame : ok (Sent frame) -> obeys (did R) (send frame).
Proof using HF. intros Hok. apply obeys_send. intros s. by apply (follows_ok (obs:=obs) (ok:=ok)). Qed.

Lemma follow_resolve id r : ok (Resolved id r) -> obeys (did R) (resolve_wait id r).
Proof using HF. intros Hok. apply obeys_resolve; [apply follow_conn|]. intros s. by apply (follows_ok (obs:=obs) (ok:=ok)). Qed.

Lemma follow_round {A} read id frame timeout (k : result json rstr -> handler S effect (task S A)) :
  ok (Sent frame) -> (forall r, tasked (did R) (k r)) -> tasked (did R) (round read id frame timeout k).
Proof using HF. intros Hok Hk. apply tasked_round; [apply follow_conn| |done]. intros s. by apply (follows_ok (obs:=obs) (ok:=ok)). Qed.
End Follow.

(** Down a handler or a call; what is left are the steps that matter. *)
Ltac follow_with step := repeat match goal with
  | |- tasked _ (bind _ _) => apply tasked_bind; [|intros ?]
  | |- tasked _ (finish _) => apply tasked_done
  | |- tasked _ (pause _) => apply tasked_pause
  | |- tasked _ (or_fail ?r _) => unfold or_fail; destruct r
  | |- _ => step
  | |- tasked _ (round _ _ _ _ _) => eapply follow_round; [apply _|by intros|intros ?]
  | |- tasked _ (match ?x with _ => _ end) => destruct x
  | |- tasked _ (let _ := _ in _) => cbv zeta
  | |- obeys _ (bind _ _) => apply obeys_bind; [|intros ?]
  | |- obeys _ (ret _) => apply obeys_ret
  | |- obeys _ (gets _) => apply obeys_gets
  | |- obeys _ (let _ := _ in _) => cbv zeta
  | |- obeys _ (log _) => eapply follow_log; [apply _|done]
  | |- obeys _ (send _) => eapply follow_send; [apply _|done]
  | |- obeys _ (resolve_wait _ _) => eapply follow_resolve; [apply _|done]
  | |- obeys _ (modify _) => eapply follow_modify; [apply _|by intros]
  | |- obeys _ (match ?x with _ => _ end) => destruct x
  end.
