(* ===== verification/StreamJson.v ===== *)
(** * StreamJson: sessions of the stream-json agents ([backend/streamjson.rs],
    [backend/claude.rs], [backend/qwen.rs])

    An agent's frames become events: the parser shared by the claude family, the
    two dialects, and the persistent session around them with its turn, its
    pending asks and its process.  What handlers do is a small state monad that
    also logs effects: events emitted, frames written, waiters resolved. *)

From S2P Require Import Prelude Str Json PlanStore SessionStore Memory Turn Events Handler AgentLog.

(** ** The session's state and handlers on it *)

Record PendingAsk := { pa_request : PermissionRequest; pa_wire : rstr }.

Record TaskIdentity := { tk_name : rstr; tk_description : rstr }.

(** One session; [st_tasks] belongs to the parser of its backend, which all
    sessions of the backend share; [st_open] is whether writes to the process
    succeed. *)
Record St := {
  st_tasks : gmap rstr TaskIdentity;
  st_native : option rstr; st_asks : gmap rstr PendingAsk; st_turn : option rstr; st_open : bool
}.

Definition with_tasks m s := {| st_tasks := m; st_native := st_native s; st_asks := st_asks s; st_turn := st_turn s; st_open := st_open s |}.
Definition with_native n s := {| st_tasks := st_tasks s; st_native := n; st_asks := st_asks s; st_turn := st_turn s; st_open := st_open s |}.
Definition with_asks a s := {| st_tasks := st_tasks s; st_native := st_native s; st_asks := a; st_turn := st_turn s; st_open := st_open s |}.
Definition with_turn t s := {| st_tasks := st_tasks s; st_native := st_native s; st_asks := st_asks s; st_turn := t; st_open := st_open s |}.
Definition with_open o s := {| st_tasks := st_tasks s; st_native := st_native s; st_asks := st_asks s; st_turn := st_turn s; st_open := o |}.

Definition M : Type -> Type := handler St effect.
Open Scope session_scope.

(** ** What a dialect needs of its session *)

Definition emit (e : Event) : M unit := log (Emitted e).
Definition current_turn : M (option rstr) := gets st_turn.

Definition emit_timeline (item : TimelineItem) : M unit :=
  let! turn := current_turn in emit {| ev_turn := turn; ev_kind := ETimeline item |}.

Definition set_native_handle (id : rstr) : M unit :=
  let! slot := gets st_native in
  match slot with
  | None => modify (with_native (Some id)) ;! emit (outside (EThreadStarted id))
  | Some _ => ret tt
  end.

Definition register_ask (ask : PermissionRequest) (wire_id : rstr) : M unit :=
  modify (fun s => with_asks (<[pr_id ask := {| pa_request := ask; pa_wire := wire_id |}]> (st_asks s)) s) ;!
  let! turn := current_turn in
  emit {| ev_turn := turn; ev_kind := EPermissionRequested ask |} ;!
  emit (outside (EAttentionRequired AttentionPermission)).

Definition finish_turn (kind : StreamEventKind) : M unit :=
  let! turn := current_turn in
  match turn with
  | None => ret tt
  | Some t =>
      modify (with_turn None) ;!
      emit (in_turn t kind) ;!
      emit (outside (EAttentionRequired AttentionFinished))
  end.

Definition resolve_wire (id : rstr) (r : result json json) : M unit := log (Resolved id r).

Definition send_raw (frame : json) : M (result unit rstr) :=
  let! open := gets st_open in
  if open then log (Sent frame) ;! ret (Ok tt) else ret (Err (str "backend pipe closed")).

(** ** The frame parser of the claude family *)

Record ClaudeQuirks := {
  q_tool_detail : rstr -> json -> ToolCallDetail;
  q_openai_tool_calls : bool; q_user_tool_results : bool; q_usage_optional : bool; q_cost_from_frame : bool;
  q_context_from_max_tokens : bool; q_error_field_first : bool; q_detect_interrupt : bool; q_subagent_from_task : bool
}.

Section Parser.
Context `{JT : JsonText}.
Variable quirks : ClaudeQuirks.

Definition is_text (v : json) (k s : string) : bool :=
  match as_str v.[k] with Some t => str_eqb t (str s) | None => false end.

Definition on_system (f : json) : M unit :=
  if is_text f "subtype" "init" then set_native_handle (text_at f "session_id") else ret tt.

Definition subagent_json (ty : string) (id : rstr) (task : TaskIdentity) (status : string) : json :=
  mk_obj [("type", jstr ty); ("id", JStr id); ("name", JStr (tk_name task)); ("description", JStr (tk_description task));
          ("status", jstr status); ("state", jstr status)]%string.

Definition task_started (call_id : rstr) (input : json) : M json :=
  let task := {| tk_name := default (str "Task") (as_str input.["subagent_type"]); tk_description := text_at input "description" |} in
  modify (fun s => with_tasks (<[call_id := task]> (st_tasks s)) s) ;!
  ret (subagent_json "subagent_lifecycle" call_id task "running").

Definition task_finished (call_id : rstr) (is_error : bool) : M (option json) :=
  let! tasks := gets st_tasks in
  match tasks !! call_id with
  | None => ret None
  | Some task =>
      modify (with_tasks (delete call_id tasks)) ;!
      ret (Some (subagent_json "subagent_event" call_id task (if is_error then "failed" else "completed")))
  end.

Definition emit_subagent (event : json) : M unit :=
  let! turn := current_turn in emit {| ev_turn := turn; ev_kind := ESubagent event |}.

Definition emit_subagent_opt (event : option json) : M unit :=
  match event with Some event => emit_subagent event | None => ret tt end.

(** A content block of an assistant frame. *)
Definition on_block (block : json) : M unit :=
  let ty := text_at block "type" in
  if str_eqb ty (str "text") then emit_timeline (TAssistantMessage (text_at block "text"))
  else if str_eqb ty (str "thinking") then emit_timeline (TReasoning (text_at block "thinking"))
  else if str_eqb ty (str "tool_use") then
    let name := text_at block "name" in
    let call := {| tc_call_id := text_at block "id"; tc_name := name; tc_status := ToolRunning;
                   tc_detail := q_tool_detail quirks name block.["input"] |} in
    let! subagent :=
      (if q_subagent_from_task quirks && str_eqb name (str "Task")
       then let! event := task_started (tc_call_id call) block.["input"] in ret (Some event)
       else ret None) in
    emit_timeline (TToolCall call) ;! emit_subagent_opt subagent
  else emit_timeline (TUnknown block).

Definition on_openai_call (call : json) : M unit :=
  let name := text_at call.["function"] "name" in
  emit_timeline (TToolCall {| tc_call_id := text_at call "id"; tc_name := name; tc_status := ToolRunning;
                              tc_detail := q_tool_detail quirks name (call.["function"]).["arguments"] |}).

Definition on_assistant (f : json) : M unit :=
  each on_block (default [] (as_array (f.["message"]).["content"])) ;!
  if q_openai_tool_calls quirks then each on_openai_call (default [] (as_array (f.["message"]).["tool_calls"])) else ret tt.

(** The text of a tool's result. *)
Definition output_text (content : json) : rstr := match content with JStr s => s | other => to_string other end.

Definition tool_result (call_id : rstr) (status : ToolCallStatus) (content : json) : TimelineItem :=
  TToolCall {| tc_call_id := call_id; tc_name := []; tc_status := status;
               tc_detail := UnknownDetail JNull (JStr (output_text content)) |}.

Definition on_user_block (block : json) : M unit :=
  if is_text block "type" "tool_result" then
    let call_id := text_at block "tool_use_id" in
    let is_error := bool_at block "is_error" in
    emit_timeline (tool_result call_id (if is_error then ToolFailed else ToolCompleted) block.["content"]) ;!
    let! event := task_finished call_id is_error in
    emit_subagent_opt event
  else ret tt.

Definition on_user (f : json) : M unit := each on_user_block (default [] (as_array (f.["message"]).["content"])).

Definition on_tool (f : json) : M unit :=
  let call_id := default [] (or_else (as_str f.["tool_call_id"]) (as_str f.["tool_use_id"])) in
  emit_timeline (tool_result call_id ToolCompleted f.["content"]).

(** How a result frame ends the turn. *)
Definition result_kind (f : json) : StreamEventKind :=
  let u := f.["usage"] in
  let usage :=
    if q_usage_optional quirks && is_null u then None
    else Some {| tu_input := as_u64 u.["input_tokens"]; tu_cached := as_u64 u.["cache_read_input_tokens"];
                 tu_output := as_u64 u.["output_tokens"];
                 tu_cost := if q_cost_from_frame quirks then as_f64 f.["total_cost_usd"] else None;
                 tu_window := if q_context_from_max_tokens quirks then as_u64 u.["max_tokens"] else None;
                 tu_used := None |} in
  if q_detect_interrupt quirks && (is_text f "subtype" "interrupted" || is_text f "terminal_reason" "aborted_streaming")
  then ETurnCanceled (str "interrupted")
  else if bool_at f "is_error" then
    let error := if q_error_field_first quirks
                 then or_else (as_str f.["error"]) (or_else (as_str (f.["error"]).["message"]) (as_str f.["result"]))
                 else as_str f.["result"] in
    ETurnFailed (default (str "unknown error") error) (as_str f.["subtype"])
  else ETurnCompleted usage.

Definition on_result (f : json) : M unit := finish_turn (result_kind f).

Definition parser_on_frame (f : json) : M unit :=
  let ty := text_at f "type" in
  if str_eqb ty (str "system") then on_system f
  else if str_eqb ty (str "assistant") then on_assistant f
  else if str_eqb ty (str "user") && q_user_tool_results quirks then on_user f
  else if str_eqb ty (str "tool") && q_openai_tool_calls quirks then on_tool f
  else if str_eqb ty (str "result") then on_result f
  else ret tt.
End Parser.

(** ** Dialects *)

Inductive ControlOp := Interrupt | SetModel (model : rstr) | SetMode (mode : rstr).

(** What a session uses of its dialect; the id of an ask is fresh. *)
Record Dialect := {
  d_on_frame : rstr -> json -> M unit;
  d_prompt_frame : PromptInput -> result json rstr;
  d_response_frame : PermissionRequest -> rstr -> PermissionResponse -> json;
  d_control_frame : rstr -> ControlOp -> option json
}.

(** The answer to a control request of the daemon. *)
Definition on_control_response (f : json) : M unit :=
  let id := text_at f.["response"] "request_id" in
  let resp := (f.["response"]).["response"] in
  resolve_wire id (if is_text resp "subtype" "error" || is_text f.["response"] "subtype" "error" then Err resp else Ok resp).

Definition allow_deny : list PermissionAction :=
  [{| pa_id := str "allow"; pa_label := str "Allow"; pa_behavior := BehaviorAllow; pa_variant := Some VariantPrimary |};
   {| pa_id := str "deny"; pa_label := str "Deny"; pa_behavior := BehaviorDeny; pa_variant := Some VariantDanger |}].

Definition behavior_json (ask : PermissionRequest) (response : PermissionResponse) : json :=
  match response with
  | Allow _ updated _ _ =>
      mk_obj [("behavior", jstr "allow"); ("updatedInput", default (default JNull (pr_input ask)) updated)]%string
  | Deny _ message _ =>
      mk_obj [("behavior", jstr "deny"); ("message", JStr (default (str "denied by user") message))]%string
  end.

Definition user_frame (content : json) : json :=
  mk_obj [("type", jstr "user"); ("message", mk_obj [("role", jstr "user"); ("content", content)])]%string.

Definition text_block (text : rstr) : json := mk_obj [("type", jstr "text"); ("text", JStr text)]%string.

Definition request_frame (request_id : rstr) (request : json) : json :=
  mk_obj [("type", jstr "control_request"); ("request_id", JStr request_id); ("request", request)]%string.

Definition control_request (op : ControlOp) : json :=
  match op with
  | Interrupt => mk_obj [("subtype", jstr "interrupt")]%string
  | SetModel model => mk_obj [("subtype", jstr "set_model"); ("model", JStr model)]%string
  | SetMode mode => mk_obj [("subtype", jstr "set_permission_mode"); ("mode", JStr mode)]%string
  end.

Definition control_frame (request_id : rstr) (op : ControlOp) : option json :=
  Some (request_frame request_id (control_request op)).

Fixpoint among (s : rstr) (names : list string) : bool :=
  match names with [] => false | n :: names => str_eqb s (str n) || among s names end.

(** *** Claude *)

Module Claude.
Section Claude.
Context `{JT : JsonText}.

Definition map_tool_input (name : rstr) (input : json) : ToolCallDetail :=
  if among name ["Bash"]%string then Shell (text_at input "command") None None
  else if among name ["Read"]%string then ReadFile (text_at input "file_path") None
  else if among name ["Edit"; "MultiEdit"]%string then EditFile (text_at input "file_path") None
  else if among name ["Write"]%string then WriteFile (text_at input "file_path") (as_str input.["content"])
  else if among name ["Grep"; "Glob"; "WebSearch"]%string then
    SearchFor (default [] (or_else (as_str input.["pattern"]) (as_str input.["query"]))) None
  else if among name ["WebFetch"]%string then Fetch (text_at input "url") None
  else if among name ["Task"]%string then SubAgent (text_at input "description") []
  else if among name ["TodoWrite"]%string then PlanText (to_string input.["todos"])
  else UnknownDetail input JNull.

Definition quirks : ClaudeQuirks := {|
  q_tool_detail := map_tool_input;
  q_openai_tool_calls := false; q_user_tool_results := true; q_usage_optional := false; q_cost_from_frame := true;
  q_context_from_max_tokens := false; q_error_field_first := false; q_detect_interrupt := true;
  q_subagent_from_task := true |}.

Definition response_frame (wire_id : rstr) (resp : json) : json :=
  mk_obj [("type", jstr "control_response"); ("response", mk_obj [("request_id", JStr wire_id); ("response", resp)])]%string.

(** The ask a [can_use_tool] request becomes. *)
Definition ask_of (uuid : rstr) (req : json) : PermissionRequest :=
  let tool := text_at req "tool_name" in
  let input := req.["input"] in
  let questions := parse_questions (default [] (as_array input.["questions"])) in
  let is_plan := str_eqb tool (str "ExitPlanMode") in
  {| pr_id := uuid;
     pr_kind := match questions with [] => if is_plan then KindPlan else KindTool | _ => KindQuestion end;
     pr_name := tool;
     pr_title := Some (if is_plan then str "Plan ready for review" else tool ++ str " wants to run");
     pr_input := Some input; pr_detail := Some (map_tool_input tool input); pr_actions := allow_deny;
     pr_suggestions := default [] (as_array req.["permission_suggestions"]); pr_questions := questions |}.

Definition on_control_request (uuid : rstr) (f : json) : M unit :=
  let request_id := text_at f "request_id" in
  let req := f.["request"] in
  if is_text req "subtype" "can_use_tool" then register_ask (ask_of uuid req) request_id
  else send_raw (response_frame request_id (JObj [])) ;! ret tt.

Definition on_frame (uuid : rstr) (f : json) : M unit :=
  let ty := text_at f "type" in
  if str_eqb ty (str "control_request") then on_control_request uuid f
  else if str_eqb ty (str "control_response") then on_control_response f
  else parser_on_frame quirks f.

Definition prompt_frame (prompt : PromptInput) : result json rstr :=
  let block b := match b with
                 | PBText text => text_block text
                 | PBImage data mime =>
                     mk_obj [("type", jstr "image");
                             ("source", mk_obj [("type", jstr "base64"); ("media_type", JStr mime); ("data", JStr data)])]%string
                 end in
  Ok (user_frame match prompt with PText t => JStr t | PBlocks blocks => JArr (map block blocks) end).

Definition permission_response_frame (ask : PermissionRequest) (wire_id : rstr) (response : PermissionResponse) : json :=
  response_frame wire_id (behavior_json ask response).

Definition dialect : Dialect := {|
  d_on_frame := on_frame; d_prompt_frame := prompt_frame; d_response_frame := permission_response_frame;
  d_control_frame := control_frame |}.
End Claude.
End Claude.

(** *** Qwen *)

Module Qwen.
Section Qwen.
Context `{JT : JsonText}.

Definition path_of (input : json) : rstr := default [] (or_else (as_str input.["file_path"]) (as_str input.["absolute_path"])).

Definition map_tool_input (name : rstr) (input : json) : ToolCallDetail :=
  if among name ["run_shell_command"]%string then Shell (text_at input "command") None None
  else if among name ["read_file"]%string then ReadFile (path_of input) None
  else if among name ["edit"]%string then EditFile (path_of input) None
  else if among name ["write_file"]%string then WriteFile (path_of input) (as_str input.["content"])
  else if among name ["grep_search"; "glob"]%string then
    SearchFor (default [] (or_else (as_str input.["pattern"]) (as_str input.["query"]))) None
  else if among name ["web_fetch"]%string then Fetch (text_at input "url") None
  else UnknownDetail input JNull.

Definition quirks : ClaudeQuirks := {|
  q_tool_detail := map_tool_input;
  q_openai_tool_calls := false; q_user_tool_results := true; q_usage_optional := true; q_cost_from_frame := false;
  q_context_from_max_tokens := false; q_error_field_first := true; q_detect_interrupt := false;
  q_subagent_from_task := true |}.

Definition response_frame (wire_id : rstr) (resp : json) : json :=
  mk_obj [("type", jstr "control_response");
          ("response", mk_obj [("subtype", jstr "success"); ("request_id", JStr wire_id); ("response", resp)])]%string.

Definition ask_of (uuid : rstr) (req : json) : PermissionRequest :=
  let tool := text_at req "tool_name" in
  let input := req.["input"] in
  {| pr_id := uuid; pr_kind := KindTool; pr_name := tool; pr_title := Some (tool ++ str " wants to run");
     pr_input := Some input; pr_detail := Some (map_tool_input tool input); pr_actions := allow_deny;
     pr_suggestions := default [] (as_array req.["permission_suggestions"]); pr_questions := [] |}.

Definition on_control_request (uuid : rstr) (f : json) : M unit :=
  let request_id := text_at f "request_id" in
  let req := f.["request"] in
  if is_text req "subtype" "can_use_tool" then register_ask (ask_of uuid req) request_id
  else send_raw (response_frame request_id (JObj [])) ;! ret tt.

Definition on_frame (uuid : rstr) (f : json) : M unit :=
  let ty := text_at f "type" in
  if str_eqb ty (str "control_request") then on_control_request uuid f
  else if str_eqb ty (str "control_response") then on_control_response f
  else parser_on_frame quirks f.

Definition image_refused : rstr :=
  str "qwen stream-json input accepts text blocks only (verified against 0.24.6); image attachments are not supported on this wire".

(** Blocks in order, the first image an error. *)
Fixpoint text_blocks (blocks : list PromptBlock) : result (list json) rstr :=
  match blocks with
  | [] => Ok []
  | PBText text :: blocks => let? rest := text_blocks blocks in Ok (text_block text :: rest)
  | PBImage _ _ :: _ => Err image_refused
  end.

Definition prompt_frame (prompt : PromptInput) : result json rstr :=
  match prompt with
  | PText t => Ok (user_frame (JStr t))
  | PBlocks blocks => let? parts := text_blocks blocks in Ok (user_frame (JArr parts))
  end.

Definition permission_response_frame (ask : PermissionRequest) (wire_id : rstr) (response : PermissionResponse) : json :=
  response_frame wire_id (behavior_json ask response).

Definition dialect : Dialect := {|
  d_on_frame := on_frame; d_prompt_frame := prompt_frame; d_response_frame := permission_response_frame;
  d_control_frame := control_frame |}.
End Qwen.
End Qwen.

(** ** The persistent session *)

Section Session.
Variable d : Dialect.
(** The provider's name, for an error text. *)
Variable provider : rstr.

Definition start_turn (turn_id : rstr) (prompt : PromptInput) : M (result rstr rstr) :=
  modify (with_turn (Some turn_id)) ;!
  match d_prompt_frame d prompt with
  | Err e => ret (Err e)
  | Ok frame =>
      let! sent := send_raw frame in
      match sent with
      | Err e => ret (Err e)
      | Ok _ => emit (in_turn turn_id ETurnStarted) ;! ret (Ok turn_id)
      end
  end.

(** [steer_frame] is the prompt's frame in both dialects. *)
Definition steer (prompt : PromptInput) : M (result SteerResult rstr) :=
  match d_prompt_frame d prompt with
  | Err e => ret (Err e)
  | Ok frame => let! sent := send_raw frame in ret (let? _ := sent in Ok Accepted)
  end.

(** A control request; [answer] is what its round trip ends with once sent. *)
Definition control (id : rstr) (op : ControlOp) (answer : result unit rstr) : M (result unit rstr) :=
  match d_control_frame d id op with
  | None => ret (Err (provider ++ str " has no control channel for this operation"))
  | Some frame => let! sent := send_raw frame in ret (let? _ := sent in answer)
  end.

Definition set_mode (id mode : rstr) (answer : result unit rstr) : M (result unit rstr) :=
  let! r := control id (SetMode mode) answer in
  match r with Ok _ => emit (outside (EModeChanged (Some mode))) ;! ret r | Err _ => ret r end.

Definition set_model (id model : rstr) (answer : result unit rstr) : M (result unit rstr) :=
  let! r := control id (SetModel model) answer in
  match r with Ok _ => emit (outside (EModelChanged model)) ;! ret r | Err _ => ret r end.

Definition respond_to_permission (request_id : rstr) (response : PermissionResponse) : M (result unit rstr) :=
  let! asks := gets st_asks in
  match asks !! request_id with
  | None => ret (Err (str "no pending permission " ++ request_id))
  | Some ask =>
      modify (with_asks (delete request_id asks)) ;!
      let! sent := send_raw (d_response_frame d (pa_request ask) (pa_wire ask) response) in
      match sent with
      | Err e => ret (Err e)
      | Ok _ => emit (outside (EPermissionResolved request_id)) ;! ret (Ok tt)
      end
  end.

(** The pump when the process is gone. *)
Definition on_exit : M unit :=
  finish_turn (ETurnFailed (str "backend process exited without a result frame") None).

(** The interleaved activities of a session; [PipeCloses] is the process no
    longer reading, and the agent's frames come through the pump. *)
Inductive op :=
| StartTurn (turn_id : rstr) (prompt : PromptInput)
| Steer (prompt : PromptInput)
| Frame (uuid : rstr) (f : json)
| Respond (request_id : rstr) (response : PermissionResponse)
| Control (id : rstr) (c : ControlOp) (answer : result unit rstr)
| ProcessExits
| PipeCloses.

Definition run_op (o : op) : M unit :=
  match o with
  | StartTurn turn prompt => start_turn turn prompt ;! ret tt
  | Steer prompt => steer prompt ;! ret tt
  | Frame uuid f => d_on_frame d uuid f
  | Respond id response => respond_to_permission id response ;! ret tt
  | Control id Interrupt answer => control id Interrupt answer ;! ret tt
  | Control id (SetModel m) answer => set_model id m answer ;! ret tt
  | Control id (SetMode m) answer => set_mode id m answer ;! ret tt
  | ProcessExits => on_exit
  | PipeCloses => modify (with_open false)
  end.

(** All sessions of one backend share the parser's task table. *)
Record world := { wd_tasks : gmap rstr TaskIdentity; wd_sessions : gmap nat St; wd_log : list (nat * effect) }.

Definition fresh_session : St := {| st_tasks := ∅; st_native := None; st_asks := ∅; st_turn := None; st_open := true |}.

Definition world_step (w : world) (x : nat * op) : world :=
  let s := with_tasks (wd_tasks w) (default fresh_session (wd_sessions w !! x.1)) in
  let '(s', es, _) := run_op x.2 s in
  {| wd_tasks := st_tasks s'; wd_sessions := <[x.1 := s']> (wd_sessions w); wd_log := wd_log w ++ map (pair x.1) es |}.

Definition run_world (xs : list (nat * op)) : world :=
  fold_left world_step xs {| wd_tasks := ∅; wd_sessions := ∅; wd_log := [] |}.
End Session.

(** ** Turns and their boundaries *)

Definition open_turn (s : St) : list (option rstr) := match st_turn s with Some t => [Some t] | None => [] end.

(** Boundaries end the turn that was open, once. *)
Definition turns_kept (s : St) (es : list effect) (s' : St) : Prop := boundaries es ++ open_turn s' = open_turn s.

#[export] Instance turns_kept_traced : Traced turns_kept.
Proof.
  split; [done|]. intros s1 es1 s2 es2 s3 H1 H2. unfold turns_kept, boundaries in *. by rewrite omap_app, <-app_assoc, H2.
Qed.

(** *** Requests of the agent and the answers it gets *)

(** The id a frame to the agent answers. *)
Definition answer_wire (f : json) : option rstr :=
  if is_text f "type" "control_response" then Some (text_at f.["response"] "request_id") else None.

Definition answered (e : effect) : option rstr := match e with Sent f => answer_wire f | _ => None end.

Definition answers (es : list effect) : list rstr := omap answered es.

Definition pending_wires (s : St) : list rstr := map (fun p => pa_wire p.2) (map_to_list (st_asks s)).

(** The request id of a frame from the agent, when it is a request. *)
Definition asked_by (f : json) : list rstr :=
  if str_eqb (text_at f "type") (str "control_request") then [text_at f "request_id"] else [].

(** Answers go to requests that wait or just came. *)
Definition answers_from (asked : list rstr) (s : St) (es : list effect) (s' : St) : Prop :=
  answers es ++ pending_wires s' ⊆+ asked ++ pending_wires s.

#[export] Instance answers_traced : Traced (answers_from []).
Proof.
  split; [intros s; unfold answers_from; reflexivity|]. intros s1 es1 s2 es2 s3 H1 H2. unfold answers_from, answers in *. rewrite omap_app, <-app_assoc.
  etransitivity; [|exact H1]. by apply submseteq_app.
Qed.

(** *** Subagents *)

(** What a subagent event says of the call [x]. *)
Definition replay_event (x : rstr) (o : option TaskIdentity) (e : effect) : option (option TaskIdentity) :=
  match e with
  | Emitted {| ev_kind := ESubagent v |} =>
      if str_eqb (text_at v "id") x then
        let task := {| tk_name := text_at v "name"; tk_description := text_at v "description" |} in
        if is_text v "type" "subagent_lifecycle" then (if is_text v "status" "running" then Some (Some task) else None)
        else if is_text v "type" "subagent_event" then
          match o with
          | Some started => if str_eqb (tk_name started) (tk_name task) && str_eqb (tk_description started) (tk_description task) &&
                               (is_text v "status" "completed" || is_text v "status" "failed") then Some None else None
          | None => None
          end
        else None
      else Some o
  | _ => Some o
  end.

(** Starts and ends of one call in turn: [None] when an end has no start or
    another identity. *)
Fixpoint replay (x : rstr) (o : option TaskIdentity) (es : list effect) : option (option TaskIdentity) :=
  match es with [] => Some o | e :: es => match replay_event x o e with Some o => replay x o es | None => None end end.

Lemma replay_app x o es es' :
  replay x o (es ++ es') = match replay x o es with Some o => replay x o es' | None => None end.
Proof. revert o. induction es as [|e es IH]; intros o; cbn; [done|]. destruct (replay_event x o e); [apply IH|done]. Qed.

Definition subagents_paired (s : St) (es : list effect) (s' : St) : Prop :=
  forall x, replay x (st_tasks s !! x) es = Some (st_tasks s' !! x).

#[export] Instance subagents_traced : Traced subagents_paired.
Proof. split; [by intros s x|]. intros s1 es1 s2 es2 s3 H1 H2 x. by rewrite replay_app, H1, H2. Qed.

(** ** The parser keeps all three *)

Section ParserFacts.
Context `{JT : JsonText}.
Variable quirks : ClaudeQuirks.

(** Handlers that emit nothing but timeline items and keep the state. *)
Lemma timeline_turns item : obeys turns_kept (emit_timeline item).
Proof. by intros s. Qed.

Lemma answers_none s es s' : answers es = [] -> pending_wires s' = pending_wires s -> answers_from [] s es s'.
Proof. unfold answers_from. by intros -> ->. Qed.

Lemma timeline_answers item : obeys (answers_from []) (emit_timeline item).
Proof. intros s. by apply answers_none. Qed.

Lemma timeline_subagents item : obeys subagents_paired (emit_timeline item).
Proof. by intros s x. Qed.

Lemma finish_turns kind : ends_turn kind = true -> obeys turns_kept (finish_turn kind).
Proof.
  intros Hk s. unfold turns_kept, finish_turn, current_turn, bind, gets, modify, emit, log, ret, boundaries, open_turn.
  destruct (st_turn s) as [t|] eqn:E; cbn; [by rewrite Hk|by rewrite E].
Qed.

Lemma finish_answers kind : obeys (answers_from []) (finish_turn kind).
Proof. intros s. unfold finish_turn, current_turn, bind, gets. by destruct (st_turn s); apply answers_none. Qed.

Lemma finish_subagents kind : (forall v, kind <> ESubagent v) -> obeys subagents_paired (finish_turn kind).
Proof.
  intros Hk s. unfold finish_turn, current_turn, bind, gets. destruct (st_turn s); intros x; [|done]. cbn.
  destruct kind; try done. by destruct (Hk event).
Qed.

Lemma native_turns id : obeys turns_kept (set_native_handle id).
Proof. intros s. unfold set_native_handle, bind, gets. by destruct (st_native s). Qed.

Lemma native_answers id : obeys (answers_from []) (set_native_handle id).
Proof. intros s. unfold set_native_handle, bind, gets. by destruct (st_native s); apply answers_none. Qed.

Lemma native_subagents id : obeys subagents_paired (set_native_handle id).
Proof. intros s. unfold set_native_handle, bind, gets. by destruct (st_native s); intros x. Qed.

Lemma result_kind_ends f : ends_turn (result_kind quirks f) = true /\ (forall v, result_kind quirks f <> ESubagent v).
Proof. unfold result_kind. split; [|intros v]; by repeat case_match. Qed.

Lemma task_started_turns id input : obeys turns_kept (task_started id input).
Proof. by intros s. Qed.
Lemma task_started_answers id input : obeys (answers_from []) (task_started id input).
Proof. intros s. by apply answers_none. Qed.
Lemma task_finished_turns id err : obeys turns_kept (task_finished id err).
Proof. intros s. unfold task_finished, bind, gets. by destruct (st_tasks s !! id). Qed.
Lemma task_finished_answers id err : obeys (answers_from []) (task_finished id err).
Proof. intros s. unfold task_finished, bind, gets. by destruct (st_tasks s !! id); apply answers_none. Qed.
Lemma emit_subagent_turns ev : obeys turns_kept (emit_subagent_opt ev).
Proof. by destruct ev; intros s. Qed.
Lemma emit_subagent_answers ev : obeys (answers_from []) (emit_subagent_opt ev).
Proof. by destruct ev; intros s; apply answers_none. Qed.
End ParserFacts.

#[export] Hint Resolve timeline_turns timeline_answers timeline_subagents finish_turns finish_answers finish_subagents
  native_turns native_answers native_subagents task_started_turns task_started_answers task_finished_turns
  task_finished_answers emit_subagent_turns emit_subagent_answers : damon.

Section ParserLaws.
Context `{JT : JsonText}.
Variable quirks : ClaudeQuirks.

Lemma parser_turns f : obeys turns_kept (parser_on_frame quirks f).
Proof.
  unfold parser_on_frame, on_system, on_assistant, on_user, on_tool, on_result, on_block, on_openai_call, on_user_block.
  handler. apply finish_turns, result_kind_ends.
Qed.

Lemma parser_answers f : obeys (answers_from []) (parser_on_frame quirks f).
Proof.
  unfold parser_on_frame, on_system, on_assistant, on_user, on_tool, on_result, on_block, on_openai_call, on_user_block.
  handler.
Qed.

Lemma replay_started x o turn id task : replay_event x o
    (Emitted {| ev_turn := turn; ev_kind := ESubagent (subagent_json "subagent_lifecycle" id task "running") |}) =
  Some (if str_eqb id x then Some task else o).
Proof.
  unfold replay_event. cbn [ev_kind]. change (text_at (subagent_json _ _ _ _) "id") with id.
  destruct (str_eqb id x); [|done]. by destruct task.
Qed.

Lemma replay_ended x turn id task (err : bool) : replay_event x (Some task)
    (Emitted {| ev_turn := turn; ev_kind := ESubagent (subagent_json "subagent_event" id task (if err then "failed" else "completed")) |}) =
  Some (if str_eqb id x then None else Some task).
Proof.
  unfold replay_event. cbn [ev_kind]. change (text_at (subagent_json _ _ _ _) "id") with id.
  destruct (str_eqb id x); [|done]. change (text_at (subagent_json _ _ _ _) "name") with (tk_name task).
  change (text_at (subagent_json _ _ _ _) "description") with (tk_description task).
  cbn [tk_name tk_description]. rewrite !str_eqb_refl. by destruct err.
Qed.

Lemma replay_timeline x o turn item : replay_event x o (Emitted {| ev_turn := turn; ev_kind := ETimeline item |}) = Some o.
Proof. done. Qed.

Lemma replay_foreign x o turn ty id task status : str_eqb id x = false -> replay_event x o
    (Emitted {| ev_turn := turn; ev_kind := ESubagent (subagent_json ty id task status) |}) = Some o.
Proof. intros E. unfold replay_event. cbn [ev_kind]. change (text_at (subagent_json _ _ _ _) "id") with id. by rewrite E. Qed.

Lemma block_subagents block : obeys subagents_paired (on_block quirks block).
Proof.
  unfold on_block. repeat (apply obeys_if; [apply timeline_subagents|]). apply obeys_if; [|apply timeline_subagents].
  cbv zeta. cbn [tc_call_id]. set (id := text_at block "id"). set (call := TToolCall _).
  destruct (q_subagent_from_task quirks && _); intros s x; [|done].
  unfold bind, task_started, emit_subagent_opt, emit_subagent, emit_timeline, current_turn, gets, modify, emit, log, ret.
  cbn [app replay with_tasks st_tasks st_turn]. rewrite replay_timeline, replay_started.
  destruct (str_eqb id x) eqn:E.
  - apply str_eqb_eq in E as ->. by rewrite lookup_insert_eq.
  - apply str_eqb_neq in E. by rewrite lookup_insert_ne.
Qed.

Lemma user_block_subagents block : obeys subagents_paired (on_user_block block).
Proof.
  unfold on_user_block. apply obeys_if; [|apply obeys_ret]. cbv zeta.
  set (id := text_at block "tool_use_id"). set (err := bool_at block "is_error").
  apply obeys_bind; [apply timeline_subagents|intros _]. intros s.
  unfold task_finished, emit_subagent_opt, emit_subagent, current_turn, gets, modify, emit, log, ret, bind.
  destruct (st_tasks s !! id) as [task|] eqn:Ht; intros x; [|done].
  cbn [app replay with_tasks st_tasks st_turn].
  destruct (str_eqb id x) eqn:E.
  - apply str_eqb_eq in E as <-. by rewrite Ht, replay_ended, str_eqb_refl, lookup_delete_eq.
  - rewrite replay_foreign by done. apply str_eqb_neq in E. by rewrite lookup_delete_ne.
Qed.

Lemma parser_subagents f : obeys subagents_paired (parser_on_frame quirks f).
Proof.
  unfold parser_on_frame, on_system, on_assistant, on_user, on_tool, on_result, on_openai_call.
  handler; auto using block_subagents, user_block_subagents. apply finish_subagents. apply result_kind_ends.
Qed.
End ParserLaws.

(** ** What a dialect promises *)

Class DialectLaws (d : Dialect) : Prop := {
  law_turns uuid f : obeys turns_kept (d_on_frame d uuid f);
  law_answers uuid f : obeys (answers_from (asked_by f)) (d_on_frame d uuid f);
  law_subagents uuid f : obeys subagents_paired (d_on_frame d uuid f);
  law_response ask wire r : answer_wire (d_response_frame d ask wire r) = Some wire;
  law_prompt p f : d_prompt_frame d p = Ok f -> answer_wire f = None;
  law_control id c f : d_control_frame d id c = Some f -> answer_wire f = None
}.

Section AskFacts.
(** A registered ask waits under its id; one it replaces is forgotten. *)
Lemma pending_insert id a s : pending_wires (with_asks (<[id := a]> (st_asks s)) s) ⊆+ pa_wire a :: pending_wires s.
Proof.
  unfold pending_wires. cbn [with_asks st_asks]. destruct (st_asks s !! id) as [old|] eqn:E.
  - rewrite <-(insert_delete_eq (st_asks s) id a), map_to_list_insert by apply lookup_delete_eq. cbn [map snd].
    apply submseteq_skip. rewrite <-(map_to_list_delete _ _ _ E). cbn [map]. by apply submseteq_cons.
  - by rewrite map_to_list_insert.
Qed.

Lemma pending_delete id ask s : st_asks s !! id = Some ask ->
  pa_wire ask :: pending_wires (with_asks (delete id (st_asks s)) s) ≡ₚ pending_wires s.
Proof. intros E. unfold pending_wires. cbn [with_asks st_asks]. by rewrite <-(map_to_list_delete _ _ _ E). Qed.

Lemma register_answers ask wire : obeys (answers_from [wire]) (register_ask ask wire).
Proof. intros s. unfold answers_from. cbn [answers]. apply (pending_insert _ {| pa_request := ask; pa_wire := wire |}). Qed.

Lemma send_answers frame : obeys (answers_from (option_list (answer_wire frame))) (send_raw frame ;! ret tt).
Proof.
  intros s. unfold send_raw, gets, log, ret, bind. destruct (st_open s); unfold answers_from; cbn.
  - unfold answered. destruct (answer_wire frame); reflexivity.
  - apply submseteq_inserts_l. reflexivity.
Qed.

Lemma send_turns frame : obeys turns_kept (send_raw frame).
Proof. intros s. unfold send_raw, gets, log, ret, bind. by destruct (st_open s). Qed.

Lemma send_subagents frame : obeys subagents_paired (send_raw frame).
Proof. intros s. unfold send_raw, gets, log, ret, bind. destruct (st_open s); by intros x. Qed.

Lemma register_turns ask wire : obeys turns_kept (register_ask ask wire).
Proof. by intros s. Qed.

Lemma register_subagents ask wire : obeys subagents_paired (register_ask ask wire).
Proof. by intros s x. Qed.

Lemma resolve_turns id r : obeys turns_kept (resolve_wire id r).
Proof. by intros s. Qed.

Lemma resolve_subagents id r : obeys subagents_paired (resolve_wire id r).
Proof. by intros s x. Qed.

Lemma resolve_answers id r : obeys (answers_from []) (resolve_wire id r).
Proof. intros s. by apply answers_none. Qed.
End AskFacts.

#[export] Hint Resolve send_turns send_subagents register_turns register_subagents resolve_turns resolve_subagents : damon.

Lemma answers_weaken {A} asked (m : M A) : obeys (answers_from []) m -> obeys (answers_from asked) m.
Proof.
  intros Hm s. specialize (Hm s). destruct (m s) as [[s' es] x]. unfold answers_from in *. rewrite Hm.
  apply submseteq_inserts_l. reflexivity.
Qed.

#[export] Instance claude_laws `{JsonText} : DialectLaws Claude.dialect.
Proof.
  split; cbn [d_on_frame d_response_frame d_prompt_frame d_control_frame Claude.dialect].
  - intros uuid f. unfold Claude.on_frame, Claude.on_control_request, on_control_response. handler. apply parser_turns.
  - intros uuid f. unfold Claude.on_frame, asked_by. destruct (str_eqb _ _).
    + unfold Claude.on_control_request. cbv zeta. apply obeys_if; [apply register_answers|apply send_answers].
    + apply obeys_if; [apply resolve_answers|apply parser_answers].
  - intros uuid f. unfold Claude.on_frame, Claude.on_control_request, on_control_response. handler. apply parser_subagents.
  - done.
  - intros p f [= <-]. done.
  - intros id c f [= <-]. done.
Qed.

#[export] Instance qwen_laws `{JsonText} : DialectLaws Qwen.dialect.
Proof.
  split; cbn [d_on_frame d_response_frame d_prompt_frame d_control_frame Qwen.dialect].
  - intros uuid f. unfold Qwen.on_frame, Qwen.on_control_request, on_control_response. handler. apply parser_turns.
  - intros uuid f. unfold Qwen.on_frame, asked_by. destruct (str_eqb _ _).
    + unfold Qwen.on_control_request. cbv zeta. apply obeys_if; [apply register_answers|apply send_answers].
    + apply obeys_if; [apply resolve_answers|apply parser_answers].
  - intros uuid f. unfold Qwen.on_frame, Qwen.on_control_request, on_control_response. handler. apply parser_subagents.
  - done.
  - intros [t|blocks] f; cbn; [by intros [= <-]|]. destruct (Qwen.text_blocks blocks); [by intros [= <-]|done].
  - intros id c f [= <-]. done.
Qed.

(** ** Sessions of one backend *)

Section World.
Variable d : Dialect.
Context `{Laws : !DialectLaws d}.
Variable provider : rstr.

Definition session (w : world) (sid : nat) : St := default fresh_session (wd_sessions w !! sid).

Definition session_log (sid : nat) (w : world) : list effect :=
  omap (fun x => if x.1 =? sid then Some x.2 else None) (wd_log w).

Lemma run_snoc xs x : run_world d provider (xs ++ [x]) = world_step d provider (run_world d provider xs) x.
Proof. unfold run_world. by rewrite fold_left_app. Qed.

Lemma log_of_own sid es : omap (fun x : nat * effect => if x.1 =? sid then Some x.2 else None) (map (pair sid) es) = es.
Proof. induction es as [|e es IH]; cbn; [done|]. rewrite Nat.eqb_refl. cbn. by rewrite IH. Qed.

Lemma log_of_other sid i es : i <> sid ->
  omap (fun x : nat * effect => if x.1 =? sid then Some x.2 else None) (map (pair i) es) = [].
Proof.
  intros Hne. apply Nat.eqb_neq in Hne. induction es as [|e es IH]; cbn; [done|]. by rewrite Hne.
Qed.

(** A step moves its own session and no other. *)
Lemma own_step w sid o : let w' := world_step d provider w (sid, o) in
  exists es u, run_op d provider o (with_tasks (wd_tasks w) (session w sid)) = (session w' sid, es, u) /\
    session_log sid w' = session_log sid w ++ es /\ wd_tasks w' = st_tasks (session w' sid).
Proof.
  unfold world_step, session, session_log. cbn [fst snd].
  destruct (run_op d provider o _) as [[s' es] u] eqn:E. exists es, u. cbn [wd_sessions wd_log wd_tasks].
  rewrite lookup_insert_eq. cbn [default]. by rewrite omap_app, log_of_own.
Qed.

Lemma other_step w sid i o : i <> sid -> let w' := world_step d provider w (i, o) in
  session w' sid = session w sid /\ session_log sid w' = session_log sid w.
Proof.
  intros Hne. unfold world_step, session, session_log. cbn [fst snd].
  destruct (run_op d provider o _) as [[s' es] u]. cbn [wd_sessions wd_log].
  by rewrite lookup_insert_ne, omap_app, log_of_other, app_nil_r.
Qed.

(** *** Operations *)

Definition started_by (o : op) : list (option rstr) := match o with StartTurn turn _ => [Some turn] | _ => [] end.
Definition asked_by_op (o : op) : list rstr := match o with Frame _ f => asked_by f | _ => [] end.
Definition of_session {A} (f : op -> list A) (sid : nat) (xs : list (nat * op)) : list A :=
  flat_map (fun x => if x.1 =? sid then f x.2 else []) xs.

Lemma control_turns id c answer : obeys turns_kept (control d provider id c answer).
Proof. unfold control. handler. Qed.

Lemma op_turns o s : let '(s', es, _) := run_op d provider o s in
  match o with
  | StartTurn turn _ => boundaries es = [] /\ open_turn s' = [Some turn]
  | _ => turns_kept s es s'
  end.
Proof.
  destruct o as [turn p|p|uuid f|id r|id c answer| |]; cbn [run_op].
  - unfold start_turn, send_raw, emit, modify, gets, log, ret, bind.
    destruct (d_prompt_frame d p); [|done]. cbn [with_turn st_open]. by destruct (st_open s).
  - revert s. change (obeys turns_kept (steer d p ;! ret tt)). unfold steer. handler.
  - apply law_turns.
  - unfold respond_to_permission, send_raw, emit, modify, gets, log, ret, bind. destruct (st_asks s !! id); [|done].
    cbn [with_asks st_open]. by destruct (st_open s).
  - revert s. destruct c as [|m|m]; [|apply obeys_bind; [|intros; apply obeys_ret] ..].
    + apply obeys_bind; [apply control_turns|intros; apply obeys_ret].
    + apply obeys_bind; [apply control_turns|]. intros [u|e]; [|apply obeys_ret]. by apply obeys_bind; [intros ?|intros; apply obeys_ret].
    + apply obeys_bind; [apply control_turns|]. intros [u|e]; [|apply obeys_ret]. by apply obeys_bind; [intros ?|intros; apply obeys_ret].
  - by apply finish_turns.
  - done.
Qed.
Lemma send_unasked frame : answer_wire frame = None -> obeys (answers_from []) (send_raw frame).
Proof.
  intros E s. unfold send_raw, gets, log, ret, bind. destruct (st_open s); apply answers_none; try done.
  cbn. by rewrite E.
Qed.

Lemma emit_answers e : obeys (answers_from []) (emit e).
Proof. intros s. by apply answers_none. Qed.

Lemma control_answers id c answer : obeys (answers_from []) (control d provider id c answer).
Proof.
  unfold control. destruct (d_control_frame d id c) as [f|] eqn:E; [|apply obeys_ret].
  apply obeys_bind; [by eapply send_unasked, law_control|intros; apply obeys_ret].
Qed.

Lemma respond_answers id r : obeys (answers_from []) (respond_to_permission d id r).
Proof.
  intros s. unfold respond_to_permission, send_raw, emit, modify, gets, log, ret, bind.
  destruct (st_asks s !! id) as [ask|] eqn:E; [|by apply answers_none].
  cbn [with_asks st_open]. destruct (st_open s); unfold answers_from; cbn.
  - rewrite law_response. cbn. by rewrite pending_delete.
  - rewrite <-(pending_delete _ _ _ E). by apply submseteq_cons.
Qed.

Lemma prompt_answers p f : d_prompt_frame d p = Ok f -> obeys (answers_from []) (send_raw f).
Proof. intros E. by eapply send_unasked, law_prompt. Qed.

Lemma op_answers o : obeys (answers_from (asked_by_op o)) (run_op d provider o).
Proof.
  assert (forall A (m : M A), obeys (answers_from []) m -> obeys (answers_from []) (m ;! ret tt)) as Hret.
  { intros A m Hm. apply obeys_bind; [done|intros; apply obeys_ret]. }
  destruct o as [turn p|p|uuid f|id r|id c answer| |]; cbn [run_op asked_by_op].
  - apply Hret. unfold start_turn. apply obeys_bind; [intros s; by apply answers_none|intros _].
    destruct (d_prompt_frame d p) as [f|e] eqn:E; [|apply obeys_ret].
    apply obeys_bind; [by eapply prompt_answers|]. intros [u|e]; [|apply obeys_ret].
    apply obeys_bind; [apply emit_answers|intros; apply obeys_ret].
  - apply Hret. unfold steer. destruct (d_prompt_frame d p) as [f|e] eqn:E; [|apply obeys_ret].
    apply obeys_bind; [by eapply prompt_answers|intros; apply obeys_ret].
  - apply law_answers.
  - apply Hret, respond_answers.
  - destruct c as [|m|m]; apply Hret; [apply control_answers|..]; (apply obeys_bind; [apply control_answers|]); intros [u|e];
      try apply obeys_ret; (apply obeys_bind; [apply emit_answers|intros; apply obeys_ret]).
  - apply finish_answers.
  - intros s. by apply answers_none.
Qed.

Lemma control_subagents id c answer : obeys subagents_paired (control d provider id c answer).
Proof. unfold control. handler. Qed.

Lemma op_subagents o : obeys subagents_paired (run_op d provider o).
Proof.
  assert (forall A (m : M A), obeys subagents_paired m -> obeys subagents_paired (m ;! ret tt)) as Hret.
  { intros A m Hm. apply obeys_bind; [done|intros; apply obeys_ret]. }
  destruct o as [turn p|p|uuid f|id r|id c answer| |]; cbn [run_op].
  - apply Hret. intros s. unfold start_turn, send_raw, emit, modify, gets, log, ret, bind.
    destruct (d_prompt_frame d p); [|by intros x]. cbn [with_turn st_open]. destruct (st_open s); by intros x.
  - apply Hret. unfold steer. handler.
  - apply law_subagents.
  - apply Hret. intros s. unfold respond_to_permission, send_raw, emit, modify, gets, log, ret, bind.
    destruct (st_asks s !! id); [|by intros x]. cbn [with_asks st_open]. destruct (st_open s); by intros x.
  - destruct c as [|m|m]; apply Hret; [apply control_subagents|..]; (apply obeys_bind; [apply control_subagents|]); intros [u|e];
      try apply obeys_ret; (apply obeys_bind; [by intros s x|intros; apply obeys_ret]).
  - by apply finish_subagents.
  - by intros s x.
Qed.

(** ** What holds of all sessions *)

Lemma of_session_snoc {A} (f : op -> list A) sid xs i o :
  of_session f sid (xs ++ [(i, o)]) = of_session f sid xs ++ if i =? sid then f o else [].
Proof. unfold of_session. rewrite flat_map_app. cbn. by rewrite app_nil_r. Qed.

(** The turns of a session with a boundary, then the open one. *)
Definition turns_seen (sid : nat) (xs : list (nat * op)) : list (option rstr) :=
  let w := run_world d provider xs in boundaries (session_log sid w) ++ open_turn (session w sid).

Lemma turns_seen_snoc sid xs i o : turns_seen sid (xs ++ [(i, o)]) =
  match (if i =? sid then started_by o else []) with
  | [] => turns_seen sid xs
  | started => boundaries (session_log sid (run_world d provider xs)) ++ started
  end.
Proof.
  unfold turns_seen. rewrite run_snoc. destruct (Nat.eqb_spec i sid) as [->|Hne].
  2: { by destruct (other_step (run_world d provider xs) sid i o Hne) as [-> ->]. }
  destruct (own_step (run_world d provider xs) sid o) as (es & u & E & -> & _). pose proof (op_turns o
    (with_tasks (wd_tasks (run_world d provider xs)) (session (run_world d provider xs) sid))) as Ho. rewrite E in Ho.
  unfold boundaries. rewrite omap_app, <-app_assoc.
  destruct o; cbn [started_by]; try (unfold turns_kept, boundaries in Ho; by rewrite Ho).
  destruct Ho as [Hb ->]. unfold boundaries in Hb. by rewrite Hb.
Qed.

(** C15: the boundary events of a session are, in order, those of turns it
    started, at most one each; once the process has exited no turn is open; and
    where no turn is started over another, every turn started has its boundary,
    but for the one still open. *)
Theorem turns_end_once (xs : list (nat * op)) (sid : nat) :
  let w := run_world d provider xs in
  boundaries (session_log sid w) ++ open_turn (session w sid) `sublist_of` of_session started_by sid xs /\
  open_turn (session (run_world d provider (xs ++ [(sid, ProcessExits)])) sid) = [] /\
  ((forall ys turn p zs, xs = ys ++ (sid, StartTurn turn p) :: zs -> st_turn (session (run_world d provider ys) sid) = None) ->
   boundaries (session_log sid w) ++ open_turn (session w sid) = of_session started_by sid xs).
Proof.
  cbn zeta. fold (turns_seen sid xs). split; [|split].
  - induction xs as [|[i o] xs IH] using rev_ind; [constructor|]. rewrite turns_seen_snoc, of_session_snoc.
    destruct (if i =? sid then started_by o else []) as [|t ts]; [by rewrite app_nil_r|].
    apply sublist_app; [|done]. etransitivity; [|exact IH]. by apply sublist_inserts_r.
  - rewrite run_snoc. destruct (own_step (run_world d provider xs) sid ProcessExits) as (es & u & E & _).
    revert E. cbn [run_op]. unfold on_exit, finish_turn, current_turn, bind, gets.
    destruct (st_turn _) as [t|] eqn:Et; intros [= <- _ _]; [done|]. unfold open_turn. by rewrite Et.
  - induction xs as [|[i o] xs IH] using rev_ind; [done|]. intros Hcalm. rewrite turns_seen_snoc, of_session_snoc.
    rewrite <-IH.
    2: { intros ys turn p zs ->. apply (Hcalm ys turn p (zs ++ [(i, o)])). by rewrite <-app_assoc. }
    destruct (Nat.eqb_spec i sid) as [->|Hne]; [|by rewrite app_nil_r].
    destruct o as [turn p| | | | | |]; cbn [started_by]; try by rewrite app_nil_r.
    unfold turns_seen, open_turn. rewrite (Hcalm xs turn p [] eq_refl). by rewrite app_nil_r.
Qed.

(** C16: the agent gets answers only to requests it made, each at most once and
    under its own id: the ids answered and those of the asks still pending are
    among the ids of its control requests, with multiplicities. *)
Theorem answers_match_requests (xs : list (nat * op)) (sid : nat) :
  let w := run_world d provider xs in
  answers (session_log sid w) ++ pending_wires (session w sid) ⊆+ of_session asked_by_op sid xs.
Proof.
  induction xs as [|[i o] xs IH] using rev_ind; [done|]. cbn zeta in *. rewrite run_snoc, of_session_snoc.
  destruct (Nat.eqb_spec i sid) as [->|Hne].
  2: { destruct (other_step (run_world d provider xs) sid i o Hne) as [-> ->]. by rewrite app_nil_r. }
  destruct (own_step (run_world d provider xs) sid o) as (es & u & E & -> & _). pose proof (op_answers o
    (with_tasks (wd_tasks (run_world d provider xs)) (session (run_world d provider xs) sid))) as Ho. rewrite E in Ho.
  unfold answers_from in Ho. unfold answers in *. rewrite omap_app, <-app_assoc.
  etransitivity; [apply submseteq_app; [reflexivity|exact Ho]|].
  rewrite (Permutation_app_comm (asked_by_op o)), app_assoc. by apply submseteq_app.
Qed.

(** Across all sessions of a backend, the subagent events of a call are a
    start, then its end, then perhaps a start again: an end follows a start that
    has not ended yet and repeats its name and description, and the parser
    remembers just the calls that have not ended. *)
Theorem subagents_end_after_start (xs : list (nat * op)) (x : rstr) :
  let w := run_world d provider xs in replay x None (map snd (wd_log w)) = Some (wd_tasks w !! x).
Proof.
  induction xs as [|[i o] xs IH] using rev_ind; [done|]. cbn zeta in *. rewrite run_snoc.
  pose proof (op_subagents o (with_tasks (wd_tasks (run_world d provider xs)) (session (run_world d provider xs) i))) as Ho.
  unfold world_step. cbn [fst snd]. unfold session in Ho. destruct (run_op d provider o _) as [[s' es] u].
  cbn [wd_log wd_tasks]. rewrite map_app, map_map, replay_app, IH. cbn [snd]. rewrite map_id. apply Ho.
Qed.
End World.

(** ** Frames and the timeline *)

(** The handler emits these items, no boundary, and keeps the turn. *)
Definition produces {A} (m : M A) (items : list TimelineItem) : Prop :=
  forall s, let '(s', es, _) := m s in
    st_turn s' = st_turn s /\ (forall e, e ∈ emitted es -> ends_turn (ev_kind e) = false) /\
    omap (fun e => item_of (ev_kind e)) (emitted es) = items.

Lemma produces_ret {A} (x : A) : produces (ret x) [].
Proof. intros s. split; [done|]. split; [|done]. intros e He. by apply not_elem_of_nil in He. Qed.

Lemma produces_bind {A B} (m : M A) (k : A -> M B) l l' :
  produces m l -> (forall x, produces (k x) l') -> produces (bind m k) (l ++ l').
Proof.
  intros Hm Hk s. unfold bind. specialize (Hm s). destruct (m s) as [[s1 es1] x]. specialize (Hk x s1).
  destruct (k x s1) as [[s2 es2] y]. destruct Hm as (T1 & B1 & <-), Hk as (T2 & B2 & <-). unfold emitted in *.
  rewrite !omap_app. split; [congruence|]. split; [|done].
  intros e [He|He]%elem_of_app; [by apply B1|by apply B2].
Qed.

Lemma produces_each {A} (f : A -> M unit) (g : A -> list TimelineItem) l :
  (forall x, x ∈ l -> produces (f x) (g x)) -> produces (each f l) (flat_map g l).
Proof.
  intros Hf. induction l as [|x l IH]; cbn [each flat_map]; [apply produces_ret|]. apply produces_bind; [apply Hf; left|].
  intros _. apply IH. intros y Hy. apply Hf. by right.
Qed.

Lemma produces_item item : produces (emit_timeline item) [item].
Proof. intros s. split; [done|]. split; [|done]. intros e ->%list_elem_of_singleton. done. Qed.

(** Other events that are not boundaries. *)
Lemma produces_other e : ends_turn (ev_kind e) = false -> item_of (ev_kind e) = None -> produces (emit e) [].
Proof.
  intros Hb Hi s. split; [done|]. split.
  - intros x ->%list_elem_of_singleton. done.
  - cbn. by rewrite Hi.
Qed.

Section Timeline.
Context `{JT : JsonText}.
Variable quirks : ClaudeQuirks.

(** *** The items of a frame, as a function *)

Definition block_item (block : json) : TimelineItem :=
  let ty := text_at block "type" in
  if str_eqb ty (str "text") then TAssistantMessage (text_at block "text")
  else if str_eqb ty (str "thinking") then TReasoning (text_at block "thinking")
  else if str_eqb ty (str "tool_use") then
    TToolCall {| tc_call_id := text_at block "id"; tc_name := text_at block "name"; tc_status := ToolRunning;
                 tc_detail := q_tool_detail quirks (text_at block "name") block.["input"] |}
  else TUnknown block.

Definition openai_item (call : json) : TimelineItem :=
  let f := call.["function"] in
  TToolCall {| tc_call_id := text_at call "id"; tc_name := text_at f "name"; tc_status := ToolRunning;
               tc_detail := q_tool_detail quirks (text_at f "name") f.["arguments"] |}.

Definition user_items (block : json) : list TimelineItem :=
  if is_text block "type" "tool_result" then
    [tool_result (text_at block "tool_use_id") (if bool_at block "is_error" then ToolFailed else ToolCompleted) block.["content"]]
  else [].

Definition frame_items (f : json) : list TimelineItem :=
  let ty := text_at f "type" in
  let content := default [] (as_array (f.["message"]).["content"]) in
  if str_eqb ty (str "assistant") then
    map block_item content ++
    (if q_openai_tool_calls quirks then map openai_item (default [] (as_array (f.["message"]).["tool_calls"])) else [])
  else if str_eqb ty (str "user") && q_user_tool_results quirks then flat_map user_items content
  else if str_eqb ty (str "tool") && q_openai_tool_calls quirks then
    [tool_result (default [] (or_else (as_str f.["tool_call_id"]) (as_str f.["tool_use_id"]))) ToolCompleted f.["content"]]
  else [].

Definition is_result (f : json) : bool := str_eqb (text_at f "type") (str "result").

Lemma produces_subagent ev : produces (emit_subagent_opt ev) [].
Proof.
  destruct ev as [v|]; [|apply produces_ret]. intros s. split; [done|]. split; [|done]. by intros e ->%list_elem_of_singleton.
Qed.

Lemma produces_task_started id input : produces (task_started id input) [].
Proof. intros s. split; [done|]. split; [|done]. intros e He. by apply not_elem_of_nil in He. Qed.

Lemma produces_task_finished id err : produces (task_finished id err) [].
Proof.
  intros s. unfold task_finished, gets, modify, ret, bind.
  destruct (st_tasks s !! id); (split; [done|]; split; [|done]); intros e He; by apply not_elem_of_nil in He.
Qed.

Lemma produces_native id : produces (set_native_handle id) [].
Proof.
  intros s. unfold set_native_handle, emit, log, gets, modify, ret, bind.
  destruct (st_native s); (split; [done|]; split; [|done]); intros e He; [by apply not_elem_of_nil in He|].
  by apply list_elem_of_singleton in He as ->.
Qed.

Lemma produces_block block : produces (on_block quirks block) [block_item block].
Proof.
  unfold on_block, block_item. cbv zeta.
  destruct (str_eqb _ (str "text")); [apply produces_item|]. destruct (str_eqb _ (str "thinking")); [apply produces_item|].
  destruct (str_eqb _ (str "tool_use")); [|apply produces_item].
  apply (produces_bind _ _ [] [_]).
  - destruct (q_subagent_from_task quirks && _); [|apply produces_ret].
    apply (produces_bind _ _ [] []); [apply produces_task_started|intros; apply produces_ret].
  - intros ev. apply (produces_bind _ _ [_] []); [apply produces_item|intros; apply produces_subagent].
Qed.

Lemma produces_user_block block : produces (on_user_block block) (user_items block).
Proof.
  unfold on_user_block, user_items. destruct (is_text _ _ _); [|apply produces_ret]. cbv zeta.
  apply (produces_bind _ _ [_] []); [apply produces_item|]. intros _.
  apply (produces_bind _ _ [] []); [apply produces_task_finished|intros; apply produces_subagent].
Qed.

Lemma flat_map_singleton {A B} (f : A -> B) l : flat_map (fun x => [f x]) l = map f l.
Proof. induction l as [|x l IH]; cbn; [done|by rewrite IH]. Qed.

(** A frame that is not a result emits the items of its blocks. *)
Lemma produces_frame f : is_result f = false -> produces (parser_on_frame quirks f) (frame_items f).
Proof.
  intros Hr. unfold parser_on_frame, frame_items, is_result in *. cbv zeta.
  destruct (str_eqb (text_at f "type") (str "system")) eqn:Es.
  { apply str_eqb_eq in Es as ->. cbn. unfold on_system. destruct (is_text _ _ _); [apply produces_native|apply produces_ret]. }
  destruct (str_eqb _ (str "assistant")).
  { unfold on_assistant. apply produces_bind; [rewrite <-flat_map_singleton; apply produces_each; intros; apply produces_block|]. intros _.
    destruct (q_openai_tool_calls quirks); [|apply produces_ret]. rewrite <-flat_map_singleton. apply produces_each.
    intros. apply produces_item. }
  destruct (str_eqb _ (str "user") && _); [apply produces_each; intros; apply produces_user_block|].
  destruct (str_eqb _ (str "tool") && _); [apply produces_item|]. rewrite Hr. apply produces_ret.
Qed.
End Timeline.

(** *** What a turn makes of them *)

Section Collected.
Context `{JT : JsonText}.
Variable plan_content_hash : rstr -> rstr.
Variable sid uuid : rstr.
Variable at_ms : Z.

Lemma result_frame quirks res s t : is_result res = true -> st_turn s = Some t ->
  each (parser_on_frame quirks) [res] s =
  (with_turn None s, [Emitted (in_turn t (result_kind quirks res)); Emitted (outside (EAttentionRequired AttentionFinished))], tt).
Proof.
  intros Hr Ht. cbn [each]. unfold is_result in Hr. apply str_eqb_eq in Hr. unfold parser_on_frame. rewrite Hr. cbv zeta.
  change (str_eqb (str "result") (str "system")) with false. change (str_eqb (str "result") (str "assistant")) with false.
  change (str_eqb (str "result") (str "user")) with false. change (str_eqb (str "result") (str "tool")) with false.
  change (str_eqb (str "result") (str "result")) with true. cbn [andb].
  unfold on_result, finish_turn, current_turn, emit, modify, gets, log, ret, bind. by rewrite Ht.
Qed.

(** C14: from the agent's frames to the stored turn: when a turn's frames end with
    a result frame, what the turn collects are the texts and thoughts of the
    frames' blocks in order and the last item of each tool call, with the usage and
    the end the result says; the session's turn is over. *)
Theorem frames_become_turn (quirks : ClaudeQuirks) (fs : list json) (res : json) (s : St) (t : rstr) (plans : list PlanRow) :
  st_turn s = Some t -> (forall f, f ∈ fs -> is_result f = false) -> is_result res = true ->
  let '(s', es, _) := each (parser_on_frame quirks) (fs ++ [res]) s in
  let '((_, a), ended) := collect plan_content_hash sid (plans, empty_acc) (map (receive uuid at_ms) (emitted es)) in
  let items := flat_map (frame_items quirks) fs in
  st_turn s' = None /\
  ac_assistant a = concat (omap said items) /\ ac_reasoning a = concat (omap thought items) /\
  (forall id, ac_tools a !! id = last (omap (call_state id) items)) /\
  ac_usage a = match result_kind quirks res with ETurnCompleted u => usage_row <$> u | _ => None end /\
  match result_kind quirks res with
  | ETurnFailed e _ => ended = Some (Err e) /\ ac_stop a = StopFailed
  | ETurnCompleted _ => ended = Some (Ok tt) /\ ac_stop a = StopCompleted
  | _ => ended = Some (Ok tt) /\ ac_stop a = StopCanceled
  end.
Proof.
  intros Ht Hfs Hres. rewrite each_app. unfold bind.
  assert (produces (each (parser_on_frame quirks) fs) (flat_map (frame_items quirks) fs)) as Hp.
  { apply produces_each. intros f Hf. by apply produces_frame, Hfs. }
  specialize (Hp s). destruct (each (parser_on_frame quirks) fs s) as [[s1 es1] []]. destruct Hp as (Ht1 & Hq & Hi).
  rewrite (result_frame quirks res s1 t Hres) by congruence.
  destruct (result_kind_ends quirks res) as [Hends _].
  unfold emitted in *. rewrite omap_app. set (es := omap _ es1) in *. cbn [omap list_omap emitted_of].
  pose proof (collected_turn plan_content_hash sid uuid at_ms es (in_turn t (result_kind quirks res))
    [outside (EAttentionRequired AttentionFinished)] plans Hq Hends) as Hc.
  destruct (collect _ _ _ _) as [[ps a] ended]. cbn zeta in Hc. rewrite Hi in Hc.
  destruct Hc as (Ha & Hr & Htools & _ & _ & Hu & He). by split_and!.
Qed.
End Collected.

(** ** What the sessions do not do *)

Definition plain_text : JsonText := {| to_string := fun _ => str "{}"; to_string_pretty := fun _ => str "{}"; from_str := fun _ => None |}.
#[local] Existing Instance plain_text.

Definition demo_frame (ty : string) (content : list json) : json :=
  mk_obj [("type", jstr ty); ("message", mk_obj [("content", JArr content)])]%string.
Definition demo_use : json := demo_frame "assistant"
  [mk_obj [("type", jstr "tool_use"); ("id", jstr "c1"); ("name", jstr "Bash"); ("input", mk_obj [("command", jstr "ls")])]]%string.
Definition demo_output : json := demo_frame "user"
  [mk_obj [("type", jstr "tool_result"); ("tool_use_id", jstr "c1"); ("content", jstr "a.txt")]]%string.
Definition demo_result : json := mk_obj [("type", jstr "result"); ("subtype", jstr "success")]%string.
Definition demo_ask : json := mk_obj
  [("type", jstr "control_request"); ("request_id", jstr "r1");
   ("request", mk_obj [("subtype", jstr "can_use_tool"); ("tool_name", jstr "Bash"); ("input", mk_obj [])])]%string.

(** The result of a call replaces the call in the turn's tool row: its name and
    its command are gone. *)
Theorem tool_row_loses_call :
  let '(_, es, _) := each (parser_on_frame Claude.quirks) [demo_use; demo_output; demo_result] (with_turn (Some (str "t")) fresh_session) in
  let '((_, a), _) := collect (fun c => c) (str "s") ([], empty_acc) (map (receive [] 0) (emitted es)) in
  ac_tools a !! str "c1" =
    Some (mk_obj [("call_id", jstr "c1"); ("name", jstr ""); ("status", jstr "completed");
                  ("detail", mk_obj [("type", jstr "unknown"); ("input", JNull); ("output", jstr "a.txt")])]%string).
Proof. vm_compute. reflexivity. Qed.

(** The late result of a turn that was given up ends the next turn. *)
Theorem late_result_ends_next_turn :
  let w := run_world Claude.dialect (str "claude")
    [(0, StartTurn (str "t1") (PText (str "one"))); (0, StartTurn (str "t2") (PText (str "two"))); (0, Frame [] demo_result);
     (0, Frame [] demo_use); (0, Frame [] demo_result)] in
  boundaries (session_log 0 w) = [Some (str "t2")] /\ open_turn (session w 0) = [].
Proof. vm_compute. done. Qed.

(** A turn's end leaves its asks pending, and they can still be answered. *)
Theorem ask_survives_turn_end :
  let w := run_world Claude.dialect (str "claude")
    [(0, StartTurn (str "t1") (PText (str "one"))); (0, Frame (str "u1") demo_ask); (0, Frame [] demo_result)] in
  pending_wires (session w 0) = [str "r1"] /\
  answers (session_log 0 (world_step Claude.dialect (str "claude") w (0, Respond (str "u1") (Deny None None false)))) = [str "r1"].
Proof. vm_compute. done. Qed.

(** An answer that cannot be delivered loses the ask. *)
Theorem failed_answer_loses_ask :
  let w := run_world Claude.dialect (str "claude")
    [(0, Frame (str "u1") demo_ask); (0, PipeCloses); (0, Respond (str "u1") (Deny None None false))] in
  pending_wires (session w 0) = [] /\ answers (session_log 0 w) = [].
Proof. vm_compute. done. Qed.

(** The picks of a question card never reach the agent. *)
Theorem claude_drops_picks `{JsonText} (ask : PermissionRequest) (wire : rstr) (action answer : option rstr) (updated answers : option json) :
  Claude.permission_response_frame ask wire (Allow action updated answer answers) =
  Claude.permission_response_frame ask wire (Allow None updated None None).
Proof. done. Qed.

(** A prompt the dialect refuses leaves its turn open. *)
Theorem refused_prompt_leaves_turn :
  let w := run_world Qwen.dialect (str "qwen") [(0, StartTurn (str "t1") (PBlocks [PBImage [] []]))] in
  open_turn (session w 0) = [Some (str "t1")] /\ session_log 0 w = [].
Proof. vm_compute. done. Qed.

(** ** Witnesses *)

Definition demo_task : json := demo_frame "assistant"
  [mk_obj [("type", jstr "tool_use"); ("id", jstr "c1"); ("name", jstr "Task"); ("input", mk_obj [("description", jstr "look")])]]%string.

Definition demo_world : list (nat * op) :=
  [(0, StartTurn (str "t1") (PText (str "one"))); (1, StartTurn (str "t9") (PText (str "nine"))); (0, Frame (str "u1") demo_ask);
   (0, Frame [] demo_task); (0, Respond (str "u1") (Deny None None false)); (0, Frame [] demo_output); (0, Frame [] demo_result);
   (0, StartTurn (str "t2") (PText (str "two")))].

Lemma turns_end_once_witness :
  let w := run_world Claude.dialect (str "claude") demo_world in
  boundaries (session_log 0 w) = [Some (str "t1")] /\
  boundaries (session_log 0 w) ++ open_turn (session w 0) = [Some (str "t1"); Some (str "t2")].
Proof.
  destruct (turns_end_once Claude.dialect (str "claude") demo_world 0) as (_ & _ & H).
  split; [vm_compute; reflexivity|]. rewrite H; [vm_compute; reflexivity|].
  intros ys turn p zs E. unfold demo_world in E.
  destruct ys as [|y0 ys]; [vm_compute; reflexivity|]. injection E as <- E.
  destruct ys as [|y1 ys]; [discriminate E|]. injection E as <- E.
  destruct ys as [|y2 ys]; [discriminate E|]. injection E as <- E.
  destruct ys as [|y3 ys]; [discriminate E|]. injection E as <- E.
  destruct ys as [|y4 ys]; [discriminate E|]. injection E as <- E.
  destruct ys as [|y5 ys]; [discriminate E|]. injection E as <- E.
  destruct ys as [|y6 ys]; [discriminate E|]. injection E as <- E.
  destruct ys as [|y7 ys]; [vm_compute; reflexivity|]. injection E as <- E. by destruct ys.
Defined.

Lemma answers_match_requests_witness :
  let w := run_world Claude.dialect (str "claude") demo_world in
  answers (session_log 0 w) = [str "r1"] /\
  answers (session_log 0 w) ++ pending_wires (session w 0) ⊆+ [str "r1"].
Proof.
  split; [vm_compute; reflexivity|]. apply (answers_match_requests Claude.dialect (str "claude") demo_world 0).
Defined.

Lemma subagents_end_after_start_witness :
  let w := run_world Claude.dialect (str "claude") demo_world in
  replay (str "c1") None (map snd (wd_log w)) = Some (wd_tasks w !! str "c1") /\ wd_tasks w !! str "c1" = None /\
  length (List.filter (fun e => match ev_kind e with ESubagent _ => true | _ => false end) (emitted (session_log 0 w))) = 2.
Proof.
  split; [apply (subagents_end_after_start Claude.dialect (str "claude") demo_world (str "c1"))|]. split; vm_compute; reflexivity.
Defined.

Lemma frames_become_turn_witness :
  let '(_, es, _) := each (parser_on_frame Claude.quirks) ([demo_frame "assistant" [text_block (str "hi")]] ++ [demo_result])
    (with_turn (Some (str "t")) fresh_session) in
  ac_assistant (collect (fun c => c) (str "s") ([], empty_acc) (map (receive [] 0) (emitted es))).1.2 = str "hi".
Proof.
  pose proof (frames_become_turn (fun c => c) (str "s") [] 0 Claude.quirks [demo_frame "assistant" [text_block (str "hi")]] demo_result
    (with_turn (Some (str "t")) fresh_session) (str "t") [] eq_refl) as H.
  destruct (each _ _ _) as [[s' es] []]. destruct (collect _ _ _ _) as [[ps a] ended]. cbn [fst snd].
  destruct H as (_ & -> & _); [|vm_compute; reflexivity|vm_compute; reflexivity].
  intros f ->%list_elem_of_singleton. vm_compute. reflexivity.
Defined.
