(* ===== verification/AgentCli.v ===== *)
(** * AgentCli: command lines and transcripts of the stream-json agents
    ([backend/claude.rs], [backend/qwen.rs])

    The arguments an agent is launched with, and the title read from the
    transcript files the agent keeps of its own sessions. *)

From S2P Require Import Prelude Str Json Events.

(** ** Launching *)

Record McpServerConfig := { mc_command : rstr; mc_args : list rstr; mc_env : list (rstr * rstr) }.

(** [mcp_servers] in the order its map lists them; paths as [to_string_lossy]
    shows them. *)
Record SessionConfig := {
  sc_cwd : rstr; sc_model : option rstr; sc_mode : option rstr; sc_mcp_servers : list (rstr * McpServerConfig);
  sc_granted_roots : list rstr; sc_allowed_tools : list rstr
}.

Definition opt_flag (flag : string) (value : option rstr) : list rstr :=
  match value with Some v => [str flag; v] | None => [] end.

Section Launch.
Context `{JT : JsonText}.

Definition server_json (s : McpServerConfig) : json :=
  mk_obj [("command", JStr (mc_command s)); ("args", JArr (map JStr (mc_args s)));
          ("env", JObj (map (fun kv => (kv.1, JStr kv.2)) (mc_env s)))]%string.

(** Collecting into a map: a name given twice keeps its place and its last value. *)
Definition mcp_config (servers : list (rstr * McpServerConfig)) : rstr :=
  to_string (mk_obj [("mcpServers",
    JObj (fold_left (fun m s => assoc_insert s.1 (server_json s.2) m) servers []))]%string).

Definition mcp_flag (config : SessionConfig) : list rstr :=
  match sc_mcp_servers config with [] => [] | servers => [str "--mcp-config"; mcp_config servers] end.

Definition claude_launch_args (config : SessionConfig) (resume : option rstr) : list rstr :=
  opt_flag "--permission-mode" (sc_mode config) ++ opt_flag "--model" (sc_model config) ++ opt_flag "--resume" resume ++
  flat_map (fun dir => [str "--add-dir"; dir]) (sc_granted_roots config) ++
  match sc_allowed_tools config with [] => [] | tools => [str "--allowedTools"; join (str ",") tools] end ++
  mcp_flag config.

Definition qwen_launch_args (config : SessionConfig) (resume : option rstr) : list rstr :=
  opt_flag "--approval-mode" (sc_mode config) ++ opt_flag "--model" (sc_model config) ++ opt_flag "--resume" resume ++
  mcp_flag config.

(** *** Reading a command line back *)

Record launch_line := {
  ll_mode : option rstr; ll_model : option rstr; ll_resume : option rstr; ll_dirs : list rstr; ll_tools : option rstr;
  ll_mcp : option rstr
}.

Definition no_flags : launch_line :=
  {| ll_mode := None; ll_model := None; ll_resume := None; ll_dirs := []; ll_tools := None; ll_mcp := None |}.

(** What a flag with its value says; the flags of both agents. *)
Definition read_flag (flag value : rstr) (l : launch_line) : option launch_line :=
  if str_eqb flag (str "--permission-mode") || str_eqb flag (str "--approval-mode") then
    Some {| ll_mode := Some value; ll_model := ll_model l; ll_resume := ll_resume l; ll_dirs := ll_dirs l; ll_tools := ll_tools l; ll_mcp := ll_mcp l |}
  else if str_eqb flag (str "--model") then
    Some {| ll_mode := ll_mode l; ll_model := Some value; ll_resume := ll_resume l; ll_dirs := ll_dirs l; ll_tools := ll_tools l; ll_mcp := ll_mcp l |}
  else if str_eqb flag (str "--resume") then
    Some {| ll_mode := ll_mode l; ll_model := ll_model l; ll_resume := Some value; ll_dirs := ll_dirs l; ll_tools := ll_tools l; ll_mcp := ll_mcp l |}
  else if str_eqb flag (str "--add-dir") then
    Some {| ll_mode := ll_mode l; ll_model := ll_model l; ll_resume := ll_resume l; ll_dirs := ll_dirs l ++ [value]; ll_tools := ll_tools l; ll_mcp := ll_mcp l |}
  else if str_eqb flag (str "--allowedTools") then
    Some {| ll_mode := ll_mode l; ll_model := ll_model l; ll_resume := ll_resume l; ll_dirs := ll_dirs l; ll_tools := Some value; ll_mcp := ll_mcp l |}
  else if str_eqb flag (str "--mcp-config") then
    Some {| ll_mode := ll_mode l; ll_model := ll_model l; ll_resume := ll_resume l; ll_dirs := ll_dirs l; ll_tools := ll_tools l; ll_mcp := Some value |}
  else None.

Fixpoint read_args (args : list rstr) (l : launch_line) : option launch_line :=
  match args with
  | [] => Some l
  | flag :: value :: args => match read_flag flag value l with Some l => read_args args l | None => None end
  | [_] => None
  end.

Lemma read_known flag value rest l l' :
  read_flag flag value l = Some l' -> read_args (flag :: value :: rest) l = read_args rest l'.
Proof. intros H. cbn [read_args]. by rewrite H. Qed.

Lemma read_dirs dirs rest l : read_args (flat_map (fun dir => [str "--add-dir"; dir]) dirs ++ rest) l =
  read_args rest {| ll_mode := ll_mode l; ll_model := ll_model l; ll_resume := ll_resume l; ll_dirs := ll_dirs l ++ dirs;
                    ll_tools := ll_tools l; ll_mcp := ll_mcp l |}.
Proof.
  revert l. induction dirs as [|dir dirs IH]; intros l; cbn [flat_map app].
  - rewrite app_nil_r. by destruct l.
  - erewrite read_known by reflexivity. rewrite IH. cbn. by rewrite <-app_assoc.
Qed.

(** A session's configuration can be read off its command line, whatever its
    values look like: nothing granted, allowed or resumed is lost or added. *)
Theorem launch_args_read (config : SessionConfig) (resume : option rstr) :
  let mcp := match sc_mcp_servers config with [] => None | servers => Some (mcp_config servers) end in
  read_args (claude_launch_args config resume) no_flags =
    Some {| ll_mode := sc_mode config; ll_model := sc_model config; ll_resume := resume; ll_dirs := sc_granted_roots config;
            ll_tools := match sc_allowed_tools config with [] => None | tools => Some (join (str ",") tools) end;
            ll_mcp := mcp |} /\
  read_args (qwen_launch_args config resume) no_flags =
    Some {| ll_mode := sc_mode config; ll_model := sc_model config; ll_resume := resume; ll_dirs := []; ll_tools := None;
            ll_mcp := mcp |}.
Proof.
  unfold claude_launch_args, qwen_launch_args, mcp_flag. destruct config as [cwd model mode mcp roots tools].
  cbn [sc_model sc_mode sc_mcp_servers sc_granted_roots sc_allowed_tools].
  split; destruct mode, model, resume; cbn [opt_flag app]; repeat (erewrite read_known by reflexivity);
    rewrite ?read_dirs; destruct mcp; try done; destruct tools; reflexivity.
Qed.
End Launch.

(** ** Titles *)

Section Title.
Context `{JT : JsonText}.

Definition TITLE_LINES : nat := 80.
Definition TITLE_BYTES : nat := 80.

(** The text of a user line's content; [None] is a content of another shape. *)
Definition content_text (content : json) : option rstr :=
  match content with
  | JStr s => Some s
  | JArr parts => Some (join (str " ") (omap (fun p => as_str p.["text"]) parts))
  | _ => None
  end.

Definition collapse (text : rstr) : rstr := join (str " ") (split_whitespace text).

(** The title among so many lines; a line that cannot be read ends the search. *)
Fixpoint title_among (n : nat) (lines : list (option rstr)) : option rstr :=
  match n, lines with
  | S n, Some line :: lines =>
      match from_str line with
      | None => title_among n lines
      | Some v =>
          match as_str v.["type"] with
          | Some ty =>
              if str_eqb ty (str "user") then
                match content_text (v.["message"]).["content"] with
                | None => None
                | Some text =>
                    let collapsed := collapse text in
                    if is_empty collapsed then title_among n lines
                    else Some (take (floor_chars TITLE_BYTES collapsed) collapsed)
                end
              else title_among n lines
          | None => title_among n lines
          end
      end
  | _, _ => None
  end.

Definition transcript_title (lines : list (option rstr)) : option rstr := title_among TITLE_LINES lines.

(** A line that gives no title but does not end the search. *)
Definition passes (line : option rstr) : bool :=
  match line with
  | None => false
  | Some line =>
      match from_str line with
      | None => true
      | Some v =>
          negb (default false (str_eqb (str "user") <$> as_str v.["type"])) ||
          match content_text (v.["message"]).["content"] with Some text => is_empty (collapse text) | None => false end
      end
  end.

(** The title a line gives. *)
Definition gives (line : option rstr) (title : rstr) : Prop :=
  exists l v text, line = Some l /\ from_str l = Some v /\ as_str v.["type"] = Some (str "user") /\
    content_text (v.["message"]).["content"] = Some text /\ collapse text <> [] /\
    title = take (floor_chars TITLE_BYTES (collapse text)) (collapse text).

Lemma title_step n line lines : title_among (S n) (line :: lines) = if passes line then title_among n lines else
  match line with
  | Some l => match from_str l with
              | Some v => match content_text (v.["message"]).["content"] with
                          | Some text => Some (take (floor_chars TITLE_BYTES (collapse text)) (collapse text))
                          | None => None
                          end
              | None => None
              end
  | None => None
  end.
Proof.
  destruct line as [l|]; [|done]. cbn [title_among passes]. destruct (from_str l) as [v|]; [|done].
  destruct (as_str v.["type"]) as [ty|]; [|done]. cbn. unfold str_eqb. rewrite (bool_decide_ext (str "user" = ty) (ty = str "user")) by done.
  destruct (bool_decide (ty = str "user")); [|done]. cbn. destruct (content_text _) as [text|]; [|done]. by destruct (is_empty (collapse text)).
Qed.

Lemma gives_step line title n lines : passes line = false ->
  title_among (S n) (line :: lines) = Some title <-> gives line title.
Proof.
  intros Hp. rewrite title_step, Hp. destruct line as [l|]; [|split; [done|by intros (? & ? & ? & ? & _)]].
  cbn in Hp. split.
  - destruct (from_str l) as [v|] eqn:Ev; [|done]. apply orb_false_elim in Hp as [Ht He].
    destruct (content_text _) as [text|] eqn:Et; [|done]. intros [= <-]. exists l, v, text. split; [done|]. split; [done|].
    destruct (as_str v.["type"]) as [ty|]; [|done]. cbn in Ht. apply negb_false_iff, str_eqb_eq in Ht as <-.
    split; [done|]. split; [done|]. split; [|done]. intros Hc. by rewrite Hc in He.
  - intros (l' & v & text & [= <-] & -> & _ & -> & _ & ->). done.
Qed.

Lemma gives_not_passes line title : gives line title -> passes line = false.
Proof.
  intros (l & v & text & -> & Hl & Ht & Hc & Hne & _). cbn. rewrite Hl, Ht, Hc. cbn.
  by destruct (collapse text).
Qed.

Lemma title_among_spec n lines title : title_among n lines = Some title <->
  exists before line after, lines = before ++ line :: after /\ length before < n /\ forallb passes before = true /\ gives line title.
Proof.
  revert lines. induction n as [|n IH]; intros lines.
  { split; [by destruct lines|]. intros (? & ? & ? & _ & Hn & _). lia. }
  destruct lines as [|line lines].
  { split; [done|]. intros ([|] & ? & ? & ? & _); discriminate. }
  destruct (passes line) eqn:Hp.
  - rewrite title_step, Hp, IH. split.
    + intros (before & l & after & -> & Hn & Hb & Hg). exists (line :: before), l, after. cbn. rewrite Hp. split_and!; [done|lia|done|done].
    + intros ([|x before] & l & after & [= -> ->] & Hn & Hb & Hg).
      * apply gives_not_passes in Hg. congruence.
      * cbn in Hn, Hb. rewrite Hp in Hb. exists before, l, after. split_and!; [done|lia|done|done].
  - rewrite gives_step by done. split.
    + intros Hg. exists [], line, lines. cbn. split_and!; [done|lia|done|done].
    + intros ([|x before] & l & after & [= -> ->] & Hn & Hb & Hg); [done|]. cbn in Hb. by rewrite Hp in Hb.
Qed.

(** The title is the text of the first user line that has one, its white space
    collapsed and cut to eighty bytes, when the lines before it, fewer than
    eighty, all pass. *)
Theorem transcript_title_spec (lines : list (option rstr)) (title : rstr) :
  transcript_title lines = Some title <->
  exists before line after, lines = before ++ line :: after /\ length before < TITLE_LINES /\
    forallb passes before = true /\ gives line title.
Proof. apply title_among_spec. Qed.

Lemma transcript_title_bounded lines title : transcript_title lines = Some title -> utf8_len title <= TITLE_BYTES.
Proof.
  unfold transcript_title. generalize TITLE_LINES as n. intros n H. apply title_among_spec in H.
  destruct H as (before & line & after & _ & _ & _ & l & v & text & _ & _ & _ & _ & _ & ->). apply floor_chars_le.
Qed.
End Title.
