(* ===== verification/Codex.v ===== *)
(** * Codex: sessions of [codex app-server] ([backend/codex.rs])

    JSON-RPC over lines: answers to the daemon's requests, requests of the agent
    (approvals), notifications that become events.  Calls that await an answer
    are tasks of [Requests]; what they do after the answer comes after whatever
    frames were handled meanwhile. *)

From Stdlib Require Import SpecFloat.
From S2P Require Import Prelude Str Json SessionStore Memory Turn Events Handler AgentLog Transport Requests AgentCli HistoryScan.

Open Scope session_scope.

(** ** State *)

(** [pa_rpc] is the id of the agent's request. *)
Record PendingAsk := { pa_request : PermissionRequest; pa_rpc : json }.

Record St := {
  cx_conn : connection; cx_next : Z; cx_thread : option rstr; cx_turn : option rstr; cx_asks : gmap rstr PendingAsk;
  cx_items : gmap rstr ToolCall; cx_usage : option TokenUsage; cx_mode : option rstr; cx_model : option rstr
}.

Definition with_conn x s := {| cx_conn := x; cx_next := cx_next s; cx_thread := cx_thread s; cx_turn := cx_turn s; cx_asks := cx_asks s; cx_items := cx_items s; cx_usage := cx_usage s; cx_mode := cx_mode s; cx_model := cx_model s |}.
Definition with_next x s := {| cx_conn := cx_conn s; cx_next := x; cx_thread := cx_thread s; cx_turn := cx_turn s; cx_asks := cx_asks s; cx_items := cx_items s; cx_usage := cx_usage s; cx_mode := cx_mode s; cx_model := cx_model s |}.
Definition with_thread x s := {| cx_conn := cx_conn s; cx_next := cx_next s; cx_thread := x; cx_turn := cx_turn s; cx_asks := cx_asks s; cx_items := cx_items s; cx_usage := cx_usage s; cx_mode := cx_mode s; cx_model := cx_model s |}.
Definition with_turn x s := {| cx_conn := cx_conn s; cx_next := cx_next s; cx_thread := cx_thread s; cx_turn := x; cx_asks := cx_asks s; cx_items := cx_items s; cx_usage := cx_usage s; cx_mode := cx_mode s; cx_model := cx_model s |}.
Definition with_asks x s := {| cx_conn := cx_conn s; cx_next := cx_next s; cx_thread := cx_thread s; cx_turn := cx_turn s; cx_asks := x; cx_items := cx_items s; cx_usage := cx_usage s; cx_mode := cx_mode s; cx_model := cx_model s |}.
Definition with_items x s := {| cx_conn := cx_conn s; cx_next := cx_next s; cx_thread := cx_thread s; cx_turn := cx_turn s; cx_asks := cx_asks s; cx_items := x; cx_usage := cx_usage s; cx_mode := cx_mode s; cx_model := cx_model s |}.
Definition with_usage x s := {| cx_conn := cx_conn s; cx_next := cx_next s; cx_thread := cx_thread s; cx_turn := cx_turn s; cx_asks := cx_asks s; cx_items := cx_items s; cx_usage := x; cx_mode := cx_mode s; cx_model := cx_model s |}.
Definition with_mode x s := {| cx_conn := cx_conn s; cx_next := cx_next s; cx_thread := cx_thread s; cx_turn := cx_turn s; cx_asks := cx_asks s; cx_items := cx_items s; cx_usage := cx_usage s; cx_mode := x; cx_model := cx_model s |}.
Definition with_model x s := {| cx_conn := cx_conn s; cx_next := cx_next s; cx_thread := cx_thread s; cx_turn := cx_turn s; cx_asks := cx_asks s; cx_items := cx_items s; cx_usage := cx_usage s; cx_mode := cx_mode s; cx_model := x |}.

#[export] Instance St_connected : Connected St := {| conn := cx_conn; set_conn := with_conn; conn_set := fun c s => eq_refl |}.

Definition fresh_session : St := {|
  cx_conn := fresh_connection; cx_next := 1; cx_thread := None; cx_turn := None; cx_asks := ∅; cx_items := ∅;
  cx_usage := None; cx_mode := None; cx_model := None
|}.

Definition H : Type -> Type := handler St effect.

(** ** Modes *)

(** The approval policy, the sandbox of [thread/start], the type of the sandbox
    policy of [turn/start]. *)
Definition codex_mode (mode : rstr) : option (string * string * string) :=
  if str_eqb mode (str "default") then Some ("on-request", "workspace-write", "workspaceWrite")%string
  else if str_eqb mode (str "read-only") then Some ("on-request", "read-only", "readOnly")%string
  else if str_eqb mode (str "full-access") then Some ("never", "danger-full-access", "dangerFullAccess")%string
  else None.

Definition codex_catalog_modes : list (string * string * string) :=
  [("default", "Default", "Ask for approvals; writes confined to the workspace");
   ("read-only", "Read-only", "Ask for approvals; the sandbox denies file writes");
   ("full-access", "Full access", "No approvals, no sandbox")]%string.

(** ** Parameters of requests *)

(** An entry of [mcp_servers]: empty arguments and environments are left out. *)
Definition mcp_entry (cfg : McpServerConfig) : json :=
  mk_obj (field "command" (JStr (mc_command cfg)) ::
          match mc_args cfg with [] => [] | args => [field "args" (JArr (map JStr args))] end ++
          match mc_env cfg with [] => [] | env => [field "env" (JObj (map (fun kv => (kv.1, JStr kv.2)) env))] end).

Definition codex_mcp_config (servers : list (rstr * McpServerConfig)) : option json :=
  match servers with
  | [] => None
  | _ => Some (mk_obj [field "mcp_servers" (JObj (fold_left (fun m s => assoc_insert s.1 (mcp_entry s.2) m) servers []))])
  end.

Definition codex_thread_start_params (config : SessionConfig) : json :=
  mk_obj (opt_field "model" (JStr <$> sc_model config) ++ [field "cwd" (JStr (sc_cwd config))] ++
          opt_field "config" (codex_mcp_config (sc_mcp_servers config)) ++
          match sc_mode config ≫= codex_mode with
          | Some (approval, sandbox, _) => [field "approvalPolicy" (jstr approval); field "sandbox" (jstr sandbox)]
          | None => []
          end).

Definition codex_turn_params (thread_id : rstr) (input : list json) (model mode : option rstr) : json :=
  mk_obj ([field "threadId" (JStr thread_id); field "input" (JArr input)] ++ opt_field "model" (JStr <$> model) ++
          match mode ≫= codex_mode with
          | Some (approval, _, policy) =>
              [field "approvalPolicy" (jstr approval); field "sandboxPolicy" (mk_obj [field "type" (jstr policy)])]
          | None => []
          end).

(** ** Usage *)

Definition has (v : json) (k : string) : bool := match get v (str k) with Some _ => true | None => false end.

Definition codex_usage (params : json) : option TokenUsage :=
  match get params (str "usage") with
  | None => None
  | Some usage =>
      let total := match get usage (str "totalTokenUsage") with
                   | Some t => if has t "input_tokens" || has t "output_tokens" then Some t else None
                   | None => None
                   end in
      let tokens := default usage (or_else total (get usage (str "lastTokenUsage"))) in
      if negb (has tokens "input_tokens") && negb (has tokens "output_tokens") then None
      else Some {| tu_input := as_u64 tokens.["input_tokens"]; tu_cached := as_u64 tokens.["cached_input_tokens"];
                   tu_output := as_u64 tokens.["output_tokens"]; tu_cost := None; tu_window := None; tu_used := None |}
  end.

(** The first of the names that holds a count. *)
Fixpoint first_count (v : json) (names : list string) : option Z :=
  match names with
  | [] => None
  | n :: names => or_else (get v (str n) ≫= as_u64) (first_count v names)
  end.

Definition token_usage_event (v : json) : option TokenUsage :=
  let input := first_count v ["input_tokens"; "inputTokens"; "input"]%string in
  let output := first_count v ["output_tokens"; "outputTokens"; "output"]%string in
  match input, output with
  | None, None => None
  | _, _ => Some {| tu_input := input; tu_cached := first_count v ["cached_input_tokens"; "cachedTokens"; "cached"]%string;
                    tu_output := output; tu_cost := None;
                    tu_window := first_count v ["modelContextWindow"; "model_context_window"; "contextWindow"]%string;
                    tu_used := None |}
  end.

(** ** Asks and answers *)

Definition codex_decision (d : string) : PermissionAction := {|
  pa_id := str d;
  pa_label := str (if String.eqb d "accept" then "Allow"
                   else if String.eqb d "acceptForSession" then "Always allow (session)"
                   else if String.eqb d "decline" then "Deny"
                   else if String.eqb d "cancel" then "Cancel" else d)%string;
  pa_behavior := if String.eqb d "accept" || String.eqb d "acceptForSession" then BehaviorAllow else BehaviorDeny;
  pa_variant := Some (if String.eqb d "accept" then VariantPrimary
                      else if String.eqb d "decline" || String.eqb d "cancel" then VariantDanger else VariantSecondary)
|}.

Definition codex_decisions (decisions : list string) : list PermissionAction := map codex_decision decisions.

Definition codex_approval_result (kind : PermissionKind) (response : PermissionResponse) : json :=
  let '(decision, answer) := match response with
    | Allow action_id _ answer _ => (default (str "accept") action_id, answer)
    | Deny action_id _ _ => (default (str "decline") action_id, None)
    end in
  mk_obj (field "decision" (JStr decision) :: match kind with KindQuestion => opt_field "answer" (JStr <$> answer) | _ => [] end).

Definition ask_of (uuid : rstr) (kind : PermissionKind) (name : string) (title : rstr) (params : json)
    (detail : ToolCallDetail) (decisions : list string) : PermissionRequest := {|
  pr_id := uuid; pr_kind := kind; pr_name := str name; pr_title := Some title; pr_input := Some params;
  pr_detail := Some detail; pr_actions := codex_decisions decisions; pr_suggestions := []; pr_questions := []
|}.

(** The ask a request of the agent becomes, if it is one of the known. *)
Definition request_ask (uuid method : rstr) (params : json) : option PermissionRequest :=
  let approvals := ["accept"; "acceptForSession"; "decline"; "cancel"]%string in
  if str_eqb method (str "item/commandExecution/requestApproval") then
    let cmd := text_at params "command" in
    Some (ask_of uuid KindTool "commandExecution" (str "Run: " ++ cmd) params (Shell cmd None None) approvals)
  else if str_eqb method (str "item/fileChange/requestApproval") then
    Some (ask_of uuid KindTool "fileChange" (str "Apply file changes") params (EditFile (text_at params "grantRoot") None) approvals)
  else if str_eqb method (str "item/permissions/requestApproval") then
    Some (ask_of uuid KindTool "permissions" (default (str "Permission request") (as_str params.["reason"])) params
            (UnknownDetail params JNull) ["accept"; "decline"]%string)
  else if str_eqb method (str "item/tool/requestUserInput") || str_eqb method (str "mcpServer/elicitation/request") then
    Some (ask_of uuid KindQuestion "input" (default (str "Input requested") (as_str params.["message"])) params
            (UnknownDetail params JNull) ["accept"; "decline"; "cancel"]%string)
  else None.

(** ** Handlers *)

Definition emit (e : Event) : H unit := log (Emitted e).

(** An event under the current turn, if there is one. *)
Definition emit_here (k : StreamEventKind) : H unit :=
  let! turn := gets cx_turn in emit {| ev_turn := turn; ev_kind := k |}.

Definition emit_timeline (item : TimelineItem) : H unit := emit_here (ETimeline item).

Definition method_not_found (rpc_id : json) : json :=
  mk_obj [("id", rpc_id); ("error", mk_obj [("code", jint (-32601)); ("message", jstr "method not found")])]%string.

Definition on_server_request (uuid : rstr) (f : json) : H unit :=
  let rpc_id := f.["id"] in
  match request_ask uuid (text_at f "method") f.["params"] with
  | None => send (method_not_found rpc_id) ;! ret tt
  | Some ask =>
      modify (fun s => with_asks (<[uuid := {| pa_request := ask; pa_rpc := rpc_id |}]> (cx_asks s)) s) ;!
      emit_here (EPermissionRequested ask) ;!
      emit (outside (EAttentionRequired AttentionPermission))
  end.

(** The call an item starts as; messages of the user and the agent are none. *)
Definition item_call (item : json) : option ToolCall :=
  let ty := text_at item "type" in
  let call name detail := Some {| tc_call_id := text_at item "id"; tc_name := name; tc_status := ToolRunning; tc_detail := detail |} in
  if str_eqb ty (str "commandExecution") then call (str "shell") (Shell (text_at item "command") None None)
  else if str_eqb ty (str "fileChange") then
    call (str "edit") (EditFile (text_at (default JNull (default [] (as_array item.["changes"]) !! 0)) "path") None)
  else if str_eqb ty (str "mcpToolCall") then
    call (default (str "mcp") (as_str item.["tool"])) (UnknownDetail item.["arguments"] JNull)
  else if str_eqb ty (str "plan") then call (str "plan") (PlanText (text_at item "text"))
  else None.

Definition on_item_started (params : json) : H unit :=
  match item_call params.["item"] with
  | None => ret tt
  | Some call =>
      modify (fun s => with_items (<[tc_call_id call := call]> (cx_items s)) s) ;!
      emit_timeline (TToolCall call)
  end.

(** [as_i64]: integers in the signed 64-bit range only. *)
Definition value_i64 (v : json) : option Z :=
  match v with
  | JNum (NInt z) => if ((- 2 ^ 63 <=? z) && (z <? 2 ^ 63))%Z then Some z else None
  | _ => None
  end.

(** [as i32] *)
Definition wrap_i32 (z : Z) : Z := ((z + 2 ^ 31) mod 2 ^ 32 - 2 ^ 31)%Z.

(** A running call as its completed item leaves it. *)
Definition finish_call (item : json) (call : ToolCall) : ToolCall :=
  let status := text_at item "status" in {|
    tc_call_id := tc_call_id call; tc_name := tc_name call;
    tc_status := if str_eqb status (str "failed") || str_eqb status (str "declined") then ToolFailed else ToolCompleted;
    tc_detail := match tc_detail call with
                 | Shell command _ _ =>
                     Shell command (or_else (as_str item.["aggregatedOutput"]) (as_str item.["output"]))
                       (wrap_i32 <$> value_i64 item.["exitCode"])
                 | detail => detail
                 end |}.

Definition on_item_completed (params : json) : H unit :=
  let item := params.["item"] in
  let ty := text_at item "type" in
  let text_item (mk : rstr -> TimelineItem) : H unit :=
    match as_str item.["text"] with Some text => emit_timeline (mk text) | None => ret tt end in
  if str_eqb ty (str "agentMessage") then text_item TAssistantMessage
  else if str_eqb ty (str "reasoning") then text_item TReasoning
  else if str_eqb ty (str "userMessage") then text_item TUserMessage
  else if str_eqb ty (str "contextCompaction") then emit_timeline (TCompaction (text_at item "summary"))
  else
    let! items := gets cx_items in
    match items !! text_at item "id" with
    | None => ret tt
    | Some call =>
        modify (with_items (delete (text_at item "id") items)) ;!
        emit_timeline (TToolCall (finish_call item call))
    end.

(** ** Frames of the agent *)

Section Session.
Context `{JT : JsonText}.
(** The order the hash map of asks is searched in. *)
Variable hash_order : gmap rstr PendingAsk -> list (rstr * PendingAsk).

Definition int_text (z : Z) : rstr := if (z <? 0)%Z then str "-" ++ dec (Z.to_N (- z)) else dec (Z.to_N z).

Definition number_text (n : number) : rstr := match n with NInt z => int_text z | NFloat _ _ => to_string (JNum n) end.

(** The key of a response among the waiters. *)
Definition response_key (id : json) : option rstr :=
  match id with JNum n => Some (number_text n) | JStr s => Some s | _ => None end.

Definition on_response (id f : json) : H unit :=
  match response_key id with
  | None => ret tt
  | Some key => resolve_wait key match get f (str "error") with Some err => Err err | None => Ok f.["result"] end
  end.

Definition completed_kind (params : json) (last_usage : option TokenUsage) : StreamEventKind :=
  let turn := params.["turn"] in
  let status := text_at turn "status" in
  if str_eqb status (str "interrupted") then ETurnCanceled (str "interrupted")
  else if str_eqb status (str "failed") then
    ETurnFailed (default (str "turn failed") (as_str (turn.["error"]).["message"])) None
  else ETurnCompleted (or_else (codex_usage params) last_usage).

Definition on_turn_completed (params : json) : H unit :=
  let! turn := gets cx_turn in
  let! last_usage := gets cx_usage in
  modify (with_turn None) ;!
  emit {| ev_turn := turn; ev_kind := completed_kind params last_usage |} ;!
  emit (outside (EAttentionRequired AttentionFinished)).

Definition plan_item (p : json) : TaskItem :=
  let status := text_at p "status" in {|
    ti_content := text_at p "step";
    ti_status := if str_eqb status (str "inProgress") then TaskInProgress
                 else if str_eqb status (str "completed") then TaskCompleted else TaskPending |}.

(** Whether a pending ask is the one [rid] names. *)
Definition names_ask (rid : rstr) (a : PendingAsk) : bool :=
  str_eqb (pr_id (pa_request a)) rid ||
  match as_str (pa_rpc a) with Some s => str_eqb s rid | None => false end ||
  match as_u64 (pa_rpc a) with Some n => str_eqb (dec (Z.to_N n)) rid | None => false end.

Definition on_request_resolved (params : json) : H unit :=
  match as_str params.["requestId"] with
  | None => ret tt
  | Some rid =>
      let! asks := gets cx_asks in
      match find_first (fun p => names_ask rid p.2) (hash_order asks) with
      | Some (k, _) => modify (with_asks (delete k asks))
      | None => ret tt
      end
  end.

Definition usage_payload (params : json) : json :=
  match get params (str "usage") with Some u => match as_object u with Some _ => u | None => params end | None => params end.

Definition on_delta (mk : rstr -> TimelineItem) (params : json) : H unit :=
  match as_str params.["delta"] with Some delta => emit_timeline (mk delta) | None => ret tt end.

Definition on_notification (method : rstr) (params : json) : H unit :=
  if str_eqb method (str "turn/started") then
    let turn_id := text_at params.["turn"] "id" in
    modify (with_turn (Some turn_id)) ;! emit (in_turn turn_id ETurnStarted)
  else if str_eqb method (str "turn/completed") then on_turn_completed params
  else if str_eqb method (str "item/started") then on_item_started params
  else if str_eqb method (str "item/completed") then on_item_completed params
  else if str_eqb method (str "item/agentMessage/delta") then on_delta TAssistantMessage params
  else if str_eqb method (str "item/reasoning/summaryTextDelta") then on_delta TReasoning params
  else if str_eqb method (str "turn/plan/updated") then
    match as_array params.["plan"] with Some plan => emit_timeline (TTodo (map plan_item plan)) | None => ret tt end
  else if str_eqb method (str "thread/tokenUsage/updated") then
    match token_usage_event (usage_payload params) with Some u => modify (with_usage (Some u)) | None => ret tt end
  else if str_eqb method (str "serverRequest/resolved") then on_request_resolved params
  else ret tt.

Definition on_frame (uuid : rstr) (f : json) : H unit :=
  match get f (str "id") with
  | Some id => match get f (str "method") with
               | None => on_response id f
               | Some _ => on_server_request uuid f
               end
  | None => on_notification (text_at f "method") f.["params"]
  end.

(** The pump when the process is gone. *)
Definition on_exit : H unit :=
  let! turn := gets cx_turn in
  match turn with
  | None => ret tt
  | Some t =>
      modify (with_turn None) ;!
      emit (in_turn t (ETurnFailed (str "backend process exited without completing the turn") None)) ;!
      emit (outside (EAttentionRequired AttentionFinished))
  end.

(** ** Calls *)

Record ModelDef := { md_id : rstr; md_name : rstr }.

Inductive reply := RUnit | RTurn (turn_id : rstr) | RSteer (r : SteerResult) | RModels (ms : list ModelDef) | RThreads (ts : list ImportableSession).

Definition outcome := result reply rstr.

Definition INIT_TIMEOUT : rstr := str "60s".
Definition REQUEST_TIMEOUT : rstr := str "1800s".
Definition CONTROL_TIMEOUT : rstr := str "30s".

Definition request_frame (method : string) (id : Z) (params : json) : json :=
  mk_obj [field "method" (jstr method); field "id" (jint id); field "params" params].

(** A request takes the next id, a wrapping counter. *)
Definition request {A} (method : string) (params : json) (timeout : rstr) (k : result json rstr -> H (task St A)) : H (task St A) :=
  let! id := gets cx_next in
  modify (with_next ((id + 1) mod 2 ^ 64)%Z) ;!
  roundtrip (dec (Z.to_N id)) (request_frame method id params) timeout k.

Definition client_info (version : rstr) : json :=
  mk_obj [field "clientInfo" (mk_obj [field "name" (jstr "damon"); field "title" (jstr "Damon"); field "version" (JStr version)])].

Definition seed_mode (config : SessionConfig) : H unit :=
  match sc_mode config with
  | Some mode => match codex_mode mode with Some _ => modify (with_mode (Some mode)) | None => ret tt end
  | None => ret tt
  end.

Definition thread_started (id : rstr) : H unit :=
  modify (with_thread (Some id)) ;! emit (outside (EThreadStarted id)).

(** The handshake and the new thread of a spawned process, then [k]; an error
    shows its outermost context. *)
Definition spawn (version : rstr) (config : SessionConfig) (k : H (task St outcome)) : H (task St outcome) :=
  request "initialize" (client_info version) INIT_TIMEOUT (fun r =>
  match r with
  | Err _ => finish (Err (str "codex initialize failed"))
  | Ok _ =>
      let! sent := send (mk_obj [field "method" (jstr "initialized"); field "params" (mk_obj [])]) in
      match sent with
      | Err e => finish (Err e)
      | Ok _ =>
          let! thread := gets cx_thread in
          match thread with
          | Some _ => k
          | None =>
              seed_mode config ;!
              request "thread/start" (codex_thread_start_params config) INIT_TIMEOUT (fun r =>
              match r with
              | Err _ => finish (Err (str "codex thread/start failed"))
              | Ok v =>
                  match as_str (v.["thread"]).["id"] with
                  | None => finish (Err (str "thread/start returned no thread id"))
                  | Some tid => thread_started tid ;! k
                  end
              end)
          end
      end
  end).

Definition attach_thread (thread_id : rstr) : H (task St outcome) :=
  request "thread/resume" (mk_obj [field "threadId" (JStr thread_id)]) INIT_TIMEOUT (fun r =>
  or_fail r (fun _ => thread_started thread_id ;! finish (Ok RUnit))).

Definition model_of (m : json) : option ModelDef :=
  match or_else (as_str m.["id"]) (as_str m.["model"]) with
  | None => None
  | Some id => Some {| md_id := id; md_name := default id (or_else (as_str m.["name"]) (as_str m.["displayName"])) |}
  end.

Definition models_of (v : json) : list ModelDef :=
  default [] (omap (M:=list) model_of <$> or_else (as_array v.["data"]) (as_array v.["models"])).

Definition catalog_models (k : result (list ModelDef) rstr -> H (task St outcome)) : H (task St outcome) :=
  request "model/list" (mk_obj []) CONTROL_TIMEOUT (fun r => k (let? v := r in Ok (models_of v))).

Definition importable_of (t : json) : option ImportableSession :=
  match as_str t.["id"] with
  | None => None
  | Some id => Some {|
      im_provider := str "codex"; im_native := id; im_title := or_else (as_str t.["name"]) (as_str t.["title"]);
      im_cwd := as_str t.["cwd"]; im_modified := or_else (as_u64 t.["updatedAt"]) (as_u64 t.["updated_at"]); im_size := None |}
  end.

Definition importable_sessions (v : json) : list ImportableSession :=
  default [] (omap (M:=list) importable_of <$> or_else (as_array v.["data"]) (as_array v.["threads"])).

(** A config with nothing but its directory. *)
Definition probe_config (cwd : rstr) : SessionConfig := {|
  sc_cwd := cwd; sc_model := None; sc_mode := None; sc_mcp_servers := []; sc_granted_roots := []; sc_allowed_tools := []
|}.

Definition block_json (b : PromptBlock) : json :=
  match b with
  | PBText text => mk_obj [field "type" (jstr "text"); field "text" (JStr text)]
  | PBImage data mime => mk_obj [field "type" (jstr "image"); field "data" (JStr data); field "mimeType" (JStr mime)]
  end.

Definition prompt_input (p : PromptInput) : list json :=
  match p with PText t => [block_json (PBText t)] | PBlocks blocks => map block_json blocks end.

(** The thread, the model and the mode are read, each under its lock; other calls
    may run before the request is sent. *)
Definition start_turn (prompt : PromptInput) : H (task St outcome) :=
  let! thread := gets cx_thread in
  match thread with
  | None => finish (Err (str "no active thread"))
  | Some thread_id =>
      let! model := gets cx_model in
      let! mode := gets cx_mode in
      pause (request "turn/start" (codex_turn_params thread_id (prompt_input prompt) model mode) REQUEST_TIMEOUT (fun r =>
        or_fail r (fun v =>
          let turn_id := text_at v.["turn"] "id" in
          modify (with_turn (Some turn_id)) ;! finish (Ok (RTurn turn_id)))))
  end.

Definition steer (prompt : PromptInput) : H (task St outcome) :=
  let! thread := gets cx_thread in
  match thread, prompt with
  | None, _ => finish (Err (str "no active thread"))
  | Some _, PBlocks _ => finish (Err (str "steer supports text only"))
  | Some thread_id, PText t =>
      request "turn/steer" (mk_obj [field "threadId" (JStr thread_id); field "input" (JArr [block_json (PBText t)])])
        CONTROL_TIMEOUT (fun r => or_fail r (fun _ => finish (Ok (RSteer Accepted))))
  end.

Definition interrupt : H (task St outcome) :=
  let! thread := gets cx_thread in
  let! turn := gets cx_turn in
  match thread, turn with
  | Some tid, Some turn =>
      request "turn/interrupt" (mk_obj [field "threadId" (JStr tid); field "turnId" (JStr turn)]) CONTROL_TIMEOUT
        (fun r => or_fail r (fun _ => finish (Ok RUnit)))
  | _, _ => finish (Ok RUnit)
  end.

Definition answer_frame (rpc_id result : json) : json := mk_obj [field "id" rpc_id; field "result" result].

Definition respond_to_permission (request_id : rstr) (response : PermissionResponse) : H (task St outcome) :=
  let! asks := gets cx_asks in
  match asks !! request_id with
  | None => finish (Err (str "no pending permission " ++ request_id))
  | Some ask =>
      modify (with_asks (delete request_id asks)) ;!
      let! sent := send (answer_frame (pa_rpc ask) (codex_approval_result (pr_kind (pa_request ask)) response)) in
      match sent with
      | Err e => finish (Err e)
      | Ok _ => emit (outside (EPermissionResolved request_id)) ;! finish (Ok RUnit)
      end
  end.

Definition set_mode (mode : rstr) : H (task St outcome) :=
  match codex_mode mode with
  | None => finish (Err (str "unknown codex mode: " ++ mode))
  | Some _ =>
      modify (with_mode (Some mode)) ;! emit (outside (EModeChanged (Some mode))) ;! finish (Ok RUnit)
  end.

Definition set_model (model : rstr) : H (task St outcome) :=
  modify (with_model (Some model)) ;! emit (outside (EModelChanged model)) ;! finish (Ok RUnit).

(** What clients do with a session. *)
Inductive use :=
| StartTurn (prompt : PromptInput)
| Steer (prompt : PromptInput)
| Interrupt
| Respond (request_id : rstr) (response : PermissionResponse)
| SetMode (mode : rstr)
| SetModel (model : rstr).

Definition run_use (u : use) : H (task St outcome) :=
  match u with
  | StartTurn prompt => start_turn prompt
  | Steer prompt => steer prompt
  | Interrupt => interrupt
  | Respond id response => respond_to_permission id response
  | SetMode mode => set_mode mode
  | SetModel model => set_model model
  end.

(** What is done with a process just spawned, and then with its session. *)
Inductive call :=
| Create (config : SessionConfig)
| Resume (handle : rstr) (config : SessionConfig)
| Catalog (cwd : option rstr)
| ListThreads (cwd : rstr)
| Use (u : use).

(** [CARGO_PKG_VERSION] *)
Variable version : rstr.

Definition run_call (c : call) : H (task St outcome) :=
  match c with
  | Create config => spawn version config (finish (Ok RUnit))
  | Resume handle config => spawn version config (attach_thread handle)
  | Catalog cwd =>
      spawn version (probe_config (default (str "/") cwd))
        (catalog_models (fun ms => finish (Ok (RModels match ms with Ok ms => ms | Err _ => [] end))))
  | ListThreads cwd =>
      spawn version (probe_config cwd)
        (request "thread/list" (mk_obj []) CONTROL_TIMEOUT (fun r =>
         finish (Ok (RThreads match r with Ok v => importable_sessions v | Err _ => [] end))))
  | Use u => run_use u
  end.

Definition backend : Backend St call outcome := {| b_call := run_call; b_frame := on_frame; b_exit := on_exit |}.

Definition run (ops : list (op (call:=call))) : live St call outcome := run_live backend fresh_session ops.

(** The resume token. *)
Definition persistence_handle (s : St) : option rstr := cx_thread s.
End Session.
