(* ===== verification/CodexFacts.v ===== *)
(** * CodexFacts: what codex sessions keep, whatever the interleaving

    Relations on the log of a session that all its handlers and suspended calls
    keep: answers match requests, tool calls end as they began; and from the launch
    on, threads ask for what was configured and turns for what was chosen when they
    were called for. *)

From S2P Require Import Prelude Str Json PlanStore SessionStore Memory Turn Events Handler AgentLog Transport Requests Follow AgentCli Codex.

Open Scope session_scope.

Section Logs.
Context {call : Type}.
Notation log_entry := (entry (call:=call)).

(** ** Answers to the agent's requests *)

(** The id a frame to the agent answers: it has one and is no request. *)
Definition answer_id (f : json) : list json :=
  match get f (str "id"), get f (str "method") with Some id, None => [id] | _, _ => [] end.

(** The id under which the agent asked something. *)
Definition asked_id (f : json) : list json :=
  match get f (str "id"), get f (str "method") with Some id, Some _ => [id] | _, _ => [] end.

Definition answered : list log_entry -> list json :=
  said_of (of_effect (fun e => match e with Sent f => answer_id f | _ => [] end)).
Definition asked : list log_entry -> list json := said_of (fun x => match x with Got f => asked_id f | _ => [] end).

Definition pending_ids (s : St) : list json := held_in pa_rpc (cx_asks s).

(** In the order of [Follow.books]: answered, asked, pending. *)
Definition answers_asked : St -> list log_entry -> St -> Prop :=
  books (of_effect (fun e => match e with Sent f => answer_id f | _ => [] end)) (fun x => match x with Got f => asked_id f | _ => [] end) pending_ids.

#[export] Instance answers_asked_traced : Traced answers_asked.
Proof. apply books_traced. Qed.

(** Effects that answer nothing and leave the asks alone. *)
Lemma unanswered s es s' : answered (map Did es) = [] -> cx_asks s' = cx_asks s -> answers_asked s (map Did es) s'.
Proof. intros He E. apply books_same; [done|]. unfold pending_ids. by rewrite E. Qed.

Lemma ids_insert uuid ask s :
  pending_ids (with_asks (<[uuid := ask]> (cx_asks s)) s) ⊆+ pa_rpc ask :: pending_ids s.
Proof. apply held_insert. Qed.

Lemma ids_delete k ask s : cx_asks s !! k = Some ask ->
  pa_rpc ask :: pending_ids (with_asks (delete k (cx_asks s)) s) ≡ₚ pending_ids s.
Proof. apply held_delete. Qed.

Lemma pending_fewer k s : pending_ids (with_asks (delete k (cx_asks s)) s) ⊆+ pending_ids s.
Proof. apply held_fewer. Qed.

End Logs.

Section Follow.
Context {call : Type}.
Notation log_entry := (entry (call:=call)).
Context `{JT : JsonText} (R : St -> list log_entry -> St -> Prop) {X} (obs : St -> X) (ok : effect -> Prop) `{HF : !Follows R obs ok}.

Lemma follow_emit_here k : (forall t, ok (Emitted {| ev_turn := t; ev_kind := k |})) -> obeys (did R) (emit_here k).
Proof using HF. intros Hok. unfold emit_here. apply obeys_bind; [apply obeys_gets|]. intros t. by eapply follow_log. Qed.

Lemma follow_request {A} method params timeout (k : result json rstr -> H (task St A)) :
  (forall id s, obs (with_next id s) = obs s) ->
  (forall id, ok (Sent (request_frame method id params))) -> (forall r, tasked (did R) (k r)) ->
  tasked (did R) (request method params timeout k).
Proof using HF.
  intros Hn Hok Hk. unfold request. apply tasked_bind; [apply obeys_gets|]. intros id.
  apply tasked_bind; [eapply follow_modify; [apply _|]; intros; apply Hn|]. intros _. by eapply follow_round.
Qed.

End Follow.

(** A codex session's own steps. *)
Ltac codex_step := idtac; match goal with
  | |- tasked _ (request _ _ _ _) => eapply follow_request; [apply _|by intros|by intros|intros ?]
  | |- obeys _ (emit_timeline _) => eapply follow_emit_here; [apply _|by intros]
  | |- obeys _ (emit_here _) => eapply follow_emit_here; [apply _|by intros]
  | |- obeys _ (emit _) => eapply follow_log; [apply _|done]
  end.

Ltac follow := follow_with codex_step.

(** *** Answers *)

Section Answers.
Context {call : Type}.
Notation log_entry := (entry (call:=call)).
Notation answers_asked := (answers_asked (call:=call)).

Definition no_answer (e : effect) : Prop := match e with Sent f => answer_id f = [] | _ => True end.

#[export] Instance answers_follow : Follows answers_asked cx_asks no_answer.
Proof.
  split; [apply _| |intros [ev|f|id r] s He|done].
  - intros s s' E. by apply (unanswered s [] s').
  - by apply (unanswered s [Emitted ev] s).
  - apply (unanswered s [Sent f] s); [|done]. cbn in *. by rewrite He.
  - by apply (unanswered s [Resolved id r] s).
Qed.

Context `{JT : JsonText}.
Variable hash_order : gmap rstr PendingAsk -> list (rstr * PendingAsk).
Variable version : rstr.

(** More may have been asked. *)
Lemma asked_weaken x s es s' : match x with Did _ => False | _ => True end ->
  answers_asked s (map Did es) s' -> answers_asked s (x :: map Did es) s'.
Proof.
  intros Hx Hd. destruct x as [c|f|e|]; [exact Hd| |done|exact Hd].
  change (answered (call:=call) (map Did es) ++ pending_ids s' ⊆+ (asked_id f ++ asked (call:=call) (map Did es)) ++ pending_ids s).
  etransitivity; [exact Hd|]. rewrite <-app_assoc. by apply submseteq_inserts_l.
Qed.

Lemma spawn_answers config k : tasked (did answers_asked) k -> tasked (did answers_asked) (spawn version config k).
Proof. intros Hk. unfold spawn, seed_mode, thread_started. follow. all: exact Hk. Qed.

Lemma respond_asked id r : tasked (did answers_asked) (respond_to_permission id r).
Proof.
  unfold respond_to_permission. intros s. unfold gets, bind, send, modify, emit, finish, ret, log.
  destruct (cx_asks s !! id) as [ask|] eqn:E; [|split; [apply traced_refl|done]].
  cbn [conn St_connected with_asks cx_conn]. destruct (cn_open (cx_conn s)); (split; [|done]); unfold did, answers_asked, books.
  - change ([pa_rpc ask] ++ pending_ids (with_asks (delete id (cx_asks s)) s) ⊆+ pending_ids s). by rewrite <-(ids_delete _ _ _ E).
  - apply (pending_fewer id s).
Qed.

Lemma call_answers c : tasked (did answers_asked) (run_call version c).
Proof.
  destruct c as [config|handle config|cwd|cwd|u]; cbn [run_call]; try apply spawn_answers;
    unfold attach_thread, catalog_models, thread_started; follow.
  destruct u; cbn [run_use]; try apply respond_asked; unfold start_turn, steer, interrupt, set_mode, set_model; follow.
Qed.

Lemma resolved_answers params : obeys (did answers_asked) (on_request_resolved hash_order params).
Proof.
  intros s. unfold on_request_resolved, bind, gets, modify, ret. destruct (as_str _); [|apply traced_refl].
  destruct (find_first _ _) as [[k a]|]; [apply (pending_fewer k s)|apply traced_refl].
Qed.

Lemma frame_answers uuid f s :
  match on_frame hash_order uuid f s with (s', es, _) => answers_asked s (Got f :: map Did es) s' end.
Proof.
  unfold on_frame. destruct (get f (str "id")) as [id|] eqn:Ei; [destruct (get f (str "method")) as [m|] eqn:Em|].
  - unfold on_server_request. destruct (request_ask _ _ _) as [ask|].
    + unfold emit_here, emit, bind, gets, modify, log.
      unfold answers_asked, books, said_of. cbn [flat_map map of_effect app]. unfold asked_id. rewrite Ei, Em. unfold idx. rewrite Ei.
      apply (ids_insert uuid {| pa_request := ask; pa_rpc := id |}).
    + unfold send, bind, ret. destruct (cn_open (conn s)); unfold answers_asked, books, said_of; cbn; unfold asked_id;
        rewrite Ei, Em; cbn.
      * unfold idx. rewrite Ei. done.
      * by apply submseteq_cons.
  - assert (obeys (did answers_asked) (on_response id f)) as Hr by (unfold on_response; follow).
    specialize (Hr s). destruct (on_response id f s) as [[s' es] u]. by apply asked_weaken.
  - assert (obeys (did answers_asked) (on_notification hash_order (text_at f "method") f.["params"])) as Hr.
    { unfold on_notification, on_turn_completed, on_item_started, on_item_completed, on_delta. follow.
      apply resolved_answers. }
    specialize (Hr s). destruct (on_notification _ _ _ s) as [[s' es] u]. by apply asked_weaken.
Qed.

End Answers.

#[export] Instance answers_kept `{JsonText} hash_order version : Keeps (backend hash_order version) (answers_asked (call:=call)).
Proof.
  split; [apply _|intros c s; by apply (unanswered s [])| | |].
  - intros c s. pose proof (call_answers (call:=call) version c s) as Hc. cbn [b_call backend]. destruct (run_call version c s) as [[s' es] t].
    destruct Hc as [Hr Hs]. split; [by apply asked_weaken|done].
  - apply frame_answers.
  - intros s. assert (obeys (did (answers_asked (call:=call))) on_exit) as He by (unfold on_exit; follow). specialize (He s).
    cbn [b_exit backend]. destruct (on_exit s) as [[s' es] u]. by apply asked_weaken.
Qed.


(** ** Tool calls *)

Section Tools.
Context {call : Type}.
Notation log_entry := (entry (call:=call)).

(** The state of the call [x] an entry shows. *)
Definition tool_shown (x : rstr) (e : log_entry) : option ToolCall :=
  match e with
  | Did (Emitted {| ev_kind := ETimeline (TToolCall c) |}) => if bool_decide (tc_call_id c = x) then Some c else None
  | _ => None
  end.

(** What a call keeps to its end: all but the output and the exit code of a
    command. *)
Definition detail_kept (d0 d : ToolCallDetail) : Prop :=
  match d0, d with Shell command _ _, Shell command' _ _ => command' = command | _, _ => d = d0 end.

Definition ends_as (c0 c : ToolCall) : Prop :=
  tc_name c = tc_name c0 /\ tc_status c <> ToolRunning /\ detail_kept (tc_detail c0) (tc_detail c).

(** The story of one call: it is shown running, then perhaps once as ended, then
    perhaps running again; [o] is the running call before, if any. *)
Inductive tool_story (x : rstr) : option ToolCall -> list log_entry -> option ToolCall -> Prop :=
| story_over o : tool_story x o [] o
| story_aside o e es o' : tool_shown x e = None -> tool_story x o es o' -> tool_story x o (e :: es) o'
| story_begins o c e es o' :
    tool_shown x e = Some c -> tc_status c = ToolRunning -> tool_story x (Some c) es o' -> tool_story x o (e :: es) o'
| story_ends c0 c e es o' :
    tool_shown x e = Some c -> ends_as c0 c -> tool_story x None es o' -> tool_story x (Some c0) (e :: es) o'.

Lemma story_app x o1 es1 o2 es2 o3 : tool_story x o1 es1 o2 -> tool_story x o2 es2 o3 -> tool_story x o1 (es1 ++ es2) o3.
Proof.
  induction 1; intros Hs; cbn; [done|apply story_aside|eapply story_begins|eapply story_ends]; eauto.
Qed.

Definition items_keyed (s : St) : Prop := forall x c, cx_items s !! x = Some c -> tc_call_id c = x.

Definition tools_told (s : St) (es : list log_entry) (s' : St) : Prop :=
  items_keyed s -> items_keyed s' /\ forall x, tool_story x (cx_items s !! x) es (cx_items s' !! x).

#[export] Instance tools_traced : Traced tools_told.
Proof.
  split; [intros s Hk; split; [done|constructor]|]. intros s1 es1 s2 es2 s3 H1 H2 Hk.
  destruct (H1 Hk) as [Hk2 Hs1]. destruct (H2 Hk2) as [Hk3 Hs2]. split; [done|]. intros x. by eapply story_app.
Qed.

Definition no_tool (e : effect) : Prop :=
  match e with Emitted {| ev_kind := ETimeline (TToolCall _) |} => False | _ => True end.

#[export] Instance tools_follow : Follows tools_told cx_items no_tool.
Proof.
  split; [apply _| | |done].
  - intros s s' E Hk. unfold items_keyed. rewrite E. split; [done|constructor].
  - intros e s He Hk. split; [done|]. intros x. apply story_aside; [|constructor].
    destruct e as [[t k]| |]; try done. by destruct k as [| | | | | | |[]| | | |].
Qed.

(** What is not an effect shows no call. *)
Lemma tools_weaken y s es s' : match y with Did _ => False | _ => True end -> tools_told s es s' -> tools_told s (y :: es) s'.
Proof. intros Hy Ht Hk. destruct (Ht Hk) as [Hk' Hs]. split; [done|]. intros x. apply story_aside; [by destruct y|apply Hs]. Qed.

Lemma item_call_running item c : item_call item = Some c -> tc_status c = ToolRunning.
Proof. unfold item_call. cbv zeta. intros E. by repeat case_match; simplify_eq. Qed.

(** A call that begins takes the place of one that runs under its id. *)
Lemma started_tools params : obeys (did tools_told) (on_item_started params).
Proof.
  intros s. unfold on_item_started, emit_timeline, emit_here, emit, bind, modify, gets, log, ret.
  destruct (item_call params.["item"]) as [c|] eqn:E; [|apply traced_refl]. intros Hk. cbn. split.
  - intros x c' Hx. cbn in Hx. apply lookup_insert_Some in Hx as [[<- <-]|[_ Hx]]; [done|by apply Hk].
  - intros x. destruct (decide (tc_call_id c = x)) as [<-|Hne].
    + rewrite lookup_insert_eq. eapply story_begins; [|by eapply item_call_running|constructor]. cbn.
      by rewrite bool_decide_true.
    + rewrite lookup_insert_ne by done. apply story_aside; [|constructor]. cbn. by rewrite bool_decide_false.
Qed.

Lemma finish_ends item c : ends_as c (finish_call item c).
Proof. unfold ends_as, finish_call. cbn. split; [done|]. split; [by case_match|]. by destruct (tc_detail c). Qed.

Lemma completed_tools params : obeys (did tools_told) (on_item_completed params).
Proof.
  unfold on_item_completed. cbv zeta. do 4 (apply obeys_if; [follow|]). intros s.
  unfold emit_timeline, emit_here, emit, bind, modify, gets, log, ret. set (id := text_at _ "id").
  destruct (cx_items s !! id) as [c|] eqn:E; [|apply traced_refl]. intros Hk. cbn. split.
  - intros x c' Hx. cbn in Hx. apply lookup_delete_Some in Hx as [_ Hx]. by apply Hk.
  - pose proof (Hk _ _ E) as Hid. intros x. destruct (decide (id = x)) as [<-|Hne].
    + rewrite lookup_delete_eq, E. eapply story_ends; [|apply (finish_ends params.["item"])|constructor]. cbn.
      by rewrite bool_decide_true.
    + rewrite lookup_delete_ne by done. apply story_aside; [|constructor]. cbn. rewrite bool_decide_false; [done|]. congruence.
Qed.

Context `{JT : JsonText}.
Variable hash_order : gmap rstr PendingAsk -> list (rstr * PendingAsk).
Variable version : rstr.

Lemma call_tools c : tasked (did tools_told) (run_call version c).
Proof.
  destruct c as [config|handle config|cwd|cwd|u]; cbn [run_call];
    [..|destruct u; cbn [run_use]]; unfold spawn, seed_mode, attach_thread, catalog_models, thread_started, start_turn, steer,
    interrupt, respond_to_permission, set_mode, set_model; follow.
Qed.

Lemma frame_tools uuid f : obeys (did tools_told) (on_frame hash_order uuid f).
Proof.
  unfold on_frame, on_response, on_server_request, on_notification, on_turn_completed, on_delta, on_request_resolved. follow;
    [|apply started_tools|apply completed_tools].
  apply (follow_log tools_told cx_items no_tool). cbn. unfold completed_kind. by repeat case_match.
Qed.
End Tools.

#[export] Instance tools_kept `{JsonText} hash_order version : Keeps (backend hash_order version) (tools_told (call:=call)).
Proof.
  split; [apply _|intros c s; by apply (follows_obs (obs:=cx_items) (ok:=no_tool))| | |].
  - intros c s. pose proof (call_tools (call:=call) version c s) as Hc. cbn [b_call backend].
    destruct (run_call version c s) as [[s' es] t]. destruct Hc as [Hr Hs]. split; [by apply tools_weaken|done].
  - intros uuid f s. pose proof (frame_tools (call:=call) hash_order uuid f s) as Hf. cbn [b_frame backend].
    destruct (on_frame _ _ _ s) as [[s' es] u]. by apply tools_weaken.
  - intros s. assert (obeys (did (tools_told (call:=call))) on_exit) as He by (unfold on_exit; follow). specialize (He s).
    cbn [b_exit backend]. destruct (on_exit s) as [[s' es] u]. by apply tools_weaken.
Qed.

(** ** Modes and models of turns *)

Notation call_entry := (entry (call:=call)).

(** What each mode stands for: the approval policy, the sandbox of [thread/start],
    the sandbox policy of [turn/start]. *)
Definition mode_terms (mode : rstr) : option (rstr * rstr * rstr) :=
  snd <$> find_first (fun row => str_eqb mode row.1) [
    (str "default", (str "on-request", str "workspace-write", str "workspaceWrite"));
    (str "read-only", (str "on-request", str "read-only", str "readOnly"));
    (str "full-access", (str "never", str "danger-full-access", str "dangerFullAccess"))].

(** The mode and the model. *)
Definition choice : Type := option rstr * option rstr.

Definition known (mode : option rstr) : option rstr :=
  match mode ≫= mode_terms with Some _ => mode | None => None end.

(** A session begins in the configured mode, when it is known, and with no model. *)
Definition configured (config : SessionConfig) : choice := (known (sc_mode config), None).

Definition chosen_after (o : choice) (e : call_entry) : choice :=
  match e with
  | Called (Use (SetMode m)) => (match mode_terms m with Some _ => Some m | None => o.1 end, o.2)
  | Called (Use (SetModel m)) => (o.1, Some m)
  | _ => o
  end.

(** What clients chose last. *)
Definition chosen (o : choice) (es : list call_entry) : choice := fold_left chosen_after es o.

(** What a frame of a method asks for: the approval policy, the sandbox, the model. *)
Definition terms : Type := option rstr * option rstr * option rstr.

Definition turn_terms (f : json) : option terms :=
  if str_eqb (text_at f "method") (str "turn/start") then
    let params := f.["params"] in
    Some (as_str params.["approvalPolicy"], as_str (params.["sandboxPolicy"]).["type"], as_str params.["model"])
  else None.

Definition thread_terms (f : json) : option terms :=
  if str_eqb (text_at f "method") (str "thread/start") then
    let params := f.["params"] in Some (as_str params.["approvalPolicy"], as_str params.["sandbox"], as_str params.["model"])
  else None.

(** What they should ask for. *)
Definition turn_wants (o : choice) : terms :=
  match o.1 ≫= mode_terms with
  | Some (approval, _, policy) => (Some approval, Some policy, o.2)
  | None => (None, None, o.2)
  end.

Definition thread_wants (config : SessionConfig) : terms :=
  match sc_mode config ≫= mode_terms with
  | Some (approval, sandbox, _) => (Some approval, Some sandbox, sc_model config)
  | None => (None, None, sc_model config)
  end.

Section Wants.
Variable config : SessionConfig.

(** A turn asks for what was chosen when it was called for, some time before its
    frame; a thread for what was configured. *)
Definition wanted (before : list call_entry) (f : json) : Prop :=
  (forall t, turn_terms f = Some t -> exists l1 prompt l2,
     before = l1 ++ Called (Use (StartTurn prompt)) :: l2 /\ (f.["params"]).["input"] = JArr (prompt_input prompt) /\
     t = turn_wants (chosen (configured config) l1)) /\
  (forall t, thread_terms f = Some t -> t = thread_wants config).

Definition all_wanted (L : list call_entry) : Prop := forall before f after, L = before ++ Did (Sent f) :: after -> wanted before f.

Lemma wanted_app L es :
  all_wanted L -> (forall pre f post, es = pre ++ Did (Sent f) :: post -> wanted (L ++ pre) f) -> all_wanted (L ++ es).
Proof.
  intros HL Hes before f after E. apply app_eq_app in E as [l [[-> E]|[-> E]]].
  - destruct l as [|x l]; cbn in E; [|injection E as <- _; by eapply HL].
    specialize (Hes [] f after (eq_sym E)). by rewrite !app_nil_r in Hes.
  - by eapply Hes.
Qed.

Definition no_terms (e : effect) : Prop := match e with Sent f => turn_terms f = None /\ thread_terms f = None | _ => True end.

Definition calm_entry (x : call_entry) : Prop :=
  match x with Did e => no_terms e | Called (Use (SetMode _)) | Called (Use (SetModel _)) => False | _ => True end.

Lemma wanted_unsent L es : Forall (fun x => match x with Did (Sent _) => False | _ => True end) es -> all_wanted L -> all_wanted (L ++ es).
Proof.
  intros Hes HL. apply wanted_app; [done|]. intros pre f post ->. by apply Forall_app in Hes as [_ []%Forall_cons].
Qed.

Lemma wanted_calm L es : Forall calm_entry es -> all_wanted L -> all_wanted (L ++ es).
Proof.
  intros Hes HL. apply wanted_app; [done|]. intros pre f post ->.
  apply Forall_app in Hes as [_ Hes]. apply Forall_cons in Hes as [[Ht Hth] _]. split; intros t; [by rewrite Ht|by rewrite Hth].
Qed.

Lemma chosen_app o es es' : chosen o (es ++ es') = chosen (chosen o es) es'.
Proof. apply fold_left_app. Qed.

Lemma chosen_calm o es : Forall calm_entry es -> chosen o es = o.
Proof.
  induction 1 as [|x es Hx _ IH]; [done|]. change (chosen (chosen_after o x) es = o).
  replace (chosen_after o x) with o; [done|]. destruct x as [[| | | |[]]| | |]; done.
Qed.

(** ** Steps that choose nothing and ask for nothing *)

Definition choices (s : St) : option rstr * option rstr * option rstr := (cx_mode s, cx_model s, cx_thread s).

Definition calm (s : St) (es : list call_entry) (s' : St) : Prop := choices s' = choices s /\ Forall calm_entry es.

#[export] Instance calm_traced : Traced calm.
Proof.
  split; [by split|]. intros s1 es1 s2 es2 s3 [H1 F1] [H2 F2]. split; [by rewrite H2|]. by apply Forall_app.
Qed.

#[export] Instance calm_follows : Follows calm choices no_terms.
Proof.
  split; [apply _|by split| |done]. intros e s He. split; [done|]. by repeat constructor.
Qed.

Context `{JT : JsonText}.

Lemma calm_use u : match u with StartTurn _ | SetMode _ | SetModel _ => False | _ => True end -> tasked (did calm) (run_use u).
Proof.
  destruct u; intros Hu; try done; cbn [run_use]; unfold steer, interrupt, respond_to_permission; follow.
Qed.

Lemma calm_on_frame hash_order uuid f : obeys (did calm) (on_frame hash_order uuid f).
Proof.
  unfold on_frame, on_response, on_server_request, on_notification, on_turn_completed, on_delta, on_request_resolved,
    on_item_started, on_item_completed. follow.
Qed.

Lemma calm_on_exit : obeys (did calm) on_exit.
Proof. unfold on_exit. follow. Qed.

(** ** The launch *)

Definition begins_thread (x : call_entry) : Prop := match x with Did (Sent f) => is_Some (thread_terms f) | _ => False end.

Definition begun (L : list call_entry) : Prop := exists x, x ∈ L /\ begins_thread x.

Lemma begun_more L es : begun L -> begun (L ++ es).
Proof. intros (x & Hx & Hb). exists x. split; [|done]. apply elem_of_app. by left. Qed.

(** Before the session is handed to its clients: no model, the configured mode
    once a thread was asked for, a thread only after it was asked for. *)
Record launching (L : list call_entry) (s : St) : Prop := {
  la_log : all_wanted L;
  la_chosen : chosen (configured config) L = configured config;
  la_model : cx_model s = None;
  la_mode : cx_mode s = None \/ cx_mode s = known (sc_mode config);
  la_begun : begun L -> cx_mode s = known (sc_mode config);
  la_thread : cx_thread s <> None -> begun L
}.

Definition launched (L : list call_entry) (r : result reply rstr) : Prop := r = Ok RUnit -> begun L.
Lemma launching_calm L s es s' : launching L s -> calm s es s' -> launching (L ++ es) s'.
Proof.
  intros [] [[= Hm Hmod Ht] He]. split.
  - by apply wanted_calm.
  - by rewrite chosen_app, la_chosen0, chosen_calm.
  - congruence.
  - by rewrite Hm.
  - intros (x & [Hx|Hx]%elem_of_app & Hb).
    + rewrite Hm. apply la_begun0. by exists x.
    + rewrite Forall_forall in He. specialize (He x Hx). destruct x as [c|f|[|f|]|]; try done. destruct He as [_ He], Hb as [t Hb]. congruence.
  - intros H. apply begun_more, la_thread0. congruence.
Qed.

Lemma launching_conn L c s : launching L s -> launching L (set_conn c s).
Proof. intros H. rewrite <-(app_nil_r L). by apply (launching_calm L s). Qed.

Lemma same_modes m : mode_terms m = (fun t => (str t.1.1, str t.1.2, str t.2)) <$> codex_mode m.
Proof.
  unfold codex_mode, mode_terms, find_first. cbn [List.filter fst].
  destruct (str_eqb m (str "default")); [done|]. destruct (str_eqb m (str "read-only")); [done|]. by destruct (str_eqb m (str "full-access")).
Qed.

(** The thread is asked for as configured. *)
Lemma thread_wanted id : thread_terms (request_frame "thread/start" id (codex_thread_start_params config)) = Some (thread_wants config).
Proof.
  unfold thread_terms, thread_wants. change (str_eqb (text_at (request_frame _ _ _) "method") (str "thread/start")) with true. cbn iota.
  change ((request_frame "thread/start" id ?p).["params"]) with p. unfold codex_thread_start_params.
  destruct (sc_mode config) as [m|]; cbn [mbind option_bind]; [|by destruct (sc_model config), (codex_mcp_config _)].
  rewrite same_modes. destruct (codex_mode m) as [[[approval sandbox] policy]|]; by destruct (sc_model config), (codex_mcp_config _).
Qed.

Lemma known_seeded s : cx_mode s = None \/ cx_mode s = known (sc_mode config) ->
  let '(s', es, _) := seed_mode config s in
  es = [] /\ cx_mode s' = known (sc_mode config) /\ cx_model s' = cx_model s /\ cx_thread s' = cx_thread s.
Proof.
  intros Hs. unfold seed_mode, known in *. destruct (sc_mode config) as [m|]; cbn [mbind option_bind] in *; [|cbn; by destruct Hs].
  rewrite same_modes in *. destruct (codex_mode m) as [t|]; cbn in *; [done|]. by destruct Hs.
Qed.

Notation launching_task := (bounded launching launched).

Variable version : rstr.

#[local] Instance launching_holds hash_order : Holds (backend hash_order version) launching launched (fun _ => False).
Proof.
  split; [intros L es a H Ha; by apply begun_more, H|intros L c s; apply launching_conn|done| |].
  - intros L uuid f s HJ. pose proof (calm_on_frame hash_order uuid f s) as Hf. cbn [b_frame backend].
    destruct (on_frame _ _ _ s) as [[s' es] u]. destruct Hf as [Hc Hf]. apply (launching_calm L s); [done|]. split; [done|]. by constructor.
  - intros L s HJ. pose proof (calm_on_exit s) as Hf. cbn [b_exit backend].
    destruct (on_exit s) as [[s' es] u]. destruct Hf as [Hc Hf]. apply (launching_calm L s); [done|]. split; [done|]. by constructor.
Qed.

(** A calm step, then the rest. *)
Lemma launching_bind {A} L (m : H A) k : obeys (did calm) m -> (forall es x, launching_task (L ++ es) (k x)) -> launching_task L (bind m k).
Proof.
  intros Hm Hk. apply bounded_bind. intros es s HJ. specialize (Hm s). destruct (m s) as [[s1 new] x].
  split; [by apply (launching_calm _ s)|]. rewrite <-app_assoc. apply Hk.
Qed.

Lemma launching_round L id frame timeout k : no_terms (Sent frame) ->
  (forall es r, launching_task (L ++ es) (k r)) -> launching_task L (roundtrip id frame timeout k).
Proof.
  intros Hf Hk. apply (bounded_round (backend (fun _ => []) version) _ _ (fun _ => False)).
  - intros es s HJ. apply (launching_calm _ s); [done|]. split; [done|]. by apply Forall_singleton.
  - intros es r. rewrite <-app_assoc. apply Hk.
  - specialize (Hk [] (Err pipe_error)). by rewrite app_nil_r in Hk.
Qed.

Lemma launching_fails L e : launching_task L (finish (Err e)).
Proof. by apply bounded_finish. Qed.

Lemma launching_done L r : begun L -> launching_task L (finish r).
Proof. intros Hb. apply bounded_finish. intros es s _ _. by apply begun_more. Qed.

(** Once a thread was asked for, it may be there. *)
Lemma launching_started L id k : begun L -> (forall es, launching_task (L ++ es) k) -> launching_task L (thread_started id ;! k).
Proof.
  intros Hb Hk. apply bounded_bind. intros es s [].
  assert (Hb' : begun ((L ++ es) ++ map Did [Emitted (outside (EThreadStarted id))])) by (by apply begun_more, begun_more).
  cbn. split; [|rewrite <-app_assoc; apply Hk]. split; cbn; try done.
  - apply wanted_calm; [by repeat constructor|done].
  - rewrite chosen_app, la_chosen0. by apply chosen_calm; repeat constructor.
  - intros _. apply la_begun0. by apply begun_more.
Qed.

(** Asking for the thread, in the configured mode. *)
Lemma launching_thread L k : (forall es r, begun (L ++ es) -> launching_task (L ++ es) (k r)) -> (forall e, launching_task L (k (Err e))) ->
  launching_task L (seed_mode config ;! request "thread/start" (codex_thread_start_params config) INIT_TIMEOUT k).
Proof.
  intros Hk He es s HJ. unfold bind at 1. pose proof (known_seeded s (la_mode _ _ HJ)) as Hs.
  destruct (seed_mode config s) as [[s1 es1] u]. destruct Hs as (-> & Hm & Hmod & Ht). cbn [app].
  assert (HJ1 : launching (L ++ es) s1).
  { destruct HJ. split; try done; [congruence|by right|by rewrite Ht]. }
  clear s HJ Hmod Ht. unfold request, bind, gets, modify, roundtrip, round. cbn [app].
  set (s2 := with_next _ s1). assert (HJ2 : launching (L ++ es) s2) by (rewrite <-(app_nil_r (L ++ es)); by apply (launching_calm _ s1)).
  change (cx_mode s2 = known (sc_mode config)) in Hm. clearbody s2. destruct (begin_request _ _ _) as [w [rx|e]] eqn:E.
  - cbn [fst snd app map]. set (f := request_frame _ _ _). set (s3 := set_conn _ s2).
    assert (Hb : begun ((L ++ es) ++ [Did (Sent f)])).
    { exists (Did (Sent f)). split; [apply elem_of_app; right; by apply list_elem_of_singleton|]. cbn. subst f. rewrite thread_wanted. by eexists. }
    split.
    + destruct HJ2. split; cbn; try done.
      * apply wanted_app; [done|]. intros pre g post E'. destruct pre as [|x [|y pre]]; [|done|done]. injection E' as <-.
        split; [done|]. intros t. subst f. rewrite thread_wanted. by intros [= <-].
      * by rewrite chosen_app, la_chosen0.
    + intros r. rewrite <-app_assoc in Hb. pose proof (Hk _ (read_wait INIT_TIMEOUT r) Hb) as Hr. rewrite app_assoc in Hr. exact Hr.
  - pose proof (He e es _ (launching_conn _ (with_wires w (conn s2)) _ HJ2)) as H. cbn [fst snd]. by destruct (k _ _) as [[s' new] t].
Qed.

Lemma spawn_launches L k : (forall es, begun (L ++ es) -> launching_task (L ++ es) k) -> launching_task L (spawn version config k).
Proof.
  intros Hk. unfold spawn, request at 1. apply launching_bind; [follow|]. intros es next. apply launching_bind; [follow|].
  intros es1 _. apply launching_round; [done|]. intros es2 [v|e]; [|apply launching_fails].
  apply launching_bind; [follow|]. intros es3 [_|e]; [|apply launching_fails].
  rewrite <-!app_assoc. set (es0 := es ++ _). clearbody es0.
  apply bounded_bind. intros es' s HJ. cbn. rewrite app_nil_r. split; [done|]. destruct (cx_thread s) as [th|] eqn:Eth.
  - rewrite <-app_assoc in HJ |- *. apply Hk, (la_thread _ _ HJ). by rewrite Eth.
  - apply launching_thread; [|intros e; apply launching_fails]. intros es4 [th|e] Hb; [|apply launching_fails].
    destruct (as_str _) as [tid|]; [|apply launching_fails]. apply launching_started; [done|].
    intros es5. pose proof (begun_more _ es5 Hb) as Hb'. rewrite <-!app_assoc in *. by apply Hk.
Qed.

Lemma attach_launches L handle : begun L -> launching_task L (attach_thread handle).
Proof.
  intros Hb. unfold attach_thread, request. apply launching_bind; [follow|]. intros es next. apply launching_bind; [follow|].
  intros es1 _. apply launching_round; [done|]. intros es2 [v|e]; [|apply launching_fails].
  apply launching_started; [by do 3 apply begun_more|]. intros es3. apply launching_done. by do 4 apply begun_more.
Qed.

(** The calls that make a session. *)
Definition launches (c : call) : Prop := c = Create config \/ exists handle, c = Resume handle config.

Lemma call_launches L c : launches c -> launching_task L (run_call version c).
Proof.
  intros [->|[handle ->]]; cbn [run_call]; apply spawn_launches; intros es Hb; [by apply launching_done|by apply attach_launches].
Qed.

(** A session once its launch is done. *)
Definition is_call (o : op (call:=call)) : bool := match o with Call _ => true | _ => false end.

Lemma launch_holds hash_order c opening : launches c -> Forall (fun o => is_call o = false) opening ->
  holding launching launched (run hash_order version (Call c :: opening)).
Proof.
  intros Hc Ho. set (b := backend hash_order version). set (ok := fun _ : call => False).
  change (run hash_order version (Call c :: opening)) with (fold_left (live_step b) opening (run hash_order version [Call c])).
  apply (held b launching launched ok).
  { eapply Forall_impl; [exact Ho|]. by intros [| | | | | |]. }
  unfold run, run_live. cbn [fold_left live_step].
  apply (run_task_holding b launching launched ok); cbn [lv_log lv_state app]; [|intros n t H; cbn in H; by rewrite lookup_empty in H].
  apply (bounded_now launching launched [Called c]); [by apply call_launches|].
  assert (Hno : forall x, x ∈ [Called c] -> ~ begins_thread x) by (by intros x ->%list_elem_of_singleton []).
  split; cbn; try done.
  - intros before f after E. destruct before as [|x [|y before]]; done.
  - by destruct Hc as [->|[handle ->]].
  - by left.
  - intros (x & Hx & Hb). by destruct (Hno x Hx).
Qed.
(** ** The session in its clients' hands *)

Definition serving (L : list call_entry) (s : St) : Prop :=
  (cx_mode s, cx_model s) = chosen (configured config) L /\ all_wanted L.

Definition anything (L : list call_entry) (r : result reply rstr) : Prop := True.

Definition is_use (c : call) : Prop := match c with Use _ => True | _ => False end.

Lemma serving_calm L s es s' : serving L s -> calm s es s' -> serving (L ++ es) s'.
Proof.
  intros [Hc HL] [[= Hm Hmod _] He]. split; [|by apply wanted_calm]. by rewrite Hm, Hmod, chosen_app, chosen_calm.
Qed.

Lemma serving_steady t L : steady (did calm) t -> bound serving anything L t.
Proof. apply steady_bound; [|done]. intros L' s es s' HJ. by apply serving_calm. Qed.

Lemma serving_calm_call L m : tasked (did calm) m -> bounded serving anything L m.
Proof.
  intros Hm es s HJ. specialize (Hm s). destruct (m s) as [[s' new] t]. destruct Hm as [Hc Ht].
  split; [by apply (serving_calm _ s)|by apply serving_steady].
Qed.

(** The parameters of a turn ask for what the mode and the model stand for. *)
Lemma turn_wanted id thread input model mode :
  turn_terms (request_frame "turn/start" id (codex_turn_params thread input model mode)) = Some (turn_wants (mode, model)).
Proof.
  unfold turn_terms, turn_wants. change (str_eqb (text_at (request_frame _ _ _) "method") (str "turn/start")) with true. cbn iota.
  change ((request_frame "turn/start" id ?p).["params"]) with p. unfold codex_turn_params. cbn [fst snd].
  destruct mode as [m|]; cbn [mbind option_bind]; [|by destruct model].
  rewrite same_modes. destruct (codex_mode m) as [[[approval sandbox] policy]|]; by destruct model.
Qed.

(** A turn asks for what was chosen when it was called for. *)
Lemma start_serves L prompt s : serving L s ->
  match start_turn prompt s with (s', new, t) =>
    serving ((L ++ [Called (Use (StartTurn prompt))]) ++ map Did new) s' /\
    bound serving anything ((L ++ [Called (Use (StartTurn prompt))]) ++ map Did new) t end.
Proof.
  intros HL. assert (HL1 : serving (L ++ [Called (Use (StartTurn prompt))]) s).
  { apply (serving_calm _ s); [done|]. split; [done|]. by apply Forall_singleton. }
  unfold start_turn. set (after := fun r => or_fail _ _).
  assert (Hafter : forall r, tasked (did calm) (after r)) by (intros r; subst after; cbn beta; follow). clearbody after.
  unfold bind, gets, pause, finish, ret. destruct (cx_thread s) as [thread|]; cbn [map app bound]; rewrite app_nil_r; [|done].
  split; [done|]. destruct HL as [Hm _]. intros es s' HJ. unfold request, bind, gets, modify, roundtrip, round. cbn [app]. set (s2 := with_next _ s').
  assert (HJ2 : serving ((L ++ [Called (Use (StartTurn prompt))]) ++ es) s2) by (destruct HJ; by split). clearbody s2.
  destruct (begin_request _ _ _) as [w [rx|e]]; cbn [fst snd app].
  - set (s3 := set_conn _ s2). split; [|intros r; by apply serving_calm_call]. destruct HJ2 as [Hc HL]. split.
    + by rewrite chosen_app.
    + apply wanted_app; [done|]. intros pre g post E. destruct pre as [|x [|y pre]]; [|done|done]. injection E as <- _.
      rewrite app_nil_r, <-app_assoc. split; [|done]. rewrite turn_wanted. intros t [= <-]. exists L, prompt, es.
      split; [done|]. split; [done|]. by rewrite Hm.
  - set (s3 := set_conn _ s2). assert (HJ3 : serving ((L ++ [Called (Use (StartTurn prompt))]) ++ es) s3) by (by destruct HJ2; split).
    pose proof (bounded_now serving anything _ _ s3 (serving_calm_call _ _ (Hafter (Err e))) HJ3) as H.
    destruct (after (Err e) s3) as [[s4 new] t]. exact H.
Qed.

#[local] Instance serving_holds hash_order : Holds (backend hash_order version) serving anything is_use.
Proof.
  split; [done|intros L c s []; by split| | |].
  - intros L c s Hc HJ. destruct c as [| | | |u]; try done. cbn [b_call backend run_call].
    destruct (match u with StartTurn _ | SetMode _ | SetModel _ => false | _ => true end) eqn:Eu.
    { assert (HJ1 : serving (L ++ [Called (Use u)]) s).
      { apply (serving_calm _ s); [done|]. split; [done|]. apply Forall_singleton. by destruct u. }
      apply (bounded_now serving anything); [|done]. apply serving_calm_call, calm_use. by destruct u. }
    destruct u as [prompt| | | |m|m]; try done; cbn [run_use].
    + by apply start_serves.
    + destruct HJ as [HJ HL]. unfold set_mode. destruct (codex_mode m) eqn:E; cbn; (split; [|done]); rewrite <-app_assoc;
        (split; [|by apply wanted_unsent; [repeat constructor|]]); rewrite chosen_app, <-HJ; cbn; by rewrite same_modes, E.
    + destruct HJ as [HJ HL]. unfold set_model. cbn. split; [|done]. rewrite <-app_assoc. split.
      * by rewrite chosen_app, <-HJ.
      * by apply wanted_unsent; [repeat constructor|].
  - intros L uuid f s HJ. pose proof (calm_on_frame hash_order uuid f s) as Hf. cbn [b_frame backend].
    destruct (on_frame _ _ _ s) as [[s' es] u]. destruct Hf as [Hc Hf]. apply (serving_calm L s); [done|]. split; [done|]. by constructor.
  - intros L s HJ. pose proof (calm_on_exit s) as Hf. cbn [b_exit backend].
    destruct (on_exit s) as [[s' es] u]. destruct Hf as [Hc Hf]. apply (serving_calm L s); [done|]. split; [done|]. by constructor.
Qed.

(** Without further calls there is no task but the first. *)
Lemma one_task (b : Backend St call outcome) ops l : Forall (fun o => is_call o = false) ops ->
  (forall n t, lv_tasks l !! n = Some t -> n = 0) -> forall n t, lv_tasks (fold_left (live_step b) ops l) !! n = Some t -> n = 0.
Proof.
  revert l. induction ops as [|o ops IH]; intros l Hops Hl; [done|]. apply Forall_cons in Hops as [Ho Hops].
  apply IH; [done|]. intros n t. destruct o as [c|uuid f|k|k| | |]; try done; cbn [live_step].
  - destruct (lv_pump l); [|apply Hl]. unfold run_unit. destruct (b_frame b uuid f _) as [[s' es] u]. apply Hl.
  - destruct (lv_tasks l !! k) as [u|] eqn:E; [|apply Hl]. unfold run_task. destruct (wake _ u _) as [[s' es] t']. cbn.
    intros [[<- _]|[_ H]]%lookup_insert_Some; [by eapply Hl|by eapply Hl].
  - destruct (lv_tasks l !! k) as [u|] eqn:E; [|apply Hl]. unfold run_task. destruct (wake _ u _) as [[s' es] t']. cbn.
    intros [[<- _]|[_ H]]%lookup_insert_Some; [by eapply Hl|by eapply Hl].
  - apply Hl.
  - destruct (lv_pump l); [|apply Hl]. unfold run_unit. destruct (b_exit b _) as [[s' es] u]. apply Hl.
  - apply Hl.
Qed.

(** From the hand-over on. *)
Lemma served hash_order c opening ops : launches c -> Forall (fun o => is_call o = false) opening ->
  lv_tasks (run hash_order version (Call c :: opening)) !! 0 = Some (Done (Ok RUnit)) ->
  Forall (op_ok is_use) ops ->
  serving (lv_log (run hash_order version (Call c :: opening ++ ops))) (lv_state (run hash_order version (Call c :: opening ++ ops))).
Proof.
  intros Hc Ho Hdone Huse. pose proof (launch_holds hash_order c opening Hc Ho) as [HJ Ht].
  assert (E : run hash_order version (Call c :: opening ++ ops) =
    fold_left (live_step (backend hash_order version)) ops (run hash_order version (Call c :: opening)))
    by (unfold run, run_live; by rewrite app_comm_cons, fold_left_app).
  rewrite E. apply (held _ serving anything is_use ops); [done|]. split.
  - pose proof (Ht 0 _ Hdone eq_refl) as Hb. destruct HJ. split; [|done]. by rewrite la_chosen0, la_model0, la_begun0.
  - intros n t Hn. assert (n = 0) as ->.
    { revert n t Hn. set (b := backend hash_order version).
      change (run hash_order version (Call c :: opening)) with (fold_left (live_step b) opening (run hash_order version [Call c])).
      apply one_task; [done|]. intros n t. unfold run, run_live. cbn [fold_left live_step]. unfold run_task.
      destruct (b_call _ _ _) as [[s' es] t']. cbn. by intros [[<- _]|[_ H]]%lookup_insert_Some. }
    pose proof (eq_trans (eq_sym Hdone) Hn) as E2. by injection E2 as <-.
Qed.
End Wants.
