(* ===== verification/CodexTurn.v ===== *)
(** * CodexTurn: from a codex agent's frames to the stored turn

    [read_frames] says what a run of frames is on the timeline; what a turn
    collects from a session is proved to be just that. *)

From S2P Require Import Prelude Str Json PlanStore SessionStore Memory Turn Events Handler AgentLog Transport Requests AgentCli Codex.

Open Scope session_scope.

(** ** What frames say *)

(** The calls that run and the usage last reported. *)
Definition reading : Type := gmap rstr ToolCall * option TokenUsage.

Definition text_of (mk : rstr -> TimelineItem) (v : json) : list TimelineItem :=
  match as_str v with Some text => [mk text] | None => [] end.

Definition started_says (r : reading) (item : json) : reading * list TimelineItem :=
  match item_call item with
  | Some c => ((<[tc_call_id c := c]> r.1, r.2), [TToolCall c])
  | None => (r, [])
  end.

Definition completed_says (r : reading) (item : json) : reading * list TimelineItem :=
  let ty := text_at item "type" in
  if str_eqb ty (str "agentMessage") then (r, text_of TAssistantMessage item.["text"])
  else if str_eqb ty (str "reasoning") then (r, text_of TReasoning item.["text"])
  else if str_eqb ty (str "userMessage") then (r, text_of TUserMessage item.["text"])
  else if str_eqb ty (str "contextCompaction") then (r, [TCompaction (text_at item "summary")])
  else match r.1 !! text_at item "id" with
       | Some c => ((delete (text_at item "id") r.1, r.2), [TToolCall (finish_call item c)])
       | None => (r, [])
       end.

Definition read_frame (r : reading) (f : json) : reading * list TimelineItem :=
  let method := text_at f "method" in
  let params := f.["params"] in
  match get f (str "id") with
  | Some _ => (r, [])
  | None =>
      if str_eqb method (str "item/started") then started_says r params.["item"]
      else if str_eqb method (str "item/completed") then completed_says r params.["item"]
      else if str_eqb method (str "item/agentMessage/delta") then (r, text_of TAssistantMessage params.["delta"])
      else if str_eqb method (str "item/reasoning/summaryTextDelta") then (r, text_of TReasoning params.["delta"])
      else if str_eqb method (str "turn/plan/updated") then
        (r, match as_array params.["plan"] with Some plan => [TTodo (map plan_item plan)] | None => [] end)
      else if str_eqb method (str "thread/tokenUsage/updated") then ((r.1, or_else (token_usage_event (usage_payload params)) r.2), [])
      else (r, [])
  end.

Fixpoint read_frames (r : reading) (fs : list json) : reading * list TimelineItem :=
  match fs with
  | [] => (r, [])
  | f :: fs => let '(r, items) := read_frame r f in let '(r, rest) := read_frames r fs in (r, items ++ rest)
  end.

(** The end of a turn. *)
Definition is_completed (f : json) : bool :=
  match get f (str "id") with Some _ => false | None => str_eqb (text_at f "method") (str "turn/completed") end.

(** ** Handlers say the same *)

Definition read_of (s : St) : reading := (cx_items s, cx_usage s).

(** The handler emits the items of the reading, and no boundary. *)
Definition says (m : H unit) (f : reading -> reading * list TimelineItem) : Prop :=
  forall s, let '(s', es, _) := m s in
    (read_of s', omap (fun e => item_of (ev_kind e)) (emitted es)) = f (read_of s) /\
    (forall e, e ∈ emitted es -> ends_turn (ev_kind e) = false).

Definition silent (r : reading) : reading * list TimelineItem := (r, []).

Lemma says_ret : says (ret tt) silent.
Proof. intros s. split; [done|]. by intros e He%not_elem_of_nil. Qed.

Lemma says_here k items : item_of k = items -> ends_turn k = false -> says (emit_here k) (fun r => (r, option_list items)).
Proof.
  intros <- Hk s. cbn. split; [by destruct (item_of k)|]. by intros e ->%list_elem_of_singleton.
Qed.

Lemma says_text mk v : (forall text, item_of (ETimeline (mk text)) = Some (mk text)) ->
  says (match as_str v with Some text => emit_timeline (mk text) | None => ret tt end) (fun r => (r, text_of mk v)).
Proof.
  intros Hmk. unfold text_of. destruct (as_str v) as [text|]; [|apply says_ret].
  by apply (says_here (ETimeline (mk text)) (Some (mk text))).
Qed.

Lemma says_started params : says (on_item_started params) (fun r => started_says r params.["item"]).
Proof.
  intros s. unfold on_item_started, started_says. destruct (item_call _) as [c|]; [|apply says_ret].
  cbn. split; [done|]. by intros e ->%list_elem_of_singleton.
Qed.

Lemma says_completed params : says (on_item_completed params) (fun r => completed_says r params.["item"]).
Proof.
  intros s. unfold on_item_completed, completed_says. cbv zeta. set (item := params.["item"]).
  repeat match goal with |- context [str_eqb ?a ?b] => destruct (str_eqb a b) end;
    try by apply (says_text _ item.["text"]).
  - by apply (says_here (ETimeline (TCompaction (text_at item "summary"))) (Some (TCompaction (text_at item "summary")))).
  - unfold bind, gets. cbn [read_of fst snd]. destruct (cx_items s !! text_at item "id") as [c|]; [|apply says_ret].
    cbn. split; [done|]. by intros e ->%list_elem_of_singleton.
Qed.

Section Frames.
Context `{JT : JsonText}.
Variable hash_order : gmap rstr PendingAsk -> list (rstr * PendingAsk).

Lemma says_server uuid f : says (on_server_request uuid f) silent.
Proof.
  intros s. unfold on_server_request. destruct (request_ask _ _ _) as [ask|].
  - cbn. split; [done|]. by intros e [->|[->|He%not_elem_of_nil]%elem_of_cons]%elem_of_cons.
  - unfold bind, send. destruct (cn_open (conn s)); cbn; (split; [done|]); by intros e He%not_elem_of_nil.
Qed.

Lemma says_response id f : says (on_response id f) silent.
Proof. intros s. unfold on_response. destruct (response_key id); (split; [done|]); by intros e He%not_elem_of_nil. Qed.

Lemma says_resolved params : says (on_request_resolved hash_order params) silent.
Proof.
  intros s. unfold on_request_resolved. destruct (as_str _); [|apply says_ret]. unfold bind, gets.
  destruct (find_first _ _) as [[k a]|]; (split; [done|]); by intros e He%not_elem_of_nil.
Qed.

Lemma says_turn_started id : says (modify (with_turn (Some id)) ;! emit (in_turn id ETurnStarted)) silent.
Proof. intros s. split; [done|]. by intros e ->%list_elem_of_singleton. Qed.

Lemma says_usage params : says
  (match token_usage_event (usage_payload params) with Some u => modify (with_usage (Some u)) | None => ret tt end)
  (fun r => ((r.1, or_else (token_usage_event (usage_payload params)) r.2), [])).
Proof.
  intros s. destruct (token_usage_event _); (split; [done|]); by intros e He%not_elem_of_nil.
Qed.

Lemma says_plan params : says
  (match as_array params.["plan"] with Some plan => emit_timeline (TTodo (map plan_item plan)) | None => ret tt end)
  (fun r => (r, match as_array params.["plan"] with Some plan => [TTodo (map plan_item plan)] | None => [] end)).
Proof.
  destruct (as_array _) as [plan|]; [|apply says_ret].
  by apply (says_here (ETimeline (TTodo (map plan_item plan))) (Some (TTodo (map plan_item plan)))).
Qed.

Lemma says_ext m f g : (forall r, f r = g r) -> says m f -> says m g.
Proof. intros Hfg Hm s. specialize (Hm s). destruct (m s) as [[s' es] u]. by rewrite <-Hfg. Qed.

(** A frame that does not complete the turn. *)
Lemma frame_says uuid f : is_completed f = false -> says (on_frame hash_order uuid f) (fun r => read_frame r f).
Proof.
  unfold is_completed, on_frame, read_frame. cbv zeta.
  destruct (get f (str "id")) as [id|]; [intros _; destruct (get f (str "method")); [apply says_server|apply says_response]|].
  intros Hc. unfold on_notification. generalize (f.["params"]). intros params.
  destruct (str_eqb (text_at f "method") (str "turn/started")) eqn:Es.
  { apply str_eqb_eq in Es as ->. apply says_turn_started. }
  rewrite Hc. destruct (str_eqb _ (str "item/started")); [apply says_started|].
  destruct (str_eqb _ (str "item/completed")); [apply says_completed|].
  destruct (str_eqb _ (str "item/agentMessage/delta")); [by apply says_text|].
  destruct (str_eqb _ (str "item/reasoning/summaryTextDelta")); [by apply says_text|].
  destruct (str_eqb _ (str "turn/plan/updated")); [apply says_plan|].
  destruct (str_eqb _ (str "thread/tokenUsage/updated")); [apply says_usage|].
  destruct (str_eqb _ (str "serverRequest/resolved")); [apply says_resolved|apply says_ret].
Qed.

Lemma frames_say (fs : list (rstr * json)) : (forall f, f ∈ fs.*2 -> is_completed f = false) ->
  says (each (fun x => on_frame hash_order x.1 x.2) fs) (fun r => read_frames r fs.*2).
Proof.
  induction fs as [|[uuid f] fs IH]; intros Hfs; [apply says_ret|]. intros s. cbn [each fmap list_fmap read_frames fst snd].
  unfold bind. pose proof (frame_says uuid f (Hfs f (list_elem_of_here _ _)) s) as Hf.
  destruct (on_frame hash_order uuid f s) as [[s1 es1] []]. destruct Hf as [Hf Hq].
  assert (forall g, g ∈ fs.*2 -> is_completed g = false) as Hrest by (intros g Hg; apply Hfs; by right).
  specialize (IH Hrest s1). destruct (each _ fs s1) as [[s2 es2] []]. destruct IH as [IH Hq2].
  unfold emitted in *. rewrite <-Hf, <-IH, !omap_app. split; [done|]. intros e [He|He]%elem_of_app; [by apply Hq|by apply Hq2].
Qed.

Lemma completed_frame uuid f s : is_completed f = true ->
  on_frame hash_order uuid f s =
  (with_turn None s,
   [Emitted {| ev_turn := cx_turn s; ev_kind := completed_kind f.["params"] (cx_usage s) |};
    Emitted (outside (EAttentionRequired AttentionFinished))], tt).
Proof.
  unfold is_completed, on_frame. destruct (get f (str "id")); [done|]. intros E%str_eqb_eq. rewrite E. done.
Qed.

Lemma completed_ends params u : ends_turn (completed_kind params u) = true.
Proof. unfold completed_kind. by repeat case_match. Qed.

Context (plan_content_hash : rstr -> rstr) (sid uuid : rstr) (at_ms : Z).

(** From a codex agent's frames to the stored turn: when a turn's frames end
    with [turn/completed], what the turn collects is what the frames say: the
    texts and thoughts in order, the last state of each tool call, the last plan,
    the compactions, the usage of the end or else the last one reported; it ends
    the way the frame says, and the session has no turn. *)
Theorem codex_frames_become_turn (fs : list (rstr * json)) (res : rstr * json) (s : St) (plans : list PlanRow) :
  (forall f, f ∈ fs.*2 -> is_completed f = false) -> is_completed res.2 = true ->
  let '(s', es, _) := each (fun x => on_frame hash_order x.1 x.2) (fs ++ [res]) s in
  let '((_, a), ended) := collect plan_content_hash sid (plans, empty_acc) (map (receive uuid at_ms) (emitted es)) in
  let '((running, usage), items) := read_frames (cx_items s, cx_usage s) fs.*2 in
  let kind := completed_kind (res.2).["params"] usage in
  cx_turn s' = None /\ cx_items s' = running /\
  ac_assistant a = concat (omap said items) /\ ac_reasoning a = concat (omap thought items) /\
  (forall id, ac_tools a !! id = last (omap (call_state id) items)) /\
  ac_todo a = last (omap planned items) /\ ac_compactions a = omap compacted items /\
  ac_usage a = match kind with ETurnCompleted u => usage_row <$> u | _ => None end /\
  match kind with
  | ETurnFailed e _ => ended = Some (Err e) /\ ac_stop a = StopFailed
  | ETurnCompleted _ => ended = Some (Ok tt) /\ ac_stop a = StopCompleted
  | _ => ended = Some (Ok tt) /\ ac_stop a = StopCanceled
  end.
Proof.
  intros Hfs Hres. rewrite each_app. unfold bind at 1. pose proof (frames_say fs Hfs s) as Hs.
  destruct (each _ fs s) as [[s1 es1] []]. destruct Hs as [Hs Hq]. fold (read_of s). rewrite <-Hs. unfold read_of.
  cbn [each]. unfold bind. destruct res as [u res]. cbn [fst snd] in *. rewrite completed_frame by done. cbn beta iota delta [ret app].
  unfold emitted in *. rewrite omap_app. set (es := omap _ es1) in *. cbn [omap list_omap emitted_of app ret].
  pose proof (collected_turn plan_content_hash sid uuid at_ms es
    {| ev_turn := cx_turn s1; ev_kind := completed_kind res.["params"] (cx_usage s1) |}
    [outside (EAttentionRequired AttentionFinished)] plans Hq (completed_ends _ _)) as Hc.
  destruct (collect _ _ _ _) as [[ps a] ended]. cbn zeta in Hc |- *. split; [done|]. split; [done|exact Hc].
Qed.
End Frames.
