(* ===== verification/CodexThms.v ===== *)
(** * CodexThms: what codex sessions guarantee, and what they do not

    The theorems on all runs of a session, then runs that show where it falls
    short, and witnesses. *)

From S2P Require Import Prelude Str Json PlanStore SessionStore Memory Turn Events Handler AgentLog Transport Requests RequestsLive AgentCli Codex CodexFacts CodexTurn.

Open Scope session_scope.

(** ** No call hangs *)

Section Sound.
Context `{JT : JsonText}.
Variable hash_order : gmap rstr PendingAsk -> list (rstr * PendingAsk).
Variable version : rstr.

Lemma codex_call_sound c : sound_call (run_call version c).
Proof.
  destruct c as [config|handle config|cwd|cwd|[]]; cbn [run_call run_use];
    unfold spawn, seed_mode, attach_thread, catalog_models, thread_started, start_turn, steer, interrupt,
      respond_to_permission, set_mode, set_model, request, emit; sounds.
Qed.

Lemma codex_frame_grows uuid f : obeys growing (on_frame hash_order uuid f).
Proof.
  unfold on_frame, on_response, on_server_request, on_notification, on_turn_completed, on_delta, on_request_resolved,
    on_item_started, on_item_completed, emit_timeline, emit_here, emit. sounds.
Qed.

Lemma codex_exit_grows : obeys growing on_exit.
Proof. unfold on_exit, emit. sounds. Qed.

(** C17: no call hangs on a dead agent.  Once its pipe is closed, every call made
    at any time is done when its time is up at the latest.  Once its output has ended
    too it is done as soon as it is woken, whatever the calls, frames, timeouts and
    wakes before and after: but only if no call went on after the output had ended
    and before the pipe was closed, for such a call may wait out its time
    ([late_request_waits_out]). *)
Theorem codex_calls_end (ops : list op) (n : nat) :
  let l := run hash_order version ops in
  n < lv_calls l ->
  (PipeCloses ∈ ops -> exists r, lv_tasks (live_step (backend hash_order version) l (Expire n)) !! n = Some (Done r)) /\
  (gone ops -> exists r, lv_tasks (live_step (backend hash_order version) l (Wake n)) !! n = Some (Done r)).
Proof.
  apply calls_end; [apply codex_call_sound|apply codex_frame_grows|apply codex_exit_grows|]. apply (run_wires_ok []).
Qed.

(** ** Answers, tool calls, turns *)

(** The agent gets answers only to requests it made, each at most once and
    under its own id: in any run, the ids answered (the refusals of unknown
    methods among them) and those of the asks still pending are among the ids the
    agent asked under, with multiplicities. *)
Theorem codex_answers_asked (ops : list op) :
  let l := run hash_order version ops in answered (lv_log l) ++ pending_ids (lv_state l) ⊆+ asked (lv_log l).
Proof.
  cbn zeta. destruct (kept (backend hash_order version) answers_asked fresh_session ops) as [Hl _].
  etransitivity; [exact Hl|]. by rewrite app_nil_r.
Qed.

(** C19: in any run, each tool call is shown running and then at most once as
    ended, with the name and the input it began with, before it may run again; an
    end without a beginning is not shown, and the session remembers just the
    calls that have not ended. *)
Theorem codex_tool_stories (ops : list op) (x : rstr) :
  let l := run hash_order version ops in tool_story x None (lv_log l) (cx_items (lv_state l) !! x).
Proof.
  cbn zeta. destruct (kept (backend hash_order version) tools_told fresh_session ops) as [Hl _].
  destruct Hl as [_ Hs]; [|apply Hs]. intros y c H. cbn in H. by rewrite lookup_empty in H.
Qed.

(** C18: a session is launched by a create or a resume with a configuration, and
    handed to its clients when that call has succeeded.  In any run from then on,
    [thread/start] asked for the approval policy, the sandbox and the model of the
    configuration.  Every [turn/start] was called for with its prompt, and asks for
    the approval policy and the sandbox policy of the mode in force at that call:
    the last known one of [set_mode], else the configured one when it is known,
    else none.  So full access is asked for only where it was chosen.  It asks for
    the model of the last [set_model] before the call, and for none before the
    first: the configured model is that of the thread. *)
Theorem codex_turns_as_chosen (config : SessionConfig) (c : call) (opening ops : list op)
    (Hlaunch : launches config c) (Hopening : Forall (fun o => is_call o = false) opening)
    (Hdone : lv_tasks (run hash_order version (Call c :: opening)) !! 0 = Some (Done (Ok RUnit)))
    (Huses : Forall (op_ok is_use) ops) :
  let l := run hash_order version (Call c :: opening ++ ops) in
  (cx_mode (lv_state l), cx_model (lv_state l)) = chosen (configured config) (lv_log l) /\
  forall before f after, lv_log l = before ++ Did (Sent f) :: after ->
    (forall t, turn_terms f = Some t -> exists l1 prompt l2,
       before = l1 ++ Called (Use (StartTurn prompt)) :: l2 /\ (f.["params"]).["input"] = JArr (prompt_input prompt) /\
       t = turn_wants (chosen (configured config) l1)) /\
    (forall t, thread_terms f = Some t -> t = thread_wants config).
Proof. exact (served config version hash_order c opening ops Hlaunch Hopening Hdone Huses). Qed.
End Sound.

(** ** Runs *)

Definition demo_text : JsonText := {| to_string := fun _ => str "{}"; to_string_pretty := fun _ => str "{}"; from_str := fun _ => None |}.
#[local] Existing Instance demo_text.

Notation demo_run := (run map_to_list (str "1.0")).

Definition frame (f : json) : op (call:=call) := Frame (str "u") f.
Definition note (method : string) (params : json) : op (call:=call) :=
  frame (mk_obj [field "method" (jstr method); field "params" params]).
Definition reply_to (id : Z) (result : json) : op (call:=call) := frame (mk_obj [field "id" (jint id); field "result" result]).
Definition named (k : string) (v : json) : json := mk_obj [field k v].
Definition thing (k id : string) : json := named k (named "id" (jstr id)).

Definition demo_config : SessionConfig := {|
  sc_cwd := str "/w"; sc_model := Some (str "o5"); sc_mode := Some (str "read-only"); sc_mcp_servers := [];
  sc_granted_roots := []; sc_allowed_tools := [] |}.

(** A session with its thread [th]. *)
Definition handshake : list (op (call:=call)) :=
  [Call (Create demo_config); reply_to 1 (mk_obj []); Wake 0; reply_to 2 (thing "thread" "th"); Wake 0].

Definition start : op (call:=call) := Call (Use (StartTurn (PText (str "hi")))).
Definition start_sent : list (op (call:=call)) := [start; Wake 1].
Definition started (t : string) : op (call:=call) := note "turn/started" (thing "turn" t).
Definition completed (t : string) : op (call:=call) := note "turn/completed" (thing "turn" t).

Definition effects (l : live St call outcome) : list effect := omap (fun x => match x with Did e => Some e | _ => None end) (lv_log l).
Definition sent_methods (l : live St call outcome) : list rstr :=
  omap (fun e => match e with Sent f => as_str f.["method"] | _ => None end) (effects l).

(** The answer to [turn/start] may be taken after the turn has ended: the session
    then has that turn again, and the end of the process ends it twice. *)
Theorem late_start_reopens_turn :
  let ops := handshake ++ start_sent ++ [reply_to 3 (thing "turn" "t1"); started "t1"; completed "t1"; Wake 1] in
  cx_turn (lv_state (demo_run ops)) = Some (str "t1") /\
  boundaries (effects (demo_run (ops ++ [OutputEnds; PumpEnds]))) = [Some (str "t1"); Some (str "t1")].
Proof. vm_compute. done. Qed.

Definition delta (text : string) : op (call:=call) := note "item/agentMessage/delta" (named "delta" (jstr text)).
Definition message (text : string) : op (call:=call) :=
  note "item/completed" (named "item" (mk_obj [field "type" (jstr "agentMessage"); field "text" (jstr text)])).

(** A message that streams is stored twice: by its deltas and by its item. *)
Theorem streamed_text_twice :
  let l := demo_run (handshake ++ [started "t1"; delta "Hel"; delta "lo"; message "Hello"; completed "t1"]) in
  ac_assistant (collect (fun c => c) (str "s") ([], empty_acc) (map (receive [] 0) (emitted (effects l)))).1.2 = str "HelloHello".
Proof. vm_compute. reflexivity. Qed.

(** Resuming starts a thread of its own first, which gets the configured model;
    the turns of the resumed thread do not. *)
Theorem resume_starts_stray_thread :
  let l := demo_run [Call (Resume (str "old") demo_config); reply_to 1 (mk_obj []); Wake 0; reply_to 2 (thing "thread" "new"); Wake 0;
                     reply_to 3 (mk_obj []); Wake 0; start; Wake 1] in
  sent_methods l = [str "initialize"; str "initialized"; str "thread/start"; str "thread/resume"; str "turn/start"] /\
  cx_thread (lv_state l) = Some (str "old") /\
  omap (fun e => match e with Sent f => turn_terms f | _ => None end) (effects l) = [(Some (str "on-request"), Some (str "readOnly"), None)].
Proof. vm_compute. done. Qed.

Definition demo_ask : op (call:=call) :=
  Frame (str "a1") (mk_obj [field "id" (jint 7); field "method" (jstr "item/commandExecution/requestApproval");
                            field "params" (named "command" (jstr "ls"))]).

(** An answer that cannot be delivered loses the ask. *)
Theorem undelivered_answer_loses_ask :
  let l := demo_run (handshake ++ [demo_ask; PipeCloses; Call (Use (Respond (str "a1") (Allow None None None None)))]) in
  pending_ids (lv_state l) = [] /\ answered (lv_log l) = [] /\ asked (lv_log l) = [jint 7].
Proof. vm_compute. done. Qed.

(** An ask the agent withdraws goes without an event. *)
Theorem withdrawn_ask_is_silent :
  let l := demo_run (handshake ++ [demo_ask]) in
  let l' := demo_run (handshake ++ [demo_ask; note "serverRequest/resolved" (named "requestId" (jstr "7"))]) in
  length (pending_ids (lv_state l)) = 1 /\ pending_ids (lv_state l') = [] /\ effects l' = effects l.
Proof. vm_compute. done. Qed.

Definition token_usage : op (call:=call) :=
  note "thread/tokenUsage/updated" (named "usage" (mk_obj [field "input_tokens" (jint 10); field "output_tokens" (jint 5)])).

(** A turn without a report of its own is given the usage of an earlier one. *)
Theorem usage_of_earlier_turn :
  let l := demo_run (handshake ++ [started "t1"; token_usage; completed "t1"; started "t2"; completed "t2"]) in
  map (fun e => match ev_kind e with ETurnCompleted u => u ≫= tu_input | _ => None end)
    (List.filter (fun e => ends_turn (ev_kind e)) (emitted (effects l))) = [Some 10%Z; Some 10%Z].
Proof. vm_compute. reflexivity. Qed.

(** Frames read before the process ended are lost when the pump sees the end
    first: a completed turn is reported as failed. *)
Theorem exit_overtakes_frames :
  let ends ops := map ev_kind (List.filter (fun e => ends_turn (ev_kind e)) (emitted (effects (demo_run (handshake ++ started "t1" :: ops))))) in
  ends [completed "t1"; OutputEnds; PumpEnds] = [ETurnCompleted None] /\
  ends [OutputEnds; PumpEnds; completed "t1"] = [ETurnFailed (str "backend process exited without completing the turn") None].
Proof. vm_compute. done. Qed.

(** A request made after the output has ended, while the pipe still takes it, is
    not ended with the others: it waits out its timeout. *)
Theorem late_request_waits_out :
  let l := demo_run (handshake ++ [OutputEnds; start; Wake 1; Wake 1]) in
  match lv_tasks l !! 1 with Some (Waits _ _ timeout _) => timeout = str "1800s" | _ => False end.
Proof. vm_compute. reflexivity. Qed.

(** ** Witnesses *)

Definition demo_frames : list (rstr * json) :=
  [([], mk_obj [field "method" (jstr "item/started"); field "params" (named "item"
      (mk_obj [field "type" (jstr "commandExecution"); field "id" (jstr "i1"); field "command" (jstr "ls")]))]);
   ([], mk_obj [field "method" (jstr "item/completed"); field "params" (named "item"
      (mk_obj [field "type" (jstr "commandExecution"); field "id" (jstr "i1"); field "aggregatedOutput" (jstr "a.txt"); field "exitCode" (jint 0)]))])].

Definition demo_end : rstr * json := ([], mk_obj [field "method" (jstr "turn/completed"); field "params" (thing "turn" "t1")]).

Lemma codex_frames_become_turn_witness :
  let '(_, es, _) := each (fun x => on_frame map_to_list x.1 x.2) (demo_frames ++ [demo_end]) fresh_session in
  let '((_, a), ended) := collect (fun c => c) (str "s") ([], empty_acc) (map (receive [] 0) (emitted es)) in
  ac_tools a !! str "i1" =
    Some (tool_json {| tc_call_id := str "i1"; tc_name := str "shell"; tc_status := ToolCompleted;
                       tc_detail := Shell (str "ls") (Some (str "a.txt")) (Some 0%Z) |}) /\
  ended = Some (Ok tt).
Proof.
  pose proof (codex_frames_become_turn map_to_list (fun c => c) (str "s") [] 0 demo_frames demo_end fresh_session []) as H.
  destruct (each _ _ _) as [[s' es] []]. destruct (collect _ _ _ _) as [[ps a] ended]. cbn beta iota zeta in H.
  destruct H as (_ & _ & _ & _ & Ht & _ & _ & _ & He & _).
  - intros f [->|[->|Hf%not_elem_of_nil]%elem_of_cons]%elem_of_cons; [vm_compute; reflexivity..|done].
  - vm_compute. reflexivity.
  - split; [rewrite Ht; vm_compute; reflexivity|exact He].
Defined.

Lemma codex_calls_end_witness :
  let ops := handshake ++ start_sent ++ [OutputEnds; demo_ask; PipeCloses; start] in
  let ends o n := exists r, lv_tasks (live_step (backend map_to_list (str "1.0")) (demo_run ops) o) !! n = Some (Done r) in
  gone ops /\ lv_calls (demo_run ops) = 3 /\ ends (Wake 1) 1 /\ ends (Wake 2) 2 /\ ends (Expire 1) 1.
Proof.
  cbv zeta. set (ops := handshake ++ _).
  assert (Hg : gone ops).
  { exists (handshake ++ start_sent), [demo_ask], [start]. right. split; [reflexivity|]. by repeat constructor. }
  assert (Hn : lv_calls (demo_run ops) = 3) by (vm_compute; reflexivity).
  assert (Hp : PipeCloses ∈ ops) by (apply elem_of_app; right; apply elem_of_app; right; do 2 right; by left).
  clearbody ops. pose proof (codex_calls_end map_to_list (str "1.0") ops) as H. cbv zeta in H. rewrite Hn in H.
  split; [exact Hg|]. split; [exact Hn|]. split; [|split].
  - apply (H 1); [lia|exact Hg].
  - apply (H 2); [lia|exact Hg].
  - apply (H 1); [lia|exact Hp].
Defined.

Definition opening : list (op (call:=call)) := [reply_to 1 (mk_obj []); Wake 0; reply_to 2 (thing "thread" "th"); Wake 0].

(** Full access is chosen while a turn is about to be asked for: it takes effect
    with the next one. *)
Definition choosing : list (op (call:=call)) := [start; Call (Use (SetMode (str "full-access"))); Wake 1; start; Wake 3].

Lemma codex_turns_as_chosen_witness :
  let l := demo_run (Call (Create demo_config) :: opening ++ choosing) in
  cx_mode (lv_state l) = (chosen (configured demo_config) (lv_log l)).1 /\
  omap (fun e => match e with Sent f => turn_terms f | _ => None end) (effects l) =
    [(Some (str "on-request"), Some (str "readOnly"), None); (Some (str "never"), Some (str "dangerFullAccess"), None)].
Proof.
  pose proof (codex_turns_as_chosen map_to_list (str "1.0") demo_config (Create demo_config) opening choosing) as H.
  cbv zeta in H |- *. split; [|vm_compute; reflexivity]. destruct H as [H _].
  - by left.
  - by repeat constructor.
  - vm_compute. reflexivity.
  - by repeat constructor.
  - unfold choosing. repeat (apply Forall_cons; split; [exact I|]). constructor.
Defined.
