(* ===== verification/Omp.v ===== *)
(** * Omp: sessions of omp and pi ([backend/omp.rs])

    Typed frames over lines: responses to commands, events of an agent run, dialogs
    of extensions that become asks, and chunks that carry larger frames.  Commands
    are tasks of [Requests]. *)

From S2P Require Import Prelude Str Json SessionStore Memory Turn Events Handler AgentLog Transport Requests AgentCli.

Open Scope session_scope.

(** ** The two members of the family *)

Record PiFamily := {
  pf_id : string; pf_handshakes : bool; pf_strict_terminal : bool; pf_has_mode_args : bool; pf_subagent_events : bool;
  pf_modes : list string; pf_default_mode : option string
}.

Definition OMP : PiFamily := {|
  pf_id := "omp"; pf_handshakes := true; pf_strict_terminal := false; pf_has_mode_args := true; pf_subagent_events := true;
  pf_modes := ["default"; "acceptEdits"; "bypassPermissions"]%string; pf_default_mode := Some "default"%string |}.

Definition PI : PiFamily := {|
  pf_id := "pi"; pf_handshakes := false; pf_strict_terminal := true; pf_has_mode_args := false; pf_subagent_events := false;
  pf_modes := ["default"]%string; pf_default_mode := Some "default"%string |}.

(** Arguments the process is launched with, after the configured ones. *)
Definition mode_args (profile : PiFamily) (mode : option rstr) : list rstr :=
  if negb (pf_has_mode_args profile) then []
  else match mode with
       | Some m =>
           if str_eqb m (str "bypassPermissions") then [str "--approval-mode"; str "yolo"]
           else if str_eqb m (str "acceptEdits") then [str "--approval-mode"; str "write"] else []
       | None => []
       end.

(** ** State *)

(** [pa_ui] is the id of the dialog. *)
Record PendingAsk := { pa_request : PermissionRequest; pa_ui : rstr }.

(** The parts that came, by their index; all are below [cb_count]. *)
Record ChunkBuf := { cb_count : Z; cb_byte_length : Z; cb_parts : gmap Z (list N) }.

Record St := {
  om_conn : connection; om_next : Z; om_file : option rstr; om_turn : option rstr; om_asks : gmap rstr PendingAsk;
  om_tools : gmap rstr ToolCall; om_chunks : gmap rstr ChunkBuf
}.

Definition with_conn x s := {| om_conn := x; om_next := om_next s; om_file := om_file s; om_turn := om_turn s; om_asks := om_asks s; om_tools := om_tools s; om_chunks := om_chunks s |}.
Definition with_next x s := {| om_conn := om_conn s; om_next := x; om_file := om_file s; om_turn := om_turn s; om_asks := om_asks s; om_tools := om_tools s; om_chunks := om_chunks s |}.
Definition with_file x s := {| om_conn := om_conn s; om_next := om_next s; om_file := x; om_turn := om_turn s; om_asks := om_asks s; om_tools := om_tools s; om_chunks := om_chunks s |}.
Definition with_turn x s := {| om_conn := om_conn s; om_next := om_next s; om_file := om_file s; om_turn := x; om_asks := om_asks s; om_tools := om_tools s; om_chunks := om_chunks s |}.
Definition with_asks x s := {| om_conn := om_conn s; om_next := om_next s; om_file := om_file s; om_turn := om_turn s; om_asks := x; om_tools := om_tools s; om_chunks := om_chunks s |}.
Definition with_tools x s := {| om_conn := om_conn s; om_next := om_next s; om_file := om_file s; om_turn := om_turn s; om_asks := om_asks s; om_tools := x; om_chunks := om_chunks s |}.
Definition with_chunks x s := {| om_conn := om_conn s; om_next := om_next s; om_file := om_file s; om_turn := om_turn s; om_asks := om_asks s; om_tools := om_tools s; om_chunks := x |}.

#[export] Instance St_connected : Connected St := {| conn := om_conn; set_conn := with_conn; conn_set := fun c s => eq_refl |}.

Definition fresh_session : St := {|
  om_conn := fresh_connection; om_next := 1; om_file := None; om_turn := None; om_asks := ∅; om_tools := ∅; om_chunks := ∅ |}.

Definition H : Type -> Type := handler St effect.

(** ** Events *)

Definition emit (e : Event) : H unit := log (Emitted e).

Definition emit_here (k : StreamEventKind) : H unit :=
  let! turn := gets om_turn in emit {| ev_turn := turn; ev_kind := k |}.

Definition emit_timeline (item : TimelineItem) : H unit := emit_here (ETimeline item).

Definition compaction_item (ty : rstr) : option TimelineItem :=
  if str_eqb ty (str "auto_compaction_start") then Some (TCompaction (str "auto compaction started"))
  else if str_eqb ty (str "auto_compaction_end") then Some (TCompaction (str "auto compaction completed"))
  else None.

Definition map_tool (f : json) : ToolCallDetail :=
  let name := text_at f "toolName" in
  let args := f.["args"] in
  if str_eqb name (str "bash") then Shell (text_at args "command") None None
  else if str_eqb name (str "read") then ReadFile (text_at args "path") None
  else if str_eqb name (str "edit") then EditFile (text_at args "path") None
  else if str_eqb name (str "write") then WriteFile (text_at args "path") (as_str args.["content"])
  else if str_eqb name (str "grep") || str_eqb name (str "glob") || str_eqb name (str "web_search") then
    SearchFor (default [] (or_else (as_str args.["pattern"]) (as_str args.["query"]))) None
  else UnknownDetail args JNull.

Definition turn_ends (turn : option rstr) : H unit :=
  emit {| ev_turn := turn; ev_kind := ETurnCompleted None |} ;! emit (outside (EAttentionRequired AttentionFinished)).

(** [agent_end]: provisional frames keep the turn. *)
Definition on_agent_end (profile : PiFamily) (f : json) : H unit :=
  let! turn := gets om_turn in
  modify (with_turn None) ;!
  let terminal := match pf_strict_terminal profile, as_bool f.["isTerminal"] with
                  | true, (None | Some false) => false
                  | _, t => default true t
                  end in
  if terminal then turn_ends turn else modify (with_turn turn).

Definition on_agent_settled : H unit :=
  let! turn := gets om_turn in modify (with_turn None) ;! turn_ends turn.

Definition on_message_update (f : json) : H unit :=
  let ev := f.["assistantMessageEvent"] in
  let ty := text_at ev "type" in
  if str_eqb ty (str "text_delta") then emit_timeline (TAssistantMessage (text_at ev "delta"))
  else if str_eqb ty (str "thinking_delta") then emit_timeline (TReasoning (text_at ev "delta"))
  else ret tt.

Definition on_tool_start (f : json) : H unit :=
  let call := {| tc_call_id := text_at f "toolCallId"; tc_name := text_at f "toolName"; tc_status := ToolRunning; tc_detail := map_tool f |} in
  modify (fun s => with_tools (<[tc_call_id call := call]> (om_tools s)) s) ;! emit_timeline (TToolCall call).

Definition on_tool_end (f : json) : H unit :=
  let id := text_at f "toolCallId" in
  let! tools := gets om_tools in
  match tools !! id with
  | None => ret tt
  | Some call =>
      modify (with_tools (delete id tools)) ;!
      emit_timeline (TToolCall {| tc_call_id := tc_call_id call; tc_name := tc_name call;
                                  tc_status := if bool_at f "isError" then ToolFailed else ToolCompleted; tc_detail := tc_detail call |})
  end.

(** ** Dialogs *)

Definition confirm_actions : list PermissionAction :=
  [{| pa_id := str "confirm"; pa_label := str "Confirm"; pa_behavior := BehaviorAllow; pa_variant := Some VariantPrimary |};
   {| pa_id := str "cancel"; pa_label := str "Cancel"; pa_behavior := BehaviorDeny; pa_variant := Some VariantDanger |}].

Definition option_action (i : nat) (o : json) : PermissionAction :=
  {| pa_id := str "opt" ++ dec (N.of_nat i); pa_label := default [] (as_str o); pa_behavior := BehaviorAllow; pa_variant := None |}.

Definition dialog_title (f : json) (other : string) : rstr := default (str other) (or_else (as_str f.["title"]) (as_str f.["message"])).

(** What a dialog asks; the others need no decision. *)
Definition dialog (f : json) : option (PermissionKind * rstr * list PermissionAction) :=
  let method := text_at f "method" in
  if str_eqb method (str "confirm") then Some (KindTool, default (str "Confirm") (as_str f.["message"]), confirm_actions)
  else if str_eqb method (str "select") then
    Some (KindQuestion, dialog_title f "Select", imap option_action (default [] (as_array f.["options"])))
  else if str_eqb method (str "input") then Some (KindQuestion, dialog_title f "Input", [])
  else None.

Definition ui_response (ui_id : rstr) (k : string) (v : json) : json :=
  mk_obj [field "type" (jstr "extension_ui_response"); field "id" (JStr ui_id); field k v].

Definition on_ui_request (uuid : rstr) (f : json) : H unit :=
  let ui_id := text_at f "id" in
  match dialog f with
  | None => send (ui_response ui_id "confirmed" (JBool true)) ;! ret tt
  | Some (kind, title, actions) =>
      let ask := {| pr_id := uuid; pr_kind := kind; pr_name := text_at f "method"; pr_title := Some title; pr_input := Some f;
                    pr_detail := None; pr_actions := actions; pr_suggestions := []; pr_questions := [] |} in
      modify (fun s => with_asks (<[uuid := {| pa_request := ask; pa_ui := ui_id |}]> (om_asks s)) s) ;!
      emit_here (EPermissionRequested ask) ;!
      emit (outside (EAttentionRequired AttentionPermission))
  end.

(** The answer to a dialog; an option is named by its place. *)
Definition dialog_answer (ask : PendingAsk) (response : PermissionResponse) : json :=
  match response with
  | Allow action_id _ _ _ =>
      match (action_id ≫= strip_prefix (str "opt")) ≫= parse_u64 with
      | Some idx =>
          ui_response (pa_ui ask) "value"
            (JStr (default [] (pa_label <$> (pr_actions (pa_request ask) !! Z.to_nat idx))))
      | None => ui_response (pa_ui ask) "confirmed" (JBool true)
      end
  | Deny _ _ _ => ui_response (pa_ui ask) "cancelled" (JBool true)
  end.

(** ** Chunks *)

Section Session.
Context `{JT : JsonText}.
(** The standard base64 decoder and [serde_json::from_slice]. *)
Variables (b64_decode : rstr -> option (list N)) (from_slice : list N -> option json).

(** The parts in order. *)
Definition joined (buf : ChunkBuf) : list N :=
  concat (omap (fun i => cb_parts buf !! Z.of_nat i) (seq 0 (Z.to_nat (cb_count buf)))).

Record chunk := { ck_id : rstr; ck_index : Z; ck_count : Z; ck_byte_length : Z; ck_data : list N }.

Definition read_chunk (f : json) : option chunk :=
  match as_str f.["chunkId"], as_u64 f.["index"], as_u64 f.["count"], as_u64 f.["byteLength"], (as_str f.["data"] ≫= b64_decode) with
  | Some id, Some index, Some count, Some byte_length, Some data =>
      Some {| ck_id := id; ck_index := index; ck_count := count; ck_byte_length := byte_length; ck_data := data |}
  | _, _, _, _, _ => None
  end.

(** A chunk taken in: the buffers, and the bytes of its sequence when it is the
    last to come; an index out of range drops the sequence. *)
Definition take_in (c : chunk) (chunks : gmap rstr ChunkBuf) : gmap rstr ChunkBuf * option (list N) :=
  let buf := default {| cb_count := ck_count c; cb_byte_length := ck_byte_length c; cb_parts := ∅ |} (chunks !! ck_id c) in
  if (cb_count buf <=? ck_index c)%Z then (delete (ck_id c) chunks, None)
  else
    let buf := {| cb_count := cb_count buf; cb_byte_length := cb_byte_length buf;
                  cb_parts := <[ck_index c := ck_data c]> (cb_parts buf) |} in
    if (Z.of_nat (size (cb_parts buf)) <? cb_count buf)%Z then (<[ck_id c := buf]> chunks, None)
    else (delete (ck_id c) chunks,
          if (Z.of_nat (length (joined buf)) =? cb_byte_length buf)%Z then Some (joined buf) else None).

Definition reassemble (f : json) : H (option json) :=
  match read_chunk f with
  | None => ret None
  | Some c =>
      let! chunks := gets om_chunks in
      let '(chunks, bytes) := take_in c chunks in
      modify (with_chunks chunks) ;! ret (bytes ≫= from_slice)
  end.

(** ** Frames *)

Variable profile : PiFamily.

(** Frames other than chunks. *)
Definition on_plain_frame (uuid : rstr) (f : json) : H unit :=
  let ty := text_at f "type" in
  if str_eqb ty (str "response") then
    match as_str f.["id"] with Some id => resolve_wait id (Ok f) | None => ret tt end
  else if str_eqb ty (str "agent_start") then modify (with_turn (Some uuid)) ;! emit (in_turn uuid ETurnStarted)
  else if str_eqb ty (str "agent_end") then on_agent_end profile f
  else if str_eqb ty (str "agent_settled") then on_agent_settled
  else if str_eqb ty (str "message_update") then on_message_update f
  else if str_eqb ty (str "tool_execution_start") then on_tool_start f
  else if str_eqb ty (str "tool_execution_end") then on_tool_end f
  else if str_eqb ty (str "extension_ui_request") then on_ui_request uuid f
  else if str_eqb ty (str "extension_ui_response") then ret tt
  else if str_eqb ty (str "subagent_lifecycle") || str_eqb ty (str "subagent_progress") || str_eqb ty (str "subagent_event") then
    emit_here (ESubagent f)
  else match compaction_item ty with Some item => emit_timeline item | None => ret tt end.

Definition is_chunk (f : json) : bool := str_eqb (text_at f "type") (str "rpc_chunk").

(** A chunk may complete a frame, which is handled in turn and may be a chunk. *)
Fixpoint on_frame_fuel (fuel : nat) (uuid : rstr) (f : json) : H unit :=
  if is_chunk f then
    match fuel with
    | 0 => ret tt
    | S fuel =>
        let! whole := reassemble f in
        match whole with Some f => on_frame_fuel fuel uuid f | None => ret tt end
    end
  else on_plain_frame uuid f.

(** The bytes held for unfinished sequences, and those of a chunk: no frame nests
    deeper than that. *)
Definition weigh {K A} `{Countable K} (w : A -> nat) (m : gmap K A) : nat := sum_list_with (fun p => w p.2) (map_to_list m).

Definition buf_bytes (buf : ChunkBuf) : nat := weigh length (cb_parts buf).

Definition held (chunks : gmap rstr ChunkBuf) : nat := weigh buf_bytes chunks.

Definition chunk_bytes (f : json) : nat := if is_chunk f then match read_chunk f with Some c => length (ck_data c) | None => 0 end else 0.

Definition on_frame (uuid : rstr) (f : json) : H unit :=
  let! chunks := gets om_chunks in on_frame_fuel (S (S (held chunks + chunk_bytes f))) uuid f.

Definition on_exit : H unit :=
  let! turn := gets om_turn in
  match turn with
  | None => ret tt
  | Some t =>
      modify (with_turn None) ;!
      emit (in_turn t (ETurnFailed (str "backend process exited without completing the turn") None)) ;!
      emit (outside (EAttentionRequired AttentionFinished))
  end.

(** ** Commands *)

Record ModelDef := { md_id : rstr; md_name : rstr }.

Inductive reply := RUnit | RTurn (turn_id : rstr) | RSteer (r : SteerResult) | RModels (ms : list ModelDef).

Definition outcome := result reply rstr.

Definition CONTROL_TIMEOUT : rstr := str "30s".

(** A command under the next id; its failure is told under [name]. *)
Definition command {A} (name : string) (fields : list (string * json)) (k : result json rstr -> H (task St A)) : H (task St A) :=
  let! n := gets om_next in
  modify (with_next ((n + 1) mod 2 ^ 64)%Z) ;!
  let id := str "d" ++ dec (Z.to_N n) in
  roundtrip id (mk_obj (field "type" (jstr name) :: fields ++ [field "id" (JStr id)])) CONTROL_TIMEOUT (fun r =>
  k (let? v := r in
     if bool_at v "success" then Ok v.["data"]
     else Err (str name ++ str ": " ++ default (str "command failed") (as_str v.["error"])))).

Definition offers_v2 (ready : json) : bool :=
  existsb (fun x => match as_u64 x with Some n => (n =? 2)%Z | None => false end)
    (default [] (as_array ready.["supportedProtocolVersions"])).

(** The file of the session is the resume token; without one the session goes on. *)
Definition record_file (k : H (task St outcome)) : H (task St outcome) :=
  command "get_state" [] (fun r =>
  match r with
  | Ok state =>
      match as_str state.["sessionFile"] with
      | Some f => modify (with_file (Some f)) ;! emit (outside (EThreadStarted f)) ;! k
      | None => k
      end
  | Err _ => k
  end).

(** The handshake of a spawned process, then [k]; [ready] is what waiting for the
    first frame of type [ready] gave. *)
Definition spawn (ready : result json rstr) (k : H (task St outcome)) : H (task St outcome) :=
  if pf_handshakes profile then
    or_fail ready (fun ready =>
      if offers_v2 ready then
        command "negotiate_protocol" [field "protocolVersion" (jint 2)] (fun r =>
        match r with Ok _ => record_file k | Err _ => finish (Err (str "omp protocol negotiation failed")) end)
      else record_file k)
  else record_file k.

Definition model_of (m : json) : option ModelDef :=
  match or_else (as_str m.["id"]) (as_str m.["modelId"]) with
  | None => None
  | Some id => Some {| md_id := text_at m "provider" ++ str "/" ++ id; md_name := default id (as_str m.["name"]) |}
  end.

Definition models_of (v : json) : list ModelDef := default [] (omap (M:=list) model_of <$> as_array v.["models"]).

Definition catalog_models (k : result (list ModelDef) rstr -> H (task St outcome)) : H (task St outcome) :=
  command "get_available_models" [] (fun r => k (let? v := r in Ok (models_of v))).

(** The id of the turn is the agent's to give: empty when it has not begun yet. *)
Definition start_turn (prompt : PromptInput) : H (task St outcome) :=
  command "prompt" [field "message" (JStr (prompt_text prompt))] (fun r =>
  or_fail r (fun _ => let! turn := gets om_turn in finish (Ok (RTurn (default [] turn))))).

Definition steer (prompt : PromptInput) : H (task St outcome) :=
  match prompt with
  | PBlocks _ => finish (Err (str "steer supports text only"))
  | PText t => command "steer" [field "message" (JStr t)] (fun r => or_fail r (fun _ => finish (Ok (RSteer Accepted))))
  end.

Definition interrupt : H (task St outcome) := command "abort" [] (fun r => or_fail r (fun _ => finish (Ok RUnit))).

Definition respond_to_permission (request_id : rstr) (response : PermissionResponse) : H (task St outcome) :=
  let! asks := gets om_asks in
  match asks !! request_id with
  | None => finish (Err (str "no pending permission " ++ request_id))
  | Some ask =>
      modify (with_asks (delete request_id asks)) ;!
      let! sent := send (dialog_answer ask response) in
      match sent with
      | Err e => finish (Err e)
      | Ok _ => emit (outside (EPermissionResolved request_id)) ;! finish (Ok RUnit)
      end
  end.

(** [provider/model]; a model without provider has an empty one. *)
Definition set_model (model : rstr) : H (task St outcome) :=
  let '(provider, model_id) := default ([], model) (split_once 47%N model) in
  command "set_model" [field "provider" (JStr provider); field "modelId" (JStr model_id)] (fun r =>
  or_fail r (fun _ => emit (outside (EModelChanged model)) ;! finish (Ok RUnit))).

Definition switch_session (path : rstr) : H (task St outcome) :=
  command "switch_session" [field "sessionPath" (JStr path)] (fun r => or_fail r (fun _ => finish (Ok RUnit))).

(** The calls of clients; the first three on a process just spawned. *)
Inductive call :=
| Create (ready : result json rstr)
| Resume (ready : result json rstr) (handle : rstr)
| Catalog (ready : result json rstr)
| StartTurn (prompt : PromptInput)
| Steer (prompt : PromptInput)
| Interrupt
| Respond (request_id : rstr) (response : PermissionResponse)
| SetModel (model : rstr).

Definition run_call (c : call) : H (task St outcome) :=
  match c with
  | Create ready => spawn ready (finish (Ok RUnit))
  | Resume ready handle => spawn ready (switch_session handle)
  | Catalog ready =>
      spawn ready (catalog_models (fun ms => finish (Ok (RModels match ms with Ok ms => ms | Err _ => [] end))))
  | StartTurn prompt => start_turn prompt
  | Steer prompt => steer prompt
  | Interrupt => interrupt
  | Respond id response => respond_to_permission id response
  | SetModel model => set_model model
  end.

Definition backend : Backend St call outcome := {| b_call := run_call; b_frame := on_frame; b_exit := on_exit |}.

Definition run (ops : list (op (call:=call))) : live St call outcome := run_live backend fresh_session ops.

Definition persistence_handle (s : St) : option rstr := om_file s.
End Session.
