(* ===== verification/OmpChunks.v ===== *)
(** * OmpChunks: frames that come in chunks

    Chunks are proved to carry frames: a frame cut into parts has the effect of the
    frame, in whatever order its chunks come; and frames nested in chunks end. *)

From S2P Require Import Prelude Str Json SessionStore Memory Turn Events Handler AgentLog Transport Requests AgentCli Omp.

Open Scope session_scope.

(** ** Weights of maps *)

Section Weigh.
Context {K A : Type} `{Countable K} (w : A -> nat).
Implicit Types m : gmap K A.

Lemma weigh_new m k x : m !! k = None -> weigh w (<[k := x]> m) = w x + weigh w m.
Proof. intros Hk. unfold weigh. by rewrite map_to_list_insert. Qed.

Lemma weigh_delete m k x : m !! k = Some x -> w x + weigh w (delete k m) = weigh w m.
Proof. intros Hk. unfold weigh. by rewrite <-(map_to_list_delete m k x Hk). Qed.

Lemma weigh_delete_le m k : weigh w (delete k m) <= weigh w m.
Proof.
  destruct (m !! k) as [x|] eqn:E; [rewrite <-(weigh_delete m k x E); lia|]. by rewrite delete_id.
Qed.

Lemma weigh_insert_le m k x : weigh w (<[k := x]> m) <= w x + weigh w m.
Proof.
  rewrite <-insert_delete_eq, weigh_new by apply lookup_delete_eq. pose proof (weigh_delete_le m k). lia.
Qed.

(** What distinct keys hold is no more than the map. *)
Lemma weigh_some m ks : NoDup ks -> sum_list_with w (omap (fun k => m !! k) ks) <= weigh w m.
Proof.
  revert m. induction ks as [|k ks IH]; intros m; [cbn; lia|]. intros [Hk Hnd]%NoDup_cons. cbn [omap list_omap].
  destruct (m !! k) as [x|] eqn:E; [|by apply IH]. cbn. rewrite <-(weigh_delete m k x E). specialize (IH (delete k m) Hnd).
  assert (omap (fun j => delete k m !! j) ks = omap (fun j => m !! j) ks) as E2; [|rewrite E2 in IH; lia].
  clear -Hk. induction ks as [|j ks IH]; [done|]. apply not_elem_of_cons in Hk as [Hne Hk]. cbn. by rewrite lookup_delete_ne, IH.
Qed.
End Weigh.

Lemma length_concat {A} (l : list (list A)) : length (concat l) = sum_list_with length l.
Proof. induction l as [|x l IH]; [done|]. cbn. by rewrite length_app, IH. Qed.

Lemma nths_all {A} (l : list A) d : map (fun i => nth i l d) (seq 0 (length l)) = l.
Proof.
  induction l as [|x l IH]; [done|]. cbn [length seq map nth]. by rewrite <-seq_shift, map_map, IH.
Qed.

(** ** Taking chunks in *)

Lemma joined_held buf : length (joined buf) <= buf_bytes buf.
Proof.
  unfold joined, buf_bytes. rewrite length_concat.
  assert (omap (fun i => cb_parts buf !! Z.of_nat i) (seq 0 (Z.to_nat (cb_count buf))) =
          omap (fun k => cb_parts buf !! k) (map Z.of_nat (seq 0 (Z.to_nat (cb_count buf))))) as ->.
  { generalize (seq 0 (Z.to_nat (cb_count buf))). intros l. induction l as [|i l IH]; [done|]. cbn. by rewrite IH. }
  apply weigh_some. apply NoDup_fmap; [intros a b; lia|apply NoDup_seq].
Qed.

(** Bytes go from a chunk and the buffers to the buffers and the frame. *)
Lemma take_in_held c chunks chunks' bytes : take_in c chunks = (chunks', bytes) ->
  held chunks' + length (default [] bytes) <= held chunks + length (ck_data c).
Proof.
  unfold take_in, held. set (buf := default _ _). cbv zeta.
  assert (weigh buf_bytes (delete (ck_id c) chunks) + buf_bytes buf <= weigh buf_bytes chunks) as Hbuf.
  { subst buf. destruct (chunks !! ck_id c) as [b|] eqn:E; cbn [from_option id].
    - pose proof (weigh_delete buf_bytes chunks _ _ E). lia.
    - rewrite delete_id by done. change (buf_bytes _) with 0. lia. }
  destruct (cb_count buf <=? ck_index c)%Z; [intros [= <- <-]; cbn [from_option id length]; lia|].
  set (buf' := Build_ChunkBuf _ _ _).
  assert (buf_bytes buf' <= length (ck_data c) + buf_bytes buf) as Hins by apply weigh_insert_le.
  pose proof (joined_held buf' : _ <= buf_bytes buf') as Hj.
  destruct (_ <? _)%Z; intros [= <- <-]; cbn [from_option id length].
  - rewrite <-insert_delete_eq. pose proof (weigh_insert_le buf_bytes (delete (ck_id c) chunks) (ck_id c) buf'). lia.
  - destruct (_ =? _)%Z; cbn [from_option id length]; lia.
Qed.

(** ** Handling *)

Section Frames.
Context `{JT : JsonText}.
Variables (b64_decode : rstr -> option (list N)) (from_slice : list N -> option json) (profile : PiFamily).

Notation read_chunk := (read_chunk b64_decode).
Notation on_frame_fuel := (on_frame_fuel b64_decode from_slice profile).
Notation on_frame := (on_frame b64_decode from_slice profile).
Notation on_plain_frame := (on_plain_frame profile).

Lemma frame_plain fuel uuid f : is_chunk f = false -> on_frame_fuel fuel uuid f = on_plain_frame uuid f.
Proof. intros Hf. destruct fuel; cbn; by rewrite Hf. Qed.

(** What a chunk does to the state, and the frame it completes. *)
Definition absorbed (f : json) (s : St) : St * option json :=
  match read_chunk f with
  | Some c => let '(chunks, bytes) := take_in c (om_chunks s) in (with_chunks chunks s, bytes ≫= from_slice)
  | None => (s, None)
  end.

Lemma frame_chunk fuel uuid f s : is_chunk f = true ->
  on_frame_fuel (S fuel) uuid f s =
  match absorbed f s with
  | (s', Some v) => on_frame_fuel fuel uuid v s'
  | (s', None) => (s', [], tt)
  end.
Proof.
  intros Hf. cbn [Omp.on_frame_fuel]. rewrite Hf. unfold absorbed, reassemble, bind at 1, gets, modify, ret.
  destruct (read_chunk f) as [c|]; [|done]. unfold bind. destruct (take_in c (om_chunks s)) as [chunks bytes].
  destruct (bytes ≫= from_slice) as [v|]; [|done]. by destruct (on_frame_fuel fuel uuid v (with_chunks chunks s)) as [[s' es] []].
Qed.

(** The text of a frame is longer than what the base64 in it decodes to. *)
Hypothesis shrinks : forall bytes v c, from_slice bytes = Some v -> read_chunk v = Some c -> length (ck_data c) < length bytes.

Lemma absorbed_lighter f s s' v c : is_chunk f = true -> absorbed f s = (s', Some v) -> is_chunk v = true -> read_chunk v = Some c ->
  held (om_chunks s') + chunk_bytes b64_decode v < held (om_chunks s) + chunk_bytes b64_decode f.
Proof.
  intros Hf Ha Hv Hc. unfold absorbed, chunk_bytes in *. rewrite Hf, Hv, Hc. destruct (read_chunk f) as [d|] eqn:Ed; [|done].
  destruct (take_in d (om_chunks s)) as [chunks bytes] eqn:Et. pose proof (take_in_held _ _ _ _ Et) as Hh.
  destruct bytes as [bytes|]; cbn [mbind option_bind] in Ha; [|done]. injection Ha as <- Hb. cbn [om_chunks with_chunks from_option id] in *.
  specialize (shrinks _ _ _ Hb Hc). lia.
Qed.

Lemma frame_unreadable fuel uuid f s : is_chunk f = true -> read_chunk f = None -> on_frame_fuel fuel uuid f s = (s, [], tt).
Proof.
  intros Hf Hc. destruct fuel as [|fuel]; [cbn; by rewrite Hf|]. rewrite frame_chunk by done. unfold absorbed. by rewrite Hc.
Qed.

Lemma fuel_irrelevant fuel1 fuel2 uuid f s :
  held (om_chunks s) + chunk_bytes b64_decode f < fuel1 -> held (om_chunks s) + chunk_bytes b64_decode f < fuel2 ->
  on_frame_fuel fuel1 uuid f s = on_frame_fuel fuel2 uuid f s.
Proof using shrinks.
  remember (held (om_chunks s) + chunk_bytes b64_decode f) as m eqn:Em. revert fuel1 fuel2 f s Em.
  induction (lt_wf m) as [m _ IH]. intros fuel1 fuel2 f s -> H1 H2.
  destruct (is_chunk f) eqn:Hf; [|by rewrite !frame_plain by done].
  destruct fuel1 as [|fuel1], fuel2 as [|fuel2]; [lia..|]. rewrite !frame_chunk by done.
  destruct (absorbed f s) as [s' [v|]] eqn:Ha; [|done]. destruct (is_chunk v) eqn:Hv; [|by rewrite !frame_plain by done].
  destruct (read_chunk v) as [c|] eqn:Hc; [|by rewrite !frame_unreadable by done].
  pose proof (absorbed_lighter f s s' v c Hf Ha Hv Hc). eapply IH; [|done|lia..]. lia.
Qed.

Lemma on_frame_fuelled uuid f s :
  on_frame uuid f s = on_frame_fuel (S (S (held (om_chunks s) + chunk_bytes b64_decode f))) uuid f s.
Proof. unfold Omp.on_frame, bind, gets. by destruct (on_frame_fuel _ uuid f s) as [[s' es] []]. Qed.

(** A chunk is handled by taking it in, and then the frame it completes. *)
Lemma on_chunk uuid f s : is_chunk f = true ->
  on_frame uuid f s = match absorbed f s with (s', Some v) => on_frame uuid v s' | (s', None) => (s', [], tt) end.
Proof using shrinks.
  intros Hf. rewrite on_frame_fuelled, frame_chunk by done. destruct (absorbed f s) as [s' [v|]] eqn:Ha; [|done].
  rewrite on_frame_fuelled. destruct (is_chunk v) eqn:Hv; [|by rewrite !frame_plain by done].
  destruct (read_chunk v) as [c|] eqn:Hc; [|by rewrite !frame_unreadable by done].
  pose proof (absorbed_lighter f s s' v c Hf Ha Hv Hc). apply fuel_irrelevant; lia.
Qed.

(** Frames nested in chunks end: no more fuel than [on_frame] takes is ever
    needed. *)
Theorem chunk_nesting_ends (fuel : nat) (uuid : rstr) (f : json) (s : St) :
  held (om_chunks s) + chunk_bytes b64_decode f < fuel -> on_frame_fuel fuel uuid f s = on_frame uuid f s.
Proof. intros Hf. rewrite on_frame_fuelled. apply fuel_irrelevant; lia. Qed.

(** ** A frame in parts *)

Section Parts.
(** A sequence of parts under an id, as the agent sends it. *)
Variables (b64_encode : list N -> rstr) (id : rstr) (parts : list (list N)).
Hypothesis decode_encode : forall bytes, b64_decode (b64_encode bytes) = Some bytes.

Definition total : nat := length (concat parts).

Definition part_chunk (i : nat) : chunk := {|
  ck_id := id; ck_index := Z.of_nat i; ck_count := Z.of_nat (length parts); ck_byte_length := Z.of_nat total; ck_data := nth i parts [] |}.

Definition part_frame (i : nat) : json := mk_obj
  [field "type" (jstr "rpc_chunk"); field "chunkId" (JStr id); field "index" (jint (Z.of_nat i)); field "count" (jint (Z.of_nat (length parts)));
   field "byteLength" (jint (Z.of_nat total)); field "data" (JStr (b64_encode (nth i parts [])))].

Lemma part_read i : i < length parts -> (Z.of_nat (length parts) < 2 ^ 64)%Z -> (Z.of_nat total < 2 ^ 64)%Z ->
  is_chunk (part_frame i) = true /\ read_chunk (part_frame i) = Some (part_chunk i).
Proof.
  intros Hi Hn Ht. split; [done|]. unfold Omp.read_chunk.
  change ((part_frame i).["chunkId"]) with (JStr id). change ((part_frame i).["index"]) with (jint (Z.of_nat i)).
  change ((part_frame i).["count"]) with (jint (Z.of_nat (length parts))).
  change ((part_frame i).["byteLength"]) with (jint (Z.of_nat total)).
  change ((part_frame i).["data"]) with (JStr (b64_encode (nth i parts []))).
  cbn [as_str as_u64 jint mbind option_bind]. rewrite decode_encode.
  assert (forall k : nat, (Z.of_nat k < 2 ^ 64)%Z -> ((0 <=? Z.of_nat k) && (Z.of_nat k <? 2 ^ 64))%Z = true) as Hb by (intros; lia).
  by rewrite !Hb by lia.
Qed.

(** The parts that came, the last first. *)
Definition gathered (came : list nat) : gmap Z (list N) := foldr (fun i m => <[Z.of_nat i := nth i parts []]> m) ∅ came.

Lemma gathered_lookup came i : gathered came !! Z.of_nat i = if bool_decide (i ∈ came) then Some (nth i parts []) else None.
Proof.
  induction came as [|j came IH]; cbn [gathered foldr]; [by rewrite lookup_empty|]. fold (gathered came).
  destruct (decide (j = i)) as [->|Hne]; [rewrite lookup_insert_eq, bool_decide_true; [done|left]|].
  rewrite lookup_insert_ne by lia. rewrite IH.
  assert (bool_decide (i ∈ came) = bool_decide (i ∈ j :: came)) as ->; [|done].
  apply bool_decide_ext. rewrite elem_of_cons. naive_solver.
Qed.

Lemma gathered_size came : NoDup came -> size (gathered came) = length came.
Proof.
  induction 1 as [|i came Hi Hnd IH]; [done|]. cbn [gathered foldr length]. fold (gathered came).
  rewrite map_size_insert_None; [by rewrite IH|]. by rewrite gathered_lookup, bool_decide_false.
Qed.

Definition buf_of (came : list nat) : ChunkBuf :=
  {| cb_count := Z.of_nat (length parts); cb_byte_length := Z.of_nat total; cb_parts := gathered came |}.

Definition buffered (came : list nat) (chunks : gmap rstr ChunkBuf) : gmap rstr ChunkBuf :=
  match came with [] => chunks | _ => <[id := buf_of came]> chunks end.

Lemma joined_all came : (forall i, i < length parts -> i ∈ came) -> joined (buf_of came) = concat parts.
Proof.
  intros Hall. unfold joined. cbn [cb_count cb_parts buf_of]. rewrite Nat2Z.id. f_equal.
  assert (omap (fun i => gathered came !! Z.of_nat i) (seq 0 (length parts)) = map (fun i => nth i parts []) (seq 0 (length parts))) as ->.
  { assert (forall i, i ∈ seq 0 (length parts) -> i ∈ came) as Hin by (intros i [_ Hi]%elem_of_seq; apply Hall; lia).
    revert Hin. generalize (seq 0 (length parts)). intros l Hin. induction l as [|i l IH]; [done|]. cbn [omap list_omap map].
    rewrite gathered_lookup, bool_decide_true by (apply Hin; left). f_equal. apply IH. intros j Hj. apply Hin. by right. }
  apply nths_all.
Qed.
Lemma take_part chunks came i : chunks !! id = None -> NoDup (i :: came) -> (forall j, j ∈ i :: came -> j < length parts) ->
  take_in (part_chunk i) (buffered came chunks) =
  if S (length came) <? length parts then (buffered (i :: came) chunks, None) else (chunks, Some (concat parts)).
Proof.
  intros Hid Hnd Hlt. unfold take_in. cbn [ck_id ck_count ck_byte_length ck_index ck_data part_chunk].
  assert (default {| cb_count := Z.of_nat (length parts); cb_byte_length := Z.of_nat total; cb_parts := ∅ |} (buffered came chunks !! id)
    = buf_of came) as ->.
  { destruct came as [|j came]; cbn [buffered]; [by rewrite Hid|by rewrite lookup_insert_eq]. }
  cbn [cb_count cb_byte_length cb_parts buf_of]. pose proof (Hlt i ltac:(left)) as Hi.
  assert ((Z.of_nat (length parts) <=? Z.of_nat i)%Z = false) as -> by lia.
  change (<[Z.of_nat i := nth i parts []]> (gathered came)) with (gathered (i :: came)). fold (buf_of (i :: came)).
  rewrite gathered_size by done. cbn [length].
  assert ((Z.of_nat (S (length came)) <? Z.of_nat (length parts))%Z = (S (length came) <? length parts)) as -> by lia.
  destruct (Nat.ltb_spec (S (length came)) (length parts)) as [Hm|Hm].
  - f_equal. destruct came as [|j came]; cbn [buffered]; [done|]. by rewrite insert_insert_eq.
  - assert (forall j, j < length parts -> j ∈ i :: came) as Hall.
    { intros j Hj. assert (i :: came ≡ₚ seq 0 (length parts)) as ->; [|apply elem_of_seq; lia].
      apply submseteq_length_Permutation; [|rewrite length_seq; cbn; lia].
      apply NoDup_submseteq; [done|]. intros k Hk. apply elem_of_seq. specialize (Hlt k Hk). lia. }
    rewrite joined_all by done. unfold total. rewrite Z.eqb_refl. f_equal.
    destruct came as [|j came]; cbn [buffered]; [by rewrite delete_id|by rewrite delete_insert_id].
Qed.

Hypothesis few : (Z.of_nat (length parts) < 2 ^ 64)%Z.
Hypothesis short : (Z.of_nat total < 2 ^ 64)%Z.

Lemma on_part uuid i s : i < length parts ->
  on_frame uuid (part_frame i) s =
  let '(chunks, bytes) := take_in (part_chunk i) (om_chunks s) in
  match bytes ≫= from_slice with
  | Some v => on_frame uuid v (with_chunks chunks s)
  | None => (with_chunks chunks s, [], tt)
  end.
Proof using shrinks decode_encode few short.
  intros Hi. destruct (part_read i Hi few short) as [Hc Hr]. rewrite on_chunk by done. unfold absorbed. rewrite Hr.
  by destruct (take_in _ _) as [chunks bytes].
Qed.

(** The state after some of the parts. *)
Lemma parts_before (xs : list (rstr * nat)) s : om_chunks s !! id = None -> NoDup xs.*2 -> (forall i, i ∈ xs.*2 -> i < length parts) ->
  length xs < length parts ->
  each (fun x => on_frame x.1 (part_frame x.2)) xs s = (with_chunks (buffered (reverse xs.*2) (om_chunks s)) s, [], tt).
Proof using shrinks decode_encode few short.
  intros Hid. induction xs as [|[uuid i] xs IH] using rev_ind; [by destruct s|].
  rewrite fmap_app, length_app. cbn [fmap list_fmap length snd]. intros Hnd Hlt Hlen.
  assert (NoDup (i :: reverse xs.*2)) as Hnd2 by (rewrite <-reverse_snoc, reverse_Permutation; done).
  assert (forall j, j ∈ i :: reverse xs.*2 -> j < length parts) as Hlt2.
  { intros j Hj. apply Hlt. by rewrite <-reverse_Permutation, reverse_snoc. }
  apply NoDup_app in Hnd as (Hnd & _ & _).
  rewrite each_app. unfold bind at 1. rewrite IH by (done || (intros; apply Hlt, elem_of_app; by left) || lia). clear IH.
  cbn [each fst snd]. unfold bind, ret. rewrite on_part by (apply Hlt2; left). cbn [om_chunks with_chunks].
  rewrite take_part by done. rewrite length_reverse, length_fmap.
  assert ((S (length xs) <? length parts) = true) as -> by (apply Nat.ltb_lt; lia).
  cbn [mbind option_bind]. by rewrite reverse_snoc.
Qed.

(** C22: a frame that comes in chunks is the frame: when the parts of its text have
    come, each once and in any order, the session is in the state, and has had the
    effects, as if the frame itself had come in place of the last chunk. *)
Theorem chunked_frame_is_frame (xs : list (rstr * nat)) (uuid : rstr) (i : nat) (v : json) (s : St) :
  om_chunks s !! id = None -> (xs ++ [(uuid, i)]).*2 ≡ₚ seq 0 (length parts) -> from_slice (concat parts) = Some v ->
  each (fun x => on_frame x.1 (part_frame x.2)) (xs ++ [(uuid, i)]) s = on_frame uuid v s.
Proof using shrinks decode_encode few short.
  intros Hid Hperm Hv. rewrite fmap_app in Hperm. cbn [fmap list_fmap snd] in Hperm.
  assert (NoDup (i :: reverse xs.*2)) as Hnd.
  { rewrite <-reverse_snoc, reverse_Permutation, Hperm. apply NoDup_seq. }
  assert (forall j, j ∈ i :: reverse xs.*2 -> j < length parts) as Hlt.
  { intros j. rewrite <-reverse_snoc, reverse_Permutation, Hperm, elem_of_seq. lia. }
  assert (S (length xs) = length parts) as Hlen.
  { pose proof (Permutation_length Hperm) as Hl. rewrite length_app, length_fmap, length_seq in Hl. cbn in Hl. lia. }
  pose proof Hnd as [_ Hnd2]%NoDup_cons. rewrite reverse_Permutation in Hnd2.
  rewrite each_app. unfold bind at 1. rewrite parts_before; [|done|done| |lia].
  2: { intros j Hj. apply Hlt. right. by rewrite reverse_Permutation. }
  cbn [each fst snd]. unfold bind, ret. rewrite on_part by (apply Hlt; left). cbn [om_chunks with_chunks].
  rewrite take_part by done. rewrite length_reverse, length_fmap, Hlen, Nat.ltb_irrefl. cbn [mbind option_bind]. rewrite Hv.
  replace (with_chunks (om_chunks s) (with_chunks _ s)) with s by (by destruct s).
  destruct (on_frame uuid v s) as [[s' es] []]. by rewrite app_nil_r.
Qed.
End Parts.
End Frames.
