(* ===== verification/OmpThms.v ===== *)
(** * OmpThms: what omp and pi sessions guarantee, and what they do not

    No call hangs, a choice comes out as the option it stands for; then runs that
    show where a session falls short, and witnesses. *)

From S2P Require Import Prelude Str Json PlanStore SessionStore Memory Turn Events Handler AgentLog Transport Requests RequestsLive AgentCli Omp OmpChunks.

Open Scope session_scope.

(** ** No call hangs *)

Section Sound.
Context `{JT : JsonText}.
Variables (b64_decode : rstr -> option (list N)) (from_slice : list N -> option json) (profile : PiFamily).

Lemma omp_call_sound c : sound_call (run_call profile c).
Proof.
  destruct c as [ready|ready handle|ready|p|p| |id r|m]; cbn [run_call];
    unfold spawn, record_file, switch_session, catalog_models, start_turn, steer, interrupt, respond_to_permission, command, emit; sounds.
  unfold set_model. destruct (default ([], m) (split_once 47%N m)) as [provider model_id].
  unfold command, emit. sounds.
Qed.

Lemma omp_plain_grows uuid f : obeys growing (on_plain_frame profile uuid f).
Proof.
  unfold on_plain_frame, on_agent_end, on_agent_settled, turn_ends, on_message_update, on_tool_start, on_tool_end, on_ui_request,
    emit_timeline, emit_here, emit. sounds.
Qed.

Lemma omp_fuel_grows fuel uuid f : obeys growing (on_frame_fuel b64_decode from_slice profile fuel uuid f).
Proof.
  revert f. induction fuel as [|fuel IH]; intros f; cbn [on_frame_fuel]; (apply obeys_if; [|apply omp_plain_grows]); [apply obeys_ret|].
  apply obeys_bind; [unfold reassemble; sounds|]. intros [v|]; [apply IH|apply obeys_ret].
Qed.

Lemma omp_frame_grows uuid f : obeys growing (on_frame b64_decode from_slice profile uuid f).
Proof. unfold on_frame. apply obeys_bind; [apply obeys_gets|]. intros chunks. apply omp_fuel_grows. Qed.

Lemma omp_exit_grows : obeys growing on_exit.
Proof. unfold on_exit, emit. sounds. Qed.

(** No call hangs on a dead agent: with its pipe closed, every call made at any
    time is done when its time is up, and with the agent [gone] as soon as it is woken. *)
Theorem omp_calls_end (ops : list op) (n : nat) :
  let l := run b64_decode from_slice profile ops in
  n < lv_calls l ->
  (PipeCloses ∈ ops -> exists r, lv_tasks (live_step (backend b64_decode from_slice profile) l (Expire n)) !! n = Some (Done r)) /\
  (gone ops -> exists r, lv_tasks (live_step (backend b64_decode from_slice profile) l (Wake n)) !! n = Some (Done r)).
Proof.
  apply calls_end; [apply omp_call_sound|apply omp_frame_grows|apply omp_exit_grows|]. apply (run_wires_ok []).
Qed.
End Sound.

(** ** Choices *)

(** The choice of an option of a [select] dialog reaches the agent as the
    text of that option: answering the ask with the id of its action sends the
    option's text under the dialog's id, for each of its options. *)
Theorem chosen_option_is_sent (uuid : rstr) (f : json) (options : list json) (i : nat) (o : json) (s : St) :
  text_at f "method" = str "select" -> as_array f.["options"] = Some options -> options !! i = Some o ->
  (Z.of_nat (length options) < 2 ^ 64)%Z ->
  let '(s', _, _) := on_ui_request uuid f s in
  exists ask action, om_asks s' !! uuid = Some ask /\ pr_actions (pa_request ask) !! i = Some action /\
    dialog_answer ask (Allow (Some (pa_id action)) None None None) =
    mk_obj [field "type" (jstr "extension_ui_response"); field "id" (JStr (text_at f "id")); field "value" (JStr (default [] (as_str o)))].
Proof.
  intros Hm Ho Hi Hlen. unfold on_ui_request, dialog. rewrite Hm, Ho.
  change (str_eqb (str "select") (str "confirm")) with false. change (str_eqb (str "select") (str "select")) with true. cbn iota.
  cbn. eexists _, (option_action i o). split; [apply lookup_insert_eq|]. cbn [pr_actions pa_request from_option id].
  split; [by rewrite list_lookup_imap, Hi|].
  unfold dialog_answer. cbn [pa_id option_action]. pose proof (lookup_lt_Some _ _ _ Hi) as Hlt.
  assert (strip_prefix (str "opt") (str "opt" ++ dec (N.of_nat i)) ≫= parse_u64 = Some (Z.of_nat i)) as Hidx.
  { rewrite strip_prefix_app. transitivity (parse_u64 (dec (N.of_nat i))); [done|]. rewrite parse_dec by lia. by rewrite nat_N_Z. }
  match goal with |- match ?x with Some _ => _ | None => _ end = _ => replace x with (Some (Z.of_nat i)) by (symmetry; exact Hidx) end.
  rewrite Nat2Z.id. cbn [pr_actions pa_request pa_ui]. by rewrite list_lookup_imap, Hi.
Qed.

(** ** Runs *)

Definition omp_text : JsonText := {| to_string := fun _ => str "{}"; to_string_pretty := fun _ => str "{}"; from_str := fun _ => None |}.
#[local] Existing Instance omp_text.

(** Parts carry bytes as they are; the text of a frame is a byte 1. *)
Definition demo_start : json := mk_obj [field "type" (jstr "agent_start")].
Definition demo_parse (bytes : list N) : option json := if decide (bytes = [1%N; 2%N]) then Some demo_start else None.

Notation demo_run := (run (fun x => Some x) demo_parse).

Definition frame (uuid : string) (f : json) : op (call:=call) := Frame (str uuid) f.
Definition plain (uuid type : string) : op (call:=call) := frame uuid (mk_obj [field "type" (jstr type)]).
Definition answer_to (id : string) (data : json) : op (call:=call) :=
  frame "" (mk_obj [field "type" (jstr "response"); field "id" (jstr id); field "success" (JBool true); field "data" data]).
Definition state_file (id path : string) : op (call:=call) := answer_to id (mk_obj [field "sessionFile" (jstr path)]).

Definition effects (l : live St call outcome) : list effect := omap (fun x => match x with Did e => Some e | _ => None end) (lv_log l).
Definition sent (l : live St call outcome) : list json := omap (fun e => match e with Sent f => Some f | _ => None end) (effects l).
Definition answer (l : live St call outcome) (n : nat) : option outcome :=
  match lv_tasks l !! n with Some (Done r) => Some r | _ => None end.

(** A pi session on its file. *)
Definition begun : list (op (call:=call)) := [Call (Create (Ok (mk_obj []))); state_file "d1" "/s/new.jsonl"; Wake 0].
Definition prompt : op (call:=call) := Call (StartTurn (PText (str "hi"))).
Definition prompted : list (op (call:=call)) := [prompt; answer_to "d2" (mk_obj []); Wake 1].
Definition input_ask : op (call:=call) :=
  frame "a1" (mk_obj [field "type" (jstr "extension_ui_request"); field "id" (jstr "x1"); field "method" (jstr "input")]).
Definition agent_end (terminal : bool) : op (call:=call) :=
  frame "" (mk_obj [field "type" (jstr "agent_end"); field "isTerminal" (JBool terminal)]).

(** What is typed into an [input] dialog is not sent: the agent is told that the
    dialog was confirmed. *)
Theorem typed_answer_dropped (typed : rstr) :
  last (sent (demo_run OMP [input_ask; Call (Respond (str "a1") (Allow None None (Some typed) None))])) =
  Some (ui_response (str "x1") "confirmed" (JBool true)).
Proof. reflexivity. Qed.

(** A resumed session is stored under the file its process began with, and not
    under the one it was switched to. *)
Theorem resumed_handle_is_new_file :
  let l := demo_run PI [Call (Resume (Ok (mk_obj [])) (str "/s/old.jsonl")); state_file "d1" "/s/new.jsonl"; Wake 0;
                        answer_to "d2" (mk_obj []); Wake 0] in
  answer l 0 = Some (Ok RUnit) /\ persistence_handle (lv_state l) = Some (str "/s/new.jsonl").
Proof. vm_compute. done. Qed.

(** A run that ends for good and then settles completes twice, the second time
    without a turn. *)
Theorem settled_turn_completes_twice :
  boundaries (effects (demo_run PI (begun ++ [plain "t1" "agent_start"; agent_end true; plain "" "agent_settled"]))) = [Some (str "t1"); None].
Proof. vm_compute. reflexivity. Qed.

(** A retry after a provisional end goes on under an id of its own: the turn the
    client knows never ends. *)
Theorem retried_turn_renamed :
  let l := demo_run PI (begun ++ [plain "t1" "agent_start"] ++ prompted ++ [agent_end false; plain "t2" "agent_start"; plain "" "agent_settled"]) in
  answer l 1 = Some (Ok (RTurn (str "t1"))) /\ boundaries (effects l) = [Some (str "t2")].
Proof. vm_compute. done. Qed.

(** A prompt acknowledged before the run begins gives the client an empty turn
    id. *)
Theorem early_prompt_has_no_turn :
  answer (demo_run PI (begun ++ prompted ++ [plain "t1" "agent_start"])) 1 = Some (Ok (RTurn [])).
Proof. vm_compute. reflexivity. Qed.

(** ** Witnesses *)

Definition demo_part : nat -> json := part_frame (fun x => x) (str "c1") [[1%N]; [2%N]].

Lemma chunked_frame_is_frame_witness :
  let '(s, es, _) := each (fun x => on_frame (fun x => Some x) demo_parse OMP x.1 (demo_part x.2)) [([], 1); (str "t1", 0)] fresh_session in
  om_turn s = Some (str "t1") /\ om_chunks s = ∅ /\ emitted es = [in_turn (str "t1") ETurnStarted].
Proof.
  unfold demo_part.
  rewrite (chunked_frame_is_frame (fun x => Some x) demo_parse OMP) with (xs := [([], 1)]) (uuid := str "t1") (i := 0) (v := demo_start).
  - vm_compute. done.
  - intros bytes v c Hp Hr. unfold demo_parse in Hp. destruct (decide _); [|done]. injection Hp as <-. vm_compute in Hr. discriminate Hr.
  - done.
  - done.
  - done.
  - done.
  - vm_compute. apply Permutation_swap.
  - vm_compute. reflexivity.
Defined.

Definition demo_select : json :=
  mk_obj [field "type" (jstr "extension_ui_request"); field "id" (jstr "x1"); field "method" (jstr "select");
          field "options" (JArr [jstr "red"; jstr "blue"])].

Lemma chosen_option_is_sent_witness :
  exists ask action, om_asks (on_ui_request (str "a1") demo_select fresh_session).1.1 !! str "a1" = Some ask /\
    pr_actions (pa_request ask) !! 1 = Some action /\
    dialog_answer ask (Allow (Some (pa_id action)) None None None) = ui_response (str "x1") "value" (jstr "blue").
Proof.
  pose proof (chosen_option_is_sent (str "a1") demo_select [jstr "red"; jstr "blue"] 1 (jstr "blue") fresh_session) as H.
  destruct (on_ui_request (str "a1") demo_select fresh_session) as [[s' es] []] eqn:E. cbn [fst]. apply H; vm_compute; reflexivity.
Defined.
