(* ===== verification/SkillText.v ===== *)
(** * SkillText: names, paths and front matter of skills
    ([skills_hub/fsutil.rs], [fetch.rs], [scan.rs], [lifecycle.rs])

    What a client or a repository may call a skill, a file or a repository, the
    URLs they are fetched from, and the two fields read from a skill's front
    matter. *)

From S2P Require Import Prelude Str Json Events.

Definition c_slash : rchar := 47%N.
Definition c_backslash : rchar := 92%N.
Definition c_colon : rchar := 58%N.
Definition c_dot : rchar := 46%N.

Definition has_char (c : rchar) (s : rstr) : bool := existsb (N.eqb c) s.

(** ** Names *)

Definition sanitize_path_segment (s : rstr) : option rstr :=
  if is_empty s || str_eqb s (str ".") || str_eqb s (str "..") || has_char c_slash s || has_char c_backslash s || has_char 0%N s
  then None else Some s.

(** [s.replace('\\', "/")] *)
Definition fold_backslashes (s : rstr) : rstr := map (fun c => if N.eqb c c_backslash then c_slash else c) s.

(** [C:...] *)
Definition drive_prefixed (s : rstr) : bool :=
  match s with c1 :: c2 :: _ => N.eqb c2 c_colon && is_ascii_alphabetic c1 | _ => false end.

(** The loop over the segments, with the text built so far. *)
Fixpoint join_segments (bad : rstr -> bool) (segs : list rstr) (out : rstr) : option rstr :=
  match segs with
  | [] => Some out
  | seg :: segs =>
      if is_empty seg then join_segments bad segs out
      else if bad seg then None
      else match sanitize_path_segment seg with
           | None => None
           | Some seg => join_segments bad segs ((if is_empty out then out else out ++ [c_slash]) ++ seg)
           end
  end.

Definition sanitize_relative_path (s : rstr) : option rstr :=
  let s := fold_backslashes s in
  if is_empty s || has_char 0%N s then None
  else if starts_with (str "/") s then None
  else if drive_prefixed s then None
  else join_segments (has_char c_colon) (split_on (N.eqb c_slash) s) [].

Definition sanitize_local_skill_path (s : rstr) : option rstr :=
  let s := fold_backslashes s in
  if is_empty s || has_char 0%N s then None
  else join_segments (starts_with (str ".")) (split_on (N.eqb c_slash) s) [].

(** [rsplit('/').next()] *)
Definition leaf (s : rstr) : rstr := default [] (last (split_on (N.eqb c_slash) s)).

Definition install_name_from_directory (dir : rstr) : option rstr :=
  match sanitize_relative_path dir with
  | None => None
  | Some rel => match sanitize_path_segment (leaf rel) with
                | Some s => if is_empty s then None else Some s
                | None => None
                end
  end.

(** *** What the names are safe from *)

(** A name that is one component of a path, and not a step up. *)
Definition plain_segment (s : rstr) : Prop :=
  s <> [] /\ s <> str "." /\ s <> str ".." /\ c_slash ∉ s /\ c_backslash ∉ s /\ 0%N ∉ s.

Lemma has_char_spec c s : has_char c s = true <-> c ∈ s.
Proof.
  unfold has_char. rewrite existsb_exists. split.
  - intros (x & Hx & ->%N.eqb_eq). by apply list_elem_of_In.
  - intros H. exists c. split; [by apply list_elem_of_In|]. apply N.eqb_refl.
Qed.

Lemma sanitize_path_segment_spec s t : sanitize_path_segment s = Some t <-> t = s /\ plain_segment s.
Proof.
  unfold sanitize_path_segment, plain_segment.
  destruct (is_empty s) eqn:E1; [split; [done|intros (_ & H & _); by apply is_empty_nil in E1]|].
  assert (s <> []) by (intros ->; done). cbn [orb].
  destruct (str_eqb s (str ".")) eqn:E2; [apply str_eqb_eq in E2; naive_solver|apply str_eqb_neq in E2].
  destruct (str_eqb s (str "..")) eqn:E3; [apply str_eqb_eq in E3; naive_solver|apply str_eqb_neq in E3]. cbn [orb].
  destruct (has_char c_slash s) eqn:E4; [apply has_char_spec in E4; naive_solver|].
  destruct (has_char c_backslash s) eqn:E5; [apply has_char_spec in E5; naive_solver|].
  destruct (has_char 0%N s) eqn:E6; [apply has_char_spec in E6; naive_solver|]. cbn [orb].
  rewrite <-not_true_iff_false, has_char_spec in E4, E5, E6. naive_solver.
Qed.

Lemma join_segments_spec bad segs out r : join_segments bad segs out = Some r ->
  let kept := List.filter (fun s => negb (is_empty s)) segs in
  Forall plain_segment kept /\ Forall (fun s => bad s = false) kept /\
  r = join [c_slash] (List.filter (fun s => negb (is_empty s)) (out :: kept)).
Proof.
  revert out. induction segs as [|seg segs IH]; intros out; cbn [join_segments List.filter].
  { intros [= <-]. split; [done|]. split; [done|]. by destruct out. }
  destruct (is_empty seg) eqn:Es; [apply IH|]. cbn [negb]. destruct (bad seg) eqn:Eb; [done|].
  destruct (sanitize_path_segment seg) as [t|] eqn:Et; [|done]. apply sanitize_path_segment_spec in Et as [-> Hp].
  intros H%IH. destruct H as (H1 & H2 & ->). split; [by constructor|]. split; [by constructor|].
  destruct out as [|c out]; cbn [is_empty app List.filter negb]; rewrite Es; cbn [negb]; [done|]. rewrite join_cons2.
  destruct (List.filter _ (List.filter _ segs)) as [|k ks]; cbn; by rewrite <-!app_assoc.
Qed.

Lemma filter_nonempty_plain segs : Forall plain_segment segs -> List.filter (fun s => negb (is_empty s)) segs = segs.
Proof.
  induction 1 as [|s segs (Hs & _) _ IH]; [done|]. cbn. destruct s as [|c s]; [done|]. cbn. by rewrite IH.
Qed.

Lemma split_join_plain segs : Forall plain_segment segs -> segs <> [] -> split_on (N.eqb c_slash) (join [c_slash] segs) = segs.
Proof.
  intros Hs Hne. apply split_on_join; [by apply N.eqb_refl|done|]. eapply Forall_impl; [exact Hs|].
  intros w (_ & _ & _ & Hw & _) x Hx. apply N.eqb_neq. by intros <-.
Qed.

Lemma in_join (c : rchar) segs : c ∈ join [c_slash] segs -> c = c_slash \/ exists w, w ∈ segs /\ c ∈ w.
Proof.
  induction segs as [|w [|w' segs] IH]; [by intros ?%not_elem_of_nil| |].
  - intros H. right. exists w. split; [by left|done].
  - rewrite join_cons2. intros [H|[H|H]%elem_of_app]%elem_of_app.
    + right. exists w. split; [by left|done].
    + apply list_elem_of_singleton in H. by left.
    + destruct (IH H) as [|(x & Hx & Hc)]; [by left|]. right. exists x. split; [by right|done].
Qed.

Lemma fold_backslashes_id s : c_backslash ∉ s -> fold_backslashes s = s.
Proof.
  unfold fold_backslashes. induction s as [|c s IH]; [done|]. intros [Hc Hs]%not_elem_of_cons. cbn [map]. rewrite IH by done.
  destruct (N.eqb_spec c c_backslash) as [->|]; done.
Qed.

Lemma join_segments_plain bad segs out : Forall plain_segment segs -> Forall (fun s => bad s = false) segs ->
  join_segments bad segs out = Some (join [c_slash] (List.filter (fun s => negb (is_empty s)) (out :: segs))).
Proof.
  intros Hp. revert out. induction Hp as [|seg segs Hseg Hp IH]; intros out Hb; [by destruct out|]. inversion_clear Hb as [|? ? Hbad Hb'].
  cbn [join_segments]. assert (is_empty seg = false) as Es by (destruct Hseg as (? & _); by destruct seg). rewrite Es, Hbad.
  assert (sanitize_path_segment seg = Some seg) as -> by (by apply sanitize_path_segment_spec). rewrite IH by done.
  cbn [List.filter]. rewrite Es. cbn [negb].
  destruct out as [|c out]; cbn [is_empty app List.filter negb]; rewrite ?Es; cbn [negb]; [done|].
  rewrite join_cons2. destruct (List.filter _ segs) as [|k ks]; cbn; by rewrite <-!app_assoc.
Qed.

(** The segments of a path that does not start with a slash. *)
Lemma segments_nonempty s : s <> [] -> starts_with (str "/") s = false ->
  List.filter (fun s => negb (is_empty s)) (split_on (N.eqb c_slash) s) <> [].
Proof.
  destruct s as [|c s]; [done|]. intros _ Hc.
  assert ((47 =? c)%N = false) as E.
  { apply not_true_iff_false. intros <-%N.eqb_eq. rewrite <-not_true_iff_false in Hc. apply Hc, starts_with_spec. by exists s. }
  cbn [split_on]. unfold c_slash. rewrite E. destruct (split_on _ s) as [|w ws]; done.
Qed.

(** What the sanitizer of relative paths lets through: a path of one or more
    plain names joined by slashes, so neither absolute nor able to step up, leave
    its root through a drive or a stream, or hide a terminator; and it is a fixed
    point of the sanitizer. *)
Theorem sanitized_paths_stay (s r : rstr) : sanitize_relative_path s = Some r ->
  exists segs, segs <> [] /\ r = join [c_slash] segs /\ split_on (N.eqb c_slash) r = segs /\ Forall plain_segment segs /\
    c_colon ∉ r /\ sanitize_relative_path r = Some r.
Proof.
  unfold sanitize_relative_path. set (t := fold_backslashes s).
  destruct (is_empty t || has_char 0%N t) eqn:E0; [done|]. apply orb_false_elim in E0 as [Ee _].
  destruct (starts_with (str "/") t) eqn:E1; [done|]. destruct (drive_prefixed t); [done|].
  intros H%join_segments_spec. set (segs := List.filter _ _) in H. destruct H as (Hp & Hb & ->).
  cbn [List.filter is_empty negb]. rewrite filter_nonempty_plain by done. exists segs.
  assert (segs <> []) as Hne by (apply segments_nonempty; [by destruct t|done]).
  pose proof (split_join_plain segs Hp Hne) as Hsplit.
  assert (forall c, c ∈ join [c_slash] segs -> c <> c_backslash /\ c <> 0%N /\ c <> c_colon) as Hc.
  { intros c [->|(w & Hw & Hcw)]%in_join; [by split_and!|]. rewrite Forall_forall in Hp, Hb. apply Hp in Hw as Hpw.
    destruct Hpw as (_ & _ & _ & _ & Hbs & Hz). split; [intros ->; by apply Hbs|]. split; [intros ->; by apply Hz|]. intros ->.
    apply Hb in Hw. apply has_char_spec in Hcw. congruence. }
  assert (exists c r, join [c_slash] segs = c :: r /\ c <> c_slash) as (c & r & Ej & Hslash).
  { destruct segs as [|w segs]; [done|]. inversion_clear Hp as [|? ? (Hw & _ & _ & Hs & _) _]. destruct w as [|c w]; [done|].
    exists c. destruct segs; [exists w|rewrite join_cons2; eexists; split; [reflexivity|]]; [split; [done|]|]; intros ->; apply Hs; by left. }
  split; [done|]. split; [done|]. split; [done|]. split; [done|]. split; [by intros (_ & _ & ?)%Hc|].
  rewrite fold_backslashes_id by (by intros (? & _)%Hc). rewrite Hsplit.
  assert (has_char 0%N (join [c_slash] segs) = false) as -> by (apply not_true_iff_false; rewrite has_char_spec; by intros (_ & ? & _)%Hc).
  assert (is_empty (join [c_slash] segs) = false) as -> by (by rewrite Ej).
  assert (starts_with (str "/") (join [c_slash] segs) = false) as ->.
  { apply not_true_iff_false. intros (x & Hx)%starts_with_spec. rewrite Ej in Hx. by injection Hx as ->. }
  assert (drive_prefixed (join [c_slash] segs) = false) as ->.
  { destruct (join [c_slash] segs) as [|c1 [|c2 l]]; [done..|]. cbn. apply andb_false_iff. left. apply N.eqb_neq.
    intros ->. destruct (Hc c_colon) as (_ & _ & ?); [right; by left|done]. }
  cbn [orb]. rewrite join_segments_plain by done. cbn [List.filter is_empty negb]. by rewrite filter_nonempty_plain.
Qed.

Lemma install_name_plain dir n : install_name_from_directory dir = Some n -> plain_segment n.
Proof.
  unfold install_name_from_directory. destruct (sanitize_relative_path dir) as [rel|]; [|done].
  destruct (sanitize_path_segment (leaf rel)) as [s|] eqn:E; [|done]. apply sanitize_path_segment_spec in E as [-> Hp].
  destruct (is_empty (leaf rel)); [done|]. by intros [= <-].
Qed.

(** ** Repositories *)

Inductive HubCode := InvalidInput | HubNotFound | Conflict | Readonly | Permission | Network | Http | RateLimited | Internal.

Record HubError := { he_code : HubCode; he_message : rstr }.

Definition hub_error (code : HubCode) (message : rstr) : HubError := {| he_code := code; he_message := message |}.

Record RepoEntry := { re_owner : rstr; re_name : rstr; re_branch : rstr; re_enabled : bool }.

Definition slug (r : RepoEntry) : rstr := re_owner r ++ [c_slash] ++ re_name r.

(** The rule for a component of a repository's coordinates. *)
Definition valid_component (s : rstr) : bool :=
  match s with c :: _ => is_ascii_alphanumeric c | [] => false end && (utf8_len s <=? 100) &&
  forallb (fun c => is_ascii_alphanumeric c || existsb (N.eqb c) (str "._-")) s.

Definition validated (r : RepoEntry) : result RepoEntry HubError :=
  if negb (valid_component (re_owner r)) || negb (valid_component (re_name r)) || negb (valid_component (re_branch r))
  then Err (hub_error InvalidInput (str "invalid repo coordinates " ++ slug r ++ str "@" ++ re_branch r))
  else Ok r.

Definition parse_repo_spec (spec : rstr) : result RepoEntry HubError :=
  let '(slug, branch) := default (spec, str "main") (split_once 64%N spec) in
  match split_once c_slash slug with
  | None => Err (hub_error InvalidInput (str "repo spec must be owner/name[@branch]"))
  | Some (owner, name) => validated {| re_owner := owner; re_name := name; re_branch := branch; re_enabled := true |}
  end.

(** Registered repositories and the configured ones they do not have yet. *)
Definition effective_repos (repos extras : list RepoEntry) : list RepoEntry :=
  fold_left (fun out extra => if existsb (fun r => eq_ignore_ascii_case (slug r) (slug extra)) out then out else out ++ [extra])
    extras repos.

Lemma split_once_app c a b : c ∉ a -> split_once c (a ++ c :: b) = Some (a, b).
Proof.
  intros Ha. unfold split_once, find_char. rewrite find_index_app; [|intros x Hx; apply N.eqb_neq; by intros ->|by apply N.eqb_eq].
  rewrite take_app_length. f_equal. f_equal. by rewrite <-(Nat.add_1_r (length a)), <-drop_drop, drop_app_length.
Qed.

Lemma valid_component_char s c : valid_component s = true -> c ∈ s -> c <> 64%N /\ c <> c_slash.
Proof.
  unfold valid_component. intros H Hc. apply andb_true_iff in H as [_ H]. rewrite forallb_forall in H.
  apply list_elem_of_In in Hc. apply H in Hc. split; intros ->; by vm_compute in Hc.
Qed.

(** A valid repository is what its spelling in the configuration reads as. *)
Theorem repo_spec_roundtrip (r : RepoEntry) : validated r = Ok r -> re_enabled r = true ->
  parse_repo_spec (slug r ++ str "@" ++ re_branch r) = Ok r.
Proof.
  unfold validated. destruct (valid_component (re_owner r)) eqn:Ho; [|done].
  destruct (valid_component (re_name r)) eqn:Hn; [|done]. destruct (valid_component (re_branch r)) eqn:Hb; [|done].
  intros _ He. pose proof (fun c => valid_component_char _ c Ho) as Hoc. pose proof (fun c => valid_component_char _ c Hn) as Hnc.
  unfold parse_repo_spec, slug. change (str "@") with [64%N]. rewrite <-!app_assoc.
  change ([64%N] ++ re_branch r) with (64%N :: re_branch r). rewrite (app_assoc [c_slash]), (app_assoc (re_owner r)).
  rewrite split_once_app.
  2: { intros [H|[H|H]%elem_of_app]%elem_of_app; [by apply Hoc in H as [? _]| |by apply Hnc in H as [? _]].
    by apply list_elem_of_singleton in H. }
  cbn [default id]. change ([c_slash] ++ re_name r) with (c_slash :: re_name r). rewrite split_once_app by (by intros [_ ?]%Hoc).
  unfold validated. cbn [re_owner re_name re_branch]. rewrite Ho, Hn, Hb. cbn. destruct r; cbn in *. by subst.
Qed.

(** ** Fetching *)

Inductive FetchError := FetchRateLimited (code : N) | FetchHttp (code : N) (url : rstr) | FetchNetwork (e : rstr).

Definition fetch_error (e : FetchError) : HubError :=
  match e with
  | FetchRateLimited code => hub_error RateLimited (str "rate-limited by the remote (HTTP " ++ dec code ++ str "); try again later")
  | FetchHttp code url => hub_error Http (str "HTTP " ++ dec code ++ str " from " ++ url)
  | FetchNetwork e => hub_error Network (str "network error: " ++ e)
  end.

Definition github_tree_url (owner name branch : rstr) : rstr :=
  str "https://api.github.com/repos/" ++ owner ++ str "/" ++ name ++ str "/git/trees/" ++ branch ++ str "?recursive=1".

Definition hex_digit (n : N) : rchar := (if n <? 10 then 48 + n else 55 + n)%N.

Definition unreserved (b : N) : bool := is_ascii_alphanumeric b || existsb (N.eqb b) (str "-_.~").

(** [dir] as a prefix of the paths below it. *)
Definition dir_prefix (dir : rstr) : rstr :=
  if str_eqb dir (str ".") then [] else reverse (trim_start_char c_slash (reverse dir)) ++ [c_slash].

Definition is_blob (e : json) : bool := match e.["type"] with JStr t => str_eqb t (str "blob") | _ => false end.

Definition tree_entries (tree : json) : list json := default [] (as_array tree.["tree"]).

Definition blobs_under (tree : json) (dir : rstr) : list rstr :=
  sort_by str_leb (omap (fun e => if is_blob e then as_str e.["path"] ≫= strip_prefix (dir_prefix dir) else None) (tree_entries tree)).

Section Fetch.
Context `{JT : JsonText}.
Variable utf8 : rstr -> list N.
Variable from_utf8_lossy : list N -> rstr.
Variable sha256_hex : list N -> rstr.

Definition url_encode_segment (seg : rstr) : rstr :=
  flat_map (fun b => if unreserved b then [b] else [37%N; hex_digit (b / 16); hex_digit (b mod 16)])
    (utf8 seg).

Definition raw_url (owner name branch path : rstr) : rstr :=
  str "https://raw.githubusercontent.com/" ++ owner ++ str "/" ++ name ++ str "/" ++ branch ++ str "/" ++
  join [c_slash] (map url_encode_segment (split_on (N.eqb c_slash) path)).

(** What the network gives for a URL. *)
Variable get_bytes : rstr -> result (list N) FetchError.

Definition get_json (url : rstr) : result json FetchError :=
  let? bytes := get_bytes url in
  match from_str (from_utf8_lossy bytes) with Some v => Ok v | None => Err (FetchNetwork (str "bad json from " ++ url)) end.

(** The branches to try. *)
Definition branch_chain (branch : rstr) : list rstr :=
  fold_left (fun chain c => if eq_ignore_ascii_case c (str "head") || existsb (fun d => eq_ignore_ascii_case d c) chain then chain
                            else chain ++ [c]) [branch; str "main"; str "master"] [].

Fixpoint try_branches (owner name : rstr) (chain : list rstr) (last : HubError) : result (json * rstr) HubError :=
  match chain with
  | [] => Err last
  | candidate :: chain =>
      match get_json (github_tree_url owner name candidate) with
      | Ok v =>
          match as_array v.["tree"] with
          | Some _ => Ok (v, candidate)
          | None => try_branches owner name chain
              (hub_error Http (owner ++ str "/" ++ name ++ str "@" ++ candidate ++ str ": tree response has no tree array"))
          end
      | Err e => match e with
                 | FetchRateLimited _ => Err (fetch_error e)
                 | _ => try_branches owner name chain (fetch_error e)
                 end
      end
  end.

Definition fetch_tree_with_fallback (owner name branch : rstr) : result (json * rstr) HubError :=
  try_branches owner name (branch_chain branch) (hub_error HubNotFound (str "no branch found for " ++ owner ++ str "/" ++ name)).

Definition source_signature_from_tree (tree : json) (dir : rstr) : option rstr :=
  let prefix := dir_prefix dir in
  let line e := match (if is_blob e then as_str e.["path"] else None), as_str e.["sha"] with
                | Some p, Some sha => Some (p ++ [c_colon] ++ sha)
                | _, _ => None
                end in
  match as_array tree.["tree"] with
  | None => None
  | Some entries =>
      match List.filter (fun l => starts_with prefix l && (utf8_len prefix <? utf8_len l)) (omap line entries) with
      | [] => None
      | lines => Some (sha256_hex (utf8 (join [c_nl] (sort_by str_leb lines))))
      end
  end.

(** ** Front matter *)

Definition strip_quotes (q : rchar) (s : rstr) : option rstr := strip_prefix [q] s ≫= strip_suffix [q].

(** The value of an inline scalar. *)
Definition inline_value (value : rstr) : rstr := default value (or_else (strip_quotes c_quote value) (strip_quotes 39%N value)).

(** Closing a block scalar. *)
Definition close_block (m : gmap rstr rstr) (pending : option (rstr * list rstr)) : gmap rstr rstr :=
  match pending with
  | Some (key, acc) => if is_empty acc then m else <[key := join (str " ") acc]> m
  | None => m
  end.

(** A line outside a block: the map and the block it opens, or the end. *)
Definition front_matter_line (line : rstr) (m : gmap rstr rstr) : (gmap rstr rstr * option (rstr * list rstr)) + gmap rstr rstr :=
  if str_eqb line (str "---") then inr m
  else if is_empty line || starts_with (str "#") line then inl (m, None)
  else match split_once c_colon line with
       | None => inl (m, None)
       | Some (k, v) =>
           let key := map to_ascii_lowercase (trim k) in
           let value := trim v in
           if starts_with (str "|") value || starts_with (str ">") value then inl (m, Some (key, []))
           else if is_empty value then inl (m, None)
           else let stripped := inline_value value in
                inl (if is_empty stripped then m else <[key := stripped]> m, None)
       end.

Fixpoint front_matter_loop (ls : list rstr) (m : gmap rstr rstr) (pending : option (rstr * list rstr)) : option (gmap rstr rstr) :=
  match ls with
  | [] => None
  | l :: ls =>
      let line := trim_end l in
      let outside_block (m : gmap rstr rstr) :=
        match front_matter_line line m with inr m => Some m | inl (m, pending) => front_matter_loop ls m pending end in
      match pending with
      | Some (key, acc) =>
          if starts_with (str " ") line || starts_with [9%N] line || is_empty line
          then front_matter_loop ls m (Some (key, if is_empty (trim line) then acc else acc ++ [trim line]))
          else outside_block (close_block m pending)
      | None => outside_block m
      end
  end.

Definition parse_frontmatter (text : rstr) : option (gmap rstr rstr) :=
  match lines text with
  | first :: ls => if str_eqb (trim_end first) (str "---") then front_matter_loop ls ∅ None else None
  | [] => None
  end.

Record SkillMeta := { sm_name : rstr; sm_description : option rstr }.

(** At most eight kibibytes are read. *)
Definition HEAD_BYTES : N := (8 * 1024)%N.

Definition read_skill_metadata (bytes : option (list N)) (fallback : rstr) : SkillMeta :=
  match (match bytes with Some b => parse_frontmatter (from_utf8_lossy (take (N.to_nat HEAD_BYTES) b)) | None => None end) with
  | Some m => {| sm_name := match m !! str "name" with Some n => if is_empty (trim n) then fallback else n | None => fallback end;
                 sm_description := m !! str "description" |}
  | None => {| sm_name := fallback; sm_description := None |}
  end.
End Fetch.

Example demo_front_matter :
  (fun m => (m !! str "name", m !! str "description")) <$>
    parse_frontmatter (str "---" ++ [c_nl] ++ str "name: " ++ [c_quote] ++ str "PDF Tools" ++ [c_quote] ++ [c_nl] ++
      str "description: |" ++ [c_nl] ++ str "  Create, edit and" ++ [c_nl] ++ str "  inspect PDFs." ++ [c_nl] ++ str "---" ++ [c_nl] ++ str "body") =
  Some (Some (str "PDF Tools"), Some (str "Create, edit and inspect PDFs.")).
Proof. vm_compute. reflexivity. Qed.

(** A branch is asked for once; the rate limit ends the search. *)
Lemma branch_chain_main : branch_chain (str "main") = [str "main"; str "master"] /\
  branch_chain (str "HEAD") = [str "main"; str "master"].
Proof. split; vm_compute; reflexivity. Qed.

(** A fetched tree came from one of the branches, has entries, and the branches
    before it failed for another reason than the rate limit. *)
Lemma fetch_tree_spec `{JsonText} lossy get owner name branch tree b :
  fetch_tree_with_fallback lossy get owner name branch = Ok (tree, b) ->
  b ∈ branch_chain branch /\ is_Some (as_array tree.["tree"]) /\ get_json lossy get (github_tree_url owner name b) = Ok tree.
Proof.
  unfold fetch_tree_with_fallback. generalize (hub_error HubNotFound (str "no branch found for " ++ owner ++ str "/" ++ name)).
  induction (branch_chain branch) as [|c chain IH]; intros last; cbn [try_branches]; [done|].
  destruct (get_json lossy get (github_tree_url owner name c)) as [v|[]] eqn:E; try done; try (intros (? & ? & ?)%IH; split; [by right|done]).
  destruct (as_array v.["tree"]) eqn:Ea; [|intros (? & ? & ?)%IH; split; [by right|done]].
  intros [= <- <-]. split; [by left|]. split; [by eexists|done].
Qed.
