(* ===== verification/SkillFs.v ===== *)
(** * SkillFs: the file operations of the skills hub ([skills_hub/fsutil.rs], [scan.rs])

    A file system of directories, files with their executable bit and symbolic
    links, on the paths and the resolution of [Jail]; removing, moving, copying
    and linking trees, the guarded place of a skill below a root, and the hash of
    a skill's content.  Locations the hub computes are below directories that
    are themselves no links; a last component may be one. *)

From S2P Require Import Prelude Str Jail SkillText.

Inductive node := NDir | NFile (bytes : list N) (exec : bool) | NLink (absolute : bool) (target : list comp).

Abbreviation tree := (gmap loc node) (only parsing).

(** The same tree without the executable bits. *)
Definition plain_node (n : node) : entry :=
  match n with NDir => Dir | NFile bytes _ => File bytes | NLink absolute target => Link absolute target end.

Definition plain (fs : tree) : fsys := plain_node <$> fs.

Definition lstat (fs : tree) (p : loc) : option node := match p with [] => Some NDir | _ => fs !! p end.

Section Follow.
(** How many links the kernel follows. *)
Variable links : nat.

Definition follow (fs : tree) (p : loc) : option loc := canonicalize (plain fs) links (names p).

(** [Path::is_dir], [is_file] and [exists]. *)
Definition node_at (fs : tree) (p : loc) : option node := follow fs p ≫= lstat fs.
Definition is_dir_at (fs : tree) (p : loc) : bool := match node_at fs p with Some NDir => true | _ => false end.
Definition is_file_at (fs : tree) (p : loc) : bool := match node_at fs p with Some (NFile _ _) => true | _ => false end.
Definition exists_at (fs : tree) (p : loc) : bool := match node_at fs p with Some _ => true | None => false end.
Definition read_at (fs : tree) (p : loc) : option (list N) := match node_at fs p with Some (NFile b _) => Some b | _ => None end.

(** ** Trees *)

(** What is at [p] and below it. *)
Definition inside (p l : loc) : bool := bool_decide (p `prefix_of` l).

(** [remove_path]: a link goes as a link, a directory with what is below it. *)
Definition remove_path (p : loc) (fs : tree) : tree := filter (fun kv => inside p kv.1 = false) fs.

(** The tree at [a], put at [b] of an empty file system. *)
Definition graft (a b : loc) (fs : tree) : tree :=
  list_to_map (omap (fun kv => if inside a kv.1 then Some (b ++ drop (length a) kv.1, kv.2) else None) (map_to_list fs)).

(** [create_dir_all]; [None] when something else is in the way. *)
Definition mkdir_one (fs : tree) (p : loc) : option tree :=
  match lstat fs p with
  | Some NDir => Some fs
  | Some _ => None
  | None => Some (<[p := NDir]> fs)
  end.

Definition mkdir_all (l : loc) (fs : tree) : option tree :=
  fold_left (fun o k => match o with Some fs => mkdir_one fs (take k l) | None => None end) (seq 1 (length l)) (Some fs).

Definition parent (l : loc) : loc := removelast l.

Definition dir_here (fs : tree) (l : loc) : bool := match lstat fs l with Some NDir => true | _ => false end.

(** [rename]; whether the two places can be moved between is the system's. *)
Definition rename (can_rename : loc -> loc -> bool) (a b : loc) (fs : tree) : option tree :=
  match lstat fs a, lstat fs b with
  | Some _, None =>
      if can_rename a b && dir_here fs (parent b) && negb (inside a b) then Some (graft a b fs ∪ remove_path a fs) else None
  | _, _ => None
  end.

Definition symlink (source dest : loc) (fs : tree) : option tree :=
  match lstat fs dest with
  | None => if dir_here fs (parent dest) then Some (<[dest := NLink true (names source)]> fs) else None
  | Some _ => None
  end.

Definition write_file (p : loc) (bytes : list N) (fs : tree) : option tree :=
  match lstat fs p with
  | Some (NFile _ exec) => Some (<[p := NFile bytes exec]> fs)
  | None => if dir_here fs (parent p) then Some (<[p := NFile bytes false]> fs) else None
  | Some _ => None
  end.

(** Files copy as files and links as what they point at. *)
Definition copied (fs : tree) (p : loc) (n : node) : option node :=
  match n with
  | NDir => Some NDir
  | NFile bytes exec => Some (NFile bytes exec)
  | NLink _ _ => match node_at fs p with Some (NFile bytes exec) => Some (NFile bytes exec) | _ => None end
  end.

Definition is_dir_node (n : node) : bool := match n with NDir => true | _ => false end.

(** What is strictly below [p], directories first. *)
Definition below (fs : tree) (p : loc) : list (loc * node) :=
  let l := List.filter (fun kv => inside p kv.1 && negb (bool_decide (kv.1 = p))) (map_to_list fs) in
  List.filter (fun kv => is_dir_node kv.2) l ++ List.filter (fun kv => negb (is_dir_node kv.2)) l.

(** One entry; after a failure nothing more. *)
Definition copy_step (fs : tree) (s dst : loc) (st : tree * bool) (kv : loc * node) : tree * bool :=
  if st.2 then match copied fs kv.1 kv.2 with
               | Some n => (<[dst ++ drop (length s) kv.1 := n]> st.1, true)
               | None => (st.1, false)
               end
  else st.

(** [copy_dir]: the tree so far, and whether all went well. *)
Definition copy_dir (src dst : loc) (fs : tree) : tree * bool :=
  match lstat fs dst with
  | Some (NLink _ _) => (fs, false)
  | _ =>
      match follow fs src with
      | None => (fs, false)
      | Some s =>
          if negb (dir_here fs s) then (fs, false)
          else match mkdir_all dst fs with
               | None => (fs, false)
               | Some fs1 =>
                   fold_left (copy_step fs s dst) (below fs s) (fs1, true)
               end
      end
  end.

(** [assert_not_nested] *)
Definition nested (a b : loc) : bool := negb (bool_decide (a = b)) && (inside a b || inside b a).

(** ** The place of a skill below a root *)

Definition segments (rel : rstr) : loc := split_on (N.eqb c_slash) rel.

(** No link and no file on the way to the last segment. *)
Fixpoint way_clear (fs : tree) (cur : loc) (segs : loc) : bool :=
  match segs with
  | [] | [_] => true
  | seg :: segs =>
      match lstat fs (cur ++ [seg]) with
      | Some NDir | None => way_clear fs (cur ++ [seg]) segs
      | Some _ => false
      end
  end.

Definition target_skill_path (fs : tree) (base : loc) (dir : rstr) : option loc :=
  match sanitize_relative_path dir with
  | None => None
  | Some rel =>
      if match lstat fs base with Some NDir | None => false | Some _ => true end then None
      else if way_clear fs base (segments rel) then Some (base ++ segments rel) else None
  end.

(** ** Skills on disk *)

Definition find_skill_marker (fs : tree) (dir : loc) : option loc :=
  find (is_file_at fs) [dir ++ [str "SKILL.md"]; dir ++ [str "skill.md"]].

Definition has_skill_marker (fs : tree) (dir : loc) : bool := match find_skill_marker fs dir with Some _ => true | None => false end.

Definition HASH_IGNORE : list rstr := [str ".git"; str ".DS_Store"; str "Thumbs.db"; str ".gitignore"].

Variable utf8 : rstr -> list N.
Variable sha256_hex : list N -> rstr.

(** The regular files below [dir] by their relative path. *)
Definition collect_files (fs : tree) (dir : loc) : list (rstr * (list N * bool)) :=
  omap (fun kv =>
    let rel := drop (length dir) kv.1 in
    match kv.2 with
    | NFile bytes exec => if existsb (fun n => existsb (str_eqb n) HASH_IGNORE) rel then None
                          else Some (fold_backslashes (join [c_slash] rel), (bytes, exec))
    | _ => None
    end) (below fs dir).

Definition hash_input (files : list (rstr * (list N * bool))) : list N :=
  flat_map (fun '(rel, (bytes, exec)) => utf8 rel ++ [0%N] ++ [if (exec : bool) then 49%N else 48%N] ++ [0%N] ++ bytes ++ [0%N]) files.

Definition hash_directory (fs : tree) (dir : loc) : option rstr :=
  match follow fs dir with
  | Some s => if dir_here fs s
              then Some (sha256_hex (hash_input (sort_by (fun a b => str_leb a.1 b.1) (collect_files fs s))))
              else None
  | None => None
  end.
End Follow.

(** ** Lookups *)

Lemma inside_spec p l : inside p l = true <-> p `prefix_of` l.
Proof. unfold inside. apply bool_decide_eq_true. Qed.

Lemma inside_not p l : inside p l = false <-> ~ p `prefix_of` l.
Proof. unfold inside. apply bool_decide_eq_false. Qed.

Lemma remove_lookup p fs l : remove_path p fs !! l = if inside p l then None else fs !! l.
Proof.
  unfold remove_path. destruct (inside p l) eqn:E.
  - apply map_lookup_filter_None. right. intros x _. cbn. by rewrite E.
  - destruct (fs !! l) as [n|] eqn:El.
    + by apply map_lookup_filter_Some.
    + apply map_lookup_filter_None. by left.
Qed.

Lemma inside_split p l : inside p l = true -> l = p ++ drop (length p) l.
Proof. intros [r ->]%inside_spec. by rewrite drop_app_length. Qed.

Lemma inside_app p r : inside p (p ++ r) = true.
Proof. apply inside_spec. by exists r. Qed.

Definition moved_key (a b : loc) (kv : loc * node) : option (loc * node) :=
  if inside a kv.1 then Some (b ++ drop (length a) kv.1, kv.2) else None.

Lemma moved_keys_distinct a b (l : list (loc * node)) : NoDup l.*1 -> NoDup (omap (moved_key a b) l).*1.
Proof.
  induction l as [|[k n] l IH]; intros Hd; [constructor|]. cbn in Hd. apply NoDup_cons in Hd as [Hk Hd]. cbn.
  unfold moved_key at 1. cbn [fst snd]. destruct (inside a k) eqn:E; [|by apply IH]. cbn. apply NoDup_cons. split; [|by apply IH].
  intros ([k2 n2] & Heq & Hin)%list_elem_of_fmap. apply list_elem_of_omap in Hin as ([k' n'] & Hin & Hm).
  unfold moved_key in Hm. cbn [fst snd] in Hm. destruct (inside a k') eqn:E'; [|done]. injection Hm as <- <-. cbn in Heq.
  apply app_inv_head in Heq. apply Hk. rewrite (inside_split a k E), Heq, <-(inside_split a k' E').
  apply list_elem_of_fmap. by exists (k', n').
Qed.

Lemma graft_lookup a b fs l : graft a b fs !! l = if inside b l then fs !! (a ++ drop (length b) l) else None.
Proof.
  unfold graft. fold (moved_key a b). apply option_eq. intros n.
  rewrite <-elem_of_list_to_map by (apply moved_keys_distinct, NoDup_fst_map_to_list). rewrite list_elem_of_omap. split.
  - intros ([k m] & Hin%elem_of_map_to_list & Hm). unfold moved_key in Hm. cbn in Hm. destruct (inside a k) eqn:E; [|done].
    injection Hm as <- <-. rewrite inside_app, drop_app_length. by rewrite <-(inside_split a k E).
  - destruct (inside b l) eqn:E; [|done]. intros Hn. exists (a ++ drop (length b) l, n). split; [by apply elem_of_map_to_list|].
    unfold moved_key. cbn. by rewrite inside_app, drop_app_length, <-(inside_split b l E).
Qed.

(** A rename moves the tree and nothing else. *)
Lemma rename_lookup can a b fs fs' l : rename can a b fs = Some fs' ->
  fs' !! l = if inside b l then match fs !! (a ++ drop (length b) l) with
                                | Some n => Some n
                                | None => if inside a l then None else fs !! l
                                end
             else if inside a l then None else fs !! l.
Proof.
  unfold rename. destruct (lstat fs a); [|done]. destruct (lstat fs b); [done|]. destruct (_ && _ && _); [|done].
  intros [= <-]. rewrite lookup_union, graft_lookup, remove_lookup. destruct (inside b l).
  - destruct (fs !! (a ++ drop (length b) l)) as [m|]; cbn.
    + by destruct (if inside a l then None else fs !! l).
    + by destruct (if inside a l then None else fs !! l).
  - by destruct (if inside a l then None else fs !! l).
Qed.

(** Directories made do not change what was there. *)
Lemma mkdir_one_lookup fs p fs' l : mkdir_one fs p = Some fs' ->
  fs' !! l = if bool_decide (l = p) then match fs !! l with Some n => Some n | None => fs' !! l end else fs !! l.
Proof.
  unfold mkdir_one. destruct (lstat fs p) as [[]|] eqn:E; try done.
  - intros [= <-]. case_bool_decide; [|done]. by destruct (fs !! l).
  - intros [= <-]. case_bool_decide as Hl; [subst l|by rewrite lookup_insert_ne].
    assert (fs !! p = None) as -> by (by destruct p). done.
Qed.

Lemma mkdir_all_keeps l fs fs' k n : mkdir_all l fs = Some fs' -> fs !! k = Some n -> fs' !! k = Some n.
Proof.
  unfold mkdir_all. generalize (seq 1 (length l)) as ks. intros ks. revert fs. induction ks as [|i ks IH]; intros fs; cbn [fold_left].
  { by intros [= <-]. }
  destruct (mkdir_one fs (take i l)) as [fs1|] eqn:E.
  - intros Hf Hk. apply (IH fs1 Hf). rewrite (mkdir_one_lookup _ _ _ _ E), Hk. by case_bool_decide.
  - intros Hf. exfalso. clear IH E. induction ks as [|j ks IH]; [done|by apply IH].
Qed.

Lemma mkdir_all_outside l fs fs' k : mkdir_all l fs = Some fs' -> ~ k `prefix_of` l -> fs' !! k = fs !! k.
Proof.
  unfold mkdir_all. generalize (seq 1 (length l)) as ks. intros ks. revert fs. induction ks as [|i ks IH]; intros fs; cbn [fold_left].
  { by intros [= <-]. }
  destruct (mkdir_one fs (take i l)) as [fs1|] eqn:E.
  - intros Hf Hk. rewrite (IH fs1 Hf Hk), (mkdir_one_lookup _ _ _ _ E). rewrite bool_decide_false; [done|].
    intros ->. apply Hk. exists (drop i l). by rewrite take_drop.
  - intros Hf. exfalso. clear IH E. induction ks as [|j ks IH]; [done|by apply IH].
Qed.

(** What [create_dir_all] changes are new directories. *)
Lemma mkdir_all_new l fs fs' k : mkdir_all l fs = Some fs' -> fs' !! k = fs !! k \/ fs !! k = None /\ fs' !! k = Some NDir.
Proof.
  unfold mkdir_all. generalize (seq 1 (length l)) as ks. intros ks. revert fs. induction ks as [|i ks IH]; intros fs; cbn [fold_left].
  { intros [= <-]. by left. }
  destruct (mkdir_one fs (take i l)) as [fs1|] eqn:E.
  - intros H%IH. unfold mkdir_one in E. destruct (lstat fs (take i l)) as [[]|] eqn:El; try done; injection E as <-; [done|].
    destruct (decide (k = take i l)) as [->|Hk]; [|by rewrite lookup_insert_ne in H].
    rewrite lookup_insert_eq in H. right. split; [|by destruct H as [H|[? ?]]].
    by destruct (take i l).
  - intros Hf. exfalso. clear IH E. induction ks as [|j ks IH]; [done|by apply IH].
Qed.
