(* ===== verification/SkillsHub.v ===== *)
(** * SkillsHub: installing, syncing and removing skills
    ([skills_hub/lifecycle.rs], [registry.rs], [mod.rs])

    The registry of skills, the managed copies and the trash below the hub's
    directory, and the copies or links in the skill directories of the agents.
    Every operation runs alone and at one instant; the registry file can be
    written.  Error texts are kept short. *)

From S2P Require Import Prelude Str Json Jail SkillText SkillFs.

(** ** The registry *)

Definition TRASH_TTL_MS : Z := (5 * 60 * 1000)%Z.

(** The paths of local imports are kept as locations. *)
Record SkillEntry := {
  se_id : rstr; se_key : option rstr; se_name : rstr; se_description : option rstr; se_directory : rstr;
  se_source_directory : option rstr; se_readme_url : option rstr; se_repo_owner : option rstr; se_repo_name : option rstr; se_repo_branch : option rstr;
  se_installed_at : Z; se_content_hash : option rstr; se_source_signature : option rstr; se_targets : list rstr;
  se_source_path : option loc; se_trashed_at : option Z; se_trashed_directory : option rstr;
  se_previous_targets : option (list rstr)
}.

Definition is_trashed (e : SkillEntry) : bool := match se_trashed_at e with Some _ => true | None => false end.

Definition default_entry : SkillEntry := {|
  se_id := []; se_key := None; se_name := []; se_description := None; se_directory := []; se_source_directory := None;
  se_readme_url := None; se_repo_owner := None; se_repo_name := None; se_repo_branch := None; se_installed_at := 0;
  se_content_hash := None; se_source_signature := None; se_targets := []; se_source_path := None; se_trashed_at := None;
  se_trashed_directory := None; se_previous_targets := None |}.

(** What changes in an entry: its targets and hash, and its trash fields. *)
Definition with_targets (ts : list rstr) (e : SkillEntry) : SkillEntry := {|
  se_id := se_id e; se_key := se_key e; se_name := se_name e; se_description := se_description e; se_directory := se_directory e;
  se_source_directory := se_source_directory e; se_readme_url := se_readme_url e; se_repo_owner := se_repo_owner e; se_repo_name := se_repo_name e;
  se_repo_branch := se_repo_branch e;
  se_installed_at := se_installed_at e; se_content_hash := se_content_hash e; se_source_signature := se_source_signature e;
  se_targets := ts; se_source_path := se_source_path e; se_trashed_at := se_trashed_at e;
  se_trashed_directory := se_trashed_directory e; se_previous_targets := se_previous_targets e |}.

Definition with_hash (h : option rstr) (e : SkillEntry) : SkillEntry := {|
  se_id := se_id e; se_key := se_key e; se_name := se_name e; se_description := se_description e; se_directory := se_directory e;
  se_source_directory := se_source_directory e; se_readme_url := se_readme_url e; se_repo_owner := se_repo_owner e; se_repo_name := se_repo_name e;
  se_repo_branch := se_repo_branch e;
  se_installed_at := se_installed_at e; se_content_hash := h; se_source_signature := se_source_signature e;
  se_targets := se_targets e; se_source_path := se_source_path e; se_trashed_at := se_trashed_at e;
  se_trashed_directory := se_trashed_directory e; se_previous_targets := se_previous_targets e |}.

Definition with_trash (at_ms : option Z) (dir : option rstr) (previous : option (list rstr)) (e : SkillEntry) : SkillEntry := {|
  se_id := se_id e; se_key := se_key e; se_name := se_name e; se_description := se_description e; se_directory := se_directory e;
  se_source_directory := se_source_directory e; se_readme_url := se_readme_url e; se_repo_owner := se_repo_owner e; se_repo_name := se_repo_name e;
  se_repo_branch := se_repo_branch e;
  se_installed_at := se_installed_at e; se_content_hash := se_content_hash e; se_source_signature := se_source_signature e;
  se_targets := se_targets e; se_source_path := se_source_path e; se_trashed_at := at_ms;
  se_trashed_directory := dir; se_previous_targets := previous |}.

Record Registry := { rg_repos : list RepoEntry; rg_skills : list SkillEntry }.

Definition with_skills (l : list SkillEntry) (r : Registry) : Registry := {| rg_repos := rg_repos r; rg_skills := l |}.
Definition with_repos (l : list RepoEntry) (r : Registry) : Registry := {| rg_repos := l; rg_skills := rg_skills r |}.

(** The id or the key of an entry. *)
Definition answers_to (handle : rstr) (e : SkillEntry) : bool :=
  str_eqb (se_id e) handle || match se_key e with Some k => str_eqb k handle | None => false end.

Definition find_skill (r : Registry) (handle : rstr) : option SkillEntry := find (answers_to handle) (rg_skills r).

(** [find_mut]: the first entry that answers. *)
Fixpoint update_first {A} (p : A -> bool) (f : A -> A) (l : list A) : list A :=
  match l with [] => [] | x :: l => if p x then f x :: l else x :: update_first p f l end.

Definition update_skill (handle : rstr) (f : SkillEntry -> SkillEntry) (r : Registry) : Registry :=
  with_skills (update_first (answers_to handle) f (rg_skills r)) r.

(** *** Places *)

Definition managed_dir (hub : loc) : loc := hub ++ [str "managed"].
Definition trash_dir (hub : loc) : loc := hub ++ [str ".trash"].
Definition tmp_dir (hub : loc) : loc := hub ++ [str "tmp"].

(** *** Expired trash *)

Definition expired (now : Z) (e : SkillEntry) : bool :=
  match se_trashed_at e with Some t => negb (Z.max 0 (now - t) <? TRASH_TTL_MS)%Z | None => false end.

Definition drop_trash_copy (hub : loc) (fs : tree) (e : SkillEntry) : tree :=
  match se_trashed_directory e with Some d => remove_path (trash_dir hub ++ [d]) fs | None => fs end.

Definition purge_expired_trash (hub : loc) (now : Z) (fs : tree) (r : Registry) : tree * Registry :=
  (fold_left (drop_trash_copy hub) (List.filter (expired now) (rg_skills r)) fs,
   with_skills (List.filter (fun e => negb (expired now e)) (rg_skills r)) r).

(** ** Targets *)

Record TargetRoot := { tr_id : rstr; tr_dir : loc }.
Record ReadonlyRoot := { rr_kind : rstr; rr_label : rstr; rr_dir : loc }.
Record ScanRoots := { sr_targets : list TargetRoot; sr_readonly : list ReadonlyRoot }.

Definition TARGET_IDS : list rstr := map str ["claude"; "codex"; "pi"; "omp"; "opencode"; "agents"]%string.

Record TargetOpResult := { op_target : rstr; op_ok : bool; op_error : option rstr; op_kept : bool }.

Definition op_done (root : TargetRoot) (kept : bool) : TargetOpResult :=
  {| op_target := tr_id root; op_ok := true; op_error := None; op_kept := kept |}.
Definition op_failed (root : TargetRoot) (message : string) : TargetOpResult :=
  {| op_target := tr_id root; op_ok := false; op_error := Some (str message); op_kept := false |}.

Fixpoint validate_target_ids (ids : list rstr) : result unit HubError :=
  match ids with
  | [] => Ok tt
  | id :: ids => if existsb (str_eqb id) TARGET_IDS then validate_target_ids ids
                 else Err (hub_error InvalidInput (str "unknown target " ++ id))
  end.

Definition same_loc (a : option loc) (b : loc) : bool := bool_decide (a = Some b).

(** What the hub runs on: the system's limits and permissions, encodings and
    hashes, the hub's directory and the skill directories. *)
Class HubEnv := {
  links : nat;
  can_link : bool;
  can_rename : loc -> loc -> bool;
  utf8 : rstr -> list N;
  from_utf8_lossy : list N -> rstr;
  sha256_hex : list N -> rstr;
  base64url_no_pad : rstr -> rstr;
  to_lowercase : rstr -> rstr;
  io_error : HubError;
  hub : loc;
  roots : ScanRoots
}.

Section Hub.
Context `{HE : HubEnv}.
Notation hash_directory := (hash_directory links utf8 sha256_hex).

(** The link, or a copy where links are not to be had. *)
Definition place (source dest : loc) (fs : tree) : tree * bool :=
  match (if can_link then symlink source dest fs else None) with
  | Some fs => (fs, true)
  | None => copy_dir links source dest fs
  end.

Definition sync_skill_to_target (source : loc) (root : TargetRoot) (name : rstr) (preserved : option loc) (fs : tree)
    : tree * TargetOpResult :=
  match tr_dir root with
  | [] => (fs, op_failed root "target has no engine home")
  | _ =>
      if negb (is_dir_at links fs (parent (tr_dir root))) then (fs, op_failed root "engine home does not exist")
      else match target_skill_path fs (tr_dir root) name with
           | None => (fs, op_failed root "unsafe destination")
           | Some dest =>
               if same_loc preserved dest then (fs, op_done root true)
               else if nested source dest then (fs, op_failed root "nested")
               else match mkdir_all (parent dest) (remove_path dest fs) with
                    | None => (remove_path dest fs, op_failed root "cannot create the directory")
                    | Some fs =>
                        let '(fs, ok) := place source dest fs in
                        (fs, if (ok : bool) then op_done root false else op_failed root "cannot copy")
                    end
           end
  end.

Definition remove_skill_from_target (root : TargetRoot) (name : rstr) (preserved : option loc) (fs : tree) : tree * TargetOpResult :=
  match target_skill_path fs (tr_dir root) name with
  | None => (fs, op_done root false)
  | Some dest =>
      if same_loc preserved dest then (fs, op_done root true)
      else let fs := remove_path dest fs in
           match lstat fs dest with
           | Some _ => (fs, op_failed root "removal refused")
           | None => (fs, op_done root false)
           end
  end.

(** Over a list of roots. *)
Fixpoint sweep (f : TargetRoot -> tree -> tree * TargetOpResult) (roots : list TargetRoot) (fs : tree) : tree * list TargetOpResult :=
  match roots with
  | [] => (fs, [])
  | root :: roots => let '(fs, r) := f root fs in let '(fs, rs) := sweep f roots fs in (fs, r :: rs)
  end.

Definition root_for (roots : list TargetRoot) (id : rstr) : option TargetRoot := find (fun r => str_eqb (tr_id r) id) roots.

Definition sync_targets (name : rstr) (ids : list rstr) (preserved : option loc) :=
  sweep (fun root => sync_skill_to_target (managed_dir hub ++ [name]) root name preserved) (omap (root_for (sr_targets roots)) ids).

Definition remove_targets (roots : list TargetRoot) (name : rstr) (preserved : option loc) :=
  sweep (fun root => remove_skill_from_target root name preserved) roots.
(** ** The operations *)

Record hub_state := { hs_fs : tree; hs_reg : Registry }.

Definition hub_with (fs : tree) (reg : Registry) : hub_state := {| hs_fs := fs; hs_reg := reg |}.

(** The instant of the call. *)
Variable now : Z.

Definition managed (name : rstr) : loc := managed_dir hub ++ [name].

Definition purged (s : hub_state) : tree * Registry := purge_expired_trash hub now (hs_fs s) (hs_reg s).

Definition not_installed (id : rstr) : HubError := hub_error HubNotFound (str "skill not installed: " ++ id).

Definition installed_skill (reg : Registry) (id : rstr) : option SkillEntry :=
  match find_skill reg id with Some e => if is_trashed e then None else Some e | None => None end.

(** *** Uninstalling and restoring *)

Definition trash_name (directory : rstr) : rstr := base64url_no_pad directory ++ str "-" ++ dec (Z.to_N now).

(** Into the trash, or away when it cannot be moved. *)
Definition trash_managed (directory : rstr) (fs : tree) : tree * bool :=
  if is_dir_at links fs (managed directory) then
    let fs := default fs (mkdir_all (trash_dir hub) fs) in
    match rename can_rename (managed directory) (trash_dir hub ++ [trash_name directory]) fs with
    | Some fs => (fs, true)
    | None => (remove_path (managed directory) fs, false)
    end
  else (remove_path (managed directory) fs, false).

Definition trash_entry (name : rstr) (e : SkillEntry) : SkillEntry :=
  with_targets [] (with_trash (Some now) (Some name) (Some (se_targets e)) e).

Record UninstallOutcome := { uo_trashed : bool; uo_restore_id : rstr; uo_results : list TargetOpResult }.

Definition uninstall_skill (id : rstr) (s : hub_state) : hub_state * result UninstallOutcome HubError :=
  let '(fs, reg) := purged s in
  match installed_skill reg id with
  | None => (hub_with fs (hs_reg s), Err (not_installed id))
  | Some entry =>
      let '(fs, results) := remove_targets (sr_targets roots) (se_directory entry) (se_source_path entry) fs in
      let '(fs, trashed) := trash_managed (se_directory entry) fs in
      let reg := if (trashed : bool) then update_skill id (trash_entry (trash_name (se_directory entry))) reg
                 else with_skills (List.filter (fun e => negb (str_eqb (se_id e) (se_id entry))) (rg_skills reg)) reg in
      (hub_with (purge_expired_trash hub now fs reg).1 reg,
       Ok {| uo_trashed := trashed; uo_restore_id := se_id entry; uo_results := results |})
  end.

Record InstallOutcome := { io_skill : SkillEntry; io_results : list TargetOpResult }.

Definition restored (targets : list rstr) (hash : option rstr) (e : SkillEntry) : SkillEntry :=
  with_hash hash (with_targets targets (with_trash None None None e)).

Definition restore_skill (id : rstr) (s : hub_state) : hub_state * result InstallOutcome HubError :=
  let '(fs, reg) := purged s in
  let fail fs code message := (hub_with fs (hs_reg s), Err (hub_error code (str message))) in
  match find_skill reg id with
  | None => fail fs HubNotFound "skill not found"%string
  | Some entry =>
      match se_trashed_at entry, se_trashed_directory entry with
      | None, _ => fail fs InvalidInput "skill is not trashed"%string
      | Some trashed_at, dir =>
          if (TRASH_TTL_MS <? Z.max 0 (now - trashed_at))%Z then fail fs Conflict "restore window expired"%string
          else match dir with
               | None => fail fs HubNotFound "no trash copy recorded"%string
               | Some name =>
                   let copy := trash_dir hub ++ [name] in
                   if negb (is_dir_at links fs copy) then fail fs HubNotFound "trash copy is gone"%string
                   else
                     let previous := default [] (se_previous_targets entry) in
                     let dest := managed (se_directory entry) in
                     let fs := remove_path dest fs in
                     match rename can_rename copy dest fs with
                     | None => (hub_with fs (hs_reg s), Err io_error)
                     | Some fs =>
                         let reg := update_skill id (restored previous (hash_directory fs dest)) reg in
                         let '(fs', results) := sync_targets (se_directory entry) previous None fs in
                         (hub_with fs' reg,
                          match find_skill reg id with
                          | Some e => Ok {| io_skill := e; io_results := results |}
                          | None => Err (hub_error Internal (str "entry vanished mid-restore"))
                          end)
                     end
               end
      end
  end.

(** *** Choosing targets *)

Definition retarget (name : rstr) (preserved : option loc) (old new : list rstr) (root : TargetRoot) (fs : tree)
    : tree * list TargetOpResult :=
  if existsb (str_eqb (tr_id root)) new then
    let '(fs, r) := sync_skill_to_target (managed name) root name preserved fs in (fs, [r])
  else if existsb (str_eqb (tr_id root)) old then
    let '(fs, r) := remove_skill_from_target root name preserved fs in (fs, [r])
  else (fs, []).

Fixpoint retarget_all (name : rstr) (preserved : option loc) (old new : list rstr) (l : list TargetRoot) (fs : tree)
    : tree * list TargetOpResult :=
  match l with
  | [] => (fs, [])
  | root :: l =>
      let '(fs, rs) := retarget name preserved old new root fs in
      let '(fs, rs') := retarget_all name preserved old new l fs in (fs, rs ++ rs')
  end.

Definition set_targets (id : rstr) (new_targets : list rstr) (s : hub_state) : hub_state * result (list TargetOpResult) HubError :=
  match validate_target_ids new_targets with
  | Err e => (s, Err e)
  | Ok _ =>
      let '(fs, reg) := purged s in
      match installed_skill reg id with
      | None => (hub_with fs (hs_reg s), Err (not_installed id))
      | Some entry =>
          let reg := update_skill id (with_targets new_targets) reg in
          let '(fs, results) :=
            retarget_all (se_directory entry) (se_source_path entry) (se_targets entry) new_targets (sr_targets roots) fs in
          (hub_with fs reg, Ok results)
      end
  end.

(** *** Local skills *)

Definition name_segments (name : rstr) : loc := if is_empty name then [] else segments name.

(** The first target that has the skill, and all that have it. *)
Definition find_local_skill_source (directory : rstr) (fs : tree) : result (option (loc * list rstr)) HubError :=
  match sanitize_local_skill_path directory with
  | None => Err (hub_error InvalidInput (str "bad directory"))
  | Some name =>
      if existsb (fun r => has_skill_marker links fs (rr_dir r ++ name_segments name)) (sr_readonly roots)
      then Err (hub_error Readonly (str "read-only source"))
      else
        let found := omap (fun t => match target_skill_path fs (tr_dir t) name with
                                    | Some candidate => if has_skill_marker links fs candidate then Some (candidate, tr_id t) else None
                                    | None => None
                                    end) (sr_targets roots) in
        Ok match found with [] => None | (source, _) :: _ => Some (source, map snd found) end
  end.

Definition file_name (l : loc) : rstr := default [] (last l).

Definition metadata_of (fs : tree) (dir : loc) (fallback : rstr) : SkillMeta :=
  match find_skill_marker links fs dir with
  | Some m => read_skill_metadata from_utf8_lossy (read_at links fs m) fallback
  | None => {| sm_name := fallback; sm_description := None |}
  end.

Definition local_entry (fs : tree) (name : rstr) (chosen : list rstr) (source : loc) : SkillEntry :=
  let meta := metadata_of fs (managed name) name in
  {| se_id := str "local:" ++ name; se_key := Some (str "local:" ++ name); se_name := sm_name meta;
     se_description := sm_description meta; se_directory := name; se_source_directory := None; se_readme_url := None;
     se_repo_owner := None; se_repo_name := None; se_repo_branch := None; se_installed_at := now;
     se_content_hash := hash_directory fs (managed name); se_source_signature := None; se_targets := chosen;
     se_source_path := Some source; se_trashed_at := None; se_trashed_directory := None; se_previous_targets := None |}.

Definition same_directory (name : rstr) (e : SkillEntry) : bool := str_eqb (se_directory e) name.

Definition import_local (directory : rstr) (targets : list rstr) (s : hub_state) : hub_state * result InstallOutcome HubError :=
  match validate_target_ids targets with
  | Err e => (s, Err e)
  | Ok _ =>
      match find_local_skill_source directory (hs_fs s) with
      | Err e => (s, Err e)
      | Ok None => (s, Err (hub_error HubNotFound (str "no local skill found")))
      | Ok (Some (source, discovered)) =>
          let name := file_name source in
          let '(fs, reg) := purged s in
          match find (fun e => negb (is_trashed e) && same_directory name e) (rg_skills reg) with
          | Some existing =>
              match se_source_path existing with
              | Some _ =>
                  let new_targets := if is_empty targets then se_targets existing else targets in
                  let '(s', r) := set_targets (se_id existing) new_targets (hub_with fs (hs_reg s)) in
                  (s', match r with
                       | Ok results =>
                           Ok {| io_skill := default default_entry (find_skill (hs_reg s') (se_id existing)); io_results := results |}
                       | Err e => Err e
                       end)
              | None => (hub_with fs (hs_reg s), Err (hub_error Conflict (str "already managed")))
              end
          | None =>
              let dest := managed name in
              match mkdir_all (managed_dir hub) (remove_path dest fs) with
              | None => (hub_with (remove_path dest fs) (hs_reg s), Err io_error)
              | Some fs =>
                  let '(fs, copied) := copy_dir links source dest fs in
                  if negb copied then (hub_with fs (hs_reg s), Err io_error)
                  else
                    let chosen := if is_empty targets then discovered else targets in
                    let entry := local_entry fs name chosen source in
                    let reg := with_skills (List.filter (fun e => negb (same_directory name e)) (rg_skills reg) ++ [entry]) reg in
                    let '(fs, results) := sync_targets name chosen (Some source) fs in
                    (hub_with fs reg, Ok {| io_skill := entry; io_results := results |})
              end
          end
      end
  end.

Definition delete_local (directory : rstr) (targets : list rstr) (s : hub_state) : hub_state * result (list TargetOpResult) HubError :=
  match validate_target_ids targets with
  | Err e => (s, Err e)
  | Ok _ =>
      match find_local_skill_source directory (hs_fs s) with
      | Err e => (s, Err e)
      | Ok None => (s, Err (hub_error HubNotFound (str "no local skill found")))
      | Ok (Some (source, _)) =>
          let name := file_name source in
          if existsb (fun e => negb (is_trashed e) && same_directory name e) (rg_skills (hs_reg s))
          then (s, Err (hub_error Conflict (str "registry-managed")))
          else
            let selected := if is_empty targets then sr_targets roots
                            else List.filter (fun t => existsb (str_eqb (tr_id t)) targets) (sr_targets roots) in
            let '(fs, results) := remove_targets selected name (Some source) (hs_fs s) in
            (hub_with fs (hs_reg s), Ok results)
      end
  end.
(** *** Installing from a repository *)

Record InstallRequest := {
  ir_owner : rstr; ir_name : rstr; ir_branch : rstr; ir_directory : rstr; ir_install_name : option rstr; ir_targets : list rstr;
  ir_force : bool
}.

Context `{JT : JsonText}.
(** The network, at this call. *)
Variable get_bytes : rstr -> result (list N) FetchError.

Definition is_root (directory : rstr) : bool := str_eqb directory (str ".") || str_eqb directory (str "./").

Definition source_directory_of (req : InstallRequest) : result rstr HubError :=
  if is_root (ir_directory req) then Ok (str ".")
  else ok_or (sanitize_relative_path (ir_directory req)) (hub_error InvalidInput (str "bad directory")).

Definition install_name_of (req : InstallRequest) : result rstr HubError :=
  match ir_install_name req with
  | Some n => ok_or (sanitize_path_segment n) (hub_error InvalidInput (str "bad installName"))
  | None => if is_root (ir_directory req)
            then ok_or (sanitize_path_segment (ir_name req)) (hub_error InvalidInput (str "bad repo name"))
            else ok_or (install_name_from_directory (ir_directory req)) (hub_error InvalidInput (str "bad directory"))
  end.

(** What an install fixes before it touches anything but expired trash. *)
Record install_plan := { ip_source : rstr; ip_name : rstr; ip_id : rstr }.

Definition plan_install (req : InstallRequest) : result install_plan HubError :=
  let? _ := validate_target_ids (ir_targets req) in
  if is_empty (trim (ir_owner req)) || is_empty (trim (ir_name req))
  then Err (hub_error InvalidInput (str "owner and name are required"))
  else
    let? source := source_directory_of req in
    let? name := install_name_of req in
    Ok {| ip_source := source; ip_name := name; ip_id := ir_owner req ++ [c_slash] ++ ir_name req ++ [c_colon] ++ source |}.

Definition owns_directory (name : rstr) (e : SkillEntry) : bool := eq_ignore_ascii_case (se_directory e) name.

(** Another skill under the name. *)
Definition conflicting (plan : install_plan) (reg : Registry) : bool :=
  existsb (fun e => negb (is_trashed e) && owns_directory (ip_name plan) e && negb (str_eqb (se_id e) (ip_id plan))) (rg_skills reg).

(** The managed copy is not what was installed. *)
Definition drifted (name : rstr) (fs : tree) (reg : Registry) : bool :=
  match find (owns_directory name) (rg_skills reg) with
  | Some e => match se_content_hash e with
              | Some recorded => match hash_directory fs (managed name) with Some h => negb (str_eqb h recorded) | None => true end
              | None => false
              end
  | None => false
  end.

Definition full_path (source rel : rstr) : rstr := if str_eqb source (str ".") then rel else source ++ [c_slash] ++ rel.

Fixpoint stage_files (req : InstallRequest) (branch source : rstr) (staging : loc) (files : list rstr) (fs : tree)
    : tree * result unit HubError :=
  match files with
  | [] => (fs, Ok tt)
  | rel :: files =>
      match sanitize_relative_path rel with
      | None => stage_files req branch source staging files fs
      | Some safe =>
          match get_bytes (raw_url utf8 (ir_owner req) (ir_name req) branch (full_path source rel)) with
          | Err e => (remove_path staging fs, Err (fetch_error e))
          | Ok body =>
              let file := staging ++ segments safe in
              match mkdir_all (parent file) fs with
              | None => (remove_path staging fs, Err io_error)
              | Some fs' => match write_file file body fs' with
                            | None => (remove_path staging fs', Err io_error)
                            | Some fs => stage_files req branch source staging files fs
                            end
              end
          end
      end
  end.

Definition repo_entry (req : InstallRequest) (plan : install_plan) (fs : tree) (repo_tree : json) (branch : rstr) : SkillEntry :=
  let meta := metadata_of fs (managed (ip_name plan)) (ip_name plan) in
  {| se_id := ip_id plan; se_key := Some (ip_id plan); se_name := sm_name meta; se_description := sm_description meta;
     se_directory := ip_name plan; se_source_directory := Some (ip_source plan);
     se_readme_url := Some (str "https://github.com/" ++ ir_owner req ++ [c_slash] ++ ir_name req ++ str "/blob/" ++ branch ++ [c_slash] ++
       (if str_eqb (ip_source plan) (str ".") then [] else ip_source plan ++ [c_slash]) ++ str "SKILL.md");
     se_repo_owner := Some (ir_owner req); se_repo_name := Some (ir_name req); se_repo_branch := Some branch; se_installed_at := now;
     se_content_hash := hash_directory fs (managed (ip_name plan));
     se_source_signature := source_signature_from_tree utf8 sha256_hex repo_tree (ip_source plan); se_targets := ir_targets req;
     se_source_path := None; se_trashed_at := None; se_trashed_directory := None; se_previous_targets := None |}.

(** The staged copy takes the place of the managed one. *)
Definition swap_in (staging dest : loc) (fs : tree) : tree * bool :=
  let fs := remove_path dest fs in
  match mkdir_all (parent dest) fs with
  | None => (fs, false)
  | Some fs => match rename can_rename staging dest fs with
               | Some fs => (fs, true)
               | None => (remove_path staging fs, false)
               end
  end.

Definition install_skill (req : InstallRequest) (s : hub_state) : hub_state * result InstallOutcome HubError :=
  match plan_install req with
  | Err e => (s, Err e)
  | Ok plan =>
      let '(fs, reg) := purged s in
      let fail fs e := (hub_with fs (hs_reg s), Err e) in
      if conflicting plan reg then fail fs (hub_error Conflict (str "already managed"))
      else match fetch_tree_with_fallback from_utf8_lossy get_bytes (ir_owner req) (ir_name req) (ir_branch req) with
           | Err e => fail fs e
           | Ok (repo_tree, branch) =>
               let files := blobs_under repo_tree (ip_source plan) in
               if negb (existsb (fun f => eq_ignore_ascii_case f (str "SKILL.md")) files)
               then fail fs (hub_error InvalidInput (str "SKILL.md not found"))
               else
                 let dest := managed (ip_name plan) in
                 if is_dir_at links fs dest && negb (ir_force req) && drifted (ip_name plan) fs reg
                 then fail fs (hub_error Conflict (str "the managed copy has local changes"))
                 else
                   let staging := tmp_dir hub ++ [ip_name plan ++ str "-" ++ dec (Z.to_N now)] in
                   match mkdir_all staging (remove_path staging fs) with
                   | None => fail (remove_path staging fs) io_error
                   | Some fs =>
                       let '(fs, staged) := stage_files req branch (ip_source plan) staging files fs in
                       match staged with
                       | Err e => fail fs e
                       | Ok _ =>
                           let '(fs, swapped) := swap_in staging dest fs in
                           if negb swapped then fail fs io_error
                           else
                             let entry := repo_entry req plan fs repo_tree branch in
                             let keep e := negb (str_eqb (se_id e) (se_id entry)) && negb (owns_directory (se_directory entry) e) in
                             let reg := with_skills (List.filter keep (rg_skills reg) ++ [entry]) reg in
                             let '(fs, results) := sync_targets (ip_name plan) (ir_targets req) None fs in
                             (hub_with fs reg, Ok {| io_skill := entry; io_results := results |})
                       end
                   end
           end
  end.

(** *** Repositories *)

(** The cache of discovered skills is dropped when the repositories change. *)
Definition drop_cache (fs : tree) : tree :=
  let cache := hub ++ [str "discover-cache.json"] in
  match lstat fs cache with Some NDir => fs | _ => remove_path cache fs end.

Definition add_repo (repo : RepoEntry) (s : hub_state) : hub_state * result unit HubError :=
  match validated repo with
  | Err e => (s, Err e)
  | Ok repo =>
      let reg := hs_reg s in
      (hub_with (drop_cache (hs_fs s))
         (with_repos (List.filter (fun r => negb (eq_ignore_ascii_case (slug r) (slug repo))) (rg_repos reg) ++ [repo]) reg), Ok tt)
  end.

Definition remove_repo (owner name : rstr) (s : hub_state) : hub_state * result unit HubError :=
  let reg := hs_reg s in
  let wanted := to_lowercase (owner ++ [c_slash] ++ name) in
  let kept := List.filter (fun r => negb (str_eqb (to_lowercase (slug r)) wanted)) (rg_repos reg) in
  if length kept =? length (rg_repos reg) then (s, Err (hub_error HubNotFound (str "repo not registered")))
  else (hub_with (drop_cache (hs_fs s)) (with_repos kept reg), Ok tt).
End Hub.

(** ** The operations as steps *)

Inductive hub_op :=
| OpInstall (req : InstallRequest) (net : rstr -> result (list N) FetchError)
| OpUninstall (id : rstr)
| OpRestore (id : rstr)
| OpSetTargets (id : rstr) (targets : list rstr)
| OpImport (directory : rstr) (targets : list rstr)
| OpDelete (directory : rstr) (targets : list rstr)
| OpAddRepo (repo : RepoEntry)
| OpRemoveRepo (owner name : rstr).

(** The mutations take the hub's lock: one after the other. *)
Definition hub_step `{HubEnv} `{JsonText} (s : hub_state) (x : Z * hub_op) : hub_state :=
  let now := x.1 in
  match x.2 with
  | OpInstall req net => (install_skill now net req s).1
  | OpUninstall id => (uninstall_skill now id s).1
  | OpRestore id => (restore_skill now id s).1
  | OpSetTargets id targets => (set_targets now id targets s).1
  | OpImport directory targets => (import_local now directory targets s).1
  | OpDelete directory targets => (delete_local directory targets s).1
  | OpAddRepo repo => (add_repo repo s).1
  | OpRemoveRepo owner name => (remove_repo owner name s).1
  end.
