(* ===== verification/SkillFacts.v ===== *)
(** * SkillFacts: what the skills hub keeps

    Its registry stays well formed; an operation touches one name in the skill
    directories; imports leave the user's own copy alone; the trash gives back
    what it took. *)

From S2P Require Import Prelude Str Json Jail SkillText SkillFs SkillsHub.

(** ** Where the file operations act *)

(** Where [P] does not hold nothing changes, new directories apart. *)
Definition only (P : loc -> Prop) (fs fs' : tree) : Prop :=
  forall l, ~ P l -> fs' !! l = fs !! l \/ fs !! l = None /\ fs' !! l = Some NDir.

Lemma only_refl P fs : only P fs fs.
Proof. intros l _. by left. Qed.

Lemma only_trans P fs1 fs2 fs3 : only P fs1 fs2 -> only P fs2 fs3 -> only P fs1 fs3.
Proof. intros H1 H2 l Hl. destruct (H1 l Hl) as [E1|[E1 E1']], (H2 l Hl) as [E2|[E2 E2']]; rewrite ?E2, ?E2', <-?E1 in *; naive_solver. Qed.

Lemma only_mono (P Q : loc -> Prop) fs fs' : (forall l, P l -> Q l) -> only P fs fs' -> only Q fs fs'.
Proof. intros HPQ H l Hl. apply H. intros HP. by apply Hl, HPQ. Qed.

#[local] Hint Resolve only_refl : core.

Lemma remove_only p fs : only (prefix p) fs (remove_path p fs).
Proof.
  intros l Hl. left. rewrite remove_lookup. destruct (inside p l) eqn:E; [|done]. exfalso. apply Hl. by apply inside_spec.
Qed.

Lemma mkdir_only P p fs fs' : mkdir_all p fs = Some fs' -> only P fs fs'.
Proof. intros H l _. by apply (mkdir_all_new p). Qed.

Lemma insert_only p n fs : only (prefix p) fs (<[p := n]> fs).
Proof. intros l Hl. left. rewrite lookup_insert_ne; [done|]. by intros ->. Qed.

Lemma symlink_only source dest fs fs' : symlink source dest fs = Some fs' -> only (prefix dest) fs fs'.
Proof.
  unfold symlink. destruct (lstat fs dest); [done|]. destruct (dir_here _ _); [|done]. intros [= <-]. apply insert_only.
Qed.

Lemma write_only p bytes fs fs' : write_file p bytes fs = Some fs' -> only (prefix p) fs fs'.
Proof.
  unfold write_file. destruct (lstat fs p) as [[]|]; try done; [intros [= <-]; apply insert_only|].
  destruct (dir_here _ _); [|done]. intros [= <-]. apply insert_only.
Qed.

Lemma rename_only can a b fs fs' (P : loc -> Prop) : rename can a b fs = Some fs' ->
  (forall l, a `prefix_of` l -> P l) -> (forall l, b `prefix_of` l -> P l) -> only P fs fs'.
Proof.
  intros H Ha Hb l Hl. left. rewrite (rename_lookup _ _ _ _ _ l H).
  destruct (inside b l) eqn:Eb; [exfalso; apply Hl, Hb; by apply inside_spec|].
  destruct (inside a l) eqn:Ea; [exfalso; apply Hl, Ha; by apply inside_spec|done].
Qed.

Lemma copy_steps_only links fs s dst kvs st : only (prefix dst) st.1 (fold_left (copy_step links fs s dst) kvs st).1.
Proof.
  revert st. induction kvs as [|kv kvs IH]; intros st; [done|]. cbn [fold_left]. eapply only_trans; [|apply IH].
  unfold copy_step. destruct st as [acc []]; cbn [fst snd]; [|done]. destruct (copied links fs kv.1 kv.2); [|done]. cbn [fst].
  intros l Hl. left. rewrite lookup_insert_ne; [done|]. intros <-. apply Hl. eexists. reflexivity.
Qed.

Lemma copy_only links src dst fs : only (prefix dst) fs (copy_dir links src dst fs).1.
Proof.
  unfold copy_dir. destruct (lstat fs dst) as [[]|]; try done;
    (destruct (follow links fs src) as [s|]; [|done]); (destruct (negb _); [done|]);
    (destruct (mkdir_all dst fs) as [fs1|] eqn:E; [|done]);
    (eapply only_trans; [by eapply mkdir_only|]); exact (copy_steps_only links fs s dst (below fs s) (fs1, true)).
Qed.

(** ** The place of a plain name *)

Lemma plain_sanitized D : plain_segment D -> sanitize_relative_path D = None \/ sanitize_relative_path D = Some D.
Proof.
  intros HD. destruct (sanitize_relative_path D) as [rel|] eqn:E; [|by left]. right. f_equal.
  unfold sanitize_relative_path in E. pose proof HD as (Hne & _ & _ & Hs & Hb & Hz). rewrite fold_backslashes_id in E by done.
  destruct (is_empty D || _); [done|]. destruct (starts_with _ D); [done|]. destruct (drive_prefixed D); [done|].
  rewrite split_on_no_sep in E by (intros x Hx; apply N.eqb_neq; by intros <-). cbn [join_segments] in E.
  destruct (is_empty D) eqn:Ee; [by apply is_empty_nil in Ee|]. destruct (has_char c_colon D); [done|].
  assert (sanitize_path_segment D = Some D) as Hd by (by apply sanitize_path_segment_spec). rewrite Hd in E. by injection E as <-.
Qed.

Lemma target_path_plain fs base D dest : plain_segment D -> target_skill_path fs base D = Some dest -> dest = base ++ [D].
Proof.
  intros HD. unfold target_skill_path. destruct (plain_sanitized D HD) as [->| ->]; [done|].
  destruct (match lstat fs base with Some NDir | None => false | Some _ => true end); [done|].
  unfold segments. rewrite split_on_no_sep by (intros x Hx; apply N.eqb_neq; destruct HD as (_ & _ & _ & Hs & _); by intros <-).
  cbn. by intros [= <-].
Qed.

(** ** What the sweeps over targets touch *)

Section Touch.
Context `{HE : HubEnv}.

Lemma place_only source dest fs : only (prefix dest) fs (place source dest fs).1.
Proof.
  unfold place. destruct can_link; [|apply copy_only]. destruct (symlink source dest fs) as [fs'|] eqn:E; [by eapply symlink_only|apply copy_only].
Qed.

(** A sync acts at its destination, and not when that is the preserved copy. *)
Lemma sync_only source root D preserved fs : plain_segment D ->
  only (fun l => (tr_dir root ++ [D]) `prefix_of` l /\ preserved <> Some (tr_dir root ++ [D])) fs
    (sync_skill_to_target source root D preserved fs).1.
Proof.
  intros HD. unfold sync_skill_to_target. destruct (tr_dir root) as [|x home] eqn:Er; [done|]. rewrite <-Er. clear Er x home.
  destruct (negb _); [done|]. destruct (target_skill_path fs (tr_dir root) D) as [dest|] eqn:Et; [|done].
  apply target_path_plain in Et as ->; [|done]. set (dest := tr_dir root ++ [D]).
  unfold same_loc. case_bool_decide as Hp; [done|]. destruct (nested source dest); [done|].
  apply (only_mono (prefix dest)); [by intros l Hl|].
  destruct (mkdir_all (parent dest) (remove_path dest fs)) as [fs1|] eqn:Em; [|apply remove_only].
  pose proof (place_only source dest fs1) as Hc. destruct (place source dest fs1) as [fs2 ok].
  eapply only_trans; [apply remove_only|]. eapply only_trans; [by eapply mkdir_only|exact Hc].
Qed.

Lemma remove_skill_only root D preserved fs : plain_segment D ->
  only (fun l => (tr_dir root ++ [D]) `prefix_of` l /\ preserved <> Some (tr_dir root ++ [D])) fs
    (remove_skill_from_target root D preserved fs).1.
Proof.
  intros HD. unfold remove_skill_from_target. destruct (target_skill_path fs (tr_dir root) D) as [dest|] eqn:Et; [|done].
  apply target_path_plain in Et as ->; [|done]. unfold same_loc. case_bool_decide as Hp; [done|].
  apply (only_mono (prefix (tr_dir root ++ [D]))); [by intros l Hl|].
  destruct (lstat _ _); apply remove_only.
Qed.

Lemma sweep_only f rs P fs : (forall root fs, root ∈ rs -> only P fs (f root fs).1) -> only P fs (sweep f rs fs).1.
Proof.
  revert fs. induction rs as [|root rs IH]; intros fs Hf; [done|]. cbn [sweep].
  pose proof (Hf root fs ltac:(left)) as H1. destruct (f root fs) as [fs1 r]. specialize (IH fs1 ltac:(intros; apply Hf; by right)).
  destruct (sweep f rs fs1) as [fs2 rs2]. by eapply only_trans.
Qed.
End Touch.

(** ** The registry *)

Definition skills_of (s : hub_state) : list SkillEntry := rg_skills (hs_reg s).

(** Ids tell imports from installs; the trash fields go together. *)
Record entry_ok (e : SkillEntry) : Prop := {
  eo_plain : plain_segment (se_directory e);
  eo_id : match se_source_path e with Some _ => se_id e = str "local:" ++ se_directory e | None => c_slash ∈ se_id e end;
  eo_trash : match se_trashed_at e with
             | Some _ => is_Some (se_trashed_directory e) /\ is_Some (se_previous_targets e) /\ se_targets e = []
             | None => se_trashed_directory e = None /\ se_previous_targets e = None
             end
}.

Record skills_ok (l : list SkillEntry) : Prop := {
  so_entries : Forall entry_ok l;
  so_ids : NoDup (map se_id l);
  so_dirs : NoDup (map se_directory l)
}.

Lemma filter_skills_ok p l : skills_ok l -> skills_ok (List.filter p l).
Proof.
  intros [He Hi Hd]. split.
  - rewrite Forall_forall in *. intros e [Hin _]%list_elem_of_In%List.filter_In. apply He. by apply list_elem_of_In.
  - clear He Hd. induction l as [|e l IH]; [done|]. cbn in Hi |- *. apply NoDup_cons in Hi as [Hn Hi].
    destruct (p e); [|by apply IH]. cbn. apply NoDup_cons. split; [|by apply IH]. intros (x & Hx & Hin)%list_elem_of_fmap.
    apply Hn. rewrite Hx. apply list_elem_of_fmap. exists x. split; [done|].
    apply list_elem_of_In in Hin. apply List.filter_In in Hin as [Hin _]. by apply list_elem_of_In.
  - clear He Hi. induction l as [|e l IH]; [done|]. cbn in Hd |- *. apply NoDup_cons in Hd as [Hn Hd].
    destruct (p e); [|by apply IH]. cbn. apply NoDup_cons. split; [|by apply IH]. intros (x & Hx & Hin)%list_elem_of_fmap.
    apply Hn. rewrite Hx. apply list_elem_of_fmap. exists x. split; [done|].
    apply list_elem_of_In in Hin. apply List.filter_In in Hin as [Hin _]. by apply list_elem_of_In.
Qed.

Lemma update_first_map {A B} (p : A -> bool) (f : A -> A) (g : A -> B) l :
  (forall x, g (f x) = g x) -> map g (update_first p f l) = map g l.
Proof. intros Hg. induction l as [|x l IH]; [done|]. cbn. destruct (p x); cbn; [by rewrite Hg|by rewrite IH]. Qed.

Lemma update_first_Forall {A} (P : A -> Prop) (p : A -> bool) f l :
  (forall x, find p l = Some x -> P x -> P (f x)) -> Forall P l -> Forall P (update_first p f l).
Proof.
  intros Hf H. induction H as [|x l Hx Hl IH]; [done|]. cbn [update_first find] in *. destruct (p x) eqn:E.
  - constructor; [|done]. by apply Hf.
  - constructor; [done|]. by apply IH.
Qed.

Lemma update_skills_ok p f l : (forall e, find p l = Some e -> entry_ok e -> entry_ok (f e)) ->
  (forall e, se_id (f e) = se_id e) -> (forall e, se_directory (f e) = se_directory e) ->
  skills_ok l -> skills_ok (update_first p f l).
Proof.
  intros Hf Hi Hd [He Hni Hnd]. split; [by apply update_first_Forall|by rewrite update_first_map|by rewrite update_first_map].
Qed.

(** Adding an entry whose id and directory are new. *)
Lemma add_skill_ok l e : skills_ok l -> entry_ok e -> (forall x, x ∈ l -> se_id x <> se_id e /\ se_directory x <> se_directory e) ->
  skills_ok (l ++ [e]).
Proof.
  intros [He Hi Hd] Hok Hnew. split.
  - apply Forall_app. by split; [|constructor].
  - rewrite map_app. apply NoDup_app. split_and!; [done| |by apply NoDup_singleton].
    intros x (y & -> & Hy)%list_elem_of_fmap Hx%list_elem_of_singleton. by apply Hnew in Hy as [? _].
  - rewrite map_app. apply NoDup_app. split_and!; [done| |by apply NoDup_singleton].
    intros x (y & -> & Hy)%list_elem_of_fmap Hx%list_elem_of_singleton. by apply Hnew in Hy as [_ ?].
Qed.

Section Registry.
Context `{HE : HubEnv} `{JT : JsonText}.
Variable now : Z.

Lemma purged_ok s : skills_ok (skills_of s) -> skills_ok (rg_skills (purged now s).2).
Proof. apply filter_skills_ok. Qed.

Lemma uninstall_ok id s : skills_ok (skills_of s) -> skills_ok (skills_of (uninstall_skill now id s).1).
Proof.
  intros H. pose proof (purged_ok s H) as Hp. unfold uninstall_skill. destruct (purged now s) as [fs reg]. cbn [snd] in Hp.
  destruct (installed_skill reg id) as [entry|] eqn:Ei; [|done].
  destruct (remove_targets _ _ _ fs) as [fs1 rs]. destruct (trash_managed now _ fs1) as [fs2 []]; unfold skills_of; cbn [fst hub_with hs_reg].
  - apply update_skills_ok; try done. intros e He [Hpl Hid Ht]. by split.
  - by apply filter_skills_ok.
Qed.

Lemma set_targets_ok id ts s : skills_ok (skills_of s) -> skills_ok (skills_of (set_targets now id ts s).1).
Proof.
  intros H. pose proof (purged_ok s H) as Hp. unfold set_targets. destruct (validate_target_ids ts); [|done].
  destruct (purged now s) as [fs reg]. cbn [snd] in Hp.
  destruct (installed_skill reg id) as [entry|] eqn:Ei; [|done]. destruct (retarget_all _ _ _ _ _ fs) as [fs1 rs].
  unfold skills_of; cbn [fst hub_with hs_reg]. apply update_skills_ok; try done.
  intros e He [Hpl Hid Ht]. split; try done. cbn.
  unfold installed_skill, find_skill in Ei. rewrite He in Ei. destruct (is_trashed e) eqn:Et; [done|].
  unfold is_trashed in Et. by destruct (se_trashed_at e).
Qed.

Lemma restore_ok id s : skills_ok (skills_of s) -> skills_ok (skills_of (restore_skill now id s).1).
Proof.
  intros H. pose proof (purged_ok s H) as Hp. unfold restore_skill. destruct (purged now s) as [fs reg]. cbn [snd] in Hp.
  destruct (find_skill reg id) as [e|]; [|done]. destruct (se_trashed_at e) as [t|]; [|done].
  destruct (TRASH_TTL_MS <? _)%Z; [done|]. destruct (se_trashed_directory e) as [name|]; [|done].
  destruct (negb _); [done|]. destruct (rename _ _ _ _) as [fs1|]; [|done]. destruct (sync_targets _ _ _ fs1) as [fs2 rs].
  unfold skills_of; cbn [fst hub_with hs_reg]. apply update_skills_ok; try done.
  intros x Hx [Hpl Hid Ht]. split; try done.
Qed.

Lemma local_id_inj a b : str "local:" ++ a = str "local:" ++ b -> a = b.
Proof. apply app_inv_head. Qed.

Lemma local_id_no_slash D : c_slash ∉ D -> c_slash ∉ str "local:" ++ D.
Proof. intros HD [H|?]%elem_of_app; [|done]. vm_compute in H. set_solver. Qed.

(** What a local skill is called. *)
Lemma target_path_last fs base name dest : target_skill_path fs base name = Some dest -> plain_segment (file_name dest).
Proof.
  unfold target_skill_path. destruct (sanitize_relative_path name) as [rel|] eqn:Er; [|done].
  apply sanitized_paths_stay in Er as (segs & Hne & -> & Hs & Hp & _). unfold segments, file_name. rewrite Hs.
  destruct (match lstat fs base with Some NDir | None => false | Some _ => true end); [done|]. destruct (way_clear _ _ _); [|done].
  intros [= Hd]. subst dest. destruct segs as [|w segs _] using rev_ind; [done|]. rewrite app_assoc, last_snoc. cbn.
  apply Forall_app in Hp as [_ Hp]. by inversion Hp.
Qed.

(** The source is the place of the skill below one of the targets. *)
Lemma local_source_place directory fs source ids : find_local_skill_source directory fs = Ok (Some (source, ids)) ->
  exists root name, root ∈ sr_targets roots /\ target_skill_path fs (tr_dir root) name = Some source.
Proof.
  unfold find_local_skill_source. destruct (sanitize_local_skill_path directory) as [name|]; [|done].
  destruct (existsb _ _); [done|]. induction (sr_targets roots) as [|root rs IH]; [done|]. cbn [omap list_omap].
  destruct (target_skill_path fs (tr_dir root) name) as [c|] eqn:Et.
  - destruct (has_skill_marker links fs c).
    + intros [= <- <-]. exists root, name. split; [left|done].
    + intros (r & n & Hin & Hr)%IH. exists r, n. split; [by right|done].
  - intros (r & n & Hin & Hr)%IH. exists r, n. split; [by right|done].
Qed.

Lemma local_source_plain directory fs source ids : find_local_skill_source directory fs = Ok (Some (source, ids)) ->
  plain_segment (file_name source).
Proof. intros (root & name & _ & Ht)%local_source_place. by eapply target_path_last. Qed.

Lemma import_ok directory ts s : skills_ok (skills_of s) -> skills_ok (skills_of (import_local now directory ts s).1).
Proof.
  intros H. pose proof (purged_ok s H) as Hp. unfold import_local. destruct (validate_target_ids ts); [|done].
  destruct (find_local_skill_source directory (hs_fs s)) as [[[source ids]|]|] eqn:Es; try done. apply local_source_plain in Es.
  destruct (purged now s) as [fs reg]. cbn [snd] in Hp. set (name := file_name source) in *.
  destruct (find _ (rg_skills reg)) as [e|].
  { destruct (se_source_path e); [|done]. pose proof (set_targets_ok (se_id e) (if is_empty ts then se_targets e else ts)
      (hub_with fs (hs_reg s)) H) as Hs. by destruct (set_targets now _ _ _) as [s1 r]. }
  destruct (mkdir_all _ _) as [fs1|]; [|done]. destruct (copy_dir _ _ _ fs1) as [fs2 []]; [|done]. cbn [negb].
  set (entry := local_entry now fs2 name _ source). destruct (sync_targets _ _ _ fs2) as [fs3 rs]. unfold skills_of; cbn [fst hub_with hs_reg with_skills rg_skills].
  apply add_skill_ok; [by apply filter_skills_ok| |].
  - by split.
  - intros x [Hin Hd]%list_elem_of_In%List.filter_In. apply negb_true_iff, str_eqb_neq in Hd. split; [|done].
    destruct Hp as [He _ _]. rewrite Forall_forall in He. apply list_elem_of_In in Hin. apply He in Hin as [_ Hid _]. cbn.
    destruct (se_source_path x); [rewrite Hid; by intros ?%local_id_inj|]. intros Heq. rewrite Heq in Hid. revert Hid. apply local_id_no_slash. apply Es.
Qed.

Lemma plan_install_spec req plan : plan_install req = Ok plan -> plain_segment (ip_name plan) /\ c_slash ∈ ip_id plan.
Proof.
  unfold plan_install. destruct (validate_target_ids _); [|done]. destruct (_ || _); [done|].
  destruct (source_directory_of req) as [src|]; [|done]. destruct (install_name_of req) as [n|] eqn:En; [|done]. intros [= <-]. cbn.
  split; [|set_solver]. unfold install_name_of in En. destruct (ir_install_name req) as [x|].
  { destruct (sanitize_path_segment x) as [y|] eqn:Ex; [|done]. injection En as ->. by apply sanitize_path_segment_spec in Ex as [-> ?]. }
  destruct (is_root _).
  { destruct (sanitize_path_segment _) as [y|] eqn:Ex; [|done]. injection En as ->. by apply sanitize_path_segment_spec in Ex as [-> ?]. }
  destruct (install_name_from_directory _) as [y|] eqn:Ex; [|done]. injection En as ->. by apply install_name_plain in Ex.
Qed.

Lemma install_ok net req s : skills_ok (skills_of s) -> skills_ok (skills_of (install_skill now net req s).1).
Proof.
  intros H. pose proof (purged_ok s H) as Hp. unfold install_skill. destruct (plan_install req) as [plan|] eqn:Epl; [|done].
  apply plan_install_spec in Epl as [Hplain Hslash].
  destruct (purged now s) as [fs reg]. cbn [snd] in Hp. destruct (conflicting plan reg); [done|].
  destruct (fetch_tree_with_fallback _ _ _ _ _) as [[t branch]|]; [|done]. destruct (negb _); [done|]. destruct (_ && _ && _); [done|].
  destruct (mkdir_all _ _) as [fs1|]; [|done]. destruct (stage_files _ _ _ _ _ _ fs1) as [fs2 [|]]; [|done].
  destruct (swap_in _ _ fs2) as [fs3 []]; [|done]. cbn [negb].
  set (entry := repo_entry now req plan fs3 t branch). destruct (sync_targets _ _ _ fs3) as [fs4 rs].
  unfold skills_of; cbn [fst hub_with hs_reg with_skills rg_skills]. apply add_skill_ok; [by apply filter_skills_ok| |].
  - by split.
  - intros x [Hin [Hi Hd]%andb_true_iff]%list_elem_of_In%List.filter_In. apply negb_true_iff, str_eqb_neq in Hi.
    split; [done|]. intros Heq. unfold owns_directory in Hd. rewrite Heq in Hd. unfold eq_ignore_ascii_case in Hd. by rewrite str_eqb_refl in Hd.
Qed.

Lemma step_ok s op : skills_ok (skills_of s) -> skills_ok (skills_of (hub_step s (now, op))).
Proof.
  intros H. destruct op as [req net|id|id|id ts|d ts|d ts|repo|o n]; cbn [hub_step fst snd].
  - by apply install_ok.
  - by apply uninstall_ok.
  - by apply restore_ok.
  - by apply set_targets_ok.
  - by apply import_ok.
  - unfold delete_local. destruct (validate_target_ids ts); [|done].
    destruct (find_local_skill_source d (hs_fs s)) as [[[source ids]|]|]; try done. destruct (existsb _ _); [done|].
    by destruct (remove_targets _ _ _ _).
  - unfold add_repo. by destruct (validated repo).
  - unfold remove_repo. by destruct (_ =? _).
Qed.
End Registry.

(** ** What an operation touches *)

Section Acts.
Context `{HE : HubEnv} `{JT : JsonText}.
Variable now : Z.

(** The hub's directory, and the places of [D] that are not the preserved copy. *)
Definition place_of (D : rstr) (pres : option loc) (l : loc) : Prop :=
  hub `prefix_of` l \/
  exists root, root ∈ sr_targets roots /\ (tr_dir root ++ [D]) `prefix_of` l /\ pres <> Some (tr_dir root ++ [D]).

Definition acts (D : rstr) (pres : option loc) : tree -> tree -> Prop := only (place_of D pres).

(** An operation that leaves the originals of the imports it acts on. *)
Definition careful (s : hub_state) (fs' : tree) : Prop :=
  only (prefix hub) (hs_fs s) fs' \/
  exists D pres, plain_segment D /\ acts D pres (hs_fs s) fs' /\
    forall e p, e ∈ skills_of s -> is_trashed e = false -> se_directory e = D -> se_source_path e = Some p -> pres = Some p.

Lemma hub_prefix x l : (hub ++ x) `prefix_of` l -> hub `prefix_of` l.
Proof. intros H. etransitivity; [|exact H]. by exists x. Qed.

Lemma within_hub D pres x fs fs' : only (prefix (hub ++ x)) fs fs' -> acts D pres fs fs'.
Proof. apply only_mono. intros l Hl. left. by eapply hub_prefix. Qed.

Lemma purge_acts D pres fs r : acts D pres fs (purge_expired_trash hub now fs r).1.
Proof.
  unfold purge_expired_trash. cbn [fst]. generalize (List.filter (expired now) (rg_skills r)) as l. intros l. revert fs.
  induction l as [|e l IH]; intros fs; [by intros ? ?; left|]. cbn [fold_left]. eapply only_trans; [|apply IH].
  unfold drop_trash_copy. destruct (se_trashed_directory e) as [d|]; [|by apply only_refl].
  unfold trash_dir. rewrite <-app_assoc. eapply within_hub, remove_only.
Qed.

Lemma sync_acts D ids pres fs : plain_segment D -> acts D pres fs (sync_targets D ids pres fs).1.
Proof.
  intros HD. unfold sync_targets. apply sweep_only. intros root fs1 Hin.
  eapply only_mono; [|by apply sync_only]. intros l [Hl Hp]. right. exists root. split_and!; [|done..].
  apply list_elem_of_omap in Hin as (id & _ & Hr). unfold root_for in Hr. apply find_some in Hr as [Hr _]. by apply list_elem_of_In.
Qed.

Lemma remove_acts D rs pres fs : plain_segment D -> (forall r, r ∈ rs -> r ∈ sr_targets roots) ->
  acts D pres fs (remove_targets rs D pres fs).1.
Proof.
  intros HD Hrs. unfold remove_targets. apply sweep_only. intros root fs1 Hin.
  eapply only_mono; [|by apply remove_skill_only]. intros l [Hl Hp]. right. exists root. split_and!; [by apply Hrs|done..].
Qed.

Lemma retarget_acts D pres old new fs : plain_segment D -> acts D pres fs (retarget_all D pres old new (sr_targets roots) fs).1.
Proof.
  intros HD. assert (forall r, r ∈ sr_targets roots -> r ∈ sr_targets roots) as Hrs by done. revert Hrs fs.
  generalize (sr_targets roots) at 1 3 as rs. induction rs as [|root rs IH]; intros Hrs fs; [apply only_refl|]. cbn [retarget_all].
  assert (acts D pres fs (retarget D pres old new root fs).1) as H1.
  { unfold retarget. destruct (existsb _ new).
    - pose proof (sync_only (managed D) root D pres fs HD) as H. destruct (sync_skill_to_target _ _ _ _ fs) as [fs1 r].
      eapply only_mono; [|exact H]. intros l [Hl Hp]. right. exists root. split_and!; [apply Hrs; left|done..].
    - destruct (existsb _ old); [|apply only_refl].
      pose proof (remove_skill_only root D pres fs HD) as H. destruct (remove_skill_from_target _ _ _ fs) as [fs1 r].
      eapply only_mono; [|exact H]. intros l [Hl Hp]. right. exists root. split_and!; [apply Hrs; left|done..]. }
  destruct (retarget _ _ _ _ root fs) as [fs1 r1]. cbn [fst] in H1. specialize (IH ltac:(intros; apply Hrs; by right) fs1).
  destruct (retarget_all _ _ _ _ rs fs1) as [fs2 r2]. by eapply only_trans.
Qed.

(** *** One operation *)

Lemma purge_in_hub fs r : only (prefix hub) fs (purge_expired_trash hub now fs r).1.
Proof.
  unfold purge_expired_trash. cbn [fst]. generalize (List.filter (expired now) (rg_skills r)) as l. intros l. revert fs.
  induction l as [|e l IH]; intros fs; [apply only_refl|]. cbn [fold_left]. eapply only_trans; [|apply IH].
  unfold drop_trash_copy. destruct (se_trashed_directory e) as [d|]; [|by apply only_refl].
  eapply only_mono; [|apply remove_only]. intros l' Hl. unfold trash_dir in Hl. rewrite <-app_assoc in Hl. by eapply hub_prefix.
Qed.

Lemma in_hub_acts D pres fs fs' : only (prefix hub) fs fs' -> acts D pres fs fs'.
Proof. apply only_mono. by left. Qed.

Lemma remove_in_hub x fs : only (prefix hub) fs (remove_path (hub ++ x) fs).
Proof. eapply only_mono; [|apply remove_only]. intros l. apply hub_prefix. Qed.

Lemma rename_in_hub x y fs fs' : rename can_rename (hub ++ x) (hub ++ y) fs = Some fs' -> only (prefix hub) fs fs'.
Proof. intros H. apply (rename_only _ _ _ _ _ _ H); intros l; apply hub_prefix. Qed.

Lemma copy_in_hub src x fs : only (prefix hub) fs (copy_dir links src (hub ++ x) fs).1.
Proof. eapply only_mono; [|apply copy_only]. intros l. apply hub_prefix. Qed.

(** Two entries of one directory are one entry. *)
Lemma one_entry l e1 e2 : skills_ok l -> e1 ∈ l -> e2 ∈ l -> se_directory e1 = se_directory e2 -> e1 = e2.
Proof.
  intros [_ _ Hd] H1 H2 Heq. induction l as [|e l IH]; [by apply not_elem_of_nil in H1|]. cbn in Hd. apply NoDup_cons in Hd as [Hn Hd].
  apply elem_of_cons in H1 as [->|H1], H2 as [->|H2]; [done| | |by apply IH]; exfalso; apply Hn.
  - rewrite Heq. by apply list_elem_of_fmap_2.
  - rewrite <-Heq. by apply list_elem_of_fmap_2.
Qed.

Lemma purged_subset e s : e ∈ rg_skills (purged now s).2 -> e ∈ skills_of s.
Proof. intros [H _]%list_elem_of_In%List.filter_In. by apply list_elem_of_In. Qed.

Lemma purged_keeps e s : e ∈ skills_of s -> is_trashed e = false -> e ∈ rg_skills (purged now s).2.
Proof.
  intros H Ht. apply list_elem_of_In, List.filter_In. split; [by apply list_elem_of_In|]. unfold expired, is_trashed in *.
  by destruct (se_trashed_at e).
Qed.

Lemma found_skill reg id e : find_skill reg id = Some e -> e ∈ rg_skills reg.
Proof. intros [H _]%find_some. by apply list_elem_of_In. Qed.

Lemma installed_found reg id e : installed_skill reg id = Some e -> e ∈ rg_skills reg /\ is_trashed e = false.
Proof.
  unfold installed_skill. destruct (find_skill reg id) as [e'|] eqn:E; [|done]. destruct (is_trashed e') eqn:Et; [done|]. intros [= <-].
  split; [by eapply found_skill|done].
Qed.

Lemma entry_plain l e : skills_ok l -> e ∈ l -> plain_segment (se_directory e).
Proof. intros [He _ _] Hin. rewrite Forall_forall in He. by apply He in Hin as []. Qed.

Lemma uninstall_careful id s : skills_ok (skills_of s) -> careful s (hs_fs (uninstall_skill now id s).1).
Proof.
  intros H. pose proof (purge_in_hub (hs_fs s) (hs_reg s) : only _ _ (purged now s).1) as Hp. unfold uninstall_skill.
  pose proof (fun e => purged_subset e s) as Hsub. destruct (purged now s) as [fs reg]. cbn [fst snd] in Hp, Hsub.
  destruct (installed_skill reg id) as [entry|] eqn:Ei; [|by left]. apply installed_found in Ei as [Hin Ht].
  apply Hsub in Hin.
  right. exists (se_directory entry), (se_source_path entry). pose proof (entry_plain _ _ H Hin) as HD. split; [done|]. split.
  - pose proof (remove_acts (se_directory entry) (sr_targets roots) (se_source_path entry) fs HD ltac:(done)) as H1.
    destruct (remove_targets _ _ _ fs) as [fs1 rs]. cbn [fst] in H1.
    assert (only (prefix hub) fs1 (trash_managed now (se_directory entry) fs1).1) as H2.
    { unfold trash_managed, managed, managed_dir, trash_dir. rewrite <-!app_assoc.
      destruct (is_dir_at _ _ _); [|apply remove_in_hub].
      assert (only (prefix hub) fs1 (default fs1 (mkdir_all (hub ++ [str ".trash"]) fs1))) as H3.
      { destruct (mkdir_all _ fs1) as [fs2|] eqn:E; [by eapply mkdir_only|apply only_refl]. }
      destruct (rename _ _ _ _) as [fs2|] eqn:E; [|eapply only_trans; [exact H3|apply remove_in_hub]].
      eapply only_trans; [exact H3|by eapply rename_in_hub]. }
    destruct (trash_managed now _ fs1) as [fs2 trashed]. cbn [fst] in H2. cbn [fst hub_with hs_fs].
    eapply only_trans; [apply in_hub_acts, Hp|]. eapply only_trans; [exact H1|]. eapply only_trans; [apply in_hub_acts, H2|].
    apply purge_acts.
  - intros e p He _ Hd Hs. by rewrite <-(one_entry _ _ _ H He Hin Hd).
Qed.

Lemma set_targets_careful id ts s : skills_ok (skills_of s) -> careful s (hs_fs (set_targets now id ts s).1).
Proof.
  intros H. pose proof (purge_in_hub (hs_fs s) (hs_reg s) : only _ _ (purged now s).1) as Hp. unfold set_targets.
  destruct (validate_target_ids ts); [|by left].
  pose proof (fun e => purged_subset e s) as Hsub. destruct (purged now s) as [fs reg]. cbn [fst snd] in Hp, Hsub.
  destruct (installed_skill reg id) as [entry|] eqn:Ei; [|by left]. apply installed_found in Ei as [Hin Ht].
  apply Hsub in Hin. right. exists (se_directory entry), (se_source_path entry). pose proof (entry_plain _ _ H Hin) as HD.
  split; [done|]. split.
  - pose proof (retarget_acts (se_directory entry) (se_source_path entry) (se_targets entry) ts fs HD) as H1.
    destruct (retarget_all _ _ _ _ _ fs) as [fs1 rs]. eapply only_trans; [apply in_hub_acts, Hp|exact H1].
  - intros e p He _ Hd Hs. by rewrite <-(one_entry _ _ _ H He Hin Hd).
Qed.

Lemma restore_careful id s : skills_ok (skills_of s) -> careful s (hs_fs (restore_skill now id s).1).
Proof.
  intros H. pose proof (purge_in_hub (hs_fs s) (hs_reg s) : only _ _ (purged now s).1) as Hp. unfold restore_skill.
  pose proof (fun e => purged_subset e s) as Hsub. destruct (purged now s) as [fs reg]. cbn [fst snd] in Hp, Hsub.
  destruct (find_skill reg id) as [entry|] eqn:Ef; [|by left]. apply found_skill, Hsub in Ef as Hin.
  destruct (se_trashed_at entry) as [t|] eqn:Et; [|by left].
  destruct (TRASH_TTL_MS <? _)%Z; [by left|]. destruct (se_trashed_directory entry) as [name|]; [|by left].
  destruct (negb _); [by left|].
  assert (only (prefix hub) (hs_fs s) (remove_path (managed (se_directory entry)) fs)) as H1.
  { eapply only_trans; [exact Hp|]. unfold managed, managed_dir. rewrite <-app_assoc. apply remove_in_hub. }
  generalize dependent (remove_path (managed (se_directory entry)) fs). intros fs0 H1.
  destruct (rename _ _ _ _) as [fs1|] eqn:Er; [|by left].
  assert (only (prefix hub) (hs_fs s) fs1) as H2.
  { eapply only_trans; [exact H1|]. unfold managed, managed_dir, trash_dir in Er. rewrite <-!app_assoc in Er. by eapply rename_in_hub. }
  pose proof (entry_plain _ _ H Hin) as HD. right. exists (se_directory entry), None. split; [done|]. split.
  - pose proof (sync_acts (se_directory entry) (default [] (se_previous_targets entry)) None fs1 HD) as H3.
    destruct (sync_targets _ _ _ fs1) as [fs2 rs]. eapply only_trans; [apply in_hub_acts, H2|exact H3].
  - intros e p He Ht Hd _. rewrite (one_entry _ _ _ H He Hin Hd) in Ht. unfold is_trashed in Ht. by rewrite Et in Ht.
Qed.

Lemma careful_after fs s fs' : only (prefix hub) (hs_fs s) fs -> careful (hub_with fs (hs_reg s)) fs' -> careful s fs'.
Proof.
  intros H1 [H2|(D & pres & HD & Ha & Hc)]; [left; exact (only_trans _ _ _ _ H1 H2)|]. right. exists D, pres. split; [done|]. split; [|done].
  eapply only_trans; [apply in_hub_acts, H1|exact Ha].
Qed.

(** No managed skill of the name. *)
Lemma unmanaged_careful D pres s fs' : plain_segment D -> acts D pres (hs_fs s) fs' ->
  (forall e, e ∈ skills_of s -> is_trashed e = false -> se_directory e = D -> False) -> careful s fs'.
Proof. intros HD Ha Hno. right. exists D, pres. split; [done|]. split; [done|]. intros e p He Ht Hd _. by destruct (Hno e He Ht Hd). Qed.

Lemma import_careful directory ts s : skills_ok (skills_of s) -> careful s (hs_fs (import_local now directory ts s).1).
Proof.
  intros H. pose proof (purge_in_hub (hs_fs s) (hs_reg s) : only _ _ (purged now s).1) as Hp. unfold import_local.
  assert (careful s (hs_fs s)) as Hid by (left; apply only_refl).
  destruct (validate_target_ids ts); [|exact Hid].
  destruct (find_local_skill_source directory (hs_fs s)) as [[[source ids]|]|] eqn:Es; [|exact Hid..]. apply local_source_plain in Es as HD.
  pose proof (fun e => purged_keeps e s) as Hsub. destruct (purged now s) as [fs reg]. cbn [fst snd] in Hp, Hsub. set (D := file_name source) in *.
  destruct (find _ (rg_skills reg)) as [e|] eqn:Ef.
  { destruct (se_source_path e); [|by left]. pose proof (set_targets_careful (se_id e) (if is_empty ts then se_targets e else ts)
      (hub_with fs (hs_reg s)) H) as Hs. destruct (set_targets now _ _ _) as [s1 r]. by eapply careful_after. }
  assert (only (prefix hub) (hs_fs s) (remove_path (managed D) fs)) as H1.
  { eapply only_trans; [exact Hp|]. unfold managed, managed_dir. rewrite <-app_assoc. apply remove_in_hub. }
  destruct (mkdir_all _ _) as [fs1|] eqn:Em; [|by left].
  assert (only (prefix hub) (hs_fs s) (copy_dir links source (managed D) fs1).1) as H2.
  { eapply only_trans; [exact H1|]. eapply only_trans; [by eapply mkdir_only|]. unfold managed, managed_dir. rewrite <-app_assoc. apply copy_in_hub. }
  destruct (copy_dir _ _ _ fs1) as [fs2 []]; [|by left]. cbn [negb fst] in H2 |- *.
  pose proof (sync_acts D (if is_empty ts then ids else ts) (Some source) fs2 HD) as H3.
  destruct (sync_targets _ _ _ fs2) as [fs3 rs]. cbn [fst hub_with hs_fs]. apply (unmanaged_careful D (Some source)); [done| |].
  - eapply only_trans; [apply in_hub_acts, H2|exact H3].
  - intros e He Ht Hd. pose proof (find_none _ _ Ef e) as Hn. specialize (Hsub e He Ht). apply list_elem_of_In in Hsub.
    apply Hn in Hsub. unfold same_directory in Hsub. by rewrite Ht, Hd, str_eqb_refl in Hsub.
Qed.

Lemma delete_careful directory ts s : careful s (hs_fs (delete_local directory ts s).1).
Proof.
  unfold delete_local. assert (careful s (hs_fs s)) as Hid by (left; apply only_refl).
  destruct (validate_target_ids ts); [|exact Hid].
  destruct (find_local_skill_source directory (hs_fs s)) as [[[source ids]|]|] eqn:Es; [|exact Hid..]. apply local_source_plain in Es as HD.
  destruct (existsb _ (rg_skills (hs_reg s))) eqn:Ex; [exact Hid|]. set (selected := if is_empty ts then _ else _).
  pose proof (remove_acts (file_name source) selected (Some source) (hs_fs s) HD) as H1.
  destruct (remove_targets selected _ _ _) as [fs1 rs]. cbn [fst hub_with hs_fs] in *. apply (unmanaged_careful (file_name source) (Some source)); [done| |].
  - apply H1. unfold selected. intros r Hr. destruct (is_empty ts); [done|]. apply list_elem_of_In, List.filter_In in Hr as [Hr _].
    by apply list_elem_of_In.
  - intros e He Ht Hd. rewrite <-not_true_iff_false in Ex. apply Ex, existsb_exists. exists e. split; [by apply list_elem_of_In|].
    unfold same_directory. by rewrite Ht, Hd, str_eqb_refl.
Qed.

Lemma stage_in_hub get req branch source x files fs :
  only (prefix hub) fs (stage_files get req branch source (hub ++ x) files fs).1.
Proof.
  revert fs. induction files as [|rel files IH]; intros fs; [apply only_refl|]. cbn [stage_files].
  destruct (sanitize_relative_path rel) as [safe|]; [|apply IH]. destruct (get _) as [body|]; [|apply remove_in_hub].
  rewrite <-app_assoc. destruct (mkdir_all _ fs) as [fs1|] eqn:Em; [|apply remove_in_hub].
  assert (only (prefix hub) fs fs1) as H1 by (by eapply mkdir_only).
  destruct (write_file _ body fs1) as [fs2|] eqn:Ew; [|eapply only_trans; [exact H1|apply remove_in_hub]].
  eapply only_trans; [exact H1|]. eapply only_trans; [|apply IH]. eapply only_mono; [|by eapply write_only].
  intros l. apply hub_prefix.
Qed.

Lemma swap_in_hub x y fs : only (prefix hub) fs (swap_in (hub ++ x) (hub ++ y) fs).1.
Proof.
  unfold swap_in. pose proof (remove_in_hub y fs) as H1. destruct (mkdir_all _ _) as [fs1|] eqn:Em; [|exact H1].
  assert (only (prefix hub) fs fs1) as H2 by (eapply only_trans; [exact H1|by eapply mkdir_only]).
  destruct (rename _ _ _ fs1) as [fs2|] eqn:Er; (eapply only_trans; [exact H2|]); [by eapply rename_in_hub|apply remove_in_hub].
Qed.

Lemma install_careful net req s : skills_ok (skills_of s) -> careful s (hs_fs (install_skill now net req s).1).
Proof.
  intros H. pose proof (purge_in_hub (hs_fs s) (hs_reg s) : only _ _ (purged now s).1) as Hp. unfold install_skill.
  destruct (plan_install req) as [plan|] eqn:Epl; [|left; apply only_refl]. apply plan_install_spec in Epl as [HD Hslash].
  pose proof (fun e => purged_keeps e s) as Hsub. destruct (purged now s) as [fs reg]. cbn [fst snd] in Hp, Hsub.
  destruct (conflicting plan reg) eqn:Ec; [by left|].
  destruct (fetch_tree_with_fallback _ _ _ _ _) as [[t branch]|]; [|by left]. destruct (negb _); [by left|]. destruct (_ && _ && _); [by left|].
  unfold tmp_dir. rewrite <-app_assoc. set (x := [str "tmp"] ++ _).
  assert (only (prefix hub) (hs_fs s) (remove_path (hub ++ x) fs)) as H1 by (eapply only_trans; [exact Hp|apply remove_in_hub]).
  destruct (mkdir_all _ _) as [fs1|] eqn:Em; [|by left].
  assert (only (prefix hub) (hs_fs s) fs1) as H2 by (eapply only_trans; [exact H1|by eapply mkdir_only]).
  pose proof (stage_in_hub net req branch (ip_source plan) x (blobs_under t (ip_source plan)) fs1) as H3.
  destruct (stage_files _ _ _ _ _ _ fs1) as [fs2 [|]]; [|left; by eapply only_trans].
  assert (only (prefix hub) (hs_fs s) (swap_in (hub ++ x) (managed (ip_name plan)) fs2).1) as H4.
  { eapply only_trans; [exact H2|]. eapply only_trans; [exact H3|]. unfold managed, managed_dir. rewrite <-app_assoc. apply swap_in_hub. }
  destruct (swap_in _ _ fs2) as [fs3 []]; [|by left]. cbn [negb fst] in H4 |- *.
  pose proof (sync_acts (ip_name plan) (ir_targets req) None fs3 HD) as H5.
  destruct (sync_targets _ _ _ fs3) as [fs4 rs]. right. exists (ip_name plan), None. split; [done|]. split.
  - eapply only_trans; [apply in_hub_acts, H4|exact H5].
  - intros e p He Ht Hd Hs. exfalso. rewrite <-not_true_iff_false in Ec. apply Ec, existsb_exists. exists e.
    split; [apply list_elem_of_In; by apply Hsub|]. unfold owns_directory. rewrite Ht, Hd. cbn.
    unfold eq_ignore_ascii_case. rewrite str_eqb_refl. cbn. apply negb_true_iff, str_eqb_neq. intros Hid.
    destruct H as [He' _ _]. rewrite Forall_forall in He'. apply He' in He as [_ Hi _]. rewrite Hs, Hid in Hi. rewrite Hi in Hslash.
    revert Hslash. apply local_id_no_slash. rewrite Hd. apply HD.
Qed.

Lemma drop_cache_in_hub fs : only (prefix hub) fs (drop_cache fs).
Proof. unfold drop_cache. destruct (lstat fs _) as [[]|]; try apply remove_in_hub; apply only_refl. Qed.

Lemma step_careful s op : skills_ok (skills_of s) -> careful s (hs_fs (hub_step s (now, op))).
Proof.
  intros H. destruct op as [req net|id|id|id ts|d ts|d ts|repo|o n]; cbn [hub_step fst snd].
  - by apply install_careful.
  - by apply uninstall_careful.
  - by apply restore_careful.
  - by apply set_targets_careful.
  - by apply import_careful.
  - by apply delete_careful.
  - left. unfold add_repo. destruct (validated repo); [apply drop_cache_in_hub|apply only_refl].
  - left. unfold remove_repo. destruct (_ =? _); [apply only_refl|apply drop_cache_in_hub].
Qed.
End Acts.

(** ** The properties *)

Section Properties.
Context `{HE : HubEnv} `{JT : JsonText}.

Lemma run_ok ops s : skills_ok (skills_of s) -> skills_ok (skills_of (fold_left hub_step ops s)).
Proof. revert s. induction ops as [|[now op] ops IH]; intros s H; [done|]. by apply IH, step_ok. Qed.

Lemma new_hub_ok fs repos : skills_ok (skills_of (hub_with fs {| rg_repos := repos; rg_skills := [] |})).
Proof. by split; constructor. Qed.

(** C25: the registry stays well formed over every sequence of operations on a new
    hub: no two entries share an id or a directory, every directory is one plain
    name, the id of an import is made from its directory and no other id can be
    mistaken for it, and the fields of the trash go together, with no targets
    left to a trashed skill. *)
Theorem registry_stays_well_formed (ops : list (Z * hub_op)) (fs : tree) (repos : list RepoEntry) :
  skills_ok (skills_of (fold_left hub_step ops (hub_with fs {| rg_repos := repos; rg_skills := [] |}))).
Proof. apply run_ok, new_hub_ok. Qed.

(** What an operation may touch, after any history: the hub's own directory,
    and below each skill directory what stands under one plain name, the same in
    all; elsewhere nothing changes but that missing directories may be made. *)
Theorem one_name_touched (ops : list (Z * hub_op)) (fs : tree) (repos : list RepoEntry) (now : Z) (op : hub_op) :
  let s := fold_left hub_step ops (hub_with fs {| rg_repos := repos; rg_skills := [] |}) in
  exists D, plain_segment D /\
    only (fun l => hub `prefix_of` l \/ exists root, root ∈ sr_targets roots /\ (tr_dir root ++ [D]) `prefix_of` l)
      (hs_fs s) (hs_fs (hub_step s (now, op))).
Proof.
  intros s. destruct (step_careful now s op (run_ok _ _ (new_hub_ok fs repos))) as [H|(D & pres & HD & Ha & _)].
  - exists (str "x"). split; [apply (sanitize_path_segment_spec _ (str "x")); reflexivity|]. eapply only_mono; [|exact H]. by left.
  - exists D. split; [done|]. eapply only_mono; [|exact Ha]. intros l [Hl|(root & Hr & Hl & _)]; [by left|right; by exists root].
Qed.

(** C24: while a local import is managed, no operation touches the user's own
    copy: whatever is installed, imported, retargeted, deleted, restored or
    uninstalled, that skill itself included, every file, link and directory of
    the original is still there unchanged; for an original directly in a skill
    directory, with skill directories that are apart from each other and from
    the hub. *)
Theorem originals_kept (s : hub_state) (now : Z) (op : hub_op) (e : SkillEntry) (root : TargetRoot) (l : loc) (n : node) :
  skills_ok (skills_of s) -> e ∈ skills_of s -> is_trashed e = false ->
  root ∈ sr_targets roots -> se_source_path e = Some (tr_dir root ++ [se_directory e]) ->
  ~ hub `prefix_of` l ->
  (forall r, r ∈ sr_targets roots -> tr_dir r `prefix_of` l -> tr_dir r = tr_dir root) ->
  (tr_dir root ++ [se_directory e]) `prefix_of` l -> hs_fs s !! l = Some n ->
  hs_fs (hub_step s (now, op)) !! l = Some n.
Proof.
  intros Hok He Ht Hr Hs Hh Hd Hl Hn.
  assert (forall fs' P, only P (hs_fs s) fs' -> ~ P l -> fs' !! l = Some n) as Hkeep.
  { intros fs' P HP HnP. destruct (HP l HnP) as [->|[? _]]; congruence. }
  destruct (step_careful now s op Hok) as [H|(D & pres & HD & Ha & Hc)]; [by eapply Hkeep|]. eapply Hkeep; [exact Ha|].
  intros [?|(r & Hin & Hpre & Hne)]; [done|].
  assert (tr_dir r = tr_dir root) as Heq by (apply Hd; [done|]; etransitivity; [|exact Hpre]; by exists [D]). rewrite Heq in Hpre, Hne.
  assert (D = se_directory e) as ->.
  { destruct Hpre as [x1 ->], Hl as [x2 Hx]. rewrite <-!app_assoc in Hx. apply app_inv_head in Hx. by injection Hx. }
  apply Hne. by apply (Hc e).
Qed.
End Properties.
