(* ===== verification/SkillTrash.v ===== *)
(** * SkillTrash: the trash of the skills hub gives back what it took

    A skill uninstalled into the trash and restored in time. *)

From S2P Require Import Prelude Str Json Jail SkillText SkillFs SkillsHub SkillFacts.

(** ** Directories all the way *)

Definition dirs (fs : tree) (l : loc) : Prop := real_dir (plain fs) l.

Lemma is_dir_plain fs l : is_dir (plain fs) l = dir_here fs l.
Proof.
  unfold is_dir, dir_here, lstat, plain. destruct l as [|x l]; [done|]. rewrite lookup_fmap. by destruct (fs !! (x :: l)) as [[]|].
Qed.

Lemma dirs_is_dir_at links fs l : dirs fs l -> is_dir_at links fs l = true.
Proof.
  intros H. unfold is_dir_at, node_at, follow, canonicalize. rewrite walk_real_self by (by left). cbn.
  apply real_dir_self in H. rewrite is_dir_plain in H. unfold dir_here in H. by destruct (lstat fs l) as [[]|].
Qed.

Lemma dirs_transfer fs fs' l : dirs fs l -> (forall k, k `prefix_of` l -> fs !! k = Some NDir -> fs' !! k = Some NDir) -> dirs fs' l.
Proof.
  intros H Hk k Hlen. specialize (H k Hlen). rewrite is_dir_plain in *. unfold dir_here, lstat in *.
  destruct (take k l) as [|x m] eqn:E; [done|]. rewrite <-E in *.
  rewrite (Hk (take k l)); [done|eexists; symmetry; apply take_drop|]. by destruct (fs !! take k l) as [[]|].
Qed.

(** ** The first entry that answers *)

Lemma find_filter {A} (p q : A -> bool) l x : find p l = Some x -> q x = true -> find p (List.filter q l) = Some x.
Proof.
  induction l as [|y l IH]; [done|]. cbn. destruct (p y) eqn:Ep.
  - intros [= ->] Hq. rewrite Hq. cbn. by rewrite Ep.
  - intros H Hq. destruct (q y); [cbn; rewrite Ep|]; by apply IH.
Qed.

Lemma find_update_first {A} (p : A -> bool) f l x : find p l = Some x -> p (f x) = true -> find p (update_first p f l) = Some (f x).
Proof.
  induction l as [|y l IH]; [done|]. cbn. destruct (p y) eqn:Ep.
  - intros [= ->] Hf. cbn. by rewrite Hf.
  - intros H Hf. cbn. rewrite Ep. by apply IH.
Qed.

Lemma filter_nil {A} (p : A -> bool) l : Forall (fun x => p x = false) l -> List.filter p l = [].
Proof. induction 1 as [|x l Hx _ IH]; [done|]. cbn. by rewrite Hx. Qed.

Section Trash.
Context `{HE : HubEnv} `{JT : JsonText}.

(** Nothing is left to purge right after a purge. *)
Lemma purged_twice now id f fs (s : hub_state) : (forall e, expired now (f e) = false) ->
  (purge_expired_trash hub now fs (update_skill id f (purged now s).2)).1 = fs.
Proof.
  intros Hf. unfold purge_expired_trash, update_skill. cbn [fst with_skills rg_skills]. rewrite filter_nil; [done|].
  apply update_first_Forall; [by intros|]. cbn. rewrite Forall_forall. intros e [_ He]%list_elem_of_In%List.filter_In.
  by apply negb_true_iff in He.
Qed.

(** A purge leaves alone what no expired entry names. *)
Lemma purge_keeps now fs r l :
  (forall e d, e ∈ rg_skills r -> expired now e = true -> se_trashed_directory e = Some d -> ~ (trash_dir hub ++ [d]) `prefix_of` l) ->
  (purge_expired_trash hub now fs r).1 !! l = fs !! l.
Proof.
  intros Hl. unfold purge_expired_trash. cbn [fst].
  assert (forall e d, e ∈ List.filter (expired now) (rg_skills r) -> se_trashed_directory e = Some d ->
    inside (trash_dir hub ++ [d]) l = false) as Hn.
  { intros e d [Hin He]%list_elem_of_In%List.filter_In Hd. apply inside_not. apply (Hl e); [by apply list_elem_of_In|done..]. }
  clear Hl. revert fs Hn. induction (List.filter _ _) as [|e es IH]; intros fs Hn; [done|]. cbn [fold_left].
  rewrite IH by (intros; eapply Hn; [by right|done]). unfold drop_trash_copy. specialize (Hn e).
  destruct (se_trashed_directory e) as [d|]; [|done]. rewrite remove_lookup. by rewrite (Hn d ltac:(left) eq_refl).
Qed.

(** A trash copy shares its way with no other. *)
Lemma other_trash d name l : l `prefix_of` (trash_dir hub ++ [name]) \/ (trash_dir hub ++ [name]) `prefix_of` l ->
  (trash_dir hub ++ [d]) `prefix_of` l -> d = name.
Proof.
  intros [H1|[y ->]] H2.
  - assert ((trash_dir hub ++ [d]) `prefix_of` (trash_dir hub ++ [name])) as [z Hz] by (by etransitivity).
    rewrite <-app_assoc in Hz. apply app_inv_head in Hz. by injection Hz.
  - destruct H2 as [z Hz]. rewrite <-!app_assoc in Hz. apply app_inv_head in Hz. by injection Hz.
Qed.

(** What a sync of targets touches. *)
Lemma sync_targets_only D ids pres fs : plain_segment D ->
  only (fun l => exists root, root ∈ sr_targets roots /\ (tr_dir root ++ [D]) `prefix_of` l) fs (sync_targets D ids pres fs).1.
Proof.
  intros HD. unfold sync_targets. apply sweep_only. intros root fs1 Hin.
  eapply only_mono; [|by apply sync_only]. intros l [Hl Hp]. exists root. split; [|done].
  apply list_elem_of_omap in Hin as (id & _ & Hr). unfold root_for in Hr. apply find_some in Hr as [Hr _]. by apply list_elem_of_In.
Qed.

Lemma remove_targets_only D pres fs : plain_segment D ->
  only (fun l => exists root, root ∈ sr_targets roots /\ (tr_dir root ++ [D]) `prefix_of` l) fs
    (remove_targets (sr_targets roots) D pres fs).1.
Proof.
  intros HD. unfold remove_targets. apply sweep_only. intros root fs1 Hin.
  eapply only_mono; [|by apply remove_skill_only]. intros l [Hl Hp]. by exists root.
Qed.

Lemma only_keeps P fs fs' l n : only P fs fs' -> ~ P l -> fs !! l = Some n -> fs' !! l = Some n.
Proof. intros H HP Hn. destruct (H l HP) as [->|[? _]]; congruence. Qed.

Definition copy_of (now : Z) (D : rstr) : loc := trash_dir hub ++ [trash_name now D].

(** The places of [D] in the skill directories are apart from the hub. *)
Definition apart (D : rstr) : Prop :=
  forall root l, root ∈ sr_targets roots -> hub `prefix_of` l -> ~ (tr_dir root ++ [D]) `prefix_of` l.

Lemma managed_in_hub D x : hub `prefix_of` (managed D ++ x).
Proof. unfold managed, managed_dir. rewrite <-!app_assoc. by eexists. Qed.

Lemma copied_in_hub now D x : hub `prefix_of` (copy_of now D ++ x).
Proof. unfold copy_of, trash_dir. rewrite <-!app_assoc. by eexists. Qed.

Lemma managed_not_trash D x : ~ trash_dir hub `prefix_of` (managed D ++ x).
Proof. unfold managed, managed_dir, trash_dir. intros [y Hy]. rewrite <-!app_assoc in Hy. apply app_inv_head in Hy. discriminate Hy. Qed.

Lemma managed_not_copy now D l : (managed D) `prefix_of` l -> ~ (copy_of now D) `prefix_of` l.
Proof.
  intros [x ->] [y Hy]. apply (managed_not_trash D x). exists ([trash_name now D] ++ y). rewrite Hy. unfold copy_of. by rewrite <-!app_assoc.
Qed.

(** A step up from the managed copy is not below it, nor below the trash copy. *)
Lemma above_managed now D k : k `prefix_of` managed_dir hub -> ~ (managed D) `prefix_of` k /\ ~ (copy_of now D) `prefix_of` k.
Proof.
  intros Hk. split; intros H.
  - assert (managed D `prefix_of` managed_dir hub) as Hl%prefix_length by (by etransitivity).
    unfold managed in Hl. rewrite length_app in Hl. simpl in Hl. lia.
  - assert (copy_of now D `prefix_of` managed_dir hub) as Hl%prefix_length by (by etransitivity).
    unfold copy_of, trash_dir, managed_dir in Hl. rewrite !length_app in Hl. simpl in Hl. lia.
Qed.

Lemma apart_keeps D fs fs' k l n : apart D ->
  only (fun l => exists root, root ∈ sr_targets roots /\ (tr_dir root ++ [D]) `prefix_of` l) fs fs' ->
  hub `prefix_of` l -> k `prefix_of` l -> fs !! k = Some n -> fs' !! k = Some n.
Proof. intros Ha Ho Hl Hk. apply (only_keeps _ _ _ _ _ Ho). intros (root & Hr & Hp). apply (Ha root l Hr Hl). by etransitivity. Qed.

(** Into the trash. *)
Lemma trash_managed_spec now D fs fs' : dirs fs (managed D) -> trash_managed now D fs = (fs', true) ->
  dirs fs' (copy_of now D) /\ dirs fs' (managed_dir hub) /\
  forall x n, fs !! (managed D ++ x) = Some n -> fs' !! (copy_of now D ++ x) = Some n.
Proof.
  intros Hd. unfold trash_managed. destruct (is_dir_at links fs (managed D)); [|done]. fold (copy_of now D).
  set (fs0 := default fs (mkdir_all (trash_dir hub) fs)).
  assert (forall k n, fs !! k = Some n -> fs0 !! k = Some n) as H0.
  { intros k n Hk. unfold fs0. destruct (mkdir_all (trash_dir hub) fs) as [fs1|] eqn:E; [|done]. by eapply mkdir_all_keeps. }
  destruct (rename can_rename (managed D) (copy_of now D) fs0) as [fs1|] eqn:Er; [|done]. intros [= <-].
  assert (forall x n, fs !! (managed D ++ x) = Some n -> fs1 !! (copy_of now D ++ x) = Some n) as Hmoved.
  { intros x n Hn. rewrite (rename_lookup _ _ _ _ _ _ Er), inside_app, drop_app_length. by rewrite (H0 _ _ Hn). }
  assert (forall k, k `prefix_of` managed_dir hub -> fs0 !! k = Some NDir -> fs1 !! k = Some NDir) as Hup.
  { intros k Hk Hn. rewrite (rename_lookup _ _ _ _ _ _ Er). destruct (above_managed now D k Hk) as [Ha Hb].
    apply inside_not in Ha, Hb. by rewrite Ha, Hb. }
  assert (dirs fs1 (managed_dir hub)) as Hm.
  { eapply dirs_transfer; [by eapply real_dir_prefix|]. intros k Hk Hn. apply Hup; [done|by apply H0]. }
  split; [|done]. unfold copy_of, trash_dir. apply real_dir_snoc; [apply real_dir_snoc; [by eapply real_dir_prefix|]|].
  - assert (dir_here fs0 (trash_dir hub) = true) as Ht.
    { unfold rename in Er. destruct (lstat fs0 (managed D)); [|done]. destruct (lstat fs0 (copy_of now D)); [done|].
      destruct (_ && _ && _) eqn:E; [|done]. apply andb_true_iff in E as [[_ E]%andb_true_iff _]. unfold parent, copy_of in E.
      by rewrite removelast_last in E. }
    unfold plain. rewrite lookup_fmap, (rename_lookup _ _ _ _ _ _ Er).
    destruct (inside (copy_of now D) _) eqn:Ei.
    { exfalso. apply inside_spec, prefix_length in Ei. unfold copy_of, trash_dir in Ei. rewrite !length_app in Ei. simpl in Ei. lia. }
    destruct (inside (managed D) _) eqn:Ej.
    { exfalso. apply inside_spec in Ej as [y Hy]. apply (managed_not_trash D y). exists []. by rewrite app_nil_r. }
    unfold dir_here, lstat, trash_dir in Ht. destruct (hub ++ [str ".trash"]) as [|z zs] eqn:Ez; [by destruct hub|].
    by destruct (fs0 !! (z :: zs)) as [[]|].
  - unfold plain. rewrite lookup_fmap. specialize (Hmoved [] NDir). rewrite !app_nil_r in Hmoved.
    unfold copy_of, trash_dir in Hmoved. rewrite Hmoved; [done|]. apply real_dir_self in Hd. rewrite is_dir_plain in Hd.
    unfold dir_here, lstat, managed, managed_dir in *. destruct ((hub ++ [str "managed"]) ++ [D]) as [|z zs] eqn:Ez; [by destruct hub|].
    by destruct (fs !! (z :: zs)) as [[]|].
Qed.


(** An uninstall that ends in the trash. *)
Lemma uninstall_spec now id s e s1 o : skills_ok (skills_of s) -> installed_skill (purged now s).2 id = Some e ->
  dirs (hs_fs s) (managed (se_directory e)) -> apart (se_directory e) ->
  uninstall_skill now id s = (s1, Ok o) -> uo_trashed o = true ->
  hs_reg s1 = update_skill id (trash_entry now (trash_name now (se_directory e))) (purged now s).2 /\
  dirs (hs_fs s1) (copy_of now (se_directory e)) /\ dirs (hs_fs s1) (managed_dir hub) /\
  forall x n, hs_fs s !! (managed (se_directory e) ++ x) = Some n -> hs_fs s1 !! (copy_of now (se_directory e) ++ x) = Some n.
Proof.
  intros Hok Hi Hd Ha. set (D := se_directory e) in *. unfold uninstall_skill.
  assert (plain_segment D) as HD.
  { apply installed_found in Hi as [Hin%purged_subset _]. by apply (entry_plain _ _ Hok). }
  pose proof (fun f fs => purged_twice now id f fs s) as Htwice.
  assert (forall k n, k `prefix_of` managed D \/ managed D `prefix_of` k ->
    hs_fs s !! k = Some n -> (purged now s).1 !! k = Some n) as Hp.
  { intros k n Hk Hn. rewrite <-Hn. apply purge_keeps. intros x d _ _ _ Hx.
    assert (trash_dir hub `prefix_of` k) as Ht by (etransitivity; [|exact Hx]; by exists [d]).
    destruct Hk as [Hk|[y ->]]; [|by apply (managed_not_trash D y)].
    apply (managed_not_trash D []). rewrite app_nil_r. by etransitivity. }
  destruct (purged now s) as [fs reg]. cbn [fst snd] in *. rewrite Hi.
  pose proof (remove_targets_only D (se_source_path e) fs HD) as Hr. fold D.
  destruct (remove_targets _ D _ fs) as [fs1 rs]. cbn [fst] in Hr.
  assert (forall k x n, k `prefix_of` (managed D ++ x) -> fs !! k = Some n -> fs1 !! k = Some n) as Hr'.
  { intros k x n Hk. apply (apart_keeps D fs fs1 k (managed D ++ x) n Ha Hr); [apply managed_in_hub|done]. }
  assert (dirs fs1 (managed D)) as Hd1.
  { apply (dirs_transfer (hs_fs s)); [done|]. intros k Hk Hn. apply (Hr' k [] NDir); [by rewrite app_nil_r|]. apply Hp; [by left|done]. }
  destruct (trash_managed now D fs1) as [fs2 trashed] eqn:Et. intros [= <- <-]. cbn [uo_trashed]. intros ->.
  destruct (trash_managed_spec now D fs1 fs2 Hd1 Et) as (H1 & H2 & H3). cbn [hub_with hs_reg hs_fs].
  unfold purge_expired_trash in Htwice. cbn [fst] in Htwice.
  rewrite Htwice by (intros x; unfold expired; cbn; by rewrite Z.sub_diag).
  split_and!; [done..|]. intros x n Hn. apply H3, (Hr' _ x); [done|]. apply Hp; [right; by eexists|done].
Qed.

(** *** Out of the trash *)

Lemma dir_here_dirs fs l : dirs fs l -> dir_here fs l = true.
Proof. intros H%real_dir_self. by rewrite is_dir_plain in H. Qed.

Lemma dir_here_removed fs p l : ~ p `prefix_of` l -> dir_here (remove_path p fs) l = dir_here fs l.
Proof. intros H%inside_not. unfold dir_here, lstat. destruct l; [done|]. by rewrite remove_lookup, H. Qed.

(** The way back is free once the managed place is cleared. *)
Lemma rename_back fs name D : dirs fs (trash_dir hub ++ [name]) -> dirs fs (managed_dir hub) ->
  can_rename (trash_dir hub ++ [name]) (managed D) = true ->
  exists fs', rename can_rename (trash_dir hub ++ [name]) (managed D) (remove_path (managed D) fs) = Some fs' /\
    forall x n, fs !! ((trash_dir hub ++ [name]) ++ x) = Some n -> fs' !! (managed D ++ x) = Some n.
Proof.
  intros Hc Hm Hcan. set (copy := trash_dir hub ++ [name]) in *.
  assert (forall x, ~ managed D `prefix_of` (copy ++ x)) as Hapart.
  { intros x [y Hy]. apply (managed_not_trash D y). exists ([name] ++ x). rewrite <-Hy. unfold copy. by rewrite <-!app_assoc. }
  destruct (rename can_rename copy (managed D) (remove_path (managed D) fs)) as [fs'|] eqn:Er.
  - exists fs'. split; [done|]. intros x n Hn. rewrite (rename_lookup _ _ _ _ _ _ Er), inside_app, drop_app_length, remove_lookup.
    specialize (Hapart x). apply inside_not in Hapart. by rewrite Hapart, Hn.
  - exfalso. unfold rename in Er. pose proof (Hapart []) as Ha0. rewrite app_nil_r in Ha0.
    pose proof (dir_here_dirs _ _ Hc) as Hdc. rewrite <-(dir_here_removed fs (managed D)) in Hdc by done.
    unfold dir_here in Hdc at 1. destruct (lstat (remove_path (managed D) fs) copy) as [[]|]; try done.
    assert (lstat (remove_path (managed D) fs) (managed D) = None) as Hl.
    { unfold lstat. destruct (managed D) as [|z zs] eqn:Ez; [by apply app_nil in Ez as [_ ?]|]. rewrite <-Ez, remove_lookup.
      pose proof (inside_app (managed D) []) as Hi. rewrite app_nil_r in Hi. by rewrite Hi. }
    rewrite Hl, Hcan in Er. unfold parent in Er. unfold managed at 2 in Er. rewrite removelast_last in Er.
    rewrite dir_here_removed in Er by apply (above_managed 0 D _ (reflexivity _)). rewrite (dir_here_dirs _ _ Hm) in Er. cbn in Er.
    destruct (inside copy (managed D)) eqn:Ei; [|done]. apply inside_spec in Ei as [y Hy]. apply (managed_not_trash D []).
    exists ([name] ++ y). rewrite app_nil_r, Hy. unfold copy. by rewrite <-app_assoc.
Qed.

Lemma restore_spec now s id t name at_ms targets : find_skill (purged now s).2 id = Some t ->
  se_trashed_at t = Some at_ms -> (now - at_ms < TRASH_TTL_MS)%Z -> se_trashed_directory t = Some name ->
  se_previous_targets t = Some targets -> plain_segment (se_directory t) -> apart (se_directory t) ->
  dirs (purged now s).1 (trash_dir hub ++ [name]) -> dirs (purged now s).1 (managed_dir hub) ->
  can_rename (trash_dir hub ++ [name]) (managed (se_directory t)) = true ->
  exists s2 h results,
    restore_skill now id s = (s2, Ok {| io_skill := restored targets h t; io_results := results |}) /\
    find_skill (hs_reg s2) id = Some (restored targets h t) /\
    forall x n, (purged now s).1 !! ((trash_dir hub ++ [name]) ++ x) = Some n -> hs_fs s2 !! (managed (se_directory t) ++ x) = Some n.
Proof.
  intros Hf Ht Hnow Hn Hprev HD Ha Hc Hm Hcan. unfold restore_skill. destruct (purged now s) as [fs reg]. cbn [fst snd] in *.
  rewrite Hf, Ht, Hn, Hprev. assert ((TRASH_TTL_MS <? Z.max 0 (now - at_ms)) = false)%Z as -> by (apply Z.ltb_ge; unfold TRASH_TTL_MS in *; lia).
  rewrite (dirs_is_dir_at _ _ _ Hc). cbn [negb from_option Datatypes.id]. destruct (rename_back fs name (se_directory t) Hc Hm Hcan) as (fs1 & -> & Hback).
  pose proof (sync_targets_only (se_directory t) targets None fs1 HD) as Hs.
  destruct (sync_targets (se_directory t) targets None fs1) as [fs2 results]. cbn [fst] in Hs.
  set (h := SkillFs.hash_directory _ _ _ _ _). set (reg' := update_skill _ _ _).
  assert (find_skill reg' id = Some (restored targets h t)) as Hf'.
  { unfold find_skill, reg', update_skill. cbn. rewrite (find_update_first _ _ _ _ Hf); [done|]. by apply find_some in Hf as [_ ?]. }
  rewrite Hf'. exists (hub_with fs2 reg'), h, results. split; [done|]. split; [done|]. intros x n Hx. cbn.
  eapply (apart_keeps _ _ _ _ _ _ Ha Hs); [apply managed_in_hub|reflexivity|by apply Hback].
Qed.

Lemma purge_keeps_managed now s : dirs (hs_fs s) (managed_dir hub) -> dirs (purged now s).1 (managed_dir hub).
Proof.
  intros H. apply (dirs_transfer (hs_fs s)); [done|]. intros k Hk Hn. rewrite <-Hn. apply purge_keeps. intros x d _ _ _ Hpre.
  assert ((trash_dir hub ++ [d]) `prefix_of` managed_dir hub) as Hlen%prefix_length by (by etransitivity).
  unfold trash_dir, managed_dir in Hlen. rewrite !length_app in Hlen. simpl in Hlen. lia.
Qed.

(** Trashing an entry and restoring it undoes all but the hash. *)
Lemma restored_trash now name h e : entry_ok e -> is_trashed e = false ->
  restored (se_targets e) h (trash_entry now name e) = with_hash h e.
Proof.
  intros [_ _ Ht]. unfold is_trashed. destruct (se_trashed_at e) eqn:E; [done|]. intros _. destruct Ht as [E1 E2].
  destruct e; cbn in *. by subst.
Qed.

Lemma entry_ok_of l e : skills_ok l -> e ∈ l -> entry_ok e.
Proof. intros [He _ _] H. rewrite list.Forall_forall in He. by apply He. Qed.

(** What the trash took it gives back. *)
Theorem trash_roundtrip (s s1 : hub_state) (now now' : Z) (id : rstr) (e : SkillEntry) (o : UninstallOutcome) :
  skills_ok (skills_of s) -> installed_skill (purged now s).2 id = Some e ->
  dirs (hs_fs s) (managed (se_directory e)) -> apart (se_directory e) ->
  (forall x, x ∈ skills_of s -> se_trashed_directory x <> Some (trash_name now (se_directory e))) ->
  can_rename (copy_of now (se_directory e)) (managed (se_directory e)) = true ->
  uninstall_skill now id s = (s1, Ok o) -> uo_trashed o = true ->
  (now <= now' < now + TRASH_TTL_MS)%Z ->
  exists s2 h results,
    restore_skill now' id s1 = (s2, Ok {| io_skill := with_hash h e; io_results := results |}) /\
    find_skill (hs_reg s2) id = Some (with_hash h e) /\
    forall x n, hs_fs s !! (managed (se_directory e) ++ x) = Some n -> hs_fs s2 !! (managed (se_directory e) ++ x) = Some n.
Proof.
  intros Hok Hi Hd Ha Hfresh Hcan Hu Ho Hnow. destruct (uninstall_spec now id s e s1 o Hok Hi Hd Ha Hu Ho) as (Hreg & Hcopy & Hman & Hcont).
  set (D := se_directory e) in *. set (name := trash_name now D) in *.
  pose proof Hi as [Hin Htr]%installed_found. apply purged_subset in Hin as Hins. pose proof (entry_plain _ _ Hok Hins : plain_segment D) as HD.
  assert (find_skill (purged now s).2 id = Some e) as Hfind.
  { unfold installed_skill in Hi. destruct (find_skill _ id) as [e'|]; [|done]. destruct (is_trashed e'); [done|]. by injection Hi as ->. }
  assert (answers_to id e = true) as Hans by (unfold find_skill in Hfind; by apply find_some in Hfind as [_ ?]).
  set (t := trash_entry now name e) in *.
  assert (find_skill (hs_reg s1) id = Some t) as Hf1.
  { rewrite Hreg. unfold find_skill, update_skill. cbn. by rewrite (find_update_first _ _ _ _ Hfind). }
  assert (expired now' t = false) as Hexp.
  { unfold expired, t. cbn. apply negb_false_iff, Z.ltb_lt. lia. }
  assert (forall k n, k `prefix_of` copy_of now D \/ copy_of now D `prefix_of` k -> hs_fs s1 !! k = Some n ->
    (purged now' s1).1 !! k = Some n) as Hkeep.
  { intros k n Hk Hn. rewrite <-Hn. apply purge_keeps. intros x d Hx Hxe Hxd Hpre. apply (other_trash d name) in Hpre as ->; [|done].
    revert Hxe Hxd. revert x Hx. rewrite <-list.Forall_forall, Hreg. apply update_first_Forall.
    - intros y Hy _. unfold find_skill in Hfind. rewrite Hfind in Hy. injection Hy as <-. fold t. by rewrite Hexp.
    - rewrite list.Forall_forall. intros y Hy%purged_subset _. by apply Hfresh. }
  destruct (restore_spec now' s1 id t name now (se_targets e)) as (s2 & h & results & Hres & Hf2 & Hback); try done.
  - apply find_filter; [done|]. by rewrite Hexp.
  - lia.
  - apply (dirs_transfer (hs_fs s1)); [done|]. intros k Hk Hn. apply Hkeep; [by left|done].
  - by apply purge_keeps_managed.
  - unfold t in Hres, Hf2. rewrite restored_trash in Hres, Hf2 by (try done; by apply (entry_ok_of _ _ Hok Hins)).
    exists s2, h, results. split; [done|]. split; [done|]. intros x n Hx. apply Hback, Hkeep; [right; by eexists|by apply Hcont].
Qed.
End Trash.
