(* ===== verification/SkillCases.v ===== *)
(** * SkillCases: the skills hub on a small machine

    Two skill directories and a hub below one home; the histories the theorems of
    [SkillFacts] and [SkillTrash] are tried on, and those that end elsewhere than
    the comments say. *)

From S2P Require Import Prelude Str Json Jail SkillText SkillFs SkillsHub SkillFacts SkillTrash.

Definition at_path (l : list string) : loc := map str l.

(** An answer to every request: one [SKILL.md] at the root of the repository. *)
Definition demo_tree : json :=
  JObj [(str "tree", JArr [JObj [(str "type", JStr (str "blob")); (str "path", JStr (str "pdf/SKILL.md")); (str "sha", JStr (str "1"))]])].

#[local] Instance demo_hub_json : JsonText := {|
  to_string := fun _ => []; to_string_pretty := fun _ => []; from_str := fun _ => Some demo_tree |}.

#[local] Instance demo_hub : HubEnv := {|
  links := 8; can_link := true; can_rename := fun _ _ => true; utf8 := fun s => s; from_utf8_lossy := fun b => b;
  sha256_hex := fun b => b; base64url_no_pad := fun s => s; to_lowercase := map to_ascii_lowercase;
  io_error := hub_error Permission []; hub := at_path ["home"; "hub"];
  roots := {| sr_targets := [ {| tr_id := str "claude"; tr_dir := at_path ["home"; "claude"; "skills"] |};
                              {| tr_id := str "codex"; tr_dir := at_path ["home"; "codex"; "skills"] |} ];
              sr_readonly := [] |} |}.

(** The user's own skills: [pdf], and another of the name below a group. *)
Definition own_pdf : loc := at_path ["home"; "claude"; "skills"; "pdf"]%string.
Definition own_text : node := NFile (str "mine") false.

Definition demo_fs : tree := list_to_map [
  (at_path ["home"], NDir); (at_path ["home"; "claude"], NDir); (at_path ["home"; "codex"], NDir);
  (at_path ["home"; "claude"; "skills"], NDir); (at_path ["home"; "hub"], NDir);
  (own_pdf, NDir); (own_pdf ++ [str "SKILL.md"], own_text);
  (at_path ["home"; "claude"; "skills"; "group"], NDir); (at_path ["home"; "claude"; "skills"; "group"; "pdf"], NDir);
  (at_path ["home"; "claude"; "skills"; "group"; "pdf"; "SKILL.md"], NFile (str "other") false) ].

Definition new_hub : hub_state := hub_with demo_fs {| rg_repos := []; rg_skills := [] |}.

Definition run (ops : list (Z * hub_op)) : hub_state := fold_left hub_step ops new_hub.

Definition both : list rstr := [str "claude"; str "codex"].
Definition pdf_id : rstr := str "local:pdf".

Definition imported : hub_state := run [(1000%Z, OpImport (str "pdf") both)].
Definition first_entry (s : hub_state) : SkillEntry := default default_entry (head (rg_skills (hs_reg s))).

Lemma imported_ok : skills_ok (skills_of imported).
Proof. apply run_ok, new_hub_ok. Qed.

(** The import is copied, and linked where the user has no copy. *)
Example import_demo :
  hs_fs imported !! (managed (str "pdf") ++ [str "SKILL.md"]) = Some own_text /\
  hs_fs imported !! at_path ["home"; "codex"; "skills"; "pdf"] = Some (NLink true (names (managed (str "pdf")))) /\
  hs_fs imported !! own_pdf = Some NDir.
Proof. vm_compute. by split_and!. Qed.

Lemma originals_kept_witness :
  hs_fs (hub_step imported (2000%Z, OpUninstall pdf_id)) !! (own_pdf ++ [str "SKILL.md"]) = Some own_text.
Proof.
  eapply (originals_kept imported 2000 (OpUninstall pdf_id) (first_entry imported)
    {| tr_id := str "claude"; tr_dir := at_path ["home"; "claude"; "skills"] |}).
  - exact imported_ok.
  - vm_compute. left.
  - vm_compute. reflexivity.
  - vm_compute. left.
  - vm_compute. reflexivity.
  - intros H. apply inside_spec in H. vm_compute in H. discriminate H.
  - intros r Hr. vm_compute in Hr. apply elem_of_cons in Hr as [->|Hr]; [reflexivity|].
    apply elem_of_cons in Hr as [->|Hr]; [|by apply not_elem_of_nil in Hr]. intros H. apply inside_spec in H. vm_compute in H. discriminate H.
  - apply inside_spec. vm_compute. reflexivity.
  - vm_compute. reflexivity.
Defined.

(** ** The trash *)

Definition uninstalled : hub_state := hub_step imported (2000%Z, OpUninstall pdf_id).

Lemma dirs_dec fs l : forallb (fun k => dir_here fs (take k l)) (seq 0 (S (length l))) = true -> dirs fs l.
Proof. intros H k Hk. rewrite forallb_forall in H. rewrite is_dir_plain. apply H. apply in_seq. lia. Qed.

Lemma trash_roundtrip_witness :
  exists s2 h results,
    restore_skill 5000 pdf_id uninstalled = (s2, Ok {| io_skill := with_hash h (first_entry imported); io_results := results |}) /\
    find_skill (hs_reg s2) pdf_id = Some (with_hash h (first_entry imported)) /\
    forall x n, hs_fs imported !! (managed (se_directory (first_entry imported)) ++ x) = Some n ->
      hs_fs s2 !! (managed (se_directory (first_entry imported)) ++ x) = Some n.
Proof.
  eapply (trash_roundtrip imported uninstalled 2000 5000 pdf_id (first_entry imported)).
  - exact imported_ok.
  - vm_compute. reflexivity.
  - apply dirs_dec. vm_compute. reflexivity.
  - intros root l Hr [x ->] H. vm_compute in Hr. apply inside_spec in H.
    apply elem_of_cons in Hr as [->|Hr]; [vm_compute in H; discriminate H|].
    apply elem_of_cons in Hr as [->|Hr]; [vm_compute in H; discriminate H|by apply not_elem_of_nil in Hr].
  - intros x Hx. vm_compute in Hx. apply elem_of_cons in Hx as [->|Hx]; [done|by apply not_elem_of_nil in Hx].
  - reflexivity.
  - vm_compute. reflexivity.
  - vm_compute. reflexivity.
  - vm_compute. by split.
Defined.

(** ** Where the code goes another way than its comments *)

(** Restoring an import puts a link where the user's original was: the original
    is lost. *)
Theorem restore_replaces_original :
  hs_fs imported !! (own_pdf ++ [str "SKILL.md"]) = Some own_text /\
  hs_fs uninstalled !! (own_pdf ++ [str "SKILL.md"]) = Some own_text /\
  let s := hub_step uninstalled (3000%Z, OpRestore pdf_id) in
  hs_fs s !! (own_pdf ++ [str "SKILL.md"]) = None /\
  hs_fs s !! own_pdf = Some (NLink true (names (managed (str "pdf")))).
Proof. vm_compute. by split_and!. Qed.

(** Deleting the local skill [group/pdf] deletes the user's [pdf], and reports it
    deleted; [group/pdf] stays. *)
Theorem nested_delete_hits_another :
  let r := delete_local (str "group/pdf") [] new_hub in
  hs_fs r.1 !! own_pdf = None /\ hs_fs r.1 !! (own_pdf ++ [str "SKILL.md"]) = None /\
  hs_fs r.1 !! at_path ["home"; "claude"; "skills"; "group"; "pdf"; "SKILL.md"] = Some (NFile (str "other") false) /\
  match r.2 with Ok results => map (fun o => (op_ok o, op_kept o)) results = [(true, false); (true, false)] | Err _ => False end.
Proof. vm_compute. by split_and!. Qed.

(** Past its time a trashed skill is not found; the conflict of an expired window
    is never answered. *)
Theorem late_restore_is_not_found :
  match (restore_skill (2000 + TRASH_TTL_MS) pdf_id uninstalled).2 with Err e => he_code e = HubNotFound | Ok _ => False end /\
  forall `{HubEnv} now id s e, (restore_skill now id s).2 = Err e -> he_code e = Conflict -> e = io_error.
Proof.
  split; [vm_compute; reflexivity|]. intros HE now id s e. unfold restore_skill.
  assert (forall x, x ∈ rg_skills (purged now s).2 -> expired now x = false) as Hp.
  { intros x [_ Hx]%list_elem_of_In%List.filter_In. by apply negb_true_iff in Hx. }
  destruct (purged now s) as [fs reg]. cbn [snd] in Hp. destruct (find_skill reg id) as [x|] eqn:Ef; [|by intros [= <-]].
  apply found_skill, Hp in Ef. unfold expired in Ef. destruct (se_trashed_at x) as [t|]; [|by intros [= <-]].
  apply negb_false_iff, Z.ltb_lt in Ef. destruct (TRASH_TTL_MS <? _)%Z eqn:El; [apply Z.ltb_lt in El; lia|].
  destruct (se_trashed_directory x); [|by intros [= <-]]. destruct (negb _); [by intros [= <-]|].
  destruct (rename _ _ _ _) as [fs1|]; [|by intros [= <-]]. destruct (sync_targets _ _ _ fs1) as [fs2 rs]. cbn [snd].
  destruct (find_skill _ id); [done|by intros [= <-]].
Qed.

(** Two different skills with one input to the hash: a text that spells the
    framing of a second file. *)
Theorem hash_input_is_ambiguous :
  exists a b, a <> b /\ hash_input (fun s => s) a = hash_input (fun s => s) b.
Proof.
  exists [(str "a", (str "x" ++ [0%N] ++ str "b" ++ [0%N; 48%N; 0%N] ++ str "y", false))],
         [(str "a", (str "x", false)); (str "b", (str "y", false))]. by split.
Qed.

(** *** A skill installed over another's trash *)

Definition pdf_request (force : bool) : InstallRequest := {|
  ir_owner := str "o"; ir_name := str "r"; ir_branch := str "main"; ir_directory := str "pdf"; ir_install_name := None;
  ir_targets := []; ir_force := force |}.

Definition net (_ : rstr) : result (list N) FetchError := Ok (str "theirs").

Definition reinstalled : hub_state := hub_step uninstalled (3000%Z, OpInstall (pdf_request false) net).

(** Its entry goes with the install and the trash copy stays for ever: no later
    purge removes it. *)
Theorem trash_copy_outlives_its_entry :
  let copy := copy_of 2000 (str "pdf") ++ [str "SKILL.md"] in
  map se_id (skills_of reinstalled) = [str "o/r:pdf"] /\
  hs_fs reinstalled !! copy = Some own_text /\
  forall now, (purged now reinstalled).1 !! copy = Some own_text.
Proof.
  split; [vm_compute; reflexivity|]. split; [vm_compute; reflexivity|]. intros now.
  unfold purged. rewrite (purge_keeps now); [vm_compute; reflexivity|]. intros e d He _ Hd. vm_compute in He.
  apply elem_of_cons in He as [->|He]; [discriminate Hd|by apply not_elem_of_nil in He].
Qed.
