(* ===== verification/Interact.v ===== *)
(** * Interact: programs that ask the outside world

    A finite tree of calls and what is done with each answer, for code whose
    behaviour is a dialogue with other programs.  [runs] relates a program to the
    dialogues it can have, [wp] is what a property of the dialogue needs of the
    rest of the program, and [exec] plays it against a world. *)

From S2P Require Import Prelude.

Class Effect (E : Type) := answer_of : E -> Type.

Section Prog.
Context {E : Type} `{HE : Effect E}.

Inductive prog (A : Type) :=
| Ret (a : A)
| Do (e : E) (k : answer_of e -> prog A).
Arguments Ret {A} a.
Arguments Do {A} e k.

Fixpoint bind {A B} (p : prog A) (f : A -> prog B) : prog B :=
  match p with
  | Ret a => f a
  | Do e k => Do e (fun x => bind (k x) f)
  end.

Definition ask (e : E) : prog (answer_of e) := Do e Ret.

(** [?] on what a call returns. *)
Definition bind_ok {A B Er} (p : prog (result A Er)) (f : A -> prog (result B Er)) : prog (result B Er) :=
  bind p (fun r => match r with Ok a => f a | Err e => Ret (Err e) end).

(** ** Dialogues *)

Record seen := Seen { call : E; answer : answer_of call }.

Inductive runs {A} : prog A -> list seen -> A -> Prop :=
| runs_ret a : runs (Ret a) [] a
| runs_do e k x t a : runs (k x) t a -> runs (Do e k) (Seen e x :: t) a.

(** ** What must hold before *)

Fixpoint wp {A} (p : prog A) (pre : list seen) (Q : list seen -> A -> Prop) : Prop :=
  match p with
  | Ret a => Q pre a
  | Do e k => forall x, wp (k x) (pre ++ [Seen e x]) Q
  end.

Lemma wp_runs {A} (p : prog A) pre Q t a : wp p pre Q -> runs p t a -> Q (pre ++ t) a.
Proof.
  intros Hw Hr. revert pre Hw. induction Hr as [a|e k x t a Hr IH]; intros pre Hw; [by rewrite app_nil_r|].
  specialize (IH _ (Hw x)). by rewrite <-app_assoc in IH.
Qed.

Lemma wp_complete {A} (p : prog A) pre (Q : list seen -> A -> Prop) :
  (forall t a, runs p t a -> Q (pre ++ t) a) -> wp p pre Q.
Proof.
  revert pre. induction p as [a|e k IH]; intros pre H; cbn.
  - specialize (H [] a (runs_ret a)). by rewrite app_nil_r in H.
  - intros x. apply IH. intros t a Hr. rewrite <-app_assoc. apply H. by constructor.
Qed.

Lemma wp_mono {A} (p : prog A) pre (Q Q' : list seen -> A -> Prop) :
  (forall t a, Q t a -> Q' t a) -> wp p pre Q -> wp p pre Q'.
Proof. intros HQ. revert pre. induction p as [a|e k IH]; intros pre H; cbn in *; eauto. Qed.

Lemma wp_bind {A B} (p : prog A) (f : A -> prog B) pre Q :
  wp p pre (fun t a => wp (f a) t Q) -> wp (bind p f) pre Q.
Proof. revert pre. induction p as [a|e k IH]; intros pre H; cbn in *; eauto. Qed.

Lemma wp_bind_ok {A B Er} (p : prog (result A Er)) (f : A -> prog (result B Er)) pre Q :
  wp p pre (fun t r => match r with Ok a => wp (f a) t Q | Err e => Q t (Err e) end) -> wp (bind_ok p f) pre Q.
Proof. intros H. apply wp_bind. eapply wp_mono; [|exact H]. intros t [a|e] Hq; exact Hq. Qed.

(** The rest of a program keeps what the specification of a part says. *)
Lemma wp_part {A B} (p : prog A) (f : A -> prog B) pre (P : list seen -> A -> Prop) Q :
  wp p pre P -> (forall t a, P t a -> wp (f a) t Q) -> wp (bind p f) pre Q.
Proof. intros Hp Hf. apply wp_bind. eapply wp_mono; [|exact Hp]. exact Hf. Qed.

Lemma wp_part_ok {A B Er} (p : prog (result A Er)) (f : A -> prog (result B Er)) pre (P : list seen -> result A Er -> Prop) Q :
  wp p pre P -> (forall t a, P t (Ok a) -> wp (f a) t Q) -> (forall t e, P t (Err e) -> Q t (Err e)) -> wp (bind_ok p f) pre Q.
Proof. intros Hp Hok Herr. eapply wp_part; [exact Hp|]. intros t [a|e] HP; [by apply Hok|by apply Herr]. Qed.

Lemma wp_and {A} (p : prog A) pre (P Q : list seen -> A -> Prop) :
  wp p pre P -> wp p pre Q -> wp p pre (fun t a => P t a /\ Q t a).
Proof. revert pre. induction p as [a|e k IH]; intros pre HP HQ; cbn in *; eauto. Qed.

(** The dialogue only grows. *)
Lemma wp_prefix {A} (p : prog A) pre : wp p pre (fun t _ => pre `prefix_of` t).
Proof. apply wp_complete. intros t a _. by exists t. Qed.

(** ** What each call of a dialogue follows *)

Definition each (P : list seen -> E -> Prop) (t : list seen) : Prop :=
  forall t1 e x t2, t = t1 ++ Seen e x :: t2 -> P t1 e.

Lemma each_nil P : each P [].
Proof. intros t1 e x t2 H. by apply app_cons_not_nil in H. Qed.

Lemma each_snoc P t e x : each P t -> P t e -> each P (t ++ [Seen e x]).
Proof.
  intros Ht He t1 e' x' t2 H. destruct t2 as [|y t2 _] using rev_ind.
  - apply app_inj_tail in H as [-> H]. by injection H as ->.
  - rewrite app_comm_cons, app_assoc in H. apply app_inj_tail in H as [-> _]. by apply (Ht t1 e' x' t2).
Qed.

Lemma each_mono (P Q : list seen -> E -> Prop) t : (forall t e, P t e -> Q t e) -> each P t -> each Q t.
Proof. intros HPQ H t1 e x t2 Ht. eapply HPQ, H, Ht. Qed.

(** A program all of whose calls are of a kind, whatever the answers. *)
Fixpoint calls_only {A} (P : E -> Prop) (p : prog A) : Prop :=
  match p with
  | Ret _ => True
  | Do e k => P e /\ forall x, calls_only P (k x)
  end.

Lemma calls_only_bind {A B} P (p : prog A) (f : A -> prog B) :
  calls_only P p -> (forall a, calls_only P (f a)) -> calls_only P (bind p f).
Proof. induction p as [a|e k IH]; cbn; [by eauto|]. intros [He Hk] Hf. split; [done|]. intros x. by apply IH. Qed.

Lemma calls_only_bind_ok {A B Er} P (p : prog (result A Er)) (f : A -> prog (result B Er)) :
  calls_only P p -> (forall a, calls_only P (f a)) -> calls_only P (bind_ok p f).
Proof. intros Hp Hf. apply calls_only_bind; [done|]. by intros [a|e]. Qed.

Lemma calls_only_mono {A} (P Q : E -> Prop) (p : prog A) : (forall e, P e -> Q e) -> calls_only P p -> calls_only Q p.
Proof. intros HPQ. induction p as [a|e k IH]; cbn; [done|]. intros [He Hk]. eauto. Qed.

(** The calls made after [pre], each of the kind. *)
Definition since (P : E -> Prop) (pre t : list seen) : Prop :=
  exists t', t = pre ++ t' /\ Forall (fun s => P (call s)) t'.

Lemma since_refl P t : since P t t.
Proof. exists []. by rewrite app_nil_r. Qed.

Lemma since_trans P t1 t2 t3 : since P t1 t2 -> since P t2 t3 -> since P t1 t3.
Proof. intros (a & -> & Ha) (b & -> & Hb). exists (a ++ b). rewrite app_assoc. split; [done|]. by apply Forall_app. Qed.

Lemma since_prefix P t1 t2 : since P t1 t2 -> t1 `prefix_of` t2.
Proof. intros (a & -> & _). by eexists. Qed.

Lemma since_mono (P Q : E -> Prop) t1 t2 : (forall e, P e -> Q e) -> since P t1 t2 -> since Q t1 t2.
Proof. intros HPQ (a & -> & Ha). exists a. split; [done|]. eapply Forall_impl; [exact Ha|]. intros s. apply HPQ. Qed.

Lemma wp_calls_only {A} P (p : prog A) pre : calls_only P p -> wp p pre (fun t _ => since P pre t).
Proof.
  revert pre. induction p as [a|e k IH]; intros pre; cbn; [intros _; apply since_refl|]. intros [He Hk] x.
  eapply wp_mono; [|by apply IH]. intros t a H. eapply since_trans; [|exact H]. exists [Seen e x]. split; [done|by constructor].
Qed.

Lemma wp_keep {A} P (p : prog A) pre Q : calls_only P p -> wp p pre Q -> wp p pre (fun t a => since P pre t /\ Q t a).
Proof. intros Hc Hw. apply wp_and; [by apply wp_calls_only|done]. Qed.

(** Calls that need no care keep what each call follows. *)
Lemma each_since (P : list seen -> E -> Prop) (C : E -> Prop) pre t :
  (forall t e, C e -> P t e) -> each P pre -> since C pre t -> each P t.
Proof.
  intros HC Hpre (t' & -> & Ht). induction t' as [|[e x] t' IH] using rev_ind; [by rewrite app_nil_r|].
  apply Forall_app in Ht as [Ht He]. rewrite app_assoc. apply each_snoc; [by apply IH|]. apply HC. by inversion He.
Qed.

(** ** Against a world *)

Section Exec.
Context {W : Type} (handle : forall e, W -> answer_of e * W).

Fixpoint exec {A} (p : prog A) (w : W) : A * W :=
  match p with
  | Ret a => (a, w)
  | Do e k => let '(x, w) := handle e w in exec (k x) w
  end.

Fixpoint dialogue {A} (p : prog A) (w : W) : list seen :=
  match p with
  | Ret a => []
  | Do e k => let '(x, w) := handle e w in Seen e x :: dialogue (k x) w
  end.

Lemma exec_runs {A} (p : prog A) w : runs p (dialogue p w) (exec p w).1.
Proof.
  revert w. induction p as [a|e k IH]; intros w; cbn; [constructor|]. destruct (handle e w) as [x w']. constructor. apply IH.
Qed.

Lemma exec_bind {A B} (p : prog A) (f : A -> prog B) w : exec (bind p f) w = exec (f (exec p w).1) (exec p w).2.
Proof. revert w. induction p as [a|e k IH]; intros w; cbn; [done|]. destruct (handle e w) as [x w']. apply IH. Qed.

Lemma exec_bind_ok {A B Er} (p : prog (result A Er)) (f : A -> prog (result B Er)) w a w' :
  exec p w = (Ok a, w') -> exec (bind_ok p f) w = exec (f a) w'.
Proof. intros H. unfold bind_ok. by rewrite exec_bind, H. Qed.
End Exec.
End Prog.

Arguments prog E {HE} A.
Arguments Ret {E HE A} a.
Arguments Do {E HE A} e k.
Arguments seen E {HE}.
Arguments Seen {E HE} call answer.

Declare Scope prog_scope.
Delimit Scope prog_scope with prog.

Notation "x <- p ; k" := (bind p (fun x => k)) (at level 100, p at next level, k at level 200, right associativity) : prog_scope.
Notation "x <-? p ; k" := (bind_ok p (fun x => k)) (at level 100, p at next level, k at level 200, right associativity) : prog_scope.
Notation "p ;; k" := (bind p (fun _ => k)) (at level 100, k at level 200, right associativity) : prog_scope.
Notation "p ;? k" := (bind_ok p (fun _ => k)) (at level 100, k at level 200, right associativity) : prog_scope.
