(* ===== verification/Worktree.v ===== *)
(** * Worktree: git worktrees as workspaces ([worktree.rs], [worktree.*] of [rpc.rs])

    Git's listing, the names and numbers a client may pass, and the calls as
    programs that ask git, the file system and the store.  Paths are text, as git
    prints them; their canonical form is an answer of the file system. *)

From S2P Require Import Prelude Str Json Jail SessionStore Interact.

(** ** Git's output *)

Record GitOut := { go_code : option Z; go_stdout : rstr; go_stderr : rstr }.

Definition git_ok (o : GitOut) : bool := match go_code o with Some 0%Z => true | _ => false end.

Definition summarize_stderr (stderr : rstr) : rstr :=
  let line := default [] (find (fun l => negb (is_empty (trim l))) (lines stderr)) in
  take 300 (join [c_space] (split_whitespace line)).

Record WorktreeInfo := {
  wi_path : rstr; wi_branch : option rstr; wi_head : rstr; wi_main : bool; wi_bare : bool; wi_locked : bool;
  wi_reason : option rstr; wi_prunable : bool
}.

Definition new_info (path : rstr) (main : bool) : WorktreeInfo := {|
  wi_path := path; wi_branch := None; wi_head := []; wi_main := main; wi_bare := false; wi_locked := false;
  wi_reason := None; wi_prunable := false |}.

(** The attribute lines of one worktree. *)
Definition porcelain_line (line : rstr) (w : WorktreeInfo) : WorktreeInfo :=
  match strip_prefix (str "HEAD ") line with
  | Some head => {| wi_path := wi_path w; wi_branch := wi_branch w; wi_head := head; wi_main := wi_main w; wi_bare := wi_bare w;
                    wi_locked := wi_locked w; wi_reason := wi_reason w; wi_prunable := wi_prunable w |}
  | None =>
  match strip_prefix (str "branch ") line with
  | Some refs => {| wi_path := wi_path w; wi_branch := Some (default refs (strip_prefix (str "refs/heads/") refs)); wi_head := wi_head w;
                    wi_main := wi_main w; wi_bare := wi_bare w; wi_locked := wi_locked w; wi_reason := wi_reason w;
                    wi_prunable := wi_prunable w |}
  | None =>
  if str_eqb line (str "detached") then w
  else if str_eqb line (str "bare")
  then {| wi_path := wi_path w; wi_branch := wi_branch w; wi_head := wi_head w; wi_main := wi_main w; wi_bare := true;
          wi_locked := wi_locked w; wi_reason := wi_reason w; wi_prunable := wi_prunable w |}
  else
  match strip_prefix (str "locked") line with
  | Some reason => {| wi_path := wi_path w; wi_branch := wi_branch w; wi_head := wi_head w; wi_main := wi_main w; wi_bare := wi_bare w;
                      wi_locked := true; wi_reason := if is_empty (trim reason) then wi_reason w else Some (trim reason);
                      wi_prunable := wi_prunable w |}
  | None =>
  if starts_with (str "prunable") line
  then {| wi_path := wi_path w; wi_branch := wi_branch w; wi_head := wi_head w; wi_main := wi_main w; wi_bare := wi_bare w;
          wi_locked := wi_locked w; wi_reason := wi_reason w; wi_prunable := true |}
  else w
  end end end.

(** [trim_end_matches('\r')] *)
Definition trim_end_char (c : rchar) (s : rstr) : rstr := reverse (trim_start_char c (reverse s)).

Fixpoint porcelain_loop (ls : list rstr) (out : list WorktreeInfo) (cur : option WorktreeInfo) : list WorktreeInfo :=
  match ls with
  | [] => out ++ option_list cur
  | line :: ls =>
      let line := trim_end_char c_cr line in
      if is_empty line then porcelain_loop ls (out ++ option_list cur) None
      else match strip_prefix (str "worktree ") line with
           | Some path => let out := out ++ option_list cur in porcelain_loop ls out (Some (new_info path (is_empty out)))
           | None => porcelain_loop ls out (porcelain_line line <$> cur)
           end
  end.

Definition parse_porcelain (s : rstr) : list WorktreeInfo := porcelain_loop (lines s) [] None.

(** ** Names *)

Definition suggest_pr_branch (n : Z) : rstr := str "pr-" ++ dec (Z.to_N n).

Definition dirname_char (c : rchar) : rchar :=
  if is_ascii_alphanumeric c || existsb (N.eqb c) (str "-_.") then c else 45%N.

Definition trim_char (c : rchar) (s : rstr) : rstr := trim_end_char c (trim_start_char c s).

Definition sanitize_dirname (branch : rstr) : rstr :=
  let trimmed := trim_char 45%N (map dirname_char branch) in
  if is_empty trimmed then str "worktree" else trimmed.

(** [Path::components], [file_name], [parent] and [join] on text. *)
Definition components (p : rstr) : list rstr :=
  List.filter (fun s => negb (is_empty s) && negb (str_eqb s (str "."))) (split_on (N.eqb 47%N) p).

Definition file_name (p : rstr) : option rstr :=
  match last (components p) with Some n => if str_eqb n (str "..") then None else Some n | None => None end.

Definition parent (p : rstr) : option rstr :=
  if is_empty (components p) then None
  else Some ((if starts_with (str "/") p then str "/" else []) ++ join (str "/") (removelast (components p))).

Definition join_path (base name : rstr) : rstr :=
  if is_empty base || ends_with (str "/") base then base ++ name else base ++ str "/" ++ name.

Definition default_worktree_path (repo_root branch : rstr) : rstr :=
  join_path (join_path (default (str ".") (parent repo_root)) (default [] (file_name repo_root) ++ str "-worktrees"))
    (sanitize_dirname branch).

Fixpoint take_digits (s : rstr) : rstr :=
  match s with c :: s => if is_ascii_digit c then c :: take_digits s else [] | [] => [] end.

(** The digits behind the first [/pull/] that has some; what a match covers is
    not looked at again. *)
Fixpoint pull_digits (skip : nat) (s : rstr) : option rstr :=
  match s with
  | [] => None
  | c :: r =>
      match skip with
      | S k => pull_digits k r
      | 0 => match strip_prefix (str "/pull/") s with
             | Some rest => if is_empty (take_digits rest) then pull_digits 5 r else Some (take_digits rest)
             | None => pull_digits 0 r
             end
      end
  end.

Definition parse_pr_input (input : rstr) : option Z :=
  let t := trim input in
  match strip_prefix (str "#") t with
  | Some ds => parse_u64 ds
  | None =>
      if negb (is_empty t) && forallb is_ascii_digit t then parse_u64 t
      else pull_digits 0 t ≫= parse_u64
  end.

Definition github_prefixes : list rstr :=
  map str ["https://github.com/"; "http://github.com/"; "ssh://git@github.com/"; "git@github.com:"]%string.

Definition until_slash (s : rstr) : rstr := default [] (head (split_on (N.eqb 47%N) s)).

Definition github_owner_repo (url : rstr) : option rstr :=
  let u := trim url in
  match head (omap (fun p => strip_prefix p u) github_prefixes) with
  | None => None
  | Some path =>
      let path := default path (strip_suffix (str ".git") path) in
      match find_char 47%N path with
      | None => None
      | Some i =>
          let owner := trim (take i path) in
          let repo := trim (until_slash (trim (drop (S i) path))) in
          if is_empty owner || is_empty repo then None else Some (owner ++ str "/" ++ repo)
      end
  end.

(** ** Calls *)

Inductive wt_call :=
| Git (repo : rstr) (args : list rstr)
| Gh (args : list rstr)
| Absolute (p : rstr)
| Canon (p : rstr)
| Exists (p : rstr)
| RemoveDir (p : rstr)
| IsCancelled
| Progress (stage message : rstr)
| FreshId
| ProjectById (id : rstr)
| ProjectByRoot (root : rstr)
| ListProjects
| CreateProject (id name root : rstr)
| CreateWorktree (id name root : rstr) (parent : option rstr) (meta : rstr)
| SetMeta (id : rstr) (parent : option rstr) (meta : rstr)
| DeleteProject (id : rstr).

(** A command may fail to start; the store and the file system may fail. *)
#[export] Instance wt_effect : Effect wt_call := fun c =>
  match c with
  | Git _ _ | Gh _ => result GitOut rstr
  | Absolute _ => result rstr rstr
  | Canon _ => loc
  | Exists _ | IsCancelled => bool
  | RemoveDir _ | Progress _ _ => unit
  | FreshId => rstr
  | ProjectById _ | ProjectByRoot _ => result (option ProjectRow) rstr
  | ListProjects => result (list ProjectRow) rstr
  | CreateProject _ _ _ | CreateWorktree _ _ _ _ _ | SetMeta _ _ _ | DeleteProject _ => result unit rstr
  end.

Inductive WKind :=
| Canceled | InvalidArgs | NotARepo | InvalidBranch | NotAllowed | BranchNotFound | BranchExists | BranchCheckedOut | DirExists
| NoOrigin | PrNotFound | FetchFailed | BaseNotFound | AddFailed | SparseEmpty | RegisterFailed | InvalidPrInput | NotGithub | WUnknown.

Record WorktreeError := { we_kind : WKind; we_message : rstr }.

Definition werr (kind : WKind) (message : rstr) : WorktreeError := {| we_kind := kind; we_message := message |}.

Definition canceled : WorktreeError := werr Canceled (str "worktree creation canceled").

Abbreviation wprog A := (prog wt_call (result A WorktreeError)) (only parsing).

Local Open Scope prog_scope.

Abbreviation asking A := (prog wt_call A) (only parsing).
Definition run_git (repo : rstr) (args : list rstr) : asking (result GitOut rstr) := ask (Git repo args).
Definition run_gh (args : list rstr) : asking (result GitOut rstr) := ask (Gh args).
Definition absolute (p : rstr) : asking (result rstr rstr) := ask (Absolute p).
Definition canon_abs (p : rstr) : asking loc := ask (Canon p).
Definition exists_ (p : rstr) : asking bool := ask (Exists p).
Definition remove_dir (p : rstr) : asking unit := ask (RemoveDir p).
Definition is_cancelled : asking bool := ask IsCancelled.
Definition fresh_id : asking rstr := ask FreshId.
Definition project_by_id (id : rstr) : asking (result (option ProjectRow) rstr) := ask (ProjectById id).
Definition project_by_root (root : rstr) : asking (result (option ProjectRow) rstr) := ask (ProjectByRoot root).
Definition list_projects_call : asking (result (list ProjectRow) rstr) := ask ListProjects.
Definition create_project_row (id name root : rstr) : asking (result unit rstr) := ask (CreateProject id name root).
Definition create_worktree_row (id name root : rstr) (parent : option rstr) (meta : rstr) : asking (result unit rstr) :=
  ask (CreateWorktree id name root parent meta).
Definition set_meta (id : rstr) (parent : option rstr) (meta : rstr) : asking (result unit rstr) := ask (SetMeta id parent meta).
Definition delete_project_call (id : rstr) : asking (result unit rstr) := ask (DeleteProject id).

(** [cancel.check()?] *)
Definition check : wprog unit := c <- is_cancelled; Ret (if c then Err canceled else Ok tt).

Definition progress (stage : string) (message : rstr) : wprog unit := ask (Progress (str stage) message);; Ret (Ok tt).

(** A run of git with its [map_err]. *)
Definition git (kind : WKind) (repo : rstr) (args : list rstr) : wprog GitOut :=
  r <- run_git repo args;
  Ret (match r with Ok out => Ok out | Err e => Err (werr kind e) end).

(** A run that was killed has no code. *)
Definition completed {A} (out : GitOut) (f : GitOut -> result A WorktreeError) : wprog A :=
  Ret (match go_code out with None => Err canceled | Some _ => f out end).

Definition git_toplevel (repo : rstr) : wprog rstr :=
  out <-? git WUnknown repo (map str ["rev-parse"; "--show-toplevel"]%string);
  completed out (fun out =>
    if git_ok out then Ok (trim (go_stdout out)) else Err (werr NotARepo (summarize_stderr (go_stderr out)))).

Definition check_branch_name (repo branch : rstr) : wprog unit :=
  out <-? git WUnknown repo (map str ["check-ref-format"; "--branch"]%string ++ [branch]);
  completed out (fun out => if git_ok out then Ok tt else Err (werr InvalidBranch branch)).

Definition branch_exists (repo branch : rstr) : wprog bool :=
  out <-? git WUnknown repo (map str ["rev-parse"; "--verify"; "--quiet"]%string ++ [str "refs/heads/" ++ branch]);
  completed out (fun out => Ok (git_ok out)).

Definition remote_url (repo remote : rstr) : wprog rstr :=
  out <-? git WUnknown repo (map str ["remote"; "get-url"]%string ++ [remote]);
  completed out (fun out => if git_ok out then Ok (trim (go_stdout out)) else Err (werr NoOrigin remote)).

Definition list_worktrees (repo : rstr) : wprog (list WorktreeInfo) :=
  out <-? git WUnknown repo (map str ["worktree"; "list"; "--porcelain"]%string);
  completed out (fun out =>
    if git_ok out then Ok (parse_porcelain (go_stdout out)) else Err (werr NotARepo (summarize_stderr (go_stderr out)))).

Definition base_resolves (repo base : rstr) : wprog bool :=
  out <-? git WUnknown repo (map str ["rev-parse"; "--verify"; "--quiet"]%string ++ [base ++ str "^{commit}"]);
  Ret (Ok (git_ok out)).

Definition split_remote (repo base : rstr) : wprog (option (rstr * rstr)) :=
  match find_char 47%N base with
  | None => Ret (Ok None)
  | Some i =>
      let '(head, rest) := (take i base, drop (S i) base) in
      if is_empty head || is_empty rest then Ret (Ok None)
      else out <-? git WUnknown repo [str "remote"];
           completed out (fun out =>
             Ok (if existsb (fun r => str_eqb (trim r) head) (lines (go_stdout out)) then Some (head, rest) else None))
  end.

(** The answers of the fetches are not looked at. *)
Definition fetch_base (repo base : rstr) : wprog unit :=
  remote <-? split_remote repo base;
  match remote with
  | Some (remote, rest) => run_git repo [str "fetch"; remote; rest];; Ret (Ok tt)
  | None => here <-? base_resolves repo base;
            if (here : bool) then Ret (Ok tt) else run_git repo [str "fetch"; str "origin"; base];; Ret (Ok tt)
  end ;?
  found <-? base_resolves repo base;
  if (found : bool) then check else Ret (Err (werr BaseNotFound base)).

Definition cleanup_partial (repo path : rstr) : prog wt_call unit :=
  run_git repo (map str ["worktree"; "remove"; "--force"]%string ++ [path]);;
  run_git repo (map str ["worktree"; "prune"]%string);; Ret tt.

Definition sparse_empty (path : rstr) : wprog bool :=
  out <-? git WUnknown path (map str ["ls-files"; "-t"]%string);
  completed out (fun out =>
    Ok (git_ok out &&
        let ls := List.filter (fun l => negb (is_empty (trim l))) (lines (go_stdout out)) in
        negb (is_empty ls) && forallb (starts_with (str "S")) ls)).

(** [canon_abs(a) == canon_abs(b)] *)
Definition same_path (a b : rstr) : prog wt_call bool :=
  x <- canon_abs a; y <- canon_abs b; Ret (bool_decide (x = y)).

(** [Iterator::any] and [find] with a test that asks. *)
Fixpoint any_of {A} (f : A -> prog wt_call bool) (l : list A) : prog wt_call bool :=
  match l with
  | [] => Ret false
  | x :: l => b <- f x; if (b : bool) then Ret true else any_of f l
  end.

Fixpoint find_of {A} (f : A -> prog wt_call bool) (l : list A) : prog wt_call (option A) :=
  match l with
  | [] => Ret None
  | x :: l => b <- f x; if (b : bool) then Ret (Some x) else find_of f l
  end.

Fixpoint map_of {A B} (f : A -> prog wt_call B) (l : list A) : prog wt_call (list B) :=
  match l with
  | [] => Ret []
  | x :: l => y <- f x; ys <- map_of f l; Ret (y :: ys)
  end.

(** ** Creating a workspace *)

Record CreateArgs := {
  ca_repo : rstr; ca_branch : option rstr; ca_path : option rstr; ca_base : option rstr; ca_pr : option Z; ca_existing : bool
}.

Record CreateOutcome := {
  co_project : rstr; co_parent : option rstr; co_path : rstr; co_branch : rstr; co_meta : json; co_resumed : bool
}.

Definition branch_of (args : CreateArgs) : result rstr WorktreeError :=
  match ca_branch args, ca_pr args with
  | Some b, _ => Ok b
  | None, Some n => Ok (suggest_pr_branch n)
  | None, None => Err (werr InvalidArgs (str "branch or prNumber is required"))
  end.

(** The path as it will be, inside the allowed directories. *)
Definition place_worktree (allowed : list rstr) (args : CreateArgs) (repo branch : rstr) : wprog rstr :=
  abs <- absolute ((default (default_worktree_path repo branch) (ca_path args)));
  match abs with
  | Err e => Ret (Err (werr InvalidArgs e))
  | Ok path =>
      if is_empty allowed then Ret (Ok path)
      else
        l <- canon_abs path;
        inside <- any_of (fun root => r <- canon_abs root; Ret (under r l)) allowed;
        Ret (if (inside : bool) then Ok path else Err (werr NotAllowed path))
  end.

(** What is there already: whether the branch exists, and whether the checkout
    is one to adopt. *)
Record Situation := { st_repo : rstr; st_branch : rstr; st_path : rstr; st_existing : bool; st_resumed : bool }.

Definition on_branch (branch : rstr) (w : WorktreeInfo) : bool := bool_decide (wi_branch w = Some branch).

Definition adopt_or_refuse (args : CreateArgs) (repo branch path : rstr) (existing : bool) : wprog Situation :=
  porcelain <-? list_worktrees repo;
  there <- exists_ path;
  resumed <-? (if (there : bool)
    then hit <- any_of (fun w => same <- same_path (wi_path w) path; Ret (same && on_branch branch w)) porcelain;
         Ret (if (hit : bool) then Ok true else Err (werr DirExists path))
    else Ret (if negb (ca_existing args) && existing then Err (werr BranchExists branch) else Ok false));
  taken <- (if (resumed : bool) then Ret false
    else any_of (fun w => if on_branch branch w then same <- same_path (wi_path w) path; Ret (negb same) else Ret false) porcelain);
  Ret (if (taken : bool) then Err (werr BranchCheckedOut branch)
       else Ok {| st_repo := repo; st_branch := branch; st_path := path; st_existing := existing; st_resumed := resumed |}).

Definition validate (allowed : list rstr) (args : CreateArgs) : wprog Situation :=
  progress "validate" (ca_repo args) ;?
  repo <-? git_toplevel (ca_repo args);
  check ;?
  branch <-? Ret (branch_of args);
  check_branch_name repo branch ;?
  check ;?
  path <-? place_worktree allowed args repo branch;
  existing <-? branch_exists repo branch;
  (if ca_existing args && negb existing && match ca_pr args with None => true | Some _ => false end
   then Ret (Err (werr BranchNotFound branch)) else Ret (Ok tt)) ;?
  s <-? adopt_or_refuse args repo branch path existing;
  check ;?
  Ret (Ok s).

(** The head of the pull request into the branch, with the address of the
    request; or the base. *)
Definition fetch_stage (args : CreateArgs) (s : Situation) : wprog (option rstr) :=
  if st_resumed s then Ret (Ok None)
  else match ca_pr args with
  | Some n =>
      let num := dec (Z.to_N n) in
      progress "fetch" (str "pull/" ++ num ++ str "/head") ;?
      url <-? remote_url (st_repo s) (str "origin");
      out <-? git FetchFailed (st_repo s)
        [str "fetch"; str "origin"; str "+refs/pull/" ++ num ++ str "/head:refs/heads/" ++ st_branch s];
      completed out (fun out =>
        if git_ok out then Ok ((fun slug => str "https://github.com/" ++ slug ++ str "/pull/" ++ num) <$> github_owner_repo url)
        else let msg := summarize_stderr (go_stderr out) in
             Err (werr (if existsb (fun p => contains p msg)
                             (map str ["couldn't find remote ref"; "couldn't find remote branch"; "could not find remote ref"]%string)
                        then PrNotFound else FetchFailed) msg))
  | None =>
      let base := default (str "HEAD") (ca_base args) in
      progress "fetch" base ;? fetch_base (st_repo s) base ;? Ret (Ok None)
  end.

Definition add_args (args : CreateArgs) (s : Situation) : list rstr :=
  if st_existing s || match ca_pr args with Some _ => true | None => false end
  then map str ["worktree"; "add"]%string ++ [st_path s; st_branch s]
  else map str ["worktree"; "add"; "--no-track"; "-b"]%string ++ [st_branch s; st_path s; default (str "HEAD") (ca_base args)].

Definition add_stage (args : CreateArgs) (s : Situation) : wprog unit :=
  if st_resumed s then Ret (Ok tt)
  else
    progress "add" (st_path s) ;?
    out <-? git AddFailed (st_repo s) (add_args args s);
    match go_code out with
    | None => cleanup_partial (st_repo s) (st_path s);; Ret (Err canceled)
    | Some _ =>
        if git_ok out then
          empty <-? sparse_empty (st_path s);
          if (empty : bool) then cleanup_partial (st_repo s) (st_path s);; Ret (Err (werr SparseEmpty (st_path s)))
          else Ret (Ok tt)
        else
          cleanup_partial (st_repo s) (st_path s);;
          let msg := summarize_stderr (go_stderr out) in
          Ret (Err (werr (if contains (str "already checked out") msg then BranchCheckedOut else AddFailed) msg))
    end.

(** *** Registering *)

Definition registered {A} (p : prog wt_call (result A rstr)) : wprog A :=
  r <- p; Ret (match r with Ok a => Ok a | Err e => Err (werr RegisterFailed e) end).

Definition ensure_parent_project (repo : rstr) : prog wt_call (result (option rstr) rstr) :=
  row <-? project_by_root repo;
  match (match row with Some r => if str_eqb (pr_kind r) (str "project") then Some r else None | None => None end) with
  | Some r => Ret (Ok (Some (pr_id r)))
  | None => id <- fresh_id;
            create_project_row id (default repo (file_name repo)) repo ;? Ret (Ok (Some id))
  end.

Definition register_row (path : rstr) (parent : option rstr) (meta : rstr) : prog wt_call (result rstr rstr) :=
  row <-? project_by_root path;
  match (match row with Some r => if str_eqb (pr_kind r) (str "worktree") then Some r else None | None => None end) with
  | Some r => set_meta (pr_id r) parent meta ;? Ret (Ok (pr_id r))
  | None => id <- fresh_id;
            create_worktree_row id (default path (file_name path)) path parent meta ;? Ret (Ok id)
  end.

Section WithJson.
Context `{JT : JsonText}.

Definition meta_of (args : CreateArgs) (s : Situation) (url : option rstr) : json :=
  JObj ([(str "branch", JStr (st_branch s)); (str "repo", JStr (st_repo s))] ++
        match ca_base args with Some b => [(str "baseRef", JStr b)] | None => [] end ++
        match ca_pr args with
        | Some n => (str "prNumber", jint n) :: match url with Some u => [(str "prUrl", JStr u)] | None => [] end
        | None => []
        end).

Definition register_stage (args : CreateArgs) (s : Situation) (url : option rstr) : wprog CreateOutcome :=
  progress "register" (st_path s) ;?
  parent_id <-? registered (ensure_parent_project (st_repo s));
  id <-? registered (register_row (st_path s) parent_id (to_string (meta_of args s url)));
  progress "done" (st_path s) ;?
  Ret (Ok {| co_project := id; co_parent := parent_id; co_path := st_path s; co_branch := st_branch s;
             co_meta := meta_of args s url; co_resumed := st_resumed s |}).

Definition create (allowed : list rstr) (args : CreateArgs) : wprog CreateOutcome :=
  s <-? validate allowed args;
  url <-? fetch_stage args s;
  check ;?
  add_stage args s ;?
  check ;?
  register_stage args s url.

(** ** Removing, resolving, asking *)

Definition discover_repo (path : rstr) : wprog rstr :=
  out <-? git WUnknown path (map str ["rev-parse"; "--path-format=absolute"; "--git-common-dir"]%string);
  completed out (fun out =>
    if git_ok out then ok_or (parent (trim (go_stdout out))) (werr NotARepo (str "cannot resolve repo root"))
    else Err (werr NotARepo (summarize_stderr (go_stderr out)))).

Record RemoveOutcome := { ro_orphan : bool; ro_branch_deleted : bool; ro_kept_reason : option rstr }.

Definition ran_ok (r : result GitOut rstr) : bool := match r with Ok out => git_ok out | Err _ => false end.

Definition delete_branch (repo branch : rstr) : asking (bool * option rstr) :=
  safe <- run_git repo (map str ["branch"; "-d"]%string ++ [branch]);
  if ran_ok safe then Ret (true, None)
  else
    force <- run_git repo (map str ["branch"; "-D"]%string ++ [branch]);
    Ret (if ran_ok force then (true, None)
         else let stderr := match force with Ok out => summarize_stderr (go_stderr out) | Err _ => [] end in
              (false, Some (if contains (str "checked out") stderr then str "checked_out_elsewhere" else str "unknown"))).

Definition remove_worktree_git (repo path : rstr) (branch : option rstr) (delete : bool) : asking RemoveOutcome :=
  out <- run_git repo (map str ["worktree"; "remove"; "--force"]%string ++ [path]);
  orphan <- (if ran_ok out then Ret false
             else there <- exists_ path; if (there : bool) then remove_dir path;; Ret true else Ret false);
  run_git repo (map str ["worktree"; "prune"]%string);;
  match (if delete then branch else None) with
  | Some b => r <- delete_branch repo b; Ret {| ro_orphan := orphan; ro_branch_deleted := r.1; ro_kept_reason := r.2 |}
  | None => Ret {| ro_orphan := orphan; ro_branch_deleted := false; ro_kept_reason := None |}
  end.

Record PrPreview := {
  pp_number : Z; pp_repo : rstr; pp_title : option rstr; pp_state : option rstr; pp_author : option rstr; pp_degraded : bool;
  pp_branch : rstr; pp_path : rstr; pp_branch_conflict : bool; pp_dir_conflict : bool
}.

(** [unwrap_or(false)] *)
Definition or_false (p : wprog bool) : asking bool := r <- p; Ret (match r with Ok b => b | Err _ => false end).

Definition resolve_pr (repo input : rstr) (branch : option rstr) : wprog PrPreview :=
  match parse_pr_input input with
  | None => Ret (Err (werr InvalidPrInput input))
  | Some number =>
      url <-? remote_url repo (str "origin");
      match github_owner_repo url with
      | None => Ret (Err (werr NotGithub url))
      | Some slug =>
          let suggested := default (suggest_pr_branch number) branch in
          top <- git_toplevel repo;
          site <- match top with
                  | Ok top =>
                      let path := default_worktree_path top suggested in
                      there <- exists_ path;
                      conflict <- or_false (branch_exists top suggested);
                      Ret (path, conflict, there)
                  | Err _ => Ret ([], false, false)
                  end;
          gh <- run_gh (map str ["pr"; "view"]%string ++ [dec (Z.to_N number); str "--repo"; slug; str "--json"; str "title,state,author"]);
          let facts := match gh with Ok out => if git_ok out then from_str (go_stdout out) else None | Err _ => None end in
          let read k := match facts with Some v => as_str (idx v k) | None => None end in
          let author := match facts with Some v => as_str (idx (idx v "author") "login") | None => None end in
          Ret (Ok {| pp_number := number; pp_repo := slug; pp_title := read "title"%string; pp_state := read "state"%string;
                     pp_author := author;
                     pp_degraded := match read "title"%string, read "state"%string with None, None => true | _, _ => false end;
                     pp_branch := suggested; pp_path := site.1.1; pp_branch_conflict := site.1.2; pp_dir_conflict := site.2 |})
      end
  end.

Definition branch_merged (repo branch base : rstr) : wprog bool :=
  out <-? git WUnknown repo (map str ["merge-base"; "--is-ancestor"]%string ++ [branch; base]);
  Ret (match go_code out with
       | Some 0%Z => Ok true
       | Some 1%Z => Ok false
       | Some _ => Err (werr NotARepo (summarize_stderr (go_stderr out)))
       | None => Err canceled
       end).

(** ** The calls of clients ([rpc.rs]) *)

Inductive wt_fault := InvalidParams (message : rstr) | WorktreeFailed (e : WorktreeError) | InternalFault (message : rstr).

Definition failing {A} (p : wprog A) : prog wt_call (result A wt_fault) :=
  r <- p; Ret (match r with Ok a => Ok a | Err e => Err (WorktreeFailed e) end).

Definition stored {A} (p : asking (result A rstr)) : prog wt_call (result A wt_fault) :=
  r <- p; Ret (match r with Ok a => Ok a | Err e => Err (InternalFault e) end).

Definition required (params : json) (key : string) : prog wt_call (result rstr wt_fault) :=
  Ret (ok_or (as_str (idx params key)) (InvalidParams (str key))).

Definition create_args (params : json) : result CreateArgs wt_fault :=
  match as_str (idx params "repo") with
  | None => Err (InvalidParams (str "repo"))
  | Some repo =>
      let args := {| ca_repo := repo; ca_branch := as_str (idx params "branch"); ca_path := as_str (idx params "path");
                     ca_base := as_str (idx params "baseRef"); ca_pr := as_u64 (idx params "prNumber");
                     ca_existing := default false (as_bool (idx params "existingBranch")) |} in
      match ca_branch args, ca_pr args with
      | None, None => Err (InvalidParams (str "branch or prNumber required"))
      | _, _ => Ok args
      end
  end.

Definition opt_json (o : option rstr) : json := match o with Some s => JStr s | None => JNull end.

Definition worktree_create (allowed : list rstr) (params : json) : prog wt_call (result json wt_fault) :=
  args <-? Ret (create_args params);
  id <- match as_str (idx params "creationId") with Some id => Ret id | None => fresh_id end;
  o <-? failing (create allowed args);
  Ret (Ok (JObj [(str "creationId", JStr id); (str "projectId", JStr (co_project o)); (str "parentProjectId", opt_json (co_parent o));
                 (str "path", JStr (co_path o)); (str "branch", JStr (co_branch o)); (str "meta", co_meta o);
                 (str "resumed", JBool (co_resumed o))])).

(** The row goes first: a refusal of the store leaves the checkout alone. *)
Definition worktree_remove (params : json) : prog wt_call (result json wt_fault) :=
  row <-? match as_str (idx params "projectId"), as_str (idx params "path") with
          | Some id, _ => row <-? stored (project_by_id id);
                          Ret (match row with Some r => Ok (Some r) | None => Err (InvalidParams (str "unknown project " ++ id)) end)
          | None, Some path => stored (project_by_root path)
          | None, None => Ret (Err (InvalidParams (str "projectId or path required")))
          end;
  path <-? Ret (ok_or (match row with Some r => Some (pr_root r) | None => as_str (idx params "path") end)
                  (InvalidParams (str "projectId or path required")));
  (if match row with Some r => str_eqb (pr_kind r) (str "worktree") | None => true end then Ret (Ok tt)
   else Ret (Err (InvalidParams (str "not a worktree")))) ;?
  let meta := default (JObj []) (row ≫= fun r => from_str (pr_meta r)) in
  repo <-? match as_str (idx meta "repo") with Some r => Ret (Ok r) | None => failing (discover_repo path) end;
  let branch := match as_str (idx params "branch") with Some b => Some b | None => as_str (idx meta "branch") end in
  match row with
  | Some r => done <- delete_project_call (pr_id r);
              Ret (match done with Ok _ => Ok tt | Err e => Err (InvalidParams e) end)
  | None => Ret (Ok tt)
  end ;?
  out <- remove_worktree_git repo path branch (default false (as_bool (idx params "deleteBranch")));
  Ret (Ok (JObj [(str "removed", JBool true); (str "orphanDirectory", JBool (ro_orphan out));
                 (str "branchDeleted", JBool (ro_branch_deleted out)); (str "branchKeptReason", opt_json (ro_kept_reason out))])).

Definition is_worktree (r : ProjectRow) : bool := str_eqb (pr_kind r) (str "worktree").

Definition registered_json (r : ProjectRow) : json :=
  JObj [(str "projectId", JStr (pr_id r)); (str "name", JStr (pr_name r)); (str "path", JStr (pr_root r));
        (str "parentId", opt_json (pr_parent r)); (str "meta", default JNull (from_str (pr_meta r)))].

Definition info_json (w : WorktreeInfo) (project : option ProjectRow) : json :=
  JObj [(str "path", JStr (wi_path w)); (str "branch", opt_json (wi_branch w)); (str "head", JStr (wi_head w));
        (str "isMain", JBool (wi_main w)); (str "locked", JBool (wi_locked w)); (str "lockReason", opt_json (wi_reason w));
        (str "prunable", JBool (wi_prunable w)); (str "projectId", opt_json (pr_id <$> project))].

Definition worktree_list (params : json) : prog wt_call (result json wt_fault) :=
  repo <-? match as_str (idx params "projectId") with
           | Some id => row <-? stored (project_by_id id);
                        Ret (match row with Some r => Ok (pr_root r) | None => Err (InvalidParams (str "unknown project " ++ id)) end)
           | None => required params "repo"
           end;
  infos <-? failing (list_worktrees repo);
  rows <-? stored list_projects_call;
  infos <- map_of (fun w =>
    project <- find_of (fun r => if is_worktree r then same_path (pr_root r) (wi_path w) else Ret false) rows;
    Ret (info_json w project)) infos;
  Ret (Ok (JObj [(str "repo", JStr repo); (str "worktrees", JArr infos);
                 (str "registered", JArr (map registered_json (List.filter is_worktree rows)))])).

Definition worktree_merged (params : json) : prog wt_call (result json wt_fault) :=
  repo <-? required params "repo";
  branch <-? required params "branch";
  merged <-? failing (branch_merged repo branch (default (str "HEAD") (as_str (idx params "base"))));
  Ret (Ok (JObj [(str "merged", JBool merged)])).

Definition worktree_resolve_pr (params : json) : prog wt_call (result PrPreview wt_fault) :=
  repo <-? required params "repo";
  input <-? required params "input";
  failing (resolve_pr repo input (as_str (idx params "branch"))).
End WithJson.

(** ** Creations in flight

    The registry maps the id of a creation to the handle of its latest run; a
    handle is a number here, and its flag is in [cr_flags]. *)

Record Creations := { cr_live : gmap rstr nat; cr_flags : gmap nat bool; cr_next : nat }.

Definition no_creations : Creations := {| cr_live := ∅; cr_flags := ∅; cr_next := 0 |}.

Definition register_creation (id : rstr) (c : Creations) : Creations * nat :=
  ({| cr_live := <[id := cr_next c]> (cr_live c); cr_flags := <[cr_next c := false]> (cr_flags c); cr_next := S (cr_next c) |}, cr_next c).

Definition finish_creation (id : rstr) (c : Creations) : Creations :=
  {| cr_live := delete id (cr_live c); cr_flags := cr_flags c; cr_next := cr_next c |}.

Definition cancel_creation (id : rstr) (c : Creations) : Creations * bool :=
  match cr_live c !! id with
  | Some h => ({| cr_live := cr_live c; cr_flags := <[h := true]> (cr_flags c); cr_next := cr_next c |}, true)
  | None => (c, false)
  end.
