(* ===== verification/WorktreeFacts.v ===== *)
(** * WorktreeFacts: what a dialogue with git can and cannot contain

    When a checkout is added, what an answer of success says, what is left after
    a failure, and what a retry does. *)

From S2P Require Import Prelude Str Json Jail SessionStore Interact Worktree.

Abbreviation trace := (list (seen wt_call)) (only parsing).

(** The call was made and answered so. *)
Definition said (e : wt_call) (x : answer_of e) (t : trace) : Prop := Seen e x ∈ t.

Lemma said_prefix e x t t' : said e x t -> t `prefix_of` t' -> said e x t'.
Proof. intros H [u ->]. apply elem_of_app. by left. Qed.

Lemma said_last e x t : said e x (t ++ [Seen e x]).
Proof. apply elem_of_app. right. by left. Qed.

(** ** Kinds of calls *)

Definition git_starts (a b : string) (args : list rstr) : bool :=
  match args with x :: y :: _ => str_eqb x (str a) && str_eqb y (str b) | _ => false end.

Definition adds (e : wt_call) : bool := match e with Git _ args => git_starts "worktree" "add" args | _ => false end.
Definition fetches (e : wt_call) : bool := match e with Git _ (x :: _) => str_eqb x (str "fetch") | _ => false end.
Definition removes (e : wt_call) : bool :=
  match e with
  | Git _ args => git_starts "worktree" "remove" args || git_starts "worktree" "prune" args || git_starts "branch" "-d" args
                  || git_starts "branch" "-D" args
  | RemoveDir _ => true
  | _ => false
  end.
Definition writes (e : wt_call) : bool :=
  match e with CreateProject _ _ _ | CreateWorktree _ _ _ _ _ | SetMeta _ _ _ | DeleteProject _ => true | _ => false end.

(** Only asks; may fetch; touches no repository. *)
Definition reads (e : wt_call) : Prop := adds e = false /\ fetches e = false /\ removes e = false /\ writes e = false.
Definition quiet (e : wt_call) : Prop := adds e = false /\ removes e = false /\ writes e = false.
Definition no_git (e : wt_call) : Prop := adds e = false /\ fetches e = false /\ removes e = false.

Lemma reads_quiet e : reads e -> quiet e.
Proof. by intros (? & ? & ? & ?). Qed.

Lemma git_reads kind repo args : reads (Git repo args) -> calls_only reads (git kind repo args).
Proof. intros H. by split. Qed.

Lemma completed_reads {A} P out (f : GitOut -> result A WorktreeError) : calls_only P (completed out f).
Proof. done. Qed.

Ltac reads_tac :=
  repeat first
    [ apply calls_only_bind_ok; [|intros ?]
    | apply calls_only_bind; [|intros ?]
    | apply completed_reads
    | apply git_reads; by vm_compute
    | match goal with
      | |- calls_only _ (match ?x with _ => _ end) => destruct x
      | |- calls_only _ (if ?x then _ else _) => destruct x
      | |- calls_only _ (Ret _) => exact I
      end
    | done
    | (split; [by vm_compute|intros ?]) ].

Lemma check_reads : calls_only reads check.
Proof. reads_tac. Qed.
Lemma progress_reads stage m : calls_only reads (progress stage m).
Proof. reads_tac. Qed.
Lemma toplevel_reads repo : calls_only reads (git_toplevel repo).
Proof. unfold git_toplevel. reads_tac. Qed.
Lemma branch_name_reads repo b : calls_only reads (check_branch_name repo b).
Proof. unfold check_branch_name. reads_tac. Qed.
Lemma branch_exists_reads repo b : calls_only reads (branch_exists repo b).
Proof. unfold branch_exists. reads_tac. Qed.
Lemma remote_url_reads repo r : calls_only reads (remote_url repo r).
Proof. unfold remote_url. reads_tac. Qed.
Lemma list_reads repo : calls_only reads (list_worktrees repo).
Proof. unfold list_worktrees. reads_tac. Qed.
Lemma base_resolves_reads repo b : calls_only reads (base_resolves repo b).
Proof. unfold base_resolves. reads_tac. Qed.
Lemma sparse_reads p : calls_only reads (sparse_empty p).
Proof. unfold sparse_empty. reads_tac. Qed.
Lemma split_remote_reads repo b : calls_only reads (split_remote repo b).
Proof. unfold split_remote. reads_tac. Qed.
Lemma same_path_reads a b : calls_only reads (same_path a b).
Proof. unfold same_path. reads_tac. Qed.

Lemma any_of_only {A} P (f : A -> prog wt_call bool) l : (forall x, calls_only P (f x)) -> calls_only P (any_of f l).
Proof. intros Hf. induction l as [|x l IH]; [done|]. cbn. apply calls_only_bind; [done|]. by intros [|]. Qed.

Create HintDb calls.
#[export] Hint Resolve check_reads progress_reads toplevel_reads branch_name_reads branch_exists_reads remote_url_reads list_reads
  base_resolves_reads sparse_reads split_remote_reads same_path_reads any_of_only : calls.

Lemma place_reads allowed args repo b : calls_only reads (place_worktree allowed args repo b).
Proof.
  unfold place_worktree. split; [by vm_compute|]. intros [path|e]; [|done]. cbn. destruct (is_empty allowed); [done|].
  split; [by vm_compute|]. intros l. apply calls_only_bind; [|done]. apply any_of_only. intros x. reads_tac.
Qed.

Lemma adopt_reads args repo b path existing : calls_only reads (adopt_or_refuse args repo b path existing).
Proof.
  unfold adopt_or_refuse. apply calls_only_bind_ok; [apply list_reads|]. intros l. split; [by vm_compute|]. intros there.
  apply calls_only_bind_ok.
  - destruct there; [|done]. apply calls_only_bind; [|by intros [|]]. apply any_of_only. intros w. apply calls_only_bind; [apply same_path_reads|done].
  - intros resumed. apply calls_only_bind; [|done]. destruct resumed; [done|]. apply any_of_only. intros w. destruct (on_branch b w); [|done].
    apply calls_only_bind; [apply same_path_reads|done].
Qed.

#[export] Hint Resolve place_reads adopt_reads : calls.

Ltac calls_tac :=
  repeat first
    [ solve [eauto with calls]
    | apply calls_only_bind_ok; [|intros ?]
    | apply calls_only_bind; [|intros ?]
    | match goal with
      | |- calls_only _ (match ?x with _ => _ end) => destruct x
      | |- calls_only _ (if ?x then _ else _) => destruct x
      | |- calls_only _ (Ret _) => exact I
      end ].

Lemma validate_reads allowed args : calls_only reads (validate allowed args).
Proof. unfold validate. calls_tac. Qed.

Lemma quiet_of_reads {A} (p : prog wt_call A) : calls_only reads p -> calls_only quiet p.
Proof. apply calls_only_mono, reads_quiet. Qed.

Lemma git_quiet kind repo args : quiet (Git repo args) -> calls_only quiet (git kind repo args).
Proof. by split. Qed.

Lemma fetch_base_quiet repo base : calls_only quiet (fetch_base repo base).
Proof.
  unfold fetch_base. apply calls_only_bind_ok; [apply quiet_of_reads; calls_tac|]. intros remote. apply calls_only_bind_ok.
  - destruct remote as [[remote rest]|]; [by split; [vm_compute|]|].
    apply calls_only_bind_ok; [apply quiet_of_reads; calls_tac|]. intros [|]; [done|]. by split; [vm_compute|].
  - intros _. apply quiet_of_reads. calls_tac.
Qed.

Lemma fetch_quiet args s : calls_only quiet (fetch_stage args s).
Proof.
  unfold fetch_stage. destruct (st_resumed s); [done|]. destruct (ca_pr args) as [n|].
  - apply calls_only_bind_ok; [apply quiet_of_reads; calls_tac|]. intros _.
    apply calls_only_bind_ok; [apply quiet_of_reads; calls_tac|]. intros url.
    apply calls_only_bind_ok; [|done]. apply git_quiet. by vm_compute.
  - apply calls_only_bind_ok; [apply quiet_of_reads; calls_tac|]. intros _.
    apply calls_only_bind_ok; [apply fetch_base_quiet|done].
Qed.

Lemma cleanup_no_add repo path : calls_only (fun e => adds e = false /\ writes e = false) (cleanup_partial repo path).
Proof. unfold cleanup_partial. by repeat (split; [by vm_compute|intros ?]). Qed.

Lemma ensure_no_git repo : calls_only no_git (ensure_parent_project repo).
Proof.
  unfold ensure_parent_project. split; [by vm_compute|]. intros [row|]; cbn [bind]; [|done].
  destruct (match row with Some r => _ | None => _ end); [done|]. split; [by vm_compute|]. intros id. split; [by vm_compute|]. by intros [|].
Qed.

Lemma register_row_no_git path parent meta : calls_only no_git (register_row path parent meta).
Proof.
  unfold register_row. split; [by vm_compute|]. intros [row|]; cbn [bind]; [|done].
  destruct (match row with Some r => _ | None => _ end); [by split; [vm_compute|intros [|]]|].
  split; [by vm_compute|]. intros id. split; [by vm_compute|]. by intros [|].
Qed.

Lemma registered_only {A} P (p : prog wt_call (result A rstr)) : calls_only P p -> calls_only P (registered p).
Proof. intros H. by apply calls_only_bind. Qed.

Lemma register_no_git `{JsonText} args s url : calls_only no_git (register_stage args s url).
Proof.
  unfold register_stage. apply calls_only_bind_ok; [by split; [vm_compute|]|]. intros _.
  apply calls_only_bind_ok; [apply registered_only, ensure_no_git|]. intros parent_id.
  apply calls_only_bind_ok; [apply registered_only, register_row_no_git|]. intros id.
  apply calls_only_bind_ok; [by split; [vm_compute|]|done].
Qed.

(** ** What the answers establish *)

(** Git ran and was content. *)
Definition git_done (repo : rstr) (args : list rstr) (t : trace) : Prop :=
  exists out, said (Git repo args) (Ok out) t /\ git_ok out = true.

(** The two have one canonical form. *)
Definition same_seen (a b : rstr) (t : trace) : Prop := exists l, said (Canon a) l t /\ said (Canon b) l t.

Lemma git_done_prefix repo args t t' : git_done repo args t -> t `prefix_of` t' -> git_done repo args t'.
Proof. intros (out & H & Ho) Hp. exists out. split; [by eapply said_prefix|done]. Qed.

Lemma same_seen_prefix a b t t' : same_seen a b t -> t `prefix_of` t' -> same_seen a b t'.
Proof. intros (l & H1 & H2) Hp. exists l. split; by eapply said_prefix. Qed.

#[local] Hint Resolve said_prefix git_done_prefix same_seen_prefix : calls.

(** A run of git, by its answer. *)
Lemma wp_git {A} kind repo args pre (f : GitOut -> wprog A) Q :
  (forall out, wp (f out) (pre ++ [Seen (Git repo args) (Ok out)]) Q) ->
  (forall e, Q (pre ++ [Seen (Git repo args) (Err e)]) (Err (werr kind e))) ->
  wp (bind_ok (git kind repo args) f) pre Q.
Proof. intros Ho He [out|e]; [apply Ho|apply He]. Qed.

Lemma ok_code out : git_ok out = true -> go_code out = Some 0%Z.
Proof. unfold git_ok. by destruct (go_code out) as [[]|]. Qed.

Definition name_args (b : rstr) : list rstr := map str ["check-ref-format"; "--branch"]%string ++ [b].
Definition exists_args (b : rstr) : list rstr := map str ["rev-parse"; "--verify"; "--quiet"]%string ++ [str "refs/heads/" ++ b].
Definition list_args : list rstr := map str ["worktree"; "list"; "--porcelain"]%string.

Lemma branch_name_spec repo b pre :
  wp (check_branch_name repo b) pre (fun t r => match r with Ok _ => git_done repo (name_args b) t | Err _ => True end).
Proof.
  apply wp_git; [|done]. intros out. cbn. destruct (go_code out) eqn:Ec; [|done]. destruct (git_ok out) eqn:Eo; [|done].
  exists out. split; [apply said_last|done].
Qed.

Lemma branch_exists_spec repo b pre :
  wp (branch_exists repo b) pre (fun t r =>
    match r with Ok e => exists out, said (Git repo (exists_args b)) (Ok out) t /\ git_ok out = e | Err _ => True end).
Proof. apply wp_git; [|done]. intros out. cbn. destruct (go_code out); [|done]. exists out. split; [apply said_last|done]. Qed.

Lemma list_spec repo pre :
  wp (list_worktrees repo) pre (fun t r =>
    match r with
    | Ok ws => exists out, said (Git repo list_args) (Ok out) t /\ git_ok out = true /\ ws = parse_porcelain (go_stdout out)
    | Err _ => True
    end).
Proof.
  apply wp_git; [|done]. intros out. cbn. destruct (go_code out); [|done]. destruct (git_ok out) eqn:Eo; [|done].
  exists out. split; [apply said_last|done].
Qed.

Lemma same_path_spec a b pre :
  wp (same_path a b) pre (fun t r => if r : bool then same_seen a b t else True).
Proof.
  intros x y. cbn. case_bool_decide as E; [|done]. subst y. exists x. split; [|apply said_last].
  apply elem_of_app. left. apply said_last.
Qed.

Lemma any_of_spec {A} (f : A -> prog wt_call bool) l pre (Yes No : A -> trace -> Prop) :
  (forall x pre, x ∈ l -> wp (f x) pre (fun t b => if b : bool then Yes x t else No x t)) ->
  (forall x t t', No x t -> t `prefix_of` t' -> No x t') ->
  wp (any_of f l) pre (fun t b => if b : bool then exists x, x ∈ l /\ Yes x t else forall x, x ∈ l -> No x t).
Proof.
  intros Hf Hmono. revert pre. induction l as [|x l IH]; intros pre; cbn; [by intros x Hx%not_elem_of_nil|].
  eapply wp_part; [apply Hf; left|]. cbn. intros t [] Ht; [exists x; split; [left|done]|].
  eapply wp_mono; [|apply wp_and; [apply IH; intros; apply Hf; by right|apply wp_prefix]]. cbn.
  intros t' [] [Ht' Hp].
  - destruct Ht' as (y & Hy & H). exists y. split; [by right|done].
  - intros y [->|Hy]%elem_of_cons; [by eapply Hmono|by apply Ht'].
Qed.

(** *** Inside the allowed directories *)

Definition inside_allowed (allowed : list rstr) (path : rstr) (t : trace) : Prop :=
  allowed = [] \/ exists l root r, root ∈ allowed /\ said (Canon path) l t /\ said (Canon root) r t /\ under r l = true.

Lemma place_spec allowed args repo b pre :
  wp (place_worktree allowed args repo b) pre (fun t r => match r with Ok path => inside_allowed allowed path t | Err _ => True end).
Proof.
  intros [path|e]; cbn; [|done]. destruct (is_empty allowed) eqn:Ee; [left; by apply is_empty_nil|]. intros l.
  set (pre' := (pre ++ _) ++ _).
  eapply wp_part; [apply wp_and; [apply wp_prefix|]|].
  { apply (any_of_spec _ _ _ (fun root t => exists r, said (Canon root) r t /\ under r l = true) (fun _ _ => True)); [|done].
    intros root pre2 _ r. cbn. destruct (under r l) eqn:Eu; [|done]. exists r. split; [apply said_last|done]. }
  cbn. intros t [] [Hp Ht]; [|done]. destruct Ht as (root & Hin & r & Hr & Hu). right. exists l, root, r.
  split_and!; [done| |done..]. eapply said_prefix; [|exact Hp]. apply said_last.
Qed.

(** *** What is there already *)

Definition known_worktrees (repo : rstr) (ws : list WorktreeInfo) (t : trace) : Prop :=
  exists out, said (Git repo list_args) (Ok out) t /\ git_ok out = true /\ ws = parse_porcelain (go_stdout out).

Definition situated (args : CreateArgs) (s : Situation) (t : trace) : Prop :=
  exists ws, known_worktrees (st_repo s) ws t /\
  if st_resumed s
  then said (Exists (st_path s)) true t /\
       exists w, w ∈ ws /\ wi_branch w = Some (st_branch s) /\ same_seen (wi_path w) (st_path s) t
  else said (Exists (st_path s)) false t /\ (ca_existing args = false -> st_existing s = false) /\
       forall w, w ∈ ws -> wi_branch w = Some (st_branch s) -> same_seen (wi_path w) (st_path s) t.

Lemma situated_prefix args s t t' : situated args s t -> t `prefix_of` t' -> situated args s t'.
Proof.
  intros (ws & (out & H1 & H2) & Hs) Hp. exists ws. split; [exists out; split; [by eapply said_prefix|done]|].
  destruct (st_resumed s).
  - destruct Hs as (He & w & Hw & Hb & Hsame). split; [by eapply said_prefix|]. exists w. split_and!; [done..|]. by eapply same_seen_prefix.
  - destruct Hs as (He & Hx & Hw). split_and!; [by eapply said_prefix|done|]. intros w Hin Hb. eapply same_seen_prefix; [by apply Hw|done].
Qed.

Lemma on_branch_spec b w : on_branch b w = true <-> wi_branch w = Some b.
Proof. unfold on_branch. apply bool_decide_eq_true. Qed.

Lemma adopt_spec args repo b path existing pre :
  wp (adopt_or_refuse args repo b path existing) pre (fun t r =>
    match r with
    | Ok s => st_repo s = repo /\ st_branch s = b /\ st_path s = path /\ st_existing s = existing /\ situated args s t
    | Err _ => True
    end).
Proof.
  unfold adopt_or_refuse. eapply wp_part_ok; [apply list_spec| |done]. intros t0 ws Hws there. cbn [bind].
  set (t1 := t0 ++ _). assert (said (Exists path) there t1) as Hthere by apply said_last.
  assert (known_worktrees repo ws t1) as Hk.
  { destruct Hws as (out & H & Hok). exists out. split; [|done]. eapply said_prefix; [exact H|by eexists]. }
  destruct there.
  - cbn [bind_ok]. unfold bind_ok at 1. apply wp_bind. eapply wp_part.
    { apply wp_and; [apply wp_prefix|].
      apply (any_of_spec _ _ _ (fun w t => wi_branch w = Some b /\ same_seen (wi_path w) path t) (fun _ _ => True)); [|done].
      intros w pre2 _. eapply wp_part; [apply same_path_spec|]. cbn. intros t [] Hs; cbn; [|done].
      destruct (on_branch b w) eqn:Eb; [|done]. by apply on_branch_spec in Eb. }
    cbn. intros t [] [Hp Ht]; [|done]. cbn. split_and!; try done. exists ws. cbn. split.
    { destruct Hk as (out & H & Hok). exists out. split; [by eapply said_prefix|done]. }
    split; [by eapply said_prefix|]. destruct Ht as (w & Hin & Hb & Hs). by exists w.
  - unfold bind_ok at 1. apply wp_bind. cbn [wp]. destruct (negb (ca_existing args) && existing) eqn:Ex; [done|].
    eapply wp_part.
    { apply wp_and; [apply wp_prefix|].
      apply (any_of_spec _ _ _ (fun _ _ => True) (fun w t => wi_branch w = Some b -> same_seen (wi_path w) path t)).
      - intros w pre2 _. destruct (on_branch b w) eqn:Eb.
        + eapply wp_part; [apply same_path_spec|]. cbn. intros t [] Hs; by cbn.
        + cbn. intros Hb. apply on_branch_spec in Hb. congruence.
      - intros w t t' H Hp Hb. eapply same_seen_prefix; [by apply H|done]. }
    cbn. intros t [] [Hp Ht]; [done|]. cbn. split_and!; try done. exists ws. cbn. split.
    { destruct Hk as (out & H & Hok). exists out. split; [by eapply said_prefix|done]. }
    split_and!; [by eapply said_prefix| |done]. intros Hc. rewrite Hc in Ex. by destruct existing.
Qed.

(** *** Validated *)

Record valid (allowed : list rstr) (args : CreateArgs) (s : Situation) (t : trace) : Prop := {
  va_branch : branch_of args = Ok (st_branch s);
  va_name : git_done (st_repo s) (name_args (st_branch s)) t;
  va_inside : inside_allowed allowed (st_path s) t;
  va_existing : exists out, said (Git (st_repo s) (exists_args (st_branch s))) (Ok out) t /\ git_ok out = st_existing s;
  va_situated : situated args s t
}.

Lemma inside_prefix allowed path t t' : inside_allowed allowed path t -> t `prefix_of` t' -> inside_allowed allowed path t'.
Proof.
  intros [->|(l & root & r & H & H1 & H2 & Hu)] Hp; [by left|]. right. exists l, root, r. split_and!; try done; by eapply said_prefix.
Qed.

Lemma valid_prefix allowed args s t t' : valid allowed args s t -> t `prefix_of` t' -> valid allowed args s t'.
Proof.
  intros [H1 H2 H3 (out & H4 & H5) H6] Hp. split; [done|by eapply git_done_prefix|by eapply inside_prefix| |by eapply situated_prefix].
  exists out. split; [by eapply said_prefix|done].
Qed.

(** A step of a pipeline: what it establishes and that the dialogue grows. *)
Lemma wp_stage {A B Er} (p : prog wt_call (result A Er)) (f : A -> prog wt_call (result B Er)) pre (P : trace -> A -> Prop) Q :
  wp p pre (fun t r => match r with Ok a => P t a | Err _ => True end) ->
  (forall t a, pre `prefix_of` t -> P t a -> wp (f a) t Q) -> (forall t e, pre `prefix_of` t -> Q t (Err e)) ->
  wp (bind_ok p f) pre Q.
Proof.
  intros Hp Hok Herr. eapply wp_part_ok; [apply wp_and; [apply wp_prefix|exact Hp]| |]; cbn.
  - intros t a [Hpre HP]. by apply Hok.
  - intros t e [Hpre _]. by apply Herr.
Qed.

Lemma wp_stage_any {A B Er} (p : prog wt_call (result A Er)) (f : A -> prog wt_call (result B Er)) pre Q :
  (forall t a, pre `prefix_of` t -> wp (f a) t Q) -> (forall t e, pre `prefix_of` t -> Q t (Err e)) -> wp (bind_ok p f) pre Q.
Proof.
  intros Hok Herr. apply (wp_stage _ _ _ (fun _ _ => True)); [|by intros t a Hp _; apply Hok|done].
  apply wp_complete. by intros t [].
Qed.

Lemma validate_spec allowed args pre :
  wp (validate allowed args) pre (fun t r => match r with Ok s => valid allowed args s t | Err _ => True end).
Proof.
  unfold validate. apply wp_stage_any; [|done]. intros t0 _ _. apply wp_stage_any; [|done]. intros t1 repo _.
  apply wp_stage_any; [|done]. intros t2 _ _. unfold bind_ok at 1. cbn [bind].
  destruct (branch_of args) as [b|] eqn:Eb; [|done].
  eapply wp_stage; [apply branch_name_spec| |done]. intros t3 u3 P23 Hname. cbn in Hname. clear u3.
  apply wp_stage_any; [|done]. intros t4 _ P34. eapply wp_stage; [apply place_spec| |done]. intros t5 path P45 Hin.
  eapply wp_stage; [apply branch_exists_spec| |done]. intros t6 existing P56 (out & Hex & Hout).
  apply wp_stage_any; [|done]. intros t7 _ P67. eapply wp_stage; [apply adopt_spec| |done].
  intros t8 s P78 (<- & <- & <- & <- & Hs). apply wp_stage_any; [|done]. intros t9 _ P89. cbn.
  assert (t3 `prefix_of` t9) as P39 by (do 5 (etransitivity; [eassumption|]); done).
  assert (t5 `prefix_of` t9) as P59 by (do 3 (etransitivity; [eassumption|]); done).
  assert (t6 `prefix_of` t9) as P69 by (do 2 (etransitivity; [eassumption|]); done).
  split; [done|by eapply git_done_prefix|by eapply inside_prefix| |by eapply situated_prefix].
  exists out. split; [by eapply said_prefix|done].
Qed.

(** ** When a checkout is added *)

(** All an addition must have behind it. *)
Definition guarded (allowed : list rstr) (args : CreateArgs) (t : trace) (e : wt_call) : Prop :=
  adds e = true -> exists s, e = Git (st_repo s) (add_args args s) /\ st_resumed s = false /\ valid allowed args s t.

Lemma guarded_quiet allowed args t e : adds e = false -> guarded allowed args t e.
Proof. intros H H'. congruence. Qed.

Lemma each_quiet {A} allowed args (p : prog wt_call A) (P : wt_call -> Prop) pre :
  (forall e, P e -> adds e = false) -> calls_only P p -> each (guarded allowed args) pre ->
  wp p pre (fun t _ => pre `prefix_of` t /\ each (guarded allowed args) t).
Proof.
  intros HP Hp Hpre. eapply wp_mono; [|apply wp_calls_only, Hp]. cbn. intros t _ Ht. split; [by eapply since_prefix|].
  eapply each_since; [|exact Hpre|exact Ht]. intros t' e He. apply guarded_quiet. by apply HP.
Qed.

Lemma add_guarded allowed args s pre : valid allowed args s pre -> each (guarded allowed args) pre ->
  wp (add_stage args s) pre (fun t _ => pre `prefix_of` t /\ each (guarded allowed args) t).
Proof.
  intros Hv He. unfold add_stage. destruct (st_resumed s) eqn:Er; [by split|].
  eapply wp_part_ok; [apply (each_quiet allowed args _ reads); [by intros e []|apply progress_reads|exact He]| |done].
  intros t1 _ [P1 E1].
  assert (forall (r : result GitOut rstr), each (guarded allowed args) (t1 ++ [Seen (Git (st_repo s) (add_args args s)) r])) as Eadd.
  { intros r. apply each_snoc; [done|]. intros _. exists s. split_and!; [done..|]. by eapply valid_prefix. }
  assert (forall (r : result GitOut rstr) (p : prog wt_call (result unit WorktreeError)), calls_only (fun e => adds e = false /\ writes e = false) p ->
    wp p (t1 ++ [Seen (Git (st_repo s) (add_args args s)) r]) (fun t _ => pre `prefix_of` t /\ each (guarded allowed args) t)) as Hrest.
  { intros r p Hp. eapply wp_mono; [|apply (each_quiet allowed args p (fun e => adds e = false /\ writes e = false) _ ltac:(by intros e' []) Hp (Eadd r))]. cbn.
    intros t _ [P2 E2]. split; [|done]. etransitivity; [exact P1|]. etransitivity; [|exact P2]. by eexists. }
  apply wp_git; [|intros e; split; [etransitivity; [exact P1|by eexists]|apply Eadd]]. intros out. apply (Hrest (Ok out)). destruct (go_code out); [|apply calls_only_bind; [apply cleanup_no_add|done]].
  destruct (git_ok out); [|apply calls_only_bind; [apply cleanup_no_add|done]].
  apply calls_only_bind_ok; [eapply calls_only_mono; [|apply sparse_reads]; by intros e (? & _ & _ & ?)|].
  intros [|]; [|done]. apply calls_only_bind; [apply cleanup_no_add|done].
Qed.

(** C26: whatever git, the file system, the store and the user's cancellations
    answer, [worktree.create] adds a checkout only after it has been told: that
    the branch is a valid name; that the path is inside an allowed directory, when
    there are any; that nothing is at the path; and that no other worktree is on
    the branch.  The checkout is of the request's branch at the checked path, and
    makes the branch only when it was told that there is none. *)
Theorem create_guarded `{JsonText} (allowed : list rstr) (args : CreateArgs) (t1 t2 : trace) (repo : rstr) (gargs : list rstr)
    (answer : result GitOut rstr) (r : result CreateOutcome WorktreeError) :
  runs (create allowed args) (t1 ++ Seen (Git repo gargs) answer :: t2) r -> git_starts "worktree" "add" gargs = true ->
  exists branch path,
    branch_of args = Ok branch /\ git_done repo (name_args branch) t1 /\ inside_allowed allowed path t1 /\
    said (Exists path) false t1 /\
    (exists ws, known_worktrees repo ws t1 /\
       forall w, w ∈ ws -> wi_branch w = Some branch -> same_seen (wi_path w) path t1) /\
    (gargs = map str ["worktree"; "add"]%string ++ [path; branch] \/
     gargs = map str ["worktree"; "add"; "--no-track"; "-b"]%string ++ [branch; path; default (str "HEAD") (ca_base args)] /\
     exists out, said (Git repo (exists_args branch)) (Ok out) t1 /\ git_ok out = false).
Proof.
  intros Hruns Hadd.
  assert (wp (create allowed args) [] (fun t _ => each (guarded allowed args) t)) as Hwp.
  { unfold create.
    assert (forall A (p : prog wt_call A) pre, calls_only reads p -> each (guarded allowed args) pre ->
      wp p pre (fun t _ => pre `prefix_of` t /\ each (guarded allowed args) t)) as Hreads.
    { intros A p pre Hp. by apply (each_quiet allowed args p reads); [intros e []|]. }
    eapply wp_part_ok; [apply wp_and; [apply Hreads; [apply validate_reads|apply each_nil]|apply validate_spec]| |by intros t e [[_ ?] _]].
    intros t3 s [[_ E3] Hv]. eapply wp_part_ok; [apply (each_quiet allowed args _ quiet _ ltac:(by intros e []) (fetch_quiet args s) E3)| |by intros t e []].
    intros t4 url [P4 E4]. eapply wp_part_ok; [apply (Hreads _ _ _ check_reads E4)| |by intros t e []].
    intros t5 _ [P5 E5]. eapply wp_part_ok; [apply (add_guarded allowed args s)| |by intros t e []].
    { eapply valid_prefix; [exact Hv|by etransitivity]. }
    { done. }
    intros t6 _ [P6 E6]. eapply wp_part_ok; [apply (Hreads _ _ _ check_reads E6)| |by intros t e []].
    intros t7 _ [P7 E7]. eapply wp_mono; [|apply (each_quiet allowed args _ no_git _ ltac:(by intros e []) (register_no_git args s url) E7)].
    by intros t a []. }
  apply (wp_runs _ _ _ _ _ Hwp) in Hruns. destruct (Hruns t1 (Git repo gargs) answer t2 eq_refl Hadd) as (s & Heq & Hres & [V1 V2 V3 V4 V5]).
  injection Heq as -> ->. exists (st_branch s), (st_path s). unfold situated in V5. rewrite Hres in V5.
  destruct V5 as (ws & Hk & Hthere & Hex & Hws). split_and!; try done; [by exists ws|].
  unfold add_args. destruct (st_existing s || _) eqn:E; [by left|]. right. split; [done|]. apply orb_false_elim in E as [E _]. by rewrite E in V4.
Qed.

(** ** What an answer says *)

Definition none_of (P : wt_call -> bool) (t : trace) : Prop := Forall (fun s => P (call s) = false) t.

(** The project row of a workspace is in the store. *)
Definition row_written (id : rstr) (parent : option rstr) (path meta : rstr) (t : trace) : Prop :=
  said (SetMeta id parent meta) (Ok tt) t \/ exists name, said (CreateWorktree id name path parent meta) (Ok tt) t.

Lemma none_since (P : wt_call -> bool) (C : wt_call -> Prop) pre t : (forall e, C e -> P e = false) -> none_of P pre -> since C pre t -> none_of P t.
Proof. intros HC Hp (u & -> & Hu). apply Forall_app. split; [done|]. eapply Forall_impl; [exact Hu|]. intros s. apply HC. Qed.

Lemma wp_none {A} (P : wt_call -> bool) (C : wt_call -> Prop) (p : prog wt_call A) pre :
  (forall e, C e -> P e = false) -> calls_only C p -> none_of P pre -> wp p pre (fun t _ => none_of P t).
Proof. intros HC Hp Hn. eapply wp_mono; [|apply wp_calls_only, Hp]. intros t a Ht. by eapply none_since. Qed.

Lemma register_row_spec path parent meta pre :
  wp (register_row path parent meta) pre (fun t r => match r with Ok id => row_written id parent path meta t | Err _ => True end).
Proof.
  intros [row|]; cbn [bind]; [|done]. destruct (match row with Some r => _ | None => _ end) as [r|].
  - intros [[]|]; cbn; [|done]. left. apply said_last.
  - intros id [[]|]; cbn; [|done]. right. eexists. apply said_last.
Qed.

Lemma register_spec `{JsonText} args s url pre :
  wp (register_stage args s url) pre (fun t r =>
    match r with
    | Ok o => co_path o = st_path s /\ co_branch o = st_branch s /\ co_resumed o = st_resumed s /\ co_meta o = meta_of args s url /\
              row_written (co_project o) (co_parent o) (co_path o) (to_string (co_meta o)) t
    | Err e => we_kind e = RegisterFailed
    end).
Proof.
  unfold register_stage. intros []. cbn [bind bind_ok]. unfold registered.
  eapply (wp_part_ok _ _ _ (fun t r => match r with Ok _ => True | Err e => we_kind e = RegisterFailed end)); [|intros t1 parent_id _|by intros t e He].
  { eapply wp_part; [apply (wp_complete _ _ (fun _ _ => True)); done|]. by intros t [a|e] ?. }
  eapply (wp_part_ok _ _ _ (fun t r => match r with Ok id => row_written id parent_id (st_path s) (to_string (meta_of args s url)) t
                                      | Err e => we_kind e = RegisterFailed end)).
  { eapply wp_part; [apply register_row_spec|]. by intros t [a|e] Hr. }
  - intros t2 id Hrow []. cbn. split_and!; try done. destruct Hrow as [Hs|[name Hs]].
    + left. eapply said_prefix; [exact Hs|by eexists].
    + right. exists name. eapply said_prefix; [exact Hs|by eexists].
  - by intros t e He.
Qed.

(** *** Additions that failed *)

Definition add_failed (s : seen wt_call) : bool :=
  match s with
  | Seen c a =>
      match c return answer_of c -> bool with
      | Git repo args => fun r => git_starts "worktree" "add" args && match (r : result GitOut rstr) with Ok out => negb (git_ok out) | Err _ => false end
      | _ => fun _ => false
      end a
  end.

Definition remove_args (path : rstr) : list rstr := map str ["worktree"; "remove"; "--force"]%string ++ [path].
Definition prune_args : list rstr := map str ["worktree"; "prune"]%string.

(** The failed addition is the last but for the two calls that clean up. *)
Definition cleaned (t : trace) : Prop :=
  exists t1 repo gargs r path x y, path ∈ gargs /\
    t = t1 ++ [Seen (Git repo gargs) r; Seen (Git repo (remove_args path)) x; Seen (Git repo prune_args) y] /\
    Forall (fun s => add_failed s = false) t1.

Definition adds_fine (t : trace) : Prop := Forall (fun s => add_failed s = false) t.

Lemma adds_fine_since (C : wt_call -> Prop) pre t : (forall e, C e -> adds e = false) -> adds_fine pre -> since C pre t -> adds_fine t.
Proof.
  intros HC Hp (u & -> & Hu). apply Forall_app. split; [done|]. eapply Forall_impl; [exact Hu|]. intros [c a] Hc%HC. cbn in *.
  by destruct c; cbn in *; rewrite ?Hc.
Qed.

Lemma cleanup_wp {A} repo path pre (Q : trace -> A -> Prop) (a : A) :
  (forall x y, Q (pre ++ [Seen (Git repo (remove_args path)) x; Seen (Git repo prune_args) y]) a) ->
  wp (cleanup_partial repo path;; Ret a)%prog pre Q.
Proof. intros H x y. cbn. rewrite <-app_assoc. apply H. Qed.

Lemma path_in_add args s : st_path s ∈ add_args args s /\ st_branch s ∈ add_args args s.
Proof. unfold add_args. destruct (_ || _); cbn; set_solver. Qed.

Lemma add_args_add args s : git_starts "worktree" "add" (add_args args s) = true.
Proof. unfold add_args. destruct (_ || _); by vm_compute. Qed.

Lemma add_spec args s pre : adds_fine pre ->
  wp (add_stage args s) pre (fun t r =>
    match r with
    | Ok _ => adds_fine t /\ if st_resumed s then t = pre else git_done (st_repo s) (add_args args s) t
    | Err _ => adds_fine t \/ cleaned t
    end).
Proof.
  intros Hf. unfold add_stage. destruct (st_resumed s); [done|].
  eapply wp_part_ok; [apply wp_calls_only, (progress_reads "add" (st_path s))| |].
  2:{ intros t e Ht. left. eapply adds_fine_since; [|exact Hf|exact Ht]. by intros ? []. }
  intros t1 u1 Ht1. assert (adds_fine t1) as Hf1 by (eapply adds_fine_since; [|exact Hf|exact Ht1]; by intros ? []).
  apply wp_git.
  2:{ intros e. left. apply Forall_app. split; [done|]. constructor; [|done]. cbn. apply andb_false_r. }
  intros out.
  assert (forall e : WorktreeError, wp (cleanup_partial (st_repo s) (st_path s);; Ret (Err e : result unit WorktreeError))%prog (t1 ++ [Seen (Git (st_repo s) (add_args args s)) (Ok out)])
    (fun t r => match r with
                | Ok _ => adds_fine t /\ git_done (st_repo s) (add_args args s) t
                | Err _ => adds_fine t \/ cleaned t end)) as Hclean.
  { intros e. apply cleanup_wp. intros x y. right. exists t1, (st_repo s), (add_args args s), (Ok out), (st_path s), x, y.
    split; [apply path_in_add|]. split; [by rewrite <-app_assoc|done]. }
  destruct (go_code out) eqn:Ec; [|apply Hclean]. destruct (git_ok out) eqn:Eo; [|apply Hclean].
  set (t2 := t1 ++ _). assert (adds_fine t2) as Hf2.
  { apply Forall_app. split; [done|]. constructor; [|done]. cbn. by rewrite Eo, andb_false_r. }
  assert (git_done (st_repo s) (add_args args s) t2) as Hd by (exists out; split; [apply said_last|done]).
  eapply wp_part_ok; [apply wp_calls_only, (sparse_reads (st_path s))| |].
  2:{ intros t e Ht. left. eapply adds_fine_since; [|exact Hf2|exact Ht]. by intros ? []. }
  intros t3 empty Ht3. assert (adds_fine t3) as Hf3 by (eapply adds_fine_since; [|exact Hf2|exact Ht3]; by intros ? []).
  destruct empty.
  - apply cleanup_wp. intros x y. left. apply Forall_app. split; [done|]. constructor; [by vm_compute|]. constructor; [by vm_compute|done].
  - cbn. split; [done|]. eapply git_done_prefix; [exact Hd|by eapply since_prefix].
Qed.

Lemma add_no_writes args s : calls_only (fun e => writes e = false) (add_stage args s).
Proof.
  assert (forall A (p : prog wt_call A), calls_only reads p -> calls_only (fun e => writes e = false) p) as Hr.
  { intros A p. apply calls_only_mono. by intros e (_ & _ & _ & ?). }
  assert (forall A repo path (a : A), calls_only (fun e => writes e = false) (cleanup_partial repo path;; Ret a)%prog) as Hc.
  { intros A repo path a. apply calls_only_bind; [|done]. eapply calls_only_mono; [|apply cleanup_no_add]. by intros e []. }
  unfold add_stage. destruct (st_resumed s); [done|]. apply calls_only_bind_ok; [apply Hr, progress_reads|]. intros _.
  apply calls_only_bind_ok; [by split|]. intros out. destruct (go_code out); [|apply Hc]. destruct (git_ok out); [|apply Hc].
  apply calls_only_bind_ok; [apply Hr, sparse_reads|]. intros [|]; [apply Hc|done].
Qed.

(** *** The whole pipeline *)

Definition outcome_ok `{JsonText} (args : CreateArgs) (o : CreateOutcome) (t : trace) : Prop :=
  branch_of args = Ok (co_branch o) /\
  row_written (co_project o) (co_parent o) (co_path o) (to_string (co_meta o)) t /\
  if co_resumed o
  then none_of adds t /\ none_of fetches t /\ said (Exists (co_path o)) true t /\
       exists repo ws w, known_worktrees repo ws t /\ w ∈ ws /\ wi_branch w = Some (co_branch o) /\ same_seen (wi_path w) (co_path o) t
  else exists repo gargs, git_starts "worktree" "add" gargs = true /\ co_path o ∈ gargs /\ co_branch o ∈ gargs /\ git_done repo gargs t.

(** Up to the registration. *)
Record unregistered (allowed : list rstr) (args : CreateArgs) (s : Situation) (t : trace) : Prop := {
  un_writes : none_of writes t;
  un_fine : adds_fine t;
  un_resumed : st_resumed s = true -> none_of adds t /\ none_of fetches t;
  un_valid : valid allowed args s t
}.

Lemma unregistered_reads allowed args s t t' : unregistered allowed args s t -> since reads t t' -> unregistered allowed args s t'.
Proof.
  intros [H1 H2 H3 H4] Ht. split.
  - eapply none_since; [|exact H1|exact Ht]. by intros e (_ & _ & _ & ?).
  - eapply adds_fine_since; [|exact H2|exact Ht]. by intros e [].
  - intros Hr. destruct (H3 Hr) as [Ha Hf]. split; (eapply none_since; [|eassumption|exact Ht]); [by intros e []|by intros e (_ & ? & _)].
  - eapply valid_prefix; [done|by eapply since_prefix].
Qed.

Lemma wp_unregistered allowed args s (p : wprog unit) (f : unit -> wprog CreateOutcome) pre Q : unregistered allowed args s pre ->
  calls_only reads p -> (forall t, pre `prefix_of` t -> unregistered allowed args s t -> wp (f tt) t Q) ->
  (forall t e, unregistered allowed args s t -> Q t (Err e)) -> wp (bind_ok p f) pre Q.
Proof.
  intros Hu Hp Hok Herr. eapply wp_part_ok; [apply wp_calls_only, Hp| |].
  - intros t [] Ht. apply Hok; [by eapply since_prefix|by eapply unregistered_reads].
  - intros t e Ht. apply Herr. by eapply unregistered_reads.
Qed.

(** The outcome of [worktree.create].  A success has its project row written
    with the path, the parent and the metadata it returns; its checkout was either
    added on its branch by a run of git that succeeded, or was there already, on
    its branch by git's own list, and then nothing was fetched or added.  A failure
    has written nothing to the store, unless it is the registration that failed;
    and an addition that failed is followed by its removal and a prune and ends
    the call. *)
Theorem create_outcome `{JsonText} (allowed : list rstr) (args : CreateArgs) (t : trace) (r : result CreateOutcome WorktreeError) :
  runs (create allowed args) t r ->
  match r with Ok o => outcome_ok args o t | Err e => we_kind e = RegisterFailed \/ none_of writes t end /\
  (adds_fine t \/ cleaned t /\ exists e, r = Err e).
Proof.
  set (Q := fun (t : trace) (r : result CreateOutcome WorktreeError) =>
    match r with Ok o => outcome_ok args o t | Err e => we_kind e = RegisterFailed \/ none_of writes t end /\
    (adds_fine t \/ cleaned t /\ exists e, r = Err e)).
  assert (forall s t e, unregistered allowed args s t -> Q t (Err e)) as Herr.
  { intros s t' e [H1 H2 _ _]. split; [by right|by left]. }
  intros Hruns. cut (wp (create allowed args) [] Q); [intros Hwp; exact (wp_runs _ _ _ _ _ Hwp Hruns)|]. clear t r Hruns.
  unfold create. eapply wp_part_ok; [apply (wp_keep reads); [apply validate_reads|apply validate_spec]| |].
  2:{ intros t e [Ht _]. split; [right; eapply none_since; [|by constructor|exact Ht]; by intros ? (_ & _ & _ & ?)|].
      left. eapply adds_fine_since; [|by constructor|exact Ht]. by intros ? []. }
  intros t1 s [Ht Hv]. assert (unregistered allowed args s t1) as Hu.
  { split; [| | |done].
    - eapply none_since; [|by constructor|exact Ht]; by intros ? (_ & _ & _ & ?).
    - eapply adds_fine_since; [|by constructor|exact Ht]. by intros ? [].
    - intros _. split; (eapply none_since; [|by constructor|exact Ht]); [by intros ? []|by intros ? (_ & ? & _)]. }
  eapply (wp_part_ok _ _ _ (fun t _ => unregistered allowed args s t)); [|intros t2 url Hu2|intros t e; apply Herr].
  { destruct (st_resumed s) eqn:Er; [unfold fetch_stage; rewrite Er; exact Hu|].
    eapply wp_mono; [|apply wp_calls_only, (fetch_quiet args s)]. intros t2 u Ht2. split.
    - eapply none_since; [|apply Hu|exact Ht2]; by intros ? (_ & _ & ?).
    - eapply adds_fine_since; [|apply Hu|exact Ht2]. by intros ? [].
    - congruence.
    - eapply valid_prefix; [exact Hv|exact (since_prefix _ _ _ Ht2)]. }
  apply (wp_unregistered allowed args s); [done|apply check_reads| |by apply Herr]. intros t3 P23 Hu3.
  eapply wp_part_ok; [apply (wp_keep (fun e => writes e = false)); [apply add_no_writes|apply add_spec, Hu3]| |].
  2:{ intros t e [Hs Hcl]. split; [right; eapply none_since; [|apply Hu3|exact Hs]; done|]. destruct Hcl as [Hcl|Hcl]; [by left|right; split; [exact Hcl|by eexists]]. }
  intros t4 u [Hs [Hf4 Hadd]]. assert (unregistered allowed args s t4) as Hu4.
  { split; [eapply none_since; [|apply Hu3|exact Hs]; done|done| |].
    - intros Hr. rewrite Hr in Hadd. subst t4. by apply Hu3.
    - eapply valid_prefix; [apply Hu3|by eapply since_prefix]. }
  apply (wp_unregistered allowed args s); [done|apply check_reads| |by apply Herr]. intros t5 P45 Hu5.
  eapply wp_mono; [|apply (wp_keep no_git); [apply register_no_git|apply register_spec]].
  intros t6 r [Hs6 Hr]. split.
  2:{ left. eapply adds_fine_since; [|apply Hu5|exact Hs6]. by intros ? []. }
  destruct r as [o|e]; [|by left]. destruct Hr as (Hpath & Hb & Hres & _ & Hrow). destruct Hu5 as [_ _ Hnone [V1 _ _ _ V5]].
  unfold outcome_ok. rewrite Hpath, Hb, Hres in *. split; [done|]. split; [done|]. unfold situated in V5. apply since_prefix in Hs6 as P56.
  destruct (st_resumed s).
  - destruct (Hnone eq_refl) as [Ha Hfe]. destruct V5 as (ws & (out & Ho & Hok) & Hthere & w & Hw & Hwb & Hsame).
    split; [eapply none_since; [|exact Ha|exact Hs6]; by intros ? []|].
    split; [eapply none_since; [|exact Hfe|exact Hs6]; by intros ? (_ & ? & _)|]. split; [by eapply said_prefix|].
    exists (st_repo s), ws, w. split_and!; try done; [exists out; split; [by eapply said_prefix|done]|by eapply same_seen_prefix].
  - exists (st_repo s), (add_args args s). split_and!; [apply add_args_add|apply path_in_add..|].
    eapply git_done_prefix; [exact Hadd|by etransitivity].
Qed.
