(* ===== verification/WorktreeRetry.v ===== *)
(** * WorktreeRetry: creating a workspace again

    The calls played against the session store and an outside world that may
    change between two runs. *)

From S2P Require Import Prelude Str Json Jail Rows SessionStore Interact Worktree WorktreeFacts.

(** ** Worlds *)

(** What git, [gh] and the file system answer. *)
Record outside := {
  o_git : rstr -> list rstr -> result GitOut rstr;
  o_gh : list rstr -> result GitOut rstr;
  o_absolute : rstr -> result rstr rstr;
  o_canon : rstr -> loc;
  o_exists : rstr -> bool;
  o_cancelled : bool
}.

Record wt_world := { ww_db : Db; ww_now : rstr; ww_ids : list rstr }.

Definition with_wt_db (db : Db) (w : wt_world) : wt_world := {| ww_db := db; ww_now := ww_now w; ww_ids := ww_ids w |}.

Definition stored_db (r : result Db db_error) (w : wt_world) : result unit rstr * wt_world :=
  match r with Ok db => (Ok tt, with_wt_db db w) | Err _ => (Err (str "constraint"), w) end.

Definition handle (o : outside) (e : wt_call) (w : wt_world) : answer_of e * wt_world :=
  match e return answer_of e * wt_world with
  | Git repo args => (o_git o repo args, w)
  | Gh args => (o_gh o args, w)
  | Absolute p => (o_absolute o p, w)
  | Canon p => (o_canon o p, w)
  | Exists p => (o_exists o p, w)
  | RemoveDir _ => (tt, w)
  | IsCancelled => (o_cancelled o, w)
  | Progress _ _ => (tt, w)
  | FreshId => (default [] (head (ww_ids w)), {| ww_db := ww_db w; ww_now := ww_now w; ww_ids := tail (ww_ids w) |})
  | ProjectById id => (Ok (get_project (ww_db w) id), w)
  | ProjectByRoot root => (Ok (get_project_by_root (ww_db w) root), w)
  | ListProjects => (Ok (list_projects (ww_db w)), w)
  | CreateProject id name root => stored_db (create_project (ww_now w) id name root (str "{}") (ww_db w)) w
  | CreateWorktree id name root parent meta =>
      stored_db (create_project_full (ww_now w) id name root (str "{}") (str "worktree") parent meta (ww_db w)) w
  | SetMeta id parent meta => (Ok tt, with_wt_db (set_project_meta id parent meta (ww_db w)).1 w)
  | DeleteProject id => stored_db (delete_project id (ww_db w)) w
  end.

(** Calls that depend on the outside alone. *)
Definition steady (e : wt_call) : Prop :=
  match e with
  | FreshId | ProjectById _ | ProjectByRoot _ | ListProjects | CreateProject _ _ _ | CreateWorktree _ _ _ _ _ | SetMeta _ _ _
  | DeleteProject _ => False
  | _ => True
  end.

Lemma exec_steady o {A} (p : prog wt_call A) : calls_only steady p -> exists a, forall w, exec (handle o) p w = (a, w).
Proof.
  induction p as [a|e k IH]; cbn; [by exists a|]. intros [He Hk].
  assert (exists x, forall w, handle o e w = (x, w)) as [x Hx] by (destruct e; cbn in *; by eauto).
  destruct (IH x (Hk x)) as [a Ha]. exists a. intros w. by rewrite Hx, Ha.
Qed.

Ltac steady_tac :=
  repeat match goal with
  | |- forall _, _ => intro
  | |- calls_only _ (Ret _) => exact I
  | |- calls_only _ (bind_ok _ _) => apply calls_only_bind_ok
  | |- calls_only _ (bind _ _) => apply calls_only_bind
  | |- calls_only _ (any_of _ _) => apply any_of_only
  | |- calls_only _ (match ?x with _ => _ end) => destruct x
  | |- calls_only _ (run_git _ _) => split
  | |- calls_only _ (ask _) => split
  | |- calls_only _ (progress _ _) => unfold progress
  | |- calls_only _ (git _ _ _) => unfold git
  | |- calls_only _ (completed _ _) => exact I
  | |- steady _ => exact I
  end.

Lemma git_calls_steady repo b :
  calls_only steady (git_toplevel repo) /\ calls_only steady (check_branch_name repo b) /\ calls_only steady (branch_exists repo b) /\
  calls_only steady (remote_url repo b) /\ calls_only steady (list_worktrees repo) /\ calls_only steady (base_resolves repo b) /\
  calls_only steady (split_remote repo b) /\ calls_only steady (sparse_empty b) /\ calls_only steady (same_path repo b) /\
  calls_only steady check /\ calls_only steady (cleanup_partial repo b).
Proof.
  unfold git_toplevel, check_branch_name, branch_exists, remote_url, list_worktrees, base_resolves, split_remote, sparse_empty, same_path,
    check, cleanup_partial, canon_abs, is_cancelled. split_and!; steady_tac.
Qed.

Ltac steady_with :=
  repeat first [ match goal with |- calls_only steady ?p => solve [apply git_calls_steady; exact []] end | progress steady_tac ].

Lemma validate_steady allowed args : calls_only steady (validate allowed args).
Proof.
  unfold validate, place_worktree, adopt_or_refuse, absolute, canon_abs, exists_. steady_with.
Qed.

Lemma fetch_steady args s : calls_only steady (fetch_stage args s).
Proof. unfold fetch_stage, fetch_base. steady_with. Qed.

Lemma add_steady args s : calls_only steady (add_stage args s).
Proof. unfold add_stage. steady_with. Qed.

Lemma check_steady : calls_only steady check.
Proof. unfold check, is_cancelled. steady_tac. Qed.

(** ** The rows of a root *)

Definition rows_at (db : Db) (root : rstr) : list ProjectRow := List.filter (fun p => str_eqb (pr_root p) root) (db_projects db).

(** The row found by a root, by kind and id. *)
Definition claims (db : Db) (root : rstr) (kind : string) (id : rstr) : Prop :=
  exists row, get_project_by_root db root = Some row /\ pr_kind row = str kind /\ pr_id row = id.

Definition all_worktrees (db : Db) (root : rstr) : Prop := forall p, p ∈ rows_at db root -> pr_kind p = str "worktree".

Lemma project_first_total a b : project_first a b = true \/ project_first b a = true.
Proof. unfold project_first. repeat case_match; auto using str_leb_total. Qed.

Lemma project_first_trans a b c : project_first a b = true -> project_first b c = true -> project_first a c = true.
Proof. unfold project_first. repeat case_match; try done; apply str_leb_trans. Qed.

Lemma first_project l r p : head (sort_by project_first l) = Some r -> p ∈ l -> pr_kind p = str "project" -> pr_kind r = str "project".
Proof.
  intros Hh Hp Hk. pose proof (sort_by_sorted _ project_first_total project_first_trans l) as Hs.
  rewrite <-(sort_by_elem project_first) in Hp. destruct (sort_by project_first l) as [|x rest]; [done|]. injection Hh as ->.
  apply elem_of_cons in Hp as [->|Hp]; [done|]. inversion Hs as [|? ? _ Hf]; subst. rewrite Forall_forall in Hf. apply Hf in Hp.
  unfold project_first in Hp. destruct (str_eqb (pr_kind r) (str "project")) eqn:E; [by apply str_eqb_eq in E|].
  rewrite Hk, str_eqb_refl in Hp. done.
Qed.

Lemma claims_rows db db' root kind id : rows_at db' root = rows_at db root -> claims db' root kind id <-> claims db root kind id.
Proof. intros H. unfold claims, get_project_by_root. fold (rows_at db root) (rows_at db' root). by rewrite H. Qed.

Lemma claims_inj db root kind kind' a b : claims db root kind a -> claims db root kind' b -> a = b.
Proof. intros (r & Hr & _ & <-) (r' & Hr' & _ & <-). congruence. Qed.

Lemma rows_at_projects db db' root : db_projects db' = db_projects db -> rows_at db' root = rows_at db root.
Proof. unfold rows_at. by intros ->. Qed.

Lemma rows_at_snoc db p root : rows_at (with_projects (db_projects db ++ [p]) db) root =
  rows_at db root ++ (if str_eqb (pr_root p) root then [p] else []).
Proof. unfold rows_at. cbn. by rewrite List.filter_app. Qed.

(** New metadata keeps ids, roots, kinds and the order. *)
Definition same_row (a b : ProjectRow) : Prop :=
  pr_id a = pr_id b /\ pr_root a = pr_root b /\ pr_kind a = pr_kind b /\ pr_created a = pr_created b.

Lemma meta_rows id parent meta db root : Forall2 same_row (rows_at (set_project_meta id parent meta db).1 root) (rows_at db root).
Proof.
  unfold rows_at, set_project_meta, update_where. cbn. induction (db_projects db) as [|p l IH]; [constructor|]. cbn [map List.filter].
  set (p' := if str_eqb (pr_id p) id then _ else p). assert (same_row p' p) as Hp by (unfold p'; by destruct (str_eqb (pr_id p) id)).
  destruct Hp as (H1 & H2 & H3 & H4). rewrite H2. destruct (str_eqb (pr_root p) root); [|done]. by constructor.
Qed.

Lemma insert_same a b l l' : same_row a b -> Forall2 same_row l l' ->
  Forall2 same_row (insert_sorted project_first a l) (insert_sorted project_first b l').
Proof.
  intros Hab. induction 1 as [|x y l l' Hxy Hl IH]; cbn; [by constructor|].
  assert (project_first a x = project_first b y) as ->.
  { destruct Hab as (_ & _ & Ha & Hb), Hxy as (_ & _ & Hc & Hd). unfold project_first. by rewrite Ha, Hb, Hc, Hd. }
  destruct (project_first b y); [constructor; [done|by constructor]|by constructor].
Qed.

Lemma sort_same l l' : Forall2 same_row l l' -> Forall2 same_row (sort_by project_first l) (sort_by project_first l').
Proof. induction 1 as [|a b l l' Hab _ IH]; cbn; [constructor|]. by apply insert_same. Qed.

Lemma claims_meta id parent meta db root kind x :
  claims (set_project_meta id parent meta db).1 root kind x <-> claims db root kind x.
Proof.
  pose proof (sort_same _ _ (meta_rows id parent meta db root)) as H. unfold claims, get_project_by_root.
  fold (rows_at db root) (rows_at (set_project_meta id parent meta db).1 root).
  revert H. generalize (sort_by project_first (rows_at (set_project_meta id parent meta db).1 root)), (sort_by project_first (rows_at db root)).
  intros l1 l2 [|a b l l' (H1 & _ & H2 & _) _]; cbn; [by split; intros (r & Hr & _)|].
  split; intros (r & [= <-] & <- & <-); [exists b|exists a]; split_and!; congruence.
Qed.

Lemma meta_ids id parent meta db : map pr_id (db_projects (set_project_meta id parent meta db).1) = map pr_id (db_projects db).
Proof. cbn. apply update_where_keys. by intros r. Qed.

(** ** Registering *)

Lemma head_sorted_elem (l : list ProjectRow) p : p ∈ l -> exists x, head (sort_by project_first l) = Some x /\ x ∈ l.
Proof.
  intros Hp. rewrite <-(sort_by_elem project_first) in Hp. destruct (sort_by project_first l) as [|x r] eqn:E; [by apply not_elem_of_nil in Hp|].
  exists x. split; [done|]. rewrite <-(sort_by_elem project_first), E. left.
Qed.

(** A new row of a root no project had is what the root finds. *)
Lemma created_project db new : pr_kind new = str "project" ->
  (forall r, get_project_by_root db (pr_root new) = Some r -> pr_kind r <> str "project") ->
  claims (with_projects (db_projects db ++ [new]) db) (pr_root new) "project" (pr_id new).
Proof.
  intros Hk Hnone. unfold claims, get_project_by_root. fold (rows_at (with_projects (db_projects db ++ [new]) db) (pr_root new)).
  rewrite rows_at_snoc, str_eqb_refl. set (l := rows_at db (pr_root new) ++ [new]).
  assert (new ∈ l) as Hnew by (apply elem_of_app; right; by left).
  destruct (head_sorted_elem l new Hnew) as (x & Hx & Hxl). exists x. split; [done|].
  assert (pr_kind x = str "project") as Hxk by (exact (first_project _ _ _ Hx Hnew Hk)). split; [done|].
  apply elem_of_app in Hxl as [Hold|Hxl]; [|by apply list_elem_of_singleton in Hxl as ->]. exfalso.
  destruct (head_sorted_elem _ x Hold) as (y & Hy & _). apply (Hnone y Hy). exact (first_project _ _ _ Hy Hold Hxk).
Qed.

(** A row of another root changes nothing. *)
Lemma rows_at_other db new root : pr_root new <> root -> rows_at (with_projects (db_projects db ++ [new]) db) root = rows_at db root.
Proof. intros Hne. rewrite rows_at_snoc. apply str_eqb_neq in Hne as ->. apply app_nil_r. Qed.

Lemma ensure_exec o repo w parent w' path : path <> repo ->
  exec (handle o) (ensure_parent_project repo) w = (Ok parent, w') ->
  exists p, parent = Some p /\ claims (ww_db w') repo "project" p /\ rows_at (ww_db w') path = rows_at (ww_db w) path /\
    (forall p0, claims (ww_db w) repo "project" p0 -> p = p0 /\ ww_db w' = ww_db w).
Proof.
  intros Hne. unfold ensure_parent_project, project_by_root. cbn [bind_ok bind ask exec handle].
  destruct (match get_project_by_root (ww_db w) repo with Some r => _ | None => _ end) as [r|] eqn:Em.
  - destruct (get_project_by_root (ww_db w) repo) as [r'|] eqn:Er; [|done]. destruct (str_eqb (pr_kind r') _) eqn:Ek; [|done].
    injection Em as ->. apply str_eqb_eq in Ek. intros [= <- <-]. exists (pr_id r). split; [done|]. split; [by exists r|]. split; [done|].
    intros p0 (r' & Hr' & _ & <-). rewrite Er in Hr'. by injection Hr' as ->.
  - assert (forall r, get_project_by_root (ww_db w) repo = Some r -> pr_kind r <> str "project") as Hnone.
    { intros r Hr Hk. rewrite Hr, Hk, str_eqb_refl in Em. done. }
    cbn. unfold create_project, create_project_full. destruct (has_project _ _); [done|]. cbn. intros [= <- <-].
    eexists. split; [done|]. split; [|split].
    + by apply (created_project (ww_db w) {| pr_id := default [] (head (ww_ids w)); pr_root := repo |}).
    + by apply rows_at_other.
    + intros p0 (r' & Hr' & Hk' & _). by apply Hnone in Hr'.
Qed.

Lemma register_exec o path parent meta w id w' repo : path <> repo -> all_worktrees (ww_db w) path ->
  exec (handle o) (register_row path parent meta) w = (Ok id, w') ->
  claims (ww_db w') path "worktree" id /\ all_worktrees (ww_db w') path /\
  (forall kind x, claims (ww_db w') repo kind x <-> claims (ww_db w) repo kind x) /\
  (forall x, claims (ww_db w) path "worktree" x -> id = x /\ map pr_id (db_projects (ww_db w')) = map pr_id (db_projects (ww_db w))).
Proof.
  intros Hne Hall. unfold register_row, project_by_root. cbn [bind_ok bind ask exec handle].
  destruct (get_project_by_root (ww_db w) path) as [r|] eqn:Er.
  - assert (pr_kind r = str "worktree") as Hk.
    { apply Hall. unfold get_project_by_root in Er. apply (sort_by_elem project_first). fold (rows_at (ww_db w) path) in Er.
      destruct (sort_by project_first _); [done|]. injection Er as ->. left. }
    rewrite Hk, str_eqb_refl. cbn [bind_ok bind set_meta ask exec handle]. intros [= <- <-]. cbn [ww_db with_wt_db].
    assert (claims (ww_db w) path "worktree" (pr_id r)) as Hc by (by exists r). split; [by apply claims_meta|]. split; [|split].
    + intros p Hp. pose proof (meta_rows (pr_id r) parent meta (ww_db w) path) as Hm.
      apply list_elem_of_lookup in Hp as [i Hi].
      destruct (Forall2_lookup_l _ _ _ _ _ Hm Hi) as (q & Hq & _ & _ & -> & _). apply Hall. by eapply list_elem_of_lookup_2.
    + intros kind x. apply claims_meta.
    + intros x Hx. split; [by eapply claims_inj|apply meta_ids].
  - cbn [bind_ok bind fresh_id create_worktree_row ask exec handle]. unfold create_project_full. destruct (has_project _ _); [done|]. cbn.
    intros [= <- <-]. cbn.
    assert (rows_at (ww_db w) path = []) as Hnil.
    { destruct (rows_at (ww_db w) path) as [|a l] eqn:El; [done|]. exfalso.
      destruct (head_sorted_elem (rows_at (ww_db w) path) a) as (x & Hx & _); [rewrite El; left|]. unfold get_project_by_root in Er.
      fold (rows_at (ww_db w) path) in Er. congruence. }
    set (new := {| pr_id := _ |}).
    assert (rows_at (with_projects (db_projects (ww_db w) ++ [new]) (ww_db w)) path = [new]) as Hnew.
    { rewrite rows_at_snoc, Hnil. cbn. by rewrite str_eqb_refl. }
    split; [|split; [|split]].
    + exists new. unfold get_project_by_root. fold (rows_at (with_projects (db_projects (ww_db w) ++ [new]) (ww_db w)) path). by rewrite Hnew.
    + intros p Hp. rewrite Hnew in Hp. by apply list_elem_of_singleton in Hp as ->.
    + intros kind x. apply claims_rows. by apply rows_at_other.
    + intros x (r & Hr & _). congruence.
Qed.

(** ** A second run *)

Section Retry.
Context `{JT : JsonText}.

(** Up to the registration the store is not touched. *)
Lemma create_exec o allowed args :
  (exists e, forall w, exec (handle o) (create allowed args) w = (Err e, w)) \/
  exists s url, forall w, exec (handle o) (create allowed args) w = exec (handle o) (register_stage args s url) w.
Proof.
  assert (forall A B (p : wprog A) (f : A -> wprog B), calls_only steady p ->
    (exists e, forall w, exec (handle o) (bind_ok p f) w = (Err e, w)) \/
    exists a, forall w, exec (handle o) (bind_ok p f) w = exec (handle o) (f a) w) as Hstep.
  { intros A B p f Hp. destruct (exec_steady o p Hp) as [[a|e] Ha].
    - right. exists a. intros w. by apply exec_bind_ok.
    - left. exists e. intros w. unfold bind_ok. rewrite exec_bind, Ha. done. }
  unfold create.
  destruct (Hstep _ _ (validate allowed args) (fun s => url <-? fetch_stage args s; check;? add_stage args s;? check;? register_stage args s url)%prog
    (validate_steady allowed args)) as [[e He]|[s Hs]]; [left; by exists e|].
  destruct (Hstep _ _ (fetch_stage args s) (fun url => check;? add_stage args s;? check;? register_stage args s url)%prog
    (fetch_steady args s)) as [[e He]|[url Hurl]]; [left; exists e; intros w; by rewrite Hs, He|].
  destruct (Hstep _ _ check (fun _ => add_stage args s;? check;? register_stage args s url)%prog check_steady)
    as [[e He]|[[] Hc]]; [left; exists e; intros w; by rewrite Hs, Hurl, He|].
  destruct (Hstep _ _ (add_stage args s) (fun _ => check;? register_stage args s url)%prog (add_steady args s))
    as [[e He]|[[] Ha]]; [left; exists e; intros w; by rewrite Hs, Hurl, Hc, He|].
  destruct (Hstep _ _ check (fun _ => register_stage args s url)%prog check_steady)
    as [[e He]|[[] Hd]]; [left; exists e; intros w; by rewrite Hs, Hurl, Hc, Ha, He|].
  right. exists s, url. intros w. by rewrite Hs, Hurl, Hc, Ha, Hd.
Qed.

Lemma meta_repo args s url : idx (meta_of args s url) "repo" = JStr (st_repo s).
Proof. reflexivity. Qed.

Lemma registered_exec {A} o (p : prog wt_call (result A rstr)) w a w' :
  exec (handle o) (registered p) w = (Ok a, w') -> exec (handle o) p w = (Ok a, w').
Proof.
  unfold registered. rewrite exec_bind. destruct (exec (handle o) p w) as [[x|e] w1]; cbn; [|done]. by intros [= -> ->].
Qed.

(** A registration that succeeded, in its two parts. *)
Lemma register_stage_exec o args s url w c w' : exec (handle o) (register_stage args s url) w = (Ok c, w') ->
  co_path c = st_path s /\ idx (co_meta c) "repo" = JStr (st_repo s) /\
  exists w1, exec (handle o) (ensure_parent_project (st_repo s)) w = (Ok (co_parent c), w1) /\
    exec (handle o) (register_row (st_path s) (co_parent c) (to_string (meta_of args s url))) w1 = (Ok (co_project c), w').
Proof.
  unfold register_stage. rewrite (exec_bind_ok _ _ _ w tt w) by done. unfold bind_ok at 1. rewrite exec_bind.
  destruct (exec (handle o) (registered (ensure_parent_project (st_repo s))) w) as [[parent|e] w1] eqn:E1; [|done].
  apply registered_exec in E1. cbn [fst snd]. unfold bind_ok at 1. rewrite exec_bind.
  destruct (exec (handle o) (registered (register_row _ _ _)) w1) as [[id|e] w2] eqn:E2; [|done]. apply registered_exec in E2.
  cbn. intros [= <- <-]. split; [done|]. split; [reflexivity|]. by exists w1.
Qed.

(** C27: creating a workspace again finds it: whatever happened outside between
    two runs that succeed for one path of one repository, the second returns the
    project and the parent of the first and adds no row to the projects.  It
    needs that no project but worktrees is registered at the path, and that the
    path is not the repository's own root. *)
Theorem retry_finds_row (o1 o2 : outside) (allowed : list rstr) (args1 args2 : CreateArgs) (w w1 w2 : wt_world) (c1 c2 : CreateOutcome) :
  exec (handle o1) (create allowed args1) w = (Ok c1, w1) -> exec (handle o2) (create allowed args2) w1 = (Ok c2, w2) ->
  co_path c2 = co_path c1 -> idx (co_meta c2) "repo" = idx (co_meta c1) "repo" -> idx (co_meta c1) "repo" <> JStr (co_path c1) ->
  all_worktrees (ww_db w) (co_path c1) ->
  co_project c2 = co_project c1 /\ co_parent c2 = co_parent c1 /\
  map pr_id (db_projects (ww_db w2)) = map pr_id (db_projects (ww_db w1)).
Proof.
  intros H1 H2 Hpath Hrepo Hne Hall.
  destruct (create_exec o1 allowed args1) as [[e He]|(s1 & url1 & E1)]; [by rewrite He in H1|]. rewrite E1 in H1. clear E1.
  destruct (create_exec o2 allowed args2) as [[e He]|(s2 & url2 & E2)]; [by rewrite He in H2|]. rewrite E2 in H2. clear E2.
  apply register_stage_exec in H1 as (P1 & R1 & wa & Ea & Eb). apply register_stage_exec in H2 as (P2 & R2 & wb & Ec & Ed).
  rewrite P1 in *. rewrite P2 in *. rewrite R1 in *. rewrite R2 in *. injection Hrepo as Hrepo. rewrite Hpath, Hrepo in *.
  assert (st_path s1 <> st_repo s1) as Hpr by congruence.
  destruct (ensure_exec _ _ _ _ _ _ Hpr Ea) as (p1 & Hp1 & Cp1 & Rows1 & _).
  assert (all_worktrees (ww_db wa) (st_path s1)) as Halla by (unfold all_worktrees; by rewrite Rows1).
  destruct (register_exec _ _ _ _ _ _ _ _ Hpr Halla Eb) as (Cid & Hall1 & Keep & _).
  destruct (ensure_exec _ _ _ _ _ _ Hpr Ec) as (p2 & Hp2 & _ & _ & Same). destruct (Same p1) as [-> Hdb]; [by apply Keep|].
  destruct (register_exec _ _ _ _ _ _ _ _ Hpr ltac:(rewrite Hdb; exact Hall1) Ed) as (_ & _ & _ & Hfound).
  destruct (Hfound (co_project c1)) as [Hid Hids]; [by rewrite Hdb|]. rewrite Hids, Hdb. by rewrite Hp1, Hp2.
Qed.
End Retry.
