(* ===== verification/WorktreeList.v ===== *)
(** * WorktreeList: git's listing read back, and what the names are

    [git worktree list --porcelain] printed by its documented grammar and parsed
    again; the numbers and remotes the parsers accept. *)

From S2P Require Import Prelude Str Json SessionStore Interact Worktree.

(** ** The grammar of the listing *)

Definition attribute_lines (w : WorktreeInfo) : list rstr :=
  (if is_empty (wi_head w) then [] else [str "HEAD " ++ wi_head w]) ++
  (if wi_bare w then [str "bare"] else []) ++
  match wi_branch w with Some b => [str "branch refs/heads/" ++ b] | None => if wi_bare w then [] else [str "detached"] end ++
  (if wi_locked w then [str "locked" ++ match wi_reason w with Some r => [c_space] ++ r | None => [] end] else []) ++
  (if wi_prunable w then [str "prunable gitdir file points to non-existent location"] else []).

Definition record_lines (w : WorktreeInfo) : list rstr := (str "worktree " ++ wi_path w) :: attribute_lines w ++ [[]].

Definition print_porcelain (ws : list WorktreeInfo) : rstr := flat_map (fun l => l ++ [c_nl]) (flat_map record_lines ws).

(** Text that fits on a line. *)
Definition on_line (s : rstr) : Prop := c_nl ∉ s /\ last s <> Some c_cr.

Record printable (w : WorktreeInfo) : Prop := {
  pt_path : on_line (wi_path w);
  pt_head : on_line (wi_head w);
  pt_branch : forall b, wi_branch w = Some b -> on_line b;
  pt_reason : forall r, wi_reason w = Some r -> on_line r /\ trim r = r /\ r <> [] /\ wi_locked w = true
}.

(** The first one listed is the main one. *)
Definition listed (ws : list WorktreeInfo) : Prop :=
  Forall printable ws /\ map wi_main ws = map (fun i => i =? 0) (seq 0 (length ws)).

(** ** Lines *)

Lemma on_line_app (p s : rstr) : c_nl ∉ p -> last p <> Some c_cr -> on_line s -> on_line (p ++ s).
Proof.
  intros Hp Hl [Hs Hc]. split; [intros [?|?]%elem_of_app; done|]. destruct s as [|x s _] using rev_ind; [by rewrite app_nil_r|].
  rewrite app_assoc, last_snoc. by rewrite last_snoc in Hc.
Qed.

Lemma strip_cr_id s : last s <> Some c_cr -> strip_cr s = s.
Proof.
  unfold strip_cr. destruct (last s) as [c|]; [|done]. intros H. destruct c as [|p]; [done|].
  do 4 (destruct p as [p|p|]; try done).
Qed.

Lemma lines_go_snoc ls : Forall on_line ls -> lines_go (ls ++ [[]]) = ls.
Proof.
  induction 1 as [|l ls [_ Hl] _ IH]; [done|]. cbn [app]. destruct (ls ++ [[]]) as [|x r] eqn:E; [by destruct ls|].
  change (lines_go (l :: x :: r)) with (strip_cr l :: lines_go (x :: r)). rewrite strip_cr_id by done. f_equal. exact IH.
Qed.

Lemma lines_flat ls : Forall on_line ls -> lines (flat_map (fun l => l ++ [c_nl]) ls) = ls.
Proof.
  intros H. unfold lines. assert (flat_map (fun l => l ++ [c_nl]) ls = join [c_nl] (ls ++ [[]])) as ->.
  { clear H. induction ls as [|l ls IH]; [done|]. cbn [flat_map app]. rewrite IH. destruct (ls ++ [[]]) as [|x r] eqn:E; [by destruct ls|].
    by rewrite join_cons2, <-!app_assoc. }
  rewrite split_on_join; [by apply lines_go_snoc|by apply N.eqb_refl|by destruct ls|].
  apply Forall_app. split; [|by constructor; [intros x Hx%not_elem_of_nil|]].
  eapply Forall_impl; [exact H|]. intros l [Hl _] x Hx. apply N.eqb_neq. by intros <-.
Qed.

Lemma trim_cr_id s : last s <> Some c_cr -> trim_end_char c_cr s = s.
Proof.
  intros H. unfold trim_end_char. destruct s as [|x s _] using rev_ind; [done|]. rewrite last_snoc in H. rewrite reverse_snoc.
  cbn [trim_start_char]. destruct (N.eqb_spec x c_cr) as [->|Hx]; [done|]. by rewrite <-reverse_snoc, reverse_involutive.
Qed.

(** ** Reading a record *)

Lemma loop_attr line ls out c : on_line line -> line <> [] -> strip_prefix (str "worktree ") line = None ->
  porcelain_loop (line :: ls) out (Some c) = porcelain_loop ls out (Some (porcelain_line line c)).
Proof. intros [_ Hl] Hne Hp. cbn [porcelain_loop]. rewrite trim_cr_id by done. destruct line; [done|]. cbn [is_empty]. by rewrite Hp. Qed.

Lemma loop_attrs lines ls out c : Forall (fun l => on_line l /\ l <> [] /\ strip_prefix (str "worktree ") l = None) lines ->
  porcelain_loop (lines ++ ls) out (Some c) = porcelain_loop ls out (Some (fold_left (fun c l => porcelain_line l c) lines c)).
Proof. intros H. revert c. induction H as [|l lines (H1 & H2 & H3) _ IH]; intros c; [done|]. cbn [app fold_left]. by rewrite loop_attr, IH. Qed.

Definition attr_line (l : rstr) : Prop := on_line l /\ l <> [] /\ strip_prefix (str "worktree ") l = None.

(** A literal beginning that is no new record. *)
Definition attr_start (p : rstr) : bool :=
  forallb (fun c => negb (N.eqb c c_nl)) p && negb (bool_decide (last p = Some c_cr)) && negb (is_empty p) &&
  negb (starts_with (take (length p) (str "worktree ")) p) && (length p <=? 9).

Lemma starts_with_take (p q s : rstr) : length q <= length p -> starts_with p (q ++ s) = true -> starts_with (take (length q) p) q = true.
Proof.
  revert q. induction p as [|a p IH]; intros [|b q] Hl H; cbn in *; try done.
  apply andb_true_iff in H as [-> H]. cbn. apply IH; [lia|done].
Qed.

Lemma attr_intro (p s : rstr) : attr_start p = true -> on_line s -> attr_line (p ++ s).
Proof.
  unfold attr_start. intros ((((H1 & H2)%andb_true_iff & H3)%andb_true_iff & H4)%andb_true_iff & H5)%andb_true_iff Hs.
  assert (c_nl ∉ p) as Hnl.
  { intros H. rewrite forallb_forall in H1. apply list_elem_of_In in H. apply H1 in H. by rewrite N.eqb_refl in H. }
  split; [|split].
  - apply on_line_app; [done| |done]. by apply negb_true_iff, bool_decide_eq_false in H2.
  - by destruct p.
  - unfold strip_prefix. destruct (starts_with _ (p ++ s)) eqn:E; [|done]. apply starts_with_take in E; [|apply Nat.leb_le in H5; exact H5].
    by rewrite E in H4.
Qed.

Lemma attr_word (p : rstr) : attr_start p = true -> attr_line p.
Proof. intros H. rewrite <-(app_nil_r p). apply attr_intro; [done|]. by split; [apply not_elem_of_nil|]. Qed.

Lemma attribute_lines_ok w : printable w -> Forall attr_line (attribute_lines w).
Proof.
  intros [Hp Hh Hb Hr]. unfold attribute_lines. apply Forall_app; split; [|apply Forall_app; split; [|apply Forall_app; split; [|apply Forall_app; split]]].
  - destruct (is_empty (wi_head w)); constructor; [|done]. by apply attr_intro; [vm_compute|].
  - destruct (wi_bare w); constructor; [|done]. by apply attr_word.
  - destruct (wi_branch w) as [b|].
    + constructor; [|done]. assert (str "branch refs/heads/" = str "branch " ++ str "refs/heads/") as -> by by vm_compute. rewrite <-app_assoc.
      apply attr_intro; [done|]. apply on_line_app; [|by vm_compute|by apply Hb]. vm_compute. set_solver.
    + destruct (wi_bare w); constructor; [|done]. by apply attr_word.
  - destruct (wi_locked w); constructor; [|done]. destruct (wi_reason w) as [r|].
    + apply attr_intro; [done|]. destruct (Hr r eq_refl) as (Hl & _). apply on_line_app; [|by vm_compute|done]. vm_compute. set_solver.
    + apply attr_intro; [done|]. by split; [apply not_elem_of_nil|].
  - destruct (wi_prunable w); constructor; [|done].
    assert (str "prunable gitdir file points to non-existent location" = str "prunable" ++ str " gitdir file points to non-existent location")
      as -> by by vm_compute.
    apply attr_intro; [done|]. split; [|by vm_compute]. vm_compute. set_solver.
Qed.

Lemma line_head h c : porcelain_line (str "HEAD " ++ h) c =
  {| wi_path := wi_path c; wi_branch := wi_branch c; wi_head := h; wi_main := wi_main c; wi_bare := wi_bare c;
     wi_locked := wi_locked c; wi_reason := wi_reason c; wi_prunable := wi_prunable c |}.
Proof. unfold porcelain_line. by rewrite strip_prefix_app. Qed.

Lemma line_branch b c : porcelain_line (str "branch refs/heads/" ++ b) c =
  {| wi_path := wi_path c; wi_branch := Some b; wi_head := wi_head c; wi_main := wi_main c; wi_bare := wi_bare c;
     wi_locked := wi_locked c; wi_reason := wi_reason c; wi_prunable := wi_prunable c |}.
Proof.
  assert (str "branch refs/heads/" = str "branch " ++ str "refs/heads/") as -> by by vm_compute. rewrite <-app_assoc.
  unfold porcelain_line. assert (strip_prefix (str "HEAD ") (str "branch " ++ str "refs/heads/" ++ b) = None) as -> by by vm_compute.
  by rewrite !strip_prefix_app.
Qed.

Lemma line_bare c : porcelain_line (str "bare") c =
  {| wi_path := wi_path c; wi_branch := wi_branch c; wi_head := wi_head c; wi_main := wi_main c; wi_bare := true;
     wi_locked := wi_locked c; wi_reason := wi_reason c; wi_prunable := wi_prunable c |}.
Proof. by vm_compute. Qed.

Lemma line_detached c : porcelain_line (str "detached") c = c.
Proof. by vm_compute. Qed.

Lemma line_prunable x c : porcelain_line (str "prunable" ++ x) c =
  {| wi_path := wi_path c; wi_branch := wi_branch c; wi_head := wi_head c; wi_main := wi_main c; wi_bare := wi_bare c;
     wi_locked := wi_locked c; wi_reason := wi_reason c; wi_prunable := true |}.
Proof.
  unfold porcelain_line. assert (strip_prefix (str "HEAD ") (str "prunable" ++ x) = None) as -> by by vm_compute.
  assert (strip_prefix (str "branch ") (str "prunable" ++ x) = None) as -> by by vm_compute.
  assert (str_eqb (str "prunable" ++ x) (str "detached") = false) as -> by (apply str_eqb_neq; intros H; vm_compute in H; discriminate H).
  assert (str_eqb (str "prunable" ++ x) (str "bare") = false) as -> by (apply str_eqb_neq; intros H; vm_compute in H; discriminate H).
  assert (strip_prefix (str "locked") (str "prunable" ++ x) = None) as -> by by vm_compute. by rewrite starts_with_app.
Qed.

Lemma line_locked x c : porcelain_line (str "locked" ++ x) c =
  {| wi_path := wi_path c; wi_branch := wi_branch c; wi_head := wi_head c; wi_main := wi_main c; wi_bare := wi_bare c;
     wi_locked := true; wi_reason := if is_empty (trim x) then wi_reason c else Some (trim x); wi_prunable := wi_prunable c |}.
Proof.
  unfold porcelain_line. assert (strip_prefix (str "HEAD ") (str "locked" ++ x) = None) as -> by by vm_compute.
  assert (strip_prefix (str "branch ") (str "locked" ++ x) = None) as -> by by vm_compute.
  assert (str_eqb (str "locked" ++ x) (str "detached") = false) as -> by (apply str_eqb_neq; intros H; vm_compute in H; discriminate H).
  assert (str_eqb (str "locked" ++ x) (str "bare") = false) as -> by (apply str_eqb_neq; intros H; vm_compute in H; discriminate H).
  by rewrite strip_prefix_app.
Qed.

Lemma read_attributes w : printable w ->
  fold_left (fun c l => porcelain_line l c) (attribute_lines w) (new_info (wi_path w) (wi_main w)) = w.
Proof.
  intros [_ _ _ Hr]. unfold attribute_lines. rewrite !fold_left_app.
  assert (str "prunable gitdir file points to non-existent location" = str "prunable" ++ str " gitdir file points to non-existent location")
    as -> by by vm_compute.
  destruct w as [path branch head main bare locked reason prunable]. cbn [wi_path wi_branch wi_head wi_main wi_bare wi_locked wi_reason wi_prunable] in *.
  assert (forall (b : bool) (x : rstr) c, fold_left (fun c l => porcelain_line l c) (if b then [x] else []) c = if b then porcelain_line x c else c) as Hif
    by by intros [].
  assert (forall (b : bool) (x : rstr) c, fold_left (fun c l => porcelain_line l c) (if b then [] else [x]) c = if b then c else porcelain_line x c) as Hif'
    by by intros [].
  rewrite !Hif, Hif', line_head, line_bare, line_prunable.
  assert (forall c, fold_left (fun c l => porcelain_line l c)
    match branch with Some b => [str "branch refs/heads/" ++ b] | None => if bare then [] else [str "detached"] end c =
    {| wi_path := wi_path c; wi_branch := match branch with Some b => Some b | None => wi_branch c end; wi_head := wi_head c; wi_main := wi_main c;
       wi_bare := wi_bare c; wi_locked := wi_locked c; wi_reason := wi_reason c; wi_prunable := wi_prunable c |}) as ->.
  { intros c. destruct branch as [b|]; cbn [fold_left]; [apply line_branch|]. destruct bare; cbn [fold_left]; rewrite ?line_detached; by destruct c. }
  rewrite line_locked.
  assert ((if is_empty (trim match reason with Some r => [c_space] ++ r | None => [] end) then None
           else Some (trim match reason with Some r => [c_space] ++ r | None => [] end)) = reason) as Hreason.
  { destruct reason as [r|]; [|done]. destruct (Hr r eq_refl) as (_ & Ht & Hne & _).
    assert (trim ([c_space] ++ r) = r) as -> by exact Ht. by destruct r. }
  revert Hreason. generalize (trim match reason with Some r => [c_space] ++ r | None => [] end). intros x Hreason.
  assert (locked = false -> reason = None) as Hnone.
  { intros ->. destruct reason as [r|]; [|done]. by destruct (Hr r eq_refl) as (_ & _ & _ & ?). }
  destruct head as [|h head], bare, locked, prunable; cbn; rewrite ?Hreason, ?(Hnone eq_refl); by destruct branch.
Qed.

(** ** Round trip *)

Lemma read_record w ls out : printable w -> wi_main w = is_empty out ->
  porcelain_loop (record_lines w ++ ls) out None = porcelain_loop ls (out ++ [w]) None.
Proof.
  intros Hw Hm. unfold record_lines. cbn [app porcelain_loop].
  assert (on_line (str "worktree " ++ wi_path w)) as [_ Hcr] by (apply on_line_app; [vm_compute; set_solver|by vm_compute|apply Hw]).
  rewrite trim_cr_id by done. assert (is_empty (str "worktree " ++ wi_path w) = false) as -> by by vm_compute.
  rewrite strip_prefix_app, app_nil_r, <-Hm, <-app_assoc. cbn [option_list]. rewrite loop_attrs by (apply attribute_lines_ok; exact Hw).
  by rewrite read_attributes.
Qed.

Lemma record_lines_ok w : printable w -> Forall on_line (record_lines w).
Proof.
  intros Hw. constructor; [apply on_line_app; [vm_compute; set_solver|by vm_compute|apply Hw]|]. apply Forall_app. split.
  - eapply Forall_impl; [by apply attribute_lines_ok|]. by intros l [].
  - constructor; [|done]. by split; [apply not_elem_of_nil|].
Qed.

(** C28: the listing of git, printed by its grammar, is read back: every worktree
    with its path, branch, head, lock with its reason, and whether it is bare,
    prunable or the main one. *)
Theorem porcelain_roundtrip (ws : list WorktreeInfo) : listed ws -> parse_porcelain (print_porcelain ws) = ws.
Proof.
  intros [Hp Hm]. unfold parse_porcelain, print_porcelain. rewrite lines_flat.
  2:{ clear Hm. induction Hp as [|w ws Hw _ IH]; [done|]. cbn [flat_map]. apply Forall_app. split; [by apply record_lines_ok|done]. }
  assert (forall out,
    map wi_main ws = map (fun i => i =? 0) (seq (length out) (length ws)) -> porcelain_loop (flat_map record_lines ws) out None = out ++ ws) as H.
  { clear Hm. induction Hp as [|w ws Hw _ IH]; intros out Hm; [cbn; by rewrite app_nil_r|]. cbn [flat_map]. cbn in Hm. injection Hm as Hm1 Hm2.
    rewrite read_record; [|done|by rewrite Hm1; destruct out]. rewrite IH; [by rewrite <-app_assoc|].
    rewrite length_app. cbn. by rewrite Nat.add_1_r. }
  by apply (H []).
Qed.
