(* ===== verification/WorktreeCases.v ===== *)
(** * WorktreeCases: workspaces on a small machine

    One repository with a branch, and a git that answers from a table: the
    dialogues the theorems of [WorktreeFacts] and [WorktreeRetry] are tried on,
    and what the code does that its comments do not say. *)

From S2P Require Import Prelude Str Json Jail SessionStore Interact Worktree WorktreeFacts WorktreeRetry WorktreeList.

#[local] Instance demo_wt_json : JsonText := {|
  to_string := fun _ => str "{}"; to_string_pretty := fun _ => str "{}"; from_str := fun _ => None |}.

Definition no_db : Db := {|
  db_sessions := []; db_messages := []; db_msg_seq := 0; db_fts := []; db_usage := []; db_usage_seq := 0; db_plans := [];
  db_projects := []; db_grants := []; db_scanned := []; db_tombstones := [] |}.

Definition said_out (code : Z) (out : rstr) : result GitOut rstr := Ok {| go_code := Some code; go_stdout := out; go_stderr := str "fatal: refused" |}.

Definition repo_path : rstr := str "/src/repo".
Definition tree_path : rstr := str "/src/repo-worktrees/fix".

Definition main_info : WorktreeInfo := {|
  wi_path := repo_path; wi_branch := Some (str "main"); wi_head := str "aaa"; wi_main := true; wi_bare := false; wi_locked := false;
  wi_reason := None; wi_prunable := false |}.

Definition fix_info : WorktreeInfo := {|
  wi_path := tree_path; wi_branch := Some (str "fix"); wi_head := str "bbb"; wi_main := false; wi_bare := false; wi_locked := true;
  wi_reason := Some (str "on a usb stick"); wi_prunable := true |}.

(** Git on the repository, with the worktrees it lists; the branch [fix] exists
    when its worktree does. *)
Definition demo_git (ws : list WorktreeInfo) (repo : rstr) (args : list rstr) : result GitOut rstr :=
  match args with
  | [a; b] => if str_eqb b (str "--show-toplevel") then said_out 0 (repo_path ++ [c_nl]) else said_out 0 []
  | a :: b :: c :: d :: _ => if str_eqb d (str "refs/heads/fix") then said_out (if length ws =? 1 then 1 else 0) [] else said_out 0 []
  | [a; b; c] => if str_eqb c (str "--porcelain") then said_out 0 (print_porcelain ws) else said_out 0 []
  | _ => said_out 0 []
  end.

Definition demo_outside (ws : list WorktreeInfo) : outside := {|
  o_git := demo_git ws; o_gh := fun _ => Err []; o_absolute := fun p => Ok p; o_canon := fun p => components p;
  o_exists := fun p => existsb (fun w => str_eqb (wi_path w) p) ws; o_cancelled := false |}.

Definition before : outside := demo_outside [main_info].
Definition after : outside := demo_outside [main_info; fix_info].

Definition fix_args : CreateArgs := {|
  ca_repo := repo_path; ca_branch := Some (str "fix"); ca_path := None; ca_base := None; ca_pr := None; ca_existing := false |}.

Definition empty_world : wt_world := {| ww_db := no_db; ww_now := str "t0"; ww_ids := map str ["id1"; "id2"; "id3"; "id4"]%string |}.

Definition first_run := exec (handle before) (create [str "/src"] fix_args) empty_world.
Definition second_run := exec (handle after) (create [str "/src"] fix_args) first_run.2.

Example first_run_result :
  match first_run.1 with
  | Ok o => co_project o = str "id2" /\ co_parent o = Some (str "id1") /\ co_path o = tree_path /\ co_resumed o = false
  | Err _ => False
  end.
Proof. vm_compute. by split_and!. Qed.

Definition talk : list (seen wt_call) := dialogue (handle before) (create [str "/src"] fix_args) empty_world.

Definition is_add_seen (s : seen wt_call) : bool := adds (call s).

Definition until_add : list (seen wt_call) := take (default 0 (find_index is_add_seen talk)) talk.
Definition behind_add : list (seen wt_call) := drop (S (default 0 (find_index is_add_seen talk))) talk.
Definition fix_add_args : list rstr := map str ["worktree"; "add"; "--no-track"; "-b"; "fix"; "/src/repo-worktrees/fix"; "HEAD"]%string.

Lemma create_guarded_witness :
  exists branch path,
    branch_of fix_args = Ok branch /\ git_done repo_path (name_args branch) until_add /\ inside_allowed [str "/src"] path until_add /\
    said (Exists path) false until_add /\
    (exists ws, known_worktrees repo_path ws until_add /\
       forall w, w ∈ ws -> wi_branch w = Some branch -> same_seen (wi_path w) path until_add) /\
    (fix_add_args = map str ["worktree"; "add"]%string ++ [path; branch] \/
     fix_add_args = map str ["worktree"; "add"; "--no-track"; "-b"]%string ++ [branch; path; default (str "HEAD") (ca_base fix_args)] /\
     exists out, said (Git repo_path (exists_args branch)) (Ok out) until_add /\ git_ok out = false).
Proof.
  apply (create_guarded [str "/src"] fix_args until_add behind_add repo_path fix_add_args (said_out 0 []) first_run.1).
  - assert (until_add ++ Seen (Git repo_path fix_add_args) (said_out 0 []) :: behind_add = talk) as -> by (vm_compute; reflexivity).
    apply exec_runs.
  - vm_compute. reflexivity.
Defined.

Lemma create_outcome_witness :
  match first_run.1 with Ok o => outcome_ok fix_args o talk | Err e => we_kind e = RegisterFailed \/ none_of writes talk end /\
  (adds_fine talk \/ cleaned talk /\ exists e, first_run.1 = Err e).
Proof. apply (create_outcome [str "/src"] fix_args talk first_run.1). apply exec_runs. Defined.

Definition outcome_of (r : result CreateOutcome WorktreeError) : CreateOutcome :=
  match r with Ok o => o | Err _ => {| co_project := []; co_parent := None; co_path := []; co_branch := []; co_meta := JNull; co_resumed := false |} end.

Lemma retry_finds_row_witness :
  co_project (outcome_of second_run.1) = co_project (outcome_of first_run.1) /\
  co_parent (outcome_of second_run.1) = co_parent (outcome_of first_run.1) /\
  map pr_id (db_projects (ww_db second_run.2)) = map pr_id (db_projects (ww_db first_run.2)).
Proof.
  apply (retry_finds_row before after [str "/src"] fix_args fix_args empty_world first_run.2 second_run.2).
  - vm_compute. reflexivity.
  - vm_compute. reflexivity.
  - vm_compute. reflexivity.
  - vm_compute. reflexivity.
  - vm_compute. discriminate.
  - intros p Hp. vm_compute in Hp. by apply not_elem_of_nil in Hp.
Defined.

Lemma line_check (s : rstr) : forallb (fun c => negb (N.eqb c c_nl)) s && negb (bool_decide (last s = Some c_cr)) = true -> on_line s.
Proof.
  intros [H1 H2]%andb_true_iff. split; [|by apply negb_true_iff, bool_decide_eq_false in H2]. intros H%list_elem_of_In.
  rewrite forallb_forall in H1. by apply H1, negb_true_iff, N.eqb_neq in H.
Qed.

Lemma porcelain_roundtrip_witness : parse_porcelain (print_porcelain [main_info; fix_info]) = [main_info; fix_info].
Proof.
  apply porcelain_roundtrip. split; [|vm_compute; reflexivity]. constructor; [|constructor; [|constructor]].
  - split; [apply line_check; vm_compute; reflexivity..| |].
    + intros b [= <-]. apply line_check. vm_compute. reflexivity.
    + intros r Hr. discriminate Hr.
  - split; [apply line_check; vm_compute; reflexivity..| |].
    + intros b [= <-]. apply line_check. vm_compute. reflexivity.
    + intros r [= <-]. split; [apply line_check; vm_compute; reflexivity|]. vm_compute. by split_and!.
Defined.

(** ** Where the code goes another way than its comments *)

(** The handle of a creation that took over an id is dropped when the one before
    it ends: it can no longer be cancelled. *)
Theorem finished_namesake_hides_creation :
  let id := str "c1" in
  let '(c, _) := register_creation id no_creations in
  let '(c, h2) := register_creation id c in
  let '(c, done) := cancel_creation id (finish_creation id c) in
  done = false /\ cr_flags c !! h2 = Some false.
Proof. vm_compute. by split. Qed.

(** A cancelled run of git while the base is looked up is answered as a base that
    does not resolve, cancelled though the call is. *)
Theorem cancelled_lookup_is_base_not_found :
  let killed := {| o_git := fun _ _ => Ok {| go_code := None; go_stdout := []; go_stderr := [] |}; o_gh := fun _ => Err []; o_absolute := Ok;
                   o_canon := components; o_exists := fun _ => false; o_cancelled := true |} in
  (exec (handle killed) (fetch_base repo_path (str "main")) empty_world).1 = Err (werr BaseNotFound (str "main")).
Proof. vm_compute. reflexivity. Qed.

(** A retry on a path that is also a plain project adds a row each time. *)
Theorem retry_forks_row_at_project :
  let w := {| ww_db := default no_db (match create_project (str "t0") (str "p") (str "fix") tree_path (str "{}") no_db with
                                     | Ok db => Some db | Err _ => None end);
              ww_now := str "t0"; ww_ids := map str ["id1"; "id2"; "id3"]%string |} in
  let '(r1, w1) := exec (handle after) (create [] fix_args) w in
  let '(r2, w2) := exec (handle after) (create [] fix_args) w1 in
  co_resumed (outcome_of r2) = true /\ co_project (outcome_of r1) = str "id2" /\ co_project (outcome_of r2) = str "id3" /\
  map pr_id (rows_at (ww_db w2) tree_path) = map str ["p"; "id2"; "id3"]%string.
Proof. vm_compute. by split_and!. Qed.

(** A git that does not start fails the call with a kind its description does not
    list. *)
Theorem missing_git_has_no_kind :
  let none := {| o_git := fun _ _ => Err (str "cannot spawn git"); o_gh := fun _ => Err []; o_absolute := Ok;
                 o_canon := components; o_exists := fun _ => false; o_cancelled := false |} in
  (exec (handle none) (create [] fix_args) empty_world).1 = Err (werr WUnknown (str "cannot spawn git")).
Proof. vm_compute. reflexivity. Qed.

(** Two branches, one default path. *)
Theorem default_paths_collide :
  default_worktree_path repo_path (str "fix/a") = default_worktree_path repo_path (str "fix-a").
Proof. vm_compute. reflexivity. Qed.

(** [worktree.remove] of a path that is in no row deletes what is there when git
    will not: git refuses to remove a repository's main checkout, and the call
    deletes it. *)
Definition refusing : outside := {|
  o_git := fun _ args => match args with
    | [a; b; c] => if str_eqb c (str "--git-common-dir") then said_out 0 (str "/src/repo/.git") else said_out 0 []
    | [a; b; c; d] => said_out 128 []
    | _ => said_out 0 []
    end;
  o_gh := fun _ => Err []; o_absolute := Ok; o_canon := components; o_exists := fun _ => true; o_cancelled := false |}.

Theorem remove_deletes_unregistered_repository :
  let params := JObj [(str "path", JStr repo_path)] in
  In (Seen (RemoveDir repo_path) tt) (dialogue (handle refusing) (worktree_remove params) empty_world) /\
  (exec (handle refusing) (worktree_remove params) empty_world).1 =
    Ok (JObj [(str "removed", JBool true); (str "orphanDirectory", JBool true); (str "branchDeleted", JBool false);
              (str "branchKeptReason", JNull)]).
Proof. vm_compute. split; [|done]. repeat (first [by left|right]). Qed.
