(* ===== verification/OmpScan.v ===== *)
(** * OmpScan: the sessions omp and pi left on disk ([list_importable_sessions], [backend/omp.rs])

    The listing of one working directory's transcripts, on the directory as the
    file system lists it. *)

From S2P Require Import Prelude Str Json Jail SessionStore Events Interact Worktree HistoryScan Omp.

(** ** Data *)

(** A directory entry: its name unless that is not UTF-8, whether it is a file, its
    lines unless it cannot be opened (a line is [None] where reading fails), the
    time it was modified and its size where the file system tells. *)
Record dir_entry := {
  de_name : option rstr; de_is_file : bool; de_lines : option (list (option rstr)); de_modified : option Z; de_size : option Z
}.

Definition IMPORT_SCAN_LIMIT : nat := 200.
Definition SESSION_HEAD_LINES : nat := 8.

(** ** Names and paths *)

Definition all_digits (s : rstr) : bool := forallb is_ascii_digit s.

(** [YYYY-MM-DDT…_….jsonl]; the bytes tested are ASCII, so characters will do. *)
Definition is_session_file_name (name : rstr) : bool :=
  match split_once 95%N name with
  | None => false
  | Some (b, _) =>
      (11 <=? length b) && all_digits (take 4 b) && bool_decide (b !! 4 = Some 45%N) && all_digits (take 2 (drop 5 b)) &&
      bool_decide (b !! 7 = Some 45%N) && all_digits (take 2 (drop 8 b)) && bool_decide (b !! 10 = Some 84%N)
  end.

(** [path.extension() == Some("jsonl")]. *)
Definition is_jsonl (name : rstr) : bool :=
  match strip_suffix (str ".jsonl") name with Some stem => negb (is_empty stem) | None => false end.

(** Paths are equal when their components are. *)
Definition path_parts (p : rstr) : bool * bool * list rstr :=
  let absolute := starts_with (str "/") p in
  (absolute, negb absolute && bool_decide (head (split_on (N.eqb 47%N) p) = Some (str ".")), components p).

Definition slug (cwd : rstr) : rstr := map (fun c => if N.eqb c 47%N then 45%N else c) cwd.

(** ** The scan *)

Section Scan.
Context `{JT : JsonText}.

(** The header among the first lines: the [cwd] and the title. *)
Fixpoint header (ls : list (option rstr)) : option rstr * option rstr :=
  match ls with
  | Some line :: ls =>
      match from_str line with
      | Some v => if str_eqb (text_at v "type") (str "session") then (as_str v.["cwd"], as_str v.["title"]) else header ls
      | None => header ls
      end
  | _ => (None, None)
  end.

Definition session_head (content : option (list (option rstr))) : option (rstr * option rstr) :=
  match content with
  | None => None
  | Some ls => let '(cwd, title) := header (take SESSION_HEAD_LINES ls) in (fun c => (c, title)) <$> cwd
  end.

Variables (provider agent_dir cwd : rstr).

Definition session_dir : rstr := join_path (join_path agent_dir (str "sessions")) (slug cwd).

(** The session an entry of the directory holds, if it is one of this [cwd]. *)
Definition session_of (e : dir_entry) : option ImportableSession :=
  if negb (de_is_file e) then None
  else match de_name e with
       | None => None
       | Some name =>
           if negb (is_jsonl name) || negb (is_session_file_name name) then None
           else match session_head (de_lines e) with
                | None => None
                | Some (session_cwd, title) =>
                    if decide (path_parts session_cwd = path_parts cwd) then
                      Some {| im_provider := provider; im_native := join_path session_dir name; im_title := title; im_cwd := Some cwd;
                              im_modified := de_modified e; im_size := de_size e |}
                    else None
                end
       end.

Fixpoint scan_go (out : list ImportableSession) (entries : list dir_entry) : list ImportableSession :=
  match entries with
  | [] => out
  | e :: entries =>
      if IMPORT_SCAN_LIMIT <=? length out then out
      else match session_of e with Some s => scan_go (out ++ [s]) entries | None => scan_go out entries end
  end.

(** [None], a file without a time, is before all times. *)
Definition newer (a b : ImportableSession) : bool :=
  match im_modified b, im_modified a with None, _ => true | Some _, None => false | Some tb, Some ta => (tb <=? ta)%Z end.

(** [entries] are those of [session_dir]; [None] when it cannot be read. *)
Definition scan_importable_sessions (entries : option (list dir_entry)) : list ImportableSession :=
  match entries with None => [] | Some es => sort_by newer (scan_go [] es) end.

(** ** What is listed *)

Lemma scan_go_spec out es : length out <= IMPORT_SCAN_LIMIT ->
  scan_go out es = out ++ take (IMPORT_SCAN_LIMIT - length out) (omap session_of es).
Proof.
  revert out. induction es as [|e es IH]; intros out Hout; cbn [scan_go omap list_omap]; [by rewrite take_nil, app_nil_r|].
  destruct (Nat.leb_spec IMPORT_SCAN_LIMIT (length out)) as [H|H].
  - replace (IMPORT_SCAN_LIMIT - length out) with 0 by lia. by rewrite take_0, app_nil_r.
  - destruct (session_of e) as [s|]; [|by apply IH]. rewrite IH by (rewrite length_app; cbn; lia).
    rewrite length_app. cbn [length]. replace (IMPORT_SCAN_LIMIT - length out) with (S (IMPORT_SCAN_LIMIT - (length out + 1))) by lia.
    cbn [take]. by rewrite <-app_assoc.
Qed.

(** The listing is the first [IMPORT_SCAN_LIMIT] sessions of the directory in its
    own order, the newest of these first. *)
Theorem scan_newest_first (es : list dir_entry) :
  let l := scan_importable_sessions (Some es) in
  l ≡ₚ take IMPORT_SCAN_LIMIT (omap session_of es) /\ StronglySorted (fun a b => newer a b = true) l.
Proof.
  cbn zeta. unfold scan_importable_sessions. split.
  - by rewrite sort_by_perm, scan_go_spec by (cbn; lia).
  - apply sort_by_sorted; unfold newer; intros a b; [|intros c]; repeat case_match; simplify_eq; naive_solver lia.
Qed.
End Scan.

(** The limit counts before the order: of more sessions than that, the newest can
    be the one left out. *)
Definition scan_text : JsonText := {|
  to_string := fun _ => []; to_string_pretty := fun _ => [];
  from_str := fun _ => Some (mk_obj [field "type" (jstr "session"); field "cwd" (jstr "/w")]) |}.
#[local] Existing Instance scan_text.

Definition session_file (modified : Z) : dir_entry := {|
  de_name := Some (str "2026-09-20T15-20_0.jsonl"); de_is_file := true; de_lines := Some [Some []]; de_modified := Some modified; de_size := None |}.

Theorem newest_session_not_listed :
  let es := repeat (session_file 1) IMPORT_SCAN_LIMIT ++ [session_file 2] in
  map im_modified (omap (session_of (str "omp") (str "/d") (str "/w")) es) = repeat (Some 1%Z) IMPORT_SCAN_LIMIT ++ [Some 2%Z] /\
  map im_modified (scan_importable_sessions (str "omp") (str "/d") (str "/w") (Some es)) = repeat (Some 1%Z) IMPORT_SCAN_LIMIT.
Proof. vm_compute. done. Qed.
