(* ===== verification/Droid.v ===== *)
(** * Droid: sessions of [droid exec] ([backend/droid.rs])

    JSON-RPC with typed envelopes over lines: responses to the daemon's requests,
    requests of the agent (permissions and questions), and notifications that
    become events.  Calls that await an answer are tasks of [Requests]. *)

From S2P Require Import Prelude Str Json SessionStore Memory Turn Events Handler AgentLog Transport Requests AgentCli.

Open Scope session_scope.

(** ** Models and modes *)

Record ModelDef := { md_id : rstr; md_name : rstr; md_selectable : bool }.

Definition model_of (m : json) : option ModelDef :=
  match as_str m.["id"] with
  | None => None
  | Some id => Some {| md_id := id; md_name := default id (as_str m.["displayName"]); md_selectable := negb (bool_at m "disabled") |}
  end.

Definition models_from_list (v : json) : list ModelDef := default [] (omap (M:=list) model_of <$> as_array v.["models"]).

Record ModeDef := { mo_id : rstr; mo_name : rstr; mo_description : option rstr }.

Definition autonomy_modes : list ModeDef :=
  map (fun p => {| mo_id := str p.1; mo_name := str p.1; mo_description := Some (str p.2) |})
    [("low", "Low — ask before writes and commands");
     ("medium", "Medium — auto-run reads, ask for writes");
     ("high", "High — full autonomy")]%string.

Definition is_mode (mode : rstr) : bool := existsb (fun m => str_eqb (mo_id m) mode) autonomy_modes.

(** ** Parameters of requests *)

Definition model_update_params (model : rstr) : json := mk_obj [field "modelId" (JStr model)].

Definition mode_update_params (mode : rstr) : option json := if is_mode mode then Some (mk_obj [field "autonomyLevel" (JStr mode)]) else None.

(** [name], [type], [command], [args], and the environment unless it is empty. *)
Definition add_mcp_server_params (name : rstr) (server : McpServerConfig) : json :=
  mk_obj ([field "name" (JStr name); field "type" (jstr "stdio"); field "command" (JStr (mc_command server));
           field "args" (JArr (map JStr (mc_args server)))] ++
          match mc_env server with [] => [] | env => [field "env" (JObj (map (fun kv => (kv.1, JStr kv.2)) env))] end).

Definition init_params (machine : rstr) (config : SessionConfig) : json :=
  mk_obj ([field "machineId" (JStr (str "damon-" ++ machine)); field "cwd" (JStr (sc_cwd config))] ++
          opt_field "modelId" (JStr <$> sc_model config)).

(** The arguments after the configured ones. *)
Definition launch_args (config : SessionConfig) : list rstr := opt_flag "--auto" (sc_mode config).

Definition image_json (b : PromptBlock) : option json :=
  match b with PBImage data mime => Some (mk_obj [field "data" (JStr data); field "mediaType" (JStr mime)]) | PBText _ => None end.

Definition block_text (b : PromptBlock) : option rstr := match b with PBText text => Some text | PBImage _ _ => None end.

Definition prompt_params (prompt : PromptInput) : json :=
  match prompt with
  | PText t => mk_obj [field "text" (JStr t)]
  | PBlocks blocks =>
      mk_obj (field "text" (JStr (join [c_nl] (omap block_text blocks))) ::
              match omap image_json blocks with [] => [] | images => [field "images" (JArr images)] end)
  end.

(** ** Tools, asks and usage *)

(** The confirmation's details before the input. *)
Definition tool_field (input details : json) (k : string) : option rstr := or_else (as_str details.[k]) (as_str input.[k]).

Definition map_tool_input (name : rstr) (input details : json) : ToolCallDetail :=
  let field := tool_field input details in
  if str_eqb name (str "Execute") then Shell (default [] (field "command")) None None
  else if str_eqb name (str "Read") then ReadFile (default [] (field "file_path")) None
  else if str_eqb name (str "Edit") then EditFile (default [] (field "file_path")) None
  else if str_eqb name (str "Create") then WriteFile (default [] (field "file_path")) (field "content")
  else if str_eqb name (str "Grep") || str_eqb name (str "Glob") || str_eqb name (str "LS") then
    SearchFor (default [] (or_else (field "pattern") (field "path"))) None
  else UnknownDetail input JNull.

Definition permission_action (o : json) : PermissionAction :=
  let value := default (str "proceed_once") (as_str o.["value"]) in
  let deny := str_eqb value (str "cancel") || starts_with (str "deny") value in {|
    pa_id := value; pa_label := default value (as_str o.["label"]);
    pa_behavior := if deny then BehaviorDeny else BehaviorAllow;
    pa_variant := Some (if deny then VariantDanger else VariantPrimary) |}.

Definition permission_actions (options : json) : list PermissionAction := default [] (map permission_action <$> as_array options).

Definition droid_usage (u : json) : option TokenUsage :=
  match as_object u with
  | None | Some [] => None
  | Some _ => Some {| tu_input := as_u64 u.["inputTokens"]; tu_cached := as_u64 u.["cacheReadTokens"]; tu_output := as_u64 u.["outputTokens"];
                      tu_cost := None; tu_window := None; tu_used := None |}
  end.

(** [v[0]] *)
Definition first_of (v : json) : json := default JNull (default [] (as_array v) !! 0).

Definition permission_ask (uuid : rstr) (params : json) : PermissionRequest :=
  let use := first_of params.["toolUses"] in
  let tool := use.["toolUse"] in
  let name := default (str "tool") (as_str tool.["name"]) in {|
    pr_id := uuid; pr_kind := KindTool; pr_name := name; pr_title := Some (name ++ str " wants to run"); pr_input := Some tool.["input"];
    pr_detail := Some (map_tool_input name tool.["input"] use.["details"]); pr_actions := permission_actions params.["options"];
    pr_suggestions := []; pr_questions := [] |}.

Definition option_action (o : json) : PermissionAction :=
  let text := default (str "opt") (as_str o) in {| pa_id := text; pa_label := text; pa_behavior := BehaviorAllow; pa_variant := None |}.

Definition question_ask (uuid : rstr) (params : json) : PermissionRequest :=
  let question := first_of params.["questions"] in {|
    pr_id := uuid; pr_kind := KindQuestion; pr_name := str "ask_user"; pr_title := Some (default (str "Question") (as_str question.["question"]));
    pr_input := Some params; pr_detail := None; pr_actions := map option_action (default [] (as_array question.["options"]));
    pr_suggestions := []; pr_questions := [] |}.

(** ** State *)

(** [pa_rpc] is the id of the agent's request. *)
Record PendingAsk := { pa_request : PermissionRequest; pa_rpc : json; pa_question : bool }.

Record St := {
  dr_conn : connection; dr_next : Z; dr_session : option rstr; dr_turn : option rstr; dr_asks : gmap rstr PendingAsk
}.

Definition with_conn x s := {| dr_conn := x; dr_next := dr_next s; dr_session := dr_session s; dr_turn := dr_turn s; dr_asks := dr_asks s |}.
Definition with_next x s := {| dr_conn := dr_conn s; dr_next := x; dr_session := dr_session s; dr_turn := dr_turn s; dr_asks := dr_asks s |}.
Definition with_session x s := {| dr_conn := dr_conn s; dr_next := dr_next s; dr_session := x; dr_turn := dr_turn s; dr_asks := dr_asks s |}.
Definition with_turn x s := {| dr_conn := dr_conn s; dr_next := dr_next s; dr_session := dr_session s; dr_turn := x; dr_asks := dr_asks s |}.
Definition with_asks x s := {| dr_conn := dr_conn s; dr_next := dr_next s; dr_session := dr_session s; dr_turn := dr_turn s; dr_asks := x |}.

#[export] Instance St_connected : Connected St := {| conn := dr_conn; set_conn := with_conn; conn_set := fun c s => eq_refl |}.

Definition fresh_session : St := {| dr_conn := fresh_connection; dr_next := 1; dr_session := None; dr_turn := None; dr_asks := ∅ |}.

Definition H : Type -> Type := handler St effect.

(** ** Frames of the agent *)

Definition emit (e : Event) : H unit := log (Emitted e).

Definition emit_here (k : StreamEventKind) : H unit :=
  let! turn := gets dr_turn in emit {| ev_turn := turn; ev_kind := k |}.

Definition emit_timeline (item : TimelineItem) : H unit := emit_here (ETimeline item).

Definition envelope (type : string) (fields : list (string * json)) : json :=
  mk_obj ([field "type" (jstr type); field "jsonrpc" (jstr "2.0"); field "factoryApiVersion" (jstr "1.0.0")] ++ fields).

Definition register_ask (ask : PermissionRequest) (rpc_id : json) (is_question : bool) : H unit :=
  modify (fun s => with_asks (<[pr_id ask := {| pa_request := ask; pa_rpc := rpc_id; pa_question := is_question |}]> (dr_asks s)) s) ;!
  emit_here (EPermissionRequested ask) ;!
  emit (outside (EAttentionRequired AttentionPermission)).

Definition on_server_request (uuid : rstr) (f : json) : H unit :=
  let method := text_at f "method" in
  if str_eqb method (str "droid.request_permission") then register_ask (permission_ask uuid f.["params"]) f.["id"] false
  else if str_eqb method (str "droid.ask_user") then register_ask (question_ask uuid f.["params"]) f.["id"] true
  else
    send (envelope "response" [field "id" f.["id"]; field "error" (mk_obj [field "code" (jint (-32601)); field "message" (jstr "method not found")])]) ;!
    ret tt.

(** What a block of a message says. *)
Definition block_item (b : json) : option TimelineItem :=
  let ty := text_at b "type" in
  if str_eqb ty (str "text") then Some (TAssistantMessage (text_at b "text"))
  else if str_eqb ty (str "thinking") then Some (TReasoning (text_at b "thinking"))
  else if str_eqb ty (str "tool_use") then
    Some (TToolCall {| tc_call_id := text_at b "id"; tc_name := text_at b "name"; tc_status := ToolRunning;
                       tc_detail := map_tool_input (text_at b "name") b.["input"] JNull |})
  else None.

Definition started_call (u : json) : ToolCall := {|
  tc_call_id := text_at u "id"; tc_name := text_at u "name"; tc_status := ToolRunning;
  tc_detail := map_tool_input (text_at u "name") u.["input"] JNull |}.

Definition ended_call (n : json) : ToolCall := {|
  tc_call_id := text_at n "toolUseId"; tc_name := []; tc_status := if bool_at n "isError" then ToolFailed else ToolCompleted;
  tc_detail := UnknownDetail JNull (JStr (default [] (or_else (as_str n.["output"]) (as_str n.["content"])))) |}.

Definition completed_kind (n : json) : StreamEventKind :=
  let reason := default (str "completed") (as_str n.["reason"]) in
  if str_eqb reason (str "interrupted") || str_eqb reason (str "aborted") then ETurnCanceled reason
  else if str_eqb reason (str "completed") then ETurnCompleted (droid_usage n.["tokenUsage"])
  else ETurnFailed reason None.

Definition on_turn_completed (n : json) : H unit :=
  let! turn := gets dr_turn in
  modify (with_turn None) ;!
  emit {| ev_turn := turn; ev_kind := completed_kind n |} ;!
  emit (outside (EAttentionRequired AttentionFinished)).

Definition on_create_message (n : json) : H unit :=
  if bool_decide (as_str (n.["message"]).["role"] = Some (str "assistant")) then
    each (fun b => match block_item b with Some item => emit_timeline item | None => ret tt end) (default [] (as_array (n.["message"]).["content"]))
  else ret tt.

Definition on_delta (mk : rstr -> TimelineItem) (n : json) : H unit :=
  match as_str n.["delta"] with Some d => emit_timeline (mk d) | None => ret tt end.

Definition on_notification (f : json) : H unit :=
  if bool_decide (as_str f.["method"] = Some (str "droid.session_notification")) then
    let n := (f.["params"]).["notification"] in
    let ty := text_at n "type" in
    if str_eqb ty (str "create_message") then on_create_message n
    else if str_eqb ty (str "assistant_text_delta") then on_delta TAssistantMessage n
    else if str_eqb ty (str "thinking_text_delta") then on_delta TReasoning n
    else if str_eqb ty (str "tool_call") then emit_timeline (TToolCall (started_call n.["toolUse"]))
    else if str_eqb ty (str "tool_result") then emit_timeline (TToolCall (ended_call n))
    else if str_eqb ty (str "error") then emit_timeline (TError (default (str "droid error") (as_str n.["message"])))
    else if str_eqb ty (str "agent_turn_completed") then on_turn_completed n
    else ret tt
  else ret tt.

(** [is_object() || is_string()] *)
Definition is_error (e : json) : bool := match e with JObj _ | JStr _ => true | _ => false end.

Definition on_response (f : json) : H unit :=
  resolve_wait (text_at f "id") (if is_error f.["error"] then Err f.["error"] else Ok f).

Definition on_frame (uuid : rstr) (f : json) : H unit :=
  let ty := text_at f "type" in
  if str_eqb ty (str "response") then on_response f
  else if str_eqb ty (str "request") then on_server_request uuid f
  else if str_eqb ty (str "notification") then on_notification f
  else ret tt.

(** The pump when the process is gone. *)
Definition on_exit : H unit :=
  let! turn := gets dr_turn in
  match turn with
  | None => ret tt
  | Some t =>
      modify (with_turn None) ;!
      emit (in_turn t (ETurnFailed (str "backend process exited without completing the turn") None)) ;!
      emit (outside (EAttentionRequired AttentionFinished))
  end.

(** ** Calls *)

Inductive reply := RUnit | RTurn (turn_id : rstr) | RModels (ms : list ModelDef).

Definition outcome := result reply rstr.

Definition INIT_TIMEOUT : rstr := str "60s".
Definition CONTROL_TIMEOUT : rstr := str "30s".

(** What the wait for a response gives. *)
Definition read_response (timeout : rstr) (wait : waited) : result json rstr :=
  match wait with
  | Answered (Some (Ok v)) => Ok v.["result"]
  | Answered (Some (Err e)) => Err (default (str "droid error") (as_str e.["message"]))
  | Answered None => Err (str "droid dropped the request")
  | WaitTimeout => Err (str "droid timed out after " ++ timeout)
  end.

Definition request_frame (method : string) (id : rstr) (params : json) : json :=
  envelope "request" [field "id" (JStr id); field "method" (jstr method); field "params" params].

(** The next id is a wrapping counter. *)
Definition request {A} (method : string) (params : json) (timeout : rstr) (k : result json rstr -> H (task St A)) : H (task St A) :=
  let! n := gets dr_next in
  modify (with_next ((n + 1) mod 2 ^ 64)%Z) ;!
  let id := dec (Z.to_N n) in
  round read_response id (request_frame method id params) timeout k.

(** The servers one after the other, then [k]. *)
Fixpoint add_servers (servers : list (rstr * McpServerConfig)) (k : H (task St outcome)) : H (task St outcome) :=
  match servers with
  | [] => k
  | (name, server) :: servers =>
      request "droid.add_mcp_server" (add_mcp_server_params name server) CONTROL_TIMEOUT (fun r =>
      match r with
      | Err _ => finish (Err (str "droid.add_mcp_server failed for " ++ name))
      | Ok _ => add_servers servers k
      end)
  end.

(** The handshake of a spawned process, then [k]; an error shows its outermost
    context, that of the handshake is [failed]. *)
Definition spawn (failed machine : rstr) (config : SessionConfig) (resume : option rstr) (k : H (task St outcome)) : H (task St outcome) :=
  let '(method, params) := match resume with
    | Some id => ("droid.load_session"%string, mk_obj [field "sessionId" (JStr id)])
    | None => ("droid.initialize_session"%string, init_params machine config)
    end in
  request method params INIT_TIMEOUT (fun r =>
  match r with
  | Err _ => finish (Err failed)
  | Ok result =>
      match as_str result.["sessionId"] with
      | Some id => modify (with_session (Some id)) ;! emit (outside (EThreadStarted id))
      | None => ret tt
      end ;!
      add_servers (sc_mcp_servers config) k
  end).

(** The process is killed afterwards: its output ends and its pipe closes. *)
Definition close (k : H (task St outcome)) : H (task St outcome) :=
  request "droid.close_session" (mk_obj []) CONTROL_TIMEOUT (fun _ => k).

(** [probe_models] on its process. *)
Definition list_models : H (task St outcome) :=
  request "droid.list_models" (mk_obj []) CONTROL_TIMEOUT (fun r =>
  match r with
  | Err _ => finish (Err (str "droid.list_models failed"))
  | Ok v => close (finish (Ok (RModels (models_from_list v))))
  end).

Definition start_turn (turn_id : rstr) (prompt : PromptInput) : H (task St outcome) :=
  modify (with_turn (Some turn_id)) ;!
  request "droid.add_user_message" (prompt_params prompt) CONTROL_TIMEOUT (fun r =>
  or_fail r (fun _ => emit (in_turn turn_id ETurnStarted) ;! finish (Ok (RTurn turn_id)))).

Definition interrupt : H (task St outcome) :=
  request "droid.interrupt_session" (mk_obj []) CONTROL_TIMEOUT (fun r => or_fail r (fun _ => finish (Ok RUnit))).


(** [debug] is [{:?}] of a string. *)
Definition set_mode (debug : rstr -> rstr) (mode : rstr) : H (task St outcome) :=
  match mode_update_params mode with
  | None => finish (Err (str "unknown droid autonomy level " ++ debug mode ++ str "; expected low|medium|high"))
  | Some params =>
      request "droid.update_session_settings" params CONTROL_TIMEOUT (fun r =>
      or_fail r (fun _ => emit (outside (EModeChanged (Some mode))) ;! finish (Ok RUnit)))
  end.

Definition set_model (model : rstr) : H (task St outcome) :=
  request "droid.update_session_settings" (model_update_params model) CONTROL_TIMEOUT (fun r =>
  or_fail r (fun _ => emit (outside (EModelChanged model)) ;! finish (Ok RUnit))).

(** The result a response to an ask is answered with. *)
Definition ask_result (ask : PendingAsk) (response : PermissionResponse) : json :=
  match response, pa_question ask with
  | Allow action_id _ answer _, true =>
      mk_obj [field "answers" (JArr [mk_obj [
        field "index" (jint 0); field "question" (JStr (default [] (pr_title (pa_request ask))));
        field "answer" (JStr (default [] (or_else action_id answer)))]])]
  | Allow _ _ _ _, false => mk_obj [field "selectedOption" (jstr "proceed_once")]
  | Deny _ _ _, true => mk_obj [field "cancelled" (JBool true)]
  | Deny _ _ _, false => mk_obj [field "selectedOption" (jstr "cancel")]
  end.

Definition answer_frame (ask : PendingAsk) (response : PermissionResponse) : json :=
  envelope "response" [field "id" (pa_rpc ask); field "result" (ask_result ask response)].

Definition respond_to_permission (request_id : rstr) (response : PermissionResponse) : H (task St outcome) :=
  let! asks := gets dr_asks in
  match asks !! request_id with
  | None => finish (Err (str "no pending permission " ++ request_id))
  | Some ask =>
      modify (with_asks (delete request_id asks)) ;!
      let! sent := send (answer_frame ask response) in
      match sent with
      | Err e => finish (Err e)
      | Ok _ => emit (outside (EPermissionResolved request_id)) ;! finish (Ok RUnit)
      end
  end.

(** The calls of clients, with the fresh ids they draw; the first three on a
    process just spawned. *)
Inductive call :=
| Create (machine : rstr) (config : SessionConfig)
| Resume (machine handle : rstr) (config : SessionConfig)
| Catalog (machine temp_dir : rstr)
| StartTurn (turn_id : rstr) (prompt : PromptInput)
| Interrupt
| Respond (request_id : rstr) (response : PermissionResponse)
| SetMode (mode : rstr)
| SetModel (model : rstr)
| Close.

(** A config with nothing but its directory. *)
Definition probe_config (cwd : rstr) : SessionConfig := {|
  sc_cwd := cwd; sc_model := None; sc_mode := None; sc_mcp_servers := []; sc_granted_roots := []; sc_allowed_tools := [] |}.

Definition init_failed : rstr := str "droid session init failed".
Definition probe_failed : rstr := str "droid model catalog probe failed to start (is `droid` logged in?)".

Section Session.
Context `{JT : JsonText}.
Variable debug : rstr -> rstr.

Definition run_call (c : call) : H (task St outcome) :=
  match c with
  | Create machine config => spawn init_failed machine config None (finish (Ok RUnit))
  | Resume machine handle config => spawn init_failed machine config (Some handle) (finish (Ok RUnit))
  | Catalog machine temp_dir => spawn probe_failed machine (probe_config temp_dir) None list_models
  | StartTurn turn_id prompt => start_turn turn_id prompt
  | Interrupt => interrupt
  | Respond id response => respond_to_permission id response
  | SetMode mode => set_mode debug mode
  | SetModel model => set_model model
  | Close => close (finish (Ok RUnit))
  end.

Definition backend : Backend St call outcome := {| b_call := run_call; b_frame := on_frame; b_exit := on_exit |}.

Definition run (ops : list (op (call:=call))) : live St call outcome := run_live backend fresh_session ops.
End Session.

(** The resume token. *)
Definition persistence_handle (s : St) : option rstr := dr_session s.
