(* ===== verification/DroidThms.v ===== *)
(** * DroidThms: what droid sessions guarantee, and what they do not

    Calls end with their agent; the books of a session over all its runs; what its
    frames come to in a stored turn; then runs that show where it falls short, and
    witnesses. *)

From S2P Require Import Prelude Str Json PlanStore SessionStore Memory Turn Transport Events Handler AgentLog Requests RequestsLive Follow AgentCli Droid.

Open Scope session_scope.

(** ** No call hangs *)

Section Sound.
Context `{JT : JsonText}.
Variable debug : rstr -> rstr.

Lemma servers_sound servers k : sound k -> sound (add_servers servers k).
Proof. intros Hk. induction servers as [|[name server] servers IH]; cbn [add_servers]; [done|]. unfold request. by sounds. Qed.

Lemma spawn_sound failed machine config resume k : sound k -> sound (spawn failed machine config resume k).
Proof.
  intros Hk. unfold spawn. destruct resume as [id|]; unfold request, emit; sounds; by apply servers_sound.
Qed.

Lemma droid_call_sound c : sound_call (run_call debug c).
Proof.
  destruct c; cbn [run_call]; apply sound_to_call; try apply spawn_sound; unfold list_models, close, start_turn, interrupt,
    respond_to_permission, set_mode, set_model, request, emit; sounds.
Qed.

Lemma droid_frame_grows uuid f : obeys growing (on_frame uuid f).
Proof.
  unfold on_frame, on_response, on_server_request, on_notification, on_turn_completed, on_delta, register_ask, emit_timeline, emit_here, emit.
  sounds. unfold on_create_message, emit_timeline, emit_here, emit. sounds. apply obeys_each. intros b. sounds.
Qed.

Lemma droid_exit_grows : obeys growing on_exit.
Proof. unfold on_exit, emit. sounds. Qed.
End Sound.

(** ** Answers and turns *)

Notation droid_entry := (entry (call:=call)).

(** The id a response frame answers, the id a request of the agent asks under. *)
Definition answers_id (x : droid_entry) : list json :=
  match x with Did (Sent f) => if str_eqb (text_at f "type") (str "response") then [f.["id"]] else [] | _ => [] end.

Definition asks_id (x : droid_entry) : list json :=
  match x with Got f => if str_eqb (text_at f "type") (str "request") then [f.["id"]] else [] | _ => [] end.

Definition pending_ids (s : St) : list json := held_in pa_rpc (dr_asks s).

(** The turn an entry ends, the turn a call starts. *)
Definition ends_id (x : droid_entry) : list rstr :=
  match x with Did (Emitted ev) => if ends_turn (ev_kind ev) then option_list (ev_turn ev) else [] | _ => [] end.

Definition starts_id (x : droid_entry) : list rstr := match x with Called (StartTurn t _) => [t] | _ => [] end.

Definition current (s : St) : list rstr := option_list (dr_turn s).

Definition answers_booked : St -> list droid_entry -> St -> Prop := books answers_id asks_id pending_ids.
Definition turns_booked : St -> list droid_entry -> St -> Prop := books ends_id starts_id current.

#[export] Instance answers_follow : Follows answers_booked dr_asks (fun e => answers_id (Did e) = []).
Proof. apply books_follow; [|done]. intros s s' E. unfold pending_ids. by rewrite E. Qed.

#[export] Instance turns_follow : Follows turns_booked dr_turn (fun e => ends_id (Did e) = []).
Proof. apply books_follow; [|done]. intros s s' E. unfold current. by rewrite E. Qed.

Section Follow.
Context `{JT : JsonText} (R : St -> list droid_entry -> St -> Prop) {X} (obs : St -> X) (ok : effect -> Prop) `{HF : !Follows R obs ok}.

Lemma droid_emit_here k : (forall t, ok (Emitted {| ev_turn := t; ev_kind := k |})) -> obeys (did R) (emit_here k).
Proof using HF. intros Hok. unfold emit_here. apply obeys_bind; [apply obeys_gets|]. intros t. by eapply follow_log. Qed.

Lemma droid_request {A} method params timeout (k : result json rstr -> H (task St A)) :
  (forall id s, obs (with_next id s) = obs s) ->
  (forall id, ok (Sent (request_frame method id params))) -> (forall r, tasked (did R) (k r)) ->
  tasked (did R) (request method params timeout k).
Proof using HF.
  intros Hn Hok Hk. unfold request. apply tasked_bind; [apply obeys_gets|]. intros id.
  apply tasked_bind; [eapply follow_modify; [apply _|]; intros; apply Hn|]. intros _. by eapply follow_round.
Qed.
End Follow.

Ltac droid_step := idtac; match goal with
  | |- tasked _ (request _ _ _ _) => eapply droid_request; [apply _|by intros|by intros|intros ?]
  | |- obeys _ (emit_timeline _) => eapply droid_emit_here; [apply _|by intros]
  | |- obeys _ (emit_here _) => eapply droid_emit_here; [apply _|by intros]
  | |- obeys _ (emit _) => eapply follow_log; [apply _|done]
  | |- obeys _ (each _ _) => apply obeys_each; intros ?
  end.

Ltac follow := follow_with droid_step.

Section Kept.
Context `{JT : JsonText}.
Variable debug : rstr -> rstr.

(** *** Answers *)

Lemma servers_answers servers k : tasked (did answers_booked) k -> tasked (did answers_booked) (add_servers servers k).
Proof. intros Hk. induction servers as [|[name server] servers IH]; cbn [add_servers]; [done|]. follow. exact IH. Qed.

Lemma droid_spawn_answers failed machine config resume k :
  tasked (did answers_booked) k -> tasked (did answers_booked) (spawn failed machine config resume k).
Proof. intros Hk. unfold spawn. destruct resume as [id|]; follow; by apply servers_answers. Qed.

Lemma droid_respond_answers id r : tasked (did answers_booked) (respond_to_permission id r).
Proof.
  unfold respond_to_permission. intros s. unfold gets, bind, send, modify, emit, finish, ret, log.
  destruct (dr_asks s !! id) as [ask|] eqn:E; [|split; [apply traced_refl|done]].
  cbn [conn St_connected with_asks dr_conn]. destruct (cn_open (dr_conn s)); (split; [|done]); unfold did, answers_booked, books.
  - change ([pa_rpc ask] ++ pending_ids (with_asks (delete id (dr_asks s)) s) ⊆+ pending_ids s).
    unfold pending_ids. cbn [dr_asks with_asks app]. by rewrite (held_delete pa_rpc _ _ _ E).
  - apply (held_fewer pa_rpc id (dr_asks s)).
Qed.

Lemma droid_call_answers c : tasked (did answers_booked) (run_call debug c).
Proof.
  destruct c; cbn [run_call]; try apply droid_spawn_answers; try apply droid_respond_answers;
    unfold list_models, close, start_turn, interrupt, set_mode, set_model; follow.
Qed.

(** A request of the agent is held until it is answered. *)
Lemma droid_register_answers ask rpc_id q f s : asks_id (Got f) = [rpc_id] ->
  match register_ask ask rpc_id q s with (s', es, _) => answers_booked s (Got f :: map Did es) s' end.
Proof.
  intros Hf. unfold register_ask, emit_here, emit, bind, gets, modify, log. unfold answers_booked, books. cbn [said_of flat_map map app].
  rewrite Hf. apply (held_insert pa_rpc).
Qed.

Lemma server_answers uuid f s : asks_id (Got f) = [f.["id"]] ->
  match on_server_request uuid f s with (s', es, _) => answers_booked s (Got f :: map Did es) s' end.
Proof.
  intros Hf. unfold on_server_request. destruct (str_eqb _ _); [by apply droid_register_answers|]. destruct (str_eqb _ _); [by apply droid_register_answers|].
  unfold send, bind, ret. destruct (cn_open (conn s)); unfold answers_booked, books, said_of; cbn [flat_map map app]; rewrite Hf; cbn; [done|].
  by apply submseteq_cons.
Qed.

Lemma notification_answers f : obeys (did answers_booked) (on_notification f).
Proof. unfold on_notification, on_turn_completed, on_delta, on_create_message. follow. Qed.

Lemma droid_frame_answers uuid f s : match on_frame uuid f s with (s', es, _) => answers_booked s (Got f :: map Did es) s' end.
Proof.
  unfold on_frame. destruct (str_eqb (text_at f "type") (str "response")) eqn:Er.
  { apply books_noted; [done|]. unfold on_response. follow. }
  destruct (str_eqb (text_at f "type") (str "request")) eqn:Eq; [apply server_answers; cbn; by rewrite Eq|].
  destruct (str_eqb (text_at f "type") (str "notification")); [|apply books_more; [done|apply books_same; done]].
  apply books_noted; [done|apply notification_answers].
Qed.

#[export] Instance answers_kept : Keeps (backend debug) answers_booked.
Proof.
  split; [apply _|intros c s; by apply books_same| |apply droid_frame_answers|].
  - intros c s. apply books_called; [done|apply droid_call_answers].
  - intros s. apply books_noted; [done|]. cbn [b_exit backend]. unfold on_exit. follow.
Qed.

(** *** Turns *)

Lemma servers_turns servers k : tasked (did turns_booked) k -> tasked (did turns_booked) (add_servers servers k).
Proof. intros Hk. induction servers as [|[name server] servers IH]; cbn [add_servers]; [done|]. follow. exact IH. Qed.

Lemma spawn_turns failed machine config resume k :
  tasked (did turns_booked) k -> tasked (did turns_booked) (spawn failed machine config resume k).
Proof. intros Hk. unfold spawn. destruct resume as [id|]; follow; by apply servers_turns. Qed.

(** The end of the turn gives it up. *)
Lemma give_up_turn s k : (forall t, ends_id (Did (Emitted {| ev_turn := t; ev_kind := k |})) = option_list t) ->
  turns_booked s [Did (Emitted {| ev_turn := dr_turn s; ev_kind := k |}); Did (Emitted (outside (EAttentionRequired AttentionFinished)))] (with_turn None s).
Proof.
  intros Hk. unfold turns_booked, books, said_of. cbn [flat_map]. rewrite Hk. unfold current. cbn. rewrite !app_nil_r. reflexivity.
Qed.

Lemma completed_turns n : obeys (did turns_booked) (on_turn_completed n).
Proof.
  intros s. unfold on_turn_completed, emit, bind, gets, modify, log. apply give_up_turn. intros t. cbn. unfold completed_kind.
  by repeat case_match.
Qed.

Lemma exit_turns : obeys (did turns_booked) on_exit.
Proof.
  intros s. unfold on_exit, emit, bind, gets, modify, log, ret. destruct (dr_turn s) as [t|] eqn:E; [|apply traced_refl].
  pose proof (give_up_turn s (ETurnFailed (str "backend process exited without completing the turn") None)) as H.
  rewrite E in H. by apply H.
Qed.

Lemma start_turns t prompt s :
  match start_turn t prompt s with (s', es, k) => turns_booked s (Called (StartTurn t prompt) :: map Did es) s' /\ steady (did turns_booked) k end.
Proof.
  unfold start_turn, bind at 1, modify at 1.
  assert (tasked (did turns_booked) (request "droid.add_user_message" (prompt_params prompt) CONTROL_TIMEOUT (fun r =>
    or_fail r (fun _ => emit (in_turn t ETurnStarted) ;! finish (Ok (RTurn t)))))) as H by follow.
  specialize (H (with_turn (Some t) s)). destruct (request _ _ _ _ _) as [[s' es] k]. destruct H as [Hr Hs]. split; [|done]. cbn [app].
  unfold did, turns_booked, books in *. cbn [said_of flat_map starts_id ends_id app]. etransitivity; [exact Hr|].
  unfold current. cbn. rewrite Permutation_app_comm. cbn. apply submseteq_skip. by apply submseteq_inserts_r.
Qed.

Lemma call_turns c s :
  match run_call debug c s with (s', es, t) => turns_booked s (Called c :: map Did es) s' /\ steady (did turns_booked) t end.
Proof.
  destruct c as [| | |t prompt| | | | |]; [..|apply start_turns| | | | |]; cbn [run_call]; apply books_called; try done; try apply spawn_turns;
    unfold list_models, close, interrupt, respond_to_permission, set_mode, set_model; follow.
Qed.

Lemma frame_turns uuid f : obeys (did turns_booked) (on_frame uuid f).
Proof.
  unfold on_frame, on_response, on_server_request, on_notification, on_delta, on_create_message, register_ask. follow. apply completed_turns.
Qed.

#[export] Instance turns_kept : Keeps (backend debug) turns_booked.
Proof.
  split; [apply _|intros c s; by apply books_same|apply call_turns| |].
  - intros uuid f s. apply books_noted; [done|apply frame_turns].
  - intros s. apply books_noted; [done|apply exit_turns].
Qed.
End Kept.

(** ** Runs *)

Section Books.
Context `{JT : JsonText}.
Variable debug : rstr -> rstr.

(** No call hangs on a dead agent: with its pipe closed, every call made at any
    time is done when its time is up, and with the agent [gone] as soon as it is woken. *)
Theorem droid_calls_end (ops : list op) (n : nat) :
  let l := run debug ops in
  n < lv_calls l ->
  (PipeCloses ∈ ops -> exists r, lv_tasks (live_step (backend debug) l (Expire n)) !! n = Some (Done r)) /\
  (gone ops -> exists r, lv_tasks (live_step (backend debug) l (Wake n)) !! n = Some (Done r)).
Proof.
  apply calls_end; [apply droid_call_sound|apply droid_frame_grows|apply droid_exit_grows|]. apply (run_wires_ok []).
Qed.

(** C20: In any run of a droid session, with its calls, the agent's frames,
    timeouts and the end of the process in any order: the agent gets answers only
    to requests it made and each at most once, and a turn that is ended by name
    was started by a client and ends at most once: what is answered or still
    pending was asked, and the turns that ended or still run were started, with
    multiplicities.  (An end shown outside a turn names none and is not counted.) *)
Theorem droid_books_balance (ops : list op) :
  let l := run debug ops in
  said_of answers_id (lv_log l) ++ pending_ids (lv_state l) ⊆+ said_of asks_id (lv_log l) /\
  said_of ends_id (lv_log l) ++ current (lv_state l) ⊆+ said_of starts_id (lv_log l).
Proof.
  destruct (kept (backend debug) answers_booked fresh_session ops) as [Ha _].
  destruct (kept (backend debug) turns_booked fresh_session ops) as [Ht _].
  split; (etransitivity; [eassumption|]); by rewrite app_nil_r.
Qed.
End Books.

(** ** From frames to the stored turn *)

(** The notification in a frame. *)
Definition notification (f : json) : option json :=
  if str_eqb (text_at f "type") (str "notification") && bool_decide (as_str f.["method"] = Some (str "droid.session_notification"))
  then Some (f.["params"]).["notification"] else None.

Definition texts (mk : rstr -> TimelineItem) (v : json) : list TimelineItem := option_list (mk <$> as_str v).

(** What a notification says. *)
Definition says_items (n : json) : list TimelineItem :=
  let ty := text_at n "type" in
  if str_eqb ty (str "create_message") then
    if bool_decide (as_str (n.["message"]).["role"] = Some (str "assistant"))
    then omap block_item (default [] (as_array (n.["message"]).["content"])) else []
  else if str_eqb ty (str "assistant_text_delta") then texts TAssistantMessage n.["delta"]
  else if str_eqb ty (str "thinking_text_delta") then texts TReasoning n.["delta"]
  else if str_eqb ty (str "tool_call") then [TToolCall (started_call n.["toolUse"])]
  else if str_eqb ty (str "tool_result") then [TToolCall (ended_call n)]
  else if str_eqb ty (str "error") then [TError (default (str "droid error") (as_str n.["message"]))]
  else [].

Definition frame_items (f : json) : list TimelineItem := match notification f with Some n => says_items n | None => [] end.

(** The notification that ends the turn. *)
Definition completes (f : json) : option json :=
  n ← notification f; if str_eqb (text_at n "type") (str "agent_turn_completed") then Some n else None.

(** The handler emits these items, and no boundary. *)
Definition tells (m : H unit) (items : list TimelineItem) : Prop :=
  forall s, let '(_, es, _) := m s in
    omap (fun e => item_of (ev_kind e)) (emitted es) = items /\ forall e, e ∈ emitted es -> ends_turn (ev_kind e) = false.

Lemma tells_ret : tells (ret tt) [].
Proof. intros s. split; [done|]. by intros e He%not_elem_of_nil. Qed.

Lemma tells_here k : ends_turn k = false -> tells (emit_here k) (option_list (item_of k)).
Proof. intros Hk s. cbn. split; [by destruct (item_of k)|]. by intros e ->%list_elem_of_singleton. Qed.

Lemma tells_bind m k a b : tells m a -> (forall x, tells (k x) b) -> tells (bind m k) (a ++ b).
Proof.
  intros Hm Hk s. unfold bind. specialize (Hm s). destruct (m s) as [[s1 es1] x]. specialize (Hk x s1). destruct (k x s1) as [[s2 es2] y].
  destruct Hm as [<- Hq1], Hk as [<- Hq2]. unfold emitted in *. rewrite !omap_app. split; [done|]. intros e [He|He]%elem_of_app; eauto.
Qed.

Lemma tells_each {A} (f : A -> H unit) (g : A -> list TimelineItem) l : (forall x, tells (f x) (g x)) -> tells (each f l) (flat_map g l).
Proof. intros Hf. induction l as [|x l IH]; cbn [each flat_map]; [apply tells_ret|]. by apply tells_bind. Qed.

Lemma tells_delta mk n : tells (on_delta mk n) (texts mk n.["delta"]).
Proof. unfold on_delta, texts. destruct (as_str _) as [d|]; [by apply (tells_here (ETimeline (mk d)))|apply tells_ret]. Qed.

Lemma flat_omap {A B} (f : A -> option B) l : flat_map (fun x => option_list (f x)) l = omap f l.
Proof. induction l as [|x l IH]; cbn; [done|]. rewrite IH. by destruct (f x). Qed.

Lemma tells_message n : tells (on_create_message n)
  (if bool_decide (as_str (n.["message"]).["role"] = Some (str "assistant"))
   then omap block_item (default [] (as_array (n.["message"]).["content"])) else []).
Proof.
  unfold on_create_message. destruct (bool_decide _); [|apply tells_ret]. rewrite <-flat_omap. apply tells_each. intros b.
  destruct (block_item b) as [item|]; [by apply (tells_here (ETimeline item))|apply tells_ret].
Qed.

Lemma tells_register ask rpc q : tells (register_ask ask rpc q) [].
Proof. intros s. split; [done|]. by intros e [->|[->|He%not_elem_of_nil]%elem_of_cons]%elem_of_cons. Qed.

Lemma tells_server uuid f : tells (on_server_request uuid f) [].
Proof.
  unfold on_server_request. destruct (str_eqb _ _); [apply tells_register|]. destruct (str_eqb _ _); [apply tells_register|].
  intros s. unfold bind, send. destruct (cn_open (conn s)); cbn; (split; [done|]); by intros e He%not_elem_of_nil.
Qed.

Lemma tells_response f : tells (on_response f) [].
Proof. intros s. split; [done|]. by intros e He%not_elem_of_nil. Qed.

(** A frame that does not complete the turn. *)
Lemma frame_tells uuid f : completes f = None -> tells (on_frame uuid f) (frame_items f).
Proof.
  unfold completes, frame_items, notification, on_frame. destruct (str_eqb (text_at f "type") (str "response")) eqn:Er.
  { apply str_eqb_eq in Er as ->. intros _. apply tells_response. }
  destruct (str_eqb (text_at f "type") (str "request")) eqn:Eq; [apply str_eqb_eq in Eq as ->; intros _; apply tells_server|].
  destruct (str_eqb (text_at f "type") (str "notification")); [|intros _; apply tells_ret]. cbn [andb]. unfold on_notification.
  destruct (bool_decide _); [|intros _; apply tells_ret]. cbn [option_bind mbind]. set (n := (f.["params"]).["notification"]). intros Hc.
  unfold says_items. cbv zeta. destruct (str_eqb _ (str "create_message")); [apply tells_message|].
  destruct (str_eqb _ (str "assistant_text_delta")); [apply tells_delta|].
  destruct (str_eqb _ (str "thinking_text_delta")); [apply tells_delta|].
  destruct (str_eqb _ (str "tool_call")); [by apply (tells_here (ETimeline (TToolCall _)))|].
  destruct (str_eqb _ (str "tool_result")); [by apply (tells_here (ETimeline (TToolCall _)))|].
  destruct (str_eqb _ (str "error")); [by apply (tells_here (ETimeline (TError _)))|].
  destruct (str_eqb _ (str "agent_turn_completed")); [done|apply tells_ret].
Qed.

Lemma droid_completed_frame uuid f n s : completes f = Some n ->
  on_frame uuid f s =
  (with_turn None s,
   [Emitted {| ev_turn := dr_turn s; ev_kind := completed_kind n |}; Emitted (outside (EAttentionRequired AttentionFinished))], tt).
Proof.
  unfold completes, notification, on_frame. destruct (str_eqb (text_at f "type") (str "notification")) eqn:Et; [|done].
  apply str_eqb_eq in Et as ->. cbn [andb]. destruct (bool_decide _) eqn:Em; [|done]. cbn [option_bind mbind].
  destruct (str_eqb _ (str "agent_turn_completed")) eqn:Ec; [|done]. intros [= <-]. apply str_eqb_eq in Ec. unfold on_notification.
  rewrite Em, Ec. reflexivity.
Qed.

Lemma droid_completed_ends n : ends_turn (completed_kind n) = true.
Proof. unfold completed_kind. by repeat case_match. Qed.

Section Turns.
Context (plan_content_hash : rstr -> rstr) (sid uuid : rstr) (at_ms : Z).

(** From a droid agent's frames to the stored turn: when a turn's frames end
    with [agent_turn_completed], what the turn collects is what the notifications
    say, in whatever state the session is: the texts and thoughts in order, the
    last state of each tool call, the usage; it ends the way the notification
    says, and the session has no turn. *)
Theorem droid_frames_become_turn (fs : list (rstr * json)) (res : rstr * json) (n : json) (s : St) (plans : list PlanRow) :
  (forall f, f ∈ fs.*2 -> completes f = None) -> completes res.2 = Some n ->
  let '(s', es, _) := each (fun x => on_frame x.1 x.2) (fs ++ [res]) s in
  let '((_, a), ended) := collect plan_content_hash sid (plans, empty_acc) (map (receive uuid at_ms) (emitted es)) in
  let items := flat_map frame_items fs.*2 in
  dr_turn s' = None /\
  ac_assistant a = concat (omap said items) /\ ac_reasoning a = concat (omap thought items) /\
  (forall id, ac_tools a !! id = last (omap (call_state id) items)) /\
  ac_usage a = match completed_kind n with ETurnCompleted u => usage_row <$> u | _ => None end /\
  match completed_kind n with
  | ETurnFailed e _ => ended = Some (Err e) /\ ac_stop a = StopFailed
  | ETurnCompleted _ => ended = Some (Ok tt) /\ ac_stop a = StopCompleted
  | _ => ended = Some (Ok tt) /\ ac_stop a = StopCanceled
  end.
Proof.
  intros Hfs Hres. rewrite each_app. unfold bind at 1.
  assert (tells (each (fun x => on_frame x.1 x.2) fs) (flat_map frame_items fs.*2)) as Ht.
  { clear Hres. induction fs as [|[u f] fs IH]; [apply tells_ret|]. cbn [each fmap list_fmap flat_map fst snd].
    apply tells_bind; [apply frame_tells, Hfs; left|]. intros _. apply IH. intros g Hg. apply Hfs. by right. }
  specialize (Ht s). destruct (each _ fs s) as [[s1 es1] []]. destruct Ht as [<- Hq]. cbn [each]. unfold bind.
  rewrite (droid_completed_frame _ _ n) by done. cbn beta iota delta [ret app].
  unfold emitted in *. rewrite omap_app. set (es := omap _ es1) in *. cbn [omap list_omap emitted_of app].
  pose proof (collected_turn plan_content_hash sid uuid at_ms es {| ev_turn := dr_turn s1; ev_kind := completed_kind n |}
    [outside (EAttentionRequired AttentionFinished)] plans Hq (droid_completed_ends _)) as Hc.
  destruct (collect _ _ _ _) as [[ps a] ended]. cbn zeta in Hc |- *. destruct Hc as (Ha & Hr & Hx & _ & _ & Hu & He). by split_and!.
Qed.
End Turns.

(** ** Where it falls short *)

Notation demo_run := (run (fun x => x)).

Definition frame (uuid : string) (f : json) : op (call:=call) := Frame (str uuid) f.
Definition note (type : string) (fields : list (string * json)) : json :=
  envelope "notification" [field "method" (jstr "droid.session_notification");
                           field "params" (mk_obj [field "notification" (mk_obj (field "type" (jstr type) :: fields))])].
Definition answer_to (id : string) (result : json) : op (call:=call) :=
  frame "" (envelope "response" [field "id" (jstr id); field "result" result]).
Definition completed (turn : string) : op (call:=call) :=
  frame "" (note "agent_turn_completed" [field "reason" (jstr "completed"); field "turnId" (jstr turn)]).

Definition effects (l : live St call outcome) : list effect := omap (fun x => match x with Did e => Some e | _ => None end) (lv_log l).
Definition results_sent (l : live St call outcome) : list json :=
  omap (fun e => match e with Sent f => get f (str "result") | _ => None end) (effects l).

Definition demo_config : SessionConfig := probe_config (str "/w").

Definition begun : list (op (call:=call)) := [Call (Create (str "m") demo_config); answer_to "1" (mk_obj [field "sessionId" (jstr "s")]); Wake 0].
Definition start (turn : string) : op (call:=call) := Call (StartTurn (str turn) (PText (str "hi"))).

Definition offered (value label : string) : json := mk_obj [field "value" (jstr value); field "label" (jstr label)].

Definition demo_permission : op (call:=call) :=
  frame "a1" (envelope "request" [field "id" (jstr "r1"); field "method" (jstr "droid.request_permission");
    field "params" (mk_obj [
      field "toolUses" (JArr [mk_obj [field "toolUse" (mk_obj [field "name" (jstr "Execute"); field "input" (mk_obj [field "command" (jstr "ls")])])]]);
      field "options" (JArr [offered "proceed_once" "Yes"; offered "proceed_always" "Always"; offered "cancel" "No"])])]).

(** The option that was chosen is not what the agent is told: every way of allowing
    is sent as [proceed_once], every way of denying as [cancel]. *)
Theorem chosen_option_not_sent (ask : PendingAsk) (chosen : option rstr) (input : option json) (answer : option rstr) (answers : option json) :
  pa_question ask = false ->
  ask_result ask (Allow chosen input answer answers) = mk_obj [field "selectedOption" (jstr "proceed_once")].
Proof. unfold ask_result. by intros ->. Qed.

Lemma always_sent_as_once :
  let l := demo_run (begun ++ [demo_permission]) in
  let l' := demo_run (begun ++ [demo_permission; Call (Respond (str "a1") (Allow (Some (str "proceed_always")) None None None))]) in
  map (fun a => map pa_id (pr_actions (pa_request a.2))) (map_to_list (dr_asks (lv_state l))) =
    [[str "proceed_once"; str "proceed_always"; str "cancel"]] /\
  results_sent l' = [mk_obj [field "selectedOption" (jstr "proceed_once")]].
Proof. vm_compute. done. Qed.

Definition demo_questions : op (call:=call) :=
  frame "a1" (envelope "request" [field "id" (jstr "r1"); field "method" (jstr "droid.ask_user");
    field "params" (mk_obj [field "questions" (JArr [mk_obj [field "question" (jstr "Color?"); field "options" (JArr [jstr "red"])];
                                                    mk_obj [field "question" (jstr "Size?"); field "options" (JArr [jstr "big"])]])])]).

(** Of several questions the first is asked and answered; the agent gets no answer to
    the others. *)
Theorem later_questions_unanswered :
  let l := demo_run (begun ++ [demo_questions; Call (Respond (str "a1") (Allow (Some (str "red")) None None None))]) in
  results_sent l = [mk_obj [field "answers" (JArr [mk_obj [field "index" (jint 0); field "question" (jstr "Color?"); field "answer" (jstr "red")]])]].
Proof. vm_compute. reflexivity. Qed.

Definition tool_call : op (call:=call) :=
  frame "" (note "tool_call" [field "toolUse" (mk_obj [field "id" (jstr "c1"); field "name" (jstr "Execute"); field "input" (mk_obj [field "command" (jstr "ls")])])]).
Definition tool_result : op (call:=call) := frame "" (note "tool_result" [field "toolUseId" (jstr "c1"); field "output" (jstr "a.txt")]).

(** A finished call is stored without its name and its input. *)
Theorem finished_call_unnamed :
  let l := demo_run (begun ++ [start "t1"; tool_call; tool_result; completed "x"]) in
  ac_tools (collect (fun c => c) (str "s") ([], empty_acc) (map (receive [] 0) (emitted (effects l)))).1.2 !! str "c1" =
  Some (tool_json {| tc_call_id := str "c1"; tc_name := []; tc_status := ToolCompleted; tc_detail := UnknownDetail JNull (jstr "a.txt") |}).
Proof. vm_compute. reflexivity. Qed.

(** The turn that an end is of is not looked at: one that comes late, after its turn
    was given up, ends the next. *)
Theorem late_end_ends_next_turn :
  boundaries (effects (demo_run (begun ++ [start "t1"; start "t2"; completed "t1"]))) = [Some (str "t2")].
Proof. vm_compute. reflexivity. Qed.

(** A turn that could not be started is the session's turn all the same, and fails
    when the process ends. *)
Theorem refused_start_keeps_turn :
  let l := demo_run (begun ++ [PipeCloses; start "t1"]) in
  match lv_tasks l !! 1 with Some (Done (Err _)) => True | _ => False end /\ dr_turn (lv_state l) = Some (str "t1") /\
  boundaries (effects (demo_run (begun ++ [PipeCloses; start "t1"; OutputEnds; PumpEnds]))) = [Some (str "t1")].
Proof. vm_compute. done. Qed.

(** Subscribers can hear a turn end before they hear it start. *)
Theorem start_heard_after_end :
  let l := demo_run (begun ++ [start "t1"; answer_to "2" (mk_obj []); completed "t1"; Wake 1]) in
  omap (fun e => match ev_kind e with ETurnStarted => Some true | k => if ends_turn k then Some false else None end) (emitted (effects l)) =
  [false; true].
Proof. vm_compute. reflexivity. Qed.

(** ** Witnesses *)

Definition demo_frames : list (rstr * json) :=
  [([], note "assistant_text_delta" [field "delta" (jstr "Hel")]); ([], note "assistant_text_delta" [field "delta" (jstr "lo")]);
   ([], note "tool_result" [field "toolUseId" (jstr "c1"); field "output" (jstr "a.txt"); field "isError" (JBool true)])].

Definition demo_end : json := mk_obj [field "type" (jstr "agent_turn_completed"); field "reason" (jstr "interrupted")].

Lemma droid_frames_become_turn_witness :
  let '(_, es, _) := each (fun x => on_frame x.1 x.2) (demo_frames ++ [([], note "agent_turn_completed" [field "reason" (jstr "interrupted")])]) fresh_session in
  let '((_, a), ended) := collect (fun c => c) (str "s") ([], empty_acc) (map (receive [] 0) (emitted es)) in
  ac_assistant a = str "Hello" /\ ended = Some (Ok tt) /\ ac_stop a = StopCanceled.
Proof.
  pose proof (droid_frames_become_turn (fun c => c) (str "s") [] 0 demo_frames
    ([], note "agent_turn_completed" [field "reason" (jstr "interrupted")]) demo_end fresh_session []) as H.
  destruct (each _ _ _) as [[s' es] []]. destruct (collect _ _ _ _) as [[ps a] ended]. cbn beta iota zeta in H.
  destruct H as (_ & Ha & _ & _ & _ & He).
  - intros f [->|[->|[->|Hf%not_elem_of_nil]%elem_of_cons]%elem_of_cons]%elem_of_cons; [vm_compute; reflexivity..|done].
  - vm_compute. reflexivity.
  - split; [rewrite Ha; vm_compute; reflexivity|exact He].
Defined.
