(* ===== verification/DroidScan.v ===== *)
(** * DroidScan: the sessions droid left on disk ([scan_sessions], [backend/droid.rs])

    The listing of one working directory's transcripts, on the directories as the
    file system lists them. *)

From S2P Require Import Prelude Str Json SessionStore Events AgentCli Worktree HistoryScan OmpScan.

(** An entry of a directory: its name, what its metadata says of its time (none where
    it has none, or one before 1970) unless it has no metadata, its first line with
    its terminator unless it cannot be read, its size where it is told. *)
Record scan_entry := { se_name : rstr; se_meta : option (option Z); se_first : option rstr; se_size : option Z }.

Definition SESSION_SCAN_CAP : nat := 200.

(** [droid_slug]: slashes become dashes. *)
Definition droid_slug (cwd : rstr) : rstr := slug cwd.

(** [root] is [sessions_root]: below the home that [FACTORY_HOME_OVERRIDE] names unless
    it is empty, or the user's. *)
Definition sessions_root (override home : option rstr) : rstr :=
  let home := match override with Some (_ :: _ as h) => h | _ => default [] home end in
  join_path (join_path home (str ".factory")) (str "sessions").

Record SessionHeader := { sh_id : rstr; sh_title : option rstr; sh_cwd : option rstr }.

Fixpoint trim_start_by (p : rchar -> bool) (s : rstr) : rstr :=
  match s with c :: r => if p c then trim_start_by p r else s | [] => [] end.

(** [trim_end_matches(['\n', '\r'])] *)
Definition trim_newlines (line : rstr) : rstr := reverse (trim_start_by (fun c => N.eqb c 10 || N.eqb c 13) (reverse line)).

Section Scan.
Context `{JT : JsonText}.

Definition session_header (first : option rstr) : option SessionHeader :=
  line ← first;
  let line := trim_newlines line in
  if is_empty line then None
  else
    v ← from_str line;
    if bool_decide (as_str v.["type"] = Some (str "session_start")) then
      id ← as_str v.["id"];
      Some {| sh_id := id; sh_title := as_str v.["title"]; sh_cwd := as_str v.["cwd"] |}
    else None.

(** [canonical] is [cwd] resolved, or [cwd]; [read_dir] the entries of a directory
    below the root, by its slug, when it can be read. *)
Variables (cwd canonical : rstr) (read_dir : rstr -> option (list scan_entry)).

Definition slugs : list rstr :=
  if decide (droid_slug canonical = droid_slug cwd) then [droid_slug cwd] else [droid_slug cwd; droid_slug canonical].

(** The time and the place of a file. *)
Record found := { fo_mtime : Z; fo_dir : rstr; fo_entry : scan_entry }.

Definition files_in (dir : rstr) : list found :=
  omap (fun e => if is_jsonl (se_name e) then (fun t => {| fo_mtime := default 0%Z t; fo_dir := dir; fo_entry := e |}) <$> se_meta e else None)
    (default [] (read_dir dir)).

Definition files : list found := flat_map files_in slugs.

(** Newest first, then the greater path first. *)
Definition before (a b : found) : bool :=
  (fo_mtime b <? fo_mtime a)%Z ||
  ((fo_mtime a =? fo_mtime b)%Z &&
   (if decide (fo_dir a = fo_dir b) then str_leb (se_name (fo_entry b)) (se_name (fo_entry a)) else str_leb (fo_dir b) (fo_dir a))).

Definition importable (f : found) : option ImportableSession :=
  header ← session_header (se_first (fo_entry f));
  if bool_decide (sh_cwd header = Some cwd) || bool_decide (sh_cwd header = Some canonical) then
    Some {| im_provider := str "droid"; im_native := sh_id header; im_title := sh_title header; im_cwd := sh_cwd header;
            im_modified := Some (fo_mtime f); im_size := se_size (fo_entry f) |}
  else None.

Definition scan_sessions (cap : nat) : list ImportableSession := omap importable (take cap (sort_by before files)).

Definition list_importable_sessions : list ImportableSession := scan_sessions SESSION_SCAN_CAP.

(** ** What is listed *)

Lemma importable_here f s : importable f = Some s ->
  (im_cwd s = Some cwd \/ im_cwd s = Some canonical) /\ im_modified s = Some (fo_mtime f) /\ im_provider s = str "droid".
Proof.
  unfold importable. destruct (session_header _) as [h|]; cbn; [|done]. destruct (_ || _) eqn:E; [|done]. intros [= <-]. cbn.
  split; [|done]. apply orb_true_iff in E as [E%bool_decide_eq_true|E%bool_decide_eq_true]; auto.
Qed.

Lemma before_total a b : before a b = true \/ before b a = true.
Proof.
  unfold before. destruct (Z.lt_trichotomy (fo_mtime a) (fo_mtime b)) as [H|[H|H]].
  - right. apply orb_true_iff. left. lia.
  - rewrite H, Z.ltb_irrefl, Z.eqb_refl. cbn. destruct (decide (fo_dir a = fo_dir b)) as [E|E].
    + rewrite decide_True by done. destruct (str_leb_total (se_name (fo_entry b)) (se_name (fo_entry a))); auto.
    + rewrite decide_False by congruence. destruct (str_leb_total (fo_dir b) (fo_dir a)); auto.
  - left. apply orb_true_iff. left. lia.
Qed.

Lemma before_newer a b : before a b = true -> (fo_mtime b <= fo_mtime a)%Z.
Proof. unfold before. intros [H|[H _]%andb_true_iff]%orb_true_iff; lia. Qed.

Lemma before_trans a b c : before a b = true -> before b c = true -> before a c = true.
Proof.
  intros Hab Hbc. pose proof (before_newer _ _ Hab). pose proof (before_newer _ _ Hbc). unfold before in *.
  destruct (Z.lt_trichotomy (fo_mtime c) (fo_mtime a)) as [H1|[H1|H1]]; [apply orb_true_iff; left; lia| |lia].
  assert (fo_mtime b = fo_mtime a) as E by lia. rewrite E, H1, Z.ltb_irrefl, Z.eqb_refl in *. cbn in *.
  destruct (decide (fo_dir a = fo_dir b)) as [Eab|Nab], (decide (fo_dir b = fo_dir c)) as [Ebc|Nbc].
  - rewrite decide_True by congruence. by eapply str_leb_trans.
  - rewrite decide_False by congruence. by rewrite Eab.
  - rewrite decide_False by congruence. by rewrite <-Ebc.
  - destruct (decide (fo_dir a = fo_dir c)) as [Eac|]; [|by eapply str_leb_trans]. exfalso. rewrite <-Eac in Hbc.
    apply Nab. by apply str_leb_antisym.
Qed.

(** The listing reads the newest [cap] transcripts of the two directories and no
    other, and lists those of this directory, newest first. *)
Theorem droid_scan_spec (cap : nat) :
  exists kept left, files ≡ₚ kept ++ left /\ length kept = Nat.min cap (length files) /\
    scan_sessions cap = omap importable kept /\
    StronglySorted (fun a b => (fo_mtime b <= fo_mtime a)%Z) (kept ++ left).
Proof.
  exists (take cap (sort_by before files)), (drop cap (sort_by before files)). rewrite take_drop.
  split; [by rewrite sort_by_perm|]. split; [rewrite length_take; by rewrite (Permutation_length (sort_by_perm before files))|].
  split; [done|]. pose proof (sort_by_sorted before before_total before_trans files) as Hs.
  induction Hs as [|f l Hl IH Hf]; constructor; [done|]. eapply Forall_impl; [exact Hf|]. intros g. apply before_newer.
Qed.

Theorem droid_scan_here cap s : s ∈ scan_sessions cap -> im_cwd s = Some cwd \/ im_cwd s = Some canonical.
Proof. intros (f & _ & Hf)%list_elem_of_omap. by apply importable_here in Hf as [H _]. Qed.
End Scan.

(** Directories that differ in a slash for a dash share their slug, and the cap counts
    the transcripts of both: a session of one goes unlisted behind newer ones of
    the other. *)
#[local] Instance scan_text : JsonText := {|
  to_string := fun _ => []; to_string_pretty := fun _ => [];
  from_str := fun line => Some (mk_obj [field "type" (jstr "session_start"); field "id" (jstr "s"); field "cwd" (JStr line)]) |}.

Definition transcript (modified : Z) (cwd : string) : scan_entry := {|
  se_name := str "s.jsonl"; se_meta := Some (Some modified); se_first := Some (str cwd ++ [10%N]); se_size := None |}.

Theorem other_directory_hides_session :
  let mine := transcript 1 "/a/b" in
  let dir es slug := if str_eqb slug (str "-a-b") then Some es else None in
  map im_cwd (list_importable_sessions (str "/a/b") (str "/a/b") (dir [mine])) = [Some (str "/a/b")] /\
  list_importable_sessions (str "/a/b") (str "/a/b") (dir (repeat (transcript 2 "/a-b") SESSION_SCAN_CAP ++ [mine])) = [].
Proof. vm_compute. done. Qed.
