(* ===== verification/Opencode.v ===== *)
(** * Opencode: sessions of [opencode serve] ([backend/opencode.rs])

    A server shared by its sessions: HTTP requests one way, a stream of events the
    other.  A call of a session is a task that stops at each request until its
    answer comes; the reader of the events is one more. *)

From S2P Require Import Prelude Str Json SessionStore Memory Turn Interact Events Handler AgentLog Transport Requests Follow AgentCli HistoryScan Codex Droid.

Open Scope session_scope.

(** ** Catalogs, bodies and details *)

Definition catalog_model (m : json) : option ModelDef :=
  match get m (str "id") ≫= as_str with
  | None => None
  | Some id => Some {|
      Droid.md_id := default [] (get m (str "providerID") ≫= as_str) ++ str "/" ++ id; Droid.md_name := default id (get m (str "name") ≫= as_str);
      md_selectable := true |}
  end.

Definition catalog_models (v : json) : list ModelDef := default [] (omap (M:=list) catalog_model <$> (get v (str "data") ≫= as_array)).

Definition mode_of (a : json) : option ModeDef :=
  if bool_decide (as_str a.["mode"] <> Some (str "primary")) || bool_at a "hidden" then None
  else (fun name => {| mo_id := name; mo_name := name; mo_description := as_str a.["description"] |}) <$> as_str a.["name"].

Definition catalog_modes (agents : json) : list ModeDef * option rstr :=
  let modes := omap mode_of (default [] (as_array agents)) in
  (modes, if existsb (fun m => str_eqb (mo_id m) (str "build")) modes then Some (str "build") else mo_id <$> head modes).

Definition model_ref_body (model : rstr) : option json :=
  (fun p => mk_obj [field "model" (mk_obj [field "providerID" (JStr p.1); field "id" (JStr p.2)])]) <$> split_once 47%N model.

Definition mcp_local_config (mcp : McpServerConfig) : json :=
  mk_obj [field "type" (jstr "local"); field "command" (JArr (map JStr (mc_command mcp :: mc_args mcp)));
          field "environment" (JObj (map (fun kv => (kv.1, JStr kv.2)) (mc_env mcp))); field "enabled" (JBool true)].

Definition importable_session (provider : rstr) (s : json) : option ImportableSession :=
  match as_str s.["id"] with
  | None => None
  | Some id => Some {|
      im_provider := provider; im_native := id; im_title := as_str s.["title"]; im_cwd := as_str s.["directory"];
      im_modified := (fun ms => ms / 1000)%Z <$> as_u64 (s.["time"]).["updated"]; im_size := None |}
  end.

(** [b] is a byte: letters, digits and [-_.~/] as they are, [%] and two digits else. *)
Definition encode_byte (b : N) : rstr :=
  if is_ascii_alphanumeric b || existsb (N.eqb b) [45; 95; 46; 126; 47]%N then [b]
  else let digit d := (if d <? 10 then 48 + d else 55 + d)%N in [37%N; digit (b / 16)%N; digit (b mod 16)%N].

(** [utf8] are the bytes of a text. *)
Definition urlencoding_encode (utf8 : rstr -> list N) (s : rstr) : rstr := flat_map encode_byte (utf8 s).

Definition file_path (input : json) : rstr := default [] (or_else (as_str input.["filePath"]) (as_str input.["path"])).

(** [state] is that of a tool part. *)
Definition map_tool (name : rstr) (state : json) : ToolCallDetail :=
  let input := state.["input"] in
  if str_eqb name (str "bash") then
    Shell (text_at input "command") (as_str state.["output"]) (wrap_i32 <$> value_i64 (state.["metadata"]).["exit"])
  else if str_eqb name (str "read") then ReadFile (file_path input) None
  else if str_eqb name (str "edit") then EditFile (file_path input) None
  else if str_eqb name (str "write") then WriteFile (file_path input) (as_str input.["content"])
  else if str_eqb name (str "grep") || str_eqb name (str "glob") || str_eqb name (str "list") then
    SearchFor (default [] (or_else (as_str input.["pattern"]) (or_else (as_str input.["query"]) (as_str input.["path"])))) None
  else if str_eqb name (str "webfetch") then Fetch (text_at input "url") (as_str state.["output"])
  else UnknownDetail input (JStr (text_at state "output")).

Definition image_part (b : PromptBlock) : option json :=
  match b with
  | PBImage data mime => Some (mk_obj [field "type" (jstr "file"); field "mime" (JStr mime);
                                       field "url" (JStr (str "data:" ++ mime ++ str ";base64," ++ data))])
  | PBText _ => None
  end.

Definition text_part (text : rstr) : json := mk_obj [field "type" (jstr "text"); field "text" (JStr text)].

Definition prompt_parts (prompt : PromptInput) : list json :=
  match prompt with
  | PText t => [text_part t]
  | PBlocks blocks => text_part (join [c_nl] (omap block_text blocks)) :: omap image_part blocks
  end.

(** [model] is the one the session was configured with. *)
Definition prompt_body (model : option rstr) (prompt : PromptInput) : json :=
  mk_obj (field "parts" (JArr (prompt_parts prompt)) ::
          match model with
          | None => []
          | Some m => [field "model" match split_once 47%N m with
                                     | Some (provider, id) => mk_obj [field "providerID" (JStr provider); field "modelID" (JStr id)]
                                     | None => mk_obj [field "modelID" (JStr m)]
                                     end]
          end).

(** ** Events of the stream *)

(** [buf] is what is left of the last line; [lossy] is [String::from_utf8_lossy]. *)
Fixpoint take_lines (buf : rstr) (text : rstr) : list rstr * rstr :=
  match text with
  | [] => ([], buf)
  | c :: text => if N.eqb c c_nl then let '(ls, rest) := take_lines [] text in (buf :: ls, rest) else take_lines (buf ++ [c]) text
  end.

Section Stream.
Context `{JT : JsonText}.
Variables (session_id : rstr) (lossy : list N -> rstr).

(** The event of a line, when it is one of this session. *)
Definition line_event (line : rstr) : option (rstr * json) :=
  data ← strip_prefix (str "data: ") line;
  v ← from_str data;
  let payload := v.["payload"] in
  let ty := text_at payload "type" in
  if is_empty ty || str_eqb ty (str "sync") || str_eqb ty (str "server.connected") || str_eqb ty (str "server.heartbeat") then None
  else if bool_decide (as_str (payload.["properties"]).["sessionID"] = Some session_id) then Some (ty, payload.["properties"]) else None.

Definition read_chunk (buf : rstr) (chunk : list N) : list (rstr * json) * rstr :=
  let '(ls, rest) := take_lines buf (lossy chunk) in (omap line_event ls, rest).
End Stream.

(** ** State *)

Record PendingAsk := { pa_wire : rstr; pa_question : bool }.

(** [oc_emitted] is the bytes emitted of each part, [oc_roles] the role of each
    message. *)
Record St := {
  oc_turn : option rstr; oc_asks : gmap rstr PendingAsk; oc_emitted : gmap rstr nat; oc_roles : gmap rstr rstr; oc_usage : option TokenUsage
}.

Definition with_turn x s := {| oc_turn := x; oc_asks := oc_asks s; oc_emitted := oc_emitted s; oc_roles := oc_roles s; oc_usage := oc_usage s |}.
Definition with_asks x s := {| oc_turn := oc_turn s; oc_asks := x; oc_emitted := oc_emitted s; oc_roles := oc_roles s; oc_usage := oc_usage s |}.
Definition with_emitted x s := {| oc_turn := oc_turn s; oc_asks := oc_asks s; oc_emitted := x; oc_roles := oc_roles s; oc_usage := oc_usage s |}.
Definition with_roles x s := {| oc_turn := oc_turn s; oc_asks := oc_asks s; oc_emitted := oc_emitted s; oc_roles := x; oc_usage := oc_usage s |}.
Definition with_usage x s := {| oc_turn := oc_turn s; oc_asks := oc_asks s; oc_emitted := oc_emitted s; oc_roles := oc_roles s; oc_usage := x |}.

Definition fresh_session : St := {| oc_turn := None; oc_asks := ∅; oc_emitted := ∅; oc_roles := ∅; oc_usage := None |}.

Definition H : Type -> Type := handler St effect.

(** A request of the server: [GET], or [POST] with a body. *)
Inductive http := Get (path : rstr) | Post (path : rstr) (body : json).

(** What is done, or waits for the answer to a request. *)
Inductive task (A : Type) := Done (a : A) | Asks (r : http) (k : result json rstr -> H (task A)).
Arguments Done {A} a.
Arguments Asks {A} r k.

Definition finish {A} (a : A) : H (task A) := ret (Done a).
Definition ask_server {A} (r : http) (k : result json rstr -> H (task A)) : H (task A) := ret (Asks r k).

(** ** Handling events *)

Definition emit (e : Event) : H unit := log (Emitted e).

Definition emit_here (k : StreamEventKind) : H unit := let! turn := gets oc_turn in emit {| ev_turn := turn; ev_kind := k |}.

Definition emit_timeline (item : TimelineItem) : H unit := emit_here (ETimeline item).

(** [text[prev..]]: [None] where the slice panics. *)
Fixpoint slice_from (n : nat) (s : rstr) : option rstr :=
  match n, s with
  | 0, _ => Some s
  | _, [] => None
  | _, c :: r => if char_len_utf8 c <=? n then slice_from (n - char_len_utf8 c) r else None
  end.

(** What a snapshot of a part adds, if anything; [None] is the panic. *)
Definition snapshot_tail (emitted : gmap rstr nat) (id text : rstr) : option (option rstr * gmap rstr nat) :=
  let prev := default 0 (emitted !! id) in
  if utf8_len text <=? prev then Some (None, emitted)
  else (fun tail => (Some tail, <[id := utf8_len text]> emitted)) <$> slice_from prev text.

Definition is_assistant (roles : gmap rstr rstr) (part : json) : bool :=
  match as_str part.["messageID"] ≫= (roles !!.) with Some role => str_eqb role (str "assistant") | None => false end.

(** An event is handled, or the reader panics. *)
Definition handled : H (task bool) := finish true.

Definition on_text (mk : rstr -> TimelineItem) (part : json) : H (task bool) :=
  match as_str part.["text"] with
  | None => handled
  | Some text =>
      let! roles := gets oc_roles in
      if is_assistant roles part then
        let! emitted := gets oc_emitted in
        match snapshot_tail emitted (text_at part "id") text with
        | None => finish false
        | Some (tail, emitted) =>
            modify (with_emitted emitted) ;!
            match tail with Some tail => emit_timeline (mk tail) | None => ret tt end ;!
            handled
        end
      else handled
  end.

Definition tool_status (status : rstr) : ToolCallStatus :=
  if str_eqb status (str "completed") then ToolCompleted else if str_eqb status (str "error") then ToolFailed else ToolRunning.

Definition tool_part (part : json) : ToolCall := {|
  tc_call_id := text_at part "callID"; tc_name := text_at part "tool"; tc_status := tool_status (text_at part.["state"] "status");
  tc_detail := map_tool (text_at part "tool") part.["state"] |}.

Definition on_part (part : json) : H (task bool) :=
  let ty := text_at part "type" in
  if str_eqb ty (str "text") then on_text TAssistantMessage part
  else if str_eqb ty (str "reasoning") then on_text TReasoning part
  else if str_eqb ty (str "tool") then emit_timeline (TToolCall (tool_part part)) ;! handled
  else handled.

Definition register_ask (ask : PermissionRequest) (wire_id : rstr) (is_question : bool) : H (task bool) :=
  modify (fun s => with_asks (<[pr_id ask := {| pa_wire := wire_id; pa_question := is_question |}]> (oc_asks s)) s) ;!
  emit_here (EPermissionRequested ask) ;!
  emit (outside (EAttentionRequired AttentionPermission)) ;!
  handled.

Definition permission_action (id label : string) (deny : bool) : PermissionAction := {|
  pa_id := str id; pa_label := str label; pa_behavior := if deny then BehaviorDeny else BehaviorAllow;
  pa_variant := Some (if deny then VariantDanger else VariantPrimary) |}.

Definition permission_ask (uuid : rstr) (entry : json) : PermissionRequest :=
  let tool := default (str "tool") (as_str entry.["permission"]) in
  let command := text_at entry.["metadata"] "command" in {|
    pr_id := uuid; pr_kind := KindTool; pr_name := tool; pr_title := Some (if is_empty command then tool ++ str " wants to run" else command);
    pr_input := Some entry.["metadata"]; pr_detail := Some (map_tool tool entry.["metadata"]);
    pr_actions := [permission_action "once" "Allow once" false; permission_action "always" "Always allow" false; permission_action "reject" "Reject" true];
    pr_suggestions := []; pr_questions := [] |}.

Definition label_action (o : json) : PermissionAction :=
  let text := default (str "option") (as_str o.["label"]) in {| pa_id := text; pa_label := text; pa_behavior := BehaviorAllow; pa_variant := None |}.

Definition question_ask (uuid : rstr) (entry q : json) : PermissionRequest := {|
  pr_id := uuid; pr_kind := KindQuestion; pr_name := str "question"; pr_title := Some (default (str "Question") (as_str q.["question"]));
  pr_input := Some entry; pr_detail := None; pr_actions := default [] (map label_action <$> as_array q.["options"]); pr_suggestions := [];
  pr_questions := [] |}.

Definition finish_turn : H unit :=
  let! turn := gets oc_turn in
  modify (with_turn None) ;!
  match turn with
  | None => ret tt
  | Some t =>
      let! usage := gets oc_usage in
      modify (with_usage None) ;!
      emit (in_turn t (ETurnCompleted usage)) ;!
      emit (outside (EAttentionRequired AttentionFinished))
  end.

(** Indexing a map panics where the key is not: [None]. *)
Definition tokens_usage (tokens : json) : option TokenUsage :=
  input ← get tokens (str "input");
  output ← get tokens (str "output");
  Some {| tu_input := as_u64 input; tu_cached := get tokens (str "cache") ≫= (fun c => as_u64 c.["read"]); tu_output := as_u64 output;
          tu_cost := None; tu_window := None; tu_used := None |}.

Definition on_message (info : json) : H (task bool) :=
  match as_str info.["id"], as_str info.["role"] with
  | Some id, Some role =>
      modify (fun s => with_roles (<[id := role]> (oc_roles s)) s) ;!
      if str_eqb role (str "assistant") then
        match as_object info.["tokens"] with
        | None | Some [] => handled
        | Some _ => match tokens_usage info.["tokens"] with Some u => modify (with_usage (Some u)) ;! handled | None => finish false end
        end
      else handled
  | _, _ => handled
  end.

Section Session.
(** The id on the server, and the configured model. *)
Variables (session_id : rstr) (model : option rstr).

(** The first pending entry of this session. *)
Definition own_entry (list : json) : option json :=
  find_first (fun e => bool_decide (as_str e.["sessionID"] = Some session_id)) (default [] (as_array list)).

Definition on_permission_asked (uuid : rstr) : H (task bool) :=
  ask_server (Get (str "/permission")) (fun r =>
  match r with
  | Err _ => handled
  | Ok list =>
      match own_entry list with
      | None => handled
      | Some entry => register_ask (permission_ask uuid entry) (text_at entry "id") false
      end
  end).

Definition on_question_asked (uuid : rstr) : H (task bool) :=
  ask_server (Get (str "/question")) (fun r =>
  match r with
  | Err _ => handled
  | Ok list =>
      match own_entry list ≫= (fun entry => (fun q => (entry, q)) <$> (as_array entry.["questions"] ≫= head)) with
      | None => handled
      | Some (entry, q) => register_ask (question_ask uuid entry q) (text_at entry "id") true
      end
  end).

(** [uuid] is the fresh id an ask would have. *)
Definition on_event (uuid ty : rstr) (p : json) : H (task bool) :=
  if str_eqb ty (str "message.updated") then on_message p.["info"]
  else if str_eqb ty (str "message.part.updated") then on_part p.["part"]
  else if str_eqb ty (str "permission.asked") then on_permission_asked uuid
  else if str_eqb ty (str "question.asked") then on_question_asked uuid
  else if str_eqb ty (str "session.idle") then finish_turn ;! handled
  else if str_eqb ty (str "session.status") && bool_decide (as_str (p.["status"]).["type"] = Some (str "idle")) then finish_turn ;! handled
  else handled.

(** ** Calls *)

Inductive reply := RUnit | RTurn (turn_id : rstr) | RSteer (r : SteerResult).

Definition outcome := result reply rstr.

Definition post (path : rstr) (body : json) (k : H (task outcome)) : H (task outcome) :=
  ask_server (Post path body) (fun r => match r with Ok _ => k | Err e => finish (Err e) end).

Definition of_session (prefix : string) (rest : string) : rstr := str prefix ++ session_id ++ str rest.

Definition start_turn (turn_id : rstr) (prompt : PromptInput) : H (task outcome) :=
  modify (with_turn (Some turn_id)) ;!
  post (of_session "/session/" "/prompt_async") (prompt_body model prompt)
    (emit (in_turn turn_id ETurnStarted) ;! finish (Ok (RTurn turn_id))).

Definition steer (prompt : PromptInput) (expected_turn : rstr) : H (task outcome) :=
  let! turn := gets oc_turn in
  if bool_decide (turn = Some expected_turn) then
    post (of_session "/session/" "/prompt_async") (prompt_body model prompt) (finish (Ok (RSteer Accepted)))
  else finish (Ok (RSteer Unavailable)).

Definition set_mode (mode : rstr) : H (task outcome) :=
  post (of_session "/api/session/" "/agent") (mk_obj [field "agent" (JStr mode)])
    (emit (outside (EModeChanged (Some mode))) ;! finish (Ok RUnit)).

Definition set_model (m : rstr) : H (task outcome) :=
  match model_ref_body m with
  | None => finish (Err (str "opencode model ids must be `provider/model` (e.g. `anthropic/claude-sonnet-4-5`)"))
  | Some body => post (of_session "/api/session/" "/model") body (emit (outside (EModelChanged m)) ;! finish (Ok RUnit))
  end.

Definition interrupt : H (task outcome) := post (of_session "/session/" "/abort") (mk_obj []) (finish (Ok RUnit)).

(** The request that answers an ask. *)
Definition ask_reply (ask : PendingAsk) (response : PermissionResponse) : http :=
  let at_ask (kind rest : string) := str kind ++ pa_wire ask ++ str rest in
  match pa_question ask, response with
  | true, Allow action_id _ answer _ =>
      Post (at_ask "/question/" "/reply")%string
        (mk_obj [field "answers" (JArr [JArr [JStr (default [] (or_else action_id answer))]])])
  | true, Deny _ _ _ => Post (at_ask "/question/" "/reject")%string (mk_obj [])
  | false, Allow action_id _ _ _ =>
      Post (at_ask "/permission/" "/reply")%string
        (mk_obj [field "reply" (jstr (if bool_decide (action_id = Some (str "always")) then "always" else "once"))])
  | false, Deny _ _ _ => Post (at_ask "/permission/" "/reply")%string (mk_obj [field "reply" (jstr "reject")])
  end.

Definition respond_to_permission (request_id : rstr) (response : PermissionResponse) : H (task outcome) :=
  let! asks := gets oc_asks in
  match asks !! request_id with
  | None => finish (Err (str "no pending permission " ++ request_id))
  | Some ask =>
      modify (with_asks (delete request_id asks)) ;!
      ask_server (ask_reply ask response) (fun r =>
      match r with
      | Err e => finish (Err e)
      | Ok _ => emit (outside (EPermissionResolved request_id)) ;! finish (Ok RUnit)
      end)
  end.

(** The calls of clients; closing is local and does nothing. *)
Inductive call :=
| StartTurn (turn_id : rstr) (prompt : PromptInput)
| Steer (prompt : PromptInput) (expected_turn : rstr)
| Interrupt
| Respond (request_id : rstr) (response : PermissionResponse)
| SetMode (mode : rstr)
| SetModel (m : rstr)
| Close.

Definition run_call (c : call) : H (task outcome) :=
  match c with
  | StartTurn turn_id prompt => start_turn turn_id prompt
  | Steer prompt expected => steer prompt expected
  | Interrupt => interrupt
  | Respond id response => respond_to_permission id response
  | SetMode mode => set_mode mode
  | SetModel m => set_model m
  | Close => finish (Ok RUnit)
  end.

(** ** A session and its stream *)

Context `{JT : JsonText}.
Variable lossy : list N -> rstr.

(** The tasks by the number of their call; the reader is idle when it is done with
    [true], and dead when it is done with [false]. *)
Record live := {
  lv_state : St; lv_tasks : gmap nat (task outcome); lv_calls : nat;
  lv_buf : rstr; lv_queue : list (rstr * json); lv_reader : task bool; lv_log : list (entry (call:=call))
}.

Definition idle (l : live) : bool := match lv_reader l with Done b => b | Asks _ _ => false end.

Definition run_task (n : nat) (m : H (task outcome)) (l : live) : live :=
  let '(s, es, t) := m (lv_state l) in
  {| lv_state := s; lv_tasks := <[n := t]> (lv_tasks l); lv_calls := lv_calls l; lv_buf := lv_buf l; lv_queue := lv_queue l;
     lv_reader := lv_reader l; lv_log := lv_log l ++ map Did es |}.

Definition run_reader (m : H (task bool)) (queue : list (rstr * json)) (l : live) : live :=
  let '(s, es, t) := m (lv_state l) in
  {| lv_state := s; lv_tasks := lv_tasks l; lv_calls := lv_calls l; lv_buf := lv_buf l; lv_queue := queue; lv_reader := t;
     lv_log := lv_log l ++ map Did es |}.

Definition with_stream (buf : rstr) (queue : list (rstr * json)) (l : live) : live :=
  {| lv_state := lv_state l; lv_tasks := lv_tasks l; lv_calls := lv_calls l; lv_buf := buf; lv_queue := queue; lv_reader := lv_reader l; lv_log := lv_log l |}.

(** A client's call, the answer to its request; a chunk of the stream, which is read
    when the events before it are handled, the next event with the fresh id it may
    need, the answer to the reader's request; the stream begun anew. *)
Inductive op :=
| Call (c : call)
| Answer (n : nat) (r : result json rstr)
| Chunk (bytes : list N)
| Next (uuid : rstr)
| Listing (r : result json rstr)
| Reconnect.

Definition live_step (l : live) (o : op) : live :=
  match o with
  | Call c =>
      run_task (lv_calls l) (run_call c)
        {| lv_state := lv_state l; lv_tasks := lv_tasks l; lv_calls := S (lv_calls l); lv_buf := lv_buf l; lv_queue := lv_queue l;
           lv_reader := lv_reader l; lv_log := lv_log l ++ [Called c] |}
  | Answer n r => match lv_tasks l !! n with Some (Asks _ k) => run_task n (k r) l | _ => l end
  | Chunk bytes =>
      if idle l && is_empty (lv_queue l) then
        let '(events, buf) := read_chunk session_id lossy (lv_buf l) bytes in with_stream buf events l
      else l
  | Next uuid =>
      match lv_queue l with
      | (ty, p) :: queue => if idle l then run_reader (on_event uuid ty p) queue l else l
      | [] => l
      end
  | Listing r => match lv_reader l with Asks _ k => run_reader (k r) (lv_queue l) l | Done _ => l end
  | Reconnect => if idle l && is_empty (lv_queue l) then with_stream [] [] l else l
  end.

Definition run (ops : list op) : live :=
  fold_left live_step ops
    {| lv_state := fresh_session; lv_tasks := ∅; lv_calls := 0; lv_buf := []; lv_queue := []; lv_reader := Done true; lv_log := [] |}.
End Session.

(** ** The client *)

#[export] Instance http_effect : Effect http := fun _ => result json rstr.

Section Client.
Context `{JT : JsonText}.
Variables (provider : rstr) (utf8 : rstr -> list N).

Abbreviation program A := (prog http A) (only parsing).

(** [?] on an answer. *)
Definition answered {A} (r : http) (k : json -> program (result A rstr)) : program (result A rstr) :=
  Do r (fun x => match x with Ok v => k v | Err e => Ret (Err e) end).

(** [POST /mcp] for each server, then [k]. *)
Fixpoint register_servers {A} (servers : list (rstr * McpServerConfig)) (k : program (result A rstr)) : program (result A rstr) :=
  match servers with
  | [] => k
  | (name, mcp) :: servers =>
      answered (Post (str "/mcp") (mk_obj [field "name" (JStr name); field "config" (mcp_local_config mcp)])) (fun _ => register_servers servers k)
  end.

Definition session_path (cwd : rstr) : rstr := str "/session?directory=" ++ urlencoding_encode utf8 cwd.

(** The id of the new session; [spawned] is whether the server is the daemon's own. *)
Definition create_session (spawned : bool) (config : SessionConfig) : program (result rstr rstr) :=
  let create := answered (Post (session_path (sc_cwd config)) (mk_obj [field "title" (jstr "damon session")])) (fun created =>
    Ret match as_str created.["id"] with
        | Some id => Ok id
        | None => Err (str "opencode session id missing: " ++ to_string created)
        end) in
  if spawned then register_servers (sc_mcp_servers config) create else create.

Definition fetch_catalog : program (result (list ModelDef * (list ModeDef * option rstr)) rstr) :=
  answered (Get (str "/agent")) (fun agents =>
  Do (Get (str "/api/model")) (fun models =>
  Ret (Ok (match models with Ok v => catalog_models v | Err _ => [] end, catalog_modes agents)))).

Definition list_importable_sessions (cwd : rstr) : program (result (list ImportableSession) rstr) :=
  answered (Get (session_path cwd)) (fun v => Ret (Ok (default [] (omap (M:=list) (importable_session provider) <$> as_array v)))).
End Client.
