(* ===== verification/OpencodeThms.v ===== *)
(** * OpencodeThms: what opencode sessions guarantee, and what they do not

    Growing snapshots are told as the text they grow to; a turn ends once, and only
    turns end; then runs that show where a session falls short, and witnesses. *)

From S2P Require Import Prelude Str Json PlanStore SessionStore Memory Turn Interact Events Handler AgentLog Transport Requests Follow AgentCli Opencode.

Open Scope session_scope.

(** ** Snapshots *)

Lemma slice_from_app s t : slice_from (utf8_len s) (s ++ t) = Some t.
Proof.
  induction s as [|c s IH]; cbn [utf8_len app]; [by destruct t|].
  assert (0 < char_len_utf8 c) by (unfold char_len_utf8; repeat case_match; lia).
  destruct (char_len_utf8 c + utf8_len s) as [|n] eqn:E; [lia|]. cbn [slice_from]. rewrite <-E.
  destruct (Nat.leb_spec (char_len_utf8 c) (char_len_utf8 c + utf8_len s)) as [_|]; [|lia].
  replace (char_len_utf8 c + utf8_len s - char_len_utf8 c) with (utf8_len s) by lia. exact IH.
Qed.

(** A snapshot that extends what was emitted adds the rest. *)
Lemma snapshot_extends emitted id whole rest : default 0 (emitted !! id) = utf8_len whole ->
  snapshot_tail emitted id (whole ++ rest) =
  Some (if is_empty rest then None else Some rest, if is_empty rest then emitted else <[id := utf8_len (whole ++ rest)]> emitted).
Proof.
  intros E. unfold snapshot_tail. rewrite E, !utf8_len_app. destruct rest as [|c rest].
  - cbn. by rewrite Nat.add_0_r, Nat.leb_refl.
  - cbn [is_empty]. pose proof (utf8_len_ge (c :: rest)) as Hge. cbn [length] in Hge.
    destruct (Nat.leb_spec (utf8_len whole + utf8_len (c :: rest)) (utf8_len whole)) as [|_]; [lia|].
    by rewrite slice_from_app.
Qed.

(** A text part: whether it is reasoning, its part and the snapshot. *)
Record snapshot := { sn_reasoning : bool; sn_part : rstr; sn_text : rstr }.

Definition as_snapshot (part : json) : option snapshot :=
  let ty := text_at part "type" in
  if str_eqb ty (str "text") || str_eqb ty (str "reasoning") then
    (fun text => {| sn_reasoning := negb (str_eqb ty (str "text")); sn_part := text_at part "id"; sn_text := text |}) <$> as_str part.["text"]
  else None.

(** Each snapshot of a part extends the one before; [whole] is what the parts have
    come to. *)
Fixpoint growing (whole : gmap rstr rstr) (l : list snapshot) : Prop :=
  match l with
  | [] => True
  | sn :: l => default [] (whole !! sn_part sn) `prefix_of` sn_text sn /\ growing (<[sn_part sn := sn_text sn]> whole) l
  end.

(** The parts one after the other, as long as the reader lives. *)
Fixpoint hear (parts : list json) : H bool :=
  match parts with
  | [] => ret true
  | p :: parts => let! t := on_part p in match t with Done true => hear parts | _ => ret false end
  end.

(** What was added to a part. *)
Definition told_item (sn : snapshot) : TimelineItem := if sn_reasoning sn then TReasoning (sn_text sn) else TAssistantMessage (sn_text sn).

Definition of_part (id : rstr) (l : list snapshot) : list rstr := omap (fun sn => if bool_decide (sn_part sn = id) then Some (sn_text sn) else None) l.

Definition items_of (es : list effect) : list TimelineItem := omap (fun e => item_of (ev_kind e)) (emitted es).

(** What is emitted of the parts is what they have come to. *)
Definition emitted_of_whole (emitted : gmap rstr nat) (whole : gmap rstr rstr) : Prop :=
  forall id, default 0 (emitted !! id) = utf8_len (default [] (whole !! id)).

Lemma hear_part part sn s whole : as_snapshot part = Some sn -> is_assistant (oc_roles s) part = true ->
  emitted_of_whole (oc_emitted s) whole -> default [] (whole !! sn_part sn) `prefix_of` sn_text sn ->
  exists s' es rest, on_part part s = (s', es, Done true) /\ sn_text sn = default [] (whole !! sn_part sn) ++ rest /\
    items_of es = (if is_empty rest then [] else [told_item {| sn_reasoning := sn_reasoning sn; sn_part := sn_part sn; sn_text := rest |}]) /\
    oc_roles s' = oc_roles s /\ emitted_of_whole (oc_emitted s') (<[sn_part sn := sn_text sn]> whole).
Proof.
  unfold as_snapshot, on_part. intros Hs Hr Hw [rest Hrest].
  assert (exists mk, (if str_eqb (text_at part "type") (str "text") then on_text TAssistantMessage part
                      else if str_eqb (text_at part "type") (str "reasoning") then on_text TReasoning part
                      else if str_eqb (text_at part "type") (str "tool") then emit_timeline (TToolCall (tool_part part)) ;! handled
                      else handled) = on_text mk part /\ as_str part.["text"] = Some (sn_text sn) /\ sn_part sn = text_at part "id" /\
                     (forall x, mk x = told_item {| sn_reasoning := sn_reasoning sn; sn_part := sn_part sn; sn_text := x |}))
    as (mk & -> & Ht & Hp & Hmk).
  { destruct (str_eqb (text_at part "type") (str "text")); [|destruct (str_eqb (text_at part "type") (str "reasoning")); [|done]];
      destruct (as_str part.["text"]) as [text|]; try done; injection Hs as <-; by eexists. }
  unfold on_text. rewrite Ht. unfold bind, gets. rewrite Hr, <-Hp. rewrite Hrest.
  rewrite (snapshot_extends _ _ (default [] (whole !! sn_part sn)) rest) by apply Hw.
  destruct rest as [|c rest]; cbn [is_empty fmap option_fmap option_map]; eexists _, _, _; (split; [reflexivity|]); (split; [done|]).
  - split; [done|]. split; [done|]. cbn. intros id. destruct (decide (id = sn_part sn)) as [->|Hne].
    + rewrite lookup_insert_eq. cbn. rewrite app_nil_r. apply Hw.
    + rewrite lookup_insert_ne by done. apply Hw.
  - split; [cbn; by rewrite Hmk|]. split; [done|]. cbn. intros id. destruct (decide (id = sn_part sn)) as [->|Hne].
    + by rewrite !lookup_insert_eq.
    + rewrite !lookup_insert_ne by done. apply Hw.
Qed.

(** What a part has come to after snapshots of it. *)
Definition come_to (whole : rstr) (texts : list rstr) : rstr := default whole (last texts).

Lemma come_to_cons whole x texts : come_to whole (x :: texts) = come_to x texts.
Proof. unfold come_to. rewrite last_cons. by destruct (last texts). Qed.

Lemma hear_all parts l s whole : mapM as_snapshot parts = Some l -> Forall (fun p => is_assistant (oc_roles s) p = true) parts ->
  emitted_of_whole (oc_emitted s) whole -> growing whole l ->
  exists s' es told, hear parts s = (s', es, true) /\ items_of es = map told_item told /\
    forall id, default [] (whole !! id) ++ concat (of_part id told) = come_to (default [] (whole !! id)) (of_part id l).
Proof.
  revert l s whole. induction parts as [|part parts IH]; intros l s whole Hl Hr Hw Hg.
  { injection Hl as <-. eexists _, _, []. split; [reflexivity|]. split; [done|]. intros id. cbn. by rewrite app_nil_r. }
  apply mapM_Some in Hl. inversion Hl as [|? sn ? l' Hsn Hl']; subst. destruct Hg as [Hp Hg].
  apply Forall_cons in Hr as [Hr Hrs].
  destruct (hear_part part sn s whole Hsn Hr Hw Hp) as (s1 & es1 & rest & Ep & Et & Ei & Hroles & Hw1).
  rewrite <-Hroles in Hrs. destruct (IH l' s1 _ (proj2 (mapM_Some _ _ _) Hl') Hrs Hw1 Hg) as (s2 & es2 & told & Eh & Ei2 & Hall).
  exists s2, (es1 ++ es2), ((if is_empty rest then [] else [{| sn_reasoning := sn_reasoning sn; sn_part := sn_part sn; sn_text := rest |}]) ++ told).
  split; [cbn [hear]; unfold bind; by rewrite Ep, Eh|].
  split; [unfold items_of, emitted in *; rewrite !omap_app, Ei, Ei2, map_app; by destruct (is_empty rest)|].
  intros id. specialize (Hall id). unfold of_part in *. rewrite omap_app, concat_app. cbn [omap list_omap].
  destruct (decide (sn_part sn = id)) as [<-|Hne].
  - rewrite lookup_insert_eq in Hall. change (default [] (Some (sn_text sn))) with (sn_text sn) in Hall. rewrite (bool_decide_true (sn_part sn = sn_part sn)) by done.
    rewrite come_to_cons, <-Hall, Et, <-app_assoc. f_equal. destruct rest as [|c rest]; cbn; [done|]. rewrite bool_decide_true by done. cbn.
    by rewrite app_nil_r.
  - rewrite lookup_insert_ne in Hall by done. rewrite (bool_decide_false (sn_part sn = id)) by done. rewrite <-Hall. f_equal.
    destruct rest as [|c rest]; cbn; [done|]. by rewrite bool_decide_false.
Qed.

(** C21: A reader that has told nothing yet is sent snapshots of the assistant's
    parts.  While those of each part only grow, it hears them all, and what it tells
    of a part, whatever the other parts between, is put together the last of its
    snapshots: nothing is told twice and nothing is left out. *)
Theorem snapshots_told_once (parts : list json) (l : list snapshot) (s : St) :
  mapM as_snapshot parts = Some l -> Forall (fun p => is_assistant (oc_roles s) p = true) parts -> oc_emitted s = ∅ -> growing ∅ l ->
  exists s' es told, hear parts s = (s', es, true) /\ items_of es = map told_item told /\
    forall id, concat (of_part id told) = default [] (last (of_part id l)).
Proof.
  intros Hl Hr He Hg. destruct (hear_all parts l s ∅ Hl Hr) as (s' & es & told & Eh & Ei & Hall); [|done|].
  - intros id. by rewrite He, !lookup_empty.
  - exists s', es, told. split; [done|]. split; [done|]. intros id. specialize (Hall id). by rewrite lookup_empty in Hall.
Qed.

(** ** Turns *)

Notation oc_entry := (entry (call:=call)).

(** The turn a boundary ends, the turn a call starts. *)
Definition ended (x : oc_entry) : list (option rstr) :=
  match x with Did (Emitted ev) => if ends_turn (ev_kind ev) then [ev_turn ev] else [] | _ => [] end.

Definition started (x : oc_entry) : list (option rstr) := match x with Called (StartTurn t _) => [Some t] | _ => [] end.

Definition running (s : St) : list (option rstr) := match oc_turn s with Some t => [Some t] | None => [] end.

Definition turns_booked : St -> list oc_entry -> St -> Prop := books ended started running.

#[export] Instance turns_booked_traced : Traced turns_booked.
Proof. apply books_traced. Qed.

(** All a task may still do is in the books. *)
Fixpoint steady {A} (t : task A) : Prop :=
  match t with
  | Done _ => True
  | Asks _ k => forall r s, match k r s with (s', es, t') => turns_booked s (map Did es) s' /\ steady t' end
  end.

Definition booked {A} (m : H (task A)) : Prop := forall s, match m s with (s', es, t) => turns_booked s (map Did es) s' /\ steady t end.

Lemma booked_done {A} (a : A) : booked (finish a).
Proof. intros s. split; [apply traced_refl|done]. Qed.

Lemma booked_ask {A} r (k : result json rstr -> H (task A)) : (forall x, booked (k x)) -> booked (ask_server r k).
Proof. intros Hk s. split; [apply traced_refl|]. intros x. apply Hk. Qed.

Lemma booked_bind {A B} (m : H A) (k : A -> H (task B)) : obeys (did turns_booked) m -> (forall x, booked (k x)) -> booked (bind m k).
Proof.
  intros Hm Hk s. unfold bind. specialize (Hm s). destruct (m s) as [[s1 es1] x]. specialize (Hk x s1).
  destruct (k x s1) as [[s2 es2] t]. destruct Hk as [Hr Ht]. split; [|done]. rewrite map_app. by eapply traced_trans.
Qed.

Lemma booked_modify f : (forall s, oc_turn (f s) = oc_turn s) -> obeys (did turns_booked) (modify f).
Proof. intros Hf s. apply books_same; [done|]. unfold running. by rewrite Hf. Qed.

Lemma booked_emit e : ends_turn (ev_kind e) = false -> obeys (did turns_booked) (emit e).
Proof. intros He s. apply books_same; [cbn; by rewrite He|done]. Qed.

Lemma booked_here k : ends_turn k = false -> obeys (did turns_booked) (emit_here k).
Proof. intros Hk. unfold emit_here. apply obeys_bind; [apply obeys_gets|]. intros t. by apply booked_emit. Qed.

Lemma booked_finish : obeys (did turns_booked) finish_turn.
Proof.
  intros s. unfold finish_turn, bind, gets, modify, emit, log, ret. destruct (oc_turn s) as [t|] eqn:E; cbn.
  - unfold did, turns_booked, books, running. cbn. by rewrite E.
  - apply books_same; [done|]. unfold running. cbn. by rewrite E.
Qed.

Ltac booked := repeat match goal with
  | |- booked (bind _ _) => apply booked_bind; [|intros ?]
  | |- booked (finish _) => apply booked_done
  | |- booked handled => apply booked_done
  | |- booked (ask_server _ _) => apply booked_ask; intros ?
  | |- booked (post _ _ _) => apply booked_ask; intros [?|?]
  | |- booked (if _ then _ else _) => case_match
  | |- booked (match ?x with _ => _ end) => destruct x
  | |- obeys _ (bind _ _) => apply obeys_bind; [|intros ?]
  | |- obeys _ (ret _) => apply obeys_ret
  | |- obeys _ (gets _) => apply obeys_gets
  | |- obeys _ (modify _) => apply booked_modify; by intros
  | |- obeys _ (emit_timeline _) => by apply booked_here
  | |- obeys _ (emit_here _) => by apply booked_here
  | |- obeys _ (emit _) => by apply booked_emit
  | |- obeys _ finish_turn => apply booked_finish
  | |- obeys _ (match ?x with _ => _ end) => destruct x
  end.

Section Kept.
Context `{JT : JsonText}.
Variables (session_id : rstr) (model : option rstr) (lossy : list N -> rstr).

Lemma booked_event uuid ty p : booked (on_event session_id uuid ty p).
Proof. unfold on_event, on_message, on_part, on_text, on_permission_asked, on_question_asked, register_ask. booked. Qed.

Lemma booked_called x (m : H (task outcome)) s : ended x = [] -> booked m ->
  match m s with (s', es, t) => turns_booked s (x :: map Did es) s' /\ steady t end.
Proof. intros Hx Hm. specialize (Hm s). destruct (m s) as [[s' es] t]. destruct Hm as [Hr Ht]. split; [by apply books_more|done]. Qed.

Lemma booked_call c s : match run_call session_id model c s with (s', es, t) => turns_booked s (Called c :: map Did es) s' /\ steady t end.
Proof.
  destruct c as [t prompt|prompt t| |id r|m|m|]; cbn [run_call];
    [|apply booked_called; [done|unfold steer, interrupt, respond_to_permission, set_mode, set_model; booked]..].
  unfold start_turn, bind, modify, post, ask_server, ret. cbn. split.
  - unfold turns_booked, books, running. cbn. apply submseteq_skip. by apply submseteq_nil_l.
  - intros [v|e] s0; [|split; [apply traced_refl|done]]. split; [|done]. by apply books_same.
Qed.

Definition balanced (l : live) : Prop :=
  turns_booked fresh_session (lv_log l) (lv_state l) /\ (forall n t, lv_tasks l !! n = Some t -> steady t) /\ steady (lv_reader l).

Lemma task_balanced n (m : H (task outcome)) l x : balanced l ->
  match m (lv_state l) with (s', es, t) => turns_booked (lv_state l) (x ++ map Did es) s' /\ steady t end ->
  forall l0, lv_state l0 = lv_state l -> lv_tasks l0 = lv_tasks l -> lv_reader l0 = lv_reader l -> lv_log l0 = lv_log l ++ x -> balanced (run_task n m l0).
Proof.
  intros (Hl & Ht & Hr) Hm l0 E1 E2 E3 E4. unfold run_task. rewrite E1, E2, E3, E4. destruct (m (lv_state l)) as [[s' es] t].
  destruct Hm as [Hm Hs]. split; [|split; [|exact Hr]]; cbn.
  - rewrite <-app_assoc. by eapply traced_trans.
  - intros k u [[_ <-]|[_ Hk]]%lookup_insert_Some; [done|by eapply Ht].
Qed.

Lemma reader_balanced (m : H (task bool)) q l : balanced l ->
  match m (lv_state l) with (s', es, t) => turns_booked (lv_state l) (map Did es) s' /\ steady t end -> balanced (run_reader m q l).
Proof.
  intros (Hl & Ht & Hr) Hm. unfold run_reader. destruct (m (lv_state l)) as [[s' es] t]. destruct Hm as [Hm Hs].
  split; [|by split]. cbn. by eapply traced_trans.
Qed.

Lemma step_balanced l o : balanced l -> balanced (live_step session_id model lossy l o).
Proof.
  intros Hl. destruct o as [c|n r|bytes|uuid|r|]; cbn [live_step].
  - eapply (task_balanced _ _ l [Called c]); try done. apply booked_call.
  - destruct (lv_tasks l !! n) as [[a|q k]|] eqn:E; try done. eapply (task_balanced _ _ l []); try done; [|by rewrite app_nil_r].
    destruct Hl as (_ & Ht & _). apply (Ht _ _ E r).
  - destruct (_ && _); [|done]. by destruct (read_chunk _ _ _ _).
  - destruct (lv_queue l) as [|[ty p] q]; [done|]. destruct (idle l); [|done]. apply reader_balanced; [done|apply booked_event].
  - destruct (lv_reader l) as [b|q k] eqn:E; [done|]. apply reader_balanced; [done|]. destruct Hl as (_ & _ & Hr). rewrite E in Hr. apply Hr.
  - by destruct (_ && _).
Qed.

(** In any run of an opencode session, with its calls, the server's answers and
    its events in any order, each end of a turn names a turn that a client started,
    and each turn ends at most once: the turns that ended, and the one that runs,
    were started, with multiplicities. *)
Theorem opencode_turns_end_once (ops : list op) :
  let l := run session_id model lossy ops in
  said_of ended (lv_log l) ++ running (lv_state l) ⊆+ said_of started (lv_log l).
Proof.
  cbn zeta. assert (balanced (run session_id model lossy ops)) as (H & _ & _).
  { unfold run. induction ops as [|o ops IH] using rev_ind; [|rewrite fold_left_app; by apply step_balanced].
    split; [apply traced_refl|]. split; [|done]. intros n t Hn. cbn in Hn. by rewrite lookup_empty in Hn. }
  etransitivity; [exact H|]. by rewrite app_nil_r.
Qed.
End Kept.

(** A server that the daemon only adopted is asked for the new session and nothing
    else; its own gets each configured server. *)
Theorem adopted_server_untouched `{JsonText} utf8 config :
  calls_only (fun r => r = Post (session_path utf8 (sc_cwd config)) (mk_obj [field "title" (jstr "damon session")])) (create_session utf8 false config).
Proof. split; [done|]. by intros [created|e]. Qed.

(** ** Where it falls short *)

(** UTF-8 of ASCII and of one longer character, the euro sign; other bytes are
    replaced. *)
Fixpoint demo_lossy (bytes : list N) : rstr :=
  match bytes with
  | 226%N :: 130%N :: 172%N :: bytes => 8364%N :: demo_lossy bytes
  | b :: bytes => (if (b <? 128)%N then b else 65533%N) :: demo_lossy bytes
  | [] => []
  end.

Definition event (type : string) (fields : list (string * json)) : json :=
  mk_obj [field "payload" (mk_obj [field "type" (jstr type); field "properties" (mk_obj (field "sessionID" (jstr "ses_1") :: fields))])].

Definition assistant : json := event "message.updated" [field "info" (mk_obj [field "id" (jstr "m1"); field "role" (jstr "assistant")])].
Definition text_part_of (text : rstr) : json :=
  mk_obj [field "type" (jstr "text"); field "id" (jstr "p1"); field "messageID" (jstr "m1"); field "text" (JStr text)].
Definition text_of (text : rstr) : json := event "message.part.updated" [field "part" (text_part_of text)].

(** The document a line stands for: one letter says which event it is, a quoted text
    is a snapshot. *)
Definition demo_text : JsonText := {|
  to_string := fun _ => []; to_string_pretty := fun _ => [];
  from_str := fun t =>
    if str_eqb t (str "a") then Some assistant
    else if str_eqb t (str "p") then Some (event "permission.asked" [])
    else if str_eqb t (str "s") then Some (event "session.status" [field "status" (mk_obj [field "type" (jstr "idle")])])
    else if str_eqb t (str "i") then Some (event "session.idle" [])
    else Some (text_of t) |}.
#[local] Existing Instance demo_text.

Notation demo_run := (run (str "ses_1") (Some (str "a/one")) demo_lossy).

Definition line (doc : list N) : list N := str "data: " ++ doc ++ [c_nl].
Definition hears (doc : list N) : list op := [Chunk (line doc); Next (str "u")].
Definition start (turn : string) : op := Call (StartTurn (str turn) (PText (str "hi"))).

Definition effects (l : live) : list effect := omap (fun x => match x with Did e => Some e | _ => None end) (lv_log l).
Definition ends (l : live) : list (option rstr) := said_of ended (lv_log l).
Definition posted (l : live) (n : nat) : option json := match lv_tasks l !! n with Some (Asks (Post _ body) _) => Some body | _ => None end.

(** The end of a turn is announced twice; a client that starts the next one at the
    first has it ended by the second. *)
Theorem idle_echo_ends_next_turn :
  ends (demo_run ([start "t1"] ++ hears (str "s") ++ [start "t2"] ++ hears (str "i"))) = [Some (str "t1"); Some (str "t2")].
Proof. vm_compute. reflexivity. Qed.

(** An aborted turn is reported as completed. *)
Theorem interrupted_turn_completes :
  let l := demo_run ([start "t1"; Call Interrupt; Answer 1 (Ok JNull)] ++ hears (str "i")) in
  omap (fun e => if ends_turn (ev_kind e) then Some (ev_kind e) else None) (emitted (effects l)) = [ETurnCompleted None].
Proof. vm_compute. reflexivity. Qed.

(** A snapshot that does not extend the one before panics the reader when the slice
    begins inside a character: the turn never ends. *)
Theorem rewritten_snapshot_kills_reader :
  let l := demo_run ([start "t1"] ++ hears (str "a") ++ hears (str "x") ++ hears ([226; 130; 172]%N ++ str "y") ++ hears (str "i")) in
  lv_reader l = Done false /\ ends l = [] /\ oc_turn (lv_state l) = Some (str "t1").
Proof. vm_compute. done. Qed.

(** So does a message whose tokens leave out the input or the output. *)
Theorem partial_tokens_kill_reader :
  let tokens fields := mk_obj [field "info" (mk_obj [field "id" (jstr "m1"); field "role" (jstr "assistant"); field "tokens" (mk_obj fields)])] in
  let reader p := (on_event (str "ses_1") [] (str "message.updated") p fresh_session).2 in
  reader (tokens []) = Done true /\ reader (tokens [field "input" (jint 1); field "output" (jint 2)]) = Done true /\
  reader (tokens [field "input" (jint 1)]) = Done false.
Proof. vm_compute. done. Qed.

(** Nothing brings a dead reader back. *)
Theorem dead_reader_stays session_id model lossy l o :
  lv_reader l = Done false -> match o with Call _ | Answer _ _ => False | _ => True end -> live_step session_id model lossy l o = l.
Proof.
  intros Hd Ho. destruct o; try done; cbn [live_step]; unfold idle; rewrite Hd; try done. by destruct (lv_queue l) as [|[ty p] q].
Qed.

(** A character cut by the end of a chunk is lost. *)
Theorem split_character_lost :
  let text := [226; 130; 172]%N in
  items_of (effects (demo_run (hears (str "a") ++ [Chunk (line text); Next []]))) = [TAssistantMessage [8364%N]] /\
  items_of (effects (demo_run (hears (str "a") ++ [Chunk (str "data: " ++ take 2 text); Chunk (drop 2 text ++ [c_nl]); Next []]))) =
    [TAssistantMessage [65533; 65533; 65533]%N].
Proof. vm_compute. done. Qed.

(** A turn asks for the model the session was configured with, whatever was chosen
    since. *)
Theorem chosen_model_overridden :
  let l := demo_run [Call (SetModel (str "b/two")); Answer 0 (Ok JNull); start "t1"] in
  (fun body => (body.["model"]).["modelID"]) <$> posted l 1 = Some (jstr "one") /\
  map ev_kind (emitted (effects l)) = [EModelChanged (str "b/two")].
Proof. vm_compute. done. Qed.

Definition pending_entry (id command : string) : json :=
  mk_obj [field "id" (jstr id); field "sessionID" (jstr "ses_1"); field "permission" (jstr "bash");
          field "metadata" (mk_obj [field "command" (jstr command)])].

Definition two_pending : list op :=
  let listed := Listing (Ok (JArr [pending_entry "per_1" "ls"; pending_entry "per_2" "rm"])) in
  [Chunk (line (str "p")); Next (str "u1"); listed; Chunk (line (str "p")); Next (str "u2"); listed].

(** Two permissions asked for at once become two asks of the first one. *)
Theorem second_permission_unseen :
  map (fun x => (x.1, pa_wire x.2)) (map_to_list (oc_asks (lv_state (demo_run two_pending)))) =
  [(str "u1", str "per_1"); (str "u2", str "per_1")] \/
  map (fun x => (x.1, pa_wire x.2)) (map_to_list (oc_asks (lv_state (demo_run two_pending)))) =
  [(str "u2", str "per_1"); (str "u1", str "per_1")].
Proof. vm_compute. auto. Qed.

(** The detail of a permission is read where a tool part has its input, and is empty. *)
Theorem permission_detail_empty :
  pr_detail (permission_ask [] (pending_entry "per_1" "ls")) = Some (Shell [] None None) /\
  pr_title (permission_ask [] (pending_entry "per_1" "ls")) = Some (str "ls").
Proof. vm_compute. done. Qed.

(** ** Witnesses *)

Definition demo_parts : list json := map text_part_of [str "Hel"; str "Hello"; str "Hello"].

Lemma snapshots_told_once_witness :
  exists s' es, hear demo_parts (with_roles {[ str "m1" := str "assistant" ]} fresh_session) = (s', es, true) /\
    concat (omap said (items_of es)) = str "Hello".
Proof.
  destruct (snapshots_told_once demo_parts
    (map (fun t => {| sn_reasoning := false; sn_part := str "p1"; sn_text := t |}) [str "Hel"; str "Hello"; str "Hello"])
    (with_roles {[ str "m1" := str "assistant" ]} fresh_session)) as (s' & es & told & Eh & _).
  - vm_compute. reflexivity.
  - vm_compute. repeat constructor.
  - reflexivity.
  - cbn [growing map sn_part sn_text]. rewrite lookup_empty, !lookup_insert_eq. split; [by eexists|]. split; [by exists (str "lo")|]. by split; [exists []|].
  - exists s', es. split; [exact Eh|]. vm_compute in Eh. injection Eh as <- <-. vm_compute. reflexivity.
Defined.
