(* ===== verification/McpConfig.v ===== *)
(** * McpConfig: the MCP servers the agents are configured with ([mcp_inventory.rs])

    The configuration files of each agent read into servers, the redacted view of
    them that leaves the daemon, and the switch of claude's file.  Files are what
    reading them gives; the texts of errors are the libraries'. *)

From S2P Require Import Prelude Str Json Jail SessionStore Events Interact Worktree.

(** ** Data *)

Record McpEntry := {
  mc_backend : rstr; mc_name : rstr; mc_transport : rstr; mc_command : option rstr; mc_url : option rstr; mc_env_keys : list rstr;
  mc_source : rstr; mc_format : rstr; mc_version : rstr; mc_enabled : option bool; mc_readonly : option rstr
}.

Definition entry_json (e : McpEntry) : json := mk_obj
  ([field "backend" (JStr (mc_backend e)); field "name" (JStr (mc_name e)); field "transport" (JStr (mc_transport e));
    field "source" (JStr (mc_source e)); field "format" (JStr (mc_format e)); field "version" (JStr (mc_version e))] ++
   opt_field "command" (JStr <$> mc_command e) ++ opt_field "url" (JStr <$> mc_url e) ++
   (if is_empty (mc_env_keys e) then [] else [field "envKeys" (JArr (map JStr (mc_env_keys e)))]) ++
   opt_field "enabled" (JBool <$> mc_enabled e) ++ opt_field "readonlyReason" (JStr <$> mc_readonly e)).

Record SourceReport := { so_backend : rstr; so_source : rstr; so_format : rstr; so_error : option rstr }.

Definition report_json (s : SourceReport) : json := mk_obj
  [field "backend" (JStr (so_backend s)); field "source" (JStr (so_source s)); field "format" (JStr (so_format s));
   field "error" (Events.opt_json JStr (so_error s))].

(** ** Redaction *)

Definition redact_command (program : rstr) (args_len : nat) : rstr :=
  if args_len =? 0 then program else program ++ str " <" ++ dec (N.of_nat args_len) ++ str " args redacted>".

(** [str::split_once] on a text. *)
Definition split_at_str (sep s : rstr) : option (rstr * rstr) :=
  (fun i => (take i s, drop (i + length sep) s)) <$> find_str sep s.

Definition scheme_char (c : rchar) : bool := is_ascii_alphanumeric c || existsb (N.eqb c) (str "+-.").

(** The part behind the last [@], if there is one. *)
Fixpoint after_at (s : rstr) : option rstr :=
  match s with
  | [] => None
  | c :: s => match after_at s with Some t => Some t | None => if N.eqb c 64 then Some s else None end
  end.

(** The part before the first [?] or [#]. *)
Fixpoint before_query (s : rstr) : rstr :=
  match s with [] => [] | c :: s => if N.eqb c 63 || N.eqb c 35 then [] else c :: before_query s end.

Definition redact_url (url : rstr) : option rstr :=
  match split_at_str (str "://") url with
  | None => None
  | Some (scheme, rest) =>
      if is_empty scheme || negb (forallb scheme_char scheme) then None
      else
        let slash := default (length rest) (find_char 47%N rest) in
        let authority := take slash rest in
        let authority := match after_at authority with Some host => str "***@" ++ host | None => authority end in
        Some (scheme ++ str "://" ++ authority ++ before_query (drop slash rest))
  end.

(** ** Sources *)

Inductive Format := ClaudeJson | CodexToml | QwenJson | OpencodeJson | DroidJson.

Definition format_str (f : Format) : rstr :=
  match f with
  | ClaudeJson => str "claude-json"
  | CodexToml => str "codex-toml"
  | QwenJson => str "qwen-json"
  | OpencodeJson => str "opencode-json"
  | DroidJson => str "droid-json"
  end.

(** The home directory, empty when there is none, and the variables read. *)
Record env := { en_home : rstr; en_claude : option rstr; en_codex : option rstr; en_xdg : option rstr; en_factory : option rstr }.

Definition set_dir (o : option rstr) : option rstr := match o with Some d => if is_empty d then None else Some d | None => None end.

Definition sources_for (e : env) (backend : rstr) : list (rstr * Format) :=
  let home := en_home e in
  if str_eqb backend (str "claude") then
    [(match set_dir (en_claude e) with Some d => join_path d (str ".claude.json") | None => join_path home (str ".claude.json") end, ClaudeJson)]
  else if str_eqb backend (str "codex") then
    [(match set_dir (en_codex e) with
      | Some d => join_path d (str "config.toml")
      | None => join_path (join_path home (str ".codex")) (str "config.toml")
      end, CodexToml)]
  else if str_eqb backend (str "qwen") then [(join_path (join_path home (str ".qwen")) (str "settings.json"), QwenJson)]
  else if str_eqb backend (str "opencode") then
    [(join_path (join_path (default (join_path home (str ".config")) (set_dir (en_xdg e))) (str "opencode")) (str "opencode.json"), OpencodeJson)]
  else if str_eqb backend (str "droid") then
    [(join_path (join_path (default home (set_dir (en_factory e))) (str ".factory")) (str "mcp.json"), DroidJson)]
  else [].

Definition inventoried_backends : list rstr := [str "claude"; str "codex"; str "qwen"; str "opencode"; str "droid"].

(** ** Servers *)

Record RawServer := {
  rs_name : rstr; rs_transport : rstr; rs_command : option rstr; rs_args : list rstr; rs_env_keys : list rstr;
  rs_env : list (rstr * json); rs_url : option rstr; rs_raw : json; rs_enabled : option bool; rs_source : rstr; rs_format : Format
}.

Definition with_enabled (x : option bool) (s : RawServer) : RawServer := {|
  rs_name := rs_name s; rs_transport := rs_transport s; rs_command := rs_command s; rs_args := rs_args s; rs_env_keys := rs_env_keys s;
  rs_env := rs_env s; rs_url := rs_url s; rs_raw := rs_raw s; rs_enabled := x; rs_source := rs_source s; rs_format := rs_format s |}.

Definition with_raw (x : json) (s : RawServer) : RawServer := {|
  rs_name := rs_name s; rs_transport := rs_transport s; rs_command := rs_command s; rs_args := rs_args s; rs_env_keys := rs_env_keys s;
  rs_env := rs_env s; rs_url := rs_url s; rs_raw := x; rs_enabled := rs_enabled s; rs_source := rs_source s; rs_format := rs_format s |}.

Definition transport_of (entry : json) : rstr :=
  let has k := bool_decide (is_Some (get entry (str k))) in
  let guess := if has "url"%string then str "http" else if has "command"%string then str "stdio" else str "unknown" in
  match as_str entry.["type"] with
  | Some t =>
      if str_eqb t (str "http") || str_eqb t (str "streamable-http") then str "http"
      else if str_eqb t (str "sse") then str "sse"
      else if str_eqb t (str "local") || str_eqb t (str "stdio") then str "stdio" else guess
  | None => guess
  end.

Definition string_args (entry : json) : list rstr := default [] (omap (M:=list) as_str <$> as_array entry.["args"]).

(** A server of a JSON format; its environment has two spellings. *)
Definition raw_server (path : rstr) (format : Format) (name : rstr) (entry : json) : RawServer :=
  let vars := default [] (or_else (as_object entry.["env"]) (as_object entry.["environment"])) in
  {| rs_name := name; rs_transport := transport_of entry; rs_command := as_str entry.["command"]; rs_args := string_args entry;
     rs_env_keys := vars.*1; rs_env := vars; rs_url := or_else (as_str entry.["url"]) (as_str entry.["httpUrl"]);
     rs_raw := entry; rs_enabled := or_else (as_bool entry.["enabled"]) (Some true); rs_source := path; rs_format := format |}.

Definition parse_json_entries (path : rstr) (format : Format) (servers : list (rstr * json)) : list RawServer :=
  map (fun '(name, entry) => raw_server path format name entry) servers.

Definition empty_or_map (v : json) : list (rstr * json) := default [] (as_object v).

(** A TOML document; a float is [None] when it is not finite, a date its text. *)
Inductive toml :=
| TStr (s : rstr)
| TInt (z : Z)
| TFloat (f : option (Z * Z))
| TBool (b : bool)
| TArr (l : list toml)
| TTable (kvs : list (rstr * toml))
| TDate (s : rstr).

Fixpoint toml_to_json (v : toml) : json :=
  match v with
  | TStr s => JStr s
  | TInt z => jint z
  | TFloat (Some (m, e)) => JNum (NFloat m e)
  | TFloat None => JNull
  | TBool b => JBool b
  | TArr l => JArr (map toml_to_json l)
  | TTable kvs => JObj (map (fun '(k, v) => (k, toml_to_json v)) kvs)
  | TDate s => JStr s
  end.

Definition toml_get (k : string) (v : toml) : option toml := match v with TTable kvs => assoc (str k) kvs | _ => None end.
Definition toml_table (v : toml) : option (list (rstr * toml)) := match v with TTable kvs => Some kvs | _ => None end.
Definition toml_bool (v : toml) : option bool := match v with TBool b => Some b | _ => None end.

Definition codex_server (path name : rstr) (entry : toml) : RawServer :=
  let e := toml_to_json entry in
  let vars := default [] (as_object e.["env"]) in
  {| rs_name := name; rs_transport := transport_of e; rs_command := as_str e.["command"]; rs_args := string_args e;
     rs_env_keys := vars.*1; rs_env := vars; rs_url := as_str e.["url"]; rs_raw := e;
     rs_enabled := or_else (toml_get "enabled" entry ≫= toml_bool) (Some true); rs_source := path; rs_format := CodexToml |}.

(** [v["k"] = x]: a value that is neither an object nor [null] panics. *)
Definition put (v : json) (k : rstr) (x : json) : option json :=
  match v with JObj kvs => Some (JObj (assoc_insert k x kvs)) | JNull => Some (JObj [(k, x)]) | _ => None end.

Definition lists_name (name : rstr) (v : option json) : bool :=
  match v ≫= as_array with Some a => existsb (fun n => bool_decide (as_str n = Some name)) a | None => false end.

Definition disabled_in (body : json) (name : rstr) : bool :=
  existsb (fun k => lists_name name (get body (str k))) ["disabledMcpServers"; "disabledMcpjsonServers"]%string.

(** The servers of a project; [None] is a panic. *)
Definition project_servers (path project : rstr) (body : json) : option (list RawServer) :=
  mapM (fun srv => (fun raw => with_raw raw (with_enabled (Some (negb (disabled_in body (rs_name srv)))) srv)) <$>
                   put (rs_raw srv) (str "project") (JStr project))
    (parse_json_entries path ClaudeJson (empty_or_map body.["mcpServers"])).

Definition claude_servers (path : rstr) (v : json) : option (list RawServer) :=
  let out := parse_json_entries path ClaudeJson (empty_or_map v.["mcpServers"]) in
  match as_object v.["projects"] with
  | None => Some out
  | Some projects =>
      let global srv :=
        if bool_decide (rs_enabled srv = Some true) && existsb (fun p => disabled_in p.2 (rs_name srv)) projects
        then with_enabled (Some false) srv else srv in
      (fun scoped => map global out ++ concat scoped) <$> mapM (fun p => project_servers path p.1 p.2) projects
  end.

(** ** The library and the machine *)

Section Inventory.
Context `{JT : JsonText}.
(** Why a text is not JSON; TOML text and why it is none; a path in quotes; the
    hasher's digest of a text, a name and a flag. *)
Variables (json_error : rstr -> rstr) (toml_from_str : rstr -> result toml rstr) (debug : rstr -> rstr).
Variable hash : rstr -> rstr -> option bool -> rstr.

(** [None] is a panic of the parser, an error its message. *)
Definition parse_source (read : rstr -> result rstr rstr) (path : rstr) (format : Format) : option (result (list RawServer) rstr) :=
  match read path with
  | Err e => Some (Err (str "cannot read " ++ path ++ str ": " ++ e))
  | Ok text =>
      let json_text context k :=
        match from_str text with Some v => k v | None => Some (Err (context ++ str ": " ++ json_error text)) end in
      match format with
      | ClaudeJson => json_text (str "claude.json is not valid JSON") (fun v => Ok <$> claude_servers path v)
      | CodexToml =>
          match toml_from_str text with
          | Err e => Some (Err (str "codex config.toml is not valid TOML: " ++ e))
          | Ok v =>
              let servers := default [] (toml_get "mcp_servers" v ≫= toml_table) in
              Some (Ok (map (fun '(name, entry) => codex_server path name entry) servers))
          end
      | QwenJson | DroidJson =>
          json_text (debug path ++ str " is not valid JSON") (fun v => Some (Ok (parse_json_entries path format (empty_or_map v.["mcpServers"]))))
      | OpencodeJson =>
          json_text (str "opencode.json is not valid JSON") (fun v => Some (Ok (parse_json_entries path format (empty_or_map v.["mcp"]))))
      end
  end.

(** The wire view. *)
Definition to_entry (backend : rstr) (readonly : option rstr) (s : RawServer) : McpEntry := {|
  mc_backend := backend; mc_name := rs_name s; mc_transport := rs_transport s;
  mc_command := (fun c => redact_command c (length (rs_args s))) <$> rs_command s;
  mc_url := rs_url s ≫= redact_url; mc_env_keys := rs_env_keys s; mc_source := rs_source s; mc_format := format_str (rs_format s);
  mc_version := hash (to_string (rs_raw s)) (rs_name s) (rs_enabled s); mc_enabled := rs_enabled s; mc_readonly := readonly |}.

Definition readonly_reason (backend : rstr) : option rstr :=
  if str_eqb backend (str "claude") then None
  else Some (backend ++ str " has no verified config toggle — agents own their config; edit its native MCP config directly").

Definition inventory_source (read : rstr -> result rstr rstr) (backend : rstr) (source : rstr * Format) : option (list McpEntry * SourceReport) :=
  let '(path, format) := source in
  let report error := {| so_backend := backend; so_source := path; so_format := format_str format; so_error := error |} in
  (fun parsed => match parsed with
                 | Ok servers => (map (to_entry backend (readonly_reason backend)) servers, report None)
                 | Err e => ([], report (Some e))
                 end) <$> parse_source read path format.

(** [None]: the reading of a source panicked, and the whole call fails. *)
Definition inventory (e : env) (read : rstr -> result rstr rstr) : option (list McpEntry * list SourceReport) :=
  (fun parts => (concat parts.*1, parts.*2)) <$>
  mapM (fun p => inventory_source read p.1 p.2) (b ← inventoried_backends; pair b <$> sources_for e b).

Fixpoint find_server (name : rstr) (read : rstr -> result rstr rstr) (sources : list (rstr * Format)) : option (option RawServer) :=
  match sources with
  | [] => Some None
  | (path, format) :: sources =>
      match parse_source read path format with
      | None => None
      | Some parsed =>
          match find (fun s => str_eqb (rs_name s) name) (match parsed with Ok l => l | Err _ => [] end) with
          | Some s => Some (Some s)
          | None => find_server name read sources
          end
      end
  end.

Definition find_raw_server (e : env) (read : rstr -> result rstr rstr) (backend name : rstr) : option (option RawServer) :=
  find_server name read (sources_for e backend).

(** ** The switch of claude's file *)

Inductive SetEnabledError := Readonly | MissingConfig | ParseFailed | UnknownServer | Conflict | WriteFailed (path error : rstr).

Definition error_text (e : SetEnabledError) : rstr :=
  match e with
  | Readonly => str "this backend has no verified config toggle"
  | MissingConfig => str "claude config file not found"
  | ParseFailed => str "claude config does not parse — refusing to write"
  | UnknownServer => str "no such server in claude config"
  | Conflict => str "server changed since the inventory snapshot"
  | WriteFailed p e => str "atomic write failed: " ++ p ++ str " — " ++ e
  end.

Definition entry_version (raw : json) (name : rstr) (enabled : bool) : rstr := hash (to_string raw) name (Some enabled).

Definition at_key (v : json) (k : rstr) : json := default JNull (get v k).

(** The version of a server in a scope. *)
Definition version_in (name : rstr) (body srv : json) : rstr :=
  entry_version srv name (negb (lists_name name (get body (str "disabledMcpServers")))).

Fixpoint scoped_version (name : rstr) (bodies : list json) : option rstr :=
  match bodies with
  | [] => None
  | body :: bodies =>
      match get body.["mcpServers"] name with Some srv => Some (version_in name body srv) | None => scoped_version name bodies end
  end.

(** The server of the global scope first, then that of a project. *)
Definition version_of (name cwd : rstr) (doc : json) : option rstr :=
  match get doc.["mcpServers"] name with
  | Some srv => Some (version_in name (at_key doc.["projects"] cwd) srv)
  | None => as_object doc.["projects"] ≫= fun projects => scoped_version name projects.*2
  end.

(** [disabledMcpServers] of a project, with the name in it or not. *)
Definition switched (name : rstr) (enabled : bool) (project : json) : json :=
  let list := default [] (as_array project.["disabledMcpServers"]) in
  JArr (List.filter (fun n => negb (bool_decide (as_str n = Some name))) list ++ (if enabled then [] else [JStr name])).

(** What becomes of the document; [None] is a panic. *)
Definition toggle (name : rstr) (enabled : bool) (expected cwd : rstr) (doc : json) : option (result json SetEnabledError) :=
  match (match get doc (str "mcpServers") with Some _ => Some doc | None => put doc (str "mcpServers") JNull end) with
  | None => None
  | Some doc =>
      Some match version_of name cwd doc with
           | None => Err UnknownServer
           | Some v =>
               if negb (str_eqb v expected) then Err Conflict
               else
                 let projects := default [] (as_object doc.["projects"]) in
                 let project := default (JObj []) (assoc cwd projects) in
                 match as_object project with
                 | None => Err ParseFailed
                 | Some fields =>
                     let project := JObj (assoc_insert (str "disabledMcpServers") (switched name enabled project) fields) in
                     ok_or (put doc (str "projects") (JObj (assoc_insert cwd project projects))) ParseFailed
                 end
           end
  end.

(** The file and its temporary; [broken] is the step of the replacement that
    fails, if one does, and why. *)
Record config_file := { cf_text : option rstr; cf_tmp : option rstr }.

Inductive write_step := WCreate | WWrite | WRename.

Definition replace_file (path new : rstr) (broken : option (write_step * rstr)) (f : config_file) : config_file * result unit SetEnabledError :=
  match broken with
  | None => ({| cf_text := Some new; cf_tmp := None |}, Ok tt)
  | Some (WCreate, e) => (f, Err (WriteFailed path e))
  | Some (WWrite, e) => ({| cf_text := cf_text f; cf_tmp := Some [] |}, Err (WriteFailed path e))
  | Some (WRename, e) => ({| cf_text := cf_text f; cf_tmp := Some new |}, Err (WriteFailed path e))
  end.

(** [None] is a panic, which leaves the file as it is. *)
Definition set_enabled_blocking (e : env) (name : rstr) (enabled : bool) (expected cwd : rstr) (broken : option (write_step * rstr))
    (f : config_file) : config_file * option (result unit SetEnabledError) :=
  match sources_for e (str "claude") with
  | [] => (f, Some (Err Readonly))
  | (path, _) :: _ =>
      match cf_text f with
      | None => (f, Some (Err MissingConfig))
      | Some text =>
          match from_str text with
          | None => (f, Some (Err ParseFailed))
          | Some doc =>
              match toggle name enabled expected cwd doc with
              | None => (f, None)
              | Some (Err err) => (f, Some (Err err))
              | Some (Ok doc) => let '(f, r) := replace_file path (to_string_pretty doc) broken f in (f, Some r)
              end
          end
      end
  end.

Definition entry_version_for (name cwd : rstr) (f : config_file) : result (option rstr) SetEnabledError :=
  match cf_text f with
  | None => Err MissingConfig
  | Some text => match from_str text with None => Err ParseFailed | Some doc => Ok (version_of name cwd doc) end
  end.

(** ** Calls ([rpc.rs]) *)

Record RpcError := { er_code : Z; er_message : rstr }.

Definition INVALID_PARAMS : Z := -32602.
Definition INTERNAL_ERROR : Z := -32000.
Definition MCP_CONFLICT : Z := -32010.

Definition req_str (params : json) (k : string) : result rstr RpcError :=
  ok_or (as_str params.[k]) {| er_code := INVALID_PARAMS; er_message := str k ++ str " required" |}.

Definition mcp_inventory (e : env) (read : rstr -> result rstr rstr) : result json RpcError :=
  match inventory e read with
  | None => Err {| er_code := INTERNAL_ERROR; er_message := str "inventory read join failed" |}
  | Some (entries, sources) =>
      Ok (mk_obj [field "entries" (JArr (map entry_json entries)); field "sources" (JArr (map report_json sources))])
  end.

(** [here] is the daemon's directory. *)
Definition mcp_set_enabled (e : env) (here : rstr) (params : json) (broken : option (write_step * rstr)) (f : config_file) :
    config_file * result json RpcError :=
  match (let? backend := req_str params "backend" in let? name := req_str params "name" in
         let? enabled := ok_or (as_bool params.["enabled"]) {| er_code := INVALID_PARAMS; er_message := str "enabled must be a boolean" |} in
         let? expected := req_str params "expectedVersion" in
         if negb (str_eqb backend (str "claude")) then
           Err {| er_code := INVALID_PARAMS; er_message := default (str "no verified config toggle") (readonly_reason backend) |}
         else Ok (name, enabled, expected)) with
  | Err e => (f, Err e)
  | Ok (name, enabled, expected) =>
      let '(f, outcome) := set_enabled_blocking e name enabled expected (default here (as_str params.["cwd"])) broken f in
      (f, match outcome with
          | None => Err {| er_code := INTERNAL_ERROR; er_message := str "mcp setEnabled join failed" |}
          | Some (Ok _) => Ok (mk_obj [field "set" (JBool true)])
          | Some (Err Conflict) =>
              Err {| er_code := MCP_CONFLICT; er_message := str "server changed since the inventory snapshot — refetch mcp.inventory" |}
          | Some (Err err) => Err {| er_code := INVALID_PARAMS; er_message := error_text err |}
          end)
  end.
End Inventory.
