(* ===== verification/McpFacts.v ===== *)
(** * McpFacts: what leaves of the MCP configuration, and what its switch changes

    Redacted URLs, inventories of configurations that differ in their secrets, and
    the switch of claude's file as a compare and set. *)

From S2P Require Import Prelude Str Json Jail SessionStore Events Interact Worktree McpConfig.

(** ** URLs *)

Lemma find_scheme s rest : forallb scheme_char s = true -> find_str (str "://") (s ++ str "://" ++ rest) = Some (length s).
Proof.
  induction s as [|c s IH]; intros Hs; [exact (find_str_here (str "://") rest)|]. cbn [forallb] in Hs. apply andb_true_iff in Hs as [Hc Hs].
  cbn [app find_str]. rewrite (IH Hs).
  assert (starts_with (str "://") (c :: s ++ str "://" ++ rest) = false) as ->; [|done].
  change (str "://") with [58%N; 47%N; 47%N]. cbn [starts_with]. destruct (N.eqb_spec 58 c) as [<-|]; [discriminate Hc|done].
Qed.

Lemma after_at_none s : 64%N ∉ s -> after_at s = None.
Proof.
  induction s as [|c s IH]; [done|]. intros [Hc Hs]%not_elem_of_cons. cbn. rewrite (IH Hs).
  by destruct (N.eqb_spec c 64) as [->|].
Qed.

Lemma after_at_last u s : 64%N ∉ s -> after_at (u ++ 64%N :: s) = Some s.
Proof.
  intros Hs. induction u as [|c u IH]; cbn; [by rewrite (after_at_none s Hs)|]. by rewrite IH.
Qed.

Lemma before_query_all p rest : 63%N ∉ p -> 35%N ∉ p -> rest = [] \/ head rest = Some 63%N \/ head rest = Some 35%N ->
  before_query (p ++ rest) = p.
Proof.
  intros Hq Hf Hr. induction p as [|c p IH].
  - destruct rest as [|c rest]; [done|]. cbn. by destruct Hr as [|[[= ->]|[= ->]]].
  - apply not_elem_of_cons in Hq as [Hq Hq2], Hf as [Hf Hf2]. cbn. rewrite (IH Hq2 Hf2).
    destruct (N.eqb_spec c 63), (N.eqb_spec c 35); [congruence..|done].
Qed.

Definition userinfo (user : option rstr) : rstr := match user with Some u => u ++ str "@" | None => [] end.

(** A URL with a path loses its user, its query and its fragment, whatever they
    are, and nothing else. *)
Theorem redact_url_hides (scheme : rstr) (user : option rstr) (host path rest : rstr) :
  scheme <> [] -> forallb scheme_char scheme = true -> (forall u, user = Some u -> 47%N ∉ u) -> 47%N ∉ host -> 64%N ∉ host ->
  head path = Some 47%N -> 63%N ∉ path -> 35%N ∉ path -> rest = [] \/ head rest = Some 63%N \/ head rest = Some 35%N ->
  redact_url (scheme ++ str "://" ++ userinfo user ++ host ++ path ++ rest) =
  Some (scheme ++ str "://" ++ userinfo ((fun _ => str "***") <$> user) ++ host ++ path).
Proof.
  intros Hne Hs Hu Hh Hat Hp Hq Hf Hr. destruct path as [|c path]; [discriminate Hp|]. injection Hp as ->.
  set (auth := userinfo user ++ host).
  assert (find_char 47 (auth ++ 47%N :: path ++ rest) = Some (length auth)) as Hslash.
  { apply find_index_app; [|done]. intros x Hx. apply N.eqb_neq. intros <-. subst auth.
    apply elem_of_app in Hx as [Hx|Hx]; [|done]. destruct user as [u|]; cbn in Hx; [|by apply elem_of_nil in Hx].
    apply elem_of_app in Hx as [Hx|Hx]; [by apply (Hu u)|]. by apply list_elem_of_singleton in Hx. }
  replace (userinfo user ++ host ++ (47%N :: path) ++ rest) with (auth ++ 47%N :: path ++ rest) by (by subst auth; rewrite <-!app_assoc).
  unfold redact_url, split_at_str. rewrite (find_scheme _ _ Hs). cbn [fmap option_fmap option_map]. rewrite take_app_length.
  replace (drop (length scheme + length (str "://")) (scheme ++ str "://" ++ auth ++ 47%N :: path ++ rest))
    with (auth ++ 47%N :: path ++ rest) by (by rewrite <-drop_drop, !drop_app_length).
  destruct scheme as [|s0 scheme]; [done|]. rewrite Hs. cbn [is_empty negb orb]. cbn iota.
  rewrite Hslash. cbn [from_option id]. rewrite take_app_length, drop_app_length.
  change (47%N :: path ++ rest) with ((47%N :: path) ++ rest). rewrite before_query_all by done.
  assert (match after_at auth with Some host => str "***@" ++ host | None => auth end = userinfo ((fun _ => str "***") <$> user) ++ host) as ->.
  { subst auth. destruct user as [u|]; cbn [userinfo].
    - rewrite <-app_assoc. change (str "@" ++ host) with (64%N :: host). by rewrite after_at_last.
    - by rewrite after_at_none. }
  f_equal. by rewrite <-!app_assoc.
Qed.

(** A URL without a path loses its user. *)
Lemma redact_url_user (scheme : rstr) (user : option rstr) (host : rstr) :
  scheme <> [] -> forallb scheme_char scheme = true -> (forall u, user = Some u -> 47%N ∉ u) -> 47%N ∉ host -> 64%N ∉ host ->
  redact_url (scheme ++ str "://" ++ userinfo user ++ host) =
  Some (scheme ++ str "://" ++ userinfo ((fun _ => str "***") <$> user) ++ host).
Proof.
  intros Hne Hs Hu Hh Hat. set (auth := userinfo user ++ host).
  assert (find_char 47 auth = None) as Hslash.
  { unfold find_char. destruct (find_index _ auth) as [i|] eqn:E; [|done].
    apply find_index_Some in E as (x & Hx & Hc & _). apply N.eqb_eq in Hc as <-. exfalso.
    apply list_elem_of_lookup_2 in Hx. subst auth. apply elem_of_app in Hx as [Hx|Hx]; [|done].
    destruct user as [u|]; cbn in Hx; [|by apply elem_of_nil in Hx].
    apply elem_of_app in Hx as [Hx|Hx]; [by apply (Hu u)|]. by apply list_elem_of_singleton in Hx. }
  unfold redact_url, split_at_str. rewrite (find_scheme _ _ Hs). cbn [fmap option_fmap option_map]. rewrite take_app_length.
  replace (drop (length scheme + length (str "://")) (scheme ++ str "://" ++ auth)) with auth
    by (by rewrite <-drop_drop, !drop_app_length).
  destruct scheme as [|s0 scheme]; [done|]. rewrite Hs. cbn [is_empty negb orb]. cbn iota.
  rewrite Hslash. cbn [from_option id]. rewrite take_ge, drop_ge by lia. cbn [before_query]. rewrite app_nil_r.
  assert (match after_at auth with Some host => str "***@" ++ host | None => auth end = userinfo ((fun _ => str "***") <$> user) ++ host) as ->.
  { subst auth. destruct user as [u|]; cbn [userinfo].
    - rewrite <-app_assoc. change (str "@" ++ host) with (64%N :: host). by rewrite after_at_last.
    - by rewrite after_at_none. }
  done.
Qed.

Lemma find_str_split p s i : find_str p s = Some i -> exists r, s = take i s ++ p ++ r.
Proof.
  revert i; induction s as [|c s IH]; intros i; cbn [find_str].
  - destruct (starts_with p []) eqn:E; [|done]. intros [= <-]. apply starts_with_spec in E as [r ->]. by exists r.
  - destruct (starts_with p (c :: s)) eqn:E.
    + intros [= <-]. apply starts_with_spec in E as [r Hr]. by exists r.
    + destruct (find_str p s) as [j|]; [|done]. intros [= <-]. destruct (IH j eq_refl) as [r Hr]. exists r. cbn. by f_equal.
Qed.

(** A text that is no URL. *)
Definition not_url (a : rstr) : Prop :=
  forall scheme rest, a = scheme ++ str "://" ++ rest -> scheme = [] \/ forallb scheme_char scheme = false.

Lemma redact_not_url a : not_url a -> redact_url a = None.
Proof.
  intros Ha. unfold redact_url, split_at_str. destruct (find_str (str "://") a) as [i|] eqn:E; [|done]. cbn.
  destruct (find_str_split _ _ _ E) as (r & Hr). destruct (Ha (take i a) r Hr) as [->| ->]; [done|].
  by rewrite orb_true_r.
Qed.

(** Without a path the query stays. *)
Theorem query_without_path_kept : redact_url (str "https://host?api-key=kfj3") = Some (str "https://host?api-key=kfj3").
Proof. reflexivity. Qed.

(** ** Configurations that differ in their secrets *)

(** Values of like number of texts, with like names, or with a like view. *)
Definition same_strings (a b : json) : Prop :=
  length (omap (M:=list) as_str (default [] (as_array a))) = length (omap (M:=list) as_str (default [] (as_array b))).
Definition same_names (a b : json) : Prop := (fun m => m.*1) <$> as_object a = (fun m => m.*1) <$> as_object b.

(** URLs that differ in their secrets: the user, and what begins with [?] or [#]
    behind a path.  The part behind the host of a URL without a path is no secret
    here, since it is shown. *)
Inductive url_alike : rstr -> rstr -> Prop :=
| ua_same u : url_alike u u
| ua_not_urls a b : not_url a -> not_url b -> url_alike a b
| ua_secrets scheme u1 u2 host path q1 q2 :
    scheme <> [] -> forallb scheme_char scheme = true -> (is_Some u1 <-> is_Some u2) ->
    (forall u, u1 = Some u \/ u2 = Some u -> 47%N ∉ u) -> 47%N ∉ host -> 64%N ∉ host ->
    (path = [] /\ q1 = [] /\ q2 = [] \/
     head path = Some 47%N /\ 63%N ∉ path /\ 35%N ∉ path /\
     forall q, q = q1 \/ q = q2 -> q = [] \/ head q = Some 63%N \/ head q = Some 35%N) ->
    url_alike (scheme ++ str "://" ++ userinfo u1 ++ host ++ path ++ q1)
              (scheme ++ str "://" ++ userinfo u2 ++ host ++ path ++ q2).

Lemma url_alike_shown a b : url_alike a b -> redact_url a = redact_url b.
Proof.
  intros [u|c d Hc Hd|scheme u1 u2 host path q1 q2 Hne Hs Huu Hu Hh Hat Hp]; [done|by rewrite !redact_not_url|].
  assert ((fun _ : rstr => str "***") <$> u1 = (fun _ => str "***") <$> u2) as Hst.
  { destruct u1, u2; try done; [by destruct (proj1 Huu ltac:(by eexists))|by destruct (proj2 Huu ltac:(by eexists))]. }
  destruct Hp as [(-> & -> & ->)|(Hpath & Hq & Hf & Hr)].
  - rewrite !app_nil_r, !redact_url_user by auto. by rewrite Hst.
  - rewrite !redact_url_hides by auto. by rewrite Hst.
Qed.

Definition same_url (a b : json) : Prop := option_Forall2 url_alike (as_str a) (as_str b).

(** Values a key can be set in. *)
Definition settable (v : json) : bool := match v with JObj _ | JNull => true | _ => false end.

Lemma put_settable v k x : match put v k x with Some v' => settable v = true /\ settable v' = true | None => settable v = false end.
Proof. by destruct v. Qed.

(** Entries alike: they may differ in the values of the environment, in the
    arguments but for their number, in what a URL is shown without, and in
    everything under a key that is not named here. *)
Record like_entry (a b : json) : Prop := {
  le_type : a.["type"] = b.["type"];
  le_command : get a (str "command") = get b (str "command");
  le_enabled : a.["enabled"] = b.["enabled"];
  le_args : same_strings a.["args"] b.["args"];
  le_env : same_names a.["env"] b.["env"];
  le_environment : same_names a.["environment"] b.["environment"];
  le_url : same_url a.["url"] b.["url"];
  le_has_url : is_Some (get a (str "url")) <-> is_Some (get b (str "url"));
  le_http_url : same_url a.["httpUrl"] b.["httpUrl"];
  le_object : settable a = settable b
}.

(** Lists with the same keys and like values. *)
Definition like_under {A} (R : A -> A -> Prop) (l1 l2 : list (rstr * A)) : Prop := Forall2 (fun p q => p.1 = q.1 /\ R p.2 q.2) l1 l2.

Definition like_servers (a b : json) : Prop := like_under like_entry (empty_or_map a) (empty_or_map b).

(** Projects: like servers, the same names switched off. *)
Definition like_project (a b : json) : Prop :=
  like_servers a.["mcpServers"] b.["mcpServers"] /\ forall name, disabled_in a name = disabled_in b name.

Definition like_claude (a b : json) : Prop :=
  like_servers a.["mcpServers"] b.["mcpServers"] /\
  match as_object a.["projects"], as_object b.["projects"] with
  | Some p1, Some p2 => like_under like_project p1 p2
  | p1, p2 => p1 = p2
  end.

Definition codex_tables (v : toml) : list (rstr * toml) := default [] (toml_get "mcp_servers" v ≫= toml_table).

Section Alike.
Context `{JT : JsonText}.
Variables (json_error : rstr -> rstr) (toml_from_str : rstr -> result toml rstr) (debug : rstr -> rstr).
Variable hash : rstr -> rstr -> option bool -> rstr.

(** Files read alike: the same text or the same failure, or texts of like
    documents. *)
Definition like_file (format : Format) (r1 r2 : result rstr rstr) : Prop :=
  r1 = r2 \/
  exists t1 t2, r1 = Ok t1 /\ r2 = Ok t2 /\
    match format with
    | CodexToml =>
        exists v1 v2, toml_from_str t1 = Ok v1 /\ toml_from_str t2 = Ok v2 /\
          like_under (fun x y => like_entry (toml_to_json x) (toml_to_json y)) (codex_tables v1) (codex_tables v2)
    | _ =>
        exists v1 v2, from_str t1 = Some v1 /\ from_str t2 = Some v2 /\
          match format with
          | ClaudeJson => like_claude v1 v2
          | OpencodeJson => like_servers v1.["mcp"] v2.["mcp"]
          | _ => like_servers v1.["mcpServers"] v2.["mcpServers"]
          end
    end.

(** What is shown but for the versions. *)
Definition unversioned (e : McpEntry) : McpEntry := {|
  mc_backend := mc_backend e; mc_name := mc_name e; mc_transport := mc_transport e; mc_command := mc_command e; mc_url := mc_url e;
  mc_env_keys := mc_env_keys e; mc_source := mc_source e; mc_format := mc_format e; mc_version := []; mc_enabled := mc_enabled e;
  mc_readonly := mc_readonly e |}.

(** Servers shown alike. *)
Record like_server (a b : RawServer) : Prop := {
  lv_shown : forall backend reason, unversioned (to_entry hash backend reason a) = unversioned (to_entry hash backend reason b);
  lv_object : settable (rs_raw a) = settable (rs_raw b)
}.

Lemma shown_iff a b : (forall backend reason, unversioned (to_entry hash backend reason a) = unversioned (to_entry hash backend reason b)) <->
  rs_name a = rs_name b /\ rs_transport a = rs_transport b /\
  (fun c => redact_command c (length (rs_args a))) <$> rs_command a = (fun c => redact_command c (length (rs_args b))) <$> rs_command b /\
  rs_url a ≫= redact_url = rs_url b ≫= redact_url /\ rs_env_keys a = rs_env_keys b /\ rs_source a = rs_source b /\
  format_str (rs_format a) = format_str (rs_format b) /\ rs_enabled a = rs_enabled b.
Proof.
  unfold unversioned, to_entry. cbn. split.
  - intros H. specialize (H [] None). injection H. tauto.
  - intros (-> & -> & -> & -> & -> & -> & -> & ->) backend reason. done.
Qed.

(** ** Entries *)

Lemma like_transport a b : like_entry a b -> transport_of a = transport_of b.
Proof.
  intros [Ht Hc _ _ _ _ _ Hu _ _]. unfold transport_of. rewrite Ht, Hc.
  by rewrite (bool_decide_ext _ _ Hu).
Qed.

Lemma like_args a b : like_entry a b -> length (string_args a) = length (string_args b).
Proof.
  intros H. pose proof (le_args _ _ H) as Ha. unfold same_strings, string_args in *.
  destruct (as_array a.["args"]), (as_array b.["args"]); exact Ha.
Qed.

Lemma like_vars a b : like_entry a b ->
  (default [] (or_else (as_object a.["env"]) (as_object a.["environment"]))).*1 =
  (default [] (or_else (as_object b.["env"]) (as_object b.["environment"]))).*1.
Proof.
  intros H. pose proof (le_env _ _ H) as H1. pose proof (le_environment _ _ H) as H2. unfold same_names in *.
  destruct (as_object a.["env"]), (as_object b.["env"]), (as_object a.["environment"]), (as_object b.["environment"]); cbn in *; congruence.
Qed.

Lemma same_url_shown a b : same_url a b -> as_str a ≫= redact_url = as_str b ≫= redact_url.
Proof. unfold same_url. intros [x y H|]; [by apply url_alike_shown|done]. Qed.

Lemma like_urls a b : like_entry a b ->
  or_else (as_str a.["url"]) (as_str a.["httpUrl"]) ≫= redact_url = or_else (as_str b.["url"]) (as_str b.["httpUrl"]) ≫= redact_url.
Proof.
  intros H. pose proof (le_url _ _ H) as H1. pose proof (same_url_shown _ _ (le_http_url _ _ H)) as H2. unfold same_url in H1.
  destruct H1 as [x y H1|]; [by apply url_alike_shown|exact H2].
Qed.

Lemma like_raw path format name a b : like_entry a b -> like_server (raw_server path format name a) (raw_server path format name b).
Proof.
  intros H. split.
  - apply shown_iff. cbn. repeat split.
    + by apply like_transport.
    + rewrite (like_args _ _ H). unfold idx. by rewrite (le_command _ _ H).
    + by apply like_urls.
    + by apply like_vars.
    + by rewrite (le_enabled _ _ H).
  - apply (le_object _ _ H).
Qed.

Lemma like_entries path format l1 l2 : like_under like_entry l1 l2 ->
  Forall2 like_server (parse_json_entries path format l1) (parse_json_entries path format l2).
Proof.
  induction 1 as [|[n a] [n' b] l1 l2 [Hn Hab] _ IH]; [constructor|]. cbn in Hn, Hab. subst n'. constructor; [by apply like_raw|done].
Qed.

Lemma like_codex path l1 l2 : like_under (fun x y => like_entry (toml_to_json x) (toml_to_json y)) l1 l2 ->
  Forall2 like_server (map (fun '(name, entry) => codex_server path name entry) l1) (map (fun '(name, entry) => codex_server path name entry) l2).
Proof.
  assert (forall t, toml_get "enabled" t ≫= toml_bool = as_bool (toml_to_json t).["enabled"]) as Hen.
  { intros [| |[[]|]| | |kvs|]; try done. unfold idx. cbn [toml_get toml_to_json get]. induction kvs as [|[k v] kvs IH]; [done|]. cbn.
    destruct (str_eqb (str "enabled") k); [|exact IH]. destruct v as [| |[[]|]| | | |]; done. }
  induction 1 as [|[n a] [n' b] l1 l2 [Hn Hab] _ IH]; [constructor|]. cbn in Hn, Hab. subst n'. constructor; [|done].
  split.
  - apply shown_iff. cbn. repeat split.
    + by apply like_transport.
    + rewrite (like_args _ _ Hab). unfold idx. by rewrite (le_command _ _ Hab).
    + exact (same_url_shown _ _ (le_url _ _ Hab)).
    + pose proof (le_env _ _ Hab) as He. unfold same_names in He.
      destruct (as_object (toml_to_json a).["env"]), (as_object (toml_to_json b).["env"]); cbn in *; congruence.
    + by rewrite !Hen, (le_enabled _ _ Hab).
  - apply (le_object _ _ Hab).
Qed.

Lemma like_enabled x a b : like_server a b -> like_server (with_enabled x a) (with_enabled x b).
Proof. intros [Hs Ho]. split; [|exact Ho]. rewrite shown_iff in *. cbn. tauto. Qed.

(** ** Documents *)

Lemma like_project_servers path project b1 b2 : like_project b1 b2 ->
  option_Forall2 (Forall2 like_server) (project_servers path project b1) (project_servers path project b2).
Proof.
  intros [Hs Hd]. unfold project_servers. pose proof (like_entries path ClaudeJson _ _ Hs) as Hl.
  induction Hl as [|s1 s2 l1 l2 H12 _ IH]; [by constructor; constructor|]. cbn [mapM].
  assert (rs_name s1 = rs_name s2) as Hn by (apply shown_iff, H12).
  rewrite Hn, Hd. pose proof (lv_object _ _ H12) as Ho.
  pose proof (put_settable (rs_raw s1) (str "project") (JStr project)) as P1.
  pose proof (put_settable (rs_raw s2) (str "project") (JStr project)) as P2.
  destruct (put (rs_raw s1) _ _) as [r1|], (put (rs_raw s2) _ _) as [r2|]; [|destruct P1; congruence|destruct P2; congruence|constructor].
  destruct IH as [x y IH|]; cbn [fmap option_fmap option_map mbind option_bind]; constructor. constructor; [|done].
  split; [|cbn; destruct P1, P2; congruence].
  pose proof (lv_shown _ _ (like_enabled (Some (negb (disabled_in b2 (rs_name s2)))) _ _ H12)) as H. rewrite shown_iff in *. exact H.
Qed.

Lemma like_claude_servers path v1 v2 : like_claude v1 v2 -> option_Forall2 (Forall2 like_server) (claude_servers path v1) (claude_servers path v2).
Proof.
  intros [Hs Hp]. unfold claude_servers. pose proof (like_entries path ClaudeJson _ _ Hs) as Hl.
  destruct (as_object v1.["projects"]) as [p1|], (as_object v2.["projects"]) as [p2|]; [|done|done|by constructor].
  assert (forall name, existsb (fun p => disabled_in p.2 name) p1 = existsb (fun p => disabled_in p.2 name) p2) as Hd.
  { intros name. clear -Hp. induction Hp as [|x y p1 p2 [_ [_ H]] _ IH]; [done|]. cbn [existsb]. by rewrite H, IH. }
  assert (option_Forall2 (Forall2 (Forall2 like_server)) (mapM (fun p => project_servers path p.1 p.2) p1)
            (mapM (fun p => project_servers path p.1 p.2) p2)) as Hm.
  { clear -Hp. induction Hp as [|x y p1 p2 [Hk Hxy] _ IH]; [by constructor; constructor|]. cbn [mapM]. rewrite Hk.
    destruct (like_project_servers path y.1 _ _ Hxy); cbn [mbind option_bind]; [|constructor].
    destruct IH; cbn [mbind option_bind]; by constructor; constructor. }
  destruct Hm as [m1 m2 Hm|]; cbn [fmap option_fmap option_map]; constructor. apply Forall2_app.
  - clear -Hl Hd. induction Hl as [|s1 s2 l1 l2 H12 _ IH]; [constructor|]. cbn [map]. constructor; [|exact IH].
    pose proof (proj1 (shown_iff _ _) (lv_shown _ _ H12)) as (Hn & _ & _ & _ & _ & _ & _ & He). rewrite Hn, He, Hd.
    destruct (_ && _); [by apply like_enabled|done].
  - clear -Hm. induction Hm; [constructor|]. cbn. by apply Forall2_app.
Qed.
(** ** Sources *)

Notation parse_source := (parse_source json_error toml_from_str debug).
Notation inventory := (inventory json_error toml_from_str debug hash).

Lemma like_parse (read1 read2 : rstr -> result rstr rstr) path format : like_file format (read1 path) (read2 path) ->
  match parse_source read1 path format, parse_source read2 path format with
  | None, None => True
  | Some (Err e1), Some (Err e2) => e1 = e2
  | Some (Ok l1), Some (Ok l2) => Forall2 like_server l1 l2
  | _, _ => False
  end.
Proof.
  intros [Heq|(t1 & t2 & E1 & E2 & Hd)].
  - unfold McpConfig.parse_source. rewrite Heq. destruct (match read2 path with Ok _ => _ | Err _ => _ end) as [[l|e]|]; [|done|done].
    by apply Forall_Forall2_diag, Forall_true.
  - unfold McpConfig.parse_source. rewrite E1, E2.
    destruct format; destruct Hd as (v1 & v2 & -> & -> & Hd); try (by apply like_entries).
    + by destruct (like_claude_servers path v1 v2 Hd).
    + by apply like_codex.
Qed.

Definition shown (r : list McpEntry * list SourceReport) : list McpEntry * list SourceReport := (map unversioned r.1, r.2).

Lemma like_source (read1 read2 : rstr -> result rstr rstr) backend source : like_file source.2 (read1 source.1) (read2 source.1) ->
  (fun r => (map unversioned r.1, r.2)) <$> inventory_source json_error toml_from_str debug hash read1 backend source =
  (fun r => (map unversioned r.1, r.2)) <$> inventory_source json_error toml_from_str debug hash read2 backend source.
Proof.
  destruct source as [path format]. intros Hl%like_parse. cbn [fst snd] in Hl. revert Hl. unfold inventory_source.
  destruct (parse_source read1 path format) as [[l1|e1]|], (parse_source read2 path format) as [[l2|e2]|]; intros Hl; try by destruct Hl.
  cbn. do 2 f_equal. rewrite !map_map. induction Hl as [|s1 s2 l1 l2 H12 _ IH]; [done|]. cbn. by rewrite (lv_shown _ _ H12), IH.
Qed.

(** C29: what the inventory shows, but for the versions, does not depend on the
    secrets of the configurations: machines whose files read alike, that is fail
    alike or hold servers that differ only in environment values, in arguments
    but for their number, in the user of a URL and what follows the [?] or [#]
    behind its path, and under keys the inventory does not name, show the same
    entries and reports.  The query of a URL that has no path is not among these
    secrets: it is shown, against what is said of it ([query_without_path_kept]). *)
Theorem inventory_redacts (e : env) (read1 read2 : rstr -> result rstr rstr) :
  (forall backend path format, (path, format) ∈ sources_for e backend -> like_file format (read1 path) (read2 path)) ->
  shown <$> inventory e read1 = shown <$> inventory e read2.
Proof.
  intros Hl. unfold McpConfig.inventory. set (ps := b ← inventoried_backends; pair b <$> sources_for e b).
  assert (forall p, p ∈ ps -> like_file p.2.2 (read1 p.2.1) (read2 p.2.1)) as Hps.
  { intros p (b & ([path format] & -> & Hin)%list_elem_of_fmap & _)%list_elem_of_bind. by apply (Hl b). }
  clearbody ps. induction ps as [|p ps IH]; [done|]. cbn [mapM].
  pose proof (like_source read1 read2 p.1 p.2 (Hps p ltac:(left))) as Hp.
  specialize (IH ltac:(intros q Hq; apply Hps; by right)).
  destruct (inventory_source _ _ _ _ read1 _ _) as [[es1 r1]|], (inventory_source _ _ _ _ read2 _ _) as [[es2 r2]|]; try done.
  injection Hp as He Hr. cbn [mbind option_bind].
  destruct (mapM _ ps) as [m1|], (mapM _ ps) as [m2|]; try done. injection IH as IHe IHr. cbn in *.
  unfold shown in *. cbn in *. rewrite !map_app. congruence.
Qed.
End Alike.

(** ** The switch *)

Section Switch.
Context `{JT : JsonText}.
Variable hash : rstr -> rstr -> option bool -> rstr.

Notation version_of := (version_of hash).
Notation toggle := (toggle hash).

Definition switch_list (doc : json) (cwd : rstr) : option json := get (at_key doc.["projects"] cwd) (str "disabledMcpServers").

(** The documents differ in the name on the list of the project. *)
Record switch_only (name cwd : rstr) (enabled : bool) (doc doc' : json) : Prop := {
  sw_named : lists_name name (switch_list doc' cwd) = negb enabled;
  sw_others other : other <> name -> lists_name other (switch_list doc' cwd) = lists_name other (switch_list doc cwd);
  sw_project k : k <> str "disabledMcpServers" -> get (at_key doc'.["projects"] cwd) k = get (at_key doc.["projects"] cwd) k;
  sw_projects p : p <> cwd -> at_key doc'.["projects"] p = at_key doc.["projects"] p;
  sw_servers : doc'.["mcpServers"] = doc.["mcpServers"];
  sw_rest k : k <> str "projects" -> k <> str "mcpServers" -> get doc' k = get doc k
}.

Lemma lists_name_switched name enabled project other :
  lists_name other (Some (switched name enabled project)) =
  if decide (other = name) then negb enabled else lists_name other (get project (str "disabledMcpServers")).
Proof.
  unfold lists_name, switched, idx. cbn [mbind option_bind as_array].
  destruct (get project (str "disabledMcpServers")) as [v|]; cbn [from_option id mbind option_bind].
  2: { cbn. destruct enabled; cbn; case_decide as Hn; try done; [by rewrite bool_decide_true by congruence|by rewrite bool_decide_false by congruence]. }
  set (l := default [] (as_array v)).
  assert (existsb (fun n => bool_decide (as_str n = Some other)) (List.filter (fun n => negb (bool_decide (as_str n = Some name))) l) =
          if decide (other = name) then false else existsb (fun n => bool_decide (as_str n = Some other)) l) as Hf.
  { clearbody l. induction l as [|n l IH]; cbn; [by case_decide|]. destruct (bool_decide_reflect (as_str n = Some name)) as [Hn|Hn]; cbn; rewrite IH.
    - case_decide as Hd; [done|]. by rewrite (bool_decide_false (as_str n = Some other)) by congruence.
    - case_decide as Hd; [|done]. by rewrite (bool_decide_false (as_str n = Some other)) by congruence. }
  rewrite existsb_app, Hf. subst l. destruct enabled; cbn [existsb negb]; case_decide as Hd.
  - done.
  - rewrite orb_false_r. by destruct (as_array v).
  - by rewrite bool_decide_true by (cbn; congruence).
  - rewrite bool_decide_false by (cbn; congruence). rewrite orb_false_r. by destruct (as_array v).
Qed.

(** The document with the key the look at the servers adds. *)
Lemma version_of_put name cwd doc doc1 :
  match get doc (str "mcpServers") with Some _ => Some doc | None => put doc (str "mcpServers") JNull end = Some doc1 ->
  (forall k, k <> str "mcpServers" -> get doc1 k = get doc k) /\ doc1.["mcpServers"] = doc.["mcpServers"] /\ version_of name cwd doc1 = version_of name cwd doc /\
  exists kvs, doc1 = JObj kvs.
Proof.
  destruct (get doc (str "mcpServers")) as [v|] eqn:E; [intros [= <-]|intros Hp].
  - repeat split. destruct doc; try discriminate E. by eexists.
  - assert (forall k, k <> str "mcpServers" -> get doc1 k = get doc k) as Hk.
    { intros k Hk. destruct doc; try discriminate Hp; injection Hp as <-; cbn; [|by rewrite assoc_insert_ne].
      apply str_eqb_neq in Hk. by rewrite Hk. }
    assert (doc1.["mcpServers"] = JNull) as Hm.
    { unfold idx. destruct doc; try discriminate Hp; injection Hp as <-; cbn; [done|]. by rewrite assoc_insert_eq. }
    assert (doc.["mcpServers"] = JNull) as Hm0 by (unfold idx; by rewrite E).
    split; [done|]. split; [congruence|]. split; [|destruct doc; try discriminate Hp; injection Hp as <-; by eexists].
    unfold McpConfig.version_of. rewrite Hm, Hm0. unfold idx. by rewrite Hk.
Qed.

Lemma toggle_spec name enabled expected cwd doc doc' : toggle name enabled expected cwd doc = Some (Ok doc') ->
  version_of name cwd doc = Some expected /\ switch_only name cwd enabled doc doc' /\
  forall srv, get doc.["mcpServers"] name = Some srv -> version_of name cwd doc' = Some (entry_version hash srv name enabled).
Proof.
  unfold McpConfig.toggle. destruct (match get doc _ with Some _ => _ | None => _ end) as [doc1|] eqn:E1; [|done].
  destruct (version_of_put name cwd _ _ E1) as (Hk & Hm & Hv & kvs & ->). rewrite Hv.
  destruct (version_of name cwd doc) as [v|]; [|done]. destruct (str_eqb v expected) eqn:Ev; [|done]. apply str_eqb_eq in Ev as ->.
  cbn [negb]. set (projects := default [] (as_object (JObj kvs).["projects"])).
  set (project := default (JObj []) (assoc cwd projects)).
  destruct (as_object project) as [fields|] eqn:Ef; [|done]. cbn [put ok_or]. intros [= <-]. split; [done|].
  assert (forall p, at_key doc.["projects"] p = default JNull (assoc p projects)) as Hp.
  { intros p. unfold at_key. subst projects. unfold idx. rewrite Hk by done. by destruct (default JNull (get doc (str "projects"))). }
  assert (forall k, get (at_key doc.["projects"] cwd) k = assoc k fields) as Hproj.
  { intros k. rewrite Hp. subst project. destruct (assoc cwd projects) as [x|]; cbn in Ef |- *; [by destruct x; simplify_eq/=|by simplify_eq/=]. }
  set (project' := JObj (assoc_insert (str "disabledMcpServers") (switched name enabled project) fields)).
  set (doc' := JObj (assoc_insert (str "projects") _ kvs)).
  assert (doc'.["projects"] = JObj (assoc_insert cwd project' projects)) as Hd'.
  { unfold idx, doc'. cbn. by rewrite assoc_insert_eq. }
  assert (at_key doc'.["projects"] cwd = project') as Hc by (unfold at_key; rewrite Hd'; cbn; by rewrite assoc_insert_eq).
  assert (switch_list doc' cwd = Some (switched name enabled project)) as Hs.
  { unfold switch_list. rewrite Hc. cbn. by rewrite assoc_insert_eq. }
  assert (switch_list doc cwd = get project (str "disabledMcpServers")) as Hs0.
  { unfold switch_list. rewrite Hproj. by destruct project; simplify_eq/=. }
  assert (doc'.["mcpServers"] = doc.["mcpServers"]) as Hm'.
  { rewrite <-Hm. unfold idx, doc'. cbn. by rewrite assoc_insert_ne. }
  split; [constructor|].
  - rewrite Hs, lists_name_switched. by rewrite decide_True.
  - intros other Hne. rewrite Hs, Hs0, lists_name_switched. by rewrite decide_False.
  - intros k Hne. rewrite Hc, Hproj. cbn. by rewrite assoc_insert_ne.
  - intros p Hne. rewrite Hp, Hd'. unfold at_key. cbn. by rewrite assoc_insert_ne.
  - done.
  - intros k Hne1 Hne2. rewrite <-(Hk k) by done. cbn. by rewrite assoc_insert_ne.
  - intros srv Hsrv. unfold McpConfig.version_of. rewrite Hm', Hsrv. unfold version_in. f_equal. f_equal.
    fold (switch_list doc' cwd). rewrite Hs, lists_name_switched, decide_True by done. by destruct enabled.
Qed.
(** A project that can be written: an object, or none yet. *)
Definition writable (cwd : rstr) (doc : json) : Prop :=
  match as_object doc.["projects"] ≫= assoc cwd with Some (JObj _) | None => True | Some _ => False end.

Lemma toggle_outcome name enabled expected cwd doc : writable cwd doc -> is_Some (as_object doc) ->
  match version_of name cwd doc with
  | None => toggle name enabled expected cwd doc = Some (Err UnknownServer)
  | Some v => if decide (v = expected) then exists doc', toggle name enabled expected cwd doc = Some (Ok doc')
              else toggle name enabled expected cwd doc = Some (Err Conflict)
  end.
Proof.
  intros Hw [kvs0 Ho]. unfold McpConfig.toggle. destruct (match get doc _ with Some _ => _ | None => _ end) as [doc1|] eqn:E1.
  2: { destruct doc; simplify_eq/=. by destruct (assoc _ kvs0). }
  destruct (version_of_put name cwd _ _ E1) as (Hk & _ & -> & kvs & ->).
  destruct (version_of name cwd doc) as [v|]; [|done]. case_decide as Hv.
  2: { apply str_eqb_neq in Hv. by rewrite Hv. }
  subst v. rewrite str_eqb_refl. cbn [negb].
  assert ((JObj kvs).["projects"] = doc.["projects"]) as -> by (unfold idx; by rewrite Hk).
  unfold writable in Hw. destruct (as_object doc.["projects"]) as [projects|]; cbn in Hw |- *; [|by eexists].
  destruct (assoc cwd projects) as [[]|]; try done; by eexists.
Qed.

(** The switch of claude's file is a compare and set: a call that succeeds had
    the version the entry has now, changes just the name on the list of the
    project, and leaves the version that was promised for a global server; a call
    that does not succeed, by a wrong version, a panic or a failed write, leaves
    the file's text; and a call with the version succeeds. *)
Theorem switch_is_compare_and_set (e : env) (name : rstr) (enabled : bool) (expected cwd : rstr) (broken : option (write_step * rstr))
    (f : config_file) :
  let '(f', r) := set_enabled_blocking hash e name enabled expected cwd broken f in
  (r <> Some (Ok tt) -> cf_text f' = cf_text f) /\
  (r = Some (Ok tt) -> entry_version_for hash name cwd f = Ok (Some expected) /\
     exists text doc doc', cf_text f = Some text /\ from_str text = Some doc /\ cf_text f' = Some (to_string_pretty doc') /\
       switch_only name cwd enabled doc doc' /\
       forall srv, get doc.["mcpServers"] name = Some srv -> from_str (to_string_pretty doc') = Some doc' ->
         entry_version_for hash name cwd f' = Ok (Some (entry_version hash srv name enabled))) /\
  (forall text doc, cf_text f = Some text -> from_str text = Some doc -> is_Some (as_object doc) -> writable cwd doc ->
     broken = None -> entry_version_for hash name cwd f = Ok (Some expected) -> r = Some (Ok tt)).
Proof.
  unfold set_enabled_blocking, entry_version_for. change (sources_for e (str "claude")) with
    [(match set_dir (en_claude e) with Some d => join_path d (str ".claude.json") | None => join_path (en_home e) (str ".claude.json") end, ClaudeJson)].
  cbn iota. set (path := match set_dir _ with Some _ => _ | None => _ end). clearbody path.
  destruct (cf_text f) as [text|] eqn:Ef; [|by split_and!].
  destruct (from_str text) as [doc|] eqn:Et; [|split_and!; naive_solver].
  destruct (toggle name enabled expected cwd doc) as [[doc'|err]|] eqn:Etog.
  - destruct (toggle_spec _ _ _ _ _ _ Etog) as (Hv & Hsw & Hnext). unfold replace_file.
    destruct broken as [[[] why]|]; (split_and!; [try done|try done|try naive_solver]).
    intros _. rewrite Hv. split; [done|]. exists text, doc, doc'. split_and!; [done..|]. cbn [cf_text]. intros srv Hsrv ->. by rewrite (Hnext srv Hsrv).
  - split_and!; [done..|]. intros ? ? [= <-] Hd Hobj Hw _ [= Hv]. rewrite Et in Hd. injection Hd as <-.
    pose proof (toggle_outcome name enabled expected cwd doc Hw Hobj) as Ho. rewrite Hv, decide_True, Etog in Ho by done. by destruct Ho.
  - split_and!; [done..|]. intros ? ? [= <-] Hd Hobj Hw _ [= Hv]. rewrite Et in Hd. injection Hd as <-.
    pose proof (toggle_outcome name enabled expected cwd doc Hw Hobj) as Ho. rewrite Hv, decide_True, Etog in Ho by done. by destruct Ho.
Qed.
End Switch.
