(* ===== verification/McpProbe.v ===== *)
(** * McpProbe: asking a configured MCP server what it offers ([mcp_inventory.rs])

    The handshake with a server over its output, as far as it is delivered in
    time, and over HTTP; the call of clients. *)

From S2P Require Import Prelude Str Json Jail SessionStore Events Interact Worktree McpConfig.

Definition PROTOCOL_VERSION : rstr := str "2024-11-05".
Definition PROBE_TOOL_CAP : nat := 40.
Definition LINE_CAP_BYTES : Z := 1024 * 1024.

Record ProbeResult := {
  pb_status : rstr; pb_tools : list rstr; pb_server : option rstr; pb_protocol : option rstr; pb_elapsed : Z; pb_error : option rstr
}.

Definition probe_of (status : string) (elapsed : Z) : ProbeResult :=
  {| pb_status := str status; pb_tools := []; pb_server := None; pb_protocol := None; pb_elapsed := elapsed; pb_error := None |}.

Definition with_error (e : rstr) (r : ProbeResult) : ProbeResult :=
  {| pb_status := pb_status r; pb_tools := pb_tools r; pb_server := pb_server r; pb_protocol := pb_protocol r; pb_elapsed := pb_elapsed r; pb_error := Some e |}.

Definition with_elapsed (ms : Z) (r : ProbeResult) : ProbeResult :=
  {| pb_status := pb_status r; pb_tools := pb_tools r; pb_server := pb_server r; pb_protocol := pb_protocol r; pb_elapsed := ms; pb_error := pb_error r |}.

(** The names of a listing, as many as are returned. *)
Definition tool_names (reply : json) : list rstr :=
  take PROBE_TOOL_CAP (omap (M:=list) (fun t => as_str t.["name"]) (default [] (as_array reply.["result"].["tools"]))).

(** ** Over the server's output *)

Section Stdio.
Context `{JT : JsonText}.
(** [String::from_utf8_lossy] *)
Variable lossy : list N -> rstr.

(** The bytes up to a newline or the end, cut at the cap, whether it was passed,
    and what is left. *)
Fixpoint read_line (buf : list N) (over : bool) (input : list N) : list N * bool * list N :=
  match input with
  | [] => (buf, over, [])
  | b :: input =>
      if N.eqb b 10 then (buf, over, input)
      else if (Z.of_nat (length buf) <? LINE_CAP_BYTES)%Z then read_line (buf ++ [b]) over input
      else read_line buf true input
  end.

Definition parse_handshake (line : rstr) (id : Z) : option (rstr * rstr) :=
  match from_str line with
  | None => None
  | Some v =>
      if negb (bool_decide (as_u64 v.["id"] = Some id)) then None
      else if bool_decide (is_Some (as_object v.["error"])) then None
      else Some (text_at v.["result"].["serverInfo"] "name", default PROTOCOL_VERSION (as_str v.["result"].["protocolVersion"]))
  end.

(** Lines are skipped until one answers [initialize]; an empty one is taken for
    the end. *)
Fixpoint await_handshake (fuel : nat) (input : list N) : option (rstr * rstr) * list N :=
  match fuel with
  | 0 => (None, input)
  | S fuel =>
      let '(buf, _, input) := read_line [] false input in
      if is_empty buf then (None, input)
      else match parse_handshake (lossy buf) 1 with Some h => (Some h, input) | None => await_handshake fuel input end
  end.

Definition tools_reply (line : rstr) : option (list rstr) :=
  match from_str line with
  | Some v => if bool_decide (as_u64 v.["id"] = Some 2%Z) && bool_decide (is_Some (as_object v.["result"])) then Some (tool_names v) else None
  | None => None
  end.

Fixpoint await_tools (fuel : nat) (input : list N) : list rstr :=
  match fuel with
  | 0 => []
  | S fuel =>
      let '(buf, over, input) := read_line [] false input in
      if over || is_empty buf then (if is_empty buf then [] else await_tools fuel input)
      else match tools_reply (lossy buf) with Some names => names | None => await_tools fuel input end
  end.

(** [input] is what the server prints before the deadline, or its end;
    [spawned] is an error when it could not be started. *)
Definition probe_stdio (spawned : option rstr) (elapsed : Z) (input : list N) : ProbeResult :=
  match spawned with
  | Some e => with_error (str "spawn failed: " ++ e) (probe_of "failed" elapsed)
  | None =>
      match await_handshake (S (length input)) input with
      | (Some (server, protocol), input) =>
          {| pb_status := str "connected"; pb_tools := await_tools (S (length input)) input; pb_server := Some server;
             pb_protocol := Some protocol; pb_elapsed := elapsed; pb_error := None |}
      | (None, _) => with_error (str "no initialize response within the probe window") (probe_of "failed" elapsed)
      end
  end.

(** ** Over HTTP *)

(** An answer: its status, the session the server assigned, its body, empty when
    it could not be read. *)
Record response := { hr_status : Z; hr_session : option rstr; hr_body : rstr }.

(** Requests carry the session once there is one. *)
Record request := { hq_session : option rstr; hq_body : json }.

Fixpoint first_data (ls : list rstr) : option json :=
  match ls with
  | [] => None
  | l :: ls =>
      match (d ← strip_prefix (str "data:") l; from_str (trim d)) with
      | Some v => if bool_decide (is_Some (get v (str "id"))) || bool_decide (is_Some (get v (str "result"))) then Some v else first_data ls
      | None => first_data ls
      end
  end.

(** JSON, or a stream of events with the JSON on their [data:] lines. *)
Definition parse_http_body (body : rstr) : option json := match from_str body with Some v => Some v | None => first_data (lines body) end.

Definition rpc_request (id : option Z) (method : string) (params : option json) : json := mk_obj
  ([field "jsonrpc" (jstr "2.0")] ++ opt_field "id" (jint <$> id) ++ [field "method" (jstr method)] ++ opt_field "params" params).

Definition initialize (version : rstr) : json := rpc_request (Some 1%Z) "initialize" (Some (mk_obj
  [field "protocolVersion" (JStr PROTOCOL_VERSION); field "capabilities" (mk_obj []);
   field "clientInfo" (mk_obj [field "name" (jstr "damon"); field "version" (JStr version)])])).

(** The reason a status gives; the answer to the last of the requests so far, or
    why there is none; [built] is why there is no client. *)
Variables (reason : Z -> rstr) (serve : list request -> result response rstr) (built : option rstr) (version : rstr).

Definition probe_http (elapsed : Z) : ProbeResult :=
  match built with
  | Some e => with_error (str "client build failed: " ++ e) (probe_of "failed" 0)
  | None =>
      let first := {| hq_session := None; hq_body := initialize version |} in
      match serve [first] with
      | Err e => with_error (str "request failed: " ++ e) (probe_of "failed" elapsed)
      | Ok r =>
          if (hr_status r =? 401)%Z || (hr_status r =? 403)%Z then probe_of "needs_auth" elapsed
          else if negb ((200 <=? hr_status r) && (hr_status r <? 300))%Z then
            with_error (str "HTTP " ++ reason (hr_status r)) (probe_of "failed" elapsed)
          else match parse_http_body (hr_body r) with
               | None => with_error (str "no JSON-RPC result in the response") (probe_of "failed" elapsed)
               | Some init =>
                   let told := {| hq_session := hr_session r; hq_body := rpc_request None "notifications/initialized" None |} in
                   let asked := {| hq_session := hr_session r; hq_body := rpc_request (Some 2%Z) "tools/list" (Some (mk_obj [])) |} in
                   {| pb_status := str "connected";
                      pb_tools := match serve [first; told; asked] with
                                  | Ok r => match parse_http_body (hr_body r) with Some v => tool_names v | None => [] end
                                  | Err _ => []
                                  end;
                      pb_server := as_str init.["result"].["serverInfo"].["name"];
                      pb_protocol := Some (default PROTOCOL_VERSION (as_str init.["result"].["protocolVersion"]));
                      pb_elapsed := elapsed; pb_error := None |}
               end
      end
  end.
End Stdio.

(** ** The call *)

Class ProbeRunner := {
  run_stdio : rstr -> list rstr -> list (rstr * json) -> ProbeResult;
  run_http : rstr -> ProbeResult
}.

Section Probe.
Context `{JT : JsonText} `{PR : ProbeRunner}.
Variables (json_error : rstr -> rstr) (toml_from_str : rstr -> result toml rstr) (debug : rstr -> rstr).

(** [debug name] is the name in quotes; [None] is a panic of the reader. *)
Definition probe (e : env) (read : rstr -> result rstr rstr) (elapsed : Z) (backend name : rstr) : option ProbeResult :=
  if is_empty (sources_for e backend) then
    Some (with_error (backend ++ str " has no verified native MCP config source") (probe_of "unsupported" 0))
  else
    (fun found => match found with
       | None => with_error (str "no server named " ++ debug name ++ str " in " ++ backend ++ str "'s MCP config") (probe_of "unsupported" 0)
       | Some srv =>
           with_elapsed elapsed
             (if str_eqb (rs_transport srv) (str "stdio") then run_stdio (default [] (rs_command srv)) (rs_args srv) (rs_env srv)
              else if str_eqb (rs_transport srv) (str "http") || str_eqb (rs_transport srv) (str "sse") then
                match rs_url srv with Some url => run_http url | None => probe_of "failed" 0 end
              else probe_of "unsupported" 0)
       end) <$> find_raw_server json_error toml_from_str debug e read backend name.

Definition mcp_probe (e : env) (read : rstr -> result rstr rstr) (elapsed : Z) (params : json) : option (result json RpcError) :=
  match (let? backend := req_str params "backend" in let? name := req_str params "name" in Ok (backend, name)) with
  | Err err => Some (Err err)
  | Ok (backend, name) =>
      (fun r => Ok (mk_obj
         ([field "backend" (JStr backend); field "name" (JStr name); field "result" (JStr (pb_status r));
           field "tools" (JArr (map JStr (pb_tools r))); field "elapsedMs" (jint (pb_elapsed r))] ++
          opt_field "serverName" (JStr <$> pb_server r) ++ opt_field "protocolVersion" (JStr <$> pb_protocol r) ++
          opt_field "error" (JStr <$> pb_error r)))) <$> probe e read elapsed backend name
  end.
End Probe.

(** ** What a probe hears *)

(** The lines of an output; the first of them that says something, and the lines
    behind it, an empty line being the end. *)
Definition output_lines (input : list N) : list (list N) := split_on (fun b => N.eqb b 10) input.

Fixpoint heard {A} (says : list N -> option A) (ls : list (list N)) : option A * list (list N) :=
  match ls with
  | [] => (None, [])
  | l :: ls => if is_empty l then (None, ls) else match says l with Some a => (Some a, ls) | None => heard says ls end
  end.

Section Heard.
Context `{JT : JsonText}.
Variable lossy : list N -> rstr.

Definition line_cap : nat := Z.to_nat LINE_CAP_BYTES.
Lemma line_cap_Z : Z.of_nat line_cap = LINE_CAP_BYTES.
Proof. by apply Z2Nat.id. Qed.
#[local] Opaque line_cap.

(** A handshake is looked for in the part of a line under the cap, a listing in
    lines under the cap. *)
Definition says_handshake (l : list N) : option (rstr * rstr) := parse_handshake (lossy (take line_cap l)) 1.
Definition says_tools (l : list N) : option (list rstr) := if line_cap <? length l then None else tools_reply (lossy l).

(** What is left of the input, and of its lines. *)
Definition left_of (input : list N) (ls : list (list N)) : Prop := ls = output_lines input \/ (ls = [] /\ input = []).

Lemma read_line_spec buf over input l ls : output_lines input = l :: ls -> length buf <= line_cap ->
  exists rest, read_line buf over input = (take line_cap (buf ++ l), over || (line_cap <? length (buf ++ l)), rest) /\
    left_of rest ls /\ (length rest < length input \/ (input = [] /\ rest = [])).
Proof.
  revert buf over l. induction input as [|b input IH]; intros buf over l Hl Hbuf; unfold output_lines in *; cbn [split_on] in Hl.
  { injection Hl as <- <-. exists []. cbn [read_line]. rewrite app_nil_r, take_ge by done. split_and!; [|by right|by right].
    by rewrite (proj2 (Nat.ltb_ge _ _) Hbuf), orb_false_r. }
  cbn [read_line]. destruct (N.eqb b 10) eqn:Eb.
  { injection Hl as <- <-. exists input. rewrite app_nil_r, take_ge by done. split_and!; [|by left|left; cbn; lia].
    by rewrite (proj2 (Nat.ltb_ge _ _) Hbuf), orb_false_r. }
  destruct (split_on _ input) as [|w ws] eqn:Ew; [by apply split_on_nonempty in Ew|]. injection Hl as <- <-.
  pose proof line_cap_Z as Hcap. destruct (Z.ltb_spec (Z.of_nat (length buf)) LINE_CAP_BYTES) as [Hlt|Hge].
  - destruct (IH (buf ++ [b]) over w eq_refl) as (rest & -> & Hleft & Hlen); [rewrite length_app; cbn; lia|].
    exists rest. rewrite <-app_assoc. split; [done|]. split; [done|]. left. destruct Hlen as [Hlen|[-> ->]]; cbn; lia.
  - destruct (IH buf true w eq_refl Hbuf) as (rest & -> & Hleft & Hlen). exists rest. split_and!; [|done|].
    + assert (length buf = line_cap) as Hfull by lia. rewrite !take_app_le, !take_ge by lia. rewrite !length_app. cbn [length].
      assert ((line_cap <? length buf + S (length w)) = true) as -> by (apply Nat.ltb_lt; lia). by rewrite orb_true_r.
    + left. destruct Hlen as [Hlen|[-> ->]]; cbn; lia.
Qed.

Lemma take_cap_empty (l : list N) : is_empty (take line_cap l) = is_empty l.
Proof.
  destruct l as [|b l]; [by rewrite take_nil|]. pose proof line_cap_Z. destruct line_cap as [|n]; [discriminate|done].
Qed.

Lemma await_handshake_spec fuel input ls : left_of input ls -> length input < fuel ->
  let '(h, rest) := await_handshake lossy fuel input in
  (heard says_handshake ls).1 = h /\ left_of rest (heard says_handshake ls).2 /\ length rest <= length input.
Proof.
  revert input ls. induction fuel as [|fuel IH]; intros input ls; [lia|]. intros Hleft Hlen. cbn [await_handshake].
  destruct ls as [|l ls]; [destruct Hleft as [Hl|[_ ->]]; [by apply eq_sym, split_on_nonempty in Hl|by split; [|split; [right|]]]|].
  destruct Hleft as [Hl|[? _]]; [|done].
  destruct (read_line_spec [] false input l ls (eq_sym Hl) (Nat.le_0_l _)) as (rest & -> & Hrest & Hdec). cbn [app]. rewrite take_cap_empty. cbn [heard].
  destruct (is_empty l) eqn:He; [split_and!; [done|done|destruct Hdec as [|[? ?]]; subst; cbn; lia]|].
  change (parse_handshake (lossy (take line_cap l)) 1) with (says_handshake l).
  destruct Hdec as [Hdec|[? ?]]; [|subst; cbn in Hl; injection Hl as -> ->; discriminate He].
  destruct (says_handshake l) as [h|]; [cbn; split_and!; [done|done|lia]|].
  specialize (IH rest ls Hrest ltac:(lia)). destruct (await_handshake lossy fuel rest) as [h rest'].
  destruct IH as (-> & Hr & Hle). split_and!; [done|done|lia].
Qed.

Lemma await_tools_spec fuel input ls : left_of input ls -> length input < fuel ->
  await_tools lossy fuel input = default [] (heard says_tools ls).1.
Proof.
  revert input ls. induction fuel as [|fuel IH]; intros input ls; [lia|]. intros Hleft Hlen. cbn [await_tools].
  destruct ls as [|l ls]; [destruct Hleft as [Hl|[_ ->]]; [by apply eq_sym, split_on_nonempty in Hl|done]|].
  destruct Hleft as [Hl|[? _]]; [|done].
  destruct (read_line_spec [] false input l ls (eq_sym Hl) (Nat.le_0_l _)) as (rest & -> & Hrest & Hdec). cbn [app orb]. rewrite take_cap_empty. cbn [heard].
  destruct (is_empty l) eqn:He; [by rewrite orb_true_r|]. rewrite orb_false_r.
  destruct Hdec as [Hdec|[? ?]]; [|subst; cbn in Hl; injection Hl as -> ->; discriminate He].
  specialize (IH rest ls Hrest ltac:(lia)). replace (says_tools l) with (if line_cap <? length l then None else tools_reply (lossy l)) by done.
  destruct (line_cap <? length l) eqn:Hov; [done|]. rewrite take_ge by (by apply Nat.ltb_ge). by destruct (tools_reply (lossy l)).
Qed.

(** Probing a server reads its output by lines, whatever the bytes: the first
    line that answers the handshake connects, the first line under the cap behind
    it that answers the listing gives the tools, an empty line is the end of
    either, and without a handshake the probe fails. *)
Theorem probe_reads_lines (elapsed : Z) (input : list N) :
  probe_stdio lossy None elapsed input =
  match heard says_handshake (output_lines input) with
  | (Some (server, protocol), ls) =>
      {| pb_status := str "connected"; pb_tools := default [] (heard says_tools ls).1; pb_server := Some server; pb_protocol := Some protocol;
         pb_elapsed := elapsed; pb_error := None |}
  | (None, _) => with_error (str "no initialize response within the probe window") (probe_of "failed" elapsed)
  end.
Proof.
  unfold probe_stdio. pose proof (await_handshake_spec (S (length input)) input (output_lines input) (or_introl eq_refl) ltac:(lia)) as Hh.
  destruct (await_handshake lossy _ input) as [h rest]. destruct (heard says_handshake (output_lines input)) as [h' ls]. cbn in Hh.
  destruct Hh as (-> & Hleft & _). destruct h as [[server protocol]|]; [|done]. by rewrite (await_tools_spec _ rest ls Hleft) by lia.
Qed.

(** No more names than the cap, over either way. *)
Theorem probe_lists_few (reason : Z -> rstr) serve built version spawned elapsed input :
  length (pb_tools (probe_stdio lossy spawned elapsed input)) <= PROBE_TOOL_CAP /\
  length (pb_tools (probe_http reason serve built version elapsed)) <= PROBE_TOOL_CAP.
Proof.
  assert (forall v, length (tool_names v) <= PROBE_TOOL_CAP) as Hn by (intros v; unfold tool_names; rewrite length_take; lia).
  assert (forall fuel input, length (await_tools lossy fuel input) <= PROBE_TOOL_CAP) as Ht.
  { induction fuel as [|fuel IH]; intros inp; cbn [await_tools]; [cbn; lia|]. destruct (read_line [] false inp) as [[buf over] rest].
    destruct (over || is_empty buf); [destruct (is_empty buf); [cbn; lia|apply IH]|].
    unfold tools_reply. destruct (from_str (lossy buf)) as [v|]; [destruct (_ && _); [apply Hn|apply IH]|apply IH]. }
  split.
  - unfold probe_stdio. destruct spawned; [cbn; lia|]. destruct (await_handshake _ _ _) as [[[]|] rest]; [apply Ht|cbn; lia].
  - unfold probe_http. destruct built; [cbn; lia|]. destruct (serve _) as [r|]; [|cbn; lia].
    destruct (_ || _); [cbn; lia|]. destruct (negb _); [cbn; lia|]. destruct (parse_http_body _) as [init|]; [|cbn; lia]. cbn [pb_tools].
    destruct (serve _) as [r2|]; [|cbn; lia]. destruct (parse_http_body _); [apply Hn|cbn; lia].
Qed.
End Heard.
