(* ===== verification/Wire.v ===== *)
(** * Wire: what clients are sent ([backend/types.rs], [rpc.rs])

    Events and timeline items as serde writes them, tool calls and task lists as it
    reads them back, stored rows as the events they replay as, and errors. *)

From S2P Require Import Prelude Str Json Rows PlanStore SessionStore Session Memory Turn Events SkillText Interact Worktree.

(** ** Events *)

(** The tag and the fields of an event; items and asks are flattened into it. *)
Definition kind_json (k : Session.StreamEventKind) : string * list (rstr * json) :=
  let fields (l : list (string * json)) := map (fun '(k, v) => (str k, v)) l in
  match k with
  | ThreadStarted h => ("thread_started", fields [field "native_handle" (JStr h)])
  | TurnStarted => ("turn_started", [])
  | Session.TurnCompleted usage => ("turn_completed", fields [field "usage" (default JNull usage)])
  | Session.TurnFailed e code => ("turn_failed", fields [field "error" (JStr e); field "code" (Events.opt_json JStr code)])
  | Session.TurnCanceled reason => ("turn_canceled", fields [field "reason" (JStr reason)])
  | ModeChanged mode => ("mode_changed", fields [field "mode" (Events.opt_json JStr mode)])
  | ModelChanged model => ("model_changed", fields [field "model" (JStr model)])
  | Timeline item => ("timeline", default [] (as_object item))
  | Session.PermissionRequested ask => ("permission_requested", default [] (as_object ask))
  | PermissionResolved id => ("permission_resolved", fields [field "request_id" (JStr id)])
  | AttentionRequired reason => ("attention_required", fields [field "reason" reason])
  | Subagent event => ("subagent", fields [field "event" event])
  end%string.

Definition event_json (ev : Session.StreamEvent) : json :=
  let '(tag, fields) := kind_json (Session.ev_kind ev) in
  JObj ((str "turn_id", Events.opt_json JStr (Session.ev_turn ev)) :: (str "type", jstr tag) :: fields).

Definition item_json (item : TimelineItem) : json :=
  let tagged (tag : string) (fields : list (rstr * json)) := JObj ((str "kind", jstr tag) :: fields) in
  let one (k : string) (v : json) := [(str k, v)] in
  match item with
  | TUserMessage text => tagged "user_message" (one "text" (JStr text))
  | TAssistantMessage text => tagged "assistant_message" (one "text" (JStr text))
  | TReasoning text => tagged "reasoning" (one "text" (JStr text))
  | TToolCall call => tagged "tool_call" (default [] (as_object (tool_json call)))
  | TTodo items => tagged "todo" (one "items" (JArr (map task_json items)))
  | TCompaction summary => tagged "compaction" (one "summary" (JStr summary))
  | TError message => tagged "error" (one "message" (JStr message))
  | TUnknown raw => tagged "unknown" (one "raw" raw)
  end%string.

(** ** Reading rows back *)

(** A field of an object, required or optional ([null] and absence are one). *)
Definition req_field (v : json) (k : string) : option rstr := get v (str k) ≫= as_str.
Definition opt_str_field (v : json) (k : string) : option (option rstr) :=
  match get v (str k) with None | Some JNull => Some None | Some (JStr s) => Some (Some s) | Some _ => None end.
Definition opt_i32_field (v : json) (k : string) : option (option Z) :=
  match get v (str k) with
  | None | Some JNull => Some None
  | Some (JNum (NInt z)) => if ((- 2 ^ 31 <=? z) && (z <? 2 ^ 31))%Z then Some (Some z) else None
  | Some _ => None
  end.

Definition status_of (s : rstr) : option ToolCallStatus :=
  if str_eqb s (str "running") then Some ToolRunning
  else if str_eqb s (str "completed") then Some ToolCompleted
  else if str_eqb s (str "failed") then Some ToolFailed else None.

Definition detail_of (v : json) : option ToolCallDetail :=
  tag ← req_field v "type";
  let has (t : string) := str_eqb tag (str t) in
  if has "shell"%string then
    command ← req_field v "command"; output ← opt_str_field v "output"; code ← opt_i32_field v "exit_code"; Some (Shell command output code)
  else if has "read"%string then path ← req_field v "path"; content ← opt_str_field v "content"; Some (ReadFile path content)
  else if has "edit"%string then path ← req_field v "path"; diff ← opt_str_field v "unified_diff"; Some (EditFile path diff)
  else if has "write"%string then path ← req_field v "path"; content ← opt_str_field v "content"; Some (WriteFile path content)
  else if has "search"%string then query ← req_field v "query"; content ← opt_str_field v "content"; Some (SearchFor query content)
  else if has "fetch"%string then url ← req_field v "url"; res ← opt_str_field v "result"; Some (Fetch url res)
  else if has "sub_agent"%string then description ← req_field v "description"; log ← req_field v "log"; Some (SubAgent description log)
  else if has "plan"%string then text ← req_field v "text"; Some (PlanText text)
  else if has "unknown"%string then input ← get v (str "input"); output ← get v (str "output"); Some (UnknownDetail input output)
  else None.

(** [serde_json::from_value] of a tool call and of a task list, on objects; the
    arrays serde takes for objects too are never stored. *)
Definition tool_of (v : json) : option ToolCall :=
  id ← req_field v "call_id"; name ← req_field v "name"; status ← req_field v "status" ≫= status_of;
  detail ← get v (str "detail") ≫= detail_of;
  Some {| tc_call_id := id; tc_name := name; tc_status := status; tc_detail := detail |}.

Definition task_status_of (s : rstr) : option TaskStatus :=
  if str_eqb s (str "pending") then Some TaskPending
  else if str_eqb s (str "in_progress") then Some TaskInProgress
  else if str_eqb s (str "completed") then Some TaskCompleted else None.

Definition task_of (v : json) : option TaskItem :=
  content ← req_field v "content"; status ← req_field v "status" ≫= task_status_of;
  Some {| ti_content := content; ti_status := status |}.

Definition tasks_of (v : json) : option (list TaskItem) := as_array v ≫= mapM task_of.

(** A row as a timeline item, and as the event it replays as. *)
Definition replay_item (role : rstr) (data : json) : option TimelineItem :=
  let text := as_str data.["content"] in
  let has (r : string) := str_eqb role (str r) in
  if has "user"%string then TUserMessage <$> text
  else if has "assistant"%string then TAssistantMessage <$> text
  else if has "reasoning"%string then TReasoning <$> text
  else if has "tool"%string then TToolCall <$> tool_of data
  else if has "todo"%string then TTodo <$> tasks_of data.["items"]
  else if has "compaction"%string then TCompaction <$> text
  else if has "error"%string then Some (TError (default [] text))
  else None.

Definition timeline_json (item : TimelineItem) : json :=
  event_json {| Session.ev_turn := None; Session.ev_kind := Timeline (item_json item) |}.

Definition replay_event (row : StoredMessage) : option json := timeline_json <$> replay_item (sm_role row) (sm_data row).

(** ** Errors *)

(** What an error's chain can hold that the wire knows. *)
Inductive cause :=
| CRpc (code : Z) (data : option json)
| CHub (code : HubCode)
| CWorktree (kind : rstr)
| CAskNotFound
| COther.

Record Error := { ee_message : rstr; ee_chain : list cause }.

Definition hub_text (c : HubCode) : rstr :=
  match c with
  | InvalidInput => str "invalid_input" | HubNotFound => str "not_found" | Conflict => str "conflict" | Readonly => str "readonly"
  | Permission => str "permission" | Network => str "network" | Http => str "http" | RateLimited => str "rate_limited"
  | Internal => str "internal"
  end.

Definition rpc_code (c : HubCode) : Z := match c with InvalidInput => -32602 | _ => -32000 end.

(** [find_map] along the chain. *)
Definition found {A} (e : Error) (f : cause -> option A) : option A := head (omap (M:=list) f (ee_chain e)).

Definition error_payload (e : Error) : Z * rstr * option json :=
  match found e (fun c => match c with CRpc code data => Some (code, data) | _ => None end) with
  | Some (code, data) => (code, ee_message e, data)
  | None =>
      match found e (fun c => match c with CHub code => Some code | _ => None end) with
      | Some code => (rpc_code code, ee_message e, Some (mk_obj [field "code" (JStr (hub_text code))]))
      | None =>
          match found e (fun c => match c with CWorktree kind => Some kind | _ => None end) with
          | Some kind => ((-32007)%Z, ee_message e, Some (mk_obj [field "kind" (JStr kind)]))
          | None =>
              if existsb (fun c => match c with CAskNotFound => true | _ => false end) (ee_chain e) then ((-32008)%Z, ee_message e, None)
              else ((-32000)%Z, ee_message e, None)
          end
      end
  end.

Definition rpc_error (code : Z) (message : rstr) : Error := {| ee_message := message; ee_chain := [CRpc code None] |}.
Definition invalid_params (message : rstr) : Error := rpc_error (-32602) message.

Definition req_str (params : json) (k : string) : result rstr Error :=
  ok_or (as_str params.[k]) (invalid_params (str k ++ str " required")).
