(* ===== verification/WireFacts.v ===== *)
(** * WireFacts: stored turns replay as they were

    Tool calls and task lists read back as they were written, and the rows of a
    turn replay as the timeline its agent showed. *)

From S2P Require Import Prelude Str Json Rows PlanStore SessionStore Session Memory Turn Events AgentLog SkillText Interact Worktree Wire.

(** ** Round trips *)

(** Exit codes are [i32]. *)
Definition code_fits (d : ToolCallDetail) : Prop := match d with Shell _ _ (Some z) => (- 2 ^ 31 <= z < 2 ^ 31)%Z | _ => True end.

Lemma i32_field v k z : get v (str k) = Some (jint z) -> (- 2 ^ 31 <= z < 2 ^ 31)%Z -> opt_i32_field v k = Some (Some z).
Proof.
  unfold opt_i32_field. intros -> Hz. assert (((- 2 ^ 31 <=? z) && (z <? 2 ^ 31))%Z = true) as E by lia. cbn [jint]. by rewrite E.
Qed.

Lemma detail_roundtrip d : code_fits d -> detail_of (detail_json d) = Some d.
Proof.
  destruct d as [command output [z|]|path [content|]|path [diff|]|path [content|]|query [content|]|url [res|]|description log|text|input output];
    intros Hf; try reflexivity; [|by destruct output].
  cbn [code_fits] in Hf. destruct output; unfold detail_of; cbn -[opt_i32_field]; by rewrite (i32_field _ _ z).
Qed.

Lemma tool_roundtrip t : code_fits (tc_detail t) -> tool_of (tool_json t) = Some t.
Proof.
  destruct t as [id name status detail]. intros Hf. cbn [tc_detail] in Hf.
  transitivity (detail ← detail_of (detail_json detail); Some {| tc_call_id := id; tc_name := name; tc_status := status; tc_detail := detail |}).
  - by destruct status.
  - by rewrite (detail_roundtrip detail Hf).
Qed.

Lemma task_roundtrip t : task_of (task_json t) = Some t.
Proof. by destruct t as [content []]. Qed.

Lemma tasks_roundtrip ts : tasks_of (JArr (map task_json ts)) = Some ts.
Proof. cbn. induction ts as [|t ts IH]; [done|]. cbn [map mapM]. by rewrite task_roundtrip, IH. Qed.

(** ** Turns *)

Definition task_list (item : TimelineItem) : option (list TaskItem) := match item with TTodo items => Some items | _ => None end.

(** What a stored turn should replay as. *)
Definition shown_turn (items : list TimelineItem) (calls : list ToolCall) (b : StreamEventKind) : list TimelineItem :=
  let text_item (mk : rstr -> TimelineItem) text := if is_empty text then [] else [mk text] in
  text_item TAssistantMessage (concat (omap said items)) ++ text_item TReasoning (concat (omap thought items)) ++ map TToolCall calls ++
  match last (omap task_list items) with Some ts => [TTodo ts] | None => [] end ++ map TCompaction (omap compacted items) ++
  match b with ETurnFailed e _ => [TError e] | _ => [] end.

Lemma planned_tasks (items : list TimelineItem) :
  last (omap planned items) = (fun ts => JArr (map task_json ts)) <$> last (omap task_list items).
Proof.
  rewrite <-fmap_last. f_equal. induction items as [|item items IH]; [done|]. cbn. destruct item; cbn; rewrite ?IH; done.
Qed.

Section Replay.
Variables (plan_content_hash : rstr -> rstr) (sid uuid : rstr) (at_ms : Z) (tool_order : gmap rstr json -> list json).
(** A map's values, in some order. *)
Hypothesis order_lists : forall m, tool_order m ≡ₚ (map_to_list m).*2.

Definition collected (es : list Event) : turn_acc := (collect plan_content_hash sid ([], empty_acc) (map (receive uuid at_ms) es)).1.2.

(** What a key of the map stands for. *)
Lemma state_of (m : gmap rstr json) (items : list TimelineItem) id x : (forall id, m !! id = last (omap (call_state id) items)) ->
  (forall t, TToolCall t ∈ items -> code_fits (tc_detail t)) -> m !! id = Some x ->
  exists t, x = tool_json t /\ tool_of x = Some t /\ tc_call_id t = id.
Proof.
  intros Hm Hfit Hx. rewrite Hm in Hx. apply last_Some_elem_of, list_elem_of_omap in Hx as (item & Hitem & Hs).
  destruct item as [| | |t| | | |]; try discriminate Hs. cbn in Hs. case_bool_decide as Hid; [|done]. injection Hs as <-.
  exists t. split; [done|]. split; [by apply tool_roundtrip, Hfit|done].
Qed.

Lemma order_calls (m : gmap rstr json) (items : list TimelineItem) : (forall id, m !! id = last (omap (call_state id) items)) ->
  (forall t, TToolCall t ∈ items -> code_fits (tc_detail t)) ->
  exists calls, map tool_json calls = tool_order m /\ map (fun x => TToolCall <$> tool_of x) (tool_order m) = map Some (map TToolCall calls) /\
    NoDup (map tc_call_id calls) /\
    forall id x, last (omap (call_state id) items) = Some x <-> exists t, t ∈ calls /\ tc_call_id t = id /\ tool_json t = x.
Proof using order_lists.
  intros Hm Hfit.
  assert (forall x, x ∈ tool_order m -> exists t, x = tool_json t /\ tool_of x = Some t /\ m !! tc_call_id t = Some x) as Hall.
  { intros x Hx. rewrite order_lists in Hx. apply list_elem_of_fmap in Hx as ([id y] & -> & Hin%elem_of_map_to_list). cbn.
    destruct (state_of m items id y Hm Hfit Hin) as (t & -> & Ht & <-). by exists t. }
  assert (exists calls, map tool_json calls = tool_order m /\ map tool_of (tool_order m) = map Some calls) as (calls & Hj & Ht).
  { clear -Hall. induction (tool_order m) as [|x xs IH]; [by exists []|]. destruct IH as (calls & <- & H2); [intros y Hy; apply Hall; by right|].
    destruct (Hall x ltac:(left)) as (t & -> & Ht & _). exists (t :: calls). cbn [map]. by rewrite Ht, H2. }
  exists calls. split; [done|]. split; [|split].
  - transitivity (map (fun o => TToolCall <$> o) (map tool_of (tool_order m))); [by rewrite map_map|]. by rewrite Ht, !map_map.
  - assert (map (fun x => tc_call_id <$> tool_of x) (tool_order m) = map Some (map tc_call_id calls)) as Hids.
    { transitivity (map (fun o => tc_call_id <$> o) (map tool_of (tool_order m))); [by rewrite map_map|]. by rewrite Ht, !map_map. }
    apply (NoDup_fmap_1 Some). change (NoDup (map Some (map tc_call_id calls))). rewrite <-Hids.
    assert (map (fun x => tc_call_id <$> tool_of x) (map_to_list m).*2 = Some <$> (map_to_list m).*1) as Hkeys.
    { pose proof (fun id x => state_of m items id x Hm Hfit) as Hst. rewrite <-!list_fmap_compose. apply map_ext_in. intros [id x] Hin%list_elem_of_In%elem_of_map_to_list.
      destruct (Hst id x Hin) as (t & _ & E & <-). cbn. by rewrite E. }
    rewrite (Permutation_map _ (order_lists m)), Hkeys. apply NoDup_fmap_2; [apply _|]. apply NoDup_fst_map_to_list.
  - intros id x. rewrite <-Hm. split.
    + intros Hx. destruct (state_of m items id x Hm Hfit Hx) as (t & E & Hof & Hid). exists t. split; [|done].
      assert (x ∈ tool_order m) as Hin. { rewrite order_lists. apply list_elem_of_fmap. exists (id, x). split; [done|]. by apply elem_of_map_to_list. }
      apply (list_elem_of_fmap_2 tool_of) in Hin. change (tool_of x ∈ map tool_of (tool_order m)) in Hin. rewrite Ht, Hof in Hin.
      by apply list_elem_of_fmap in Hin as (t' & [= <-] & Hin).
    + intros (t & Hin & <- & <-). destruct (Hall (tool_json t)) as (t' & E & Hof & Hl).
      { rewrite <-Hj. by apply (list_elem_of_fmap_2 tool_json). }
      rewrite <-Hj in Ht. assert (tool_of (tool_json t) = Some t) as Hrt; [|congruence].
      clear -Ht Hin. induction calls as [|y ys IH]; [by apply elem_of_nil in Hin|]. injection Ht as Hy Hys.
      apply elem_of_cons in Hin as [->|Hin]; [done|by apply IH].
Qed.

(** C13: a stored turn replays as the agent showed it: for the events of a turn, up
    to the boundary, the rows that are stored of it read back, in their order, as
    the timeline items of the turn - the joined texts, the last state of every
    tool call and each call once, the last task list, the compactions and the
    failure - each as the event with that item. *)
Theorem stored_turn_replays (es : list Event) (b : Event) (rest : list Event) (id ts : Z) :
  (forall e, e ∈ es -> ends_turn (ev_kind e) = false) -> ends_turn (ev_kind b) = true ->
  let items := omap (M:=list) (fun e => item_of (ev_kind e)) es in
  (forall t, TToolCall t ∈ items -> code_fits (tc_detail t)) ->
  let a := collected (es ++ b :: rest) in
  exists calls, map tool_json calls = tool_order (ac_tools a) /\
    NoDup (map tc_call_id calls) /\
    (forall call x, last (omap (call_state call) items) = Some x <-> exists t, t ∈ calls /\ tc_call_id t = call /\ tool_json t = x) /\
    map (fun r => replay_event {| sm_id := id; sm_session := sid; sm_role := r.1; sm_ts := ts; sm_data := r.2 |}) (artifact_rows tool_order a) =
    map (fun item => Some (timeline_json item)) (shown_turn items calls (ev_kind b)).
Proof using order_lists.
  intros Hq Hb items Hfit a. pose proof (collected_turn plan_content_hash sid uuid at_ms es b rest [] Hq Hb) as Hc.
  subst a.
  pose proof (collected_failure plan_content_hash sid uuid at_ms es b rest [] Hq Hb) as Hfail.
  unfold collected in *. destruct (collect plan_content_hash sid ([], empty_acc) (map (receive uuid at_ms) (es ++ b :: rest))) as [[ps a] ended].
  cbn [fst snd] in *. destruct Hc as (Ha & Hr & Ht & Htodo & Hcomp & _ & _).
  destruct (order_calls (ac_tools a) items Ht Hfit) as (calls & Hcalls & Hread & Hnd & Hlast). exists calls. do 3 (split; [done|]).
  unfold replay_event, artifact_rows, shown_turn. cbn [sm_role sm_data]. rewrite Ha, Hr, Htodo, Hcomp, Hfail.
  fold items. rewrite planned_tasks, !map_app, !map_map. unfold opt_row. f_equal; [by destruct (is_empty _)|]. f_equal; [by destruct (is_empty _)|].
  f_equal; [|f_equal; [|f_equal]].
  - transitivity (map (fun o => timeline_json <$> o) (map (fun x => TToolCall <$> tool_of x) (tool_order (ac_tools a)))); [by rewrite map_map|].
    rewrite Hread, !map_map. done.
  - destruct (last (omap task_list items)) as [tasks|]; [|done]. cbn [fmap option_fmap option_map map]. f_equal.
    change (timeline_json <$> (TTodo <$> tasks_of (JArr (map task_json tasks))) = Some (timeline_json (TTodo tasks))).
    by rewrite tasks_roundtrip.
  - by destruct (ev_kind b).
Qed.
End Replay.

Definition shown_tool (status : ToolCallStatus) (code : option Z) : Event := {|
  ev_turn := Some (str "t"); ev_kind := ETimeline (TToolCall
    {| tc_call_id := str "c"; tc_name := str "bash"; tc_status := status; tc_detail := Shell (str "ls") None code |}) |}.
Definition said_event (text : string) : Event := {| ev_turn := Some (str "t"); ev_kind := ETimeline (TAssistantMessage (str text)) |}.
Definition values (m : gmap rstr json) : list json := (map_to_list m).*2.

Lemma stored_turn_replays_witness :
  let es := [said_event "a"; shown_tool ToolRunning None; said_event "b"; shown_tool ToolCompleted (Some 1%Z)] in
  let b := {| ev_turn := Some (str "t"); ev_kind := ETurnFailed (str "out of time") None |} in
  let items : list TimelineItem := omap (fun e => item_of (ev_kind e)) es in
  (forall e, e ∈ es -> ends_turn (ev_kind e) = false) /\ ends_turn (ev_kind b) = true /\
  (forall t, TToolCall t ∈ items -> code_fits (tc_detail t)) /\
  exists calls, map tool_json calls = values (ac_tools (collected id (str "s") (str "u") 0 (es ++ b :: []))) /\ NoDup (map tc_call_id calls) /\
    (forall call x, last (omap (call_state call) items) = Some x <-> exists t, t ∈ calls /\ tc_call_id t = call /\ tool_json t = x) /\
    map (fun r => replay_event {| sm_id := 1; sm_session := str "s"; sm_role := r.1; sm_ts := 2; sm_data := r.2 |})
      (artifact_rows values (collected id (str "s") (str "u") 0 (es ++ b :: []))) =
    map (fun item => Some (timeline_json item)) (shown_turn items calls (ev_kind b)).
Proof.
  intros es b items.
  assert (forall e, e ∈ es -> ends_turn (ev_kind e) = false) as Hq.
  { intros e He. repeat (apply elem_of_cons in He as [->|He]; [reflexivity|]). by apply elem_of_nil in He. }
  assert (forall t, TToolCall t ∈ items -> code_fits (tc_detail t)) as Hf.
  { intros t Ht. repeat (apply elem_of_cons in Ht as [Ht|Ht]; [try discriminate Ht; injection Ht as ->; cbn; try done; lia|]).
    by apply elem_of_nil in Ht. }
  split; [exact Hq|]. split; [reflexivity|]. split; [exact Hf|].
  apply (stored_turn_replays id (str "s") (str "u") 0 values (fun m => Permutation_refl _) es b [] 1 2 Hq eq_refl Hf).
Defined.
