(* ===== verification/Conn.v ===== *)
(** * Conn: a client's connection ([rpc.rs])

    Requests and their answers, subscriptions with their replay, and the bounded
    queue to the client, as one machine of all that interleaves around a
    connection: its tasks, the agents' events, the journals, the store. *)

From S2P Require Import Prelude Str Json Rows PlanStore SessionStore Events Session SkillText Interact Worktree Wire.

(** ** Channels *)

(** The broadcast channel of an agent session: a receiver that falls behind loses
    the oldest events and is told once. *)
Definition EVENT_BUFFER : nat := 512.
Record receiver := { rx_lagged : bool; rx_events : list StreamEvent }.
Definition new_receiver : receiver := {| rx_lagged := false; rx_events := [] |}.

Definition deliver (ev : StreamEvent) (r : receiver) : receiver :=
  if length (rx_events r) <? EVENT_BUFFER then {| rx_lagged := rx_lagged r; rx_events := rx_events r ++ [ev] |}
  else {| rx_lagged := true; rx_events := tail (rx_events r) ++ [ev] |}.

(** [None] when there is nothing to receive. *)
Definition receive (r : receiver) : option (Session.received * receiver) :=
  if rx_lagged r then Some (RLagged, {| rx_lagged := false; rx_events := rx_events r |})
  else match rx_events r with
       | [] => None
       | ev :: evs => Some (REvent ev, {| rx_lagged := false; rx_events := evs |})
       end.

(** ** Frames *)

(** The subscription an event came by is not on the wire. *)
Inductive frame :=
| FEvent (sub : nat) (session : rstr) (replay : bool) (data : json)
| FAnswer (id : json) (body : json)
| FHello (body : json).

Definition frame_json (f : frame) : json :=
  match f with
  | FEvent _ session replay data => mk_obj
      ([field "event" (jstr "session.event"); field "sessionId" (JStr session)] ++ (if replay then [field "replay" (JBool true)] else []) ++
       [field "data" data])
  | FAnswer _ body | FHello body => body
  end.

(** ** State *)

(** An agent session: its journal, what the journal has not received yet. *)
Record instance := { in_session : rstr; in_journal : JournalState; in_inbox : receiver }.

(** A forwarder: the event in hand, whether it was stopped or its session ended;
    [fw_heard] is all that was broadcast since it listens. *)
Record forwarder := {
  fw_session : rstr; fw_instance : nat; fw_inbox : receiver; fw_hand : option StreamEvent; fw_running : bool; fw_heard : list StreamEvent
}.

(** A call to subscribe holds its place in the line for the lock; it is reading
    the store, sending the rows, sending the journal, or about to be entered. *)
Inductive phase := Reading | SendingRows (rest : list json) | SendingJournal (rest : list json) | Listening.

Inductive call := Subscribing (sub inst : nat) (at_ : phase) (replayed : nat) | Unsubscribing (session : rstr).

Record Conn := {
  co_queue : list frame; co_wire : list frame; co_open : bool; co_subs : gmap rstr nat; co_forwarders : gmap nat forwarder;
  co_calls : list call; co_next : nat; co_instances : list instance; co_requests : list (json * rstr * json); co_received : list json;
  co_replies : list (nat * nat); co_db : Db
}.

Definition with_queue x c := {| co_queue := x; co_wire := co_wire c; co_open := co_open c; co_subs := co_subs c; co_forwarders := co_forwarders c; co_calls := co_calls c; co_next := co_next c; co_instances := co_instances c; co_requests := co_requests c; co_received := co_received c; co_replies := co_replies c; co_db := co_db c |}.
Definition with_wire x c := {| co_queue := co_queue c; co_wire := x; co_open := co_open c; co_subs := co_subs c; co_forwarders := co_forwarders c; co_calls := co_calls c; co_next := co_next c; co_instances := co_instances c; co_requests := co_requests c; co_received := co_received c; co_replies := co_replies c; co_db := co_db c |}.
Definition with_open x c := {| co_queue := co_queue c; co_wire := co_wire c; co_open := x; co_subs := co_subs c; co_forwarders := co_forwarders c; co_calls := co_calls c; co_next := co_next c; co_instances := co_instances c; co_requests := co_requests c; co_received := co_received c; co_replies := co_replies c; co_db := co_db c |}.
Definition with_subs x c := {| co_queue := co_queue c; co_wire := co_wire c; co_open := co_open c; co_subs := x; co_forwarders := co_forwarders c; co_calls := co_calls c; co_next := co_next c; co_instances := co_instances c; co_requests := co_requests c; co_received := co_received c; co_replies := co_replies c; co_db := co_db c |}.
Definition with_forwarders x c := {| co_queue := co_queue c; co_wire := co_wire c; co_open := co_open c; co_subs := co_subs c; co_forwarders := x; co_calls := co_calls c; co_next := co_next c; co_instances := co_instances c; co_requests := co_requests c; co_received := co_received c; co_replies := co_replies c; co_db := co_db c |}.
Definition with_calls x c := {| co_queue := co_queue c; co_wire := co_wire c; co_open := co_open c; co_subs := co_subs c; co_forwarders := co_forwarders c; co_calls := x; co_next := co_next c; co_instances := co_instances c; co_requests := co_requests c; co_received := co_received c; co_replies := co_replies c; co_db := co_db c |}.
Definition with_next x c := {| co_queue := co_queue c; co_wire := co_wire c; co_open := co_open c; co_subs := co_subs c; co_forwarders := co_forwarders c; co_calls := co_calls c; co_next := x; co_instances := co_instances c; co_requests := co_requests c; co_received := co_received c; co_replies := co_replies c; co_db := co_db c |}.
Definition with_instances x c := {| co_queue := co_queue c; co_wire := co_wire c; co_open := co_open c; co_subs := co_subs c; co_forwarders := co_forwarders c; co_calls := co_calls c; co_next := co_next c; co_instances := x; co_requests := co_requests c; co_received := co_received c; co_replies := co_replies c; co_db := co_db c |}.
Definition with_requests x y c := {| co_queue := co_queue c; co_wire := co_wire c; co_open := co_open c; co_subs := co_subs c; co_forwarders := co_forwarders c; co_calls := co_calls c; co_next := co_next c; co_instances := co_instances c; co_requests := x; co_received := y; co_replies := co_replies c; co_db := co_db c |}.
Definition with_replies x c := {| co_queue := co_queue c; co_wire := co_wire c; co_open := co_open c; co_subs := co_subs c; co_forwarders := co_forwarders c; co_calls := co_calls c; co_next := co_next c; co_instances := co_instances c; co_requests := co_requests c; co_received := co_received c; co_replies := x; co_db := co_db c |}.
Definition with_db x c := {| co_queue := co_queue c; co_wire := co_wire c; co_open := co_open c; co_subs := co_subs c; co_forwarders := co_forwarders c; co_calls := co_calls c; co_next := co_next c; co_instances := co_instances c; co_requests := co_requests c; co_received := co_received c; co_replies := co_replies c; co_db := x |}.

(** ** Sending *)

Definition QUEUE_CAP : nat := 256.
Definition MAX_RESPONSE_BYTES : Z := 2 ^ 20.

(** [try_send]: a full or closed queue drops the frame. *)
Definition send (f : frame) (c : Conn) : Conn :=
  if co_open c && (length (co_queue c) <? QUEUE_CAP) then with_queue (co_queue c ++ [f]) c else c.

Section Conn.
Context `{JT : JsonText}.
(** Why a text is not JSON; the release; the configured timeout of permission
    asks and the connections from other machines. *)
Variables (json_error : rstr -> rstr) (version : rstr) (permission_timeout : json) (remote_clients : Z).

Definition hello : frame := FHello (mk_obj [field "hello" (mk_obj
  [field "protocol" (jint 2); field "daemon" (jstr "damond"); field "version" (JStr version);
   field "permissionTimeoutSecs" permission_timeout; field "remoteClients" (jint remote_clients)])]).

(** A connection opens with the greeting in its queue. *)
Definition connect (db : Db) : Conn := {|
  co_queue := [hello]; co_wire := []; co_open := true; co_subs := ∅; co_forwarders := ∅; co_calls := []; co_next := 0; co_instances := [];
  co_requests := []; co_received := []; co_replies := []; co_db := db |}.

(** ** Requests *)

Definition error_json (code : Z) (message : rstr) (data : option json) : json :=
  mk_obj ([field "code" (jint code); field "message" (JStr message)] ++ opt_field "data" data).

Definition failure (id : json) (code : Z) (message : rstr) (data : option json) : json :=
  mk_obj [field "id" id; field "error" (error_json code message data)].

(** A frame that is to be answered is noted under the id it is answered by. *)
Definition note_received (id : json) (c : Conn) : Conn := with_requests (co_requests c) (co_received c ++ [id]) c.

(** [handle_frame] up to the spawn of the dispatch. *)
Definition handle_frame (text : rstr) (c : Conn) : Conn :=
  match from_str text with
  | None =>
      send (FAnswer JNull (failure JNull (-32700) (str "parse error: " ++ json_error text) None)) (note_received JNull c)
  | Some req =>
      match as_str req.["method"] with
      | None =>
          match get req (str "id") with
          | Some JNull => c
          | _ => send (FAnswer req.["id"] (failure req.["id"] (-32600) (str "invalid request: missing method") None))
                   (note_received req.["id"] c)
          end
      | Some method =>
          let id := default JNull (get req (str "id")) in
          with_requests (co_requests c ++ [(id, method, default (mk_obj []) (get req (str "params")))]) (co_received c ++ [id]) c
      end
  end.

(** The frame that answers a request. *)
Definition answer (id : json) (r : result json Error) : json :=
  let body := match r with
              | Ok v => mk_obj [field "id" id; field "result" v]
              | Err e => let '(code, message, data) := error_payload e in failure id code message data
              end in
  if (MAX_RESPONSE_BYTES <? Z.of_nat (utf8_len (to_string body)))%Z then
    failure id (-32005) (str "response exceeds the " ++ dec (Z.to_N MAX_RESPONSE_BYTES) ++
                         str "-byte frame budget — page it with limit/offset") None
  else body.

(** The dispatch of a request in flight ends. *)
Definition dispatched (k : nat) (r : result json Error) (c : Conn) : Conn :=
  match co_requests c !! k with
  | None => c
  | Some (id, _, _) => send (FAnswer id (answer id r)) (with_requests (delete k (co_requests c)) (co_received c) c)
  end.

(** ** Subscriptions *)

Definition REPLAY_HISTORY : nat := 200.

(** What the store has to replay; nothing when reading it fails. *)
Definition history (db : Db) (session : rstr) : list json :=
  match messages_paged db session REPLAY_HISTORY 0 with Ok rows => omap (M:=list) replay_event rows | Err _ => [] end.

Definition set_head (k : call) (c : Conn) : Conn := with_calls (k :: tail (co_calls c)) c.

(** One move of the call that holds the lock. *)
Definition advance (c : Conn) : Conn :=
  match co_calls c with
  | [] => c
  | Unsubscribing session :: calls =>
      match co_subs c !! session with
      | None => with_calls calls c
      | Some n =>
          let stop f := {| fw_session := fw_session f; fw_instance := fw_instance f; fw_inbox := fw_inbox f; fw_hand := fw_hand f;
                           fw_running := false; fw_heard := fw_heard f |} in
          with_forwarders (alter stop n (co_forwarders c)) (with_subs (delete session (co_subs c)) (with_calls calls c))
      end
  | Subscribing n i at_ replayed :: calls =>
      match co_instances c !! i with
      | None => with_calls calls c
      | Some inst =>
          let session := in_session inst in
          match at_ with
          | Reading =>
              match co_subs c !! session with
              | Some _ => with_replies (co_replies c ++ [(n, 0)]) (with_calls calls c)
              | None => set_head (Subscribing n i (SendingRows (history (co_db c) session)) 0) c
              end
          | SendingRows (data :: rest) =>
              send (FEvent n session true data) (set_head (Subscribing n i (SendingRows rest) (S replayed)) c)
          | SendingRows [] =>
              set_head (Subscribing n i (SendingJournal (map event_json (Journal.snapshot_current_turn (in_journal inst)))) replayed) c
          | SendingJournal (data :: rest) =>
              send (FEvent n session true data) (set_head (Subscribing n i (SendingJournal rest) (S replayed)) c)
          | SendingJournal [] =>
              with_forwarders (<[n := {| fw_session := session; fw_instance := i; fw_inbox := new_receiver; fw_hand := None; fw_running := true;
                                         fw_heard := [] |}]> (co_forwarders c))
                (set_head (Subscribing n i Listening replayed) c)
          | Listening => with_replies (co_replies c ++ [(n, replayed)]) (with_subs (<[session := n]> (co_subs c)) (with_calls calls c))
          end
      end
  end.

(** ** What happens around *)

Definition fw_with (inbox : receiver) (hand : option StreamEvent) (heard : list StreamEvent) (f : forwarder) : forwarder := {|
  fw_session := fw_session f; fw_instance := fw_instance f; fw_inbox := inbox; fw_hand := hand; fw_running := fw_running f; fw_heard := heard |}.

(** An event of an agent session goes to its journal and its forwarders. *)
Definition broadcast (i : nat) (ev : StreamEvent) (c : Conn) : Conn :=
  let hear f := if (fw_instance f =? i) then fw_with (deliver ev (fw_inbox f)) (fw_hand f) (fw_heard f ++ [ev]) f else f in
  let note inst := {| in_session := in_session inst; in_journal := in_journal inst; in_inbox := deliver ev (in_inbox inst) |} in
  with_forwarders (hear <$> co_forwarders c) (with_instances (alter note i (co_instances c)) c).

Definition journaled (i : nat) (c : Conn) : Conn :=
  let take inst := match receive (in_inbox inst) with
                   | Some (r, rx) => {| in_session := in_session inst; in_journal := journal_receive (in_journal inst) r; in_inbox := rx |}
                   | None => inst
                   end in
  with_instances (alter take i (co_instances c)) c.

(** A forwarder takes an event, and sends it on: stopping it meanwhile does not
    take the event out of its hand. *)
Definition take_event (n : nat) (c : Conn) : Conn :=
  let go f := match fw_running f, fw_hand f, receive (fw_inbox f) with
              | true, None, Some (REvent ev, rx) => fw_with rx (Some ev) (fw_heard f) f
              | true, None, Some (RLagged, rx) => fw_with rx None (fw_heard f) f
              | _, _, _ => f
              end in
  with_forwarders (alter go n (co_forwarders c)) c.

Definition forward (n : nat) (c : Conn) : Conn :=
  match co_forwarders c !! n with
  | Some f =>
      match fw_hand f with
      | Some ev =>
          send (FEvent n (fw_session f) false (event_json ev))
            (with_forwarders (<[n := fw_with (fw_inbox f) None (fw_heard f) f]> (co_forwarders c)) c)
      | None => c
      end
  | None => c
  end.

Inductive op :=
| Starts (session : rstr)
| Broadcasts (i : nat) (ev : StreamEvent)
| Journals (i : nat)
| Stores (db : Db)
| Subscribe (i : nat)
| Unsubscribe (session : rstr)
| Advance
| Takes (n : nat)
| Forwards (n : nat)
| Receives (text : rstr)
| Dispatched (k : nat) (r : result json Error)
| Writes
| Revoked.

Definition conn_step (c : Conn) (o : op) : Conn :=
  match o with
  | Starts session => with_instances (co_instances c ++ [{| in_session := session; in_journal := Journal.new; in_inbox := new_receiver |}]) c
  | Broadcasts i ev => broadcast i ev c
  | Journals i => journaled i c
  | Stores db => with_db db c
  | Subscribe i => with_next (S (co_next c)) (with_calls (co_calls c ++ [Subscribing (co_next c) i Reading 0]) c)
  | Unsubscribe session => with_calls (co_calls c ++ [Unsubscribing session]) c
  | Advance => advance c
  | Takes n => take_event n c
  | Forwards n => forward n c
  | Receives text => handle_frame text c
  | Dispatched k r => dispatched k r c
  | Writes => match co_open c, co_queue c with true, f :: q => with_wire (co_wire c ++ [f]) (with_queue q c) | _, _ => c end
  | Revoked => with_open false c
  end.

Definition run_conn (db : Db) (ops : list op) : Conn := fold_left conn_step ops (connect db).

(** All that was put in the queue, in order. *)
Definition accepted (c : Conn) : list frame := co_wire c ++ co_queue c.
End Conn.
