(* ===== verification/ConnFacts.v ===== *)
(** * ConnFacts: what a connection is sent

    Invariants of the machine of [Conn]: the line for the lock, the forwarders, and
    the frames in the queue; then its theorems. *)

From S2P Require Import Prelude Str Json Rows PlanStore SessionStore Events Session SkillText Interact Worktree Wire Conn.

(** ** The queue *)

Lemma send_frames f c : accepted (send f c) = accepted c ++ [f] \/ accepted (send f c) = accepted c.
Proof.
  unfold send, accepted. destruct (_ && _); [|by right]. left. cbn. by rewrite app_assoc.
Qed.

Lemma send_rest {A} (g : Conn -> A) f c : (forall q, g (with_queue q c) = g c) -> g (send f c) = g c.
Proof. intros Hg. unfold send. destruct (_ && _); [apply Hg|done]. Qed.

Lemma send_bounded f c : length (co_queue c) <= QUEUE_CAP -> length (co_queue (send f c)) <= QUEUE_CAP.
Proof.
  intros Hq. unfold send. destruct (co_open c && (length (co_queue c) <? QUEUE_CAP)) eqn:E; [|done].
  apply andb_true_iff in E as [_ Hl%Nat.ltb_lt]. cbn [co_queue with_queue]. rewrite length_app. cbn. lia.
Qed.

(** ** The frames of a subscription *)

Definition live_data (n : nat) (fs : list frame) : list json :=
  omap (M:=list) (fun f => match f with FEvent m _ false d => if m =? n then Some d else None | _ => None end) fs.

(** No frame of the replay comes behind a live one. *)
Definition replay_first (n : nat) (fs : list frame) : Prop :=
  forall l1 s d l2, fs = l1 ++ FEvent n s true d :: l2 -> live_data n l1 = [].

Lemma replay_first_snoc n fs f : replay_first n fs ->
  (forall s d, f = FEvent n s true d -> live_data n fs = []) -> replay_first n (fs ++ [f]).
Proof.
  intros Hfs Hf l1 s d l2 E. destruct l2 as [|g l2 _] using rev_ind.
  - apply app_inj_tail in E as [-> ->]. by eapply Hf.
  - rewrite app_comm_cons, app_assoc in E. apply app_inj_tail in E as [-> _]. by eapply Hfs.
Qed.

Lemma live_data_app n l1 l2 : live_data n (l1 ++ l2) = live_data n l1 ++ live_data n l2.
Proof. apply omap_app. Qed.

(** ** The line for the lock *)

Definition call_sub (k : call) : option nat := match k with Subscribing n _ _ _ => Some n | Unsubscribing _ => None end.
Definition waiting (k : call) : Prop := match k with Subscribing _ _ p _ => p = Reading | Unsubscribing _ => True end.
Definition begun (k : call) (fws : gmap nat forwarder) : Prop :=
  match k with
  | Subscribing n _ Listening _ => is_Some (fws !! n)
  | Subscribing n _ _ _ => fws !! n = None
  | Unsubscribing _ => True
  end.

(** Only the head has left the line; a subscription has its forwarder just when it
    listens; frames and forwarders belong to subscriptions made. *)
Record line_ok (c : Conn) : Prop := {
  li_tail : Forall waiting (tail (co_calls c));
  li_nodup : NoDup (omap (M:=list) call_sub (co_calls c));
  li_calls n : n ∈ omap (M:=list) call_sub (co_calls c) -> n < co_next c;
  li_begun : Forall (fun k => begun k (co_forwarders c)) (co_calls c);
  li_forwarders n : is_Some (co_forwarders c !! n) -> n < co_next c;
  li_live n : live_data n (accepted c) <> [] -> is_Some (co_forwarders c !! n)
}.

Lemma line_send f c : line_ok c -> (forall n s d, f = FEvent n s false d -> is_Some (co_forwarders c !! n)) -> line_ok (send f c).
Proof.
  intros [H1 H2 H3 H4 H5 H6] Hf. split; rewrite ?(send_rest co_calls), ?(send_rest co_forwarders), ?(send_rest co_next) by done; try done.
  intros n Hn. destruct (send_frames f c) as [E|E]; rewrite E in Hn; [|by apply H6]. rewrite live_data_app in Hn.
  destruct (live_data n (accepted c)) as [|d l] eqn:El; [|apply H6; by rewrite El]. cbn in Hn.
  destruct f as [m s [] d| |]; try done. destruct (Nat.eqb_spec m n) as [->|]; [|done]. by eapply Hf.
Qed.

(** Changing forwarders in place, or what the line does not speak of. *)
Lemma line_same c c' : co_calls c' = co_calls c -> co_next c' = co_next c -> accepted c' = accepted c ->
  (forall n, is_Some (co_forwarders c' !! n) <-> is_Some (co_forwarders c !! n)) -> line_ok c -> line_ok c'.
Proof.
  intros Ec En Ea Hf [H1 H2 H3 H4 H5 H6]. split; rewrite ?Ec, ?En, ?Ea; try done.
  - eapply Forall_impl; [exact H4|]. intros [n i [] r|s]; cbn; rewrite ?eq_None_not_Some, ?Hf; done.
  - intros n Hn. by apply H5, Hf.
  - intros n Hn. by apply Hf, H6.
Qed.

Lemma line_pop c k calls : co_calls c = k :: calls -> line_ok c -> line_ok (with_calls calls c).
Proof.
  intros E [H1 H2 H3 H4 H5 H6]. rewrite E in *. cbn [tail omap list_omap] in *. apply Forall_cons in H4 as [_ H4].
  split; cbn [co_calls with_calls co_next co_forwarders]; try done.
  - destruct calls; [done|]. by apply Forall_cons in H1 as [_ H1].
  - destruct (call_sub k); [by apply NoDup_cons in H2 as [_ H2]|done].
  - intros n Hn. apply H3. destruct (call_sub k); [by right|done].
Qed.

(** The head moves on, with the forwarder it needs. *)
Lemma head_line c n i p r p' r' calls : co_calls c = Subscribing n i p r :: calls -> line_ok c ->
  (begun (Subscribing n i p r) (co_forwarders c) -> begun (Subscribing n i p' r') (co_forwarders c)) ->
  line_ok (set_head (Subscribing n i p' r') c).
Proof.
  intros E [H1 H2 H3 H4 H5 H6] Hp. unfold set_head. rewrite E in *. cbn [tail omap list_omap call_sub] in *. apply Forall_cons in H4 as [H40 H4].
  split; cbn [co_calls with_calls co_next co_forwarders tail omap list_omap call_sub]; try done.
  constructor; [by apply Hp|done].
Qed.

Lemma advance_line `{JT : JsonText} c : line_ok c -> line_ok (advance c).
Proof.
  intros H. unfold advance. destruct (co_calls c) as [|[n i p r|s] calls] eqn:E; [done| |].
  - destruct (co_instances c !! i) as [inst|]; [|by eapply line_pop].
    destruct p as [|[|d rest]|[|d rest]|].
    + destruct (co_subs c !! in_session inst); [|by eapply head_line].
      eapply line_same; [..|by eapply (line_pop c)]; done.
    + by eapply head_line.
    + apply line_send; [by eapply head_line|done].
    + set (fw := Build_forwarder _ _ _ _ _ _). pose proof H as [H1 H2 H3 H4 H5 H6]. unfold set_head. rewrite E in *.
      cbn [tail omap list_omap call_sub] in *. apply NoDup_cons in H2 as [Hn H2]. apply Forall_cons in H4 as [H40 H4].
      split; cbn [co_calls with_calls with_forwarders co_next co_forwarders tail omap list_omap call_sub]; try done.
      * by constructor.
      * constructor; [cbn; by rewrite lookup_insert_eq|]. apply Forall_forall. intros k Hk. rewrite Forall_forall in H1, H4.
        specialize (H1 k Hk). specialize (H4 k Hk). destruct k as [m j q t|]; [|done]. cbn in H1. subst q. cbn in H4 |- *.
        rewrite lookup_insert_ne; [done|]. intros ->. apply Hn. apply list_elem_of_omap. by exists (Subscribing m j Reading t).
      * intros m Hm. destruct (decide (m = n)) as [->|]; [apply H3; left|]. rewrite lookup_insert_ne in Hm by done. by apply H5.
      * intros m Hm. destruct (decide (m = n)) as [->|]; [by rewrite lookup_insert_eq|]. rewrite lookup_insert_ne by done. by apply H6.
    + apply line_send; [by eapply head_line|done].
    + eapply line_same; [..|by eapply (line_pop c)]; done.
  - destruct (co_subs c !! s) as [n|]; [|by eapply line_pop].
    eapply line_same; [..|by eapply (line_pop c)]; try done. intros m. cbn. rewrite lookup_alter.
    destruct (decide (n = m)) as [->|]; [|done]. by rewrite fmap_is_Some.
Qed.

Lemma step_line `{JT : JsonText} json_error o c : line_ok c -> line_ok (conn_step json_error c o).
Proof.
  intros H. destruct o as [s|i ev|i|db|i|s| |n|n|text|k r| |]; cbn [conn_step].
  - by apply (line_same c).
  - unfold broadcast. eapply line_same; [..|exact H]; try done. intros m. cbn. rewrite lookup_fmap. by rewrite fmap_is_Some.
  - apply (line_same c); [done..|exact H].
  - by apply (line_same c).
  - destruct H as [H1 H2 H3 H4 H5 H6]. split; cbn [co_calls with_calls with_next co_next co_forwarders].
    + destruct (co_calls c) as [|k ks]; [constructor|]. cbn [tail app]. apply Forall_app. split; [done|by constructor].
    + rewrite omap_app. apply NoDup_app. split; [done|]. split; [|cbn; apply NoDup_singleton].
      intros n Hn. specialize (H3 n Hn). cbn. rewrite list_elem_of_singleton. lia.
    + intros n. rewrite omap_app. cbn. intros [Hn%H3|Hn%list_elem_of_singleton]%elem_of_app; lia.
    + apply Forall_app. split; [done|]. constructor; [|constructor]. cbn. apply eq_None_not_Some. intros Hs%H5. lia.
    + intros n Hn%H5. lia.
    + exact H6.
  - destruct H as [H1 H2 H3 H4 H5 H6]. split; cbn [co_calls with_calls co_next co_forwarders]; try done.
    + destruct (co_calls c) as [|k ks]; [constructor|]. cbn [tail app]. apply Forall_app. split; [done|by constructor].
    + rewrite omap_app. cbn. by rewrite app_nil_r.
    + intros n. rewrite omap_app. cbn. rewrite app_nil_r. apply H3.
    + apply Forall_app. split; [done|by constructor].
  - by apply advance_line.
  - unfold take_event. eapply line_same; [..|exact H]; try done. intros m. cbn. rewrite lookup_alter.
    destruct (decide (n = m)) as [->|]; [|done]. by rewrite fmap_is_Some.
  - unfold forward. destruct (co_forwarders c !! n) as [f|] eqn:Ef; [|done]. destruct (fw_hand f) as [ev|]; [|done]. apply line_send.
    + eapply line_same; [..|exact H]; try done. intros m. cbn. destruct (decide (n = m)) as [->|]; [|by rewrite lookup_insert_ne].
      rewrite lookup_insert_eq, Ef. split; by eexists.
    + intros m s d [= <- _ _]. cbn. by rewrite lookup_insert_eq.
  - unfold handle_frame. destruct (from_str text) as [req|]; [|apply line_send; [by apply (line_same c)|done]].
    destruct (as_str _); [by apply (line_same c)|].
    destruct (get req _) as [[]|]; [done|..]; (apply line_send; [by apply (line_same c)|done]).
  - unfold dispatched. destruct (co_requests c !! k) as [[[id m] ps]|]; [|done]. apply line_send; [by apply (line_same c)|done].
  - destruct (co_open c), (co_queue c) as [|f q] eqn:Eq; try done. eapply line_same; [..|exact H]; try done.
    unfold accepted. cbn. by rewrite Eq, <-app_assoc.
  - by apply (line_same c).
Qed.
