(* ===== verification/ConnSubs.v ===== *)
(** * ConnSubs: the subscriptions of a connection

    What a forwarder sends is what it heard, in order and for its session; each
    session has one running forwarder at most; each request is answered once at
    most; and runs that show it. *)

From S2P Require Import Prelude Str Json Rows Session PlanStore SessionStore SessionFacts Events SkillText Interact Worktree Wire Conn ConnFacts.

Section ConnSubs.
Context `{JT : JsonText}.
Variables (json_error : rstr -> rstr) (version : rstr) (permission_timeout : json) (remote_clients : Z).
#[local] Notation run := (run_conn json_error version permission_timeout remote_clients).
#[local] Notation step := (conn_step json_error).

Lemma run_invariant (P : Conn -> Prop) db ops :
  P (connect version permission_timeout remote_clients db) -> (forall o c, P c -> P (step c o)) -> P (run db ops).
Proof. intros H0 HS. unfold run_conn. revert H0. generalize (connect version permission_timeout remote_clients db).
  induction ops as [|o ops IH]; intros c H; [exact H|]. cbn. by apply IH, HS. Qed.

Lemma run_line db ops : line_ok (run db ops).
Proof. apply run_invariant; [|intros; by apply step_line]. split; cbn; try done.
  - constructor.
  - by intros n Hn%elem_of_nil.
  - intros n [f H]. by rewrite lookup_empty in H.
Qed.

(** ** The replay comes first *)

Lemma no_forwarder_no_live n c : line_ok c -> co_forwarders c !! n = None -> live_data n (accepted c) = [].
Proof.
  intros Hl Hn. destruct (live_data n (accepted c)) as [|d l] eqn:El; [done|]. destruct (li_live c Hl n) as [f Hf]; [by rewrite El|]. congruence.
Qed.

Lemma head_begun c k calls : line_ok c -> co_calls c = k :: calls -> begun k (co_forwarders c).
Proof. intros Hl E. pose proof (li_begun c Hl) as Hb. rewrite E in Hb. by apply Forall_cons in Hb as [Hb _]. Qed.

Lemma send_replay_first n f c : replay_first n (accepted c) ->
  (forall s d, f = FEvent n s true d -> live_data n (accepted c) = []) -> replay_first n (accepted (send f c)).
Proof. intros H Hf. destruct (send_frames f c) as [->| ->]; [|done]. by apply replay_first_snoc. Qed.

Lemma step_replay_first n o c : line_ok c -> replay_first n (accepted c) -> replay_first n (accepted (step c o)).
Proof.
  intros Hl H. destruct o as [s|i ev|i|db|i|s| |k|k|text|k r| |]; cbn [conn_step]; try exact H.
  - unfold advance. destruct (co_calls c) as [|[m i p r|s] calls] eqn:E; [done| |by destruct (co_subs c !! s)].
    destruct (co_instances c !! i) as [inst|]; [|done].
    assert (forall k d, begun (Subscribing m i p r) (co_forwarders c) -> p <> Listening -> forall s,
              replay_first n (accepted (send (FEvent m s true d) (set_head k c)))) as Hsend.
    { intros k d Hb Hp s. apply send_replay_first; [done|]. intros s' d' [= -> _ _]. change (accepted (set_head k c)) with (accepted c).
      apply no_forwarder_no_live; [done|]. by destruct p. }
    pose proof (head_begun c _ calls Hl E) as Hb.
    destruct p as [|[|d rest]|[|d rest]|]; try done; [by destruct (co_subs c !! _)|by apply Hsend..].
  - unfold forward. destruct (co_forwarders c !! k) as [f|]; [|done]. destruct (fw_hand f); [|done]. by apply send_replay_first.
  - unfold handle_frame. destruct (from_str text) as [req|]; [|by apply send_replay_first].
    destruct (as_str _); [done|]. destruct (get req _) as [[]|]; [done|..]; by apply send_replay_first.
  - unfold dispatched. destruct (co_requests c !! k) as [[[id m] ps]|]; [|done]. by apply send_replay_first.
  - destruct (co_open c), (co_queue c) as [|f q] eqn:Eq; try exact H. unfold accepted in *. cbn. by rewrite Eq, <-app_assoc in *.
Qed.

Lemma run_replay_first db ops n : replay_first n (accepted (run db ops)).
Proof.
  apply (run_invariant (fun c => line_ok c /\ replay_first n (accepted c))).
  - split; [apply (run_line db [])|]. intros [|f [|]] s d l2 E; cbn in E; by simplify_eq.
  - intros o c [Hl H]. split; [by apply step_line|by apply step_replay_first].
Qed.

(** ** The live frames *)

Definition held (f : forwarder) : list StreamEvent := option_list (fw_hand f) ++ rx_events (fw_inbox f).

(** What was sent, what is in hand and what waits is a part of what was heard, in
    its order, and every frame is under the name of the session. *)
Record stream_ok (n : nat) (c : Conn) : Prop := {
  st_heard f : co_forwarders c !! n = Some f -> live_data n (accepted c) ++ map event_json (held f) `sublist_of` map event_json (fw_heard f);
  st_session f : co_forwarders c !! n = Some f -> forall s d, FEvent n s false d ∈ accepted c -> s = fw_session f
}.

Lemma stream_same n c c' : accepted c' = accepted c -> co_forwarders c' !! n = co_forwarders c !! n -> stream_ok n c -> stream_ok n c'.
Proof. intros Ea Ef [H1 H2]. split; rewrite ?Ea, ?Ef; done. Qed.

Lemma stream_send n f c : stream_ok n c -> (forall s d, f <> FEvent n s false d) -> stream_ok n (send f c).
Proof.
  intros [H1 H2] Hf. assert (co_forwarders (send f c) = co_forwarders c) as Ef by by apply (send_rest co_forwarders).
  destruct (send_frames f c) as [Ea|Ea]; split; rewrite Ea, Ef; try done.
  - intros g Hg. rewrite live_data_app. destruct f as [m s [] d| |]; cbn; rewrite ?app_nil_r; try by apply H1.
    destruct (Nat.eqb_spec m n) as [->|]; [by destruct (Hf s d)|]. rewrite app_nil_r. by apply H1.
  - intros g Hg s d [Hd|Hd%list_elem_of_singleton]%elem_of_app; [by eapply H2|]. by destruct (Hf s d).
Qed.

Lemma sublist_map {A B} (g : A -> B) (l1 l2 : list A) : l1 `sublist_of` l2 -> map g l1 `sublist_of` map g l2.
Proof. induction 1; cbn; by constructor. Qed.

Lemma deliver_events ev rx : exists kept, rx_events (deliver ev rx) = kept ++ [ev] /\ kept `sublist_of` rx_events rx.
Proof.
  unfold deliver. destruct (_ <? _); cbn [rx_events]; eexists; (split; [done|]); [done|].
  destruct (rx_events rx); [done|]. by apply sublist_cons.
Qed.

Lemma hear_more live ev f : live ++ map event_json (held f) `sublist_of` map event_json (fw_heard f) ->
  let f' := fw_with (deliver ev (fw_inbox f)) (fw_hand f) (fw_heard f ++ [ev]) f in
  live ++ map event_json (held f') `sublist_of` map event_json (fw_heard f').
Proof.
  intros H f'. destruct (deliver_events ev (fw_inbox f)) as (kept & E & Hk). unfold held in *. cbn [fw_hand fw_inbox fw_heard fw_with f'].
  rewrite E, !map_app, !app_assoc. apply sublist_app; [|done]. etrans; [|exact H]. rewrite map_app, app_assoc.
  apply sublist_app; [done|]. by apply sublist_map.
Qed.

Lemma take_keeps live f : live ++ map event_json (held f) `sublist_of` map event_json (fw_heard f) ->
  let f' := match fw_running f, fw_hand f, receive (fw_inbox f) with
            | true, None, Some (REvent ev, rx) => fw_with rx (Some ev) (fw_heard f) f
            | true, None, Some (RLagged, rx) => fw_with rx None (fw_heard f) f
            | _, _, _ => f
            end in
  live ++ map event_json (held f') `sublist_of` map event_json (fw_heard f') /\ fw_session f' = fw_session f.
Proof.
  unfold held, receive. destruct f as [s i [lag evs] [ev|] run heard]; cbn; [by destruct run|].
  destruct run; [|done]. destruct lag; [done|]. by destruct evs.
Qed.
Lemma step_stream n o c : line_ok c -> stream_ok n c -> stream_ok n (step c o).
Proof.
  intros Hl H. destruct o as [s|i ev|i|db|i|s| |k|k|text|k r| |]; cbn [conn_step]; try (by apply (stream_same n c)).
  - destruct H as [H1 H2]. split; cbn; intros f; rewrite lookup_fmap; intros (g & Hg & ->)%fmap_Some.
    + destruct (fw_instance g =? i); [|by apply H1]. apply hear_more. by apply H1.
    + intros s d Hd. rewrite (H2 g Hg s d Hd). by destruct (_ =? _).
  - unfold advance. destruct (co_calls c) as [|[m i p r|s] calls] eqn:E; [done| |].
    + destruct (co_instances c !! i) as [inst|]; [|by apply (stream_same n c)].
      destruct p as [|[|d rest]|[|d rest]|]; try (by apply (stream_same n c)); try (apply stream_send; [by apply (stream_same n c)|done]).
      * by destruct (co_subs c !! _); apply (stream_same n c).
      * destruct (decide (m = n)) as [->|Hm]; [|apply (stream_same n c); [done| |done]; cbn; by rewrite lookup_insert_ne].
        pose proof (no_forwarder_no_live n c Hl (head_begun c _ _ Hl E)) as Hn.
        split; cbn; intros f; rewrite lookup_insert_eq; intros [= <-].
        -- change (live_data n (accepted c) ++ [] `sublist_of` []). by rewrite Hn.
        -- intros s d Hd. exfalso. change (FEvent n s false d ∈ accepted c) in Hd.
           assert (d ∈ live_data n (accepted c)) as Hin; [|rewrite Hn in Hin; by apply elem_of_nil in Hin].
           unfold live_data. apply list_elem_of_omap. eexists; split; [exact Hd|]. cbn. by rewrite Nat.eqb_refl.
    + destruct (co_subs c !! s) as [m|]; [|by apply (stream_same n c)]. destruct H as [H1 H2].
      split; cbn; intros f; rewrite lookup_alter; destruct (decide (m = n)) as [->|]; try (by apply H1); try (by apply H2);
        intros (g & Hg & ->)%fmap_Some; [by apply (H1 g)|by apply (H2 g)].
  - destruct H as [H1 H2]. split; cbn; intros f; rewrite lookup_alter; destruct (decide (k = n)) as [->|]; try (by apply H1); try (by apply H2);
      intros (g & Hg & ->)%fmap_Some; pose proof (take_keeps _ g (H1 g Hg)) as [Hk Hs]; [exact Hk|]. intros s d Hd. rewrite Hs. by eapply H2.
  - unfold forward. destruct (co_forwarders c !! k) as [f|] eqn:Ef; [|done]. destruct (fw_hand f) as [ev|] eqn:Eh; [|done].
    destruct (decide (k = n)) as [->|Hk]; [|apply stream_send; [apply (stream_same n c); [done| |done]; cbn; by rewrite lookup_insert_ne|congruence]].
    destruct H as [H1 H2]. specialize (H1 f Ef). unfold held in H1. rewrite Eh in H1. cbn [option_list app map] in H1.
    set (c' := with_forwarders _ c). change (accepted c) with (accepted c') in *.
    destruct (send_frames (FEvent n (fw_session f) false (event_json ev)) c') as [Ea|Ea]; split; rewrite Ea, (send_rest co_forwarders) by done;
      intros g; cbn [co_forwarders with_forwarders c']; rewrite lookup_insert_eq; intros [= <-]; unfold held; cbn [fw_hand fw_with option_list app fw_inbox fw_heard fw_session].
    + rewrite live_data_app. cbn. rewrite Nat.eqb_refl. by rewrite <-app_assoc.
    + intros s d [Hd|Hd%list_elem_of_singleton]%elem_of_app; [by apply (H2 f Ef s d)|]. by injection Hd.
    + etrans; [|exact H1]. apply sublist_app; [done|]. by apply sublist_cons.
    + intros s d Hd. by apply (H2 f Ef s d).
  - unfold handle_frame. destruct (from_str text) as [req|]; [|apply stream_send; [by apply (stream_same n c)|done]].
    destruct (as_str _); [by apply (stream_same n c)|].
    destruct (get req _) as [[]|]; [done|..]; (apply stream_send; [by apply (stream_same n c)|done]).
  - unfold dispatched. destruct (co_requests c !! k) as [[[id m] ps]|]; [|done]. apply stream_send; [by apply (stream_same n c)|done].
  - destruct (co_open c), (co_queue c) as [|f q] eqn:Eq; try done. apply (stream_same n c); [|done..].
    unfold accepted. cbn. by rewrite Eq, <-app_assoc.
Qed.

(** ** One forwarder per session *)

Definition session_of (c : Conn) (i : nat) : option rstr := in_session <$> co_instances c !! i.

(** The head of the line past its first check: its session is not in the table,
    and its forwarder, if it has one, listens for that session. *)
Definition head_free (c : Conn) : Prop :=
  match co_calls c with
  | Subscribing n i p _ :: _ =>
      p = Reading \/ exists s, session_of c i = Some s /\ co_subs c !! s = None /\
        forall f, p = Listening -> co_forwarders c !! n = Some f -> fw_session f = s
  | _ => True
  end.

(** A running forwarder is in the table, or about to be entered. *)
Definition accounted (c : Conn) : Prop := forall n f, co_forwarders c !! n = Some f -> fw_running f = true ->
  co_subs c !! fw_session f = Some n \/ exists i r rest, co_calls c = Subscribing n i Listening r :: rest.

Definition subs_ok (c : Conn) : Prop := head_free c /\ accounted c.

(** Forwarders may move on in place, sessions may start, calls may join the line. *)
Lemma subs_same c c' : (exists more, co_calls c' = co_calls c ++ more /\ (co_calls c = [] -> Forall waiting more)) ->
  co_subs c' = co_subs c ->
  (forall i s, session_of c i = Some s -> session_of c' i = Some s) ->
  (forall n f', co_forwarders c' !! n = Some f' ->
     exists f, co_forwarders c !! n = Some f /\ fw_session f' = fw_session f /\ fw_running f' = fw_running f) ->
  subs_ok c -> subs_ok c'.
Proof.
  intros (more & Ec & Hm) Es Hi Hf [Hh Ha]. split.
  - unfold head_free in *. rewrite Ec. destruct (co_calls c) as [|[n i p r|] calls].
    + specialize (Hm eq_refl). destruct more as [|[]]; [done| |done]. cbn. left. by apply Forall_cons in Hm as [Hw _].
    + cbn. destruct Hh as [->|(s & H1 & H2 & H3)]; [by left|right]. exists s. split; [by apply Hi|]. split; [by rewrite Es|].
      intros f' Hp (f & Hg & -> & _)%Hf. by apply H3.
    + done.
  - intros n f' (f & Hg & -> & ->)%Hf Hr. rewrite Es. destruct (Ha n f Hg Hr) as [|(i & r & rest & E)]; [by left|right].
    rewrite Ec, E. by eexists _, _, _.
Qed.

Lemma subs_send f c : subs_ok c -> subs_ok (send f c).
Proof.
  intros [Hh Ha]. unfold subs_ok, head_free, accounted, session_of in *.
  by rewrite !(send_rest co_calls), !(send_rest co_subs), !(send_rest co_forwarders), !(send_rest co_instances) by done.
Qed.

(** The head leaves the line without a forwarder of its own. *)
Lemma subs_pop c k calls : line_ok c -> co_calls c = k :: calls -> (forall n i r, k <> Subscribing n i Listening r) ->
  subs_ok c -> subs_ok (with_calls calls c).
Proof.
  intros Hl E Hk [Hh Ha]. split.
  - pose proof (li_tail c Hl) as Ht. rewrite E in Ht. unfold head_free. cbn. destruct calls as [|[] calls]; try done. left.
    by apply Forall_cons in Ht as [Ht _].
  - intros n f Hf Hr. destruct (Ha n f Hf Hr) as [|(i & r & rest & E')]; [by left|]. exfalso. rewrite E in E'. injection E'. intros _. apply Hk.
Qed.

(** The head moves on, before it has a forwarder. *)
Lemma subs_head c n i p r calls s p' r' : co_calls c = Subscribing n i p r :: calls -> session_of c i = Some s -> co_subs c !! s = None ->
  line_ok c -> p <> Listening -> p' <> Listening -> subs_ok c -> subs_ok (set_head (Subscribing n i p' r') c).
Proof.
  intros E Hs Hn Hl Hp Hp' [Hh Ha]. unfold set_head. rewrite E. split.
  - right. exists s. split; [done|]. split; [done|]. by intros f ->.
  - intros m f Hf Hr. destruct (Ha m f Hf Hr) as [|(j & q & rest & E')]; [by left|]. congruence.
Qed.

Lemma advance_subs c : line_ok c -> subs_ok c -> subs_ok (advance c).
Proof.
  intros Hl H. unfold advance. destruct (co_calls c) as [|[n i p r|s] calls] eqn:E; [done| |].
  - pose proof H as [Hh Ha]. unfold head_free in Hh. rewrite E in Hh. unfold session_of in Hh.
    destruct (co_instances c !! i) as [inst|] eqn:Ei.
    2: { apply (subs_pop c _ calls Hl E); [|done]. intros m j q [= -> -> -> _]. by destruct Hh as [|(s & [=] & _)]. }
    assert (session_of c i = Some (in_session inst)) as Hs by (unfold session_of; by rewrite Ei).
    destruct Hh as [->|(s & [= <-] & Hsub & Hf)].
    + destruct (co_subs c !! in_session inst) as [m|] eqn:Em; [|by eapply subs_head].
      apply (subs_same (with_calls calls c)); try done; [by exists []; rewrite app_nil_r|by intros k f' Hk; exists f'|by apply (subs_pop c _ calls Hl E)].
    + destruct p as [|[|d rest]|[|d rest]|].
      * rewrite Hsub. by eapply subs_head.
      * by eapply subs_head.
      * apply subs_send. by eapply subs_head.
      * split.
        -- unfold set_head. rewrite E. right. exists (in_session inst). split; [done|]. split; [done|]. cbn. intros f _.
           rewrite lookup_insert_eq. by intros [= <-].
        -- intros m f. cbn. destruct (decide (n = m)) as [->|]; [rewrite lookup_insert_eq|rewrite lookup_insert_ne by done].
           ++ intros _ _. right. rewrite E. by eexists _, _, _.
           ++ intros Hf' Hr. destruct (Ha m f Hf' Hr) as [|(j & q & rest & E')]; [by left|]. congruence.
      * apply subs_send. by eapply subs_head.
      * split.
        -- pose proof (li_tail c Hl) as Ht. rewrite E in Ht. unfold head_free. cbn. destruct calls as [|[] calls]; try done. left.
           by apply Forall_cons in Ht as [Ht _].
        -- intros m f Hf' Hr. cbn in *. left. destruct (Ha m f Hf' Hr) as [Hm|(j & q & rest & E')].
           ++ rewrite lookup_insert_ne; [done|]. congruence.
           ++ rewrite E in E'. injection E' as <- <- _ _. rewrite (Hf f) by done. by rewrite lookup_insert_eq.
  - destruct (co_subs c !! s) as [n|] eqn:Es; [|by apply (subs_pop c _ calls Hl E)].
    destruct (subs_pop c _ calls Hl E ltac:(done) H) as [Hh Ha]. split.
    + unfold head_free in *. cbn in *. destruct calls as [|[m i p r|] calls]; try done. destruct Hh as [->|(t & H1 & H2 & H3)]; [by left|right].
      pose proof (li_tail c Hl) as Ht. rewrite E in Ht. apply Forall_cons in Ht as [Ht _]. cbn in Ht. subst p.
      exists t. split; [done|]. split; [|done]. by apply lookup_delete_None; right.
    + intros m f. cbn in *. rewrite lookup_alter. destruct (decide (n = m)) as [->|Hm].
      * intros (g & Hg & ->)%fmap_Some. done.
      * intros Hf Hr. destruct (Ha m f Hf Hr) as [Hin|]; [left|by right]. rewrite lookup_delete_ne; [done|]. intros Hx. apply Hm, (inj Some). etrans; [symmetry; exact Es|]. rewrite Hx. exact Hin.
Qed.

Lemma alter_session g i (l : list instance) j t : (forall x, in_session (g x) = in_session x) ->
  in_session <$> l !! j = Some t -> in_session <$> alter g i l !! j = Some t.
Proof.
  intros Hg H. rewrite list_lookup_alter. destruct (decide (i = j)) as [->|]; [|done]. rewrite <-H, <-option_fmap_compose.
  destruct (l !! j) as [x|]; [|done]. cbn. by rewrite Hg.
Qed.

Lemma step_subs o c : line_ok c -> subs_ok c -> subs_ok (step c o).
Proof.
  intros Hl H.
  assert (forall c', co_calls c' = co_calls c -> co_subs c' = co_subs c -> co_instances c' = co_instances c -> co_forwarders c' = co_forwarders c ->
            subs_ok c') as Hsame.
  { intros c' E1 E2 E3 E4. unfold subs_ok, head_free, accounted, session_of in *. by rewrite E1, E2, E3, E4. }
  assert (forall g j, (forall f, fw_session (g f) = fw_session f /\ fw_running (g f) = fw_running f) ->
            subs_ok (with_forwarders (alter g j (co_forwarders c)) c)) as Hgo.
  { intros g j Hg. apply (subs_same c); try done; [by exists []; rewrite app_nil_r|]. intros n f'. cbn. rewrite lookup_alter.
    destruct (decide (j = n)) as [->|]; [|intros Hf; by exists f']. intros (f & Hf & ->)%fmap_Some. exists f. split; [done|apply Hg]. }
  destruct o as [s|i ev|i|db|i|s| |k|k|text|k r| |]; cbn [conn_step].
  - apply (subs_same c); try done; [by exists []; rewrite app_nil_r| |intros n f' Hf; by exists f'].
    intros i t. unfold session_of. cbn. intros (x & Hx & ->)%fmap_Some. rewrite lookup_app_l by (by eapply lookup_lt_Some). by rewrite Hx.
  - apply (subs_same c); try done; [by exists []; rewrite app_nil_r| |].
    + intros j t. by apply alter_session.
    + intros n f'. cbn. rewrite lookup_fmap. intros (f & Hf & ->)%fmap_Some. exists f. split; [done|]. by destruct (_ =? _).
  - apply (subs_same c); try done; [by exists []; rewrite app_nil_r| |intros n f' Hf; by exists f'].
    intros j t. apply alter_session. intros x. by destruct (receive (in_inbox x)) as [[]|].
  - by apply Hsame.
  - apply (subs_same c); try done; [|by intros n f' Hf; exists f']. eexists. split; [done|]. intros _. by constructor.
  - apply (subs_same c); try done; [|by intros n f' Hf; exists f']. eexists. split; [done|]. intros _. by constructor.
  - by apply advance_subs.
  - apply Hgo. intros f. destruct (fw_running f) eqn:Er, (fw_hand f), (receive (fw_inbox f)) as [[[] ]|]; done.
  - unfold forward. destruct (co_forwarders c !! k) as [f|] eqn:Ef; [|done]. destruct (fw_hand f) as [ev|] eqn:Eh; [|done]. apply subs_send.
    apply (subs_same c); try done; [by exists []; rewrite app_nil_r|]. intros n f'. cbn.
    destruct (decide (k = n)) as [->|]; [rewrite lookup_insert_eq; intros [= <-]; by exists f|]. rewrite lookup_insert_ne by done. intros Hf. by exists f'.
  - unfold handle_frame. destruct (from_str text) as [req|]; [|by apply subs_send, Hsame].
    destruct (as_str _); [by apply Hsame|]. destruct (get req _) as [[]|]; [done|..]; by apply subs_send, Hsame.
  - unfold dispatched. destruct (co_requests c !! k) as [[[id m] ps]|]; [|done]. by apply subs_send, Hsame.
  - by destruct (co_open c), (co_queue c).
  - by apply Hsame.
Qed.

(** ** Requests *)

Definition answered (fs : list frame) : list json := omap (M:=list) (fun f => match f with FAnswer id _ => Some id | _ => None end) fs.
Definition in_flight (c : Conn) : list json := map (fun r => r.1.1) (co_requests c).

Definition requests_ok (c : Conn) : Prop :=
  answered (accepted c) ++ in_flight c ⊆+ co_received c /\ length (co_queue c) <= QUEUE_CAP.

Lemma answered_send f c : answered (accepted (send f c)) `sublist_of` answered (accepted c) ++ answered [f].
Proof.
  unfold answered. destruct (send_frames f c) as [->| ->]; [by rewrite omap_app|]. by apply sublist_inserts_r.
Qed.

Lemma requests_same c c' : accepted c' = accepted c -> co_requests c' = co_requests c -> co_received c' = co_received c ->
  length (co_queue c') <= length (co_queue c) -> requests_ok c -> requests_ok c'.
Proof. unfold requests_ok, in_flight. intros -> -> -> Hq [H1 H2]. split; [done|lia]. Qed.

Lemma requests_send f c : requests_ok c -> answered [f] = [] -> requests_ok (send f c).
Proof.
  intros [H1 H2] Hf. split; [|by apply send_bounded]. unfold in_flight. rewrite (send_rest co_requests), (send_rest co_received) by done.
  etrans; [|exact H1]. apply submseteq_app; [|done]. apply sublist_submseteq. etrans; [apply answered_send|]. by rewrite Hf, app_nil_r.
Qed.

(** A frame that is answered without a dispatch. *)
Lemma requests_refuse id body c : requests_ok c -> requests_ok (send (FAnswer id body) (note_received id c)).
Proof.
  intros [H1 H2]. split; [|by apply send_bounded]. unfold in_flight. rewrite (send_rest co_requests), (send_rest co_received) by done.
  cbn. etrans; [apply submseteq_app; [apply sublist_submseteq, answered_send|reflexivity]|]. cbn.
  change (accepted (note_received id c)) with (accepted c). rewrite <-app_assoc, (Permutation_app_comm [id]), app_assoc.
  by apply submseteq_app.
Qed.

Lemma advance_requests c : requests_ok c -> requests_ok (advance c).
Proof.
  intros H. unfold advance. destruct (co_calls c) as [|[n i p r|s] calls]; [done| |by destruct (co_subs c !! s)].
  destruct (co_instances c !! i) as [inst|]; [|done].
  destruct p as [|[|d rest]|[|d rest]|]; try done; [by destruct (co_subs c !! _)|by apply requests_send..].
Qed.

Lemma step_requests o c : requests_ok c -> requests_ok (step c o).
Proof.
  intros H. destruct o as [s|i ev|i|db|i|s| |k|k|text|k r| |]; cbn [conn_step]; try exact H.
  - by apply advance_requests.
  - unfold forward. destruct (co_forwarders c !! k) as [f|]; [|done]. destruct (fw_hand f); [|done]. by apply requests_send.
  - unfold handle_frame. destruct (from_str text) as [req|]; [|by apply requests_refuse].
    destruct (as_str _) as [m|]; [|by destruct (get req _) as [[]|]; [done|..]; apply requests_refuse].
    destruct H as [H1 H2]. split; [|done]. unfold in_flight in *. cbn. rewrite map_app, app_assoc. by apply submseteq_app.
  - unfold dispatched. destruct (co_requests c !! k) as [[[id m] ps]|] eqn:E; [|done]. destruct H as [H1 H2].
    split; [|by apply send_bounded]. unfold in_flight in *. rewrite (send_rest co_requests), (send_rest co_received) by done. cbn.
    etrans; [apply submseteq_app; [apply sublist_submseteq, answered_send|reflexivity]|]. cbn.
    change (accepted (with_requests _ _ c)) with (accepted c). rewrite <-app_assoc. etrans; [|exact H1]. apply submseteq_app; [done|].
    cbn. apply Permutation_submseteq. change (map (fun r => r.1.1) ((id, m, ps) :: delete k (co_requests c)) ≡ₚ map (fun r => r.1.1) (co_requests c)).
    apply Permutation_map. symmetry. by apply delete_Permutation.
  - destruct (co_open c), (co_queue c) as [|f q] eqn:Eq; try exact H. apply (requests_same c); [|done..| |done].
    + unfold accepted. cbn. by rewrite Eq, <-app_assoc.
    + cbn. rewrite Eq. cbn. lia.
Qed.

(** ** Theorems *)

(** C9: on one connection, over every interleaving of its requests, the lock of its
    subscriptions, the agents' events, their journals, the store and the writer:
    no frame of a subscription's replay is queued behind one of its live frames;
    its live frames, all for its session, followed by what its forwarder still
    has, are a part, in order, of what was broadcast since it listens; and no two
    forwarders of a session run at once. *)
Theorem subscriptions_stream (db : Db) (ops : list op) :
  let c := run db ops in
  (forall n, replay_first n (accepted c)) /\
  (forall n f, co_forwarders c !! n = Some f ->
     live_data n (accepted c) ++ map event_json (held f) `sublist_of` map event_json (fw_heard f) /\
     forall s d, FEvent n s false d ∈ accepted c -> s = fw_session f) /\
  (forall n m f g, co_forwarders c !! n = Some f -> co_forwarders c !! m = Some g -> fw_running f = true -> fw_running g = true ->
     fw_session f = fw_session g -> n = m).
Proof.
  intros c. split; [intros n; apply run_replay_first|]. split.
  - intros n f Hf. destruct (run_invariant (fun c => line_ok c /\ stream_ok n c) db ops) as [_ [H1 H2]].
    + split; [apply (run_line db [])|]. split; cbn; intros g Hg; by rewrite lookup_empty in Hg.
    + intros o c' [Hl H]. split; [by apply step_line|by apply step_stream].
    + split; [by apply H1|by apply H2].
  - intros n m f g Hn Hm Hrf Hrg Es. destruct (run_invariant (fun c => line_ok c /\ subs_ok c) db ops) as [_ [Hh Ha]].
    + split; [apply (run_line db [])|]. split; [done|]. intros k h Hk. cbn in Hk; by rewrite lookup_empty in Hk.
    + intros o c' [Hl H]. split; [by apply step_line|by apply step_subs].
    + fold c in Hh, Ha. destruct (Ha n f Hn Hrf) as [H1|(i & r & rest & E)], (Ha m g Hm Hrg) as [H2|(j & q & rest' & E')].
      * rewrite Es in H1. congruence.
      * unfold head_free in Hh. rewrite E' in Hh. destruct Hh as [|(s & _ & Hs & Hf)]; [done|]. rewrite <-(Hf g) in Hs by done. congruence.
      * unfold head_free in Hh. rewrite E in Hh. destruct Hh as [|(s & _ & Hs & Hf)]; [done|]. rewrite <-(Hf f) in Hs by done. congruence.
      * congruence.
Qed.

(** C10: each request of a connection is answered once at most, under its own id:
    the ids of the answers queued so far, with the ids of the requests in flight,
    are among the ids received, as often as they were received; and the queue to
    the client never holds more than its 256 frames. *)
Theorem answered_once (db : Db) (ops : list op) :
  let c := run db ops in answered (accepted c) ++ in_flight c ⊆+ co_received c /\ length (co_queue c) <= QUEUE_CAP.
Proof. apply (run_invariant requests_ok); [|intros; by apply step_requests]. split; cbn; [done|]. unfold QUEUE_CAP. lia.
Qed.

(** While the queue has room, the end of a dispatch puts the answer in it: the
    result, or the error in place of what is over the budget. *)
Lemma dispatch_answers (k : nat) (r : result json Error) (c : Conn) (id params : json) (m : rstr) :
  co_requests c !! k = Some (id, m, params) -> co_open c = true -> length (co_queue c) < QUEUE_CAP ->
  accepted (dispatched k r c) = accepted c ++ [FAnswer id (answer id r)] /\
  ((Z.of_nat (utf8_len (to_string (answer id r))) <= MAX_RESPONSE_BYTES)%Z \/
   (answer id r).["error"].["code"] = jint (-32005)).
Proof.
  intros E Ho Hq. unfold dispatched. rewrite E. unfold send. cbn [co_open co_queue with_requests]. rewrite Ho.
  replace (length (co_queue c) <? QUEUE_CAP) with true by (symmetry; by apply Nat.ltb_lt). split.
  - unfold accepted. cbn. by rewrite app_assoc.
  - unfold answer. destruct (_ <? _)%Z eqn:El; [by right|left]. by apply Z.ltb_ge.
Qed.
End ConnSubs.

(** A text is a document under its name, or no JSON. *)
Definition documents : list (rstr * json) := [
  (str "request", mk_obj [field "id" (jint 7); field "method" (jstr "ping")]); (str "nothing", mk_obj []); (str "null", mk_obj [field "id" JNull])].
#[local] Instance demo_text : JsonText := {| to_string := fun _ => []; to_string_pretty := fun _ => []; from_str := fun t => assoc t documents |}.

Definition demo_run (db : Db) (ops : list op) : Conn := run_conn (fun _ => []) (str "1.0") JNull 0 db ops.
Definition demo_hello : frame := hello (str "1.0") JNull 0.
Definition reply_event (text : string) : Session.StreamEvent := {|
  Session.ev_turn := Some (str "t"); Session.ev_kind := Timeline (item_json (TAssistantMessage (str text))) |}.
Definition turn_event (k : Session.StreamEventKind) : Session.StreamEvent := {| Session.ev_turn := Some (str "t"); Session.ev_kind := k |}.
(** A subscription with nothing to replay, from the line to the table. *)
Definition whole_subscription : list op := repeat Advance 4.

(** Watching a session, what is said after reaches the client. *)
Example subscribed_hears : accepted (demo_run empty_db
    ([Starts (str "s"); Subscribe 0] ++ whole_subscription ++ [Broadcasts 0 (reply_event "hi"); Takes 0; Forwards 0; Writes; Writes])) =
  [demo_hello; FEvent 0 (str "s") false (event_json (reply_event "hi"))].
Proof. vm_compute. reflexivity. Qed.

Definition idle_forwarder : forwarder := {|
  fw_session := str "s"; fw_instance := 0; fw_inbox := new_receiver; fw_hand := None; fw_running := true; fw_heard := [] |}.

(** What goes on around a process nobody listens to. *)
Definition unheard (o : op) : Prop := match o with Broadcasts 1 _ | Journals _ | Takes _ | Forwards _ => True | _ => False end.

Lemma unheard_ops ops c : Forall unheard ops -> co_forwarders c = {[0 := idle_forwarder]} ->
  let c' := fold_left (conn_step (fun _ => [])) ops c in co_replies c' = co_replies c /\ accepted c' = accepted c.
Proof.
  intros Hops. revert c. induction Hops as [|o ops Ho _ IH]; intros c Hc; [done|]. cbn [fold_left].
  assert (co_forwarders (conn_step (fun _ => []) c o) = {[0 := idle_forwarder]} /\ co_replies (conn_step (fun _ => []) c o) = co_replies c /\
          accepted (conn_step (fun _ => []) c o) = accepted c) as (Hf & Hr & Ha).
  { destruct o as [|[|[|]] ev|i| | | | |n|n| | | |]; try done; cbn [conn_step].
    - split; [|done]. cbn. by rewrite Hc, map_fmap_singleton.
    - split; [|done]. cbn. rewrite Hc. destruct n as [|n]; [by rewrite alter_singleton|by rewrite alter_singleton_ne].
    - unfold forward. rewrite Hc. destruct n as [|n]; [by rewrite lookup_singleton_eq|by rewrite lookup_singleton_ne]. }
  destruct (IH _ Hf) as [-> ->]. done.
Qed.

(** The session is started anew under its name, and subscribed to again by the same
    connection: the call answers that nothing was replayed, and no event of the
    new process reaches the client, whatever is broadcast. *)
Theorem resubscription_hears_nothing (evs : list Session.StreamEvent) :
  let c := demo_run empty_db (([Starts (str "s"); Subscribe 0] ++ whole_subscription ++ [Starts (str "s"); Subscribe 1; Advance]) ++
                              flat_map (fun ev => [Broadcasts 1 ev; Journals 1; Takes 0; Forwards 0; Takes 1; Forwards 1]) evs) in
  co_replies c = [(0, 0); (1, 0)] /\ accepted c = [demo_hello].
Proof.
  intros c. unfold c, demo_run, run_conn. rewrite fold_left_app.
  match goal with |- context [fold_left _ (flat_map _ _) ?c] => destruct (unheard_ops
    (flat_map (fun ev => [Broadcasts 1 ev; Journals 1; Takes 0; Forwards 0; Takes 1; Forwards 1]) evs) c) as [-> ->] end.
  - induction evs as [|ev evs IH]; [constructor|]. repeat (constructor; [done|]). exact IH.
  - vm_compute. reflexivity.
  - vm_compute. done.
Qed.

(** An event after the journal was read and before the forwarder listens: it is not
    in the replay and not sent. *)
Theorem event_between_is_lost : accepted (demo_run empty_db
    ([Starts (str "s"); Broadcasts 0 (turn_event TurnStarted); Journals 0; Subscribe 0; Advance; Advance;
      Broadcasts 0 (reply_event "hi"); Journals 0; Advance; Advance; Advance; Takes 0; Forwards 0])) =
  [demo_hello; FEvent 0 (str "s") true (event_json (turn_event TurnStarted))].
Proof. vm_compute. reflexivity. Qed.

(** The turn has ended, its rows are not stored yet: the replay has nothing of it. *)
Theorem ending_turn_not_replayed : accepted (demo_run empty_db
    ([Starts (str "s")] ++ flat_map (fun ev => [Broadcasts 0 ev; Journals 0])
       [turn_event TurnStarted; reply_event "hi"; turn_event (Session.TurnCompleted None)] ++ [Subscribe 0] ++ whole_subscription)) = [demo_hello].
Proof. vm_compute. reflexivity. Qed.

(** A client that reads nothing loses its answers: the request is done, and its
    answer dropped. *)
Theorem answer_dropped :
  let c := demo_run empty_db (repeat (Receives (str "garbage")) 255 ++ [Receives (str "request"); Dispatched 0 (Ok (mk_obj []))]) in
  in_flight c = [] /\ jint 7 ∈ co_received c /\ jint 7 ∉ answered (accepted c).
Proof.
  intros c. split; [vm_compute; reflexivity|]. split.
  - apply list_elem_of_In. vm_compute. tauto.
  - assert (answered (accepted c) = repeat JNull 255) as -> by (vm_compute; reflexivity).
    intros H%list_elem_of_In%repeat_spec. discriminate H.
Qed.

(** A frame without id and method is answered, one whose id is null is not. *)
Theorem notification_answered :
  answered (accepted (demo_run empty_db [Receives (str "nothing")])) = [JNull] /\
  answered (accepted (demo_run empty_db [Receives (str "null")])) = [].
Proof. vm_compute. done. Qed.

(** The replay of a long session is its oldest rows. *)
Definition long_db : Db :=
  with_messages (map (fun i => Build_MsgRow (Z.of_nat i) (str "s") (str "user") (str "row") 0) (seq 1 201)) 202 [] empty_db.
Theorem oldest_rows_replayed :
  match @messages_paged {| to_string := fun _ => []; to_string_pretty := fun _ => []; from_str := fun _ => Some (mk_obj [field "content" (jstr "x")]) |}
          long_db (str "s") REPLAY_HISTORY 0 with
  | Ok rows => map sm_id rows = map Z.of_nat (seq 1 200)
  | Err _ => False
  end.
Proof. vm_compute. reflexivity. Qed.
