(* ===== verification/Files.v ===== *)
(** * Files: [std::fs] on paths that may lead through links

    The operations the personas and the prompt library use, on the file system of
    [SkillFs]: a path is resolved as the kernel does it. *)

From S2P Require Import Prelude Str Jail SkillText SkillFs.

Abbreviation path := (list comp) (only parsing).

(** [Path::join] with a name, [parent] and [file_name]. *)
Definition child (p : path) (n : rstr) : path := p ++ [Name n].

Definition split_last (p : path) : option (path * rstr) :=
  match last p with Some (Name n) => Some (removelast p, n) | _ => None end.

(** [PathBuf::from]: empty and dot components do not count. *)
Definition segment (seg : rstr) : option comp :=
  if is_empty seg || str_eqb seg (str ".") then None else if str_eqb seg (str "..") then Some Parent else Some (Name seg).

Definition parse_path (s : rstr) : user_path := {|
  up_absolute := starts_with (str "/") s; up_comps := omap segment (split_on (N.eqb c_slash) s) |}.

(** [file_stem] and [extension] of a name. *)
Fixpoint last_dot (s : rstr) : option (rstr * rstr) :=
  match s with
  | [] => None
  | c :: r => match last_dot r with
              | Some (a, b) => Some (c :: a, b)
              | None => if N.eqb c c_dot then Some ([], r) else None
              end
  end.

Definition file_stem (name : rstr) : rstr := match last_dot name with Some ((_ :: _) as stem, _) => stem | _ => name end.
Definition extension (name : rstr) : option rstr := match last_dot name with Some (_ :: _, ext) => Some ext | _ => None end.

Section Files.
Variable links : nat.

Definition realpath (fs : tree) (p : path) : option loc := canonicalize (plain fs) links p.

(** The entry itself, its last link not followed. *)
Definition place (fs : tree) (p : path) : option loc :=
  match split_last p with
  | Some (q, n) => l ← realpath fs q; if dir_here fs l then Some (l ++ [n]) else None
  | None => realpath fs p
  end.

Definition stat (fs : tree) (p : path) : option node := realpath fs p ≫= lstat fs.
Definition lstat_path (fs : tree) (p : path) : option node := place fs p ≫= lstat fs.

Definition is_file (fs : tree) (p : path) : bool := match stat fs p with Some (NFile _ _) => true | _ => false end.
Definition is_dir_path (fs : tree) (p : path) : bool := match stat fs p with Some NDir => true | _ => false end.
Definition exists_path (fs : tree) (p : path) : bool := match stat fs p with Some _ => true | None => false end.
Definition read (fs : tree) (p : path) : option (list N) := match stat fs p with Some (NFile bytes _) => Some bytes | _ => None end.

(** [fs::write] creates or truncates what the path leads to. *)
Definition write (p : path) (bytes : list N) (fs : tree) : option tree :=
  match walk true (plain fs) links [] p with
  | None => None
  | Some l =>
      match lstat fs l with
      | Some (NFile _ exec) => Some (<[l := NFile bytes exec]> fs)
      | None => Some (<[l := NFile bytes false]> fs)
      | Some _ => None
      end
  end.

Definition remove_file (p : path) (fs : tree) : option tree :=
  match place fs p with
  | Some l => match lstat fs l with Some NDir | None => None | Some _ => Some (delete l fs) end
  | None => None
  end.

(** [fs::copy], with the permission bits. *)
Definition copy_file (src dst : path) (fs : tree) : option tree :=
  match stat fs src, walk true (plain fs) links [] dst with
  | Some (NFile bytes exec), Some l => match lstat fs l with Some (NFile _ _) | None => Some (<[l := NFile bytes exec]> fs) | Some _ => None end
  | _, _ => None
  end.

(** A link goes as a link. *)
Definition remove_dir_all (p : path) (fs : tree) : option tree :=
  match place fs p with
  | Some l => match lstat fs l with Some NDir | Some (NLink _ _) => Some (remove_path l fs) | _ => None end
  | None => None
  end.

Definition make_dir (p : path) (fs : tree) : option tree :=
  if is_dir_path fs p then Some fs
  else match place fs p with
       | Some l => match lstat fs l with None => Some (<[l := NDir]> fs) | Some _ => None end
       | None => None
       end.

Definition create_dir_all (p : path) (fs : tree) : option tree :=
  fold_left (fun o k => o ≫= make_dir (take k p)) (seq 1 (length p)) (Some fs).

(** The entries of a directory, in the order of the system. *)
Variable dir_order : list (rstr * node) -> list (rstr * node).

Definition entry_of (l : loc) (kv : loc * node) : option (rstr * node) :=
  match drop (length l) kv.1 with [n] => if inside l kv.1 then Some (n, kv.2) else None | _ => None end.

Definition read_dir (fs : tree) (p : path) : option (list (rstr * node)) :=
  l ← realpath fs p; if dir_here fs l then Some (dir_order (omap (entry_of l) (map_to_list fs))) else None.

(** ** Facts *)

Lemma plain_lookup (fs : tree) l : plain fs !! l = plain_node <$> fs !! l.
Proof. unfold plain. by rewrite lookup_fmap. Qed.

Lemma dir_plain fs l : is_dir (plain fs) l = dir_here fs l.
Proof. unfold is_dir, dir_here. destruct l as [|n l]; [done|]. rewrite plain_lookup. unfold lstat. by destruct (fs !! (n :: l)) as [[]|]. Qed.

Lemma lstat_snoc fs p n : lstat fs (p ++ [n]) = fs !! (p ++ [n]).
Proof. by destruct p. Qed.

Lemma names_snoc p n : names (p ++ [n]) = names p ++ [Name n].
Proof. apply map_app. Qed.

Lemma split_last_snoc p n : split_last (names p ++ [Name n]) = Some (names p, n).
Proof. unfold split_last. by rewrite last_snoc, removelast_last. Qed.

(** A directory that no link leads to. *)
Definition plain_dir (fs : tree) (l : loc) : Prop := real_dir (plain fs) l.

Lemma plain_dir_here fs l : plain_dir fs l -> dir_here fs l = true.
Proof. intros H. rewrite <-dir_plain. by apply real_dir_self. Qed.

Lemma plain_dir_snoc fs l n : plain_dir fs l -> fs !! (l ++ [n]) = Some NDir -> plain_dir fs (l ++ [n]).
Proof. intros H Hn. apply real_dir_snoc; [done|]. by rewrite plain_lookup, Hn. Qed.

Lemma plain_dir_kept fs fs' l : (forall k, length k <= length l -> fs' !! k = fs !! k) -> plain_dir fs l -> plain_dir fs' l.
Proof.
  intros Hk H k Hle. rewrite dir_plain. specialize (H k Hle). rewrite dir_plain in H. unfold dir_here, lstat in *.
  destruct (take k l) as [|x t] eqn:E; [done|]. rewrite Hk; [done|]. rewrite <-E, length_take. lia.
Qed.

Lemma realpath_dir fs l : plain_dir fs l -> realpath fs (names l) = Some l.
Proof. intros H. apply walk_real_self. by left. Qed.

(** A name in such a directory, that is no link. *)
Definition no_link (fs : tree) (l : loc) : Prop := forall a t, fs !! l <> Some (NLink a t).

Lemma walk_child create fs l n : plain_dir fs l -> no_link fs (l ++ [n]) ->
  walk create (plain fs) links [] (names (l ++ [n])) =
  match fs !! (l ++ [n]) with Some _ => Some (l ++ [n]) | None => if create then Some (l ++ [n]) else None end.
Proof.
  intros H Hn. rewrite names_snoc, walk_real_dir by done. rewrite walk_name, dir_plain, plain_dir_here, plain_lookup by done.
  destruct (fs !! (l ++ [n])) as [[]|] eqn:E; cbn; rewrite ?walk_nil; try done; [by edestruct Hn|by destruct create].
Qed.

Lemma stat_child fs l n : plain_dir fs l -> no_link fs (l ++ [n]) -> stat fs (names (l ++ [n])) = fs !! (l ++ [n]).
Proof.
  intros H Hn. unfold stat, realpath, canonicalize. rewrite walk_child by done. destruct (fs !! (l ++ [n])) eqn:E; cbn; [|done].
  by rewrite lstat_snoc.
Qed.

Lemma place_child fs l n : plain_dir fs l -> place fs (names (l ++ [n])) = Some (l ++ [n]).
Proof.
  intros H. unfold place. rewrite names_snoc, split_last_snoc. rewrite realpath_dir by done. cbn. by rewrite plain_dir_here.
Qed.

(** ** One file of a directory *)

(** A file or nothing. *)
Definition file_place (fs : tree) (l : loc) : Prop := match fs !! l with None | Some (NFile _ _) => True | _ => False end.

Lemma file_no_link fs l : file_place fs l -> no_link fs l.
Proof. unfold file_place. intros H a t E. by rewrite E in H. Qed.
#[local] Hint Resolve file_no_link : core.

Lemma read_child fs l n : plain_dir fs l -> file_place fs (l ++ [n]) ->
  read fs (names (l ++ [n])) = match fs !! (l ++ [n]) with Some (NFile bytes _) => Some bytes | _ => None end.
Proof. intros H Hn. unfold read. by rewrite stat_child by auto. Qed.

Lemma write_child fs l n bytes : plain_dir fs l -> file_place fs (l ++ [n]) ->
  exists exec, write (names (l ++ [n])) bytes fs = Some (<[l ++ [n] := NFile bytes exec]> fs).
Proof.
  intros H Hn. unfold write. rewrite walk_child by auto. pose proof Hn as Hf. unfold file_place in Hf.
  destruct (fs !! (l ++ [n])) as [[]|] eqn:E; try done; rewrite lstat_snoc, E; by eexists.
Qed.

Lemma remove_child fs l n : plain_dir fs l -> file_place fs (l ++ [n]) ->
  default fs (remove_file (names (l ++ [n])) fs) = delete (l ++ [n]) fs.
Proof.
  intros H Hn. unfold remove_file. rewrite place_child, lstat_snoc by done. unfold file_place in Hn.
  destruct (fs !! (l ++ [n])) as [[]|] eqn:E; try done. cbn. by rewrite delete_id.
Qed.

(** ** Making a directory *)

Lemma create_child fs l n : plain_dir fs l -> (fs !! (l ++ [n]) = None \/ fs !! (l ++ [n]) = Some NDir) ->
  exists fs', create_dir_all (names (l ++ [n])) fs = Some fs' /\ plain_dir fs' (l ++ [n]) /\
    (fs' = fs \/ fs !! (l ++ [n]) = None /\ fs' = <[l ++ [n] := NDir]> fs).
Proof.
  intros H Hn. unfold create_dir_all. rewrite names_snoc, length_app. unfold names at 2. rewrite length_map. cbn [length].
  rewrite Nat.add_1_r, seq_S, fold_left_app. cbn [fold_left Nat.add].
  assert (forall ks, (forall k, k ∈ ks -> k <= length l) ->
    fold_left (fun o k => o ≫= make_dir (take k (names l ++ [Name n]))) ks (Some fs) = Some fs) as Hks.
  { induction ks as [|k ks IH]; intros Hk; [done|]. cbn [fold_left mbind option_bind].
    assert (make_dir (take k (names l ++ [Name n])) fs = Some fs) as ->; [|apply IH; intros j Hj; apply Hk; by right].
    assert (k <= length l) as Hle by (apply Hk; left). unfold make_dir, is_dir_path, stat.
    rewrite take_app_le by (unfold names; by rewrite length_map).
    assert (plain_dir fs (take k l)) as Hd. { apply real_dir_prefix with (drop k l). by rewrite take_drop. }
    replace (take k (names l)) with (names (take k l)) by (unfold names; by rewrite firstn_map). rewrite realpath_dir by done. cbn.
    apply plain_dir_here in Hd. unfold dir_here in Hd. by destruct (lstat fs (take k l)) as [[]|]. }
  rewrite Hks by (intros k Hk%elem_of_seq; lia). cbn [mbind option_bind].
  rewrite take_ge by (rewrite length_app; unfold names; rewrite length_map; cbn; lia). rewrite <-names_snoc.
  assert (no_link fs (l ++ [n])) as Hnl by (intros a t E; destruct Hn; congruence).
  unfold make_dir, is_dir_path. rewrite stat_child by done. destruct Hn as [Hn|Hn]; rewrite Hn.
  - rewrite place_child by done. rewrite lstat_snoc, Hn. eexists. split; [done|]. split; [|by right].
    apply plain_dir_snoc; [|by rewrite lookup_insert_eq]. eapply plain_dir_kept; [|exact H].
    intros k Hk. rewrite lookup_insert_ne; [done|]. intros <-. rewrite length_app in Hk. cbn in Hk. lia.
  - exists fs. split; [done|]. split; [by apply plain_dir_snoc|by left].
Qed.

(** ** Paths that resolve *)

Lemma realpath_real fs p l : realpath fs p = Some l -> real (plain fs) l.
Proof. apply canonicalize_real. Qed.

Lemma realpath_self fs l : real (plain fs) l -> realpath fs (names l) = Some l.
Proof. apply walk_real_self. Qed.

(** A real location is the root or in a directory no link leads to. *)
Lemma real_placed fs l : real (plain fs) l -> l = [] \/ exists q n, l = q ++ [n] /\ plain_dir fs q.
Proof.
  intros [H|(q & n & b & -> & Hq & _)]; [|right; by exists q, n]. destruct l as [|n q _] using rev_ind; [by left|right].
  exists q, n. split; [done|]. by apply real_dir_prefix with [n].
Qed.

(** A path that resolves does so from beginning to end. *)
Lemma walk_prefix fs n cur a b l : walk false fs n cur (a ++ b) = Some l ->
  exists m, walk false fs n cur a = Some m /\ (b = [] -> m = l) /\ (b <> [] -> is_dir fs m = true).
Proof.
  assert (forall cur l, walk false fs n cur ([] ++ b) = Some l -> exists m, walk false fs n cur [] = Some m /\ (b = [] -> m = l) /\ (b <> [] -> is_dir fs m = true)) as Hnil.
  { intros c m H. exists c. rewrite walk_nil. split; [done|]. split.
    - intros ->. cbn in H. rewrite walk_nil in H. by injection H.
    - intros Hb. destruct b as [|[x|] b]; [done| |]; cbn [app] in H; rewrite ?walk_name, ?walk_parent in H; by destruct (is_dir fs c). }
  revert cur a. induction n as [|n IHn]; intros cur a; revert cur; induction a as [|[x|] a IHa]; intros cur H.
  1,4: by apply Hnil.
  2,4: cbn [app] in H; rewrite walk_parent in *; destruct (is_dir fs cur); [by apply IHa|done].
  all: cbn [app] in H; rewrite walk_name in *; destruct (is_dir fs cur); [|done];
    destruct (fs !! (cur ++ [x])) as [[|bytes|ab t]|]; try done; try by apply IHa.
  rewrite app_assoc in H. apply IHn; [|done]. intros c m Hm. destruct b as [|y b].
  - exists c. rewrite walk_nil. cbn in Hm. rewrite walk_nil in Hm. split; [done|]. split; [by injection Hm|done].
  - exists c. rewrite walk_nil. split; [done|]. split; [done|]. intros _. cbn [app] in Hm. destruct y; rewrite ?walk_name, ?walk_parent in Hm; by destruct (is_dir fs c).
Qed.

Lemma create_existing fs p : is_dir_path fs p = true -> create_dir_all p fs = Some fs.
Proof.
  intros H. unfold create_dir_all. assert (forall k, is_dir_path fs (take k p) = true) as Hk.
  { intros k. unfold is_dir_path, stat, realpath, canonicalize in *. destruct (walk false (plain fs) links [] p) as [l|] eqn:E; [|done].
    rewrite <-(take_drop k p) in E. destruct (walk_prefix _ _ _ _ _ _ E) as (m & -> & Hm & Hd). cbn in *.
    destruct (drop k p) as [|c r]; [by rewrite Hm|]. specialize (Hd ltac:(done)). rewrite dir_plain in Hd. unfold dir_here in Hd.
    by destruct (lstat fs m) as [[]|]. }
  generalize (seq 1 (length p)). intros ks. induction ks as [|k ks IH]; [done|]. cbn [fold_left mbind option_bind].
  unfold make_dir at 2. by rewrite Hk.
Qed.

(** A new name at the end of a path to a directory. *)
Lemma walk_new fs n cur a m x : walk false fs n cur a = Some m -> is_dir fs m = true -> fs !! (m ++ [x]) = None ->
  walk true fs n cur (a ++ [Name x]) = Some (m ++ [x]).
Proof.
  revert cur a. induction n as [|n IHn]; intros cur a; revert cur; induction a as [|[y|] a IHa]; intros cur H Hd Hx.
  1,4: rewrite walk_nil in H; injection H as ->; cbn [app]; rewrite walk_name, Hd, Hx; done.
  2,4: cbn [app]; rewrite walk_parent in *; destruct (is_dir fs cur); [by apply IHa|done].
  all: cbn [app]; rewrite walk_name in *; destruct (is_dir fs cur); [|done];
    destruct (fs !! (cur ++ [y])) as [[|bytes|ab t]|] eqn:E; try done; try by apply IHa.
  rewrite app_assoc. by apply IHn.
Qed.

Lemma write_new fs p l n bytes : realpath fs p = Some l -> dir_here fs l = true -> fs !! (l ++ [n]) = None ->
  write (child p n) bytes fs = Some (<[l ++ [n] := NFile bytes false]> fs).
Proof.
  intros H Hd Hn. unfold write, child. rewrite (walk_new _ _ _ _ l); [|done|by rewrite dir_plain|by rewrite plain_lookup, Hn].
  by rewrite lstat_snoc, Hn.
Qed.

Lemma copy_new fs src p l n bytes exec : stat fs src = Some (NFile bytes exec) -> realpath fs p = Some l -> dir_here fs l = true ->
  fs !! (l ++ [n]) = None -> copy_file src (child p n) fs = Some (<[l ++ [n] := NFile bytes exec]> fs).
Proof.
  intros Hs H Hd Hn. unfold copy_file, child. rewrite Hs, (walk_new _ _ _ _ l); [|done|by rewrite dir_plain|by rewrite plain_lookup, Hn].
  by rewrite lstat_snoc, Hn.
Qed.

Lemma plain_dir_extend fs l n x : fs !! (l ++ [n]) = None -> forall k, plain_dir fs k -> plain_dir (<[l ++ [n] := x]> fs) k.
Proof.
  intros Hn k H j Hj. rewrite dir_plain. specialize (H j Hj). rewrite dir_plain in H. unfold dir_here, lstat in *.
  destruct (take j k) as [|y t] eqn:E; [done|]. rewrite lookup_insert_ne; [done|]. intros He. rewrite <-He, Hn in H. done.
Qed.

Lemma place_in_dir fs p n l : realpath fs p = Some l -> dir_here fs l = true -> place fs (child p n) = Some (l ++ [n]).
Proof.
  intros H Hd. unfold place, child, split_last. rewrite last_snoc, removelast_last, H. cbn. by rewrite Hd.
Qed.

Lemma remove_placed fs l n x : plain_dir fs l -> fs !! (l ++ [n]) = Some x -> is_dir_node x = false ->
  remove_file (names (l ++ [n])) fs = Some (delete (l ++ [n]) fs).
Proof. intros H Hx Hd. unfold remove_file. rewrite place_child, lstat_snoc, Hx by done. by destruct x. Qed.
End Files.
