(* ===== verification/Bots.v ===== *)
(** * Bots: personas ([bots.rs], [bot.*] of [rpc.rs])

    A bot is a directory of files; a session is bound to what they say when it
    starts.  What a save leaves of the files is what loads. *)

From S2P Require Import Prelude Str Json Rows Session PlanStore Jail SessionStore Events SkillText SkillFs Interact Worktree Wire Files.

(** ** Ids and blocks *)

Definition c_dash : rchar := 45%N.

Definition valid_id (id : rstr) : bool :=
  negb (is_empty id) && (utf8_len id <=? 64) &&
  forallb (fun c => is_ascii_lowercase c || is_ascii_digit c || N.eqb c c_dash) id && negb (starts_with [c_dash] id).

Record BotDef := { bd_id : rstr; bd_name : rstr; bd_description : option rstr; bd_soul : option rstr; bd_agents : option rstr }.
Record Persona := { pe_bot : rstr; pe_block : option rstr }.

(** [replace] of each of the characters by a space. *)
Definition spaced (s : rstr) : rstr :=
  map (fun c => if N.eqb c c_quote || N.eqb c c_nl || N.eqb c c_cr then c_space else c) s.

Definition persona_block (b : BotDef) : option rstr :=
  let parts :=
    match bd_soul b with
    | Some soul => [str "<persona bot=" ++ [c_quote] ++ spaced (bd_name b) ++ [c_quote] ++ str ">" ++ [c_nl] ++ soul ++ [c_nl] ++ str "</persona>"]
    | None => []
    end ++
    match bd_agents b with
    | Some agents => [str "<persona-instructions>" ++ [c_nl] ++ agents ++ [c_nl] ++ str "</persona-instructions>"]
    | None => []
    end in
  match parts with [] => None | _ => Some (join [c_nl; c_nl] parts) end.

(** [None] keeps the value, [Clear] removes it. *)
Inductive Field := Keep | Clear | Set_ (text : rstr).
Record BotSave := { bs_id : rstr; bs_name : rstr; bs_description : Field; bs_soul : Field; bs_agents : Field }.

Inductive bot_error := InvalidId (id : rstr) | NameRequired | NotReadBack (id : rstr) | Io.

Section Bots.
Context `{JT : JsonText}.
(** The links the kernel follows, UTF-8, the order of a directory. *)
Variables (links : nat) (utf8 : rstr -> list N) (from_utf8 : list N -> option rstr) (dir_order : list (rstr * node) -> list (rstr * node)).

(** ** Loading *)

Definition read_to_string (fs : tree) (p : path) : option rstr := read links fs p ≫= from_utf8.

Definition read_markdown (fs : tree) (p : path) : option rstr :=
  s ← read_to_string fs p; if is_empty (trim s) then None else Some s.

Definition load (fs : tree) (root : path) (id : rstr) : option BotDef :=
  if negb (valid_id id) then None else
  let dir := child root id in
  meta ← read_to_string fs (child dir (str "bot.json")) ≫= from_str;
  name ← as_str meta.["name"];
  if is_empty (trim name) then None
  else Some {| bd_id := id; bd_name := name; bd_description := as_str meta.["description"];
               bd_soul := read_markdown fs (child dir (str "SOUL.md")); bd_agents := read_markdown fs (child dir (str "AGENTS.md")) |}.

Definition resolve (fs : tree) (root : path) (id : rstr) : option Persona :=
  def ← load fs root id; Some {| pe_bot := bd_id def; pe_block := persona_block def |}.

Definition list_bots (fs : tree) (root : path) : list BotDef :=
  sort_by (fun a b => str_leb (bd_id a) (bd_id b))
    (omap (M:=list) (fun kv => match kv.2 with NDir => load fs root kv.1 | _ => None end) (default [] (read_dir links dir_order fs root))).

(** ** Saving *)

(** Where an operation fails, what it did before stays. *)
Definition write_or_remove (p : path) (text : rstr) (fs : tree) : tree * bool :=
  if is_empty (trim text) then (default fs (remove_file links p fs), true)
  else match write links p (utf8 text) fs with Some fs' => (fs', true) | None => (fs, false) end.

Definition write_field (p : path) (f : Field) (fs : tree) : tree * bool :=
  match f with
  | Keep => (fs, true)
  | Clear => (default fs (remove_file links p fs), true)
  | Set_ text => write_or_remove p text fs
  end.

Definition saved_description (current : option BotDef) (f : Field) : option rstr :=
  match f with
  | Keep => current ≫= bd_description
  | Clear => None
  | Set_ d => if is_empty (trim d) then None else Some (trim d)
  end.

(** [bot.json] *)
Definition bot_meta (name : rstr) (description : option rstr) : json :=
  mk_obj [field "name" (JStr name); field "description" (Events.opt_json JStr description)].

Definition save (fs : tree) (root : path) (req : BotSave) : tree * result BotDef bot_error :=
  if negb (valid_id (bs_id req)) then (fs, Err (InvalidId (bs_id req)))
  else if is_empty (trim (bs_name req)) then (fs, Err NameRequired)
  else
    let dir := child root (bs_id req) in
    match create_dir_all links dir fs with
    | None => (fs, Err Io)
    | Some fs0 =>
        let description := saved_description (load fs0 root (bs_id req)) (bs_description req) in
        let '(fs1, ok) := write_field (child dir (str "SOUL.md")) (bs_soul req) fs0 in
        if negb ok then (fs1, Err Io) else
        let '(fs2, ok) := write_field (child dir (str "AGENTS.md")) (bs_agents req) fs1 in
        if negb ok then (fs2, Err Io) else
        match write links (child dir (str "bot.json")) (utf8 (to_string_pretty (bot_meta (trim (bs_name req)) description))) fs2 with
        | None => (fs2, Err Io)
        | Some fs3 => (fs3, ok_or (load fs3 root (bs_id req)) (NotReadBack (bs_id req)))
        end
    end.

Definition delete (fs : tree) (root : path) (id : rstr) : tree * result bool bot_error :=
  if negb (valid_id id) then (fs, Err (InvalidId id))
  else if negb (exists_path links fs (child root id)) then (fs, Ok false)
  else match remove_dir_all links (child root id) fs with Some fs' => (fs', Ok true) | None => (fs, Err Io) end.

(** ** Calls *)

(** The system's message for what failed. *)
Definition bot_message (io : rstr) (e : bot_error) : rstr :=
  match e with
  | InvalidId id => str "invalid bot id `" ++ id ++ str "` — lowercase letters, digits, and `-`, up to 64 chars"
  | NameRequired => str "name required"
  | NotReadBack id => str "bot " ++ id ++ str " did not round-trip"
  | Io => io
  end.

Definition bot_failed (io : rstr) (e : bot_error) : Error := {| ee_message := bot_message io e; ee_chain := [] |}.

Definition opt_text (o : option rstr) : json := Events.opt_json JStr o.

Definition bot_list (fs : tree) (root : path) : json :=
  mk_obj [field "bots" (JArr (map (fun b => mk_obj
    [field "id" (JStr (bd_id b)); field "name" (JStr (bd_name b)); field "description" (opt_text (bd_description b));
     field "hasSoul" (JBool (bool_decide (is_Some (bd_soul b)))); field "hasAgents" (JBool (bool_decide (is_Some (bd_agents b))))])
    (list_bots fs root))); field "root" (JStr (path_text root))].

Definition bot_get (fs : tree) (root : path) (params : json) : result json Error :=
  let? id := req_str params "id" in
  let? b := ok_or (load fs root id) (invalid_params (str "unknown bot `" ++ id ++ str "`")) in
  Ok (mk_obj [field "bot" (mk_obj
    [field "id" (JStr (bd_id b)); field "name" (JStr (bd_name b)); field "description" (opt_text (bd_description b));
     field "soul" (opt_text (bd_soul b)); field "agents" (opt_text (bd_agents b))])]).

(** A parameter that is absent reads as [null]. *)
Definition field_param (params : json) (k : string) : Field :=
  match default JNull (get params (str k)) with
  | JNull => Clear
  | JStr s => if is_empty (trim s) then Clear else Set_ s
  | _ => Keep
  end.

Definition save_request (params : json) : result BotSave Error :=
  let? id := req_str params "id" in
  let? name := req_str params "name" in
  Ok {| bs_id := id; bs_name := name; bs_description := field_param params "description";
        bs_soul := field_param params "soul"; bs_agents := field_param params "agents" |}.

Definition bot_save (io : rstr) (fs : tree) (root : path) (params : json) : tree * result json Error :=
  match save_request params with
  | Err e => (fs, Err e)
  | Ok req =>
      match save fs root req with
      | (fs', Ok b) => (fs', Ok (mk_obj [field "bot" (mk_obj [field "id" (JStr (bd_id b)); field "name" (JStr (bd_name b))])]))
      | (fs', Err e) => (fs', Err (bot_failed io e))
      end
  end.

Definition bot_delete (io : rstr) (fs : tree) (root : path) (params : json) : tree * result json Error :=
  match req_str params "id" with
  | Err e => (fs, Err e)
  | Ok id =>
      match delete fs root id with
      | (fs', Ok deleted) => (fs', Ok (mk_obj [field "deleted" (JBool deleted)]))
      | (fs', Err e) => (fs', Err (match e with InvalidId id => {| ee_message := str "invalid bot id `" ++ id ++ str "`"; ee_chain := [] |}
                                                | _ => bot_failed io e end))
      end
  end.
End Bots.

Section BotFacts.
Context `{JT : JsonText}.
Variables (links : nat) (utf8 : rstr -> list N) (from_utf8 : list N -> option rstr).
Hypothesis utf8_reads_back : forall t, from_utf8 (utf8 t) = Some t.

#[local] Notation load := (load links from_utf8).
#[local] Notation save := (save links utf8 from_utf8).
#[local] Notation read_markdown := (read_markdown links from_utf8).

(** What a text field is after a save. *)
Definition saved_text (old : option rstr) (f : Field) : option rstr :=
  match f with Keep => old | Clear => None | Set_ t => if is_empty (trim t) then None else Some t end.

Definition markdown_of (n : option node) : option rstr :=
  match n with Some (NFile bytes _) => s ← from_utf8 bytes; if is_empty (trim s) then None else Some s | _ => None end.

Lemma markdown_child fs l n : plain_dir fs l -> file_place fs (l ++ [n]) ->
  read_markdown fs (child (names l) n) = markdown_of (fs !! (l ++ [n])).
Proof.
  intros H Hn. unfold Bots.read_markdown, read_to_string, child. rewrite <-names_snoc, read_child by done.
  by destruct (fs !! (l ++ [n])) as [[]|].
Qed.

Lemma write_field_child fs l n f : plain_dir fs l -> file_place fs (l ++ [n]) ->
  exists fs', write_field links utf8 (child (names l) n) f fs = (fs', true) /\ (forall k, k <> l ++ [n] -> fs' !! k = fs !! k) /\
    file_place fs' (l ++ [n]) /\ markdown_of (fs' !! (l ++ [n])) = saved_text (markdown_of (fs !! (l ++ [n]))) f.
Proof.
  intros H Hn. unfold child. rewrite <-names_snoc.
  assert (forall fs', fs' = default fs (remove_file links (names (l ++ [n])) fs) ->
    (forall k, k <> l ++ [n] -> fs' !! k = fs !! k) /\ file_place fs' (l ++ [n]) /\ markdown_of (fs' !! (l ++ [n])) = None) as Hremoved.
  { intros fs' ->. rewrite remove_child by done. unfold file_place. rewrite lookup_delete_eq. split; [|done].
    intros k Hk. by rewrite lookup_delete_ne. }
  destruct f as [| |t]; cbn [write_field saved_text].
  - by exists fs.
  - eexists. split; [done|]. by apply Hremoved.
  - unfold write_or_remove. destruct (is_empty (trim t)) eqn:Et.
    + eexists. split; [done|]. by apply Hremoved.
    + destruct (write_child links fs l n (utf8 t) H Hn) as [exec ->]. eexists. split; [done|]. split; [intros k Hk; by rewrite lookup_insert_ne|].
      unfold file_place. rewrite lookup_insert_eq. split; [done|]. cbn [markdown_of]. rewrite utf8_reads_back. cbn. by rewrite Et.
Qed.

Lemma trim_twice s : trim s <> [] -> is_empty (trim (trim s)) = is_empty (trim s).
Proof.
  intros Hs. destruct (trim_start (reverse (trim_start s))) as [|c t] eqn:E; [unfold trim, trim_end in Hs; by rewrite E in Hs|].
  assert (c ∈ trim (trim s)) as Hc.
  { apply trim_elem; [|by eapply trim_start_head]. unfold trim, trim_end. rewrite E. apply elem_of_reverse. left. }
  destruct (trim (trim s)); [by apply elem_of_nil in Hc|]. by destruct (trim s).
Qed.

Lemma names_child l n : child (names l) n = names (l ++ [n]).
Proof. symmetry. apply names_snoc. Qed.

(** A bot's directory holds files under its three names, or nothing. *)
Definition bot_files : list rstr := [str "SOUL.md"; str "AGENTS.md"; str "bot.json"].
Definition clean_bot (fs : tree) (root : loc) (id : rstr) : Prop :=
  (fs !! (root ++ [id]) = None /\ (forall n, n ∈ bot_files -> fs !! ((root ++ [id]) ++ [n]) = None)) \/
  (fs !! (root ++ [id]) = Some NDir /\ forall n, n ∈ bot_files -> file_place fs ((root ++ [id]) ++ [n])).

Lemma child_missing fs root id n : plain_dir fs root -> fs !! (root ++ [id]) = None -> read links fs (names ((root ++ [id]) ++ [n])) = None.
Proof.
  intros H Hn. unfold read, stat, realpath, canonicalize. rewrite names_snoc, names_snoc, <-app_assoc, walk_real_dir by done. cbn [app].
  rewrite walk_name, dir_plain, plain_dir_here, plain_lookup, Hn by done. done.
Qed.

Lemma text_child fs l n : plain_dir fs l -> file_place fs (l ++ [n]) ->
  read_to_string links from_utf8 fs (names (l ++ [n])) = match fs !! (l ++ [n]) with Some (NFile bytes _) => from_utf8 bytes | _ => None end.
Proof. intros H Hn. unfold read_to_string. rewrite read_child by done. by destruct (fs !! (l ++ [n])) as [[]|]. Qed.

(** What loads is in the three files. *)
Lemma load_child fs root id : valid_id id = true -> plain_dir fs (root ++ [id]) ->
  (forall n, n ∈ bot_files -> file_place fs ((root ++ [id]) ++ [n])) ->
  load fs (names root) id =
    (meta ← match fs !! ((root ++ [id]) ++ [str "bot.json"]) with Some (NFile bytes _) => from_utf8 bytes | _ => None end ≫= from_str;
     name ← as_str meta.["name"];
     if is_empty (trim name) then None
     else Some {| bd_id := id; bd_name := name; bd_description := as_str meta.["description"];
                  bd_soul := markdown_of (fs !! ((root ++ [id]) ++ [str "SOUL.md"]));
                  bd_agents := markdown_of (fs !! ((root ++ [id]) ++ [str "AGENTS.md"])) |}).
Proof.
  intros Hid Hd Hf. unfold Bots.load. rewrite Hid. cbn [negb]. rewrite (names_child root), !markdown_child by (done || apply Hf; unfold bot_files; set_solver).
  rewrite names_child, text_child by (done || apply Hf; unfold bot_files; set_solver). done.
Qed.

Lemma child_kept (fs fs' : tree) d n : plain_dir fs d -> (forall k, k <> d ++ [n] -> fs' !! k = fs !! k) -> plain_dir fs' d.
Proof.
  intros Hd Hk. eapply plain_dir_kept; [|exact Hd]. intros k Hl. apply Hk. intros ->. rewrite length_app in Hl. cbn in Hl. lia.
Qed.

(** A bot that is saved is the bot that loads: in a directory that no link leads
    to, a save with an id and a name succeeds; what it returns is what then
    loads, under the trimmed name; the description and the two texts are what was
    set, none when cleared or set to blanks, and what they were before when kept;
    and no file but the three of the bot has changed. *)
Theorem saved_bot_loads (fs : tree) (root : loc) (req : BotSave) :
  plain_dir fs root -> clean_bot fs root (bs_id req) -> valid_id (bs_id req) = true -> trim (bs_name req) <> [] ->
  (forall d, from_str (to_string_pretty (bot_meta (trim (bs_name req)) d)) = Some (bot_meta (trim (bs_name req)) d)) ->
  let old := load fs (names root) (bs_id req) in
  let text n := read_markdown fs (names ((root ++ [bs_id req]) ++ [n])) in
  exists fs' b, save fs (names root) req = (fs', Ok b) /\ load fs' (names root) (bs_id req) = Some b /\
    bd_id b = bs_id req /\ bd_name b = trim (bs_name req) /\ bd_description b = saved_description old (bs_description req) /\
    bd_soul b = saved_text (text (str "SOUL.md")) (bs_soul req) /\ bd_agents b = saved_text (text (str "AGENTS.md")) (bs_agents req) /\
    forall l, inside (root ++ [bs_id req]) l = false -> fs' !! l = fs !! l.
Proof using utf8_reads_back.
  intros Hroot Hclean Hid Hname Hjson old text.
  set (id := bs_id req) in *. set (d := root ++ [id]) in *.
  destruct (create_child links fs root id Hroot) as (fs0 & Hmk & Hd & Hfs0); [destruct Hclean as [[? _]|[? _]]; auto|]. fold d in Hmk, Hd, Hfs0.
  assert (forall n, n ∈ bot_files -> file_place fs0 (d ++ [n]) /\ fs0 !! (d ++ [n]) = fs !! (d ++ [n])) as H0.
  { intros n Hn. assert (file_place fs (d ++ [n])) as Hf.
    { destruct Hclean as [[_ Hf]|[_ Hf]]; [|by apply Hf]. unfold file_place. specialize (Hf n Hn). fold d in Hf. by rewrite Hf. }
    destruct Hfs0 as [->|[_ ->]]; [done|]. unfold file_place.
    rewrite lookup_insert_ne by (intros E%(f_equal length); rewrite length_app in E; cbn in E; lia). done. }
  assert (load fs0 (names root) id = old) as Hold.
  { destruct Hfs0 as [E|[Hnone E]]; [by rewrite E|]. unfold old. rewrite load_child by (done || by intros n [Hn _]%H0).
    destruct Hclean as [[_ Hf]|[Hf _]]; [|fold d in Hf; congruence]. fold d in Hf.
    assert (fs0 !! (d ++ [str "bot.json"]) = None) as Hj. { destruct (H0 (str "bot.json")) as [_ ->]; [unfold bot_files; set_solver|]. apply Hf. unfold bot_files. set_solver. }
    unfold d in Hj |- *. rewrite Hj. unfold Bots.load, read_to_string. rewrite !names_child, child_missing by done. by rewrite Hid. }
  unfold Bots.save. fold id. rewrite Hid. destruct (is_empty (trim (bs_name req))) eqn:En; [by destruct (trim (bs_name req))|]. cbn [negb].
  rewrite (names_child root). fold d. rewrite Hmk, Hold.
  destruct (write_field_child fs0 d (str "SOUL.md") (bs_soul req) Hd) as (fs1 & -> & Hk1 & Hp1 & Ht1); [apply H0; unfold bot_files; set_solver|].
  pose proof (child_kept fs0 fs1 d _ Hd Hk1) as Hd1. cbn [negb].
  destruct (write_field_child fs1 d (str "AGENTS.md") (bs_agents req) Hd1) as (fs2 & -> & Hk2 & Hp2 & Ht2).
  { unfold file_place. rewrite Hk1 by (intros E%app_inv_head; discriminate E). apply H0. unfold bot_files. set_solver. }
  pose proof (child_kept fs1 fs2 d _ Hd1 Hk2) as Hd2. cbn [negb]. rewrite names_child.
  set (meta := bot_meta _ _). destruct (write_child links fs2 d (str "bot.json") (utf8 (to_string_pretty meta)) Hd2) as [exec Hw].
  { unfold file_place. rewrite Hk2, Hk1 by (intros E%app_inv_head; discriminate E). apply H0. unfold bot_files. set_solver. }
  rewrite Hw. set (fs3 := <[_ := _]> fs2).
  assert (forall k, k <> d ++ [str "bot.json"] -> fs3 !! k = fs2 !! k) as Hk3 by (intros k Hk; unfold fs3; by rewrite lookup_insert_ne).
  assert (forall n, n ∈ bot_files -> file_place fs3 (d ++ [n])) as H3.
  { intros n Hn. unfold file_place. destruct (decide (n = str "bot.json")) as [->|H3]; [unfold fs3; by rewrite lookup_insert_eq|].
    rewrite Hk3 by (intros E%app_inv_head; by injection E). destruct (decide (n = str "AGENTS.md")) as [->|H2]; [done|].
    rewrite Hk2 by (intros E%app_inv_head; by injection E). destruct (decide (n = str "SOUL.md")) as [->|H1]; [done|].
    rewrite Hk1 by (intros E%app_inv_head; by injection E). by apply H0. }
  assert (forall n, n ∈ bot_files -> text n = markdown_of (fs0 !! (d ++ [n]))) as Htext.
  { intros n Hn. unfold text. rewrite (proj2 (H0 n Hn)). destruct Hclean as [[Hnone Hf]|[Hdir Hf]]; fold d in Hnone || fold d in Hdir; fold d in Hf.
    - rewrite (Hf n Hn). unfold Bots.read_markdown, read_to_string, d. by rewrite child_missing.
    - rewrite <-names_child. apply markdown_child; [|by apply Hf]. by apply plain_dir_snoc. }
  assert (load fs3 (names root) id = Some {| bd_id := id; bd_name := trim (bs_name req);
            bd_description := saved_description old (bs_description req); bd_soul := saved_text (text (str "SOUL.md")) (bs_soul req);
            bd_agents := saved_text (text (str "AGENTS.md")) (bs_agents req) |}) as Hload.
  { rewrite load_child by (done || by apply (child_kept fs2 fs3 d _ Hd2 Hk3)). fold d.
    rewrite (Hk3 (d ++ [str "SOUL.md"])), (Hk3 (d ++ [str "AGENTS.md"])) by (intros E%app_inv_head; discriminate E).
    rewrite Ht2, (Hk2 (d ++ [str "SOUL.md"])), Ht1, (Hk1 (d ++ [str "AGENTS.md"])) by (intros E%app_inv_head; discriminate E).
    rewrite !Htext by (unfold bot_files; set_solver). unfold fs3. rewrite lookup_insert_eq, utf8_reads_back. cbn [mbind option_bind].
    unfold meta. rewrite Hjson. fold meta. cbn [mbind option_bind]. change (as_str meta.["name"]) with (Some (trim (bs_name req))). cbn [mbind option_bind].
    rewrite trim_twice, En by done. f_equal. f_equal. unfold meta. by destruct (saved_description old (bs_description req)). }
  eexists _, _. rewrite Hload. split; [done|]. split; [exact Hload|]. do 5 (split; [done|]). intros l Hl.
  assert (forall n, l <> d ++ [n]) as Hne by (intros n ->; by rewrite inside_app in Hl).
  rewrite Hk3, Hk2, Hk1 by apply Hne. destruct Hfs0 as [->|[_ ->]]; [done|]. rewrite lookup_insert_ne; [done|]. intros <-.
  assert (inside d d = true) as E by (by apply inside_spec). congruence.
Qed.

(** An id that loads is a plain name: no separator, no parent, no flag. *)
Lemma loaded_id_plain fs root id b : load fs root id = Some b -> bd_id b = id /\ valid_id id = true /\ c_slash ∉ id /\ id <> str "..".
Proof.
  unfold Bots.load. destruct (valid_id id) eqn:E; [|done]. cbn [negb]. intros H. split.
  - revert H. unfold mbind, option_bind. repeat case_match; try done. by intros [= <-].
  - split; [done|]. split; [|intros ->; discriminate E]. unfold valid_id in E. bools. intros Hin. apply list_elem_of_In in Hin.
    match goal with H : forallb _ id = true |- _ => rewrite forallb_forall in H; specialize (H _ Hin); discriminate H end.
Qed.
End BotFacts.

(** ** By example *)

Section Cases.
(** One document for every text; bytes are the scalar values. *)
Definition bot_doc (name : string) : json := mk_obj [field "name" (jstr name); field "description" (jstr "d")].
Definition bot_text (name : string) : JsonText := {| to_string := fun _ => []; to_string_pretty := fun _ => []; from_str := fun _ => Some (bot_doc name) |}.
Definition home : tree := list_to_map [
  ([str "bots"], NDir); ([str "bots"; str "b"], NDir); ([str "bots"; str "b"; str "bot.json"], NFile [] false);
  ([str "bots"; str "b"; str "SOUL.md"], NFile (str "be kind") false)].

(** A bot renamed by a call that names nothing else loses its texts: a parameter
    that is absent clears, where it is said to keep. *)
Theorem absent_field_clears :
  let saved := @bot_save (bot_text "B2") 8 id Some [] home (names [str "bots"])
                 (mk_obj [field "id" (jstr "b"); field "name" (jstr "B2")]) in
  bd_soul <$> @load (bot_text "B") 8 Some home (names [str "bots"]) (str "b") = Some (Some (str "be kind")) /\
  bd_soul <$> @load (bot_text "B2") 8 Some saved.1 (names [str "bots"]) (str "b") = Some None.
Proof. split; vm_compute; reflexivity. Qed.

(** A bot behind a link loads, and is not listed. *)
Definition linked_home : tree := <[[str "bots"; str "c"] := NLink false [Name (str "b")]]> home.
Theorem linked_bot_not_listed :
  is_Some (@load (bot_text "B") 8 Some linked_home (names [str "bots"]) (str "c")) /\
  map bd_id (@list_bots (bot_text "B") 8 Some id linked_home (names [str "bots"])) = [str "b"].
Proof. split; [eexists|]; vm_compute; reflexivity. Qed.
End Cases.

(** A text that stands for the description under one name. *)
Definition codec : JsonText := {|
  to_string := fun _ => [];
  to_string_pretty := fun v => match v.["description"] with JStr d => 1%N :: d | _ => [] end;
  from_str := fun t => Some (bot_meta (str "B2") (match t with [] => None | _ :: d => Some d end)) |}.

Definition rename_request : BotSave := {|
  bs_id := str "b"; bs_name := str " B2 "; bs_description := Keep; bs_soul := Keep; bs_agents := Set_ (str "be brief") |}.

Lemma saved_bot_loads_witness :
  plain_dir home [str "bots"] /\ clean_bot home [str "bots"] (str "b") /\
  exists fs' b, @save codec 8 id Some home (names [str "bots"]) rename_request = (fs', Ok b) /\
    @load codec 8 Some fs' (names [str "bots"]) (str "b") = Some b /\ bd_id b = str "b" /\ bd_name b = str "B2" /\
    bd_description b = saved_description (@load codec 8 Some home (names [str "bots"]) (str "b")) Keep /\
    bd_soul b = @saved_text (@read_markdown 8 Some home (names [str "bots"; str "b"; str "SOUL.md"])) Keep /\
    bd_agents b = @saved_text (@read_markdown 8 Some home (names [str "bots"; str "b"; str "AGENTS.md"])) (Set_ (str "be brief")) /\
    forall l, inside [str "bots"; str "b"] l = false -> fs' !! l = home !! l.
Proof.
  assert (plain_dir home [str "bots"]) as Hd. { intros [|[|k]] Hk; [reflexivity..|cbn in Hk; lia]. }
  assert (clean_bot home [str "bots"] (str "b")) as Hc.
  { right. split; [reflexivity|]. intros n Hn. unfold bot_files in Hn. repeat (apply elem_of_cons in Hn as [->|Hn]; [vm_compute; exact I|]).
    by apply elem_of_nil in Hn. }
  split; [exact Hd|]. split; [exact Hc|].
  refine (@saved_bot_loads codec 8 id Some (fun t => eq_refl) home [str "bots"] rename_request Hd Hc eq_refl _ _).
  - discriminate.
  - intros [d|]; reflexivity.
Defined.
