(* ===== verification/Prompts.v ===== *)
(** * Prompts: the prompt library ([prompts.rs], [prompts.*] of [rpc.rs])

    Reusable prompts as markdown files below two roots, the workspace's and the
    user's, listed, read, written, renamed and moved by path. *)

From S2P Require Import Prelude Str Json Rows PlanStore SessionStore Events Session Jail SkillText SkillFs Interact Worktree Files Wire.

Definition MAX_CONTENT_BYTES : nat := 65536.

(** Absolute paths. *)
Record PromptRoots := { pr_workspace : option path; pr_global : path }.

(** [env_home] is the directory set by the environment. *)
Definition roots (workspace_cwd : option path) (env_home data_dir : option path) (default_data_dir : path) : PromptRoots := {|
  pr_workspace := (fun c => child (child c (str ".damon")) (str "prompts")) <$> workspace_cwd;
  pr_global := match env_home with Some g => g | None => child (default default_data_dir data_dir) (str "prompts") end |}.

Record PromptEntry := { pt_name : rstr; pt_description : option rstr; pt_hint : option rstr; pt_scope : rstr; pt_path : path }.
Record PromptDetail := { pd_name : rstr; pd_description : option rstr; pd_hint : option rstr; pd_scope : rstr; pd_content : rstr }.

(** ** Texts *)

Definition c_return_or_feed (c : rchar) : bool := N.eqb c c_nl || N.eqb c c_cr.

(** [trim_end_matches] of line feeds and returns. *)
Fixpoint strip_feeds (s : rstr) : rstr := match s with c :: r => if c_return_or_feed c then strip_feeds r else s | [] => [] end.
Definition trim_feeds (s : rstr) : rstr := reverse (strip_feeds (reverse s)).

Definition fence : rstr := str "---".

Fixpoint after_fence (ls : list rstr) : option rstr :=
  match ls with
  | [] => None
  | l :: ls => if str_eqb (trim_feeds l) fence then Some (concat ls) else after_fence ls
  end.

Definition body_after_fence (text : rstr) : rstr :=
  match split_inclusive text with
  | l :: ls => if str_eqb (trim_feeds l) fence then default text (after_fence ls) else text
  | [] => text
  end.

Definition lookup_field (m : gmap rstr rstr) (keys : list rstr) : option rstr := head (omap (fun k => m !! k) keys).

(** The description, the argument hint and the body. *)
Definition parse_text (text : rstr) : option rstr * option rstr * rstr :=
  match parse_frontmatter text with
  | None => (None, None, text)
  | Some m => (lookup_field m [str "description"], lookup_field m [str "argument-hint"; str "argument_hint"; str "argumenthint"],
               body_after_fence text)
  end.

Definition quote (v : rstr) : rstr :=
  [c_quote] ++ flat_map (fun c => if N.eqb c c_backslash then [c_backslash; c_backslash]
                                  else if N.eqb c c_quote then [c_backslash; c_quote] else [c]) v ++ [c_quote].

Definition field_line (key : string) (v : option rstr) : rstr :=
  match v with Some v => str key ++ str ": " ++ quote v ++ [c_nl] | None => [] end.

Definition build_contents (description hint : option rstr) (body : rstr) : rstr :=
  match description, hint with
  | None, None => body
  | _, _ => fence ++ [c_nl] ++ field_line "description" description ++ field_line "argument-hint" hint ++ fence ++ [c_nl] ++ body
  end.

Definition invalid {A} (message : rstr) : result A HubError := Err (hub_error InvalidInput message).

Definition validate_name (name : rstr) : result rstr HubError :=
  let name := trim name in
  if is_empty name || existsb is_whitespace name then invalid (str "prompt name must be non-empty and contain no whitespace")
  else if has_char c_slash name || has_char c_backslash name then invalid (str "prompt name must not contain path separators")
  else Ok name.

Definition check_content (content : rstr) : result unit HubError :=
  if MAX_CONTENT_BYTES <? utf8_len content
  then invalid (str "content exceeds the " ++ dec (N.of_nat (MAX_CONTENT_BYTES / 1024)) ++ str " KiB cap")
  else Ok tt.

Definition blank (s : rstr) : bool := is_empty (trim s).
Definition unless_blank (o : option rstr) : option rstr := o ≫= fun s => if blank s then None else Some s.

(** [dir.join(format!({name}.md))]: the text is parsed as a path, so that one
    with separators in it would leave the directory. *)
Definition file_at (dir : path) (name : rstr) : path := Jail.join_path dir (parse_path (name ++ str ".md")).

Section Prompts.
(** The links the kernel follows, UTF-8, the order of a directory, which places
    files move between, what the system says of a failure, and texts in quotes. *)
Variables (links : nat) (utf8 : rstr -> list N) (from_utf8_lossy : list N -> rstr)
  (dir_order : list (rstr * node) -> list (rstr * node)) (can_rename : loc -> loc -> bool) (io_error : HubError)
  (debug : rstr -> rstr).

Definition scope_root (r : PromptRoots) (scope : rstr) : result path HubError :=
  if str_eqb scope (str "workspace") then ok_or (pr_workspace r) (hub_error InvalidInput (str "no workspace root for this connection"))
  else if str_eqb scope (str "global") then Ok (pr_global r)
  else invalid (str "unknown scope " ++ debug scope ++ str " (workspace|global)").

Definition parse_prompt (fs : tree) (p : path) : option rstr * option rstr * rstr :=
  match read links fs p with None => (None, None, []) | Some bytes => parse_text (from_utf8_lossy bytes) end.

(** ** The roots *)

Definition canonical_root (fs : tree) (p : path) : path := match realpath links fs p with Some l => names l | None => p end.

Definition in_root (fs : tree) (root p : path) : bool := bool_decide (canonical_root fs root `prefix_of` p).

Definition contained (fs : tree) (r : PromptRoots) (p : path) : bool :=
  match pr_workspace r with Some w => in_root fs w p | None => false end || in_root fs (pr_global r) p.

Definition scope_of (fs : tree) (r : PromptRoots) (p : path) : option rstr :=
  if match pr_workspace r with Some w => in_root fs w p | None => false end then Some (str "workspace")
  else if in_root fs (pr_global r) p then Some (str "global") else None.

Definition escapes {A} : result A HubError := invalid (str "promptPath escapes the prompt roots").

(** A missing path is judged by its parent, if that is there. *)
Definition ensure_within_roots (fs : tree) (r : PromptRoots) (prompt_path : rstr) : result path HubError :=
  let u := parse_path prompt_path in
  if negb (up_absolute u) then invalid (str "promptPath must be absolute")
  else
    let candidate :=
      match realpath links fs (up_comps u) with
      | Some l => names l
      | None => match split_last (up_comps u) with
                | Some (parent, name) => match realpath links fs parent with Some l => child (names l) name | None => up_comps u end
                | None => up_comps u
                end
      end in
    if contained fs r candidate then Ok candidate else escapes.

(** ** Listing and reading *)

Definition is_prompt_file (kv : rstr * node) : bool :=
  match kv.2 with NFile _ _ => true | _ => false end &&
  match extension kv.1 with Some e => eq_ignore_ascii_case e (str "md") | None => false end.

Definition list_scope (fs : tree) (root : path) (scope : rstr) : list PromptEntry :=
  omap (fun name =>
    let stem := file_stem name in
    if is_empty stem || eq_ignore_ascii_case stem (str "readme") then None
    else let '(description, hint, _) := parse_prompt fs (child root name) in
         Some {| pt_name := stem; pt_description := description; pt_hint := hint; pt_scope := scope; pt_path := child root name |})
    (sort_by str_leb (map fst (List.filter is_prompt_file (default [] (read_dir links dir_order fs root))))).

Definition list_prompts (fs : tree) (r : PromptRoots) : list PromptEntry :=
  match pr_workspace r with Some w => list_scope fs w (str "workspace") | None => [] end ++ list_scope fs (pr_global r) (str "global").

Definition name_of (p : path) : rstr := match split_last p with Some (_, n) => file_stem n | None => [] end.

Definition get_prompt (fs : tree) (r : PromptRoots) (prompt_path : rstr) : result PromptDetail HubError :=
  let? canon := ensure_within_roots fs r prompt_path in
  if negb (is_file links fs canon) then Err (hub_error HubNotFound (str "prompt not found"))
  else let '(description, hint, content) := parse_prompt fs canon in
       Ok {| pd_name := name_of canon; pd_description := description; pd_hint := hint;
             pd_scope := default (str "global") (scope_of fs r canon); pd_content := content |}.

(** ** Writing: what was done before a failure stays *)

Definition write_prompt (p : path) (contents : rstr) (fs : tree) : tree * result path HubError :=
  match write links p (utf8 contents) fs with Some fs' => (fs', Ok p) | None => (fs, Err io_error) end.

Definition create (fs : tree) (r : PromptRoots) (scope name : rstr) (description hint : option rstr) (content : rstr) : tree * result path HubError :=
  match (let? name := validate_name name in let? _ := check_content content in let? root := scope_root r scope in Ok (name, root)) with
  | Err e => (fs, Err e)
  | Ok (name, root) =>
      match create_dir_all links root fs with
      | None => (fs, Err io_error)
      | Some fs1 =>
          let dest := file_at root name in
          match lstat_path links fs1 dest with
          | Some _ => (fs1, Err (hub_error Conflict (str "Prompt already exists.")))
          | None => write_prompt dest (build_contents (unless_blank description) (unless_blank hint) content) fs1
          end
      end
  end.

(** [None] keeps a value, a blank text clears it. *)
Definition updated (current new : option rstr) : option rstr :=
  match new with None => current | Some s => if blank s then None else Some (trim s) end.

Definition update (fs : tree) (r : PromptRoots) (prompt_path : rstr) (name description hint content : option rstr) : tree * result path HubError :=
  match (let? canon := ensure_within_roots fs r prompt_path in
         if negb (is_file links fs canon) then Err (hub_error HubNotFound (str "prompt not found"))
         else
           let '(cur_desc, cur_hint, body) := parse_prompt fs canon in
           let? body := match content with None => Ok body | Some c => let? _ := check_content c in Ok c end in
           let contents := build_contents (updated cur_desc description) (updated cur_hint hint) body in
           let? name := match name with None => Ok None | Some n => let? n := validate_name n in Ok (Some n) end in
           Ok (canon, contents, name)) with
  | Err e => (fs, Err e)
  | Ok (canon, contents, name) =>
      match name with
      | Some name =>
          if str_eqb name (name_of canon) then write_prompt canon contents fs
          else
            match split_last canon with
            | None => (fs, Err (hub_error Internal (str "prompt has no parent dir")))
            | Some (parent, _) =>
                let dest := file_at parent name in
                match lstat_path links fs dest with
                | Some _ => (fs, Err (hub_error Conflict (str "a prompt with that name exists")))
                | None =>
                    match write links dest (utf8 contents) fs with
                    | None => (fs, Err io_error)
                    | Some fs1 =>
                        match remove_file links canon fs1 with
                        | None => (fs1, Err io_error)
                        | Some fs2 => (fs2, Ok dest)
                        end
                    end
                end
            end
      | None => write_prompt canon contents fs
      end
  end.

Definition delete_prompt (fs : tree) (r : PromptRoots) (prompt_path : rstr) : tree * result bool HubError :=
  match ensure_within_roots fs r prompt_path with
  | Err e => (fs, Err e)
  | Ok canon =>
      if negb (exists_path links fs canon) then (fs, Ok false)
      else match remove_file links canon fs with Some fs' => (fs', Ok true) | None => (fs, Err io_error) end
  end.

(** [fs::rename]; the destination was not there. *)
Definition move_entry (a b : path) (fs : tree) : option tree :=
  match place links fs a, place links fs b with Some la, Some lb => SkillFs.rename can_rename la lb fs | _, _ => None end.

Definition copy_and_delete (src dst : path) (fs : tree) : tree * result path HubError :=
  match copy_file links src dst fs with
  | None => (fs, Err io_error)
  | Some fs1 =>
      match remove_file links src fs1 with
      | None => (fs1, Err (hub_error Internal (str "moved the copy but could not remove the original: " ++ he_message io_error)))
      | Some fs2 => (fs2, Ok dst)
      end
  end.

Definition move_prompt (fs : tree) (r : PromptRoots) (prompt_path to_scope : rstr) : tree * result path HubError :=
  match (let? canon := ensure_within_roots fs r prompt_path in
         let? from_scope := ok_or (scope_of fs r canon) (hub_error InvalidInput (str "promptPath escapes the prompt roots")) in
         if str_eqb from_scope to_scope then invalid (str "prompt is already in that scope")
         else let? dest_root := scope_root r to_scope in Ok (canon, dest_root)) with
  | Err e => (fs, Err e)
  | Ok (canon, dest_root) =>
      match create_dir_all links dest_root fs with
      | None => (fs, Err io_error)
      | Some fs1 =>
          match split_last canon with
          | None => (fs1, Err (hub_error Internal (str "prompt has no file name")))
          | Some (_, file_name) =>
              let dest := child dest_root file_name in
              match lstat_path links fs1 dest with
              | Some _ => (fs1, Err (hub_error Conflict (str "a prompt with that name exists")))
              | None => match move_entry canon dest fs1 with Some fs2 => (fs2, Ok dest) | None => copy_and_delete canon dest fs1 end
              end
          end
      end
  end.

(** ** Calls *)

Definition hub_failed (e : HubError) : Error := {| ee_message := he_message e; ee_chain := [CHub (he_code e)] |}.
Definition hub_result {A} (r : result A HubError) : result A Error := match r with Ok a => Ok a | Err e => Err (hub_failed e) end.

Definition entry_json (e : PromptEntry) : json := mk_obj
  [field "name" (JStr (pt_name e)); field "description" (Events.opt_json JStr (pt_description e)); field "argumentHint" (Events.opt_json JStr (pt_hint e));
   field "scope" (JStr (pt_scope e)); field "path" (JStr (path_text (pt_path e)))].
Definition detail_json (d : PromptDetail) : json := mk_obj
  [field "name" (JStr (pd_name d)); field "description" (Events.opt_json JStr (pd_description d)); field "argumentHint" (Events.opt_json JStr (pd_hint d));
   field "scope" (JStr (pd_scope d)); field "content" (JStr (pd_content d))].

(** The daemon's directory, the allowed directories, the stored directory of a
    session, and the global root. *)
Variables (here : path) (allowed_dirs : list user_path) (cwd_of : rstr -> option rstr) (env_home data_dir : option path) (default_data_dir : path).

Definition stored_cwd (id : rstr) : result path Error :=
  ok_or ((fun cwd => Jail.join_path here (parse_path cwd)) <$> cwd_of id) (invalid_params (str "unknown session " ++ id)).

Definition resolve_picker_root (fs : tree) (params : json) : result path Error :=
  match as_str params.["sessionId"] with
  | Some id => stored_cwd id
  | None =>
      match as_str params.["cwd"] with
      | Some cwd =>
          if check_cwd_allowed (plain fs) links here allowed_dirs (parse_path cwd) then Ok (Jail.join_path here (parse_path cwd))
          else Err (invalid_params (str "cwd " ++ cwd ++ str " is outside the configured allowed_dirs"))
      | None => Ok here
      end
  end.

Definition picked (fs : tree) (params : json) : result PromptRoots Error :=
  let? cwd := resolve_picker_root fs params in Ok (roots (Some cwd) env_home data_dir default_data_dir).

Definition prompts_list (fs : tree) (params : json) : result json Error :=
  let? r := picked fs params in Ok (mk_obj [field "prompts" (JArr (map entry_json (list_prompts fs r)))]).

Definition prompts_get (fs : tree) (params : json) : result json Error :=
  let? r := picked fs params in let? p := req_str params "promptPath" in
  let? d := hub_result (get_prompt fs r p) in Ok (detail_json d).

(** The answer of a call that writes. *)
Definition answered (flag : string) (o : tree * result path HubError) : tree * result json Error :=
  (o.1, let? p := hub_result o.2 in Ok (mk_obj [field flag (JBool true); field "path" (JStr (path_text p))])).

Definition prompts_create (fs : tree) (params : json) : tree * result json Error :=
  match (let? r := picked fs params in let? scope := req_str params "scope" in let? name := req_str params "name" in
         let? content := req_str params "content" in Ok (r, scope, name, content)) with
  | Err e => (fs, Err e)
  | Ok (r, scope, name, content) =>
      answered "created" (create fs r scope name (as_str params.["description"]) (as_str params.["argumentHint"]) content)
  end.

Definition prompts_update (fs : tree) (params : json) : tree * result json Error :=
  match (let? r := picked fs params in let? p := req_str params "promptPath" in Ok (r, p)) with
  | Err e => (fs, Err e)
  | Ok (r, p) =>
      answered "updated" (update fs r p (as_str params.["name"]) (as_str params.["description"]) (as_str params.["argumentHint"]) (as_str params.["content"]))
  end.

Definition prompts_delete (fs : tree) (params : json) : tree * result json Error :=
  match (let? r := picked fs params in let? p := req_str params "promptPath" in Ok (r, p)) with
  | Err e => (fs, Err e)
  | Ok (r, p) => let '(fs', o) := delete_prompt fs r p in (fs', let? d := hub_result o in Ok (mk_obj [field "deleted" (JBool d)]))
  end.

Definition prompts_move (fs : tree) (params : json) : tree * result json Error :=
  match (let? r := picked fs params in let? p := req_str params "promptPath" in let? scope := req_str params "scope" in Ok (r, p, scope)) with
  | Err e => (fs, Err e)
  | Ok (r, p, scope) => answered "moved" (move_prompt fs r p scope)
  end.

(** A call that writes, and what it leaves. *)
Inductive prompt_op :=
| Create (scope name : rstr) (description hint : option rstr) (content : rstr)
| Update (prompt_path : rstr) (name description hint content : option rstr)
| Delete (prompt_path : rstr)
| Move (prompt_path to_scope : rstr).

Definition run_op (fs : tree) (r : PromptRoots) (o : prompt_op) : tree :=
  match o with
  | Create scope name description hint content => (create fs r scope name description hint content).1
  | Update p name description hint content => (update fs r p name description hint content).1
  | Delete p => (delete_prompt fs r p).1
  | Move p scope => (move_prompt fs r p scope).1
  end.

Definition op_path (o : prompt_op) : option rstr :=
  match o with Create _ _ _ _ _ => None | Update p _ _ _ _ | Delete p | Move p _ => Some p end.
End Prompts.
