(* ===== verification/PromptFacts.v ===== *)
(** * PromptFacts: what the prompt library touches

    Calls stay below the two roots, and nothing is lost but the prompt a call
    names; a prompt that is created reads back. *)

From S2P Require Import Prelude Str Json Rows PlanStore SessionStore Events Session Jail SkillText SkillFs Interact Worktree Files Wire Prompts.

(** A valid name is one component. *)
Lemma valid_file_at dir name n : validate_name name = Ok n -> file_at dir n = child dir (n ++ str ".md").
Proof.
  unfold validate_name. set (m := trim name). destruct (is_empty m || _); [done|].
  destruct (has_char c_slash m || has_char c_backslash m) eqn:E; [done|]. intros [= <-].
  apply orb_false_iff in E as [E _].
  assert (c_slash ∉ m ++ str ".md") as Hns.
  { intros Hin. apply elem_of_app in Hin as [Hin|Hin].
    - apply has_char_spec in Hin. congruence.
    - revert Hin. rewrite list_elem_of_In. vm_compute. intuition discriminate. }
  unfold file_at, Jail.join_path, parse_path.
  assert (starts_with (str "/") (m ++ str ".md") = false) as ->.
  { destruct (starts_with _ _) eqn:Es; [|done]. apply starts_with_spec in Es as [r Hr]. exfalso. apply Hns. rewrite Hr. by left. }
  cbn [up_absolute up_comps]. rewrite split_on_no_sep by (intros x Hx; apply N.eqb_neq; congruence).
  unfold child. f_equal. set (f := m ++ str ".md") in *.
  assert (3 <= length f) as Hlen by (unfold f; rewrite length_app; change (length (str ".md")) with 3; lia).
  clearbody f. cbn. unfold segment. destruct f as [|c f]; [cbn in Hlen; lia|]. cbn [is_empty orb].
  assert (forall s, length s < 3 -> str_eqb (c :: f) s = false) as Hneq
    by (intros s Hs; apply str_eqb_neq; intros <-; lia).
  by rewrite !Hneq by (vm_compute; lia).
Qed.

Section PromptFacts.
Variables (links : nat) (utf8 : rstr -> list N) (from_utf8_lossy : list N -> rstr)
  (dir_order : list (rstr * node) -> list (rstr * node)) (can_rename : loc -> loc -> bool) (io_error : HubError) (debug : rstr -> rstr).

Definition root_list (r : PromptRoots) : list path := option_list (pr_workspace r) ++ [pr_global r].

(** ** Where a judged path is *)

Definition below_root (fs : tree) (r : PromptRoots) (l : loc) : Prop :=
  exists root R, root ∈ root_list r /\ realpath links fs root = Some R /\ R `prefix_of` l.

(** The roots are there. *)
Definition roots_exist (fs : tree) (r : PromptRoots) : Prop :=
  forall root, root ∈ root_list r -> exists R, realpath links fs root = Some R /\ dir_here fs R = true.

Lemma names_prefix (k l : loc) : names k `prefix_of` names l -> k `prefix_of` l.
Proof.
  revert l; induction k as [|x k IH]; intros l [t H]; [by exists l|]. destruct l as [|y l]; [done|]. injection H as -> H.
  destruct (IH l) as [t' ->]; [by exists t|]. by exists t'.
Qed.

Lemma contained_below fs r l : roots_exist fs r -> contained links fs r (names l) = true -> below_root fs r l.
Proof.
  intros Hr H. assert (exists root, root ∈ root_list r /\ in_root links fs root (names l) = true) as (root & Hin & Hroot).
  { unfold contained in H. apply orb_true_iff in H as [H|H]; [|exists (pr_global r); split; [|done]; apply elem_of_app; right; by left].
    unfold root_list. destruct (pr_workspace r) as [w|]; [|done]. exists w. split; [by left|done]. }
  destruct (Hr root Hin) as (R & HR & _). exists root, R. split; [done|]. split; [done|]. unfold in_root, canonical_root in Hroot.
  rewrite HR in Hroot. apply bool_decide_eq_true in Hroot. by apply names_prefix.
Qed.

Lemma ensure_ok fs r t canon : ensure_within_roots links fs r t = Ok canon ->
  contained links fs r canon = true /\
  ((exists l, realpath links fs (up_comps (parse_path t)) = Some l /\ canon = names l) \/
   (exists q n l, up_comps (parse_path t) = q ++ [Name n] /\ realpath links fs (q ++ [Name n]) = None /\ realpath links fs q = Some l /\ canon = names (l ++ [n])) \/
   (canon = up_comps (parse_path t) /\ realpath links fs canon = None /\
    forall q n, split_last canon = Some (q, n) -> realpath links fs q = None)).
Proof.
  unfold ensure_within_roots. destruct (negb _); [done|]. set (u := up_comps (parse_path t)).
  destruct (realpath links fs u) as [l|] eqn:E.
  - destruct (contained links fs r (names l)) eqn:Ec; [|done]. intros [= <-]. split; [done|]. left. by exists l.
  - destruct (split_last u) as [[q n]|] eqn:Es.
    + assert (u = q ++ [Name n]) as Hu.
      { unfold split_last in Es. destruct u as [|c u' _] using rev_ind; [done|]. rewrite last_snoc, removelast_last in Es.
        destruct c; [|done]. by injection Es as -> ->. }
      destruct (realpath links fs q) as [l|] eqn:Eq.
      * unfold child. rewrite <-names_snoc. destruct (contained links fs r (names (l ++ [n]))) eqn:Ec; [|done]. intros [= <-]. split; [done|].
        right; left. exists q, n, l. split; [done|]. rewrite <-Hu. done.
      * destruct (contained links fs r u) eqn:Ec; [|done]. intros [= <-]. split; [done|]. right; right. split; [done|]. split; [done|].
        intros q' n' Es'. rewrite Es in Es'. by injection Es' as <- <-.
    + destruct (contained links fs r u) eqn:Ec; [|done]. intros [= <-]. split; [done|]. right; right. split; [done|]. split; [done|].
      intros q' n' Es'. by rewrite Es in Es'.
Qed.

(** The entry a judged path stands for. *)
Lemma ensure_placed fs r t canon la : ensure_within_roots links fs r t = Ok canon -> place links fs canon = Some la ->
  canon = names la /\ (la = [] \/ exists q n, la = q ++ [n] /\ plain_dir fs q).
Proof.
  intros H Hp. destruct (ensure_ok fs r t canon H) as [_ [(l & Hl & ->)|[(q & n & l & _ & _ & Hq & ->)|(-> & Hn & Hs)]]].
  - pose proof (realpath_real links fs _ _ Hl) as Hr. destruct (real_placed fs l Hr) as [->|(q & n & -> & Hq)].
    + cbn in Hp. unfold place, split_last in Hp. cbn in Hp. unfold realpath, canonicalize in Hp. rewrite walk_nil in Hp. injection Hp as <-.
      split; [done|by left].
    + rewrite place_child in Hp by done. injection Hp as <-. split; [done|]. right. by exists q, n.
  - pose proof (realpath_real links fs _ _ Hq) as Hr. unfold place in Hp. rewrite names_snoc, split_last_snoc in Hp.
    rewrite (realpath_self links fs l Hr) in Hp. cbn in Hp. destruct (dir_here fs l) eqn:Hd; [|done]. injection Hp as <-.
    rewrite names_snoc. split; [done|]. right. exists l, n. split; [done|]. apply real_is_dir; [done|]. by rewrite dir_plain.
  - exfalso. unfold place in Hp. destruct (split_last _) as [[q n]|] eqn:E; [|congruence]. by rewrite (Hs q n eq_refl) in Hp.
Qed.

(** What it resolves to, within the limit of links, is itself. *)
Lemma ensure_resolved fs r t canon l : ensure_within_roots links fs r t = Ok canon ->
  within_limit (plain fs) links (up_comps (parse_path t)) -> realpath links fs canon = Some l -> canon = names l /\ real (plain fs) l.
Proof.
  intros H Hlim Hl. destruct (ensure_ok fs r t canon H) as [_ [(k & Hk & ->)|[(q & n & k & Hu & Hnone & Hq & ->)|(-> & Hn & Hs)]]].
  - pose proof (realpath_real links fs _ _ Hk) as Hr. rewrite (realpath_self links fs k Hr) in Hl. by injection Hl as <-.
  - exfalso. pose proof (realpath_real links fs _ _ Hq) as Hr. unfold realpath, canonicalize in Hq, Hl, Hnone. rewrite Hu in Hlim.
    assert (walk false (plain fs) links k [Name n] = Some l) as Hw.
    { rewrite names_snoc in Hl. destruct (walk_prefix _ _ _ _ _ _ Hl) as (m & Hm & _ & Hd). rewrite walk_real_self in Hm by done. injection Hm as <-.
      rewrite <-Hl. symmetry. apply walk_real_dir. apply real_is_dir; [done|]. by apply Hd. }
    pose proof (walk_compose _ _ _ _ _ _ _ _ Hq Hw) as Hc. specialize (Hlim (length (q ++ [Name n])) (links + links) l).
    rewrite take_ge in Hlim by done. specialize (Hlim Hc). congruence.
  - congruence.
Qed.

(** ** What a call changes *)

(** Every entry is in a directory. *)
Definition tree_ok (fs : tree) : Prop := forall l n x, fs !! (l ++ [n]) = Some x -> dir_here fs l = true.

(** Changes are below the roots, and of what was there only [lost] goes. *)
Definition touched (fs : tree) (r : PromptRoots) (lost : loc -> Prop) (fs' : tree) : Prop :=
  forall l, fs' !! l <> fs !! l -> below_root fs r l /\ (is_Some (fs !! l) -> lost l).

Lemma touched_same fs r lost : touched fs r lost fs.
Proof. by intros l H. Qed.

Lemma touched_insert fs r (lost : loc -> Prop) l x : below_root fs r l -> (is_Some (fs !! l) -> lost l) -> touched fs r lost (<[l := x]> fs).
Proof. intros Hb Hl k Hk. destruct (decide (l = k)) as [->|]; [done|]. by rewrite lookup_insert_ne in Hk. Qed.

Lemma touched_delete fs r (lost : loc -> Prop) l fs' : below_root fs r l -> lost l -> touched fs r lost fs' -> touched fs r lost (base.delete l fs').
Proof. intros Hb Hl Ht k Hk. destruct (decide (l = k)) as [->|]; [done|]. rewrite lookup_delete_ne in Hk by done. by apply Ht. Qed.

Lemma root_child_below fs r root R n : root ∈ root_list r -> realpath links fs root = Some R -> below_root fs r (R ++ [n]).
Proof. intros Hin HR. exists root, R. split; [done|]. split; [done|]. by exists [n]. Qed.

Lemma scope_root_in r scope root : scope_root debug r scope = Ok root -> root ∈ root_list r.
Proof.
  unfold scope_root, root_list. destruct (str_eqb scope _); [destruct (pr_workspace r); [|done]; intros [= <-]; by left|].
  destruct (str_eqb scope _); [|done]. intros [= <-]. apply elem_of_app. right. by left.
Qed.

Lemma root_created fs r root : roots_exist fs r -> root ∈ root_list r -> create_dir_all links root fs = Some fs.
Proof.
  intros Hr Hin. destruct (Hr root Hin) as (R & HR & Hd). apply create_existing. unfold is_dir_path, stat. rewrite HR. cbn.
  unfold dir_here in Hd. by destruct (lstat fs R) as [[]|].
Qed.

(** The place of a name below a root, free or taken. *)
Lemma root_place fs r root n : roots_exist fs r -> root ∈ root_list r -> lstat_path links fs (child root n) = None ->
  exists R, realpath links fs root = Some R /\ dir_here fs R = true /\ fs !! (R ++ [n]) = None /\ place links fs (child root n) = Some (R ++ [n]).
Proof.
  intros Hr Hin Hl. destruct (Hr root Hin) as (R & HR & Hd). exists R. pose proof (place_in_dir links fs root n R HR Hd) as Hp.
  unfold lstat_path in Hl. rewrite Hp in Hl. cbn in Hl. rewrite lstat_snoc in Hl. done.
Qed.

Lemma create_touched fs r scope name description hint content : roots_exist fs r ->
  touched fs r (fun _ => False) (create links utf8 io_error debug fs r scope name description hint content).1.
Proof.
  intros Hr. unfold create. destruct (validate_name name) as [n|] eqn:En; [|apply touched_same]. destruct (check_content content); [|apply touched_same].
  destruct (scope_root debug r scope) as [root|] eqn:Es; [|apply touched_same]. apply scope_root_in in Es. rewrite (root_created fs r root Hr Es), (valid_file_at root name n En).
  destruct (lstat_path links fs _) eqn:El; [apply touched_same|]. destruct (root_place fs r root _ Hr Es El) as (R & HR & Hd & Hn & _).
  unfold write_prompt. rewrite (write_new links fs root R _ _ HR Hd Hn). cbn. apply touched_insert; [by eapply root_child_below|].
  rewrite Hn. by intros [].
Qed.

(** What a call names, and what is below it. *)
Definition named (fs : tree) (r : PromptRoots) (t : rstr) (l : loc) : Prop :=
  exists canon, ensure_within_roots links fs r t = Ok canon /\ canon `prefix_of` names l.

Lemma named_self fs r t l : ensure_within_roots links fs r t = Ok (names l) -> named fs r t l.
Proof. intros H. by exists (names l). Qed.

(** A file that a call names is below a root, in a directory of it. *)
Lemma judged_below fs r t q n : roots_exist fs r -> ensure_within_roots links fs r t = Ok (names (q ++ [n])) -> below_root fs r (q ++ [n]).
Proof. intros Hr H. apply contained_below; [done|]. by apply ensure_ok in H as [H _]. Qed.

Lemma delete_touched fs r t : roots_exist fs r -> touched fs r (named fs r t) (delete_prompt links io_error fs r t).1.
Proof.
  intros Hr. unfold delete_prompt. destruct (ensure_within_roots links fs r t) as [canon|] eqn:E; [|apply touched_same].
  destruct (negb _); [apply touched_same|]. unfold remove_file. destruct (place links fs canon) as [la|] eqn:Ep; [|apply touched_same].
  destruct (ensure_placed fs r t canon la E Ep) as [-> [->|(q & n & -> & Hq)]]; [apply touched_same|].
  destruct (lstat fs (q ++ [n])) as [[]|]; try apply touched_same; cbn;
    (apply touched_delete; [by eapply judged_below|by apply named_self|apply touched_same]).
Qed.

(** A file's own name goes, its new name is in the same directory. *)
Lemma sibling_below fs r q n m x : roots_exist fs r -> fs !! (q ++ [n]) = Some x -> is_dir_node x = false -> below_root fs r (q ++ [n]) -> below_root fs r (q ++ [m]).
Proof.
  intros Hr Hx Hd (root & R & Hin & HR & [s Hs]). exists root, R. split; [done|]. split; [done|].
  destruct s as [|y s _] using rev_ind.
  - exfalso. rewrite app_nil_r in Hs. destruct (Hr root Hin) as (R' & HR' & Hdir). rewrite HR in HR'. injection HR' as <-. rewrite <-Hs in Hdir.
    unfold dir_here in Hdir. rewrite lstat_snoc, Hx in Hdir. by destruct x.
  - rewrite app_assoc in Hs. apply app_inj_tail in Hs as [-> _]. rewrite <-app_assoc. by exists (s ++ [m]).
Qed.

Lemma update_touched fs r t name description hint content : roots_exist fs r -> within_limit (plain fs) links (up_comps (parse_path t)) ->
  touched fs r (named fs r t) (update links utf8 from_utf8_lossy io_error fs r t name description hint content).1.
Proof.
  intros Hr Hlim. unfold update. destruct (ensure_within_roots links fs r t) as [canon|] eqn:E; [|apply touched_same].
  destruct (is_file links fs canon) eqn:Ef; [cbn [negb]|apply touched_same].
  unfold is_file, stat in Ef. destruct (realpath links fs canon) as [l|] eqn:El; [|done]. cbn [mbind option_bind] in Ef.
  destruct (ensure_resolved fs r t canon l E Hlim El) as [-> Hreal]. destruct (lstat fs l) as [[|b x|]|] eqn:Hl; try done.
  destruct (real_placed fs l Hreal) as [->|(q & n & -> & Hq)]; [done|]. rewrite lstat_snoc in Hl.
  assert (file_place fs (q ++ [n])) as Hfile by (unfold file_place; by rewrite Hl).
  pose proof (judged_below fs r t q n Hr E) as Hb. pose proof (named_self fs r t _ E) as Hnamed.
  assert (forall contents, touched fs r (named fs r t) (write_prompt links utf8 io_error (names (q ++ [n])) contents fs).1) as Hwrite.
  { intros contents. unfold write_prompt. destruct (write_child links fs q n (utf8 contents) Hq Hfile) as [exec ->]. by apply touched_insert. }
  destruct (parse_prompt _ _ _ _) as [[d h] body]. destruct (match content with None => _ | Some c => _ end); [|apply touched_same].
  destruct (match name with None => _ | Some n => _ end) as [[m|]|] eqn:Em; [|apply Hwrite|apply touched_same].
  assert (exists given, validate_name given = Ok m) as [given Hm].
  { destruct name as [given|]; [|done]. exists given. destruct (validate_name given); [|done]. by injection Em as ->. }
  destruct (str_eqb m _); [apply Hwrite|]. rewrite names_snoc, split_last_snoc, (valid_file_at _ given m Hm). destruct (lstat_path links fs _) eqn:Ed; [apply touched_same|].
  pose proof (realpath_dir links fs q Hq) as Hrq. pose proof (plain_dir_here fs q Hq) as Hdq.
  unfold lstat_path in Ed. rewrite (place_in_dir links fs _ _ q Hrq Hdq) in Ed. cbn in Ed. rewrite lstat_snoc in Ed.
  rewrite (write_new links fs _ q _ _ Hrq Hdq Ed). set (fs1 := <[_ := _]> fs).
  assert (touched fs r (named fs r t) fs1) as H1. { apply touched_insert; [by eapply sibling_below|]. rewrite Ed. by intros []. }
  rewrite <-names_snoc, (remove_placed links fs1 q n (NFile b x)); [cbn; by apply touched_delete|by apply plain_dir_extend| |done].
  unfold fs1. rewrite lookup_insert_ne; [done|]. intros Heq. rewrite Heq in Ed. congruence.
Qed.

(** A tree has nothing below what is not there. *)
Lemma nothing_below fs l k : tree_ok fs -> l <> [] -> fs !! l = None -> l `prefix_of` k -> fs !! k = None.
Proof.
  intros Hok Hl Hn [s ->]. induction s as [|x s IH] using rev_ind; [by rewrite app_nil_r|]. rewrite app_assoc.
  destruct (fs !! ((l ++ s) ++ [x])) as [n|] eqn:E; [|done]. apply Hok in E. unfold dir_here, lstat in E.
  destruct (l ++ s) as [|y t] eqn:Ea; [by apply app_eq_nil in Ea as [-> _]|]. by rewrite IH in E.
Qed.

Lemma rename_touched fs r (lost : loc -> Prop) la lb fs' : tree_ok fs -> lb <> [] -> fs !! lb = None ->
  (forall l, la `prefix_of` l -> below_root fs r l /\ lost l) -> (forall l, lb `prefix_of` l -> below_root fs r l) ->
  SkillFs.rename can_rename la lb fs = Some fs' -> touched fs r lost fs'.
Proof.
  intros Hok Hne Hlb Ha Hb H l Hl. rewrite (rename_lookup _ _ _ _ _ l H) in Hl.
  destruct (inside lb l) eqn:Eb; [apply inside_spec in Eb|].
  - rewrite (nothing_below fs lb l Hok Hne Hlb Eb) in *. split; [by apply Hb|]. by intros [].
  - destruct (inside la l) eqn:Ea; [|done]. apply inside_spec in Ea. destruct (Ha l Ea). done.
Qed.

Lemma below_more fs r l k : below_root fs r l -> l `prefix_of` k -> below_root fs r k.
Proof. intros (root & R & Hin & HR & Hp) Hk. exists root, R. split; [done|]. split; [done|]. by etrans. Qed.

Lemma names_app (a b : loc) : names (a ++ b) = names a ++ names b.
Proof. apply map_app. Qed.

Lemma named_below fs r t (la l : loc) : ensure_within_roots links fs r t = Ok (names la) -> la `prefix_of` l -> named fs r t l.
Proof. intros H [s ->]. exists (names la). split; [done|]. rewrite names_app. by exists (names s). Qed.

Lemma move_touched fs r t scope : roots_exist fs r -> tree_ok fs -> within_limit (plain fs) links (up_comps (parse_path t)) ->
  touched fs r (named fs r t) (move_prompt links can_rename io_error debug fs r t scope).1.
Proof.
  intros Hr Hok Hlim. unfold move_prompt. destruct (ensure_within_roots links fs r t) as [canon|] eqn:E; [|apply touched_same].
  destruct (ok_or (scope_of _ _ _ _) _) as [from|]; [|apply touched_same]. destruct (str_eqb from scope); [apply touched_same|].
  destruct (scope_root debug r scope) as [root|] eqn:Es; [|apply touched_same]. apply scope_root_in in Es. rewrite (root_created fs r root Hr Es).
  destruct (split_last canon) as [[p fname]|] eqn:Ec; [|apply touched_same]. destruct (lstat_path links fs _) eqn:El; [apply touched_same|].
  destruct (root_place fs r root fname Hr Es El) as (R & HR & Hd & Hn & Hpl).
  pose proof (root_child_below fs r root R fname Es HR) as Hb.
  destruct (move_entry links can_rename canon (child root fname) fs) as [fs2|] eqn:Em.
  - cbn. unfold move_entry in Em. rewrite Hpl in Em. destruct (place links fs canon) as [la|] eqn:Ep; [|done].
    destruct (ensure_placed fs r t canon la E Ep) as [-> _]. apply (rename_touched fs r _ la (R ++ [fname])); try done.
    + by destruct R.
    + intros l Hl. split; [|by eapply named_below]. eapply below_more; [|exact Hl]. apply contained_below; [done|]. by apply ensure_ok in E as [E _].
    + intros l Hl. by eapply below_more.
  - unfold copy_and_delete. destruct (stat links fs canon) as [[|b x|]|] eqn:Est; try (unfold copy_file; rewrite Est; apply touched_same).
    pose proof Est as Hst. unfold stat in Hst. destruct (realpath links fs canon) as [l|] eqn:Erl; [|done]. cbn in Hst.
    destruct (ensure_resolved fs r t canon l E Hlim Erl) as [-> Hreal].
    destruct (real_placed fs l Hreal) as [->|(q & n & -> & Hq)]; [done|]. rewrite lstat_snoc in Hst.
    rewrite (copy_new links fs _ root R fname b x Est HR Hd Hn). set (fs1 := <[_ := _]> fs).
    assert (touched fs r (named fs r t) fs1) as H1. { apply touched_insert; [done|]. rewrite Hn. by intros []. }
    rewrite (remove_placed links fs1 q n (NFile b x)); [|by apply plain_dir_extend| |done].
    + cbn. apply touched_delete; [by eapply judged_below|by apply named_self|done].
    + unfold fs1. rewrite lookup_insert_ne; [done|]. intros Heq. rewrite Heq in Hn. congruence.
Qed.

(** C39: the prompt library stays in its roots: whatever scope, name, texts and
    path a call is given, where the roots are there and the path meets no more
    links than are followed, each change it makes is below one of the roots,
    resolved - a name is joined as text, and only the check of names keeps it
    one component - and of what was there nothing is changed or lost but what
    the call's own path names, so that creating, renaming and moving overwrite
    nothing. *)
Theorem prompts_confined (fs : tree) (r : PromptRoots) (o : prompt_op) :
  roots_exist fs r -> tree_ok fs -> (forall t, op_path o = Some t -> within_limit (plain fs) links (up_comps (parse_path t))) ->
  let fs' := run_op links utf8 from_utf8_lossy can_rename io_error debug fs r o in
  forall l, fs' !! l <> fs !! l ->
    (exists root R, root ∈ root_list r /\ realpath links fs root = Some R /\ R `prefix_of` l) /\
    (forall n, fs !! l = Some n -> exists t canon, op_path o = Some t /\ ensure_within_roots links fs r t = Ok canon /\ canon `prefix_of` names l).
Proof.
  intros Hr Hok Hlim fs' l Hl.
  assert (exists lost : loc -> Prop, touched fs r lost fs' /\ forall k, lost k ->
    exists t canon, op_path o = Some t /\ ensure_within_roots links fs r t = Ok canon /\ canon `prefix_of` names k) as (lost & Ht & Hlost).
  { unfold fs'. destruct o as [scope name d h c|t name d h c|t|t scope]; cbn [run_op op_path] in *.
    - exists (fun _ => False). split; [by apply create_touched|done].
    - exists (named fs r t). split; [apply update_touched; auto|]. intros k (canon & H1 & H2). by exists t, canon.
    - exists (named fs r t). split; [by apply delete_touched|]. intros k (canon & H1 & H2). by exists t, canon.
    - exists (named fs r t). split; [apply move_touched; auto|]. intros k (canon & H1 & H2). by exists t, canon. }
  destruct (Ht l Hl) as [Hb Hk]. split; [done|]. intros n Hn. by apply Hlost, Hk.
Qed.
End PromptFacts.
