(* ===== verification/PromptText.v ===== *)
(** * PromptText: prompts read back

    What [build_contents] writes [parse_text] reads, where the description and the
    hint have no quotes, backslashes and line feeds; a created prompt is the one
    read; and where texts do not come back. *)

From S2P Require Import Prelude Str Json Rows Session PlanStore Jail SessionStore Events SkillText SkillFs Interact Worktree Wire Files Prompts PromptFacts.

(** ** Lines *)

Lemma lines_feed a b : c_nl ∉ a -> lines (a ++ c_nl :: b) = strip_cr a :: lines b.
Proof.
  intros Ha. unfold lines. rewrite split_on_cons_sep; [|intros c Hc; apply N.eqb_neq; congruence|done].
  cbn [lines_go]. destruct (split_on (N.eqb c_nl) b) eqn:E; [by apply split_on_nonempty in E|done].
Qed.

Lemma strip_cr_quote s : strip_cr (s ++ [c_quote]) = s ++ [c_quote].
Proof. unfold strip_cr. by rewrite last_snoc. Qed.

Lemma trim_end_quote s : trim_end (s ++ [c_quote]) = s ++ [c_quote].
Proof. unfold trim_end. rewrite reverse_app. change (reverse ([c_quote] ++ reverse s) = s ++ [c_quote]). by rewrite reverse_app, reverse_involutive. Qed.

Lemma trim_quoted s : trim (c_space :: [c_quote] ++ s ++ [c_quote]) = [c_quote] ++ s ++ [c_quote].
Proof. unfold trim. cbn [trim_start is_whitespace]. change (trim_end (([c_quote] ++ s) ++ [c_quote]) = [c_quote] ++ s ++ [c_quote]). by rewrite trim_end_quote. Qed.

Lemma inline_quoted s : inline_value ([c_quote] ++ s ++ [c_quote]) = s.
Proof.
  unfold inline_value, strip_quotes, strip_prefix. cbn [app starts_with]. rewrite N.eqb_refl. cbn [andb length drop mbind option_bind].
  unfold strip_suffix, ends_with. rewrite !drop_0, reverse_app. cbn [app]. change (reverse [c_quote]) with [c_quote]. cbn [starts_with app]. rewrite N.eqb_refl.
  cbn [andb or_else default]. rewrite length_app. cbn [length]. by rewrite Nat.add_sub, take_app_length.
Qed.

(** ** Fields *)

Definition plain_value (v : rstr) : Prop := blank v = false /\ c_quote ∉ v /\ c_backslash ∉ v /\ c_nl ∉ v.

Lemma quote_plain v : plain_value v -> quote v = [c_quote] ++ v ++ [c_quote].
Proof.
  intros (_ & Hq & Hb & _). unfold quote. do 2 f_equal. induction v as [|c v IH]; [done|]. cbn [flat_map].
  apply not_elem_of_cons in Hq as [Hq Hqs], Hb as [Hb Hbs]. destruct (N.eqb_spec c c_backslash); [congruence|].
  destruct (N.eqb_spec c c_quote); [congruence|]. cbn. by rewrite IH.
Qed.

Definition field_text (key : string) (v : rstr) : rstr := str key ++ str ": " ++ [c_quote] ++ v ++ [c_quote].

Definition keys_ok (key : string) : Prop := key = "description"%string \/ key = "argument-hint"%string.

Lemma field_line_reads key v m : keys_ok key -> plain_value v ->
  front_matter_line (field_text key v) m = inl (<[str key := v]> m, None).
Proof.
  intros Hk (Hv & _). assert (is_empty v = false) as He by (by destruct v).
  assert (split_once c_colon (str key ++ c_colon :: c_space :: [c_quote] ++ v ++ [c_quote]) = Some (str key, c_space :: [c_quote] ++ v ++ [c_quote])) as Hs.
  { apply split_once_app. rewrite list_elem_of_In. destruct Hk as [-> | ->]; vm_compute; intuition discriminate. }
  unfold field_text. change (str ": ") with [c_colon; c_space]. cbn [app] in Hs |- *. unfold front_matter_line. rewrite Hs.
  assert (str_eqb (str key ++ c_colon :: c_space :: c_quote :: v ++ [c_quote]) (str "---") = false) as -> by (by destruct Hk as [-> | ->]).
  assert (is_empty (str key ++ c_colon :: c_space :: c_quote :: v ++ [c_quote]) = false) as -> by (by destruct Hk as [-> | ->]).
  assert (starts_with (str "#") (str key ++ c_colon :: c_space :: c_quote :: v ++ [c_quote]) = false) as -> by (by destruct Hk as [-> | ->]).
  cbn [orb]. change (c_space :: c_quote :: v ++ [c_quote]) with (c_space :: [c_quote] ++ v ++ [c_quote]). rewrite trim_quoted, inline_quoted, He.
  destruct Hk as [-> | ->]; done.
Qed.

Lemma loop_field key v ls m : keys_ok key -> plain_value v ->
  front_matter_loop ((field_text key v) :: ls) m None = front_matter_loop ls (<[str key := v]> m) None.
Proof.
  intros Hk Hv. cbn [front_matter_loop]. replace (trim_end _) with (field_text key v).
  - by rewrite field_line_reads.
  - unfold field_text. rewrite !app_assoc, trim_end_quote. done.
Qed.

Lemma field_line_text key v : plain_value v -> field_line key (Some v) = field_text key v ++ [c_nl].
Proof. intros Hv. unfold field_line, field_text. rewrite quote_plain by done. by rewrite <-!app_assoc. Qed.

Lemma field_text_line key v : keys_ok key -> plain_value v -> c_nl ∉ field_text key v.
Proof.
  intros Hk (_ & _ & _ & Hn). unfold field_text. rewrite !not_elem_of_app. rewrite !list_elem_of_In in *.
  split_and!; try done; try (vm_compute; intuition discriminate). destruct Hk as [-> | ->]; vm_compute; intuition discriminate.
Qed.

Lemma field_text_end key v : exists s, field_text key v = s ++ [c_quote].
Proof. exists (str key ++ str ": " ++ [c_quote] ++ v). unfold field_text. by rewrite !app_assoc. Qed.

Lemma fence_line : c_nl ∉ fence.
Proof. rewrite list_elem_of_In. vm_compute. intuition discriminate. Qed.

(** The lines between the fences. *)
Definition field_of (key : string) (v : option rstr) : list rstr := match v with Some v => [field_text key v] | None => [] end.

Lemma built_text d h body : (d <> None \/ h <> None) -> (forall v, d = Some v -> plain_value v) -> (forall v, h = Some v -> plain_value v) ->
  build_contents d h body =
  fence ++ c_nl :: flat_map (fun l => l ++ [c_nl]) (field_of "description" d ++ field_of "argument-hint" h) ++ fence ++ c_nl :: body.
Proof.
  intros Hs Hd Hh. unfold build_contents.
  destruct d as [d|], h as [h|]; [..|by destruct Hs]; rewrite ?field_line_text by auto; cbn [field_of app flat_map field_line];
    by rewrite ?app_nil_r; repeat rewrite <-app_assoc.
Qed.

Definition field_like (l : rstr) : Prop := c_nl ∉ l /\ exists s, l = s ++ [c_quote].

Lemma fields_like d h : (forall v, d = Some v -> plain_value v) -> (forall v, h = Some v -> plain_value v) ->
  Forall field_like (field_of "description" d ++ field_of "argument-hint" h).
Proof.
  intros Hd Hh. apply Forall_app. split; [destruct d as [d|]|destruct h as [h|]]; repeat constructor;
    try apply field_text_end; apply field_text_line; auto; [by left|by right].
Qed.

Lemma lines_of fields body : Forall field_like fields ->
  lines (flat_map (fun l => l ++ [c_nl]) fields ++ fence ++ c_nl :: body) = fields ++ fence :: lines body.
Proof.
  induction 1 as [|l fields [Hn [s ->]] _ IH]; cbn [flat_map app].
  - apply lines_feed, fence_line.
  - rewrite <-!app_assoc. change ([c_nl] ++ ?x) with (c_nl :: x). rewrite (app_assoc s), lines_feed, strip_cr_quote by done. cbn. by rewrite IH.
Qed.

Lemma trim_feeds_quote s : trim_feeds ((s ++ [c_quote]) ++ [c_nl]) = s ++ [c_quote].
Proof.
  unfold trim_feeds. rewrite !reverse_app. change (reverse ([c_quote] ++ reverse s) = s ++ [c_quote]). by rewrite reverse_app, reverse_involutive.
Qed.

Lemma not_fence s : str_eqb (s ++ [c_quote]) fence = false.
Proof.
  unfold str_eqb. apply bool_decide_eq_false. intros E. apply (f_equal last) in E. rewrite last_snoc in E. by vm_compute in E.
Qed.

Lemma body_of fields body : Forall field_like fields ->
  after_fence (split_inclusive (flat_map (fun l => l ++ [c_nl]) fields ++ fence ++ c_nl :: body)) = Some body.
Proof.
  induction 1 as [|l fields [Hn [s ->]] _ IH]; cbn [flat_map app].
  - rewrite split_inclusive_line by apply fence_line. cbn [after_fence].
    change (str_eqb (trim_feeds (fence ++ [c_nl])) fence) with true. by rewrite split_inclusive_concat.
  - rewrite <-!app_assoc. change ([c_nl] ++ ?x) with (c_nl :: x). rewrite (app_assoc s), split_inclusive_line by done. cbn [after_fence].
    by rewrite trim_feeds_quote, not_fence.
Qed.

(** What is written reads back. *)
Lemma parse_built d h body : (forall v, d = Some v -> plain_value v) -> (forall v, h = Some v -> plain_value v) ->
  (d = None -> h = None -> parse_frontmatter body = None) -> parse_text (build_contents d h body) = (d, h, body).
Proof.
  intros Hd Hh Hbody. destruct (decide (d = None /\ h = None)) as [[-> ->]|Hs].
  { unfold parse_text. cbn [build_contents]. by rewrite Hbody. }
  assert (d <> None \/ h <> None) as Hs' by (destruct d, h; try (by left); try (by right); by destruct Hs).
  rewrite built_text by done. pose proof (fields_like d h Hd Hh) as Hf. set (fields := field_of "description" d ++ field_of "argument-hint" h) in *.
  assert (parse_frontmatter (fence ++ c_nl :: flat_map (fun l => l ++ [c_nl]) fields ++ fence ++ c_nl :: body) =
    Some (match h with Some v => <[str "argument-hint" := v]> | None => fun m => m end (match d with Some v => <[str "description" := v]> ∅ | None => ∅ end))) as Hm.
  { unfold parse_frontmatter. rewrite lines_feed, lines_of by (done || apply fence_line).
    change (str_eqb (trim_end (strip_cr fence)) (str "---")) with true. cbn iota. unfold fields.
    destruct d as [d|], h as [h|]; cbn [field_of app]; repeat rewrite loop_field by first [by left | by right | by auto]; reflexivity. }
  unfold parse_text. rewrite Hm. f_equal; [f_equal|].
  - unfold lookup_field. cbn. destruct h; rewrite ?lookup_insert_ne by done; destruct d; by rewrite ?lookup_insert_eq, ?lookup_empty.
  - unfold lookup_field. cbn. destruct h; rewrite ?lookup_insert_eq; [done|]. destruct d; by rewrite ?lookup_insert_ne, ?lookup_empty by done.
  - unfold body_after_fence. rewrite split_inclusive_line by apply fence_line.
    change (str_eqb (trim_feeds (fence ++ [c_nl])) fence) with true. by rewrite body_of.
Qed.

(** ** Paths as text *)

Definition plain_name (n : rstr) : Prop := n <> [] /\ c_slash ∉ n /\ n <> str "." /\ n <> str "..".

Lemma split_path l : Forall plain_name l -> split_on (N.eqb c_slash) (concat (map (fun c => str "/" ++ match c with Name n => n | Parent => str ".." end) (names l))) = [] :: l.
Proof.
  induction 1 as [|n l (_ & Hn & _) _ IH]; [done|]. cbn [names map concat]. change (str "/") with [c_slash].
  cbn [app split_on]. rewrite N.eqb_refl. f_equal. destruct l as [|m l].
  - cbn. rewrite app_nil_r. apply split_on_no_sep. intros x Hx. apply N.eqb_neq. congruence.
  - cbn [names map concat] in IH |- *. change (str "/") with [c_slash] in IH |- *. cbn [app split_on] in IH |- *. rewrite N.eqb_refl in IH.
    rewrite split_on_cons_sep; [|intros x Hx; apply N.eqb_neq; congruence|done]. f_equal. by injection IH.
Qed.

Lemma segments_named l : Forall plain_name l -> omap (M:=list) segment ([] :: l) = names l.
Proof.
  intros Hl. change (omap (M:=list) segment l = names l). induction Hl as [|m k (H1 & _ & H2 & H3) _ IH]; [done|].
  change (match segment m with Some y => y :: omap (M:=list) segment k | None => omap (M:=list) segment k end = Name m :: names k). rewrite IH. unfold segment.
  assert (is_empty m = false) as -> by by destruct m. unfold str_eqb. by rewrite !bool_decide_false by done.
Qed.

Lemma path_reads_back l : l <> [] -> Forall plain_name l -> parse_path (path_text (names l)) = {| up_absolute := true; up_comps := names l |}.
Proof.
  intros Hne Hl.
  assert (path_text (names l) = concat (map (fun c => str "/" ++ match c with Name n => n | Parent => str ".." end) (names l))) as Hp by by destruct l.
  unfold parse_path. f_equal; [rewrite Hp; by destruct l|]. rewrite Hp, split_path by done. by apply segments_named.
Qed.

Lemma last_dot_app a b : c_dot ∉ b -> last_dot (a ++ c_dot :: b) = Some (a, b).
Proof.
  intros Hb. induction a as [|c a IH]; cbn [app last_dot]; [|by rewrite IH].
  assert (last_dot b = None) as ->; [|done]. induction b as [|x b IH]; [done|]. apply not_elem_of_cons in Hb as [Hx Hb]. cbn. rewrite (IH Hb).
  by destruct (N.eqb_spec x c_dot).
Qed.

Lemma stem_md name : name <> [] -> file_stem (name ++ str ".md") = name.
Proof.
  intros Hn. unfold file_stem. change (str ".md") with (c_dot :: str "md"). rewrite last_dot_app; [by destruct name|].
  rewrite list_elem_of_In. vm_compute. intuition discriminate.
Qed.

(** ** A created prompt *)

Section Created.
Variables (links : nat) (utf8 : rstr -> list N) (from_utf8_lossy : list N -> rstr) (io_error : HubError) (debug : rstr -> rstr).
Hypothesis utf8_reads_back : forall t, from_utf8_lossy (utf8 t) = t.

(** C40: a prompt that is created is the one that is read: below a root that is
    a directory no link leads to, under a valid name of one word, with a content
    within the cap, the call succeeds where no such file is, and reading its
    path gives the name, the description, the hint and the content - when the
    description and the hint, where given, are not blank and have no quotes,
    backslashes and line feeds, and a content given without them does not begin
    like a front matter. *)
Theorem created_prompt_reads (fs : tree) (r : PromptRoots) (R : loc) (scope name content : rstr) (d h : option rstr) :
  R <> [] -> Forall plain_name R -> plain_dir fs R -> scope_root debug r scope = Ok (names R) ->
  trim name = name -> plain_name (name ++ str ".md") -> validate_name name = Ok name -> utf8_len content <= MAX_CONTENT_BYTES ->
  fs !! (R ++ [name ++ str ".md"]) = None ->
  (forall v, d = Some v -> plain_value v) -> (forall v, h = Some v -> plain_value v) ->
  (d = None -> h = None -> parse_frontmatter content = None) ->
  exists fs' in_scope, create links utf8 io_error debug fs r scope name d h content = (fs', Ok (names (R ++ [name ++ str ".md"]))) /\
    get_prompt links from_utf8_lossy fs' r (path_text (names (R ++ [name ++ str ".md"]))) =
    Ok {| pd_name := name; pd_description := d; pd_hint := h; pd_scope := in_scope; pd_content := content |}.
Proof using utf8_reads_back.
  intros Hne Hplain Hd Hscope Htrim Hfile Hname Hlen Hfree Hpd Hph Hbody. set (n := name ++ str ".md") in *.
  pose proof (realpath_dir links fs R Hd) as HR. pose proof (plain_dir_here fs R Hd) as Hhere.
  assert (is_dir_path links fs (names R) = true) as Hdir. { unfold is_dir_path, stat. rewrite HR. cbn. unfold dir_here in Hhere. by destruct (lstat fs R) as [[]|]. }
  assert (create links utf8 io_error debug fs r scope name d h content =
    (<[R ++ [n] := NFile (utf8 (build_contents d h content)) false]> fs, Ok (names (R ++ [n])))) as Hc.
  { unfold create. rewrite Hname. unfold check_content. replace (MAX_CONTENT_BYTES <? utf8_len content) with false by (symmetry; by apply Nat.ltb_ge).
    rewrite Hscope, (create_existing links fs (names R)), (valid_file_at (names R) name name Hname) by done.
    unfold lstat_path. rewrite (place_in_dir links fs (names R) _ R HR Hhere). cbn [mbind option_bind]. rewrite lstat_snoc. fold n. rewrite Hfree.
    unfold write_prompt. rewrite (write_new links fs (names R) R n _ HR Hhere Hfree).
    assert (forall o, (forall v, o = Some v -> plain_value v) -> unless_blank o = o) as Hb.
    { intros [v|] Hv; [|done]. destruct (Hv v eq_refl) as [Hbl _]. cbn. by rewrite Hbl. }
    rewrite !Hb by done. unfold child. by rewrite <-names_snoc. }
  rewrite Hc. set (fs' := <[_ := _]> fs). exists fs'.
  assert (plain_dir fs' R) as Hd' by by apply plain_dir_extend.
  assert (fs' !! (R ++ [n]) = Some (NFile (utf8 (build_contents d h content)) false)) as Hf by by unfold fs'; rewrite lookup_insert_eq.
  assert (file_place fs' (R ++ [n])) as Hplace by (unfold file_place; by rewrite Hf).
  assert (realpath links fs' (names (R ++ [n])) = Some (R ++ [n])) as Hreal.
  { apply realpath_self. right. exists R, n. eexists. split; [done|]. split; [done|]. by rewrite plain_lookup, Hf. }
  assert (contained links fs' r (names (R ++ [n])) = true) as Hin.
  { assert (in_root links fs' (names R) (names (R ++ [n])) = true) as Hroot.
    { unfold in_root, canonical_root. rewrite realpath_dir by done. apply bool_decide_eq_true. rewrite names_snoc. by exists [Name n]. }
    unfold contained. unfold scope_root in Hscope. destruct (str_eqb scope _).
    - destruct (pr_workspace r) as [w|]; [|done]. injection Hscope as ->. by rewrite Hroot.
    - destruct (str_eqb scope _); [|done]. injection Hscope as ->. by rewrite Hroot, orb_true_r. }
  eexists. split; [done|]. unfold get_prompt, ensure_within_roots.
  rewrite path_reads_back; [|by destruct R|apply Forall_app; split; [done|by constructor]]. cbn [up_absolute up_comps negb].
  rewrite Hreal, Hin. unfold is_file. rewrite stat_child, Hf by (done || by apply file_no_link). cbn [negb].
  unfold parse_prompt. rewrite read_child, Hf, utf8_reads_back, parse_built by done. unfold name_of. rewrite names_snoc, split_last_snoc.
  unfold n. rewrite stem_md; [done|]. intros ->. unfold validate_name in Hname. done.
Qed.
End Created.

Definition text_lines (ls : list string) : rstr := join [c_nl] (map str ls).
Definition c_q : rstr := [c_quote].

(** Bytes are the scalar values. *)
Definition library : tree := list_to_map [
  ([str "w"], NDir); ([str "w"; str ".damon"], NDir); ([str "w"; str ".damon"; str "prompts"], NDir); ([str "g"], NDir);
  ([str "g"; str "old.md"], NFile (text_lines ["---"; "description: d"; "--- "; "keep"; "---"; "rest"]%string) false);
  ([str "g"; str "cmd.md"], NFile (text_lines ["---"; "description: d"; "model: opus"; "---"; "body"]%string) false)].
Definition lib_roots : PromptRoots := roots (Some (names [str "w"])) (Some (names [str "g"])) None [].
Definition lib_error : HubError := hub_error Internal (str "io").
Definition lib_run (fs : tree) (o : prompt_op) : tree := run_op 8 id id (fun _ _ => true) lib_error id fs lib_roots o.
Definition lib_read (fs : tree) (p : string) : option (option rstr * rstr) :=
  match get_prompt 8 id fs lib_roots (str p) with Ok d => Some (pd_description d, pd_content d) | Err _ => None end.

(** Quotes are escaped and never unescaped: the description comes back changed, and
    each later update escapes it once more. *)
Theorem escapes_pile_up :
  let fs := lib_run library (Create (str "global") (str "p") (Some (str "say " ++ c_q)) None (str "x")) in
  let fs' := lib_run fs (Update (str "/g/p.md") None None None (Some (str "y"))) in
  lib_read fs "/g/p.md" = Some (Some (str "say \" ++ c_q), str "x") /\
  lib_read fs' "/g/p.md" = Some (Some (str "say \\\" ++ c_q), str "y").
Proof. split; vm_compute; reflexivity. Qed.

(** A fence with a blank behind it ends the front matter for one reader and not for
    the other: the text up to the next fence is gone. *)
Theorem fence_with_blank_loses_text : lib_read library "/g/old.md" = Some (Some (str "d"), str "rest").
Proof. vm_compute. reflexivity. Qed.

(** A content that begins like a front matter is read as one. *)
Theorem content_read_as_front_matter :
  let content := text_lines ["---"; "title: t"; "---"; "body"]%string in
  lib_read (lib_run library (Create (str "global") (str "p") None None content)) "/g/p.md" = Some (None, str "body").
Proof. vm_compute. reflexivity. Qed.

(** An update drops what else the front matter says. *)
Theorem update_drops_fields :
  read 8 (lib_run library (Update (str "/g/cmd.md") None None None (Some (str "new")))) (names [str "g"; str "cmd.md"]) =
  Some (str "---" ++ [c_nl] ++ str "description: " ++ c_q ++ str "d" ++ c_q ++ [c_nl] ++ str "---" ++ [c_nl] ++ str "new").
Proof. vm_compute. reflexivity. Qed.

(** A prompt of that name is created and never listed. *)
Theorem readme_not_listed :
  let fs := lib_run library (Create (str "global") (str "README") None None (str "x")) in
  lib_read fs "/g/README.md" = Some (None, str "x") /\
  map pt_name (list_prompts 8 id id fs lib_roots) = [str "cmd"; str "old"].
Proof. split; vm_compute; reflexivity. Qed.

(** A path through a missing name and back up passes for one below the root. *)
Theorem dotdot_passes :
  ensure_within_roots 8 library lib_roots (str "/g/gone/../../etc/passwd") = Ok (up_comps (parse_path (str "/g/gone/../../etc/passwd"))).
Proof. vm_compute. reflexivity. Qed.

(** ** Witnesses *)

Lemma prompts_confined_witness :
  let o := Move (str "/g/old.md") (str "workspace") in
  let fs' := lib_run library o in
  roots_exist 8 library lib_roots /\ tree_ok library /\
  forall l, fs' !! l <> library !! l ->
    (exists root R, root ∈ root_list lib_roots /\ realpath 8 library root = Some R /\ R `prefix_of` l) /\
    (forall n, library !! l = Some n -> exists t canon, op_path o = Some t /\ ensure_within_roots 8 library lib_roots t = Ok canon /\ canon `prefix_of` names l).
Proof.
  intros o fs'.
  assert (roots_exist 8 library lib_roots) as Hr.
  { intros root Hin. unfold root_list, lib_roots in Hin. repeat (apply elem_of_cons in Hin as [->|Hin]; [eexists; split; vm_compute; reflexivity|]).
    by apply elem_of_nil in Hin. }
  assert (tree_ok library) as Hok.
  { intros l n x H. apply elem_of_list_to_map_2 in H. repeat (apply elem_of_cons in H as [H|H];
      [injection H as Hl _; destruct l as [|a [|b [|c [|d l]]]]; try discriminate Hl; injection Hl as; subst; vm_compute; reflexivity|]).
    by apply elem_of_nil in H. }
  split; [exact Hr|]. split; [exact Hok|].
  apply (prompts_confined 8 id id (fun _ _ => true) lib_error id library lib_roots o Hr Hok).
  intros t [= <-]. apply within_limit_check. vm_compute. reflexivity.
Defined.

Lemma created_prompt_reads_witness :
  plain_dir library [str "g"] /\ validate_name (str "p") = Ok (str "p") /\
  exists fs' in_scope, create 8 id lib_error id library lib_roots (str "global") (str "p") (Some (str "a prompt")) None (str "x") = (fs', Ok (names [str "g"; str "p.md"])) /\
    get_prompt 8 id fs' lib_roots (path_text (names [str "g"; str "p.md"])) =
    Ok {| pd_name := str "p"; pd_description := Some (str "a prompt"); pd_hint := None; pd_scope := in_scope; pd_content := str "x" |}.
Proof.
  assert (plain_dir library [str "g"]) as Hd. { intros [|[|k]] Hk; [reflexivity..|cbn in Hk; lia]. }
  split; [exact Hd|]. split; [vm_compute; reflexivity|].
  apply (created_prompt_reads 8 id id lib_error id (fun t => eq_refl) library lib_roots [str "g"] (str "global") (str "p") (str "x") (Some (str "a prompt")) None);
    try reflexivity; try discriminate; try exact Hd.
  - repeat constructor; try discriminate. rewrite list_elem_of_In. vm_compute. intuition discriminate.
  - split_and!; try discriminate. rewrite list_elem_of_In. vm_compute. intuition discriminate.
  - apply Nat.leb_le. vm_compute. reflexivity.
  - intros v [= <-]. split; [reflexivity|]. rewrite !list_elem_of_In. vm_compute. intuition discriminate.
Defined.
