(* ===== verification/SessionCalls.v ===== *)
(** * SessionCalls: a client's sessions ([session.*] of [rpc.rs])

    Creating, resuming, restarting, watching, closing and deleting sessions as
    programs whose every step is a call of the session manager, the store, the
    personas or the connection; what happens between two steps is anything. *)

From S2P Require Import Prelude Str Json Rows PlanStore SessionStore Events Session AgentCli Interact SkillText Worktree Wire.

(** ** Parameters *)

Definition jstrings (v : json) : option (list rstr) := as_array v ≫= mapM as_str.

(** [HashMap<String, String>] *)
Definition jstring_map (v : json) : option (list (rstr * rstr)) :=
  as_object v ≫= mapM (fun kv => (fun s => (kv.1, s)) <$> as_str kv.2).

Definition mcp_server (v : json) : option McpServerConfig :=
  command ← as_str v.["command"];
  Some {| mc_command := command; mc_args := default [] (jstrings v.["args"]); mc_env := default [] (jstring_map v.["env"]) |}.

Definition mcp_servers (m : list (rstr * json)) : list (rstr * McpServerConfig) :=
  omap (M:=list) (fun kv => (fun s => (kv.1, s)) <$> mcp_server kv.2) m.

(** [here] is the daemon's directory. *)
Definition session_config (here : rstr) (params : json) : SessionConfig := {|
  sc_cwd := default here (as_str params.["cwd"]); sc_model := as_str params.["model"]; sc_mode := as_str params.["mode"];
  sc_mcp_servers := mcp_servers (default [] (as_object params.["mcpServers"])); sc_granted_roots := [];
  sc_allowed_tools := omap (M:=list) as_str (default [] (as_array params.["allowedTools"])) |}.

Definition with_roots (roots : list rstr) (c : SessionConfig) : SessionConfig := {|
  sc_cwd := sc_cwd c; sc_model := sc_model c; sc_mode := sc_mode c; sc_mcp_servers := sc_mcp_servers c; sc_granted_roots := roots;
  sc_allowed_tools := sc_allowed_tools c |}.

(** A directory and nothing else. *)
Definition config_at (cwd : rstr) : SessionConfig := {|
  sc_cwd := cwd; sc_model := None; sc_mode := None; sc_mcp_servers := []; sc_granted_roots := []; sc_allowed_tools := [] |}.

(** [PersistenceHandle], from an object or from its fields in order. *)
Definition handle_of (v : json) : option PersistenceHandle :=
  let make provider native metadata := Some {| h_provider := provider; h_native_handle := native; h_metadata := metadata |} in
  match v with
  | JObj _ => provider ← req_field v "provider"; native ← req_field v "native_handle"; make provider native (default JNull (get v (str "metadata")))
  | JArr [JStr provider; JStr native] => make provider native JNull
  | JArr [JStr provider; JStr native; metadata] => make provider native metadata
  | _ => None
  end.

(** ** Calls *)

Record Bound := { bo_bot : rstr; bo_block : option rstr }.

Inductive call :=
| GetProject (id : rstr)
| CwdAllowed (cwd : rstr)
| ResolveBot (id : rstr)
| Grants (project : option rstr)
| Create (backend : option rstr) (config : SessionConfig) (persona : option Bound)
| Resume (id : rstr) (handle : PersistenceHandle) (config : SessionConfig) (persona : option Bound)
| Close (id : rstr)
| GetLive (id : rstr)
| CreateRow (id cwd agent : rstr)
| SetProject (id project : rstr)
| SetPersona (id bot : rstr)
| SetModel (id model : rstr)
| SetAgent (id agent native : rstr)
| Rename (id title : rstr)
| DeleteRow (id : rstr)
| FindBound (agent native : rstr)
| AgentSession (id : rstr)
| SessionCwd (id : rstr)
| SessionProject (id : rstr)
| SessionPersona (id : rstr)
| Subscribe (session : ManagedSession)
| Unsubscribe (id : rstr)
| FreshId.

#[export] Instance call_effect : Effect call := fun e =>
  match e with
  | GetProject _ => option ProjectRow
  | CwdAllowed _ | Unsubscribe _ => bool
  | ResolveBot _ => option Bound
  | Grants _ => list rstr
  | Create _ _ _ | Resume _ _ _ _ => result ManagedSession Error
  | Close _ | CreateRow _ _ _ => result unit Error
  | GetLive _ => option ManagedSession
  | SetProject _ _ | SetPersona _ _ | SetModel _ _ | SetAgent _ _ _ | Rename _ _ | DeleteRow _ => unit
  | FindBound _ _ | SessionCwd _ | SessionPersona _ => option rstr
  | AgentSession _ => option (rstr * rstr)
  | SessionProject _ => result (option rstr) Error
  | Subscribe _ => nat
  | FreshId => rstr
  end.

Abbreviation program A := (prog call A) (only parsing).

Open Scope prog_scope.

Definition gate (cwd : rstr) : program (result unit Error) :=
  ok <- ask (CwdAllowed cwd);
  Ret (if (ok : bool) then Ok tt else Err (invalid_params (str "cwd " ++ cwd ++ str " is outside the configured allowed_dirs"))).

Definition answer_session (id backend : rstr) (replayed : nat) : json :=
  mk_obj [field "sessionId" (JStr id); field "backend" (JStr backend); field "replayed" (jint (Z.of_nat replayed))].

(** A bound session names its bot. *)
Definition answer_bound (id : rstr) (ms : ManagedSession) (replayed : nat) : json :=
  mk_obj ([field "sessionId" (JStr id); field "backend" (JStr (m_provider ms)); field "replayed" (jint (Z.of_nat replayed))] ++
          opt_field "persona" ((fun p => JStr p.1) <$> m_persona ms)).

Section Calls.
Context `{JT : JsonText}.
Variable here : rstr.

(** ** [session.create] *)

(** A project's defaults fill what the request leaves unset. *)
Definition fill_defaults (params : json) (cfg : SessionConfig) (backend : option rstr) (p : ProjectRow) : SessionConfig * option rstr :=
  let defaults := default JNull (from_str (pr_defaults p)) in
  ({| sc_cwd := match as_str params.["cwd"] with Some _ => sc_cwd cfg | None => pr_root p end;
      sc_model := match sc_model cfg with Some m => Some m | None => as_str defaults.["model"] end;
      sc_mode := match sc_mode cfg with Some m => Some m | None => as_str defaults.["mode"] end;
      sc_mcp_servers := match sc_mcp_servers cfg with [] => mcp_servers (default [] (as_object defaults.["mcpServers"])) | l => l end;
      sc_granted_roots := sc_granted_roots cfg; sc_allowed_tools := sc_allowed_tools cfg |},
   match backend with Some b => Some b | None => as_str defaults.["backend"] end).

Definition scope_session (params : json) : program (result (SessionConfig * option rstr * option rstr) Error) :=
  let cfg := session_config here params in
  let backend := as_str params.["backend"] in
  match as_str params.["projectId"] with
  | None => Ret (Ok (cfg, backend, None))
  | Some pid =>
      p <- ask (GetProject pid);
      Ret match p with
          | None => Err (invalid_params (str "unknown project " ++ pid))
          | Some p => let '(cfg, backend) := fill_defaults params cfg backend p in Ok (cfg, backend, Some pid)
          end
  end.

Definition chosen_persona (params : json) : program (result (option Bound) Error) :=
  match as_str params.["persona"] with
  | None => Ret (Ok None)
  | Some id =>
      b <- ask (ResolveBot id);
      Ret match b with
          | Some p => Ok (Some p)
          | None => Err (invalid_params (str "unknown persona `" ++ id ++ str "` — bot.save it first"))
          end
  end.

(** What is written when there is something to write. *)
Definition when_some {A} (o : option A) (e : A -> program unit) : program unit := match o with Some a => e a | None => Ret tt end.

Definition session_create (params : json) : program (result json Error) :=
  scoped <-? scope_session params;
  let '(cfg, backend, project) := scoped in
  gate (sc_cwd cfg) ;?
  persona <-? chosen_persona params;
  roots <- ask (Grants project);
  let cfg := with_roots roots cfg in
  ms <-? (ask (Create backend cfg persona) : program (result ManagedSession Error));
  (ask (CreateRow (m_id ms) (sc_cwd cfg) (m_provider ms)) : program (result unit Error)) ;?
  when_some project (fun pid => ask (SetProject (m_id ms) pid)) ;;
  when_some persona (fun p => ask (SetPersona (m_id ms) (bo_bot p))) ;;
  when_some (sc_model cfg) (fun m => ask (SetModel (m_id ms) m)) ;;
  replayed <- ask (Subscribe ms);
  Ret (Ok (answer_bound (m_id ms) ms replayed)).

(** ** [session.resume] and [session.restart] *)

Definition reattach (id : rstr) : program (result json Error) :=
  bound <- ask (AgentSession id);
  match bound with
  | None => Ret (Err {| ee_message := str "no persisted backend session for this id"; ee_chain := [] |})
  | Some (provider, native) =>
      cwd <- ask (SessionCwd id);
      let cwd := default (str ".") cwd in
      gate cwd ;?
      project <-? (ask (SessionProject id) : program (result (option rstr) Error));
      roots <- ask (Grants project);
      bot <- ask (SessionPersona id);
      persona <- match bot with Some b => ask (ResolveBot b) | None => Ret None end;
      ms <-? (ask (Resume id {| h_provider := provider; h_native_handle := native; h_metadata := JNull |} (with_roots roots (config_at cwd)) persona)
              : program (result ManagedSession Error));
      replayed <- ask (Subscribe ms);
      Ret (Ok (answer_bound id ms replayed))
  end.

(** The session of a native one: the row bound to it, or a new one. *)
Definition adopt (params : json) (handle : PersistenceHandle) : program (result rstr Error) :=
  existing <- ask (FindBound (h_provider handle) (h_native_handle handle));
  match existing with
  | Some id => Ret (Ok id)
  | None =>
      id <- ask FreshId;
      let cwd := match as_str params.["cwd"] with Some c => c | None => default (str ".") (as_str (h_metadata handle).["cwd"]) end in
      (ask (CreateRow id cwd (h_provider handle)) : program (result unit Error)) ;?
      ask (SetAgent id (h_provider handle) (h_native_handle handle)) ;;
      when_some (as_str params.["title"]) (fun title => ask (Rename id title)) ;;
      Ret (Ok id)
  end.

Definition resume_handle (params hv : json) : program (result json Error) :=
  match handle_of hv with
  | None => Ret (Err (invalid_params (str "handle must be {provider, native_handle, metadata?}")))
  | Some handle =>
      if is_empty (h_provider handle) || is_empty (h_native_handle handle)
      then Ret (Err (invalid_params (str "handle requires provider and native_handle")))
      else
        id <-? adopt params handle;
        cwd <- ask (SessionCwd id);
        let cwd := default (str ".") cwd in
        gate cwd ;?
        project <-? (ask (SessionProject id) : program (result (option rstr) Error));
        roots <- ask (Grants project);
        ms <-? (ask (Resume id handle (with_roots roots (config_at cwd)) None) : program (result ManagedSession Error));
        replayed <- ask (Subscribe ms);
        Ret (Ok (answer_session id (m_provider ms) replayed))
  end.

Definition session_resume (params : json) : program (result json Error) :=
  match get params (str "handle") with
  | Some hv => resume_handle params hv
  | None =>
      id <-? Ret (req_str params "sessionId");
      live <- ask (GetLive id);
      match live with
      | Some ms => replayed <- ask (Subscribe ms); Ret (Ok (answer_session id (m_provider ms) replayed))
      | None => reattach id
      end
  end.

Definition session_restart (params : json) : program (result json Error) :=
  id <-? Ret (req_str params "sessionId");
  live <- ask (GetLive id);
  match live with
  | Some ms =>
      if m_busy ms then Ret (Err (rpc_error (-32006) (str "a turn is already running on this session")))
      else (ask (Close id) : program (result unit Error)) ;? reattach id
  | None => reattach id
  end.

(** ** The others *)

Definition session_watch (params : json) : program (result json Error) :=
  id <-? Ret (req_str params "sessionId");
  live <- ask (GetLive id);
  match live with
  | None => Ret (Err (rpc_error (-32001) (str "session not live — resume it before watching")))
  | Some ms =>
      replayed <- ask (Subscribe ms);
      Ret (Ok (mk_obj [field "sessionId" (JStr id); field "subscribed" (JBool true); field "replayed" (jint (Z.of_nat replayed))]))
  end.

Definition session_unwatch (params : json) : program (result json Error) :=
  id <-? Ret (req_str params "sessionId");
  removed <- ask (Unsubscribe id);
  Ret (Ok (mk_obj [field "sessionId" (JStr id); field "subscribed" (JBool (negb removed))])).

Definition session_delete (params : json) : program (result json Error) :=
  id <-? Ret (req_str params "sessionId");
  ask (Close id) ;;
  ask (DeleteRow id) ;;
  Ret (Ok (mk_obj [field "deleted" (JBool true)])).

Definition session_close (params : json) : program (result json Error) :=
  id <-? Ret (req_str params "sessionId");
  (ask (Close id) : program (result unit Error)) ;?
  Ret (Ok (mk_obj [field "closed" (JBool true)])).

Inductive method := MCreate | MResume | MRestart | MWatch | MUnwatch | MDelete | MClose.

Definition session_call (m : method) : json -> program (result json Error) :=
  match m with
  | MCreate => session_create
  | MResume => session_resume
  | MRestart => session_restart
  | MWatch => session_watch
  | MUnwatch => session_unwatch
  | MDelete => session_delete
  | MClose => session_close
  end.
End Calls.
