(* ===== verification/SessionGate.v ===== *)
(** * SessionGate: where agents are launched

    What a session call has been told before it launches an agent ([guarded]), and
    calls on concrete dialogues.  The executors of missions launch their agents
    without these calls. *)

From S2P Require Import Prelude Str Json Rows Session PlanStore SessionStore Events AgentCli SkillText Interact Worktree Wire SessionCalls.

Abbreviation dialog := (list (seen call)) (only parsing).

Definition told (e : call) (x : answer_of e) (t : dialog) : Prop := Seen e x ∈ t.

(** An agent is launched by a new session and by the return to one. *)
Definition launches (e : call) : bool := match e with Create _ _ _ | Resume _ _ _ _ => true | _ => false end.

Section Guards.
Variables (here : rstr) (m : method) (params : json).

(** A new session is in the project asked for, which is there; its directory is
    the one asked for, else the project's root, else the daemon's. *)
Definition placed (t : dialog) (cwd : rstr) : Prop :=
  match as_str params.["projectId"] with
  | None => cwd = default here (as_str params.["cwd"])
  | Some pid => exists p, told (GetProject pid) (Some p) t /\ cwd = default (pr_root p) (as_str params.["cwd"])
  end.

(** The folders are those of the project asked for; the persona is the one asked for
    and loads now. *)
Definition creation (t : dialog) (cfg : SessionConfig) (persona : option Bound) : Prop :=
  m = MCreate /\
  told (Grants (as_str params.["projectId"])) (sc_granted_roots cfg) t /\
  match as_str params.["persona"] with
  | None => persona = None
  | Some bot => persona <> None /\ told (ResolveBot bot) persona t
  end /\
  placed t (sc_cwd cfg).

(** The directory and the folders are those of the session's own row. *)
Definition own_scope (t : dialog) (id : rstr) (cfg : SessionConfig) : Prop :=
  (exists cwd, told (SessionCwd id) cwd t /\ sc_cwd cfg = default (str ".") cwd) /\
  exists project, told (SessionProject id) (Ok project) t /\ told (Grants project) (sc_granted_roots cfg) t.

(** The calls that name a session by its id. *)
Definition names_session : Prop :=
  match m with MResume => get params (str "handle") = None | MRestart => True | _ => False end.

(** The session asked for, by the native handle and with the persona of its row. *)
Definition by_id (t : dialog) (id : rstr) (handle : PersistenceHandle) (persona : option Bound) : Prop :=
  names_session /\ req_str params "sessionId" = Ok id /\
  told (AgentSession id) (Some (h_provider handle, h_native_handle handle)) t /\
  exists bot, told (SessionPersona id) bot t /\
    match bot with None => persona = None | Some b => told (ResolveBot b) persona t end.

(** The native handle asked for, for the session bound to it or for a new one; no persona. *)
Definition by_handle (t : dialog) (id : rstr) (handle : PersistenceHandle) (persona : option Bound) : Prop :=
  m = MResume /\ persona = None /\
  (exists hv, get params (str "handle") = Some hv /\ handle_of hv = Some handle) /\
  (told (FindBound (h_provider handle) (h_native_handle handle)) (Some id) t \/ told FreshId id t).

Definition guarded (t : dialog) (e : call) : Prop :=
  match e with
  | Create _ cfg persona => told (CwdAllowed (sc_cwd cfg)) true t /\ creation t cfg persona
  | Resume id handle cfg persona =>
      told (CwdAllowed (sc_cwd cfg)) true t /\ own_scope t id cfg /\ (by_id t id handle persona \/ by_handle t id handle persona)
  | _ => True
  end.
End Guards.

Lemma told_last e x t : told e x (t ++ [Seen e x]).
Proof. apply elem_of_app. right. by left. Qed.

Lemma told_more e x t s : told e x t -> told e x (t ++ s).
Proof. intros H. apply elem_of_app. by left. Qed.

Ltac find_told := solve [repeat first [eassumption | apply told_last | apply told_more]].

(** The next answer of a program, or a case of one. *)
Ltac next_answer :=
  match goal with
  | |- forall _, _ => intros ?
  | |- wp (match ?x with _ => _ end) _ _ => is_var x; destruct x
  | |- wp ?p _ _ => match p with context [match ?x with _ => _ end] => is_var x; destruct x end
  | |- wp ?p _ _ => match p with context [match ?x with _ => _ end] => destruct x end
  end.

Ltac walk := repeat first [progress unfold bind_ok, gate, when_some, ask | progress cbn [wp bind] | next_answer].

Ltac guards := repeat (apply each_snoc; [|try exact I]).

Section Gate.
Context `{JT : JsonText}.
Variables (here : rstr) (m : method) (params : json).

Abbreviation guarded := (guarded here m params) (only parsing).

Definition stays_guarded {A} (p : prog call A) : Prop := forall pre, each guarded pre -> wp p pre (fun t _ => each guarded t).

(** A program that launches nothing. *)
Lemma launches_quiet {A} (p : prog call A) : calls_only (fun e => launches e = false) p -> stays_guarded p.
Proof.
  intros Hp pre H. eapply wp_mono; [|by apply wp_calls_only]. intros t a Hs. apply (each_since guarded (fun e => launches e = false) pre t); [|done..].
  intros s e He. by destruct e.
Qed.

Ltac find_scope := split; [eexists; split; [find_told|reflexivity]|eexists; split; [find_told|find_told]].

Lemma reattach_guarded id : names_session m params -> req_str params "sessionId" = Ok id -> stays_guarded (reattach id).
Proof.
  intros Hn Hid pre H. unfold reattach. walk; guards; try done.
  all: split; [find_told|split; [find_scope|left; split; [done|split; [done|split; [find_told|eexists; split; [find_told|done || find_told]]]]]].
Qed.

Lemma adopt_guarded handle pre : each guarded pre ->
  wp (adopt params handle) pre (fun t r => each guarded t /\
    forall id, r = Ok id -> told (FindBound (h_provider handle) (h_native_handle handle)) (Some id) t \/ told FreshId id t).
Proof.
  intros H. unfold adopt. walk; (split; [by guards|]); intros i Hi; try done; injection Hi as <-; first [left; find_told|right; find_told].
Qed.

Lemma resume_handle_guarded hv : m = MResume -> get params (str "handle") = Some hv -> stays_guarded (resume_handle params hv).
Proof.
  intros Hm Hhv pre H. unfold resume_handle. destruct (handle_of hv) as [handle|] eqn:Eh; [|done]. destruct (_ || _); [done|].
  apply wp_bind. eapply wp_mono; [|by apply adopt_guarded]. intros t [id|e] [Ht Hid]; [|done]. specialize (Hid id eq_refl).
  walk; guards; try done.
  all: split; [find_told|split; [find_scope|right; split; [done|split; [done|split; [by exists hv|]]]]].
  all: destruct Hid; [left; find_told|right; find_told].
Qed.

Lemma resume_guarded : m = MResume -> stays_guarded (session_resume params).
Proof.
  intros Hm. unfold session_resume. destruct (get params (str "handle")) as [hv|] eqn:Eg; [by apply resume_handle_guarded|].
  intros pre H. destruct (req_str params "sessionId") as [id|e] eqn:Eid; walk; try (by guards). apply reattach_guarded; [by rewrite Hm|done|by guards].
Qed.

Lemma restart_guarded : m = MRestart -> stays_guarded (session_restart params).
Proof.
  intros Hm pre H. unfold session_restart. destruct (req_str params "sessionId") as [id|e] eqn:Eid; walk; try (by guards).
  all: apply reattach_guarded; [by rewrite Hm|done|by guards].
Qed.

Lemma scope_guarded pre : each guarded pre ->
  wp (scope_session here params) pre (fun t r => each guarded t /\
    forall cfg backend project, r = Ok (cfg, backend, project) -> project = as_str params.["projectId"] /\ placed here params t (sc_cwd cfg)).
Proof.
  intros H. unfold scope_session, placed. destruct (as_str params.["projectId"]) as [pid|].
  - cbn [wp ask bind]. intros [p|]; cbn [wp]; (split; [by guards|]); [|done]. intros cfg backend project [= <- _ <-]. split; [done|].
    exists p. split; [find_told|]. cbn. by destruct (as_str params.["cwd"]).
  - cbn [wp]. split; [done|]. intros cfg backend project [= <- _ <-]. done.
Qed.

Lemma chosen_guarded pre : each guarded pre ->
  wp (chosen_persona params) pre (fun t r =>
    each guarded t /\ pre `prefix_of` t /\
    forall persona, r = Ok persona ->
      match as_str params.["persona"] with
      | None => persona = None
      | Some bot => persona <> None /\ told (ResolveBot bot) persona t
      end).
Proof.
  intros H. unfold chosen_persona. destruct (as_str params.["persona"]) as [bot|].
  - cbn [wp ask bind]. intros [b|]; cbn [wp]; (split; [by guards|split; [by eexists|]]); [|done].
    intros persona [= <-]. split; [done|find_told].
  - cbn [wp]. split; [done|]. split; [exists []; by rewrite app_nil_r|]. by intros persona [= <-].
Qed.

Lemma create_launch_guarded : m = MCreate -> stays_guarded (session_create here params).
Proof.
  intros Hm pre H. unfold session_create. apply wp_bind. eapply wp_mono; [|by apply scope_guarded].
  intros t [[[cfg backend] project]|e] [Ht Hs]; [|done]. destruct (Hs _ _ _ eq_refl) as [-> Hp]. clear Hs.
  unfold gate, bind_ok, ask. cbn [wp bind]. intros [|]; cbn [wp bind]; [|by guards].
  apply wp_bind. eapply wp_mono; [|apply chosen_guarded; by guards]. intros t' [persona|e] (Ht' & Hpre & Hb); [|done].
  specialize (Hb _ eq_refl).
  assert (Hc : told (CwdAllowed (sc_cwd cfg)) true t') by (destruct Hpre as [u ->]; find_told).
  assert (Hp' : placed here params t' (sc_cwd cfg)).
  { unfold placed in *. destruct (as_str params.["projectId"]) as [pid|]; [|done]. destruct Hp as (p & Hp & Hw).
    exists p. split; [|done]. destruct Hpre as [u ->]. find_told. }
  clear Hpre. cbn [wp]. intros roots ms.
  assert (HC : each guarded ((t' ++ [Seen (Grants (as_str params.["projectId"])) roots]) ++ [Seen (Create backend (with_roots roots cfg) persona) ms])).
  { guards; try done. split; [find_told|split; [done|split; [find_told|split]]].
    - destruct (as_str params.["persona"]); [destruct Hb; split; [done|find_told]|done].
    - unfold placed in *. destruct (as_str params.["projectId"]); [|done].
      destruct Hp' as (p & ? & ?). exists p. split; [find_told|done]. }
  revert HC. apply launches_quiet. destruct ms as [ms|e]; [|done]. unfold bind_ok, when_some. cbn. split; [done|]. intros [[]|e]; [|done].
  destruct (as_str params.["projectId"]), persona, (sc_model cfg); cbn; repeat (split; [done|intros ?]); done.
Qed.

Lemma call_guarded m' : m = m' -> stays_guarded (session_call here m' params).
Proof.
  intros Hm. destruct m'; cbn [session_call];
    [by apply create_launch_guarded|by apply resume_guarded|by apply restart_guarded|..]; apply launches_quiet.
  all: unfold session_watch, session_unwatch, session_delete, session_close; destruct (req_str params "sessionId") as [id|e]; cbn; try done.
  all: by (split; [done|intros []; repeat split]).
Qed.

End Gate.

#[local] Instance no_text : JsonText := {| to_string := fun _ => []; to_string_pretty := fun _ => []; from_str := fun _ => None |}.

Definition demo_handle : PersistenceHandle := {| h_provider := str "claude"; h_native_handle := str "n1"; h_metadata := JNull |}.

Definition demo_session (persona : option (rstr * option rstr)) : ManagedSession := {|
  Session.m_id := str "s1"; m_provider := str "claude"; m_handle := Some demo_handle; m_busy := false; m_ever_used := false; m_age := 0; m_idle_secs := 0;
  m_persona := persona |}.

Definition for_session : json := mk_obj [field "sessionId" (JStr (str "s1"))].

(** Resuming a session of a project whose row names a bot. *)
Definition demo_bound : Bound := {| bo_bot := str "ada"; bo_block := None |}.

Definition demo_resumed : ManagedSession := demo_session (Some (str "ada", None)).

Definition demo_resume : dialog := [
  Seen (GetLive (str "s1")) None;
  Seen (AgentSession (str "s1")) (Some (str "claude", str "n1"));
  Seen (SessionCwd (str "s1")) (Some (str "/w"));
  Seen (CwdAllowed (str "/w")) true;
  Seen (SessionProject (str "s1")) (Ok (Some (str "p1")));
  Seen (Grants (Some (str "p1"))) [str "/w"; str "/data"];
  Seen (SessionPersona (str "s1")) (Some (str "ada"));
  Seen (ResolveBot (str "ada")) (Some demo_bound);
  Seen (Resume (str "s1") demo_handle (with_roots [str "/w"; str "/data"] (config_at (str "/w"))) (Some demo_bound)) (Ok demo_resumed);
  Seen (Subscribe demo_resumed) 4%nat ].

(** A new session in that project, with that bot. *)
Definition for_project : json := mk_obj [field "projectId" (JStr (str "p1")); field "persona" (JStr (str "ada"))].

Definition demo_project : ProjectRow := {|
  SessionStore.pr_id := str "p1"; SessionStore.pr_name := str "p"; pr_root := str "/w"; pr_defaults := []; pr_created := []; SessionStore.pr_kind := str "project";
  pr_parent := None; pr_meta := [] |}.

Definition demo_create : dialog := [
  Seen (GetProject (str "p1")) (Some demo_project);
  Seen (CwdAllowed (str "/w")) true;
  Seen (ResolveBot (str "ada")) (Some demo_bound);
  Seen (Grants (Some (str "p1"))) [str "/w"; str "/data"];
  Seen (Create None (with_roots [str "/w"; str "/data"] (config_at (str "/w"))) (Some demo_bound)) (Ok demo_resumed);
  Seen (CreateRow (str "s1") (str "/w") (str "claude")) (Ok tt);
  Seen (SetProject (str "s1") (str "p1")) tt;
  Seen (SetPersona (str "s1") (str "ada")) tt;
  Seen (Subscribe demo_resumed) 0%nat ].


(** ** What the model shows *)

(** A session resumed by its handle is launched without its bot, which the other
    way of resuming it looks up; and nobody looks whether it is live already. *)
Lemma handle_drops_persona params hv t r :
  runs (resume_handle params hv) t r ->
  Forall (fun s => match Interact.call s with
                   | Resume _ _ _ p => p = None
                   | SessionPersona _ | ResolveBot _ | GetLive _ | Close _ => False
                   | _ => True
                   end) t.
Proof.
  set (P := fun e : call => match e with Resume _ _ _ p => p = None | SessionPersona _ | ResolveBot _ | GetLive _ | Close _ => False | _ => True end).
  assert (H : calls_only P (resume_handle params hv)).
  { unfold resume_handle. destruct (handle_of hv) as [handle|]; [|done]. destruct (_ || _); [done|].
    apply calls_only_bind_ok.
    - unfold adopt, when_some. split; [done|]. intros [id|]; [done|]. cbn. split; [done|]. intros id. split; [done|]. intros [[]|e]; [|done].
      split; [done|]. intros []. by destruct (as_str _).
    - intros id. split; [done|]. intros cwd. split; [done|]. intros [|]; [|done]. split; [done|]. intros [project|e]; [|done].
      split; [done|]. intros roots. split; [done|]. by intros [ms|e]. }
  intros Hr. apply (wp_runs _ [] _ _ _ (wp_calls_only P _ [] H)) in Hr as (u & Hu & Hall). cbn in Hu. by subst u.
Qed.

(** A native session in a directory that is not allowed has its row made, and bound,
    before it is refused; the row stays. *)
Definition refused_native : json :=
  mk_obj [field "handle" (mk_obj [field "provider" (JStr (str "claude")); field "native_handle" (JStr (str "n1"))]); field "cwd" (JStr (str "/etc"))].

Lemma refused_native_keeps_row :
  runs (session_resume refused_native) [
    Seen (FindBound (str "claude") (str "n1")) None;
    Seen FreshId (str "s9");
    Seen (CreateRow (str "s9") (str "/etc") (str "claude")) (Ok tt);
    Seen (SetAgent (str "s9") (str "claude") (str "n1")) tt;
    Seen (SessionCwd (str "s9")) (Some (str "/etc"));
    Seen (CwdAllowed (str "/etc")) false ]
  (Err (invalid_params (str "cwd /etc is outside the configured allowed_dirs"))).
Proof. vm_compute. repeat constructor. Qed.

(** Restarting a session that no handle was stored for closes it and then fails. *)
Lemma unbound_restart_closes :
  runs (session_restart for_session) [
    Seen (GetLive (str "s1")) (Some (demo_session None));
    Seen (Close (str "s1")) (Ok tt);
    Seen (AgentSession (str "s1")) None ]
  (Err {| ee_message := str "no persisted backend session for this id"; ee_chain := [] |}).
Proof. vm_compute. repeat constructor. Qed.
